(* ===== verification/_CoqProject ===== *)
-Q . S2P
Prelude.v
GoStrings.v
GoUtf8.v
GoBase64.v
GoNet.v
GoTime.v
GoJson.v
GoIP.v
GoFloat.v
IrcMsg.v
ISupport.v
Roster.v
RosterInv.v
RosterPage.v
Pacing.v
Sasl.v
Sts.v
Config.v
Handshake.v
HandshakeProofs.v
HandshakeBounds.v
HandshakeSend.v
StsStore.v
StsStoreProofs.v
Ring.v
RingProofs.v
Store.v
StoreProofs.v
StoreSpec.v
StoreRun.v
Outbound.v
Writer.v
Monitor.v
MonitorProofs.v
StsManager.v
StsManagerProofs.v
Multiline.v
JoinIntent.v
CapNotify.v
ServeLoop.v
NetGuard.v
LoginLimit.v
Sessions.v
SessionsProofs.v
TtlCache.v
Search.v
Highlight.v
Conn.v
StoreQuery.v
HubRoute.v
HubClose.v
HubInfo.v
Hub.v
HubStore.v
HubProofs.v
HubAnnounce.v
HubLayers.v
HubBounds.v
HubClosed.v
HubQueue.v
HubCommand.v
HubOwn.v
HubHistory.v
HubMembers.v
Policy.v
PolicyProofs.v
Push.v
PushProofs.v
ProxyDial.v
Netconf.v
Networks.v
NetworksProofs.v
NetworksPut.v
Media.v
Thumb.v
WebPush.v
MediaStream.v
HubRun.v
PolicyRun.v
HubView.v
