(* ===== verification/Prelude.v ===== *)
(** * ircthing: a verification library for the server side of the program

    ircthing is a self-hosted web IRC client: a Go server keeps the connections to
    the IRC networks open, stores what is said, and serves a browser front end.
    This library models the Go code of that server, file by file, as executable
    functions and as transition systems where goroutines interleave, and proves what
    the code promises.

    ** The program and where it is modelled

    Connections (src/internal/irc).  A [Manager] owns one network.  [Run] loads
    the STS policy of the host, dials, registers, then reads lines until the
    connection ends, and backs off.
    - [Config]: config.go, the settings of a network and their validation.
    - [Sasl]: sasl.go and scram.go; [Handshake]: handshake.go and the loop of
      [Manager.register] that drives it, proved in [HandshakeProofs],
      [HandshakeBounds] and [HandshakeSend], which also runs it.
    - [ISupport]: isupport.go; [Roster]: roster.go with its byte accounting,
      proved in [RosterInv]; [RosterPage]: the bounded member pages.
    - [Pacing]: backoff.go, ratelimit.go and linereader.go, a module each.
    - [IrcMsg] and [Outbound]: the checks and the queue an outgoing message goes
      through; [Writer]: the writer goroutine against everything that feeds it.
    - [Sts]: sts.go; [StsManager]: the policy state of a manager, what it dials
      and what it stores, against the class [StsStoreOps]; [StsManagerProofs]
      instantiates that class with the store of [StsStore].
    - [Monitor] with [MonitorProofs]: the MONITOR list; [JoinIntent]: the rejoin
      set; [CapNotify]: capabilities after registration; [Multiline]:
      multiline.go, both directions; [ServeLoop]: what a
      received line does, composed of all of these, with ctcp.go.

    Storage (src/internal/store).  SQLite tables with an in-memory suffix of each
    busy buffer in front of them.
    - [Ring] with [RingProofs]: ring.go; [Store]: the methods of store.go,
      prune.go and netconfigs.go on buffers and messages, with [StoreProofs]
      (invariants), [StoreSpec] (what the store promises) and [StoreRun] (runs).
    - [StsStore] with [StsStoreProofs]: sts.go, the policy rows.
    - [Search]: search.go.

    Web side (src/internal/api, src/internal/hub, src/internal/netguard).
    - [Sessions] with [SessionsProofs]: the session table of api.go,
      the password rotation of password.go and the push rows of push.go, one step
      per critical section, so that concurrent requests interleave.
    - [LoginLimit]: loginlimit.go; [TtlCache]: cache.go.
    - [ProxyDial]: proxydial.go, the SOCKS5 and HTTP CONNECT clients, over a
      peer that answers what it likes; [Media]: the egress of a network
      (mediaconfig.go), the tokens and the fetch of proxy.go; [Thumb]: thumb.go,
      the header scanners and the downscaling; [MediaStream]: the tokens and the relay of
      media.go, one step per point where something else can come between.
    - [WebPush]: the encryption, the tokens and the requests of internal/webpush, with the
      registration of push.go and the key of the server.
    - [NetGuard]: netguard.go, which addresses and hosts the server may contact
      for a client.
    - [Highlight]: highlight.go and loglimit.go of the hub.

    The hub (src/internal/hub).  It runs one event loop per network, keeps what the
    browsers see in step with the store, and owns the life of the networks.
    - [Conn]: the interface the hub sees of a connection, with the manager's
      implementation; [StoreQuery]: what else the hub asks of the store.
    - [HubRoute], [HubClose], [HubInfo] and [Hub]: hub.go.  [HubRoute] decides the
      buffer of a line, [HubClose] is the table of closed buffers, [HubInfo] the
      server notices, MOTD gate and whois cards, [Hub] the state and the loop
      ([Run] is [hubRun], one event [hubStep], one line [onMessage]).  An [act] is
      what the loop tells browsers, connection and push scheduler.  [HubStore],
      [HubProofs], [HubAnnounce], [HubLayers], [HubBounds] and [HubClosed] prove it.
    - [HubQueue]: the outbound queues of the sessions, as instructions that interleave.
    - [HubCommand]: the requests of a browser on a live network; [HubOwn]: our own
      messages, from a send to their replay; [HubHistory]: history pages;
      [HubMembers]: the pages of a channel's members; [HubView]: the buffers a
      browser lists, searches, closes and joins.
    - [Policy] with [PolicyProofs]: the synced rules, filters and renames of
      session.go; [Push] with [PushProofs]: push.go, the scheduler and its workers.
    - [Netconf]: netconf.go and the guards of a definition; [Networks] with
      [NetworksProofs] and [NetworksPut]: networks.go and netconfigs.go.
    - [HubRun] and [PolicyRun]: runs of all these at concrete states.

    The Go language and its library: this file (byte strings, machine integers,
    tactics, hint databases), [GoStrings], [GoUtf8], [GoBase64], [GoNet],
    [GoTime], [GoJson], [GoIP] and [GoFloat].

    ** Conventions

    A Go string is a list of bytes; [int] and [int64] are [Z], with the wrap
    around written out where a value can reach it; a map is a [gmap], and where
    the code ranges over one, the order is an argument constrained to be a
    permutation of it.  A method under a mutex is one function of the state; a
    method that releases the mutex is several steps.  Errors are [option] or sum
    types with the source's error values.  Third-party code and what the
    standard library does outside the program's reach are classes or arguments:
    the message parser of irc.v4 ([IrcV4]), SHA-256, HMAC and PBKDF2
    ([ScramCrypto], [Sha256]), the case tables of [unicode], JSON encoding of the
    policy rows and definitions ([PolicyJson], [NetJson]), P-256, AES-GCM and PKCS #8
    ([P256], [AesGcm], [Pkcs8]), bcrypt, the FTS5 match predicate, clocks and timers, and SQLite's
    choice of row ids.  Each theorem that has such an assumption is applied at a
    concrete instance.

    ** What is proved

    - Credentials: nothing but the capability query and PONGs leaves in the clear;
      registration with SASL means the mechanism completed, with SCRAM that the
      server proved its key; SCRAM succeeds against a conforming server.
    - STS: a plaintext dial is always justified by what was read just before;
      stored policies protect after a restart; records that cannot be decoded
      fail closed; a set is read back; an active policy under any spelling of the
      host is found.
    - Sessions: a rotation ends every session and push subscription of the old
      password in every interleaving, no socket outlives its session, the new
      password survives a restart; failed logins are delayed and attempts bounded.
    - Storage: pages served from memory are the pages of the SQL query, appends
      store once, redactions leave no content, the memory budget holds, names that
      fold alike share a buffer, searches page exactly.
    - Bounds against a hostile server: the roster accounting is exact and within
      its caps, registration state, ISUPPORT, monitor rebuilds, batches and queues
      are bounded, and the client never queues a line that makes its own writer
      tear the connection down.
    - Round trips and equivalences: multiline messages arrive whole, chunked SASL
      challenges are reassembled, heap pages are sorted prefixes, the address
      guard agrees with the list of public ranges, the monitor list of the server
      becomes the target.
    - The hub: a live line is announced exactly as stored and in order, a replayed one
      silently; hub and connection agree on what is a replay; a closed channel stays
      closed; our own message is kept once; the loop's state is bounded; the queue
      accounting is exact under every interleaving and the slowest reader pays for an
      exhausted budget; a browser can only cause the lines of its commands, on the
      network it names; paging back gives the whole buffer within the byte budget.
    - Policies and push: rules and filters follow renames, also those of a tab that
      missed them; a push leaves only after every check passed in the same delivery,
      and never to an endpoint revoked before; the schedule keeps its deadlines; what is
      pushed is readable by the browser that registered, and goes to its service with a
      token that is good there.
    - Views: the sidebar is what the store holds within its limit, the member
      pages show each member once however the channel changes between them, a
      closed buffer is gone from list, search and rejoin set, and a join is
      announced only once it is stored.
    - Media: what a network configured for a proxy or a tunnel never leaves by
      another way and never for a private address; the tunnel of a proxy starts at
      the peer's first byte after its reply; a thumbnail is served only of what was
      measured within the limits, and the scanners read what an encoder wrote; a stream
      has a slot, a token and a live session, and relays media and nothing else.
    - Networks: what runs is what is stored, a put is all or nothing, and live edits of
      the channel list keep the definition usable.
    - Deviations, each proved on a concrete schedule: a prune that races two
      appends hides a row from a page; the global login bucket lets attempts
      through uncharged just below one token; a multiline message can be accepted
      whose echo ends the connection; a user message may overtake the rejoins.

    ** Fuel and bounds

    Recursion follows the data wherever the code ranges over it.  Where it does
    not, the fuel is a length the loop cannot pass (the bytes left to parse or
    to chunk, the elements of a heap or a ring, the rings left to evict), and
    the lemmas of the file show it is enough; no theorem speaks only of runs that
    did not run out.

    ** Not modelled

    Sockets, TLS, proxies and WireGuard dialing; timers except as clock values;
    migrations, and SQL failures except where a theorem is about them; HTTP parsing,
    cookies, the HTML of previews; the decoding of images, which is an argument of what
    is proved of thumbnails; the process start-up and the browser front end: they are
    input/output or thin code over third-party libraries.  Of the hub, the listing
    of network definitions and the drain at shutdown are left out; of the store, the
    chunks of a purge, which is one function here that may stop part way. *)

From stdpp Require Export base gmap list strings sorting.
From Stdlib Require Export ZArith Lia ZifyBool.
From Corelib Require Init.Byte.
From Stdlib Require Strings.Byte.

#[export] Set Default Goal Selector "!".
#[export] Set Warnings "-clear-no-such-hyp".

(** ** Bytes and Go strings

    A Go [string] is an immutable sequence of bytes; it is modelled as
    [list byte].  [len s] is Go's [len(s)], an [int], hence a [Z]. *)

Export Corelib.Init.Byte (byte(..)).
Abbreviation gostring := (list byte).

Declare Scope go_scope.
Delimit Scope go_scope with go.
Open Scope Z_scope.
Open Scope go_scope.

(** A literal Go string. *)
Notation "§ s" := (String.list_byte_of_string s%string)
  (at level 1, s at level 0, format "§ s") : go_scope.

#[global] Instance byte_eq_dec : EqDecision byte := Byte.byte_eq_dec.

#[global] Program Instance byte_countable : Countable byte := {|
  encode b := N.succ_pos (Byte.to_N b);
  decode p := Byte.of_N (Pos.pred_N p)
|}.
Next Obligation. intros b. by destruct b. Qed.

#[global] Instance byte_inhabited : Inhabited byte := populate x00.

(** Go's [==] on comparable values. *)
Notation "a == b" := (bool_decide (a = b)) (at level 70, no associativity) : go_scope.
Notation "a != b" := (negb (bool_decide (a = b))) (at level 70, no associativity) : go_scope.

(** The value of a byte and the conversion [byte(z)], which keeps the low
    eight bits. *)
Definition b2z (b : byte) : Z := Z.of_N (Byte.to_N b).
Definition z2b (z : Z) : byte :=
  match Byte.of_N (Z.to_N (z mod 256)) with Some b => b | None => x00 end.

Definition len {A} (l : list A) : Z := Z.of_nat (length l).

(** Go slices [s[:n]] and [s[n:]] for [0 <= n <= len s]. *)
Definition slice_to {A} (l : list A) (n : Z) : list A := take (Z.to_nat n) l.
Definition slice_from {A} (l : list A) (n : Z) : list A := drop (Z.to_nat n) l.

(** ** Machine integers *)

(** Two's-complement wrap-around of Go's [int64] (and [int],
    [time.Duration]) and reduction of [uint64]. *)
Definition wrap64 (z : Z) : Z := (z + 2 ^ 63) mod 2 ^ 64 - 2 ^ 63.
Definition wrapu64 (z : Z) : Z := z mod 2 ^ 64.

Definition maxInt64 : Z := 2 ^ 63 - 1.
Definition minInt64 : Z := - 2 ^ 63.
Definition maxUint64 : Z := 2 ^ 64 - 1.

(** [time.Time.Sub] saturates at the extremes of [Duration]. *)
Definition sat64 (z : Z) : Z := Z.max minInt64 (Z.min maxInt64 z).

(** Durations are [int64] nanoseconds. *)
Definition Millisecond : Z := 1000000.
Definition Second : Z := 1000 * Millisecond.
Definition Minute : Z := 60 * Second.

(** ** Automation *)

Create HintDb go discriminated.
Create Rewrite HintDb go_len.

(** Case analysis on every [if] and [match] of the goal, with the boolean
    tests turned into propositions. *)
Ltac go_cases :=
  repeat (first [ case_bool_decide | case_match ]); simplify_eq/=.

(** Case analysis on the first conditional of the goal. *)
Tactic Notation "destruct_if" "as" ident(H) :=
  match goal with |- context [if ?b then _ else _] => destruct b eqn:H end.

(** The same in a hypothesis. *)
Tactic Notation "destruct_if" "as" ident(H) "in" hyp(K) :=
  match type of K with context [if ?b then _ else _] => destruct b eqn:H end.

(** Evaluates the comparisons of string literals in the goal: the arms of
    a Go [switch] on a known string. *)
Ltac go_switch :=
  repeat match goal with
    |- context [bool_decide (?P)] =>
      lazymatch P with
      | String.list_byte_of_string _ = String.list_byte_of_string _ =>
          let v := eval vm_compute in (bool_decide P) in change (bool_decide P) with v
      end
    end; cbv beta iota.

(** Linear arithmetic over lengths. *)
Ltac len_lia := unfold len, slice_to, slice_from in *;
  rewrite ?length_app, ?length_take, ?length_drop, ?length_cons in *; simpl in *; lia.

(** ** Byte lemmas *)

Lemma b2z_range b : 0 <= b2z b < 256.
Proof.
  unfold b2z. pose proof (Byte.to_N_bounded b). lia.
Qed.
#[export] Hint Resolve b2z_range : go.

Lemma z2b_b2z b : z2b (b2z b) = b.
Proof. by destruct b. Qed.

Lemma b2z_z2b z : 0 <= z < 256 -> b2z (z2b z) = z.
Proof.
  intros Hz. unfold z2b, b2z. rewrite Z.mod_small by lia.
  destruct (Byte.of_N (Z.to_N z)) as [b|] eqn:E.
  - apply Byte.to_of_N in E. rewrite E. lia.
  - apply Byte.of_N_None_iff in E. lia.
Qed.

#[global] Instance b2z_inj : Inj (=) (=) b2z.
Proof. intros a b H. rewrite <- (z2b_b2z a), <- (z2b_b2z b). by rewrite H. Qed.

(** A property of bytes is decided by checking the 256 of them. *)
Definition all_bytes : list byte :=
  (fun n => z2b (Z.of_nat n)) <$> seq 0 256.

Lemma byte_forall (P : byte -> bool) :
  forallb P all_bytes = true -> forall b, P b = true.
Proof.
  intros H b. eapply forallb_forall in H; [exact H|].
  apply in_map_iff. exists (Z.to_nat (b2z b)). pose proof (b2z_range b).
  rewrite Z2Nat.id, z2b_b2z by lia. split; [done|]. apply in_seq. lia.
Qed.

(** ** Length lemmas *)

Section len.
Context {A : Type}.
Implicit Types l k : list A.

Lemma len_nonneg l : 0 <= len l.
Proof. unfold len. lia. Qed.
Lemma len_nil : len (@nil A) = 0.
Proof. done. Qed.
Lemma len_cons x l : len (x :: l) = 1 + len l.
Proof. unfold len. simpl. lia. Qed.
Lemma len_app l k : len (l ++ k) = len l + len k.
Proof. unfold len. rewrite length_app. lia. Qed.
Lemma len_zero l : len l = 0 -> l = [].
Proof. destruct l; [done|]. rewrite len_cons. pose proof (len_nonneg l). lia. Qed.
Lemma len_slice_to l n : 0 <= n <= len l -> len (slice_to l n) = n.
Proof. unfold len, slice_to. rewrite length_take. lia. Qed.
Lemma len_slice_to_le l n : 0 <= n -> len (slice_to l n) <= n.
Proof. unfold len, slice_to. rewrite length_take. lia. Qed.
Lemma len_slice_from l n : 0 <= n <= len l -> len (slice_from l n) = len l - n.
Proof. unfold len, slice_from. rewrite length_drop. lia. Qed.
Lemma slice_cat l n : slice_to l n ++ slice_from l n = l.
Proof. apply take_drop. Qed.
End len.
#[export] Hint Resolve len_nonneg : go.
#[export] Hint Rewrite @len_nil @len_cons @len_app : go_len.

(** ** Sums over finite maps *)

Definition map_sum `{Countable K} {A} (f : K -> A -> Z) (m : gmap K A) : Z :=
  map_fold (fun k x n => f k x + n) 0 m.

Section map_sum.
Context `{Countable K} {A : Type}.
Implicit Types (m : gmap K A) (f g : K -> A -> Z).

Lemma map_sum_empty f : map_sum f ∅ = 0.
Proof. apply map_fold_empty. Qed.

Lemma map_sum_insert_None f m k x :
  m !! k = None -> map_sum f (<[k:=x]> m) = f k x + map_sum f m.
Proof.
  intros Hk. unfold map_sum. rewrite map_fold_insert_L; [done | intros; lia | done].
Qed.

Lemma map_sum_delete f m k x :
  m !! k = Some x -> map_sum f m = f k x + map_sum f (delete k m).
Proof.
  intros Hk. rewrite <- (insert_delete_id m k x Hk) at 1.
  apply map_sum_insert_None, lookup_delete_eq.
Qed.

Lemma map_sum_insert f m k x :
  map_sum f (<[k:=x]> m) = f k x + map_sum f (delete k m).
Proof.
  rewrite (map_sum_delete f (<[k:=x]> m) k x) by apply lookup_insert_eq.
  by rewrite delete_insert_eq.
Qed.

(** Replacing a value changes the sum by the difference. *)
Lemma map_sum_replace f m k x y :
  m !! k = Some y -> map_sum f (<[k:=x]> m) = map_sum f m + f k x - f k y.
Proof. intros Hk. rewrite map_sum_insert, (map_sum_delete f m k y Hk). lia. Qed.

Lemma map_sum_le f g m :
  (forall k x, m !! k = Some x -> f k x <= g k x) -> map_sum f m <= map_sum g m.
Proof.
  induction m as [|k x m Hk _ IH] using map_first_key_ind; intros Hfg.
  - by rewrite !map_sum_empty.
  - rewrite !map_sum_insert_None by done.
    specialize (Hfg k x) as Hkx. rewrite lookup_insert_eq in Hkx.
    specialize (Hkx eq_refl).
    enough (map_sum f m <= map_sum g m) by lia.
    apply IH. intros k' x' Hk'. apply Hfg.
    rewrite lookup_insert_ne; [done|]. by intros ->; simplify_eq.
Qed.

Lemma map_sum_nonneg f m :
  (forall k x, m !! k = Some x -> 0 <= f k x) -> 0 <= map_sum f m.
Proof.
  intros Hf. transitivity (map_sum (fun _ _ => 0) m).
  - clear Hf. induction m as [|k x m Hk _ IH] using map_first_key_ind.
    + by rewrite map_sum_empty.
    + rewrite map_sum_insert_None by done. lia.
  - by apply map_sum_le.
Qed.

Lemma map_sum_ext f g m :
  (forall k x, m !! k = Some x -> f k x = g k x) -> map_sum f m = map_sum g m.
Proof. intros Hfg. apply Z.le_antisymm; apply map_sum_le; intros; rewrite Hfg; done || lia. Qed.

Lemma map_sum_member f m k x :
  (forall k x, m !! k = Some x -> 0 <= f k x) -> m !! k = Some x -> f k x <= map_sum f m.
Proof.
  intros Hf Hk. rewrite (map_sum_delete f m k x Hk).
  enough (0 <= map_sum f (delete k m)) by lia.
  apply map_sum_nonneg. intros k' x' [_ Hk']%lookup_delete_Some. eauto.
Qed.
End map_sum.

Lemma map_sum_fmap `{Countable K} {A B} (f : K -> B -> Z) (g : A -> B) (m : gmap K A) :
  map_sum f (g <$> m) = map_sum (fun k x => f k (g x)) m.
Proof.
  induction m as [|k x m Hk _ IH] using map_first_key_ind.
  - by rewrite fmap_empty, !map_sum_empty.
  - rewrite fmap_insert, !map_sum_insert_None; [lia|done|].
    by rewrite lookup_fmap, Hk.
Qed.

(** The size of a map is the sum of ones. *)
Lemma map_sum_size `{Countable K} {A} (m : gmap K A) :
  map_sum (fun _ _ => 1) m = Z.of_nat (size m).
Proof.
  induction m as [|k x m Hk _ IH] using map_first_key_ind.
  - done.
  - rewrite map_sum_insert_None, map_size_insert_None by done. lia.
Qed.
