(* ===== verification/GoStrings.v ===== *)
(** * The Go string operations the program uses

    Executable counterparts of the functions of Go's [strings] and
    [strconv] packages on byte strings.  Every separator the program
    passes to [strings.Split], [strings.Cut] or [strings.IndexByte] is a
    single byte, so those take a byte here.  The functions that look at
    runes are in [GoUtf8]. *)

From S2P Require Import Prelude.

(** ** Prefixes and suffixes *)

Fixpoint HasPrefix (s p : gostring) {struct p} : bool :=
  match p, s with
  | [], _ => true
  | _, [] => false
  | c :: p', d :: s' => (c == d) && HasPrefix s' p'
  end.

Definition TrimPrefix (s p : gostring) : gostring :=
  if HasPrefix s p then drop (length p) s else s.

(** [strings.CutPrefix]: the rest, when the prefix is there. *)
Definition CutPrefix (s p : gostring) : option gostring :=
  if HasPrefix s p then Some (drop (length p) s) else None.

Definition HasSuffix (s p : gostring) : bool := HasPrefix (reverse s) (reverse p).

Definition TrimSuffix (s p : gostring) : gostring :=
  if HasSuffix s p then take (length s - length p) s else s.

(** ** Searching *)

Fixpoint IndexByte (s : gostring) (c : byte) : Z :=
  match s with
  | [] => -1
  | d :: s' =>
      if d == c then 0
      else let i := IndexByte s' c in if i =? -1 then -1 else 1 + i
  end.

Definition ContainsByte (s : gostring) (c : byte) : bool := negb (IndexByte s c =? -1).

Fixpoint Index (s p : gostring) : Z :=
  if HasPrefix s p then 0
  else match s with
       | [] => -1
       | _ :: s' => let i := Index s' p in if i =? -1 then -1 else 1 + i
       end.

Definition Contains (s p : gostring) : bool := negb (Index s p =? -1).

(** [strings.ContainsAny], for an ASCII character set. *)
Definition ContainsAny (s chars : gostring) : bool := existsb (ContainsByte chars) s.

(** ** Cutting, splitting, joining *)

(** [strings.Cut] around the first [c]; the boolean reports whether it
    occurs. *)
Fixpoint Cut (s : gostring) (c : byte) : gostring * gostring * bool :=
  match s with
  | [] => ([], [], false)
  | d :: s' =>
      if d == c then ([], s', true)
      else let '(a, b, ok) := Cut s' c in (d :: a, b, ok)
  end.

Fixpoint Split (s : gostring) (c : byte) : list gostring :=
  match s with
  | [] => [[]]
  | d :: s' =>
      if d == c then [] :: Split s' c
      else match Split s' c with
           | [] => [[d]]
           | w :: ws => (d :: w) :: ws
           end
  end.

(** [strings.SplitN(s, c, n)] for [n >= 1]: at most [n] pieces, the last
    one unsplit. *)
Fixpoint SplitN (s : gostring) (c : byte) (n : nat) : list gostring :=
  match n with
  | O => []
  | 1%nat => [s]
  | S n' =>
      match Cut s c with
      | (a, b, true) => a :: SplitN b c n'
      | (a, _, false) => [a]
      end
  end.

Fixpoint Join (l : list gostring) (sep : gostring) : gostring :=
  match l with
  | [] => []
  | [w] => w
  | w :: ws => w ++ sep ++ Join ws sep
  end.

(** [strings.ReplaceAll] for a non-empty [old]; [skip] counts the bytes of
    a match still to be dropped. *)
Fixpoint replace_aux (old new : gostring) (skip : nat) (s : gostring) : gostring :=
  match s with
  | [] => []
  | c :: s' =>
      match skip with
      | S k => replace_aux old new k s'
      | O => if HasPrefix s old then new ++ replace_aux old new (length old - 1) s'
             else c :: replace_aux old new 0 s'
      end
  end.

Definition ReplaceAll (s old new : gostring) : gostring := replace_aux old new 0 s.

(** A [strings.Replacer] whose old strings are single bytes. *)
Definition byteReplacer (f : byte -> gostring) (s : gostring) : gostring := s ≫= f.

(** ** Order: Go compares strings bytewise. *)

Fixpoint str_lt (a b : gostring) : bool :=
  match a, b with
  | _, [] => false
  | [], _ :: _ => true
  | c :: a', d :: b' => (b2z c <? b2z d) || ((c == d) && str_lt a' b')
  end.

Definition str_le (a b : gostring) : Prop := str_lt b a = false.

#[global] Instance str_le_dec : RelDecision str_le.
Proof. intros a b. unfold str_le. apply _. Defined.

(** [sort.Strings]. *)
Definition sort_Strings (l : list gostring) : list gostring := merge_sort str_le l.

(** ** [strconv.Atoi] on a 64-bit platform

    The integer and whether the error is nil.  A syntax error gives 0, an
    out-of-range number the nearest bound; both with an error. *)

Definition is_digit (c : byte) : bool := (48 <=? b2z c) && (b2z c <=? 57).

Fixpoint parse_uint (s : gostring) (n : Z) : option (Z * bool) :=
  match s with
  | [] => Some (n, true)
  | c :: s' =>
      if is_digit c then
        if maxUint64 / 10 + 1 <=? n then Some (maxUint64, false)
        else let n1 := n * 10 + (b2z c - 48) in
             if maxUint64 <? n1 then Some (maxUint64, false) else parse_uint s' n1
      else None
  end.

Definition Atoi (s : gostring) : Z * bool :=
  let '(neg, body) :=
    match s with
    | x2d :: b => (true, b)
    | x2b :: b => (false, b)
    | _ => (false, s)
    end in
  match body with
  | [] => (0, false)
  | _ =>
      match parse_uint body 0 with
      | None => (0, false)
      | Some (un, ok) =>
          if negb neg then
            if 2 ^ 63 <=? un then (maxInt64, false) else (un, ok)
          else if 2 ^ 63 <? un then (minInt64, false) else (- un, ok)
      end
  end.

(** ** Lemmas *)

Lemma HasPrefix_spec s p : HasPrefix s p = true <-> exists t, s = p ++ t.
Proof.
  revert s. induction p as [|c p IH]; intros s; simpl.
  - split; [by exists s|done].
  - destruct s as [|d s].
    + split; [done|]. intros [t Ht]. done.
    + rewrite andb_true_iff, IH, bool_decide_eq_true. split.
      * intros [-> [t ->]]. by exists t.
      * intros [t [= -> ->]]. eauto.
Qed.

Lemma HasPrefix_app p t : HasPrefix (p ++ t) p = true.
Proof. apply HasPrefix_spec. eauto. Qed.

Lemma HasPrefix_len s p : HasPrefix s p = true -> len p <= len s.
Proof. rewrite HasPrefix_spec. intros [t ->]. rewrite len_app. pose proof (len_nonneg t). lia. Qed.

Lemma TrimPrefix_app p t : TrimPrefix (p ++ t) p = t.
Proof. unfold TrimPrefix. rewrite HasPrefix_app. by rewrite drop_app_length. Qed.

Lemma TrimPrefix_len s p : len (TrimPrefix s p) <= len s.
Proof. unfold TrimPrefix. destruct (HasPrefix s p); unfold len; rewrite ?length_drop; lia. Qed.

Lemma TrimSuffix_len s p : len (TrimSuffix s p) <= len s.
Proof. unfold TrimSuffix. destruct (HasSuffix s p); unfold len; rewrite ?length_take; lia. Qed.

Lemma TrimSuffix_app s p : TrimSuffix (s ++ p) p = s.
Proof.
  unfold TrimSuffix, HasSuffix. rewrite reverse_app, HasPrefix_app.
  rewrite length_app. replace (length s + length p - length p)%nat with (length s) by lia.
  apply take_app_length.
Qed.

Lemma IndexByte_range s c : -1 <= IndexByte s c < len s \/ IndexByte s c = -1.
Proof.
  induction s as [|d s IH]; simpl; [by right|]. rewrite len_cons.
  case_bool_decide; [left; pose proof (len_nonneg s); lia|].
  case_match; [by right|]. left. lia.
Qed.

Lemma IndexByte_none s c : IndexByte s c = -1 <-> c ∉ s.
Proof.
  induction s as [|d s IH]; simpl; [set_solver|].
  pose proof (IndexByte_range s c).
  case_bool_decide as Hd; [split; [done|set_solver]|].
  destruct (Z.eqb_spec (IndexByte s c) (-1)).
  - set_solver.
  - split; [lia|]. intros Hc. exfalso. apply n, IH. set_solver.
Qed.

Lemma IndexByte_nonneg s c : c ∈ s -> 0 <= IndexByte s c < len s.
Proof.
  intros Hc. destruct (IndexByte_range s c) as [?|E]; [|by apply IndexByte_none in E as ?].
  assert (IndexByte s c <> -1); [|lia]. rewrite IndexByte_none. tauto.
Qed.

Lemma ContainsByte_spec s c : ContainsByte s c = true <-> c ∈ s.
Proof.
  unfold ContainsByte. rewrite negb_true_iff, Z.eqb_neq, IndexByte_none.
  split; [|tauto]. destruct (decide (c ∈ s)); tauto.
Qed.

(** The first [IndexByte s c] bytes do not contain [c]; the next one is it. *)
Lemma IndexByte_split s c :
  c ∈ s -> s = slice_to s (IndexByte s c) ++ c :: slice_from s (IndexByte s c + 1)
           /\ c ∉ slice_to s (IndexByte s c).
Proof.
  unfold slice_to, slice_from.
  induction s as [|d s IH]; [set_solver|]. intros Hc. simpl.
  case_bool_decide as Hd; [subst; simpl; rewrite drop_0; set_solver|].
  assert (c ∈ s) as Hs by set_solver. specialize (IH Hs) as [IH1 IH2].
  pose proof (IndexByte_nonneg s c Hs).
  destruct (Z.eqb_spec (IndexByte s c) (-1)) as [E|_]; [lia|].
  replace (Z.to_nat (1 + IndexByte s c)) with (S (Z.to_nat (IndexByte s c))) by lia.
  replace (Z.to_nat (1 + IndexByte s c + 1)) with (S (Z.to_nat (IndexByte s c + 1))) by lia.
  simpl. split; [by f_equal|set_solver].
Qed.

Lemma IndexByte_lookup s c : c ∈ s -> s !! Z.to_nat (IndexByte s c) = Some c.
Proof.
  intros Hc. pose proof (IndexByte_nonneg s c Hc) as Hi.
  destruct (IndexByte_split s c Hc) as [Hs _].
  remember (IndexByte s c) as i. rewrite Hs. clear Hs Heqi.
  pose proof (len_slice_to s i ltac:(lia)) as Hl. unfold len in Hl.
  rewrite list_lookup_middle; [done|]. lia.
Qed.

Lemma IndexByte_app a c b : c ∉ a -> IndexByte (a ++ c :: b) c = len a.
Proof.
  induction a as [|d a IH]; simpl; intros Hc.
  - by rewrite bool_decide_eq_true_2.
  - rewrite len_cons, bool_decide_eq_false_2 by set_solver.
    rewrite IH by set_solver. pose proof (len_nonneg a).
    destruct (Z.eqb_spec (len a) (-1)); lia.
Qed.

Lemma Cut_absent s c : c ∉ s -> Cut s c = (s, [], false).
Proof.
  induction s as [|d s IH]; [done|]. intros Hc. simpl.
  rewrite bool_decide_eq_false_2 by set_solver. by rewrite IH by set_solver.
Qed.

Lemma Cut_app a c b : c ∉ a -> Cut (a ++ c :: b) c = (a, b, true).
Proof.
  induction a as [|d a IH]; simpl; intros Hc.
  - by rewrite bool_decide_eq_true_2.
  - rewrite bool_decide_eq_false_2 by set_solver. by rewrite IH by set_solver.
Qed.

Lemma Cut_spec s c a b ok :
  Cut s c = (a, b, ok) ->
  (c ∉ a) /\ (if ok then s = a ++ c :: b else s = a /\ b = []).
Proof.
  revert a b ok. induction s as [|d s IH]; simpl; intros a b ok Hs.
  - simplify_eq. split; [set_solver|done].
  - case_bool_decide as Hd; [simplify_eq; split; [set_solver|done]|].
    destruct (Cut s c) as [[a' b'] ok'] eqn:E. simplify_eq.
    destruct (IH _ _ _ eq_refl) as [Ha Hb]. split; [set_solver|].
    destruct ok; simpl; [by f_equal|]. destruct Hb as [-> ->]. done.
Qed.

Lemma Cut_len s c : len (Cut s c).1.1 + len (Cut s c).1.2 <= len s.
Proof.
  destruct (Cut s c) as [[a b] ok] eqn:E. apply Cut_spec in E as [_ E]. simpl.
  destruct ok; [subst; rewrite len_app, len_cons; lia|].
  destruct E as [-> ->]. rewrite len_nil. lia.
Qed.

Lemma Split_nonempty s c : Split s c <> [].
Proof. destruct s; simpl; go_cases; done. Qed.

Lemma Split_absent s c : c ∉ s -> Split s c = [s].
Proof.
  induction s as [|d s IH]; [done|]. intros Hc. simpl.
  rewrite bool_decide_eq_false_2 by set_solver. by rewrite IH by set_solver.
Qed.

Lemma Split_app a c b : c ∉ a -> Split (a ++ c :: b) c = a :: Split b c.
Proof.
  induction a as [|d a IH]; simpl; intros Hc.
  - by rewrite bool_decide_eq_true_2.
  - rewrite bool_decide_eq_false_2 by set_solver. by rewrite IH by set_solver.
Qed.

(** [strings.Join] undoes [strings.Split]. *)
Lemma Join_Split s c : Join (Split s c) [c] = s.
Proof.
  induction s as [|d s IH]; [done|]. simpl. pose proof (Split_nonempty s c).
  case_bool_decide as Hd; destruct (Split s c) as [|w ws] eqn:E; try done.
  - simpl in *. subst. by f_equal.
  - destruct ws; simpl in *; by f_equal.
Qed.

Lemma Split_pieces s c w : w ∈ Split s c -> c ∉ w.
Proof.
  revert w. induction s as [|d s IH]; simpl; intros w Hw.
  { apply list_elem_of_singleton in Hw as ->. apply not_elem_of_nil. }
  case_bool_decide as Hd.
  { apply elem_of_cons in Hw as [->|Hw]; [apply not_elem_of_nil|by apply IH]. }
  destruct (Split s c) as [|w' ws].
  { apply list_elem_of_singleton in Hw as ->. set_solver. }
  apply elem_of_cons in Hw as [->|Hw].
  - specialize (IH w'). set_solver.
  - apply IH. set_solver.
Qed.

(** [strings.Split] undoes [strings.Join] on pieces without the separator. *)
Lemma Split_Join l c :
  l <> [] -> Forall (fun w => c ∉ w) l -> Split (Join l [c]) c = l.
Proof.
  induction l as [|w ws IH]; [done|]. intros _ [Hw Hws]%Forall_cons.
  destruct ws as [|w' ws]; simpl; [by apply Split_absent|].
  rewrite Split_app by done. f_equal. by apply IH.
Qed.

(** *** Order *)

Lemma str_lt_irrefl a : str_lt a a = false.
Proof. induction a as [|c a IH]; [done|]. simpl. rewrite Z.ltb_irrefl, IH. by rewrite andb_false_r. Qed.

Lemma str_lt_trans a b c : str_lt a b = true -> str_lt b c = true -> str_lt a c = true.
Proof.
  revert b c. induction a as [|x a IH]; intros [|y b] [|z c]; simpl; try done.
  rewrite !orb_true_iff, !andb_true_iff, !Z.ltb_lt, !bool_decide_eq_true.
  intros [?|[-> ?]] [?|[-> ?]]; try (left; lia).
  right. split; [done|]. by eapply IH.
Qed.

Lemma str_lt_total a b : str_lt a b = true \/ a = b \/ str_lt b a = true.
Proof.
  revert b. induction a as [|x a IH]; intros [|y b]; simpl; [tauto..|].
  rewrite !orb_true_iff, !andb_true_iff, !Z.ltb_lt, !bool_decide_eq_true.
  destruct (Z.lt_trichotomy (b2z x) (b2z y)) as [?|[E|?]]; [tauto| |tauto].
  apply (inj b2z) in E as ->. destruct (IH b) as [?|[->|?]]; tauto.
Qed.

Lemma str_lt_asym a b : str_lt a b = true -> str_lt b a = false.
Proof.
  intros H. destruct (str_lt b a) eqn:E; [|done].
  rewrite <- (str_lt_irrefl a). by rewrite (str_lt_trans a b a).
Qed.

Lemma str_lt_le a b : str_lt a b = true -> str_le a b.
Proof. apply str_lt_asym. Qed.

Lemma str_le_lt_or_eq a b : str_le a b <-> str_lt a b = true \/ a = b.
Proof.
  unfold str_le. split.
  - intros H. destruct (str_lt_total a b) as [?|[?|?]]; [tauto..|congruence].
  - intros [H| ->]; [by apply str_lt_asym|apply str_lt_irrefl].
Qed.

#[global] Instance str_le_refl : Reflexive str_le.
Proof. intros a. apply str_lt_irrefl. Qed.
#[global] Instance str_le_trans : Transitive str_le.
Proof.
  intros a b c. rewrite !str_le_lt_or_eq.
  intros [?| ->] [?| ->]; eauto using str_lt_trans.
Qed.
#[global] Instance str_le_antisymm : AntiSymm (=) str_le.
Proof.
  intros a b. rewrite !str_le_lt_or_eq. intros [H| ->]; [|done]. intros [H2| ->]; [|done].
  apply str_lt_asym in H. congruence.
Qed.
#[global] Instance str_le_total : Total str_le.
Proof.
  intros a b. rewrite !str_le_lt_or_eq. destruct (str_lt_total a b) as [?|[->|?]]; tauto.
Qed.

Lemma sort_Strings_perm l : sort_Strings l ≡ₚ l.
Proof. apply merge_sort_Permutation. Qed.

Lemma sort_Strings_sorted l : StronglySorted str_le (sort_Strings l).
Proof. apply StronglySorted_merge_sort; apply _. Qed.

(** Sorting does not depend on the order of its input: the iteration order
    of a Go map cannot be seen through [sort.Strings]. *)
Lemma sort_Strings_unique l k : l ≡ₚ k -> sort_Strings l = sort_Strings k.
Proof.
  intros H. apply (StronglySorted_unique str_le); [apply sort_Strings_sorted..|].
  by rewrite !sort_Strings_perm.
Qed.

(** *** Integers *)

Lemma parse_uint_range s n un ok :
  0 <= n <= maxUint64 -> parse_uint s n = Some (un, ok) -> 0 <= un <= maxUint64.
Proof.
  revert n. induction s as [|c s IH]; simpl; intros n Hn Hp; [by simplify_eq|].
  destruct (is_digit c) eqn:Hd; [|done].
  apply andb_true_iff in Hd as [?%Z.leb_le ?%Z.leb_le].
  case_match; [simplify_eq; unfold maxUint64; lia|].
  case_match eqn:E; [simplify_eq; unfold maxUint64; lia|].
  apply Z.ltb_ge in E. eapply IH; [|done]. lia.
Qed.

(** Whatever the input, the result is a Go [int]. *)
Lemma Atoi_range s : minInt64 <= (Atoi s).1 <= maxInt64.
Proof.
  unfold Atoi, minInt64, maxInt64.
  destruct (match s with x2d :: b => (true, b) | x2b :: b => (false, b) | _ => (false, s) end)
    as [neg body].
  destruct body as [|c body]; [simpl; lia|].
  destruct (parse_uint (c :: body) 0) as [[un ok]|] eqn:E; [|simpl; lia].
  apply parse_uint_range in E; [|unfold maxUint64; lia].
  destruct neg; simpl; case_match; simpl; lia.
Qed.
