(* ===== verification/GoUtf8.v ===== *)
(** * UTF-8 and the rune-level string functions

    Go's [unicode/utf8] decoder and encoder, and the functions of [strings]
    that work on runes: [Fields], [TrimSpace], [ToUpper], [ToLower],
    [EqualFold].  The case tables of Go's [unicode] package for runes
    outside ASCII are generated data and enter as the class [Unicode]; the
    white-space property is written out. *)

From S2P Require Import Prelude GoStrings.

(** ** Decoding and encoding *)

Definition RuneError : Z := 0xFFFD.

Definition in_range (lo x hi : Z) : bool := (lo <=? x) && (x <=? hi).

(** [utf8.DecodeRuneInString]: the first rune and its width; a malformed
    sequence is [RuneError] of width 1. *)
Definition DecodeRune (s : gostring) : Z * nat :=
  match s with
  | [] => (RuneError, 0%nat)
  | c0 :: t =>
      let a := b2z c0 in
      if a <? 0x80 then (a, 1%nat)
      else if in_range 0xC2 a 0xDF then
        match t with
        | c1 :: _ =>
            if in_range 0x80 (b2z c1) 0xBF
            then ((a - 0xC0) * 64 + (b2z c1 - 0x80), 2%nat) else (RuneError, 1%nat)
        | _ => (RuneError, 1%nat)
        end
      else if in_range 0xE0 a 0xEF then
        match t with
        | c1 :: c2 :: _ =>
            if in_range (if a =? 0xE0 then 0xA0 else 0x80) (b2z c1)
                        (if a =? 0xED then 0x9F else 0xBF)
               && in_range 0x80 (b2z c2) 0xBF
            then ((a - 0xE0) * 4096 + (b2z c1 - 0x80) * 64 + (b2z c2 - 0x80), 3%nat)
            else (RuneError, 1%nat)
        | _ => (RuneError, 1%nat)
        end
      else if in_range 0xF0 a 0xF4 then
        match t with
        | c1 :: c2 :: c3 :: _ =>
            if in_range (if a =? 0xF0 then 0x90 else 0x80) (b2z c1)
                        (if a =? 0xF4 then 0x8F else 0xBF)
               && in_range 0x80 (b2z c2) 0xBF && in_range 0x80 (b2z c3) 0xBF
            then ((a - 0xF0) * 262144 + (b2z c1 - 0x80) * 4096
                  + (b2z c2 - 0x80) * 64 + (b2z c3 - 0x80), 4%nat)
            else (RuneError, 1%nat)
        | _ => (RuneError, 1%nat)
        end
      else (RuneError, 1%nat)
  end.

(** A Unicode scalar value. *)
Definition valid_rune (r : Z) : bool :=
  in_range 0 r 0xD7FF || in_range 0xE000 r 0x10FFFF.

(** [utf8.AppendRune]; an invalid rune is written as [RuneError]. *)
Definition EncodeRune (r0 : Z) : gostring :=
  let r := if valid_rune r0 then r0 else RuneError in
  if r <=? 0x7F then [z2b r]
  else if r <=? 0x7FF then [z2b (0xC0 + r / 64); z2b (0x80 + r mod 64)]
  else if r <=? 0xFFFF then
    [z2b (0xE0 + r / 4096); z2b (0x80 + (r / 64) mod 64); z2b (0x80 + r mod 64)]
  else
    [z2b (0xF0 + r / 262144); z2b (0x80 + (r / 4096) mod 64);
     z2b (0x80 + (r / 64) mod 64); z2b (0x80 + r mod 64)].

(** The runes of a string, each with the bytes it was decoded from. *)
Fixpoint chunks_aux (skip : nat) (s : gostring) : list (Z * gostring) :=
  match s with
  | [] => []
  | _ :: s' =>
      match skip with
      | S k => chunks_aux k s'
      | O => let '(r, n) := DecodeRune s in (r, take n s) :: chunks_aux (n - 1) s'
      end
  end.
Definition chunks (s : gostring) : list (Z * gostring) := chunks_aux 0 s.

(** The conversions [[]rune(s)] and [string(runes)], and [string(b)] of a
    byte, which converts it as a rune. *)
Definition runes (s : gostring) : list Z := (chunks s).*1.
Definition string_of_runes (rs : list Z) : gostring := rs ≫= EncodeRune.
Definition string_of_byte (b : byte) : gostring := EncodeRune (b2z b).

Definition RuneStart (b : byte) : bool := negb (in_range 0x80 (b2z b) 0xBF).

(** [utf8.DecodeLastRuneInString]: back off to the start of the last rune,
    at most four bytes, then decode forward. *)
Fixpoint last_start (s : gostring) (start : nat) (steps : nat) : nat :=
  match steps, start with
  | S k, S i =>
      match s !! i with
      | Some b => if RuneStart b then i else last_start s i k
      | None => i
      end
  | _, _ => start
  end.

Definition DecodeLastRune (s : gostring) : Z * nat :=
  match last s with
  | None => (RuneError, 0%nat)
  | Some c =>
      if b2z c <? 0x80 then (b2z c, 1%nat)
      else
        let start := last_start s (length s - 1) 3 in
        let '(r, size) := DecodeRune (drop start s) in
        if (start + size =? length s)%nat then (r, size) else (RuneError, 1%nat)
  end.

(** [utf8.ValidString]. *)
Definition ValidString (s : gostring) : bool :=
  forallb (fun '(r, bs) => negb ((r =? RuneError) && (length bs =? 1)%nat)) (chunks s).

(** ** Rune-level string functions *)

(** The parts of Go's [unicode] tables the program reaches, for runes
    outside ASCII. *)
Class Unicode := {
  unicode_ToUpper : Z -> Z;
  unicode_ToLower : Z -> Z;
  (** whether two runes, not both ASCII, are in one [SimpleFold] orbit *)
  unicode_FoldEq : Z -> Z -> bool
}.

(** [unicode.IsSpace]. *)
Definition IsSpace (r : Z) : bool :=
  in_range 9 r 13 || (r =? 32) || (r =? 0x85) || (r =? 0xA0) || (r =? 0x1680)
  || in_range 0x2000 r 0x200A || (r =? 0x2028) || (r =? 0x2029) || (r =? 0x202F)
  || (r =? 0x205F) || (r =? 0x3000).

(** [strings.Fields]: the maximal runs of non-space runes. *)
Fixpoint fields_aux (cur : option gostring) (l : list (Z * gostring)) : list gostring :=
  match l with
  | [] => option_list cur
  | (r, bs) :: l' =>
      if IsSpace r then option_list cur ++ fields_aux None l'
      else fields_aux (Some (default [] cur ++ bs)) l'
  end.
Definition Fields (s : gostring) : list gostring := fields_aux None (chunks s).

(** [strings.TrimSpace]. *)
Fixpoint drop_spaces (l : list (Z * gostring)) : list (Z * gostring) :=
  match l with
  | (r, bs) :: l' => if IsSpace r then drop_spaces l' else l
  | [] => []
  end.
Definition TrimSpace (s : gostring) : gostring :=
  mjoin (reverse (drop_spaces (reverse (drop_spaces (chunks s))))).*2.

Definition is_upper (r : Z) : bool := in_range 65 r 90.
Definition is_lower (r : Z) : bool := in_range 97 r 122.

Section unicode.
Context `{Unicode}.

Definition rune_upper (r : Z) : Z :=
  if r <? 0x80 then if is_lower r then r - 32 else r else unicode_ToUpper r.
Definition rune_lower (r : Z) : Z :=
  if r <? 0x80 then if is_upper r then r + 32 else r else unicode_ToLower r.

(** [strings.ToUpper], [strings.ToLower]: [strings.Map] over the runes. *)
Definition ToUpper (s : gostring) : gostring := string_of_runes (rune_upper <$> runes s).
Definition ToLower (s : gostring) : gostring := string_of_runes (rune_lower <$> runes s).

Definition rune_fold_eq (a b : Z) : bool :=
  if (a <? 0x80) && (b <? 0x80)
  then (if is_upper a then a + 32 else a) =? (if is_upper b then b + 32 else b)
  else (a =? b) || unicode_FoldEq a b.

Fixpoint fold_eq_list (l k : list Z) : bool :=
  match l, k with
  | [], [] => true
  | a :: l', b :: k' => rune_fold_eq a b && fold_eq_list l' k'
  | _, _ => false
  end.

(** [strings.EqualFold]. *)
Definition EqualFold (s t : gostring) : bool := fold_eq_list (runes s) (runes t).
End unicode.

(** Tables that leave every rune outside ASCII alone, for evaluation on
    concrete inputs. *)
Definition ascii_unicode : Unicode := {|
  unicode_ToUpper := id; unicode_ToLower := id; unicode_FoldEq := Z.eqb
|}.

(** ** Lemmas *)

Ltac range_lia := unfold valid_rune, in_range, RuneError in *; lia.

(** The decoder takes between one byte and all of a non-empty string. *)
Lemma DecodeRune_width s : s <> [] -> (1 <= (DecodeRune s).2 <= length s)%nat.
Proof.
  destruct s as [|c0 t]; [done|]. intros _. unfold DecodeRune.
  repeat (case_match; simplify_eq/=; try lia).
Qed.

Lemma chunks_aux_concat s k :
  (k <= length s)%nat -> mjoin (chunks_aux k s).*2 = drop k s.
Proof.
  revert k. induction s as [|c s IH]; intros k Hk; [by destruct k|].
  destruct k as [|k]; [|simpl in *; apply IH; lia].
  pose proof (DecodeRune_width (c :: s) ltac:(done)) as Hw.
  cbn [chunks_aux]. destruct (DecodeRune (c :: s)) as [r n]. simpl in Hw.
  destruct n as [|n]; [lia|]. simpl. rewrite Nat.sub_0_r, IH by lia.
  by rewrite take_drop.
Qed.

(** Decoding loses no byte. *)
Lemma chunks_concat s : mjoin (chunks s).*2 = s.
Proof. unfold chunks. rewrite chunks_aux_concat by lia. by rewrite drop_0. Qed.

Lemma chunks_aux_skip s k :
  (k <= length s)%nat -> chunks_aux k s = chunks_aux 0 (drop k s).
Proof.
  revert k. induction s as [|c s IH]; intros [|k] Hk; try done.
  simpl in *. apply IH. lia.
Qed.

(** One step of decoding. *)
Lemma chunks_cons s r n :
  s <> [] -> DecodeRune s = (r, n) -> chunks s = (r, take n s) :: chunks (drop n s).
Proof.
  intros Hs HD. pose proof (DecodeRune_width s Hs) as Hw. rewrite HD in Hw. simpl in Hw.
  destruct s as [|c s]; [done|]. unfold chunks. cbn [chunks_aux]. rewrite HD.
  destruct n as [|n]; [lia|]. simpl in *. f_equal.
  rewrite Nat.sub_0_r. apply chunks_aux_skip. lia.
Qed.

Lemma in_range_true lo x hi : lo <= x <= hi -> in_range lo x hi = true.
Proof. range_lia. Qed.
Lemma in_range_false lo x hi : x < lo \/ hi < x -> in_range lo x hi = false.
Proof. intros. apply not_true_iff_false. range_lia. Qed.

Lemma valid_rune_spec r :
  valid_rune r = true <-> 0 <= r <= 0xD7FF \/ 0xE000 <= r <= 0x10FFFF.
Proof. range_lia. Qed.

(** What the encoder writes, the decoder reads back. *)
Lemma DecodeRune_EncodeRune r t :
  valid_rune r = true ->
  DecodeRune (EncodeRune r ++ t) = (r, length (EncodeRune r)).
Proof.
  intros Hr. unfold EncodeRune. rewrite Hr. apply valid_rune_spec in Hr.
  pose proof (Z.div_mod r 64 ltac:(lia)). pose proof (Z.mod_pos_bound r 64 ltac:(lia)).
  assert (r / 4096 = r / 64 / 64) as -> by (rewrite Z.div_div by lia; done).
  assert (r / 262144 = r / 64 / 64 / 64) as -> by (rewrite !Z.div_div by lia; done).
  pose proof (Z.div_mod (r / 64) 64 ltac:(lia)). pose proof (Z.mod_pos_bound (r / 64) 64 ltac:(lia)).
  pose proof (Z.div_mod (r / 64 / 64) 64 ltac:(lia)).
  pose proof (Z.mod_pos_bound (r / 64 / 64) 64 ltac:(lia)).
  generalize dependent (r mod 64). generalize dependent (r / 64). intros q1.
  generalize dependent (q1 mod 64). generalize dependent (q1 / 64). intros q2.
  generalize dependent (q2 mod 64). generalize dependent (q2 / 64). intros q3 m2 ?? m1 ?? m0 ??.
  destruct (Z.leb_spec r 0x7F); [|destruct (Z.leb_spec r 0x7FF); [|destruct (Z.leb_spec r 0xFFFF)]];
    cbn [app DecodeRune]; rewrite !b2z_z2b by lia.
  - by rewrite (proj2 (Z.ltb_lt _ _)) by lia.
  - rewrite (proj2 (Z.ltb_ge _ _)) by lia. rewrite !in_range_true by lia.
    cbn [length]. f_equal. lia.
  - rewrite (proj2 (Z.ltb_ge _ _)) by lia. rewrite in_range_false, in_range_true by lia.
    destruct (Z.eqb_spec (0xE0 + q2) 0xE0), (Z.eqb_spec (0xE0 + q2) 0xED);
      rewrite !in_range_true by lia; cbn [length andb]; f_equal; lia.
  - rewrite (proj2 (Z.ltb_ge _ _)) by lia. rewrite !in_range_false, in_range_true by lia.
    destruct (Z.eqb_spec (0xF0 + q3) 0xF0), (Z.eqb_spec (0xF0 + q3) 0xF4);
      rewrite !in_range_true by lia; cbn [length andb]; f_equal; lia.
Qed.

Lemma EncodeRune_length r : (1 <= length (EncodeRune r) <= 4)%nat.
Proof. unfold EncodeRune. repeat (case_match; simpl; try lia). Qed.

Lemma EncodeRune_ascii r : 0 <= r < 0x80 -> EncodeRune r = [z2b r].
Proof.
  intros Hr. unfold EncodeRune. rewrite (proj2 (valid_rune_spec r)) by lia.
  by rewrite (proj2 (Z.leb_le _ _)) by lia.
Qed.

(** The round trip [[]rune(string(rs)) = rs] on valid runes. *)
Lemma runes_string_of_runes rs :
  Forall (fun r => valid_rune r = true) rs -> runes (string_of_runes rs) = rs.
Proof.
  induction 1 as [|r rs Hr _ IH]; [done|].
  unfold runes, string_of_runes in *. cbn [mbind list_bind].
  pose proof (EncodeRune_length r) as Hl.
  rewrite (chunks_cons _ r (length (EncodeRune r))).
  - cbn. rewrite drop_app_length. by f_equal.
  - destruct (EncodeRune r); [simpl in Hl; lia|done].
  - by apply DecodeRune_EncodeRune.
Qed.

(** ASCII strings are their own runes. *)
Definition is_ascii (s : gostring) : bool := forallb (fun c => b2z c <? 0x80) s.

Lemma runes_ascii s : is_ascii s = true -> runes s = b2z <$> s.
Proof.
  induction s as [|c s IH]; [done|]. simpl. rewrite andb_true_iff. intros [Hc Hs].
  unfold runes. rewrite (chunks_cons _ (b2z c) 1).
  - simpl. rewrite drop_0. f_equal. by apply IH.
  - done.
  - unfold DecodeRune. by rewrite Hc.
Qed.

(** The bytes below 0x80 of an encoded rune: only the rune itself. *)
Lemma EncodeRune_low r c : c ∈ EncodeRune r -> b2z c < 0x80 -> r = b2z c.
Proof.
  intros Hc Hl. unfold EncodeRune in Hc.
  assert (exists q, q = (if valid_rune r then r else RuneError) /\ (q < 0x80 -> q = r) /\
            (0 <= q <= 0xD7FF \/ 0xE000 <= q <= 0x10FFFF)) as (q & Eq & Hqr & Hq).
  { destruct (valid_rune r) eqn:E; [apply valid_rune_spec in E; eauto|]. exists RuneError. unfold RuneError. split_and!; lia. }
  rewrite <- Eq in Hc. clear Eq.
  assert (forall z, 0 <= z < 256 -> 0x80 <= z -> c = z2b z -> False) as Hhi
    by (intros z Hz Hz2 ->; rewrite b2z_z2b in Hl by lia; lia).
  destruct (Z.leb_spec q 0x7F).
  { apply list_elem_of_singleton in Hc as ->. rewrite b2z_z2b by lia. symmetry. apply Hqr. lia. }
  exfalso. destruct (q <=? 0x7FF) eqn:E1; [|destruct (q <=? 0xFFFF) eqn:E2];
    repeat (apply elem_of_cons in Hc as [Hc|Hc]; [eapply Hhi; [| |exact Hc]; Z.to_euclidean_division_equations; lia|]);
    by apply not_elem_of_nil in Hc.
Qed.

(** A rune below 0x80 is a byte of the string. *)
Lemma DecodeRune_low c s r n : DecodeRune (c :: s) = (r, n) -> 0 <= r < 0x80 -> r = b2z c.
Proof.
  intros HD Hr. unfold DecodeRune in HD. pose proof (b2z_range c).
  destruct (b2z c <? 0x80); [by simplify_eq|].
  assert (RuneError = 65533) as HR by done.
  repeat match type of HD with
  | (if ?b then _ else _) = _ => destruct b eqn:?
  | match ?l with [] => _ | _ :: _ => _ end = _ => destruct l
  end; simplify_eq; try lia; exfalso; revert Hr;
  repeat match goal with H : context [in_range] |- _ => revert H end; unfold in_range;
  repeat match goal with |- context [if ?a =? ?b then _ else _] => destruct (Z.eqb_spec a b) end; lia.
Qed.

Lemma runes_low s r : r ∈ runes s -> 0 <= r < 0x80 -> z2b r ∈ s.
Proof.
  intros Hr Hlow. remember (length s) as n eqn:En. revert s En Hr.
  induction n as [n IH] using lt_wf_ind. intros s -> Hr. destruct s as [|c s]; [by apply not_elem_of_nil in Hr|].
  destruct (DecodeRune (c :: s)) as [r0 w] eqn:ED. unfold runes in Hr. rewrite (chunks_cons _ r0 w) in Hr by done.
  pose proof (DecodeRune_width (c :: s) ltac:(done)) as Hw. rewrite ED in Hw. simpl in Hw.
  simpl in Hr. apply elem_of_cons in Hr as [->|Hr].
  - rewrite (DecodeRune_low _ _ _ _ ED Hlow), z2b_b2z. by left.
  - rewrite <- (take_drop w (c :: s)). apply elem_of_app. right.
    apply (IH (length (drop w (c :: s)))); [rewrite length_drop; simpl; lia|done|done].
Qed.

(** Re-encoding a string's runes adds no ASCII byte the string lacked. *)
Lemma string_of_runes_low rs c : c ∈ string_of_runes rs -> b2z c < 0x80 -> b2z c ∈ rs.
Proof.
  unfold string_of_runes. intros (r & Hc & Hr)%list_elem_of_bind Hl. by rewrite <- (EncodeRune_low r c Hc Hl).
Qed.

Lemma string_of_runes_app a b : string_of_runes (a ++ b) = string_of_runes a ++ string_of_runes b.
Proof. apply bind_app. Qed.

(** ** Clamping *)

(** The loop that drops a trailing partial rune; each round drops a byte, so the length of
    the string bounds the number of rounds. *)
Fixpoint trim_partial (fuel : nat) (s : gostring) : gostring :=
  match fuel with
  | O => s
  | S k =>
      if s == [] then s
      else
        let '(r, size) := DecodeLastRune s in
        if (negb (r =? RuneError)) || negb (size =? 1)%nat then s
        else trim_partial k (take (length s - 1) s)
  end.

Lemma trim_partial_len fuel s : len (trim_partial fuel s) <= len s.
Proof.
  revert s. induction fuel as [|k IH]; intros s; simpl; [done|].
  case_bool_decide; [done|]. destruct (DecodeLastRune s) as [r n]. case_match; [done|].
  etransitivity; [apply IH|]. unfold len. rewrite length_take. lia.
Qed.

Lemma DecodeRune_app a b r n :
  a <> [] -> DecodeRune a = (r, n) -> (r =? RuneError) && (n =? 1)%nat = false -> DecodeRune (a ++ b) = (r, n).
Proof.
  intros Ha. destruct a as [|c0 t]; [done|]. unfold DecodeRune. cbn [app].
  destruct (b2z c0 <? 0x80); [done|].
  destruct (in_range 0xC2 (b2z c0) 0xDF); [destruct t as [|c1 t]; [by intros [= <- <-]|done]|].
  destruct (in_range 0xE0 (b2z c0) 0xEF); [destruct t as [|c1 [|c2 t]]; [by intros [= <- <-]..|done]|].
  destruct (in_range 0xF0 (b2z c0) 0xF4); [destruct t as [|c1 [|c2 [|c3 t]]]; [by intros [= <- <-]..|done]|done].
Qed.

(** Valid text decodes the same whatever follows it. *)
Lemma chunks_app_valid a b : ValidString a = true -> chunks (a ++ b) = chunks a ++ chunks b.
Proof.
  remember (length a) as k eqn:Hk. revert a Hk. induction k as [k IH] using lt_wf_ind. intros a -> Hv.
  destruct (decide (a = [])) as [->|Ha]; [done|].
  destruct (DecodeRune a) as [r n] eqn:Ed. pose proof (DecodeRune_width a Ha) as Hw. rewrite Ed in Hw. cbn [snd] in Hw.
  unfold ValidString in Hv. rewrite (chunks_cons a r n Ha Ed) in Hv |- *. cbn [forallb] in Hv.
  apply andb_true_iff in Hv as [Hr Hv]. apply negb_true_iff in Hr. rewrite length_take_le in Hr by lia.
  rewrite (chunks_cons (a ++ b) r n); [|by destruct a|by apply DecodeRune_app].
  rewrite take_app_le, drop_app_le by lia. cbn [app]. f_equal. apply (IH (length (drop n a))); [|done..].
  rewrite length_drop. lia.
Qed.

Lemma ValidString_app a b : ValidString a = true -> ValidString (a ++ b) = ValidString b.
Proof. intros Ha. unfold ValidString. rewrite (chunks_app_valid a b Ha), forallb_app. unfold ValidString in Ha. by rewrite Ha. Qed.
