(* ===== verification/GoBase64.v ===== *)
(** * encoding/base64: the padded standard encoding

    [StdEncoding.EncodeToString] and [StdEncoding.DecodeString], which the
    SASL exchange (internal/irc/handshake.go, scram.go) puts every payload
    through.  Go's decoder skips CR and LF anywhere, requires the padding
    and, in this non-strict encoding, ignores the unused bits of the last
    character. *)

From S2P Require Import Prelude GoStrings.

Definition alphabet : gostring :=
  §"ABCDEFGHIJKLMNOPQRSTUVWXYZabcdefghijklmnopqrstuvwxyz0123456789+/".

Definition padChar : byte := x3d.

Definition enc6 (v : Z) : byte := default x00 (alphabet !! Z.to_nat v).

(** The six bits of a character, -1 when it is not in the alphabet. *)
Definition dec6 (c : byte) : Z := IndexByte alphabet c.

Fixpoint EncodeToString (s : gostring) : gostring :=
  match s with
  | [] => []
  | [a] =>
      let v := b2z a * 65536 in
      [enc6 (v / 262144); enc6 (v / 4096 mod 64); padChar; padChar]
  | [a; b] =>
      let v := b2z a * 65536 + b2z b * 256 in
      [enc6 (v / 262144); enc6 (v / 4096 mod 64); enc6 (v / 64 mod 64); padChar]
  | a :: b :: c :: rest =>
      let v := b2z a * 65536 + b2z b * 256 + b2z c in
      enc6 (v / 262144) :: enc6 (v / 4096 mod 64) :: enc6 (v / 64 mod 64) :: enc6 (v mod 64)
        :: EncodeToString rest
  end.

Definition is_crlf (c : byte) : bool := (c == x0d) || (c == x0a).

(** The quanta of an input without newlines. *)
Fixpoint decode_quanta (s : gostring) : option gostring :=
  match s with
  | [] => Some []
  | w :: x :: y :: z :: rest =>
      let '(vw, vx, vy, vz) := (dec6 w, dec6 x, dec6 y, dec6 z) in
      if (vw =? -1) || (vx =? -1) then None
      else if vy =? -1 then
        if (y == padChar) && (z == padChar) && (rest == [])
        then Some [z2b ((vw * 262144 + vx * 4096) / 65536)]
        else None
      else if vz =? -1 then
        if (z == padChar) && (rest == [])
        then let v := vw * 262144 + vx * 4096 + vy * 64 in
             Some [z2b (v / 65536); z2b (v / 256 mod 256)]
        else None
      else
        match decode_quanta rest with
        | None => None
        | Some bs =>
            let v := vw * 262144 + vx * 4096 + vy * 64 + vz in
            Some (z2b (v / 65536) :: z2b (v / 256 mod 256) :: z2b (v mod 256) :: bs)
        end
  | _ => None
  end.

Definition DecodeString (s : gostring) : option gostring :=
  decode_quanta (List.filter (fun c => negb (is_crlf c)) s).

(** ** Lemmas *)

Lemma dec6_enc6 v : 0 <= v < 64 -> dec6 (enc6 v) = v.
Proof.
  intros Hv.
  assert (forallb (fun n => dec6 (enc6 (Z.of_nat n)) =? Z.of_nat n) (seq 0 64) = true) as Hall by by vm_compute.
  rewrite forallb_forall in Hall. specialize (Hall (Z.to_nat v)).
  rewrite in_seq, Z2Nat.id in Hall by lia. apply Z.eqb_eq, Hall. lia.
Qed.

Lemma dec6_pad : dec6 padChar = -1.
Proof. reflexivity. Qed.

(** Three at a time. *)
Lemma list_ind3 {A} (P : list A -> Prop) :
  P [] -> (forall a, P [a]) -> (forall a b, P [a; b]) ->
  (forall a b c l, P l -> P (a :: b :: c :: l)) -> forall l, P l.
Proof.
  intros H0 H1 H2 H3. fix IH 1. intros [|a [|b [|c l]]]; [done|apply H1|apply H2|apply H3, IH].
Qed.

(** The characters an encoding is made of. *)
Definition b64char (c : byte) : bool := ContainsByte alphabet c || (c == padChar).

Lemma dec6_char c : dec6 c <> -1 -> b64char c = true.
Proof.
  unfold dec6, b64char, ContainsByte. destruct (Z.eqb_spec (IndexByte alphabet c) (-1)); done.
Qed.

Lemma enc6_char v : 0 <= v < 64 -> b64char (enc6 v) = true.
Proof. intros Hv. apply dec6_char. rewrite dec6_enc6 by done. lia. Qed.

Ltac byte_bounds := repeat match goal with
  | b : byte |- _ => lazymatch goal with
      | _ : 0 <= b2z b < 256 |- _ => fail
      | _ => pose proof (b2z_range b) end end.

Ltac sextet := byte_bounds;
  Z.to_euclidean_division_equations; lia.

Lemma EncodeToString_chars s : Forall (fun c => b64char c = true) (EncodeToString s).
Proof.
  induction s as [|a|a b|a b c s IH] using list_ind3; cbn [EncodeToString];
    repeat constructor; try apply enc6_char; try done; sextet.
Qed.

Lemma b64char_plain c : b64char c = true ->
  is_crlf c = false /\ c <> x00 /\ c <> x20 /\ c <> x3a /\ c <> x2c /\ b2z c < 128.
Proof.
  intros Hc.
  pose proof (byte_forall (fun c => negb (b64char c) || (negb (is_crlf c) && (c != x00) && (c != x20)
    && (c != x3a) && (c != x2c) && (b2z c <? 128))) ltac:(by vm_compute) c) as H.
  simpl in H. rewrite Hc in H. simpl in H.
  rewrite !andb_true_iff, !negb_true_iff, !bool_decide_eq_false, Z.ltb_lt in H. tauto.
Qed.

Lemma filter_crlf_id s :
  Forall (fun c => b64char c = true) s -> List.filter (fun c => negb (is_crlf c)) s = s.
Proof.
  induction 1 as [|c s Hc _ IH]; simpl; [done|].
  apply b64char_plain in Hc as [-> _]. simpl. by rewrite IH.
Qed.

Ltac dec_step := rewrite !dec6_enc6 by sextet;
  repeat match goal with |- context [?v =? -1] =>
    replace (v =? -1) with false by (symmetry; apply Z.eqb_neq; sextet) end;
  cbn [orb].

Lemma z2b_eq z b : z = b2z b -> z2b z = b.
Proof. intros ->. apply z2b_b2z. Qed.

Lemma decode_encode_quanta s : decode_quanta (EncodeToString s) = Some s.
Proof.
  induction s as [|a|a b|a b c s IH] using list_ind3; [done|..]; cbn [EncodeToString decode_quanta].
  - rewrite dec6_pad. dec_step. simpl. repeat f_equal. apply z2b_eq. sextet.
  - rewrite dec6_pad. dec_step. simpl. repeat f_equal; apply z2b_eq; sextet.
  - dec_step. rewrite IH. repeat f_equal; apply z2b_eq; sextet.
Qed.

(** Decoding an encoding gives the bytes back. *)
Lemma base64_roundtrip s : DecodeString (EncodeToString s) = Some s.
Proof.
  unfold DecodeString. rewrite filter_crlf_id by apply EncodeToString_chars. apply decode_encode_quanta.
Qed.

Lemma EncodeToString_len s : 3 * len (EncodeToString s) <= 4 * (len s + 2).
Proof.
  induction s as [|a|a b|a b c s IH] using list_ind3; cbn [EncodeToString];
    autorewrite with go_len in *; lia.
Qed.

Lemma EncodeToString_mod4 s : len (EncodeToString s) mod 4 = 0.
Proof.
  induction s as [|a|a b|a b c s IH] using list_ind3; [done..|]. cbn [EncodeToString].
  rewrite !len_cons. Z.to_euclidean_division_equations. lia.
Qed.

Lemma EncodeToString_nil s : EncodeToString s = [] <-> s = [].
Proof. split; [|by intros ->]. by destruct s as [|a [|b [|c s]]]. Qed.

Example encode_gs2 : EncodeToString (§"n,,") = §"biws".
Proof. reflexivity. Qed.
Example decode_pad : DecodeString (§"Zm9vYg==") = Some (§"foob").
Proof. reflexivity. Qed.
