(* ===== verification/GoNet.v ===== *)
(** * net.SplitHostPort, net.JoinHostPort and strconv.Itoa

    The parts of Go's standard library the connection manager uses on network
    addresses, with the round trip between them. *)

From S2P Require Import Prelude GoStrings.

(** The index of the last [c], -1 if there is none. *)
Fixpoint LastIndexByte (s : gostring) (c : byte) : Z :=
  match s with
  | [] => -1
  | x :: s' =>
      let i := LastIndexByte s' c in
      if i =? -1 then (if x == c then 0 else -1) else i + 1
  end.

(** The host and the port; [None] is any of the errors. *)
Definition SplitHostPort (hostport : gostring) : option (gostring * gostring) :=
  let i := LastIndexByte hostport x3a in
  if i <? 0 then None
  else
    match
      match hostport with
      | c :: _ =>
          if c == x5b then
            let e := IndexByte hostport x5d in
            if e <? 0 then None
            else if e + 1 =? len hostport then None
            else if e + 1 =? i then Some (slice_to (slice_from hostport 1) (e - 1), 1, e + 1)
            else None
          else
            let host := slice_to hostport i in
            if 0 <=? IndexByte host x3a then None else Some (host, 0, 0)
      | [] => None
      end
    with
    | None => None
    | Some (host, j, k) =>
        if 0 <=? IndexByte (slice_from hostport j) x5b then None
        else if 0 <=? IndexByte (slice_from hostport k) x5d then None
        else Some (host, slice_from hostport (i + 1))
    end.

Definition JoinHostPort (host port : gostring) : gostring :=
  if 0 <=? IndexByte host x3a then §"[" ++ host ++ §"]:" ++ port else host ++ §":" ++ port.

(** Decimal digits, least significant last; an [int64] has at most 19. *)
Fixpoint decimal (fuel : nat) (n : Z) : gostring :=
  match fuel with
  | O => []
  | S fuel' => if n <? 10 then [z2b (48 + n)] else decimal fuel' (n / 10) ++ [z2b (48 + n mod 10)]
  end.
Definition Itoa (n : Z) : gostring := if n <? 0 then §"-" ++ decimal 20 (- n) else decimal 20 n.

(** ** Lemmas *)

Lemma LastIndexByte_none s c : c ∉ s -> LastIndexByte s c = -1.
Proof.
  induction s as [|x s IH]; [done|]. intros Hc. apply not_elem_of_cons in Hc as [Hx Hs]. simpl. rewrite (IH Hs). simpl.
  by rewrite bool_decide_eq_false_2 by congruence.
Qed.

Lemma LastIndexByte_app a c b : c ∉ b -> LastIndexByte (a ++ c :: b) c = len a.
Proof.
  intros Hb. induction a as [|x a IH]; simpl.
  - rewrite LastIndexByte_none by done. simpl. by rewrite bool_decide_eq_true_2.
  - rewrite IH, len_cons. pose proof (len_nonneg a). destruct (Z.eqb_spec (len a) (-1)); lia.
Qed.

Lemma index_absent s c : c ∉ s -> (0 <=? IndexByte s c) = false.
Proof. intros Hc%IndexByte_none. rewrite Hc. done. Qed.
Lemma index_present s c : c ∈ s -> (0 <=? IndexByte s c) = true.
Proof. intros Hc%IndexByte_nonneg. lia. Qed.

Lemma slice_to_app {A} (a b : list A) : slice_to (a ++ b) (len a) = a.
Proof. unfold slice_to, len. rewrite Nat2Z.id. apply take_app_length. Qed.
Lemma slice_from_app {A} (a b : list A) : slice_from (a ++ b) (len a) = b.
Proof. unfold slice_from, len. rewrite Nat2Z.id. apply drop_app_length. Qed.

(** Joining and splitting again. *)
Lemma Split_JoinHostPort host port :
  x5b ∉ host -> x5d ∉ host -> x3a ∉ port -> x5b ∉ port -> x5d ∉ port ->
  SplitHostPort (JoinHostPort host port) = Some (host, port).
Proof.
  intros H1 H2 P0 P1 P2. unfold JoinHostPort. pose proof (len_nonneg host). pose proof (len_nonneg port).
  destruct (decide (x3a ∈ host)) as [Hc|Hc].
  - rewrite index_present by done.
    assert (§"[" ++ host ++ §"]:" ++ port = (x5b :: host ++ [x5d]) ++ x3a :: port) as E by (simpl; by rewrite <- app_assoc).
    rewrite E. unfold SplitHostPort. rewrite LastIndexByte_app by done.
    assert (len (x5b :: host ++ [x5d]) = len host + 2) as El by (rewrite len_cons, len_app; unfold len; simpl; lia).
    rewrite El. destruct (Z.ltb_spec (len host + 2) 0); [lia|].
    assert (IndexByte ((x5b :: host ++ [x5d]) ++ x3a :: port) x5d = len host + 1) as Ei.
    { replace ((x5b :: host ++ [x5d]) ++ x3a :: port) with ((x5b :: host) ++ x5d :: x3a :: port) by (simpl; by rewrite <- app_assoc).
      rewrite IndexByte_app; [rewrite len_cons; lia|]. apply not_elem_of_cons. by split. }
    cbv zeta. rewrite Ei. cbn [app]. rewrite bool_decide_eq_true_2 by done. destruct (Z.ltb_spec (len host + 1) 0); [lia|].
    assert (len (x5b :: (host ++ [x5d]) ++ x3a :: port) = len host + 3 + len port) as ->.
    { rewrite len_cons, !len_app, len_cons. unfold len. simpl. lia. }
    destruct (Z.eqb_spec (len host + 1 + 1) (len host + 3 + len port)); [lia|].
    destruct (Z.eqb_spec (len host + 1 + 1) (len host + 2)); [|lia].
    change (slice_from (x5b :: (host ++ [x5d]) ++ x3a :: port) 1) with ((host ++ [x5d]) ++ x3a :: port).
    rewrite index_absent.
    2:{ rewrite !elem_of_app, list_elem_of_singleton, elem_of_cons. intros [[?|?]|[?|?]]; done. }
    replace (slice_from (x5b :: (host ++ [x5d]) ++ x3a :: port) (len host + 1 + 1)) with (x3a :: port).
    2:{ replace (len host + 1 + 1) with (len (x5b :: host ++ [x5d])) by lia.
        change (x5b :: (host ++ [x5d]) ++ x3a :: port) with ((x5b :: host ++ [x5d]) ++ x3a :: port). by rewrite slice_from_app. }
    rewrite index_absent by by apply not_elem_of_cons.
    rewrite <- app_assoc, Z.add_simpl_r, slice_to_app. f_equal. f_equal. rewrite app_assoc.
    replace (len host + 2 + 1) with (len (x5b :: host ++ [x5d; x3a])) by (rewrite len_cons, len_app; unfold len; simpl; lia).
    replace (x5b :: (host ++ [x5d]) ++ x3a :: port) with ((x5b :: host ++ [x5d; x3a]) ++ port); [apply slice_from_app|].
    simpl. by rewrite <- !app_assoc.
  - rewrite index_absent by done. change (host ++ §":" ++ port) with (host ++ x3a :: port).
    unfold SplitHostPort. rewrite LastIndexByte_app by done. destruct (Z.ltb_spec (len host) 0); [lia|].
    cbv zeta. rewrite slice_to_app, (index_absent host x3a Hc).
    assert (forall c : byte, c ∉ host -> c ∉ port -> c <> x3a -> c ∉ host ++ x3a :: port) as Hno.
    { intros c Ch Cp Cc. rewrite elem_of_app, elem_of_cons. intros [?|[?|?]]; done. }
    replace (slice_from (host ++ x3a :: port) (len host + 1)) with port.
    2:{ replace (len host + 1) with (len (host ++ [x3a])) by (rewrite len_app; unfold len; simpl; lia).
        replace (host ++ x3a :: port) with ((host ++ [x3a]) ++ port) by by rewrite <- app_assoc. by rewrite slice_from_app. }
    destruct (host ++ x3a :: port) as [|c rest] eqn:E; [by destruct host|].
    assert (c <> x5b) as Hcb. { intros ->. apply (Hno x5b H1 P1 ltac:(done)). rewrite ?E. by left. }
    rewrite (bool_decide_eq_false_2 _ Hcb). change (slice_from (c :: rest) 0) with (c :: rest).
    by rewrite !index_absent by by apply Hno.
Qed.

(** *** Integers *)

Lemma digit_z2b d : 0 <= d < 10 -> b2z (z2b (48 + d)) = 48 + d /\ is_digit (z2b (48 + d)) = true.
Proof. intros Hd. rewrite b2z_z2b by lia. split; [done|]. unfold is_digit. rewrite b2z_z2b by lia. lia. Qed.

Lemma parse_uint_app a b n k :
  parse_uint a n = Some (k, true) -> parse_uint (a ++ b) n = parse_uint b k.
Proof.
  revert n. induction a as [|c a IH]; intros n; simpl; [by intros [= ->]|].
  destruct (is_digit c); [|done]. destruct_if as E1; [done|]. destruct_if as E2; [done|]. apply IH.
Qed.

Lemma parse_decimal fuel n :
  0 <= n < 10 ^ Z.of_nat fuel -> n <= maxUint64 -> parse_uint (decimal fuel n) 0 = Some (n, true).
Proof.
  revert n. induction fuel as [|fuel IH]; intros n Hn Hm; [simpl in Hn; replace n with 0 by lia; done|].
  rewrite Nat2Z.inj_succ, Z.pow_succ_r in Hn by lia. cbn [decimal]. destruct (Z.ltb_spec n 10) as [Hs|Hs].
  - destruct (digit_z2b n ltac:(lia)) as [Hv Hd]. cbn [parse_uint]. rewrite Hd, Hv.
    replace (0 * 10 + (48 + n - 48)) with n by lia. change (maxUint64 / 10 + 1 <=? 0) with false. cbv iota.
    destruct (Z.ltb_spec maxUint64 n); [lia|done].
  - assert (0 <= n / 10 < 10 ^ Z.of_nat fuel) as Hq by (split; [apply Z.div_pos; lia|apply Z.div_lt_upper_bound; lia]).
    assert (n / 10 <= maxUint64 / 10) as Hq2 by (apply Z.div_le_mono; lia).
    assert (n / 10 <= n) as Hq3 by (apply Z.div_le_upper_bound; lia).
    rewrite (parse_uint_app _ _ _ (n / 10)) by (apply IH; lia).
    pose proof (Z.mod_pos_bound n 10 ltac:(lia)). destruct (digit_z2b (n mod 10) ltac:(lia)) as [Hv Hd].
    cbn [parse_uint]. rewrite Hd, Hv. pose proof (Z.div_mod n 10 ltac:(lia)) as Hdm.
    replace (n / 10 * 10 + (48 + n mod 10 - 48)) with n by lia. destruct (Z.leb_spec (maxUint64 / 10 + 1) (n / 10)); [lia|].
    destruct (Z.ltb_spec maxUint64 n); [lia|done].
Qed.

Lemma decimal_head fuel n : 0 <= n -> match decimal (S fuel) n with c :: _ => is_digit c = true | [] => False end.
Proof.
  revert n. induction fuel as [|fuel IH]; intros n Hn.
  - simpl. destruct (Z.ltb_spec n 10); [by apply digit_z2b|]. apply digit_z2b, Z.mod_pos_bound. lia.
  - cbn [decimal]. destruct (Z.ltb_spec n 10); [by apply digit_z2b|].
    specialize (IH (n / 10) ltac:(apply Z.div_pos; lia)). cbn [decimal] in IH.
    destruct (if n / 10 <? 10 then _ else _); [done|exact IH].
Qed.

(** A port number survives printing and parsing. *)
Lemma Atoi_Itoa n : 0 <= n <= maxInt64 -> Atoi (Itoa n) = (n, true).
Proof.
  intros Hn. unfold Itoa. destruct (Z.ltb_spec n 0); [lia|]. unfold Atoi.
  pose proof (decimal_head 19 n ltac:(lia)) as Hh.
  assert (parse_uint (decimal 20 n) 0 = Some (n, true)) as Hp by (apply parse_decimal; unfold maxInt64, maxUint64 in *; lia).
  destruct (decimal 20 n) as [|c rest]; [done|].
  assert (match c :: rest with x2d :: b => (true, b) | x2b :: b => (false, b) | _ => (false, c :: rest) end = (false, c :: rest)) as ->.
  { destruct c; done. }
  rewrite Hp. cbn [negb]. destruct (Z.leb_spec (2 ^ 63) n); [unfold maxInt64 in *; lia|done].
Qed.
