(* ===== verification/GoTime.v ===== *)
(** * time.Parse and Time.Format for RFC 3339

    [time.Parse(time.RFC3339Nano, s)], which reads the [time] tag and the MARKREAD
    timestamps of a server, and the UTC layout with milliseconds in which the
    program writes timestamps to one.  An instant is a number of nanoseconds since
    the Unix epoch, a date a day of the proleptic Gregorian calendar.  The parser is
    the general one of package time: one or two digits of hours, a comma for the
    decimal point and offsets of 24:60 are accepted, as Go does. *)

From S2P Require Import Prelude GoStrings GoNet.

(** ** The calendar *)

Definition isLeap (y : Z) : bool := (y mod 4 =? 0) && (negb (y mod 100 =? 0) || (y mod 400 =? 0)).

(** Days of a month, and days of the year before it. *)
Definition daysIn (y m : Z) : Z :=
  if (m =? 2) && isLeap y then 29 else nth (Z.to_nat (m - 1)) [31; 28; 31; 30; 31; 30; 31; 31; 30; 31; 30; 31] 0.
Definition daysBefore (y m : Z) : Z :=
  nth (Z.to_nat (m - 1)) [0; 31; 59; 90; 120; 151; 181; 212; 243; 273; 304; 334] 0 + (if (2 <? m) && isLeap y then 1 else 0).

(** Days since 1 January of the year 1. *)
Definition daysSinceYear1 (y m d : Z) : Z :=
  365 * (y - 1) + (y - 1) / 4 - (y - 1) / 100 + (y - 1) / 400 + daysBefore y m + (d - 1).

Definition unixToYear1 : Z := 719162.

Definition Date (y m d hour min sec nsec : Z) : Z :=
  ((daysSinceYear1 y m d - unixToYear1) * 86400 + hour * 3600 + min * 60 + sec) * Second + nsec.

(** The month that holds day [yday] of the year, counted from [m]. *)
Fixpoint month_of (fuel : nat) (y m yday : Z) : Z * Z :=
  match fuel with
  | O => (m, yday)
  | S k => if yday <? daysIn y m then (m, yday) else month_of k y (m + 1) (yday - daysIn y m)
  end.

Definition civil (n : Z) : Z * Z * Z :=
  let n400 := n / 146097 in let r := n mod 146097 in
  let n100 := Z.min 3 (r / 36524) in let r := r - n100 * 36524 in
  let n4 := r / 1461 in let r := r mod 1461 in
  let n1 := Z.min 3 (r / 365) in let yday := r - n1 * 365 in
  let y := 400 * n400 + 100 * n100 + 4 * n4 + n1 + 1 in
  let '(m, d) := month_of 11 y 1 yday in (y, m, d + 1).

(** ** Parsing *)

Definition digit (c : byte) : Z := b2z c - 48.

Definition getnum (s : gostring) (fixed : bool) : option (Z * gostring) :=
  match s with
  | a :: b :: rest =>
      if negb (is_digit a) then None
      else if is_digit b then Some (digit a * 10 + digit b, rest)
      else if fixed then None else Some (digit a, b :: rest)
  | [a] => if is_digit a && negb fixed then Some (digit a, []) else None
  | [] => None
  end.

Definition getyear (s : gostring) : option (Z * gostring) :=
  match s with
  | a :: b :: c :: d :: rest =>
      if is_digit a && is_digit b && is_digit c && is_digit d
      then Some (digit a * 1000 + digit b * 100 + digit c * 10 + digit d, rest) else None
  | _ => None
  end.

Definition skip (c : byte) (s : gostring) : option gostring :=
  match s with x :: rest => if x == c then Some rest else None | [] => None end.

Fixpoint span_digits (s : gostring) : gostring * gostring :=
  match s with
  | c :: rest => if is_digit c then let '(d, r) := span_digits rest in (c :: d, r) else ([], s)
  | [] => ([], [])
  end.

(** At most nine digits count. *)
Definition nanoseconds (ds : gostring) : Z :=
  let ds := take 9 ds in
  foldl (fun n c => n * 10 + digit c) 0 ds * 10 ^ (9 - len ds).

Definition getfraction (s : gostring) : Z * gostring :=
  match s with
  | p :: d :: _ =>
      if ((p == x2e) || (p == x2c)) && is_digit d
      then let '(ds, rest) := span_digits (drop 1 s) in (nanoseconds ds, rest) else (0, s)
  | _ => (0, s)
  end.

(** The offset in seconds, to the end of the text. *)
Definition getzone (s : gostring) : option Z :=
  if HasPrefix s §"Z" then (if drop 1 s == [] then Some 0 else None)
  else match s with
  | sign :: h1 :: h2 :: colon :: m1 :: m2 :: rest =>
      match getnum [h1; h2] true, getnum [m1; m2] true with
      | Some (hr, _), Some (mm, _) =>
          if negb (colon == x3a) || (hr >? 24) || (mm >? 60) || negb (rest == []) then None
          else if sign == x2b then Some ((hr * 60 + mm) * 60)
          else if sign == x2d then Some (- ((hr * 60 + mm) * 60))
          else None
      | _, _ => None
      end
  | _ => None
  end.

Definition parseRFC3339 (s : gostring) : option Z :=
  '(y, s) ← getyear s; s ← skip x2d s;
  '(m, s) ← getnum s true; s ← skip x2d s;
  '(d, s) ← getnum s true; s ← skip x54 s;
  '(hh, s) ← getnum s false; s ← skip x3a s;
  '(mm, s) ← getnum s true; s ← skip x3a s;
  '(ss, s) ← getnum s true;
  let '(ns, s) := getfraction s in
  zone ← getzone s;
  if (m <=? 0) || (12 <? m) || (d <? 1) || (daysIn y m <? d) || (23 <? hh) || (59 <? mm) || (59 <? ss) then None
  else Some (Date y m d hh mm ss ns - zone * Second).

(** ** Formatting *)

Fixpoint pad (width : nat) (n : Z) : gostring :=
  match width with
  | O => []
  | S k => pad k (n / 10) ++ [z2b (48 + n mod 10)]
  end.

(** [time.UnixMilli(ms).UTC().Format("2006-01-02T15:04:05.000Z")], for years that
    have four digits. *)
Definition formatMilli (ms : Z) : gostring :=
  let sec := ms / 1000 in
  let '(y, m, d) := civil (sec / 86400 + unixToYear1) in
  let t := sec mod 86400 in
  pad 4 y ++ §"-" ++ pad 2 m ++ §"-" ++ pad 2 d ++ §"T" ++ pad 2 (t / 3600) ++ §":" ++ pad 2 (t / 60 mod 60) ++ §":"
  ++ pad 2 (t mod 60) ++ §"." ++ pad 3 (ms mod 1000) ++ §"Z".

Example parse_examples :
  parseRFC3339 §"2026-07-15T09:30:00.123Z" = Some 1784107800123000000 /\
  parseRFC3339 §"1970-01-01T00:00:00Z" = Some 0 /\
  parseRFC3339 §"1970-01-01T1:00:00,5+01:00" = Some 500000000 /\
  parseRFC3339 §"2023-02-29T00:00:00Z" = None /\
  formatMilli 1784107800123 = §"2026-07-15T09:30:00.123Z" /\ formatMilli (-1) = §"1969-12-31T23:59:59.999Z".
Proof. vm_compute. repeat split. Qed.

(** ** Writing and reading back *)

Lemma month_step y m : 1 <= m <= 11 -> daysBefore y (m + 1) = daysBefore y m + daysIn y m.
Proof.
  intros Hm. assert (m = 1 \/ m = 2 \/ m = 3 \/ m = 4 \/ m = 5 \/ m = 6 \/ m = 7 \/ m = 8 \/ m = 9 \/ m = 10 \/ m = 11) as Hc by lia.
  unfold daysBefore, daysIn. destruct (isLeap y); destruct_or! Hc; subst m; vm_compute; reflexivity.
Qed.

Lemma month_loop fuel y m yday :
  1 <= m -> m + Z.of_nat fuel = 12 -> 0 <= yday -> daysBefore y m + yday < 365 + (if isLeap y then 1 else 0) ->
  let '(m', d) := month_of fuel y m yday in
  m <= m' <= 12 /\ 0 <= d < daysIn y m' /\ daysBefore y m' + d = daysBefore y m + yday.
Proof.
  revert m yday. induction fuel as [|k IH]; intros m yday Hm Hf H0 Hr; cbn [month_of].
  - assert (m = 12) as -> by lia. replace (daysIn y 12) with 31 by by unfold daysIn.
    change (daysBefore y 12) with (334 + (if isLeap y then 1 else 0)) in *. destruct (isLeap y); lia.
  - destruct (Z.ltb_spec yday (daysIn y m)); [lia|]. pose proof (month_step y m ltac:(lia)) as Hs.
    specialize (IH (m + 1) (yday - daysIn y m)). destruct (month_of k y (m + 1) _) as [m' d]. destruct IH as (? & ? & ?); lia.
Qed.

Lemma month_of_spec y yday :
  0 <= yday < 365 + (if isLeap y then 1 else 0) ->
  let '(m, d) := month_of 11 y 1 yday in
  1 <= m <= 12 /\ 0 <= d < daysIn y m /\ daysBefore y m + d = yday.
Proof. intros Hr. refine (month_loop 11 y 1 yday _ _ _ _); [lia..|]. exact (proj2 Hr). Qed.

(** The year of a day, by cycles of 400, 100, 4 and one years. *)
Lemma year_split n :
  let r400 := n mod 146097 in let n100 := Z.min 3 (r400 / 36524) in let r100 := r400 - n100 * 36524 in
  let n4 := r100 / 1461 in let r4 := r100 mod 1461 in let n1 := Z.min 3 (r4 / 365) in
  let y := 400 * (n / 146097) + 100 * n100 + 4 * n4 + n1 + 1 in
  365 * (y - 1) + (y - 1) / 4 - (y - 1) / 100 + (y - 1) / 400 + (r4 - n1 * 365) = n /\
  0 <= r4 - n1 * 365 < 365 + (if isLeap y then 1 else 0) /\
  0 <= 100 * n100 + 4 * n4 + n1 <= 399 /\ (r400 < 145731 <-> 100 * n100 + 4 * n4 + n1 <= 398).
Proof.
  intros r400 n100 r100 n4 r4 n1 y. set (q := n / 146097) in *.
  assert (n = 146097 * q + r400 /\ 0 <= r400 < 146097) as [En H400] by (subst q r400; Z.to_euclidean_division_equations; lia).
  assert (r400 = 36524 * n100 + r100 /\ 0 <= n100 <= 3 /\ 0 <= r100 <= 36524 /\ (n100 < 3 -> r100 < 36524)) as (E100 & Hn100 & H100 & H100')
    by (subst n100 r100; Z.to_euclidean_division_equations; lia).
  assert (r100 = 1461 * n4 + r4 /\ 0 <= n4 <= 24 /\ 0 <= r4 < 1461) as (E4 & Hn4 & H4) by (subst n4 r4; Z.to_euclidean_division_equations; lia).
  assert (0 <= n1 <= 3 /\ 0 <= r4 - n1 * 365 <= 365 /\ (n1 < 3 -> r4 - n1 * 365 < 365)) as (Hn1 & H1 & H1') by (subst n1; Z.to_euclidean_division_equations; lia).
  clearbody q r400 n100 r100 n4 r4 n1.
  assert ((y - 1) / 4 = 100 * q + 25 * n100 + n4 /\ (y - 1) / 100 = 4 * q + n100 /\ (y - 1) / 400 = q) as (-> & -> & ->)
    by (subst y; split_and!; symmetry; [apply (Z.div_unique _ _ _ n1)|apply (Z.div_unique _ _ _ (4 * n4 + n1))|apply (Z.div_unique _ _ _ (100 * n100 + 4 * n4 + n1))]; lia).
  split; [subst y; lia|]. split; [|lia]. split; [lia|].
  destruct (decide (r4 - n1 * 365 = 365)) as [E|]; [|destruct (isLeap y); lia].
  assert (n1 = 3) as -> by lia. assert (isLeap y = true) as ->; [|lia]. unfold isLeap. apply andb_true_iff. split.
  - apply Z.eqb_eq. symmetry. apply (Z.mod_unique _ _ (100 * q + 25 * n100 + n4 + 1)); lia.
  - apply orb_true_iff. destruct (decide (n4 = 24)) as [->|].
    + right. apply Z.eqb_eq. symmetry. apply (Z.mod_unique _ _ (q + 1)); lia.
    + left. apply negb_true_iff, Z.eqb_neq. rewrite <- (Z.mod_unique y 100 (4 * q + n100) (4 * n4 + 4)); lia.
Qed.

Lemma civil_ok n y m d :
  civil n = (y, m, d) ->
  daysSinceYear1 y m d = n /\ 1 <= m <= 12 /\ 1 <= d <= daysIn y m /\ (-366 <= n < 3652059 -> 0 <= y <= 9999).
Proof.
  unfold civil. pose proof (year_split n) as Hy. cbv zeta in Hy |- *.
  set (y0 := 400 * (n / 146097) + _ + _ + _ + 1) in *. destruct Hy as (E & Hr & Hrange & Hlast).
  pose proof (month_of_spec y0 _ Hr) as Hm. destruct (month_of 11 y0 1 _) as [m0 d0]. destruct Hm as (Hm & Hd & Hb).
  intros [= <- <- <-]. unfold daysSinceYear1. split; [lia|]. split; [done|]. split; [lia|]. intros Hn. subst y0.
  pose proof (Z.div_mod n 146097 ltac:(lia)). pose proof (Z.mod_pos_bound n 146097 ltac:(lia)). lia.
Qed.

Lemma dec_digit k : 0 <= k < 10 -> is_digit (z2b (48 + k)) = true /\ digit (z2b (48 + k)) = k.
Proof. intros Hk. unfold is_digit, digit. rewrite b2z_z2b by lia. lia. Qed.

Lemma mod10 n : 0 <= n mod 10 < 10.
Proof. by apply Z.mod_pos_bound. Qed.

Lemma getnum_pad n s fixed : 0 <= n <= 99 -> getnum (pad 2 n ++ s) fixed = Some (n, s).
Proof.
  intros Hn. cbn [pad app]. destruct (dec_digit _ (mod10 (n / 10))) as [A1 A2], (dec_digit _ (mod10 n)) as [B1 B2].
  unfold getnum. rewrite A1, A2, B1, B2. cbn [negb]. do 2 f_equal. Z.to_euclidean_division_equations; lia.
Qed.

Lemma getyear_pad n s : 0 <= n <= 9999 -> getyear (pad 4 n ++ s) = Some (n, s).
Proof.
  intros Hn. cbn [pad app]. destruct (dec_digit _ (mod10 (n / 10 / 10 / 10))) as [A1 A2], (dec_digit _ (mod10 (n / 10 / 10))) as [B1 B2],
    (dec_digit _ (mod10 (n / 10))) as [C1 C2], (dec_digit _ (mod10 n)) as [D1 D2].
  unfold getyear. rewrite A1, A2, B1, B2, C1, C2, D1, D2. cbn [andb]. do 2 f_equal. Z.to_euclidean_division_equations; lia.
Qed.

Lemma getfraction_pad n : 0 <= n <= 999 -> getfraction (§"." ++ pad 3 n ++ §"Z") = (n * 1000000, §"Z").
Proof.
  intros Hn. cbn [pad app]. destruct (dec_digit _ (mod10 (n / 10 / 10))) as [A1 A2], (dec_digit _ (mod10 (n / 10))) as [B1 B2], (dec_digit _ (mod10 n)) as [C1 C2].
  set (a := z2b (48 + n / 10 / 10 mod 10)) in *. set (b := z2b (48 + n / 10 mod 10)) in *. set (c := z2b (48 + n mod 10)) in *. clearbody a b c.
  assert (getfraction (x2e :: a :: b :: c :: §"Z") = (nanoseconds [a; b; c], §"Z")) as Hg.
  { unfold getfraction. rewrite A1. cbn [andb]. rewrite (bool_decide_eq_true_2 (x2e = x2e)) by done. cbn [orb andb drop].
    cbn [span_digits]. by rewrite A1, B1, C1. }
  etrans; [exact Hg|]. f_equal. unfold nanoseconds. cbn [take foldl]. rewrite A2, B2, C2.
  change (10 ^ (9 - len [a; b; c])) with 1000000. Z.to_euclidean_division_equations; lia.
Qed.

Lemma skip_head c s : skip c (c :: s) = Some s.
Proof. cbn. by rewrite bool_decide_eq_true_2. Qed.

(** A timestamp written for the server reads back as the same instant: years 0 to
    9999. *)
Lemma parse_format ms :
  -62167219200000 <= ms < 253402300800000 -> parseRFC3339 (formatMilli ms) = Some (ms * 1000000).
Proof.
  intros Hms. unfold formatMilli. destruct (civil (ms / 1000 / 86400 + unixToYear1)) as [[y m] d] eqn:Ec.
  apply civil_ok in Ec as (Ed & Hm & Hd & Hy). unfold unixToYear1 in *.
  assert (0 <= y <= 9999) as Hyr by (apply Hy; Z.to_euclidean_division_equations; lia).
  assert (d <= 31) as Hd31.
  { etrans; [apply Hd|]. unfold daysIn. destruct (_ && _); [lia|].
    assert (m = 1 \/ m = 2 \/ m = 3 \/ m = 4 \/ m = 5 \/ m = 6 \/ m = 7 \/ m = 8 \/ m = 9 \/ m = 10 \/ m = 11 \/ m = 12) as Hc by lia.
    destruct_or! Hc; subst m; by vm_compute. }
  set (t := ms / 1000 mod 86400). assert (0 <= t < 86400) as Ht by by apply Z.mod_pos_bound.
  assert (0 <= t / 3600 <= 23 /\ 0 <= t / 60 mod 60 <= 59 /\ 0 <= t mod 60 <= 59 /\ t = t / 3600 * 3600 + t / 60 mod 60 * 60 + t mod 60)
    as (H1 & H2 & H3 & Et) by (clearbody t; Z.to_euclidean_division_equations; lia).
  assert (0 <= ms mod 1000 <= 999) as H4 by (pose proof (Z.mod_pos_bound ms 1000); lia).
  unfold parseRFC3339. rewrite getyear_pad by lia. cbn [mbind option_bind].
  change (§"-") with [x2d]. change (§"T") with [x54]. change (§":") with [x3a].
  repeat (cbn [app]; rewrite skip_head; cbn [mbind option_bind]; rewrite getnum_pad by lia; cbn [mbind option_bind]).
  rewrite getfraction_pad by lia. cbn [mbind option_bind].
  replace (getzone §"Z") with (Some 0) by reflexivity. cbn [mbind option_bind].
  replace ((m <=? 0) || (12 <? m) || (d <? 1) || (daysIn y m <? d) || (23 <? t / 3600) || (59 <? t / 60 mod 60) || (59 <? t mod 60)) with false by lia.
  f_equal. unfold Date, Second, unixToYear1. rewrite Ed. unfold Millisecond.
  pose proof (Z.div_mod ms 1000 ltac:(lia)) as M1. pose proof (Z.div_mod (ms / 1000) 86400 ltac:(lia)) as M2. fold t in M2. lia.
Qed.
