(* ===== verification/GoJson.v ===== *)
(** * encoding/json: the encoding of strings, numbers and objects

    What [json.Marshal] writes for the values the hub sends: strings with HTML
    escaping and invalid UTF-8 replaced, decimal integers, and objects as their
    fields in order. *)

From S2P Require Import Prelude GoStrings GoUtf8 GoNet.

Definition dquote : gostring := [x22].

Definition hex_digit (n : Z) : byte := z2b (if n <? 10 then 48 + n else 87 + n).

(** A byte below 0x80. *)
Definition json_byte (c : Z) : gostring :=
  if (c =? 0x5c) || (c =? 0x22) then [x5c; z2b c]
  else if c =? 0x08 then §"\b"
  else if c =? 0x0c then §"\f"
  else if c =? 0x0a then §"\n"
  else if c =? 0x0d then §"\r"
  else if c =? 0x09 then §"\t"
  else if (c <? 0x20) || (c =? 0x3c) || (c =? 0x3e) || (c =? 0x26) then §"\u00" ++ [hex_digit (c / 16); hex_digit (c mod 16)]
  else [z2b c].

Definition json_chunk (rb : Z * gostring) : gostring :=
  let '(r, bs) := rb in
  if (r =? RuneError) && (length bs =? 1)%nat then §"\ufffd"
  else if r <? 0x80 then json_byte r
  else if (r =? 0x2028) || (r =? 0x2029) then §"\u202" ++ [hex_digit (r mod 16)]
  else bs.

Definition jsonString (s : gostring) : gostring := dquote ++ (chunks s ≫= json_chunk) ++ dquote.
Definition jsonBool (b : bool) : gostring := if b then §"true" else §"false".

(** A field of an object. *)
Definition json_field (name value : gostring) : gostring := dquote ++ name ++ dquote ++ §":" ++ value.
Definition jsonObject (fields : list gostring) : gostring := §"{" ++ Join fields §"," ++ §"}".
Definition jsonArray (items : list gostring) : gostring := §"[" ++ Join items §"," ++ §"]".

(** [omitempty] *)
Definition json_omit (empty : bool) (field : gostring) : list gostring := if empty then [] else [field].

(** ** Sizes *)

Lemma json_byte_len c : len (json_byte c) <= 6.
Proof. unfold json_byte. repeat (let E := fresh "E" in destruct_if as E; [by vm_compute|]). by vm_compute. Qed.

Lemma json_chunk_len r bs : bs <> [] -> len (json_chunk (r, bs)) <= 6 * len bs.
Proof.
  intros Hb. assert (1 <= len bs) by (destruct bs; [done|rewrite len_cons; pose proof (len_nonneg bs); lia]). unfold json_chunk.
  destruct_if as E1; [change (len §"\ufffd") with 6; lia|]. destruct_if as E2; [pose proof (json_byte_len r); lia|].
  destruct_if as E3; [rewrite len_app; change (len §"\u202") with 5; unfold len at 1; cbn [length]; lia|lia].
Qed.

Lemma chunks_nonempty s : Forall (fun rb => rb.2 <> []) (chunks s).
Proof.
  remember (length s) as k eqn:Hk. revert s Hk. induction k as [k IH] using lt_wf_ind. intros s ->.
  destruct (decide (s = [])) as [->|Hs]; [done|]. destruct (DecodeRune s) as [r n] eqn:E. pose proof (DecodeRune_width s Hs) as Hw. rewrite E in Hw. cbn in Hw.
  rewrite (chunks_cons s r n Hs E). constructor; [cbn|].
  - intros Ht. apply (f_equal length) in Ht. rewrite length_take in Ht. cbn in Ht. lia.
  - apply (IH (length (drop n s))); [|done]. rewrite length_drop. destruct s; [done|cbn in *; lia].
Qed.

Lemma json_chunks_len l : Forall (fun rb : Z * gostring => rb.2 <> []) l -> len (l ≫= json_chunk) <= 6 * len (mjoin l.*2).
Proof.
  induction 1 as [|[r bs] l Hb _ IH]; [done|]. rewrite bind_cons, fmap_cons. change (mjoin ((r, bs).2 :: l.*2)) with (bs ++ mjoin l.*2).
  rewrite !len_app. pose proof (json_chunk_len r bs Hb). lia.
Qed.

(** A byte takes at most six. *)
Lemma jsonString_len s : len (jsonString s) <= 6 * len s + 2.
Proof.
  unfold jsonString. rewrite !len_app. pose proof (json_chunks_len (chunks s) (chunks_nonempty s)) as H. rewrite chunks_concat in H.
  change (len dquote) with 1. lia.
Qed.

Lemma decimal_len k n : len (decimal k n) <= Z.of_nat k.
Proof.
  revert n. induction k as [|k IH]; intros n; cbn [decimal]; [done|]. destruct (n <? 10); [unfold len; cbn; lia|]. rewrite len_app. specialize (IH (n / 10)). unfold len in *. cbn. lia.
Qed.

Lemma Itoa_len n : len (Itoa n) <= 21.
Proof.
  unfold Itoa. destruct (n <? 0); [rewrite len_app; pose proof (decimal_len 20 (- n)); change (len §"-") with 1; lia|]. pose proof (decimal_len 20 n). lia.
Qed.

(** The bytes of a list joined by commas. *)
Definition joined_len (l : list gostring) : Z := foldr (fun s n => len s + n) 0 l + Z.max 0 (len l - 1).

Lemma Join_comma_len l : len (Join l §",") = joined_len l.
Proof.
  unfold joined_len. induction l as [|s l IH]; [done|]. destruct l as [|t l]; [cbn; unfold len; cbn; lia|].
  change (Join (s :: t :: l) §",") with (s ++ §"," ++ Join (t :: l) §","). rewrite !len_app, IH. change (len §",") with 1. rewrite !len_cons. cbn [foldr]. pose proof (len_nonneg l). lia.
Qed.

Lemma json_field_len name value : len (json_field name value) = len name + 3 + len value.
Proof. unfold json_field. rewrite !len_app. change (len dquote) with 1. change (len §":") with 1. lia. Qed.
Lemma jsonObject_len fields : len (jsonObject fields) = 2 + joined_len fields.
Proof. unfold jsonObject. rewrite !len_app, Join_comma_len. change (len §"{") with 1. change (len §"}") with 1. lia. Qed.
Lemma jsonArray_len items : len (jsonArray items) = 2 + joined_len items.
Proof. unfold jsonArray. rewrite !len_app, Join_comma_len. change (len §"[") with 1. change (len §"]") with 1. lia. Qed.
Lemma joined_cons s l : l <> [] -> joined_len (s :: l) = len s + 1 + joined_len l.
Proof. intros Hl. unfold joined_len. cbn [foldr]. rewrite len_cons. destruct l as [|t l]; [done|]. rewrite len_cons. pose proof (len_nonneg l). lia. Qed.
Lemma joined_one s : joined_len [s] = len s.
Proof. unfold joined_len. cbn [foldr]. change (len [s]) with 1. lia. Qed.
