(* ===== verification/GoIP.v ===== *)
(** * IP addresses: net.ParseIP and net.IP.String

    An address is a number with its width, as [net.IP] is four or sixteen
    bytes.  The parser is that of net/netip, which [net.ParseIP] calls; the
    printer writes an IPv6 address with its longest run of zero groups as two
    colons. *)

From S2P Require Import Prelude GoStrings GoUtf8 GoNet.

Inductive IP := IPv4 (a : Z) | IPv6 (a : Z).

Definition ip_ok (ip : IP) : Prop :=
  match ip with IPv4 a => 0 <= a < 2 ^ 32 | IPv6 a => 0 <= a < 2 ^ 128 end.

(** [net.IP.To4] and [netip.Addr.Unmap]: an IPv4-mapped address is the IPv4
    address. *)
Definition To4 (ip : IP) : IP :=
  match ip with
  | IPv4 a => IPv4 a
  | IPv6 a => if Z.shiftr a 32 =? 0xFFFF then IPv4 (Z.land a 0xFFFFFFFF) else IPv6 a
  end.

(** ** Parsing *)

(** The four octets, from [val] and [digLen] of the current one; [fields] are the
    ones before it. *)
Fixpoint v4_fields (s : gostring) (val : Z) (digLen : nat) (fields : list Z) : option (list Z) :=
  match s with
  | [] => if (length fields <? 3)%nat then None else Some (fields ++ [val])
  | c :: s' =>
      if is_digit c then
        if (digLen =? 1)%nat && (val =? 0) then None
        else let val := val * 10 + (b2z c - 48) in
             if 255 <? val then None else v4_fields s' val (S digLen) fields
      else if c == x2e then
        if (digLen =? 0)%nat || bool_decide (s' = []) then None
        else if (length fields =? 3)%nat then None
        else v4_fields s' 0 0 (fields ++ [val])
      else None
  end.

Definition parseIPv4Fields (s : gostring) : option (list Z) := v4_fields s 0 0 [].

Definition hex_val (c : byte) : option Z :=
  let n := b2z c in
  if in_range 48 n 57 then Some (n - 48)
  else if in_range 97 n 102 then Some (n - 87)
  else if in_range 65 n 70 then Some (n - 55)
  else None.

(** One hexadecimal group: its value, its digits, and what follows. *)
Fixpoint hex_group (s : gostring) (off : nat) (acc : Z) : option (Z * nat * gostring) :=
  match s with
  | [] => Some (acc, off, [])
  | c :: s' =>
      match hex_val c with
      | None => Some (acc, off, s)
      | Some v =>
          let acc := acc * 16 + v in
          if (3 <? off)%nat || (0xFFFF <? acc) then None else hex_group s' (S off) acc
      end
  end.

(** The loop over the groups: at most eight, each adding one. *)
Fixpoint v6_loop (fuel : nat) (s : gostring) (groups : list Z) (ellipsis : option nat) : option (list Z * option nat * gostring) :=
  match fuel with
  | O => Some (groups, ellipsis, s)
  | S fuel =>
      match hex_group s 0 0 with
      | None => None
      | Some (acc, off, rest) =>
          if (off =? 0)%nat then None
          else if bool_decide (head rest = Some x2e) then
            if bool_decide (ellipsis = None) && negb (length groups =? 6)%nat then None
            else if (8 <? length groups + 2)%nat then None
            else match parseIPv4Fields s with
                 | Some [a; b; c; d] => Some (groups ++ [a * 256 + b; c * 256 + d], ellipsis, [])
                 | _ => None
                 end
          else
            let groups := groups ++ [acc] in
            match rest with
            | [] => Some (groups, ellipsis, [])
            | c :: rest' =>
                if negb (c == x3a) then None
                else match rest' with
                     | [] => None
                     | d :: rest'' =>
                         if d == x3a then
                           match ellipsis with
                           | Some _ => None
                           | None =>
                               match rest'' with
                               | [] => Some (groups, Some (length groups), [])
                               | _ => v6_loop fuel rest'' groups (Some (length groups))
                               end
                           end
                         else v6_loop fuel rest' groups ellipsis
                     end
            end
      end
  end.

Definition groups_value (groups : list Z) : Z := foldl (fun a g => a * 2 ^ 16 + g) 0 groups.

(** [parseIPv6] of an address without a zone. *)
Definition v6_groups (s : gostring) : option (list Z) :=
  let '(ellipsis, s) := if HasPrefix s §"::" then (Some O, drop 2 s) else (None, s) in
  if bool_decide (ellipsis = Some O) && bool_decide (s = []) then Some (replicate 8 0)
  else match v6_loop 8 s [] ellipsis with
       | Some (groups, ellipsis, []) =>
           let n := length groups in
           if (n <? 8)%nat then
             match ellipsis with
             | None => None
             | Some e => Some (take e groups ++ replicate (8 - n) 0 ++ drop e groups)
             end
           else match ellipsis with Some _ => None | None => Some groups end
       | _ => None
       end.

(** [net.ParseIP]: four-byte addresses come back IPv4-mapped, a zone is refused. *)
Fixpoint first_sep (s : gostring) : option byte :=
  match s with
  | [] => None
  | c :: s' => if (c == x2e) || (c == x3a) || (c == x25) then Some c else first_sep s'
  end.

Definition ParseIP (s : gostring) : option IP :=
  match first_sep s with
  | Some x2e =>
      match parseIPv4Fields s with
      | Some fields => Some (IPv6 (0xFFFF * 2 ^ 32 + foldl (fun a b => a * 256 + b) 0 fields))
      | None => None
      end
  | Some x3a => if ContainsByte s x25 then None else (fun g => IPv6 (groups_value g)) <$> v6_groups s
  | _ => None
  end.

(** ** Printing *)

Definition hex_digit (n : Z) : byte := z2b (if n <? 10 then 48 + n else 87 + n).

(** [appendHex]: no leading zeros. *)
Definition appendHex (x : Z) : gostring :=
  let d k := hex_digit (Z.land (Z.shiftr x k) 15) in
  (if 0x1000 <=? x then [d 12] else []) ++ (if 0x100 <=? x then [d 8] else []) ++
  (if 0x10 <=? x then [d 4] else []) ++ [d 0].

Definition group (a : Z) (i : nat) : Z := Z.land (Z.shiftr a (16 * (7 - Z.of_nat i))) 0xFFFF.

(** How many groups from [i] on are zero. *)
Fixpoint zero_run (gs : list Z) : nat :=
  match gs with g :: gs' => if g =? 0 then S (zero_run gs') else O | [] => O end.

(** The scan for the longest run of at least two zero groups, the first of equals. *)
Fixpoint longest_run (fuel i : nat) (gs : list Z) (best : nat * nat) : nat * nat :=
  match fuel with
  | O => best
  | S fuel =>
      let l := zero_run gs in
      longest_run fuel (S i) (tail gs)
        (if (2 <=? l)%nat && (best.2 - best.1 <? l)%nat then (i, i + l)%nat else best)
  end.

(** [appendTo6], from group [i]. *)
Fixpoint print_groups (fuel i : nat) (gs : list Z) (zs ze : nat) : gostring :=
  match fuel with
  | O => []
  | S fuel =>
      match gs !! i with
      | None => []
      | Some g =>
          if (i =? zs)%nat then
            §"::" ++ match gs !! ze with
                     | None => []
                     | Some h => appendHex h ++ print_groups fuel (S ze) gs zs ze
                     end
          else (if (0 <? i)%nat then §":" else []) ++ appendHex g ++ print_groups fuel (S i) gs zs ze
      end
  end.

Definition print6 (gs : list Z) : gostring :=
  let '(zs, ze) := longest_run 8 0 gs (255, 255)%nat in print_groups 8 0 gs zs ze.

Definition String6 (a : Z) : gostring := print6 (group a <$> seq 0 8).

Definition octet (a : Z) (i : nat) : Z := Z.land (Z.shiftr a (8 * (3 - Z.of_nat i))) 0xFF.

Definition String4 (a : Z) : gostring := Join ((fun i => Itoa (octet a i)) <$> seq 0 4) §".".

(** [net.IP.String]. *)
Definition String (ip : IP) : gostring := match To4 ip with IPv4 a => String4 a | IPv6 a => String6 a end.

(** Parsing and printing of sample addresses. *)
Example parse_print :
  (fun s => String <$> ParseIP s) <$>
    [§"::1"; §"2001:DB8:0:0:1:0:0:1"; §"1.2.3.4"; §"::ffff:10.0.0.1"; §"fe80::"; §"1:2:3:4:5:6:7:8"; §"1:2:3:4:5:6:7::"; §"64:ff9b::1.2.3.4"]
  = [Some §"::1"; Some §"2001:db8::1:0:0:1"; Some §"1.2.3.4"; Some §"10.0.0.1"; Some §"fe80::"; Some §"1:2:3:4:5:6:7:8"; Some §"1:2:3:4:5:6:7:0"; Some §"64:ff9b::102:304"].
Proof. vm_compute. reflexivity. Qed.

Example parse_refuses :
  Forall (fun s => ParseIP s = None)
    [§""; §"127.1"; §"01.2.3.4"; §"1.2.3.256"; §"1.2.3.4."; §"1..2.3"; §"0x7f.0.0.1"; §"fe80::1%eth0"; §":::"; §"1::2::3"; §"12345::"; §"1:2:3:4:5:6:7:8:9"; §"::1.2.3"; §"1:2"].
Proof. repeat constructor. Qed.

(** ** Parsed addresses are in range *)

Definition within (n : Z) (l : list Z) : Prop := Forall (fun x => 0 <= x < n) l.

Lemma digit_val c : is_digit c = true -> 0 <= b2z c - 48 <= 9.
Proof. destruct c; try done; vm_compute; split; congruence. Qed.

Lemma hex_val_range c v : hex_val c = Some v -> 0 <= v < 16.
Proof. destruct c; intros [= <-]; vm_compute; split; congruence. Qed.

Lemma within_snoc n l x : within n l -> 0 <= x < n -> within n (l ++ [x]).
Proof. intros Hl Hx. apply Forall_app. split; [done|]. apply Forall_singleton. lia. Qed.

Lemma v4_fields_ok s val digLen fields out :
  v4_fields s val digLen fields = Some out -> 0 <= val < 256 -> within 256 fields -> (length fields <= 3)%nat ->
  within 256 out /\ length out = 4%nat.
Proof.
  revert val digLen fields. induction s as [|c s IH]; intros val digLen fields; simpl; intros E Hv Hf Hl.
  - destruct (_ <? 3)%nat eqn:Hn; [done|]. injection E as <-. apply Nat.ltb_ge in Hn. split; [by apply within_snoc|rewrite length_app; simpl; lia].
  - destruct (is_digit c) eqn:Ed.
    + destruct (_ && _); [done|]. destruct (255 <? _) eqn:Eo; [done|]. apply digit_val in Ed. eapply IH; [exact E|lia|done..].
    + case_bool_decide; [|done]. destruct (_ || _); [done|]. destruct (_ =? 3)%nat eqn:E3; [done|]. apply Nat.eqb_neq in E3.
      eapply IH; [exact E|lia|by apply within_snoc|rewrite length_app; simpl; lia].
Qed.

Lemma hex_group_ok s off acc x n rest : hex_group s off acc = Some (x, n, rest) -> 0 <= acc < 0x10000 -> 0 <= x < 0x10000.
Proof.
  revert off acc. induction s as [|c s IH]; intros off acc; simpl; intros E Ha; [by injection E as <- _ _|].
  destruct (hex_val c) as [v|] eqn:Ev; [|by injection E as <- _ _]. apply hex_val_range in Ev.
  destruct (_ || _) eqn:Eo; [done|]. apply orb_false_iff in Eo as [_ Eo]. eapply IH; [exact E|lia].
Qed.

Lemma v6_loop_ok fuel s groups ell out ell' rest :
  v6_loop fuel s groups ell = Some (out, ell', rest) -> within 0x10000 groups -> (length groups + fuel <= 8)%nat ->
  within 0x10000 out /\ (length out <= 8)%nat.
Proof.
  revert s groups ell. induction fuel as [|fuel IH]; intros s groups ell; simpl; intros E Hg Hl.
  { injection E as <- _ _. split; [done|lia]. }
  destruct (hex_group s 0 0) as [[[acc off] r]|] eqn:Eh; [|done]. apply hex_group_ok in Eh; [|lia].
  destruct (off =? 0)%nat; [done|]. case_bool_decide.
  - destruct (_ && _); [done|]. destruct (8 <? _)%nat eqn:E8; [done|]. apply Nat.ltb_ge in E8.
    destruct (parseIPv4Fields s) as [[|a [|b [|c [|d [|]]]]]|] eqn:E4; try done. injection E as <- _ _.
    apply v4_fields_ok in E4 as [Hw _]; [|lia|by constructor|simpl; lia].
    unfold within in Hw. rewrite !Forall_cons in Hw. split; [|rewrite length_app; simpl; lia].
    apply Forall_app. split; [done|]. rewrite !Forall_cons. split_and!; try lia; constructor.
  - pose proof (within_snoc _ _ _ Hg Eh) as Hs. assert (length (groups ++ [acc]) = S (length groups)) as Hn by (rewrite length_app; simpl; lia).
    destruct r as [|c r]; [injection E as <- _ _; split; [done|lia]|]. destruct (negb _); [done|].
    destruct r as [|d r]; [done|]. case_bool_decide; [|eapply IH; [exact E|done|lia]].
    destruct ell; [done|]. destruct r; [injection E as <- _ _; split; [done|lia]|]. eapply IH; [exact E|done|lia].
Qed.

Lemma v6_groups_ok s out : v6_groups s = Some out -> within 0x10000 out /\ length out = 8%nat.
Proof.
  unfold v6_groups. set (st := if HasPrefix s §"::" then _ else _). destruct st as [ell r].
  assert (within 0x10000 (replicate 8 0)) as Hz by (by repeat constructor).
  destruct (_ && _); [by intros [= <-]|].
  destruct (v6_loop 8 r [] ell) as [[[gs e] rest]|] eqn:E; [|done].
  apply v6_loop_ok in E as [Hw Hl]; [|constructor|simpl; lia]. destruct rest; [|done].
  destruct (Nat.ltb_spec (length gs) 8) as [Hn|Hn].
  - destruct e as [e|]; [|done]. intros [= <-]. split.
    + apply Forall_app. split; [by apply Forall_take|]. apply Forall_app. split; [|by apply Forall_drop].
      apply Forall_forall. intros x [-> _]%elem_of_replicate. lia.
    + rewrite !length_app, length_replicate, length_take, length_drop. lia.
  - destruct e; [done|]. intros [= <-]. split; [done|lia].
Qed.

Lemma digits_bound n l acc : 0 < n -> 0 <= acc -> within n l ->
  acc * n ^ len l <= foldl (fun a x => a * n + x) acc l < (acc + 1) * n ^ len l.
Proof.
  intros Hn. revert acc. induction l as [|x l IH]; intros acc Ha Hw; simpl; [change (len []) with 0; lia|].
  apply Forall_cons in Hw as [Hx Hw]. specialize (IH (acc * n + x) ltac:(nia) Hw).
  rewrite len_cons, Z.add_comm, Z.pow_add_r, Z.pow_1_r by (pose proof (len_nonneg l); lia).
  pose proof (Z.pow_pos_nonneg n (len l) Hn (len_nonneg l)) as Hp. nia.
Qed.

Lemma ParseIP_ok s ip : ParseIP s = Some ip -> ip_ok ip.
Proof.
  unfold ParseIP. destruct (first_sep s) as [[]|]; try done.
  - destruct (parseIPv4Fields s) as [fs|] eqn:E; [|done]. intros [= <-].
    apply v4_fields_ok in E as [Hw Hl]; [|lia|by constructor|simpl; lia].
    pose proof (digits_bound 256 fs 0 ltac:(lia) ltac:(lia) Hw) as Hb. unfold len in Hb. rewrite Hl in Hb.
    change (256 ^ Z.of_nat 4) with (2 ^ 32) in Hb. cbn [ip_ok]. lia.
  - destruct (ContainsByte s x25); [done|]. destruct (v6_groups s) as [gs|] eqn:E; [|done]. intros [= <-].
    apply v6_groups_ok in E as [Hw Hl]. pose proof (digits_bound (2 ^ 16) gs 0 ltac:(lia) ltac:(lia) Hw) as Hb.
    unfold len in Hb. rewrite Hl in Hb. change ((2 ^ 16) ^ Z.of_nat 8) with (2 ^ 128) in Hb. cbn [ip_ok]. unfold groups_value. lia.
Qed.

(** ** Printed addresses *)

Lemma octet_div a i : (i <= 3)%nat -> octet a i = a / 2 ^ (8 * (3 - Z.of_nat i)) mod 256.
Proof. intros Hi. unfold octet. rewrite Z.shiftr_div_pow2 by lia. change 0xFF with (Z.ones 8). by rewrite Z.land_ones by lia. Qed.

Definition no_byte (c : byte) (s : gostring) : bool := negb (ContainsByte s c).

Lemma no_byte_spec c s : no_byte c s = true -> c ∉ s.
Proof. unfold no_byte. intros Hn Hin. apply ContainsByte_spec in Hin. by rewrite Hin in Hn. Qed.

Lemma by_inspection (n : nat) (P : Z -> bool) :
  forallb (fun k => P (Z.of_nat k)) (seq 0 n) = true -> forall x, 0 <= x < Z.of_nat n -> P x = true.
Proof.
  intros Hall x Hx. rewrite forallb_forall in Hall. specialize (Hall (Z.to_nat x)). rewrite Z2Nat.id in Hall by lia.
  apply Hall, in_seq. lia.
Qed.

Lemma Itoa_octet n : 0 <= n < 256 -> x2e ∉ Itoa n.
Proof. intros Hn. apply no_byte_spec. by apply (by_inspection 256 (fun n => no_byte x2e (Itoa n)) ltac:(vm_compute; reflexivity)). Qed.

Lemma octet_range a i : 0 <= octet a i < 256.
Proof. unfold octet. change 0xFF with (Z.ones 8). rewrite Z.land_ones by lia. by apply Z.mod_pos_bound. Qed.

Lemma String4_inj a b : 0 <= a < 2 ^ 32 -> 0 <= b < 2 ^ 32 -> String4 a = String4 b -> a = b.
Proof.
  intros Ha Hb E. assert (forall c, Split (String4 c) x2e = (fun i => Itoa (octet c i)) <$> seq 0 4) as Hs.
  { intros c. apply Split_Join; [done|]. cbn. repeat (apply Forall_cons; split; [apply Itoa_octet, octet_range|]). by constructor. }
  apply (f_equal (fun s => Split s x2e)) in E. rewrite !Hs in E. cbn [seq fmap list_fmap] in E.
  injection E as E0 E1 E2 E3. assert (forall i, Itoa (octet a i) = Itoa (octet b i) -> octet a i = octet b i) as Hi.
  { intros i Ei. pose proof (octet_range a i). pose proof (octet_range b i). apply (f_equal (fun s => (Atoi s).1)) in Ei.
    rewrite !Atoi_Itoa in Ei by (unfold maxInt64; lia). done. }
  apply Hi in E0, E1, E2, E3. rewrite !octet_div in E0, E1, E2, E3 by lia.
  change (8 * (3 - Z.of_nat 0)) with 24 in E0. change (8 * (3 - Z.of_nat 1)) with 16 in E1.
  change (8 * (3 - Z.of_nat 2)) with 8 in E2. change (8 * (3 - Z.of_nat 3)) with 0 in E3.
  clear - E0 E1 E2 E3 Ha Hb. Z.to_euclidean_division_equations. lia.
Qed.

(** *** The /64 of an IPv6 address *)

Definition hex_value (s : gostring) : Z := foldl (fun a c => a * 16 + default 0 (hex_val c)) 0 s.

Lemma by_inspection16 (P : Z -> bool) :
  forallb (fun h => forallb (fun l => P (256 * Z.of_nat h + Z.of_nat l)) (seq 0 256)) (seq 0 256) = true ->
  forall x, 0 <= x < 0x10000 -> P x = true.
Proof.
  intros Hall x Hx. rewrite forallb_forall in Hall. specialize (Hall (Z.to_nat (x / 256))). rewrite forallb_forall in Hall.
  pose proof (Z.div_mod x 256 ltac:(lia)) as Hd. pose proof (Z.mod_pos_bound x 256 ltac:(lia)) as Hm.
  assert (0 <= x / 256 < 256) as Hq by lia.
  specialize (Hall ltac:(apply in_seq; lia) (Z.to_nat (x mod 256)) ltac:(apply in_seq; lia)).
  rewrite !Z2Nat.id in Hall by lia. by rewrite <- Hd in Hall.
Qed.

Definition hex_fine (x : Z) : bool :=
  let s := appendHex x in no_byte x3a s && no_byte x2f s && negb (bool_decide (s = [])) && (hex_value s =? x).

Lemma appendHex_props x : 0 <= x < 0x10000 -> (x3a ∉ appendHex x) /\ (x2f ∉ appendHex x) /\ appendHex x <> [] /\ hex_value (appendHex x) = x.
Proof.
  intros Hx. pose proof (by_inspection16 hex_fine ltac:(vm_compute; reflexivity) x Hx) as Hp.
  apply andb_true_iff in Hp as [[[H1 H2]%andb_true_iff H3]%andb_true_iff H4].
  split_and!; [by apply no_byte_spec..|by intros E; rewrite E in H3|lia].
Qed.

Definition nonempty (s : gostring) : bool := negb (s == []).

Fixpoint trim_zeros (gs : list Z) : list Z :=
  match gs with
  | [] => []
  | g :: gs' => match trim_zeros gs' with [] => if g =? 0 then [] else [g] | t => g :: t end
  end.

(** The groups of an address whose low half is zero can be read off its text. *)
Lemma String6_groups g0 g1 g2 g3 :
  within 0x10000 [g0; g1; g2; g3] ->
  List.filter nonempty (Split (print6 [g0; g1; g2; g3; 0; 0; 0; 0]) x3a) = appendHex <$> trim_zeros [g0; g1; g2; g3].
Proof.
  unfold within. rewrite !Forall_cons. intros (H0 & H1 & H2 & H3 & _).
  destruct (appendHex_props g0 H0) as (C0 & _ & N0 & _), (appendHex_props g1 H1) as (C1 & _ & N1 & _),
           (appendHex_props g2 H2) as (C2 & _ & N2 & _), (appendHex_props g3 H3) as (C3 & _ & N3 & _).
  assert (forall g, appendHex g <> [] -> nonempty (appendHex g) = true) as Hn.
  { intros g Hg. unfold nonempty. by rewrite bool_decide_eq_false_2. }
  apply Hn in N0, N1, N2, N3. clear Hn.
  destruct g0 as [|p0|p0]; [|clear H0|lia]; (destruct g1 as [|p1|p1]; [|clear H1|lia]);
    (destruct g2 as [|p2|p2]; [|clear H2|lia]); (destruct g3 as [|p3|p3]; [|clear H3|lia]);
    lazy -[appendHex Split nonempty List.filter app]; cbn [app]; rewrite ?Split_app by done;
    cbn -[appendHex nonempty]; rewrite ?N0, ?N1, ?N2, ?N3; reflexivity.
Qed.

(** [ip.Mask(net.CIDRMask(64, 128))]. *)
Definition mask64 (a : Z) : Z := Z.shiftl (Z.shiftr a 64) 64.

Lemma group_range a i : 0 <= group a i < 0x10000.
Proof. unfold group. change 0xFFFF with (Z.ones 16). rewrite Z.land_ones by lia. by apply Z.mod_pos_bound. Qed.

Lemma group_div a i : (i <= 7)%nat -> group a i = a / 2 ^ (16 * (7 - Z.of_nat i)) mod 2 ^ 16.
Proof. intros Hi. unfold group. rewrite Z.shiftr_div_pow2 by lia. change 0xFFFF with (Z.ones 16). by rewrite Z.land_ones by lia. Qed.

Lemma mask64_groups a : group (mask64 a) <$> seq 0 8 = [group a 0; group a 1; group a 2; group a 3; 0; 0; 0; 0].
Proof.
  assert (forall i, (i < 4)%nat -> group (mask64 a) i = group a i) as Hh.
  { intros i Hi. unfold group, mask64. f_equal. apply Z.bits_inj'. intros n Hn.
    rewrite !Z.shiftr_spec by lia. rewrite Z.shiftl_spec by lia. rewrite Z.shiftr_spec by lia. f_equal. lia. }
  assert (forall i, (4 <= i <= 7)%nat -> group (mask64 a) i = 0) as Hl.
  { intros i Hi. unfold group, mask64. apply Z.bits_inj'. intros n Hn. rewrite Z.bits_0, Z.land_spec, Z.shiftr_spec by lia.
    destruct (Z.ltb_spec n 16); [rewrite Z.shiftl_spec_low by lia; done|].
    change 0xFFFF with (Z.ones 16). rewrite Z.ones_spec_high by lia. apply andb_false_r. }
  cbn [seq fmap list_fmap]. rewrite !Hh, !Hl by lia. done.
Qed.

Lemma trim_zeros_inj l k : length l = length k -> trim_zeros l = trim_zeros k -> l = k.
Proof.
  assert (forall l, trim_zeros l = [] -> l = replicate (length l) 0) as Hz.
  { induction l0 as [|g l0 IH]; [done|]. simpl. destruct (trim_zeros l0); [|done]. destruct (Z.eqb_spec g 0); [|done]. intros _. by rewrite <- IH, e. }
  revert k. induction l as [|g l IH]; intros [|h k]; simpl; intros Hl E; try done. injection Hl as Hl.
  destruct (trim_zeros l) as [|x t] eqn:El, (trim_zeros k) as [|y u] eqn:Ek.
  - apply Hz in El, Ek. rewrite El, Ek, Hl. destruct (Z.eqb_spec g 0), (Z.eqb_spec h 0); congruence.
  - destruct (g =? 0); congruence.
  - destruct (h =? 0); congruence.
  - injection E as -> -> ->. f_equal. apply IH; [done|]. by rewrite ?El, Ek.
Qed.

Lemma appendHex_inj l k : within 0x10000 l -> within 0x10000 k -> appendHex <$> l = appendHex <$> k -> l = k.
Proof.
  intros Hl. revert k. induction Hl as [|x l Hx Hl IH]; intros k Hk E; destruct Hk as [|y k Hy Hk]; try done.
  injection E as E1 E2. f_equal; [|by apply IH]. destruct (appendHex_props x Hx) as (_ & _ & _ & <-), (appendHex_props y Hy) as (_ & _ & _ & <-).
  by rewrite E1.
Qed.

Lemma trim_zeros_within n l : within n l -> within n (trim_zeros l).
Proof.
  induction 1 as [|x l Hx Hl IH]; [constructor|]. simpl.
  destruct (trim_zeros l); [destruct (x =? 0); [constructor|by apply Forall_singleton]|by apply Forall_cons].
Qed.

Lemma groups_high a :
  0 <= a < 2 ^ 128 -> a / 2 ^ 64 = ((group a 0 * 2 ^ 16 + group a 1) * 2 ^ 16 + group a 2) * 2 ^ 16 + group a 3.
Proof.
  intros Ha. rewrite !group_div by lia.
  change (16 * (7 - Z.of_nat 0)) with (64 + 48). change (16 * (7 - Z.of_nat 1)) with (64 + 32).
  change (16 * (7 - Z.of_nat 2)) with (64 + 16). change (16 * (7 - Z.of_nat 3)) with 64.
  rewrite !Z.pow_add_r by lia. rewrite <- !Z.div_div by lia.
  assert (0 <= a / 2 ^ 64 < 2 ^ 64) as Hq by (split; [apply Z.div_pos; lia|apply Z.div_lt_upper_bound; lia]).
  generalize dependent (a / 2 ^ 64). clear. intros q Hq.
  change (2 ^ 48) with (2 ^ 16 * (2 ^ 16 * 2 ^ 16)). change (2 ^ 32) with (2 ^ 16 * 2 ^ 16). rewrite <- !Z.div_div by lia.
  pose proof (Z.div_mod q (2 ^ 16) ltac:(lia)) as H0. set (r := q / 2 ^ 16) in *.
  pose proof (Z.div_mod r (2 ^ 16) ltac:(lia)) as H1. set (t := r / 2 ^ 16) in *.
  pose proof (Z.div_mod t (2 ^ 16) ltac:(lia)) as H2. pose proof (Z.mod_pos_bound q (2 ^ 16) ltac:(lia)). pose proof (Z.mod_pos_bound r (2 ^ 16) ltac:(lia)).
  pose proof (Z.mod_pos_bound t (2 ^ 16) ltac:(lia)). rewrite (Z.mod_small (t / 2 ^ 16)) by nia. lia.
Qed.

(** The text of a /64 determines it. *)
Lemma print6_inj g0 g1 g2 g3 h0 h1 h2 h3 :
  within 0x10000 [g0; g1; g2; g3] -> within 0x10000 [h0; h1; h2; h3] ->
  print6 [g0; g1; g2; g3; 0; 0; 0; 0] = print6 [h0; h1; h2; h3; 0; 0; 0; 0] -> [g0; g1; g2; g3] = [h0; h1; h2; h3].
Proof.
  intros Hg Hh E. pose proof (String6_groups _ _ _ _ Hg) as Sg. pose proof (String6_groups _ _ _ _ Hh) as Sh.
  rewrite <- E, Sg in Sh. apply appendHex_inj in Sh; [|by apply trim_zeros_within..]. by apply trim_zeros_inj in Sh.
Qed.

Lemma high_within c : within 0x10000 [group c 0; group c 1; group c 2; group c 3].
Proof. unfold within. rewrite !Forall_cons. split_and!; try apply group_range. constructor. Qed.

Lemma String6_mask a : String6 (mask64 a) = print6 [group a 0; group a 1; group a 2; group a 3; 0; 0; 0; 0].
Proof. exact (f_equal print6 (mask64_groups a)). Qed.

Lemma String6_mask_inj a b :
  0 <= a < 2 ^ 128 -> 0 <= b < 2 ^ 128 -> String6 (mask64 a) = String6 (mask64 b) -> Z.shiftr a 64 = Z.shiftr b 64.
Proof.
  intros Ha Hb E. rewrite (String6_mask a), (String6_mask b) in E. apply print6_inj in E; [|apply high_within..].
  injection E as E0 E1 E2 E3. rewrite !Z.shiftr_div_pow2 by lia. rewrite (groups_high a Ha), (groups_high b Hb). congruence.
Qed.

Lemma mask64_not_mapped a : (Z.shiftr (mask64 a) 32 =? 0xFFFF) = false.
Proof.
  apply Z.eqb_neq. intros E. apply (f_equal (fun z => Z.testbit z 0)) in E. unfold mask64 in E.
  rewrite Z.shiftr_spec, Z.shiftl_spec_low in E by lia. done.
Qed.

(** A printed IPv4 address has no slash. *)
Lemma String4_no_slash a : x2f ∉ String4 a.
Proof.
  assert (forall i, x2f ∉ Itoa (octet a i)) as Hi.
  { intros i. apply no_byte_spec. apply (by_inspection 256 (fun n => no_byte x2f (Itoa n)) ltac:(vm_compute; reflexivity)), octet_range. }
  unfold String4. cbn -[Itoa octet]. pose proof (Hi 0%nat). pose proof (Hi 1%nat). pose proof (Hi 2%nat). pose proof (Hi 3%nat).
  change (z2b 46) with x2e.
  rewrite !not_elem_of_app, !not_elem_of_cons, !not_elem_of_app, !not_elem_of_cons, !not_elem_of_app, !not_elem_of_cons. done.
Qed.

Lemma To4_idem ip : To4 (To4 ip) = To4 ip.
Proof. destruct ip as [a|a]; [done|]. cbn [To4]. destruct (_ =? _) eqn:E; [done|]. cbn [To4]. by rewrite E. Qed.

Lemma To4_ok ip : ip_ok ip -> ip_ok (To4 ip).
Proof.
  destruct ip as [a|a]; [done|]. cbn [To4]. destruct (_ =? _); [|done]. intros _. cbn [ip_ok].
  change 0xFFFFFFFF with (Z.ones 32). rewrite Z.land_ones by lia. by apply Z.mod_pos_bound.
Qed.
