(* ===== verification/GoFloat.v ===== *)
(** * float64 arithmetic

    A float64 is the rational it stands for; every operation rounds its exact result
    to the nearest number with a 53-bit significand, ties to the even one.  The
    values the program computes stay far from the limits of the exponent, so neither
    overflow nor subnormal numbers occur. *)

From Stdlib Require Import QArith Qpower Qabs Lqa.
From S2P Require Import Prelude.

Open Scope Z_scope.

(** The nearest integer to [n / d], ties to even, for [0 <= n] and [0 < d]. *)
Definition round_even (n d : Z) : Z :=
  let q := n / d in
  let r := n mod d in
  if 2 * r <? d then q else if d <? 2 * r then q + 1 else if Z.even q then q else q + 1.

(** [n / d] scaled by [2 ^ k], as numerator and denominator. *)
Definition scale (n d k : Z) : Z * Z := if 0 <=? k then (n * 2 ^ k, d) else (n, d * 2 ^ (- k)).

(** The power of two that brings [n / d] between [2 ^ 52] and [2 ^ 53]. *)
Definition exponent (n d : Z) : Z :=
  let k := 53 - (Z.log2 n - Z.log2 d) in
  let '(a, b) := scale n d k in
  if a <? 2 ^ 53 * b then k else k - 1.

Definition unscale (m k : Z) : Q := if 0 <=? k then Qmake m (Z.to_pos (2 ^ k)) else Qmake (m * 2 ^ (- k)) 1.

Definition rnd_pos (n d : Z) : Q :=
  let k := exponent n d in let '(a, b) := scale n d k in unscale (round_even a b) k.

Definition rnd (q : Q) : Q :=
  let n := Qnum q in
  let d := Z.pos (Qden q) in
  if n =? 0 then 0%Q else if 0 <? n then rnd_pos n d else (- rnd_pos (- n) d)%Q.

Definition fadd (x y : Q) : Q := rnd (x + y).
Definition fsub (x y : Q) : Q := rnd (x - y).
Definition fmul (x y : Q) : Q := rnd (x * y).
Definition fdiv (x y : Q) : Q := rnd (x / y).
Definition float_of_int (n : Z) : Q := rnd (inject_Z n).

(** Conversion of a non-negative float64 to an integer: truncation. *)
Definition int_of_float (q : Q) : Z := Z.quot (Qnum q) (Z.pos (Qden q)).

(** [time.Duration.Seconds]. *)
Definition Seconds (d : Z) : Q :=
  let sec := Z.quot d Second in
  let nsec := Z.rem d Second in
  fadd (float_of_int sec) (fdiv (float_of_int nsec) (float_of_int 1000000000)).

Example point_one : Qeq_bool (Seconds 100000000) (3602879701896397 # 36028797018963968) = true.
Proof. vm_compute. reflexivity. Qed.

(** ** The error of one operation *)

Definition P (k : Z) : Q := Qpower 2 k.

Lemma P_pos k : (0 < P k)%Q.
Proof. apply Qpower_0_lt. reflexivity. Qed.

Lemma P_add a b : (P (a + b) == P a * P b)%Q.
Proof. apply Qpower_plus. discriminate. Qed.

Lemma P_Z k : 0 <= k -> (P k == inject_Z (2 ^ k))%Q.
Proof. intros Hk. unfold P. by rewrite Zpower_Qpower by done. Qed.

Lemma P_opp k : (P (- k) * P k == 1)%Q.
Proof. rewrite <- P_add. by replace (- k + k) with 0 by lia. Qed.

Lemma unscale_P m k : (unscale m k == inject_Z m * P (- k))%Q.
Proof.
  unfold unscale. destruct (Z.leb_spec 0 k) as [Hk|Hk].
  - assert (0 < 2 ^ k) as Hp by lia. pose proof (P_opp k) as E. rewrite (P_Z k Hk) in E.
    assert (m # Z.to_pos (2 ^ k) == inject_Z m / inject_Z (2 ^ k))%Q as ->.
    { unfold Qdiv, Qinv, inject_Z, Qmult. cbn. destruct (2 ^ k) eqn:Ek; try lia. cbn. unfold Qeq. cbn. lia. }
    assert (~ inject_Z (2 ^ k) == 0)%Q as Hn. { unfold inject_Z, Qeq. cbn. lia. }
    apply (Qmult_inj_r _ _ (inject_Z (2 ^ k))); [done|]. rewrite <- Qmult_assoc, E. field. done.
  - rewrite (P_Z (- k)) by lia. unfold inject_Z, Qmult. cbn. reflexivity.
Qed.

Lemma scale_P n d k a b : 0 < d -> scale n d k = (a, b) -> 0 < b /\ (inject_Z a == inject_Z n / inject_Z d * P k * inject_Z b)%Q.
Proof.
  intros Hd. assert (~ inject_Z d == 0)%Q as Hn by (unfold inject_Z, Qeq; cbn; lia).
  unfold scale. destruct (Z.leb_spec 0 k) as [Hk|Hk]; intros [= <- <-].
  - split; [done|]. rewrite (P_Z k Hk), inject_Z_mult. field. done.
  - assert (0 < 2 ^ (- k)) as Hp by (apply Z.pow_pos_nonneg; lia). split; [nia|].
    pose proof (P_opp (- k)) as E. rewrite Z.opp_involutive in E. rewrite (P_Z (- k)) in E by lia.
    rewrite inject_Z_mult. transitivity (inject_Z n * (P k * inject_Z (2 ^ (- k))))%Q; [rewrite E; ring|field; done].
Qed.

(** Rounding to the nearest integer is off by at most a half. *)
Lemma round_even_error a b : 0 < b -> Z.abs (2 * round_even a b * b - 2 * a) <= b.
Proof.
  intros Hb. unfold round_even. pose proof (Z.div_mod a b ltac:(lia)) as Hd. pose proof (Z.mod_pos_bound a b Hb) as Hm.
  destruct (Z.ltb_spec (2 * (a mod b)) b); [nia|]. destruct (Z.ltb_spec b (2 * (a mod b))); [nia|]. destruct (Z.even _); nia.
Qed.

Lemma P_mono a b : a <= b -> (P a <= P b)%Q.
Proof. intros Hab. apply Qpower_le_compat_l; [done|]. unfold Qle. cbn. lia. Qed.

Lemma log2_P n : 0 < n -> (P (Z.log2 n) <= inject_Z n)%Q /\ (inject_Z n < P (Z.log2 n + 1))%Q.
Proof.
  intros Hn. pose proof (Z.log2_nonneg n). destruct (Z.log2_spec n Hn) as [H1 H2]. rewrite !P_Z by lia.
  split; [by rewrite <- Zle_Qle|by rewrite <- Zlt_Qlt].
Qed.

(** After scaling the number is at least [2 ^ 52]. *)
Lemma exponent_low n d : 0 < n -> 0 < d -> (P 52 <= inject_Z n / inject_Z d * P (exponent n d))%Q.
Proof.
  intros Hn Hd. destruct (log2_P n Hn) as [N1 _], (log2_P d Hd) as [_ D2].
  assert (0 < inject_Z d)%Q as Hdq by (unfold Qlt; cbn; lia).
  unfold exponent. set (k := 53 - (Z.log2 n - Z.log2 d)). destruct (scale n d k) as [a b] eqn:Es.
  destruct (scale_P n d k a b Hd Es) as [Hb Ea]. assert (0 < inject_Z b)%Q as Hbq by (unfold Qlt; cbn; lia).
  destruct (Z.ltb_spec a (2 ^ 53 * b)) as [Hlt|Hge].
  - assert (inject_Z n / inject_Z d * P k == inject_Z n * P k / inject_Z d)%Q as -> by (field; apply Qnot_eq_sym, Qlt_not_eq, Hdq).
    apply Qle_shift_div_l; [done|].
    apply Qle_trans with (P 52 * P (Z.log2 d + 1))%Q; [apply Qmult_le_l; [apply P_pos|by apply Qlt_le_weak]|].
    rewrite <- P_add. replace (52 + (Z.log2 d + 1)) with (Z.log2 n + k) by (unfold k; lia). rewrite P_add.
    apply Qmult_le_r; [apply P_pos|done].
  - assert (P 53 <= inject_Z n / inject_Z d * P k)%Q as H53.
    { apply (Qmult_le_r _ _ (inject_Z b) Hbq). rewrite <- Ea, (P_Z 53) by lia. rewrite <- inject_Z_mult. by rewrite <- Zle_Qle. }
    replace (k - 1) with (k + -1) by lia. rewrite P_add, Qmult_assoc. replace 52 with (53 + -1) by lia. rewrite (P_add 53).
    apply Qmult_le_r; [apply P_pos|done].
Qed.

Definition ulp : Q := P (-53).

Lemma rnd_pos_error n d : 0 < n -> 0 < d ->
  let x := (inject_Z n / inject_Z d)%Q in (x - x * ulp <= rnd_pos n d)%Q /\ (rnd_pos n d <= x + x * ulp)%Q.
Proof.
  intros Hn Hd x. unfold rnd_pos. set (k := exponent n d). pose proof (exponent_low n d Hn Hd) as Hlow. fold k in Hlow. fold x in Hlow.
  destruct (scale n d k) as [a b] eqn:Es. destruct (scale_P n d k a b Hd Es) as [Hb Ea]. fold x in Ea.
  pose proof (round_even_error a b Hb) as He. set (m := round_even a b) in *. rewrite unscale_P.
  assert (0 < inject_Z b)%Q as Hbq by (unfold Qlt; cbn; lia).
  pose proof (P_pos (- k)) as Hk1. pose proof (P_opp k) as Hk2. pose proof (P_pos k) as Hk.
  (* the integer is within a half of [x * P k] *)
  assert (inject_Z m <= x * P k + (1 # 2))%Q as Hu.
  { apply (Qmult_le_r _ _ (inject_Z b) Hbq). assert (inject_Z (2 * m * b) <= inject_Z (2 * a + b))%Q as Hz by (rewrite <- Zle_Qle; lia).
    rewrite !inject_Z_mult, inject_Z_plus, inject_Z_mult, Ea in Hz. change (inject_Z 2) with 2%Q in Hz. lra. }
  assert (x * P k - (1 # 2) <= inject_Z m)%Q as Hl.
  { apply (Qmult_le_r _ _ (inject_Z b) Hbq). assert (inject_Z (2 * a - b) <= inject_Z (2 * m * b))%Q as Hz by (rewrite <- Zle_Qle; lia).
    unfold Z.sub in Hz. rewrite inject_Z_plus, inject_Z_opp, !inject_Z_mult, Ea in Hz. change (inject_Z 2) with 2%Q in Hz. lra. }
  (* a half is at most the last place of [x] *)
  assert (1 # 2 <= x * P k * ulp)%Q as Hh.
  { assert (1 # 2 == P 52 * ulp)%Q as -> by (unfold ulp; rewrite <- P_add; reflexivity). apply Qmult_le_r; [apply P_pos|done]. }
  assert (x * P k * P (- k) == x)%Q as Ex by (rewrite <- Qmult_assoc, (Qmult_comm (P k)), Hk2; ring).
  split.
  - apply Qle_trans with ((x * P k - x * P k * ulp) * P (- k))%Q; [|apply Qmult_le_r; [done|lra]].
    assert ((x * P k - x * P k * ulp) * P (- k) == x * P k * P (- k) - x * P k * P (- k) * ulp)%Q as -> by ring. rewrite Ex. lra.
  - apply Qle_trans with ((x * P k + x * P k * ulp) * P (- k))%Q; [apply Qmult_le_r; [done|lra]|].
    assert ((x * P k + x * P k * ulp) * P (- k) == x * P k * P (- k) + x * P k * P (- k) * ulp)%Q as -> by ring. rewrite Ex. lra.
Qed.

(** A rounded result is within a relative error of [2 ^ -53]. *)
Lemma rnd_error q : (0 <= q)%Q -> (q - q * ulp <= rnd q)%Q /\ (rnd q <= q + q * ulp)%Q.
Proof.
  intros Hq. unfold rnd. assert (q == inject_Z (Qnum q) / inject_Z (Z.pos (Qden q)))%Q as Eq.
  { destruct q as [n d]. cbn [Qnum Qden]. apply Qmake_Qdiv. }
  assert (0 <= Qnum q) as Hn by (unfold Qle in Hq; cbn in Hq; lia).
  destruct (Z.eqb_spec (Qnum q) 0) as [E|E].
  - assert (q == 0)%Q as -> by (unfold Qeq; cbn; lia). unfold ulp, P. cbn. lra.
  - rewrite (proj2 (Z.ltb_lt _ _)) by lia. destruct (rnd_pos_error (Qnum q) (Z.pos (Qden q)) ltac:(lia) ltac:(lia)) as [H1 H2]. rewrite <- Eq in H1, H2. done.
Qed.
