(* ===== verification/IrcMsg.v ===== *)
(** * IRC messages and outbound framing

    The message type of gopkg.in/irc.v4 (its exported fields), the methods
    of that library the program calls, as the class [IrcV4], and the checks
    of internal/irc/manager.go that every outbound message passes:
    framing bytes, parameter boundaries and line length. *)

From S2P Require Import Prelude GoStrings.

(** ** Data *)

Record Prefix := MkPrefix { pName : gostring; pUser : gostring; pHost : gostring }.

Record Message := MkMessage {
  Tags : gmap gostring gostring;
  mPrefix : option Prefix;
  Command : gostring;
  Params : list gostring
}.

#[global] Instance Prefix_eq_dec : EqDecision Prefix.
Proof. solve_decision. Defined.
#[global] Instance Message_eq_dec : EqDecision Message.
Proof. solve_decision. Defined.

(** The methods of [*ircv4.Message] the program uses. *)
Class IrcV4 := {
  Param : Message -> nat -> gostring;
  Trailing : Message -> gostring;
  MsgString : Message -> gostring
}.

(** What the library documents: [Param] is the i-th parameter and
    [Trailing] the last one, and both are empty when there is none. *)
Class IrcV4Laws `{IrcV4} : Prop := {
  Param_spec m i : Param m i = default [] (Params m !! i);
  Trailing_spec m : Trailing m = default [] (last (Params m))
}.

(** handshake.go, [newMsg]. *)
Definition newMsg (cmd : gostring) (params : list gostring) : Message :=
  {| Tags := ∅; mPrefix := None; Command := cmd; Params := params |}.

(** A concrete irc.v4, for evaluation: parameters are joined by spaces and
    the last one is written as a trailing parameter when it has to be. *)
Definition ref_ircv4 : IrcV4 := {|
  Param m i := default [] (Params m !! i);
  Trailing m := default [] (last (Params m));
  MsgString m :=
    let render (i : nat) (p : gostring) : gostring :=
      if (S i =? length (Params m))%nat
         && ((p == []) || ContainsByte p x20 || HasPrefix p §":")
      then §" :" ++ p else §" " ++ p in
    Command m ++ mjoin (imap render (Params m))
|}.

Lemma ref_ircv4_laws : @IrcV4Laws ref_ircv4.
Proof. split; done. Qed.

(** ** Framing checks (manager.go) *)

Inductive ircErr :=
  | ErrUnsafeFraming
  | ErrLineTooLong (n limit : Z).

#[global] Instance ircErr_eq_dec : EqDecision ircErr.
Proof. solve_decision. Defined.

Definition framing_chars : gostring := [x0d; x0a; x00].

Definition hasFramingBytes (s : gostring) : bool := ContainsAny s framing_chars.

(** The replacer that deletes CR, LF and NUL. *)
Definition framingStripper (s : gostring) : gostring :=
  byteReplacer (fun c => if ContainsByte framing_chars c then [] else [c]) s.

(** [last_i] is whether this is the last index of the slice. *)
Fixpoint checkParamFraming (params : list gostring) : option ircErr :=
  match params with
  | [] => None
  | p :: rest =>
      if hasFramingBytes p then Some ErrUnsafeFraming
      else if negb (rest == []) &&
              ((p == []) || HasPrefix p §":" || negb (IndexByte p x20 =? -1))
      then Some ErrUnsafeFraming
      else checkParamFraming rest
  end.

Definition checkFraming (msg : Message) : option ircErr :=
  if hasFramingBytes (Command msg) || negb (IndexByte (Command msg) x20 =? -1)
  then Some ErrUnsafeFraming
  else match checkParamFraming (Params msg) with
       | Some e => Some e
       | None =>
           if (match mPrefix msg with
               | Some p => hasFramingBytes (pName p) || hasFramingBytes (pUser p)
                           || hasFramingBytes (pHost p)
               | None => false
               end)
           then Some ErrUnsafeFraming
           else if existsb (fun '(k, v) => hasFramingBytes k || hasFramingBytes v)
                     (map_to_list (Tags msg))
           then Some ErrUnsafeFraming
           else None
       end.

Definition defaultLineLen : Z := 512.

Section wire.
Context `{IrcV4}.

(** Tags have a budget of their own: the length is that of the message
    without them. *)
Definition checkLineLen (msg : Message) (limit : Z) : option ircErr :=
  let bare := {| Tags := ∅; mPrefix := mPrefix msg; Command := Command msg;
                 Params := Params msg |} in
  let n := len (MsgString bare) + 2 in
  if n >? limit then Some (ErrLineTooLong n limit) else None.

Definition relayedCommand (cmd : gostring) : bool :=
  (cmd == §"PRIVMSG") || (cmd == §"NOTICE") || (cmd == §"TAGMSG").

Definition checkRelayedLen (msg : Message) (limit prefix : Z) : option ircErr :=
  let bare := {| Tags := ∅; mPrefix := mPrefix msg; Command := Command msg;
                 Params := Params msg |} in
  let n := len (MsgString bare) + 2 in
  if n + prefix >? limit then Some (ErrLineTooLong n (limit - prefix)) else None.
End wire.

(** Go's integer division truncates towards zero. *)
Definition boundedPong (msg : Message) (limit : Z) : Message :=
  let token := default [] (last (Params msg)) in
  let token := framingStripper token in
  let budget := Z.quot (limit - len (§"PONG :" ++ [x0d; x0a])) 3 in
  let budget := if budget <? 0 then 0 else budget in
  let token := if len token >? budget then slice_to token budget else token in
  newMsg §"PONG" [token].

Definition maxJoinKeyBytes : Z := 64.

Definition validJoinKey (key : gostring) : bool :=
  (key != []) && (len key <=? maxJoinKeyBytes)
  && negb (ContainsAny key [x20; x2c; x0d; x0a; x00]).

(** ** Lemmas *)

Lemma hasFramingBytes_spec s :
  hasFramingBytes s = false <-> (forall c, c ∈ framing_chars -> c ∉ s).
Proof.
  unfold hasFramingBytes, ContainsAny. rewrite <- not_true_iff_false, existsb_exists. split.
  - intros Hn c Hc Hs. apply Hn. exists c. split; [by apply list_elem_of_In|].
    by apply ContainsByte_spec.
  - intros Hn (c & Hs%list_elem_of_In & Hc%ContainsByte_spec). by apply (Hn c).
Qed.

Lemma hasFramingBytes_sub s t :
  (forall c, c ∈ t -> c ∈ s) -> hasFramingBytes s = false -> hasFramingBytes t = false.
Proof. rewrite !hasFramingBytes_spec. intros Hsub Hs c Hc Ht. by apply (Hs c), Hsub. Qed.

Lemma framingStripper_clean s : hasFramingBytes (framingStripper s) = false.
Proof.
  apply hasFramingBytes_spec. intros c Hc Hs. unfold framingStripper, byteReplacer in Hs.
  apply list_elem_of_bind in Hs as (d & Hd & _).
  destruct (ContainsByte framing_chars d) eqn:E; [by apply not_elem_of_nil in Hd|].
  apply list_elem_of_singleton in Hd as ->. apply ContainsByte_spec in Hc. congruence.
Qed.

(** A single clean parameter passes the framing check. *)
Lemma checkFraming_single cmd p :
  hasFramingBytes cmd = false -> IndexByte cmd x20 = -1 -> hasFramingBytes p = false ->
  checkFraming (newMsg cmd [p]) = None.
Proof. intros Hc Hsp Hp. unfold checkFraming. simpl. by rewrite Hc, Hsp, Hp. Qed.

Lemma boundedPong_framed m limit : checkFraming (boundedPong m limit) = None.
Proof.
  unfold boundedPong. set (t := framingStripper _).
  assert (hasFramingBytes t = false) as Ht by apply framingStripper_clean.
  apply checkFraming_single; [done..|].
  destruct (_ >? _); [|done]. eapply hasFramingBytes_sub; [|exact Ht].
  intros c (i & Hi & _)%elem_of_take. by eapply list_elem_of_lookup_2.
Qed.

(** Answering a server PING never produces a line the writer would
    refuse: whatever the token and the limit, the PONG passes the framing
    check, and its token, even if each of its bytes is later replaced by
    the three-byte U+FFFD, fits the limit with the framing. *)
Theorem boundedPong_sendable m limit :
  checkFraming (boundedPong m limit) = None /\
  exists token, Params (boundedPong m limit) = [token] /\
    (8 <= limit -> 3 * len token + 8 <= limit).
Proof.
  split; [apply boundedPong_framed|]. unfold boundedPong. set (t := framingStripper _).
  replace (len (§"PONG :" ++ [x0d; x0a])) with 8 by done.
  pose proof (Z.quot_rem' (limit - 8) 3). pose proof (Z.rem_bound_abs (limit - 8) 3 ltac:(lia)).
  eexists. split; [reflexivity|]. intros Hl.
  pose proof (Z.rem_nonneg (limit - 8) 3 ltac:(lia) ltac:(lia)).
  pose proof (Z.quot_pos (limit - 8) 3 ltac:(lia) ltac:(lia)).
  generalize dependent (Z.quot (limit - 8) 3). generalize dependent (Z.rem (limit - 8) 3).
  intros rm ?? q ??. destruct (Z.ltb_spec q 0); [lia|].
  destruct (Z.gtb_spec (len t) q); [|lia].
  pose proof (len_slice_to_le t q ltac:(lia)). lia.
Qed.
