(* ===== verification/ISupport.v ===== *)
(** * RPL_ISUPPORT (005) tracking: internal/irc/isupport.go

    The parameters a server announces, parsed into the views that drive the
    rest of the connection: channel prefixes, status prefixes, channel-mode
    classes and the case mapping.  The Go type guards its fields with a
    mutex; every method runs under it, so each is one atomic function of
    the state here. *)

From stdpp Require Import functions.
From S2P Require Import Prelude GoStrings GoUtf8 IrcMsg.

Definition defaultChanTypes := §"#&".
Definition defaultPrefixModes := §"ov".
Definition defaultPrefixSymbols := §"@+".
Definition defaultCaseMapping := §"rfc1459".
Definition defaultChanModes : list gostring := [§"b"; §"k"; §"l"; §"imnpst"].

Record isupport := MkISupport {
  raw : gmap gostring gostring;
  chanTypes : gostring;
  prefixModes : gostring;
  prefixSymbols : gostring;
  chanModes : list gostring;   (* Go: [4]string *)
  caseMapping : gostring;
  caseLocked : bool
}.

Definition set_raw (f : gmap gostring gostring -> gmap gostring gostring) (s : isupport) : isupport :=
  MkISupport (f (raw s)) (chanTypes s) (prefixModes s) (prefixSymbols s) (chanModes s)
    (caseMapping s) (caseLocked s).
Definition set_chanTypes (v : gostring) (s : isupport) : isupport :=
  MkISupport (raw s) v (prefixModes s) (prefixSymbols s) (chanModes s) (caseMapping s) (caseLocked s).
Definition set_prefix (m y : gostring) (s : isupport) : isupport :=
  MkISupport (raw s) (chanTypes s) m y (chanModes s) (caseMapping s) (caseLocked s).
Definition set_chanModes (v : list gostring) (s : isupport) : isupport :=
  MkISupport (raw s) (chanTypes s) (prefixModes s) (prefixSymbols s) v (caseMapping s) (caseLocked s).
Definition set_case (v : gostring) (l : bool) (s : isupport) : isupport :=
  MkISupport (raw s) (chanTypes s) (prefixModes s) (prefixSymbols s) (chanModes s) v l.

(** ** Operations *)

Definition applyDefault (name : gostring) (s : isupport) : isupport :=
  if name == §"CHANTYPES" then set_chanTypes defaultChanTypes s
  else if name == §"PREFIX" then set_prefix defaultPrefixModes defaultPrefixSymbols s
  else if name == §"CHANMODES" then set_chanModes defaultChanModes s
  else if name == §"CASEMAPPING" then
    if caseLocked s then s else set_case defaultCaseMapping (caseLocked s) s
  else s.

Definition reset (s : isupport) : isupport :=
  let s := set_case (caseMapping s) false (set_raw (fun _ => ∅) s) in
  let s := applyDefault §"CHANTYPES" s in
  let s := applyDefault §"PREFIX" s in
  let s := applyDefault §"CHANMODES" s in
  applyDefault §"CASEMAPPING" s.

(** The zero value of the Go struct, and [newISupport]. *)
Definition isupport_zero : isupport := MkISupport ∅ [] [] [] [[]; []; []; []] [] false.
Definition newISupport : isupport := reset isupport_zero.

(** "(modes)symbols"; empty is valid. *)
Definition parsePrefix (value : gostring) : option (gostring * gostring) :=
  if value == [] then Some ([], [])
  else
    let close := IndexByte value x29 in
    if negb (HasPrefix value §"(") || (close =? -1) then None
    else
      let modes := slice_from (slice_to value close) 1 in
      let symbols := slice_from value (close + 1) in
      if len modes =? len symbols then Some (modes, symbols) else None.

Definition hexVal (c : byte) : option Z :=
  let c := b2z c in
  if in_range 48 c 57 then Some (c - 48)
  else if in_range 97 c 102 then Some (c - 97 + 10)
  else if in_range 65 c 70 then Some (c - 65 + 10)
  else None.

(** The loop of [unescapeValue]; [skip] bytes of an escape remain to be
    passed over.  The guard [i+3 < len(v)] is the shape of the rest. *)
Fixpoint unescape_aux (skip : nat) (v : gostring) : gostring :=
  match v with
  | [] => []
  | c :: v' =>
      match skip with
      | S k => unescape_aux k v'
      | O =>
          match v with
          | _ :: x :: h :: l :: _ =>
              if (c == x5c) && (x == x78) then
                match hexVal h, hexVal l with
                | Some hi, Some lo => z2b (Z.lor (Z.shiftl hi 4) lo) :: unescape_aux 3 v'
                | _, _ => c :: unescape_aux 0 v'
                end
              else c :: unescape_aux 0 v'
          | _ => c :: unescape_aux 0 v'
          end
      end
  end.

Definition unescapeValue (v : gostring) : gostring :=
  if Contains v [x5c; x78] then unescape_aux 0 v else v.

Definition maxISupportKeys : Z := 256.
Definition maxISupportValue : Z := 512.
Definition maxISupportKey : Z := 64.

(** The first four pieces of a CHANMODES value, padded with empty strings. *)
Definition chanmodes_of (value : gostring) : list gostring :=
  let parts := SplitN value x2c 5 in
  (fun i => default [] (parts !! i)) <$> [0%nat; 1%nat; 2%nat; 3%nat].

Definition applyToken (name value : gostring) (s : isupport) : isupport :=
  if (len name >? maxISupportKey) || (len value >? maxISupportValue) then s
  else if bool_decide (raw s !! name = None) && (maxISupportKeys <=? Z.of_nat (size (raw s))) then s
  else
    let s := set_raw <[name := value]> s in
    if name == §"CHANTYPES" then set_chanTypes value s
    else if name == §"PREFIX" then
      match parsePrefix value with
      | Some (modes, symbols) => set_prefix modes symbols s
      | None => s
      end
    else if name == §"CHANMODES" then set_chanModes (chanmodes_of value) s
    else if name == §"CASEMAPPING" then
      if caseLocked s then s
      else if (value == §"rfc1459") || (value == §"rfc1459-strict") || (value == §"ascii")
      then set_case value true s
      else s
    else s.

(** One token of a 005 line: [-NAME], [NAME] or [NAME=value]. *)
Definition handle_token (s : isupport) (tok : gostring) : isupport :=
  match CutPrefix tok §"-" with
  | Some name => applyDefault name (set_raw (delete name) s)
  | None =>
      let '(name, value, _) := Cut tok x3d in
      applyToken name (unescapeValue value) s
  end.

Definition handle (m : Message) (s : isupport) : isupport :=
  if (Command m != §"005") || (len (Params m) <? 3) then s
  else
    let toks := slice_from (slice_to (Params m) (len (Params m) - 1)) 1 in
    foldl handle_token s toks.

(** ** Queries *)

Definition Raw (s : isupport) (name : gostring) : option gostring := raw s !! name.

Definition IsChannel (s : isupport) (target : gostring) : bool :=
  match target with
  | [] => false
  | c :: _ => negb (IndexByte (chanTypes s) c =? -1)
  end.

Definition SymbolForMode (s : isupport) (mode : byte) : gostring :=
  let i := IndexByte (prefixModes s) mode in
  if i =? -1 then []
  else match prefixSymbols s !! Z.to_nat i with
       | Some c => string_of_byte c
       | None => []
       end.

Fixpoint chanModeClass (i : Z) (sets : list gostring) (mode : byte) : byte :=
  match sets with
  | [] => x00
  | set :: rest =>
      if negb (IndexByte set mode =? -1) then z2b (65 + i)
      else chanModeClass (i + 1) rest mode
  end.

Definition ChanModeType (s : isupport) (mode : byte) : byte :=
  if negb (IndexByte (prefixModes s) mode =? -1) then x50
  else chanModeClass 0 (chanModes s) mode.

(** [modeClassifier]: byte-indexed tables; [256]byte arrays are functions
    updated at one index. *)
Record modeClassifier := MkClassifier { class : byte -> byte; sym : byte -> byte }.

Fixpoint classify_prefix (modes symbols : gostring) (mc : modeClassifier) : modeClassifier :=
  match modes with
  | [] => mc
  | m :: modes' =>
      let cl := <[m := x50]> (class mc) in
      match symbols with
      | y :: symbols' => classify_prefix modes' symbols' (MkClassifier cl (<[m := y]> (sym mc)))
      | [] => classify_prefix modes' [] (MkClassifier cl (sym mc))
      end
  end.

Definition classify_letter (i : Z) (cl : byte -> byte) (c : byte) : byte -> byte :=
  if cl c == x00 then <[c := z2b (65 + i)]> cl else cl.

Fixpoint classify_sets (i : Z) (sets : list gostring) (cl : byte -> byte) : byte -> byte :=
  match sets with
  | [] => cl
  | set :: rest => classify_sets (i + 1) rest (foldl (classify_letter i) cl set)
  end.

Definition modeClassifier_of (s : isupport) : modeClassifier :=
  let zero := fun _ : byte => x00 in
  let mc := classify_prefix (prefixModes s) (prefixSymbols s) (MkClassifier zero zero) in
  MkClassifier (classify_sets 0 (chanModes s) (class mc)) (sym mc).

(** One byte of [Fold]: uppercase letters, and the rfc1459 pairs. *)
Definition fold_byte (cm : gostring) (c : byte) : byte :=
  if in_range 65 (b2z c) 90 then z2b (b2z c + 32)
  else if cm == §"ascii" then c
  else if c == x5b then x7b
  else if c == x5d then x7d
  else if c == x5c then x7c
  else if (c == x7e) && (cm == §"rfc1459") then x5e
  else c.

Definition Fold (s : isupport) (str : gostring) : gostring := fold_byte (caseMapping s) <$> str.

Definition FoldEqual (s : isupport) (a b : gostring) : bool := Fold s a == Fold s b.

(** ** Well-formedness *)

Definition known_mapping (cm : gostring) : Prop :=
  cm = §"rfc1459" \/ cm = §"rfc1459-strict" \/ cm = §"ascii".

(** What holds of every reachable state: the raw table is bounded in
    entries and in the size of each, every status mode has its symbol, and
    the case mapping is one [Fold] knows, the default one until a mapping
    has been locked. *)
Record isupport_wf (s : isupport) : Prop := {
  wf_size : Z.of_nat (size (raw s)) <= maxISupportKeys;
  wf_raw : map_Forall (fun k v => len k <= maxISupportKey /\ len v <= maxISupportValue) (raw s);
  wf_prefix : len (prefixModes s) = len (prefixSymbols s);
  wf_prefix_len : len (prefixModes s) <= maxISupportValue;
  wf_chanTypes : len (chanTypes s) <= maxISupportValue;
  wf_chanModes : length (chanModes s) = 4%nat;
  wf_case : known_mapping (caseMapping s);
  wf_unlocked : caseLocked s = false -> caseMapping s = defaultCaseMapping
}.

(** A run of the connection: 005 lines handled one after the other. *)
Definition isupport_run (ms : list Message) (s : isupport) : isupport :=
  foldl (fun s m => handle m s) s ms.

(** Splits the invariant and closes the fields that did not change or
    evaluate. *)
Ltac isupport_split := split; simpl; try done; try (by vm_compute).

Lemma applyDefault_wf name s : isupport_wf s -> isupport_wf (applyDefault name s).
Proof.
  intros Hw. unfold applyDefault. repeat case_bool_decide; try done.
  all: try destruct (caseLocked s) eqn:E; try done; destruct Hw; isupport_split.
  by left.
Qed.

Lemma parsePrefix_len value modes symbols :
  parsePrefix value = Some (modes, symbols) ->
  len modes = len symbols /\ len modes <= len value.
Proof.
  unfold parsePrefix. intros Hp. case_bool_decide; [simplify_eq; subst; done|].
  case_match; [done|]. case_match; [|done]. simplify_eq.
  split; [lia|]. unfold len, slice_from, slice_to. rewrite !length_drop, !length_take. lia.
Qed.

Lemma applyToken_wf name value s : isupport_wf s -> isupport_wf (applyToken name value s).
Proof.
  intros []. unfold applyToken.
  destruct (_ || _) eqn:Hl; [by constructor|]. apply orb_false_iff in Hl as [Hn Hv].
  destruct (_ && _) eqn:Hf; [by constructor|].
  assert (isupport_wf (set_raw <[name:=value]> s)) as Hw.
  { split; simpl; try done.
    - destruct (raw s !! name) eqn:E.
      + rewrite map_size_insert_Some by eauto. done.
      + rewrite map_size_insert_None by done. rewrite bool_decide_eq_true_2 in Hf by done.
        simpl in Hf. lia.
    - apply map_Forall_insert_2; [lia|done]. }
  destruct Hw; simpl in *. clear Hf.
  case_bool_decide; [split; simpl; try done; lia|].
  case_bool_decide.
  { destruct (parsePrefix value) as [[modes symbols]|] eqn:E; [|by split].
    apply parsePrefix_len in E as [??]. split; simpl; try done; lia. }
  case_bool_decide; [by split|].
  case_bool_decide; [|by split].
  cbn [caseLocked set_raw]. destruct (caseLocked s) eqn:El; [isupport_split; by rewrite El|].
  destruct (_ || _) eqn:Hc; [|isupport_split; auto].
  split; simpl; try done. unfold known_mapping.
  apply orb_true_iff in Hc as [[Hc|Hc]%orb_true_iff|Hc]; apply bool_decide_eq_true in Hc; tauto.
Qed.

Lemma handle_token_wf s tok : isupport_wf s -> isupport_wf (handle_token s tok).
Proof.
  intros Hw. unfold handle_token. destruct (CutPrefix tok §"-") as [name|].
  - apply applyDefault_wf. destruct Hw. split; simpl; try done.
    + destruct (raw s !! name) eqn:E.
      * rewrite map_size_delete_Some by eauto. lia.
      * by rewrite map_size_delete_None by done.
    + by apply map_Forall_delete.
  - destruct (Cut tok x3d) as [[name value] ?]. by apply applyToken_wf.
Qed.

Lemma foldl_preserve {A B} (P : A -> Prop) (f : A -> B -> A) (l : list B) a :
  (forall a b, P a -> P (f a b)) -> P a -> P (foldl f a l).
Proof. intros Hf. revert a. induction l; simpl; eauto. Qed.

Lemma handle_wf m s : isupport_wf s -> isupport_wf (handle m s).
Proof.
  intros Hw. unfold handle. case_match; [done|].
  apply foldl_preserve; [apply handle_token_wf|done].
Qed.

Lemma newISupport_wf : isupport_wf newISupport.
Proof.
  split; try (by vm_compute). by left.
Qed.
#[export] Hint Resolve handle_wf newISupport_wf : go.

Lemma isupport_run_wf_aux ms : isupport_wf (isupport_run ms newISupport).
Proof. apply (foldl_preserve isupport_wf); auto with go. Qed.

(** *** The case mapping is pinned *)

Lemma applyDefault_locked name s :
  caseLocked s = true ->
  caseLocked (applyDefault name s) = true /\ caseMapping (applyDefault name s) = caseMapping s.
Proof. intros H. unfold applyDefault. repeat case_bool_decide; try done. by rewrite H. Qed.

Lemma applyToken_locked name value s :
  caseLocked s = true ->
  caseLocked (applyToken name value s) = true /\ caseMapping (applyToken name value s) = caseMapping s.
Proof.
  intros H. unfold applyToken. do 2 (case_match; [done|]).
  repeat case_bool_decide; simpl; rewrite ?H; try done.
  all: by destruct (parsePrefix value) as [[]|].
Qed.

Lemma handle_token_locked s tok cm :
  caseLocked s = true /\ caseMapping s = cm ->
  caseLocked (handle_token s tok) = true /\ caseMapping (handle_token s tok) = cm.
Proof.
  intros [Hl <-]. unfold handle_token. destruct (CutPrefix tok §"-") as [name|].
  - by apply (applyDefault_locked name (set_raw (delete name) s)).
  - destruct (Cut tok x3d) as [[name value] ?]. by apply applyToken_locked.
Qed.

Lemma handle_locked m s cm :
  caseLocked s = true /\ caseMapping s = cm ->
  caseLocked (handle m s) = true /\ caseMapping (handle m s) = cm.
Proof.
  intros H. unfold handle. case_match; [done|].
  apply (foldl_preserve (fun s => caseLocked s = true /\ caseMapping s = cm)); [|done].
  intros. by apply handle_token_locked.
Qed.

(** *** Folding *)

Lemma fold_byte_idem cm c : fold_byte cm (fold_byte cm c) = fold_byte cm c.
Proof.
  unfold fold_byte. generalize (cm == §"ascii"), (cm == §"rfc1459").
  intros b1 b2. destruct c, b1, b2; vm_compute; reflexivity.
Qed.

Lemma Fold_idem s x : Fold s (Fold s x) = Fold s x.
Proof.
  unfold Fold. rewrite <- list_fmap_compose. apply list_fmap_ext.
  intros i c _. apply fold_byte_idem.
Qed.

Lemma Fold_length s x : length (Fold s x) = length x.
Proof. apply length_fmap. Qed.
Lemma Fold_len s x : len (Fold s x) = len x.
Proof. unfold len. by rewrite Fold_length. Qed.

Lemma Fold_ext s s' x : caseMapping s = caseMapping s' -> Fold s x = Fold s' x.
Proof. unfold Fold. by intros ->. Qed.

Lemma FoldEqual_spec s a b : FoldEqual s a b = true <-> Fold s a = Fold s b.
Proof. apply bool_decide_eq_true. Qed.

(** *** The byte tables agree with the scans *)

Lemma classify_prefix_class modes symbols mc c :
  class (classify_prefix modes symbols mc) c = if bool_decide (c ∈ modes) then x50 else class mc c.
Proof.
  revert symbols mc. induction modes as [|m modes IH]; intros symbols mc; [done|].
  simpl. destruct symbols as [|y symbols]; rewrite IH; simpl;
    (destruct (decide (c = m)) as [->|Hne];
     [rewrite fn_lookup_insert; repeat case_bool_decide; set_solver
     |rewrite fn_lookup_insert_ne by done; repeat case_bool_decide; set_solver]).
Qed.

Lemma classify_prefix_sym_out modes symbols mc c :
  c ∉ modes -> sym (classify_prefix modes symbols mc) c = sym mc c.
Proof.
  revert symbols mc. induction modes as [|m modes IH]; intros symbols mc Hc; [done|].
  simpl. destruct symbols as [|y symbols]; rewrite IH by set_solver; simpl; [done|].
  apply fn_lookup_insert_ne. set_solver.
Qed.

Lemma classify_letter_foldl i set cl c :
  z2b (65 + i) <> x00 ->
  foldl (classify_letter i) cl set c =
  if (cl c == x00) && bool_decide (c ∈ set) then z2b (65 + i) else cl c.
Proof.
  intros Hi. revert cl. induction set as [|d set IH]; intros cl; simpl.
  { by rewrite andb_false_r. }
  rewrite IH. unfold classify_letter.
  destruct (decide (c = d)) as [->|Hne].
  - rewrite (bool_decide_eq_true_2 (d ∈ d :: set)) by set_solver.
    destruct (cl d == x00) eqn:E; rewrite ?fn_lookup_insert, ?E; [|done].
    by rewrite bool_decide_eq_false_2 by done.
  - rewrite (bool_decide_ext (c ∈ d :: set) (c ∈ set)) by set_solver.
    destruct (cl d == x00); rewrite ?fn_lookup_insert_ne by done; done.
Qed.

Lemma classify_sets_spec i sets cl c :
  0 <= i -> i + Z.of_nat (length sets) <= 26 ->
  classify_sets i sets cl c = if cl c == x00 then chanModeClass i sets c else cl c.
Proof.
  revert i cl. induction sets as [|set sets IH]; intros i cl H0 Hi; simpl in *.
  { case_bool_decide; done. }
  assert (z2b (65 + i) <> x00) as Hz.
  { intros Hz. apply (f_equal b2z) in Hz. rewrite b2z_z2b in Hz by lia.
    change (b2z x00) with 0 in Hz. lia. }
  rewrite IH by lia. rewrite classify_letter_foldl by done.
  fold (ContainsByte set c). pose proof (ContainsByte_spec set c) as Hcs.
  destruct (ContainsByte set c).
  - rewrite (bool_decide_eq_true_2 (c ∈ set)) by tauto. rewrite andb_true_r.
    destruct (cl c == x00) eqn:E; [|by rewrite E]. by rewrite bool_decide_eq_false_2.
  - rewrite (bool_decide_eq_false_2 (c ∈ set)) by (rewrite <- Hcs; done).
    by rewrite andb_false_r.
Qed.

(** Without duplicate letters, the table holds the symbol at the letter's
    index. *)
Lemma classify_prefix_sym modes symbols mc i m y :
  NoDup modes -> modes !! i = Some m -> symbols !! i = Some y ->
  sym (classify_prefix modes symbols mc) m = y.
Proof.
  revert symbols mc i. induction modes as [|m' modes IH]; intros symbols mc i Hnd Hm Hy; [done|].
  apply NoDup_cons in Hnd as [Hout Hnd]. destruct symbols as [|y' symbols]; [done|].
  destruct i as [|i]; simplify_eq/=; [|by eapply IH].
  rewrite classify_prefix_sym_out by done. apply fn_lookup_insert.
Qed.

(** *** Escapes *)

Definition hex_digit (n : Z) : byte := if n <? 10 then z2b (48 + n) else z2b (87 + n).

(** A server's encoder that escapes the bytes [P] selects. *)
Definition escapeValue (P : byte -> bool) (v : gostring) : gostring :=
  v ≫= fun c => if P c then [x5c; x78; hex_digit (b2z c / 16); hex_digit (b2z c mod 16)] else [c].

Lemma hex_roundtrip c :
  hexVal (hex_digit (b2z c / 16)) = Some (b2z c / 16) /\
  hexVal (hex_digit (b2z c mod 16)) = Some (b2z c mod 16) /\
  z2b (Z.lor (Z.shiftl (b2z c / 16) 4) (b2z c mod 16)) = c.
Proof. destruct c; vm_compute; auto. Qed.

Lemma unescape_aux_plain c v : c <> x5c -> unescape_aux 0 (c :: v) = c :: unescape_aux 0 v.
Proof.
  intros Hc. cbn [unescape_aux]. rewrite (bool_decide_eq_false_2 _ Hc). by destruct v as [|x [|h [|l v]]].
Qed.

Lemma unescape_aux_no_x d v : d <> x78 -> unescape_aux 0 (x5c :: d :: v) = x5c :: unescape_aux 0 (d :: v).
Proof.
  intros Hd. cbn [unescape_aux]. rewrite (bool_decide_eq_false_2 _ Hd), andb_false_r.
  by destruct v as [|h [|l v]].
Qed.

Lemma unescape_aux_escape P v :
  P x5c = true -> unescape_aux 0 (escapeValue P v) = v.
Proof.
  intros HP. induction v as [|c v IH]; [done|]. cbn [escapeValue mbind list_bind].
  fold (escapeValue P v). change (list_bind _ _ _ v) with (escapeValue P v).
  destruct (P c) eqn:E.
  - destruct (hex_roundtrip c) as (H1 & H2 & H3).
    cbn [app unescape_aux]. rewrite H1, H2, H3. by f_equal.
  - cbn [app]. rewrite unescape_aux_plain; [by f_equal|]. intros ->. congruence.
Qed.

(** Without an escape the loop is the identity, so the fast path of
    [unescapeValue] agrees with it. *)
Lemma unescape_aux_id v : Contains v [x5c; x78] = false -> unescape_aux 0 v = v.
Proof.
  unfold Contains. induction v as [|c v IH]; [done|]. intros Hc.
  assert (Contains v [x5c; x78] = false /\ ~ (c = x5c /\ hd_error v = Some x78)) as [Hv Hn].
  { unfold Contains in *. cbn [Index] in Hc.
    destruct (HasPrefix (c :: v) [x5c; x78]) eqn:E; [done|]. split.
    - destruct (Z.eqb_spec (Index v [x5c; x78]) (-1)); [done|].
      exfalso. assert (-1 <= Index v [x5c; x78]).
      { clear. generalize [x5c; x78]. intros p. induction v; simpl; repeat case_match; lia. }
      destruct (Z.eqb_spec (1 + Index v [x5c; x78]) (-1)); [lia|done].
    - intros [-> Hh]. destruct v as [|d v]; simplify_eq/=. }
  destruct (decide (c = x5c)) as [->|Hne]; [|rewrite unescape_aux_plain by done; f_equal; by apply IH].
  destruct v as [|d v]; [done|]. assert (d <> x78) as Hd by (intros ->; by apply Hn).
  rewrite unescape_aux_no_x by done. f_equal. by apply IH.
Qed.

Lemma unescapeValue_loop v : unescapeValue v = unescape_aux 0 v.
Proof.
  unfold unescapeValue. destruct (Contains v _) eqn:E; [done|]. by rewrite unescape_aux_id.
Qed.

(** ** Properties *)

(** However many 005 lines a server sends, and whatever is in them, the
    tracked state stays well formed: at most 256 raw parameters with names
    of at most 64 and values of at most 512 bytes, as many prefix symbols
    as status modes, four CHANMODES classes, and a case mapping that [Fold]
    implements. *)
Theorem isupport_run_wf ms : isupport_wf (isupport_run ms newISupport).
Proof. apply isupport_run_wf_aux. Qed.

(** The case mapping changes at most once per connection.  Until an
    explicit mapping has been accepted names fold by rfc1459, and once one
    is locked no later 005 line (a second CASEMAPPING or a negation) changes
    the folding of any name, so folded map keys are never stranded. *)
Theorem casemapping_pinned ms1 ms2 name :
  let s1 := isupport_run ms1 newISupport in
  let s2 := isupport_run ms2 s1 in
  (caseLocked s1 = false -> Fold s1 name = (fold_byte §"rfc1459") <$> name) /\
  (caseLocked s1 = true -> caseLocked s2 = true /\ Fold s2 name = Fold s1 name).
Proof.
  intros s1 s2. split.
  - intros Hl. unfold Fold, s1. by rewrite (wf_unlocked _ (isupport_run_wf_aux ms1) Hl).
  - intros Hl. assert (caseLocked s2 = true /\ caseMapping s2 = caseMapping s1) as [H1 H2].
    { apply (foldl_preserve (fun s => caseLocked s = true /\ caseMapping s = caseMapping s1));
        [|done]. intros. by apply handle_locked. }
    split; [done|]. by apply Fold_ext.
Qed.

(** The O(1) byte tables built once per MODE line classify every mode
    letter exactly as the linear scans [ChanModeType] and [SymbolForMode]
    do, given the parsed PREFIX lists no letter twice. *)
Theorem modeClassifier_agrees s c :
  isupport_wf s ->
  class (modeClassifier_of s) c = ChanModeType s c /\
  (c ∉ prefixModes s -> sym (modeClassifier_of s) c = x00) /\
  (NoDup (prefixModes s) -> c ∈ prefixModes s ->
   string_of_byte (sym (modeClassifier_of s) c) = SymbolForMode s c).
Proof.
  intros Hw. pose proof (wf_chanModes s Hw) as H4. pose proof (wf_prefix s Hw) as Hlen.
  unfold modeClassifier_of, ChanModeType, SymbolForMode. cbn [class sym]. split; [|split].
  - rewrite classify_sets_spec by lia. rewrite classify_prefix_class. cbn [class].
    fold (ContainsByte (prefixModes s) c). pose proof (ContainsByte_spec (prefixModes s) c) as Hc.
    destruct (ContainsByte (prefixModes s) c).
    + by rewrite (bool_decide_eq_true_2 (c ∈ _)) by tauto.
    + by rewrite (bool_decide_eq_false_2 (c ∈ _)) by (rewrite <- Hc; done).
  - intros Hc. by rewrite classify_prefix_sym_out.
  - intros Hnd Hc. pose proof (IndexByte_nonneg _ _ Hc) as Hi.
    destruct (Z.eqb_spec (IndexByte (prefixModes s) c) (-1)); [lia|].
    assert (prefixModes s !! Z.to_nat (IndexByte (prefixModes s) c) = Some c) as Hm
      by (by apply IndexByte_lookup).
    destruct (lookup_lt_is_Some_2 (prefixSymbols s) (Z.to_nat (IndexByte (prefixModes s) c)))
      as [y Hy]; [unfold len in *; lia|].
    rewrite Hy. f_equal. by eapply classify_prefix_sym.
Qed.

(** A value escaped the way the ISUPPORT grammar prescribes (backslash
    itself escaped, and any other bytes the server chooses) is decoded to
    the original value, byte for byte. *)
Theorem unescape_roundtrip P v :
  P x5c = true -> unescapeValue (escapeValue P v) = v.
Proof. intros HP. rewrite unescapeValue_loop. by apply unescape_aux_escape. Qed.

(** When PREFIX repeats a letter the table and the scan differ: for
    "PREFIX=(oo)@+" the scan maps o to the first symbol and the table to the
    last one. *)
Theorem modeClassifier_duplicate_letter :
  let s := handle (newMsg §"005" [§"me"; §"PREFIX=(oo)@+"; §"are supported"]) newISupport in
  SymbolForMode s x6f = §"@" /\ string_of_byte (sym (modeClassifier_of s) x6f) = §"+".
Proof. split; vm_compute; reflexivity. Qed.

(** *** Witnesses *)

Lemma modeClassifier_agrees_witness :
  string_of_byte (sym (modeClassifier_of newISupport) x6f) = §"@".
Proof.
  rewrite (proj2 (proj2 (modeClassifier_agrees newISupport x6f newISupport_wf))).
  - vm_compute. reflexivity.
  - apply (bool_decide_unpack _). vm_compute. exact I.
  - apply (bool_decide_unpack _). vm_compute. exact I.
Defined.

Lemma casemapping_pinned_witness :
  let m1 := newMsg §"005" [§"me"; §"CASEMAPPING=ascii"; §"are supported"] in
  let m2 := newMsg §"005" [§"me"; §"-CASEMAPPING"; §"are supported"] in
  Fold (isupport_run [m2] (isupport_run [m1] newISupport)) §"A[" = §"a[".
Proof.
  intros m1 m2. destruct (casemapping_pinned [m1] [m2] §"A[") as [_ H].
  destruct (H eq_refl) as [_ ->]. vm_compute. reflexivity.
Defined.

Lemma unescape_roundtrip_witness : unescapeValue §"a\x20b\x5c" = [x61; x20; x62; x5c].
Proof.
  set (P := fun c => (c == x5c) || (c == x20)).
  replace §"a\x20b\x5c" with (escapeValue P [x61; x20; x62; x5c]) by (vm_compute; reflexivity).
  apply unescape_roundtrip. vm_compute. reflexivity.
Defined.
