(* ===== verification/Roster.v ===== *)
(** * Channel membership tracking: internal/irc/roster.go

    The roster of one connection: for each joined channel its topic, its
    members and the NAMES snapshot in flight, with a running byte total per
    channel that the admission guards compare with a connection-wide
    budget.  The Go maps are finite maps; a [*channelState] is reached from
    one map entry only, so updating through the pointer is replacing that
    entry.  Every method runs under the roster's mutex.

    The bounds are Go variables ("so tests can exercise the bounds at small
    scale"), so they are a class here; [default_limits] has the values the
    program starts with. *)

From S2P Require Import Prelude GoStrings GoUtf8 IrcMsg ISupport.

(** ** Bounds *)

Definition maxRosterField : Z := 512.

Class RosterLimits := {
  maxRosterChannels : Z;
  maxChannelMembers : Z;
  maxRosterMembers : Z;
  maxRosterBytes : Z
}.

Definition default_limits : RosterLimits := {|
  maxRosterChannels := 4096;
  maxChannelMembers := 25000;
  maxRosterMembers := 100000;
  maxRosterBytes := Z.shiftl 8 20
|}.

Definition memberOverhead : Z := 96.
Definition whoxToken := §"152".
Definition maxModeLettersPerLine : Z := 64.

(** ** Clamping *)

Definition clampRoster (s : gostring) : gostring :=
  if len s >? maxRosterField then
    let s := slice_to s maxRosterField in trim_partial (length s) s
  else s.

Definition foldKey (isup : isupport) (name : gostring) : gostring := Fold isup (clampRoster name).

Lemma clampRoster_len s : len (clampRoster s) <= maxRosterField.
Proof.
  unfold clampRoster. destruct (Z.gtb_spec (len s) maxRosterField); [|done].
  etransitivity; [apply trim_partial_len|]. by apply len_slice_to_le.
Qed.

(** ** State *)

Record Member := MkMember {
  Nick : gostring;
  StatusPrefix : gostring;   (* Go: Prefix *)
  Away : bool;
  Account : gostring;
  Bot : bool;
  User : gostring;
  Host : gostring
}.

#[global] Instance Member_eq_dec : EqDecision Member.
Proof. solve_decision. Defined.

Definition memberBytes (key : gostring) (m : Member) : Z :=
  len key + len (Nick m) + len (StatusPrefix m) + len (Account m)
  + len (User m) + len (Host m) + memberOverhead.

Record channelState := MkChannel {
  name : gostring;
  topic : gostring;
  members : gmap gostring Member;
  pending : option (gmap gostring Member);   (* None: nil map *)
  bytes : Z
}.

(** Which of the two maps of a channel an operation works on. *)
Inductive which := InMembers | InPending.

Definition get_map (st : channelState) (w : which) : gmap gostring Member :=
  match w with InMembers => members st | InPending => default ∅ (pending st) end.

Definition set_map (st : channelState) (w : which) (mp : gmap gostring Member) : channelState :=
  match w with
  | InMembers => MkChannel (name st) (topic st) mp (pending st) (bytes st)
  | InPending => MkChannel (name st) (topic st) (members st) (Some mp) (bytes st)
  end.

Definition add_bytes (d : Z) (st : channelState) : channelState :=
  MkChannel (name st) (topic st) (members st) (pending st) (bytes st + d).

Definition put_delta (mp : gmap gostring Member) (key : gostring) (mem : Member) : Z :=
  memberBytes key mem - match mp !! key with Some old => memberBytes key old | None => 0 end.

Definition put (st : channelState) (w : which) (key : gostring) (mem : Member) : channelState :=
  add_bytes (put_delta (get_map st w) key mem) (set_map st w (<[key := mem]> (get_map st w))).

Definition del (st : channelState) (w : which) (key : gostring) : channelState :=
  match get_map st w !! key with
  | Some old => add_bytes (- memberBytes key old) (set_map st w (delete key (get_map st w)))
  | None => st
  end.

Definition recomputeBytes (st : channelState) : channelState :=
  let n := len (topic st) + map_sum memberBytes (members st)
           + map_sum memberBytes (default ∅ (pending st)) in
  MkChannel (name st) (topic st) (members st) (pending st) n.

(** The roster: folded channel name to state. *)
Abbreviation roster := (gmap gostring channelState).

Definition newRoster : roster := ∅.
Definition clear (_ : roster) : roster := ∅.

Definition totalBytes (r : roster) : Z := map_sum (fun _ st => bytes st) r.

Definition totalMembers (r : roster) : Z :=
  map_sum (fun _ st => Z.of_nat (size (members st)) + Z.of_nat (size (default ∅ (pending st)))) r.

(** ** Parsing helpers *)

(** Leading bytes of [raw] that are status symbols. *)
Fixpoint span_symbols (symbols raw : gostring) : gostring * gostring :=
  match raw with
  | c :: rest =>
      if negb (IndexByte symbols c =? -1)
      then let '(a, b) := span_symbols symbols rest in (c :: a, b)
      else ([], raw)
  | [] => ([], [])
  end.

Definition splitNamesPrefix (symbols raw : gostring) : gostring * gostring * gostring * gostring :=
  let '(prefixes, nick) := span_symbols symbols raw in
  let bang := IndexByte nick x21 in
  if bang =? -1 then (prefixes, nick, [], [])
  else
    let rest := slice_from nick (bang + 1) in
    let nick := slice_to nick bang in
    let at_ := IndexByte rest x40 in
    if at_ =? -1 then (prefixes, nick, rest, [])
    else (prefixes, nick, slice_to rest at_, slice_from rest (at_ + 1)).

(** The insertion loop of [addPrefix]. *)
Fixpoint insert_ranked (rank : gostring) (pos : Z) (changed current : gostring) : gostring :=
  match current with
  | [] => changed
  | c :: rest =>
      if IndexByte rank c >? pos then changed ++ current
      else c :: insert_ranked rank pos changed rest
  end.

Definition addPrefix (rank current changed : gostring) : gostring :=
  if (changed == []) || Contains current changed then current
  else insert_ranked rank (Index rank changed) changed current.

Definition set_prefix_of (m : Member) (p : gostring) : Member :=
  MkMember (Nick m) p (Away m) (Account m) (Bot m) (User m) (Host m).

(** ** Operations *)

Section ops.
Context `{RosterLimits, IrcV4} (isup : isupport).

Definition setTopic (r : roster) (channel t0 : gostring) : roster :=
  match r !! foldKey isup channel with
  | None => r
  | Some st =>
      let t := clampRoster t0 in
      if (len t >? len (topic st)) && (maxRosterBytes <=? totalBytes r) then r
      else <[foldKey isup channel :=
             MkChannel (name st) t (members st) (pending st) (bytes st + (len t - len (topic st)))]> r
  end.

Definition memberLeft (r : roster) (channel nick : gostring) (ours : bool) : roster :=
  if ours then delete (foldKey isup channel) r
  else match r !! foldKey isup channel with
       | None => r
       | Some st =>
           let fk := foldKey isup nick in
           <[foldKey isup channel := del (del st InMembers fk) InPending fk]> r
       end.

Definition membersPart (r : roster) (channels nick : gostring) (ours : bool) : roster :=
  foldl (fun r ch => memberLeft r ch nick ours) r (Split channels x2c).

Definition kick_channel (chans victims : list gostring) (i : nat) : gostring :=
  if (length chans =? length victims)%nat then default [] (chans !! i)
  else default [] (chans !! 0%nat).

Definition membersKick (r : roster) (m : Message) (ourNick : gostring) : roster :=
  let chans := Split (Param m 0) x2c in
  let victims := Split (Param m 1) x2c in
  foldl (fun r '(i, victim) =>
           memberLeft r (kick_channel chans victims i) victim
             ((ourNick != []) && FoldEqual isup victim ourNick))
    r (imap pair victims).

Definition memberQuit (r : roster) (sender : gostring) : roster :=
  let qk := Fold isup (clampRoster sender) in
  (fun st => del (del st InMembers qk) InPending qk) <$> r.

(** The loop of [namesReply]: it stops at the first exhausted budget. *)
Fixpoint names_loop (st : channelState) (budget bytesLeft : Z) (raws : list gostring) : channelState :=
  match raws with
  | [] => st
  | raw :: rest =>
      if (maxChannelMembers <=? Z.of_nat (size (default ∅ (pending st))))
         || (budget <=? 0) || (bytesLeft <=? 0)
      then st
      else
        let '(prefix, nick, user, host) := splitNamesPrefix (prefixSymbols isup) raw in
        let nick := clampRoster nick in
        let fk := Fold isup nick in
        let budget := match default ∅ (pending st) !! fk with Some _ => budget | None => budget - 1 end in
        let mem := MkMember nick (clampRoster prefix) false [] false (clampRoster user) (clampRoster host) in
        let delta := put_delta (get_map st InPending) fk mem in
        names_loop (put st InPending fk mem) budget (bytesLeft - delta) rest
  end.

Definition namesReply (r : roster) (m : Message) : roster :=
  match r !! foldKey isup (Param m 2) with
  | None => r
  | Some st =>
      let st := MkChannel (name st) (topic st) (members st) (Some (default ∅ (pending st))) (bytes st) in
      let budget := maxRosterMembers - totalMembers r in
      let bytesLeft := maxRosterBytes - totalBytes r in
      <[foldKey isup (Param m 2) := names_loop st budget bytesLeft (Fields (Param m 3))]> r
  end.

(** What the 366 swap keeps of the member it replaces. *)
Definition merge_member (old : option Member) (mem : Member) : Member :=
  match old with
  | None => mem
  | Some o =>
      if (User mem == []) && (Host mem == [])
      then MkMember (Nick mem) (StatusPrefix mem) (Away o) (Account o) (Bot o) (User o) (Host o)
      else MkMember (Nick mem) (StatusPrefix mem) (Away o) (Account o) (Bot o) (User mem) (Host mem)
  end.

Definition namesEnd (r : roster) (m : Message) : roster :=
  match r !! foldKey isup (Param m 1) with
  | None => r
  | Some st =>
      match pending st with
      | None => r
      | Some p =>
          let merged := map_imap (fun k mem => Some (merge_member (members st !! k) mem)) p in
          <[foldKey isup (Param m 1) :=
            recomputeBytes (MkChannel (name st) (topic st) merged None (bytes st))]> r
      end
  end.

(** The roster after [joinChannel] and the key of the state it returns. *)
Definition joinChannel (r : roster) (ch : gostring) (ours : bool) : roster * option gostring :=
  let key := Fold isup ch in
  match r !! key with
  | Some _ => (r, Some key)
  | None =>
      if negb ours || (maxRosterChannels <=? Z.of_nat (size r)) then (r, None)
      else (<[key := MkChannel ch [] ∅ None 0]> r, Some key)
  end.

Definition joinMember (m : Message) (nick : gostring) : Member :=
  let '(user, host) :=
    match mPrefix m with
    | Some p => (clampRoster (pUser p), clampRoster (pHost p))
    | None => ([], [])
    end in
  let acct := Param m 1 in
  let account :=
    if (3 <=? len (Params m)) && (acct != §"*") then clampRoster acct else [] in
  MkMember nick [] false account false user host.

Definition memberJoin (r : roster) (m : Message) (sender : gostring) (ours : bool) : roster :=
  let ch := clampRoster (Param m 0) in
  let '(r, key) := joinChannel r ch ours in
  match key with
  | None => r
  | Some ck =>
      match r !! ck with
      | None => r
      | Some st =>
          let cs := clampRoster sender in
          let k := Fold isup cs in
          let overBytes := maxRosterBytes <=? totalBytes r in
          let known := members st !! k in
          if bool_decide (known = None) &&
             ((maxChannelMembers <=? Z.of_nat (size (members st)))
              || (maxRosterMembers <=? totalMembers r) || overBytes)
          then r
          else
            let mem := joinMember m cs in
            if (match known with
                | Some old => overBytes && (memberBytes k mem >? memberBytes k old)
                | None => false
                end)
            then r
            else
              let st := put st InMembers k mem in
              let r := <[ck := st]> r in
              match pending st with
              | None => r
              | Some p =>
                  if negb (bool_decide (p !! k = None))
                     || ((totalMembers r <? maxRosterMembers) && negb overBytes)
                  then <[ck := put st InPending k mem]> r
                  else r
              end
      end
  end.

(** [rename]'s closure [rekey] on one of the maps of a channel. *)
Definition rekey (over : bool) (fromKey toKey ct : gostring) (st : channelState) (w : which) : channelState :=
  match get_map st w !! fromKey with
  | None => st
  | Some mem =>
      let renamed := MkMember ct (StatusPrefix mem) (Away mem) (Account mem) (Bot mem) (User mem) (Host mem) in
      if over && (memberBytes toKey renamed >? memberBytes fromKey mem) then st
      else put (del st w fromKey) w toKey renamed
  end.

Definition rename (r : roster) (from to : gostring) : roster :=
  let fromKey := Fold isup (clampRoster from) in
  let ct := clampRoster to in
  let toKey := Fold isup ct in
  let over := maxRosterBytes <=? totalBytes r in
  (fun st => rekey over fromKey toKey ct (rekey over fromKey toKey ct st InMembers) InPending) <$> r.

(** [updateEverywhere]'s closure [apply]. *)
Definition update_in (over : bool) (key : gostring) (fn : Member -> Member)
    (st : channelState) (w : which) : channelState :=
  match get_map st w !! key with
  | None => st
  | Some mem =>
      let nm := fn mem in
      if over && (memberBytes key nm >? memberBytes key mem) then st
      else put st w key nm
  end.

Definition updateEverywhere (r : roster) (nick : gostring) (fn : Member -> Member) : roster :=
  let key := foldKey isup nick in
  let over := maxRosterBytes <=? totalBytes r in
  (fun st =>
     let st := update_in over key fn st InMembers in
     match pending st with
     | Some _ => update_in over key fn st InPending
     | None => st
     end) <$> r.

Definition set_away (a : bool) (m : Member) : Member :=
  MkMember (Nick m) (StatusPrefix m) a (Account m) (Bot m) (User m) (Host m).
Definition set_account (a : gostring) (m : Member) : Member :=
  MkMember (Nick m) (StatusPrefix m) (Away m) a (Bot m) (User m) (Host m).
Definition set_userhost (u h : gostring) (m : Member) : Member :=
  MkMember (Nick m) (StatusPrefix m) (Away m) (Account m) (Bot m) u h.
Definition set_whox (away : bool) (acct : gostring) (bot : bool) (m : Member) : Member :=
  MkMember (Nick m) (StatusPrefix m) away acct bot (User m) (Host m).

Definition whoxReply (r : roster) (m : Message) : roster :=
  if (Param m 1 != whoxToken) || (len (Params m) <? 5) then r
  else
    let nick := Param m 2 in
    let flags := Param m 3 in
    let acct := if Param m 4 == §"0" then [] else Param m 4 in
    let acct := clampRoster acct in
    let away := ContainsByte flags x47 in
    let bot := match Raw isup §"BOT" with
               | Some letter => (letter != []) && Contains flags letter
               | None => false
               end in
    updateEverywhere r nick (set_whox away acct bot).

(** [applyStatusMode]'s closure [apply] on the channel under [ck]; [over]
    is the lazily computed and then cached budget test. *)
Definition status_in (ck fk sym : gostring) (adding : bool) (w : which)
    (rs : roster * option bool) : roster * option bool :=
  let '(r, over) := rs in
  match r !! ck with
  | None => rs
  | Some st =>
      match get_map st w !! fk with
      | None => rs
      | Some mem =>
          if adding then
            let np := addPrefix (prefixSymbols isup) (StatusPrefix mem) sym in
            if len np >? len (StatusPrefix mem) then
              let ov := default (maxRosterBytes <=? totalBytes r) over in
              if ov then (r, Some ov)
              else (<[ck := put st w fk (set_prefix_of mem np)]> r, Some ov)
            else (<[ck := put st w fk (set_prefix_of mem np)]> r, over)
          else
            (<[ck := put st w fk (set_prefix_of mem (ReplaceAll (StatusPrefix mem) sym []))]> r, over)
      end
  end.

Definition applyStatusMode (r : roster) (ck nick sym : gostring) (adding : bool) : roster :=
  let fk := foldKey isup nick in
  let rs := status_in ck fk sym adding InMembers (r, None) in
  match rs.1 !! ck with
  | Some st => match pending st with
               | Some _ => (status_in ck fk sym adding InPending rs).1
               | None => rs.1
               end
  | None => rs.1
  end.

(** The roster and the index of the next argument. *)
Definition applyModeLetter (ck : gostring) (params : list gostring) (cls : modeClassifier)
    (c : byte) (adding : bool) (ra : roster * nat) : roster * nat :=
  let '(r, arg) := ra in
  let taken := default [] (params !! arg) in
  let arg' := if (arg <? length params)%nat then S arg else arg in
  let k := class cls c in
  if k == x50 then (applyStatusMode r ck taken (string_of_byte (sym cls c)) adding, arg')
  else if (k == x41) || (k == x42) then (r, arg')
  else if k == x43 then (r, if adding then arg' else arg)
  else (r, arg).

(** The loop over the mode string: [letters] counts letters seen. *)
Fixpoint mode_loop (ck : gostring) (params : list gostring) (cls : modeClassifier)
    (adding : bool) (letters : Z) (ra : roster * nat) (modes : gostring) : roster :=
  match modes with
  | [] => ra.1
  | c :: rest =>
      if c == x2b then mode_loop ck params cls true letters ra rest
      else if c == x2d then mode_loop ck params cls false letters ra rest
      else
        let letters := letters + 1 in
        if letters >? maxModeLettersPerLine then ra.1
        else mode_loop ck params cls adding letters (applyModeLetter ck params cls c adding ra) rest
  end.

Definition applyChannelMode (r : roster) (ck : gostring) (params : list gostring) : roster :=
  if len params <? 2 then r
  else mode_loop ck params (modeClassifier_of isup) true 0 (r, 2%nat) (default [] (params !! 1%nat)).

Definition channelMode (r : roster) (m : Message) : roster :=
  match r !! foldKey isup (Param m 0) with
  | Some _ => applyChannelMode r (foldKey isup (Param m 0)) (Params m)
  | None => r
  end.

(** [handle]: one server message. *)
Definition handle (ourNick : gostring) (m : Message) (r : roster) : roster :=
  let sender := match mPrefix m with Some p => pName p | None => [] end in
  let us := (ourNick != []) && FoldEqual isup sender ourNick in
  let cmd := Command m in
  if cmd == §"353" then namesReply r m
  else if cmd == §"366" then namesEnd r m
  else if cmd == §"332" then setTopic r (Param m 1) (Param m 2)
  else if cmd == §"331" then setTopic r (Param m 1) []
  else if cmd == §"TOPIC" then setTopic r (Param m 0) (Trailing m)
  else if cmd == §"JOIN" then memberJoin r m sender us
  else if cmd == §"PART" then membersPart r (Param m 0) sender us
  else if cmd == §"KICK" then membersKick r m ourNick
  else if cmd == §"QUIT" then memberQuit r sender
  else if cmd == §"NICK" then rename r sender (Param m 0)
  else if cmd == §"CHGHOST" then
    updateEverywhere r sender (set_userhost (clampRoster (Param m 0)) (clampRoster (Param m 1)))
  else if cmd == §"AWAY" then updateEverywhere r sender (set_away (0 <? len (Params m)))
  else if cmd == §"ACCOUNT" then
    let acct := if Param m 0 == §"*" then [] else Param m 0 in
    updateEverywhere r sender (set_account (clampRoster acct))
  else if cmd == §"354" then whoxReply r m
  else if cmd == §"MODE" then channelMode r m
  else r.

(** ** Queries *)

Definition channelsWith (r : roster) (nick : gostring) : list gostring :=
  let key := foldKey isup nick in
  sort_Strings
    ((fun '(_, st) => name st) <$>
      filter (fun '(_, st) => is_Some (members st !! key)) (map_to_list r)).

(** The decorated sort of [channel]. *)
Definition fold_le (a b : Member * gostring) : Prop := str_le a.2 b.2.
#[global] Instance fold_le_dec : RelDecision fold_le.
Proof. intros a b. unfold fold_le. apply _. Defined.

Definition channel (r : roster) (nm : gostring) : option (gostring * list Member) :=
  match r !! foldKey isup nm with
  | None => None
  | Some st =>
      let keyed := (fun '(_, m) => (m, Fold isup (Nick m))) <$> map_to_list (members st) in
      Some (topic st, (merge_sort fold_le keyed).*1)
  end.
End ops.
