(* ===== verification/RosterInv.v ===== *)
(** * The roster's accounting and bounds

    The byte counter of every channel equals the bytes it stands for after
    any sequence of server messages; the channel and member counts never
    pass their caps; once the byte budget is reached only one path can
    still grow the roster, and it is exhibited. *)

From S2P Require Import Prelude GoStrings GoUtf8 IrcMsg ISupport Roster.

(** ** Content of a channel *)

Definition content (st : channelState) (w : which) : Z := map_sum memberBytes (get_map st w).

Definition chan_bytes (st : channelState) : Z :=
  len (topic st) + content st InMembers + content st InPending.

Definition chan_ok (st : channelState) : Prop := bytes st = chan_bytes st.

Definition roster_ok (r : roster) : Prop := map_Forall (fun _ st => chan_ok st) r.

Definition count (st : channelState) : Z :=
  Z.of_nat (size (get_map st InMembers)) + Z.of_nat (size (get_map st InPending)).

Lemma memberBytes_pos k m : memberOverhead <= memberBytes k m.
Proof.
  unfold memberBytes. pose proof (len_nonneg k). pose proof (len_nonneg (Nick m)).
  pose proof (len_nonneg (StatusPrefix m)). pose proof (len_nonneg (Account m)).
  pose proof (len_nonneg (User m)). pose proof (len_nonneg (Host m)). lia.
Qed.

Lemma memberBytes_nonneg k m : 0 <= memberBytes k m.
Proof. pose proof (memberBytes_pos k m). unfold memberOverhead in *. lia. Qed.
#[export] Hint Resolve memberBytes_nonneg : go.

Lemma content_nonneg st w : 0 <= content st w.
Proof. apply map_sum_nonneg. auto with go. Qed.
#[export] Hint Resolve content_nonneg : go.

(** *** Updates of one map *)

Lemma get_set_map st w mp : get_map (set_map st w mp) w = mp.
Proof. by destruct w. Qed.
Lemma get_set_map_ne st w w' mp : w <> w' -> get_map (set_map st w mp) w' = get_map st w'.
Proof. by destruct w, w'. Qed.
Lemma topic_set_map st w mp : topic (set_map st w mp) = topic st.
Proof. by destruct w. Qed.
Lemma bytes_set_map st w mp : bytes (set_map st w mp) = bytes st.
Proof. by destruct w. Qed.
Lemma get_add_bytes d st w : get_map (add_bytes d st) w = get_map st w.
Proof. by destruct w. Qed.

(** The sum over the two maps, split at [w]. *)
Definition other (w : which) : which := match w with InMembers => InPending | InPending => InMembers end.

Lemma chan_bytes_split st w : chan_bytes st = len (topic st) + content st w + content st (other w).
Proof. unfold chan_bytes. destruct w; simpl; lia. Qed.
Lemma count_split st w :
  count st = Z.of_nat (size (get_map st w)) + Z.of_nat (size (get_map st (other w))).
Proof. unfold count. destruct w; simpl; lia. Qed.
Lemma other_ne w : w <> other w.
Proof. by destruct w. Qed.
#[local] Hint Resolve other_ne : core.

Lemma chan_bytes_set_map st w mp :
  chan_bytes (set_map st w mp) = chan_bytes st - content st w + map_sum memberBytes mp.
Proof.
  rewrite !(chan_bytes_split _ w). unfold content.
  rewrite get_set_map, get_set_map_ne, topic_set_map by done. lia.
Qed.

Lemma count_set_map st w mp :
  count (set_map st w mp) = count st - Z.of_nat (size (get_map st w)) + Z.of_nat (size mp).
Proof. rewrite !(count_split _ w), get_set_map, get_set_map_ne by done. lia. Qed.

Lemma map_sum_put (mp : gmap gostring Member) k m :
  map_sum memberBytes (<[k:=m]> mp) = map_sum memberBytes mp + put_delta mp k m.
Proof.
  unfold put_delta. destruct (mp !! k) as [old|] eqn:E.
  - rewrite (map_sum_replace _ _ _ _ old) by done. lia.
  - rewrite map_sum_insert_None by done. lia.
Qed.

Lemma chan_bytes_add_bytes d st : chan_bytes (add_bytes d st) = chan_bytes st.
Proof. done. Qed.

Lemma put_chan_bytes st w k m :
  chan_bytes (put st w k m) = chan_bytes st + put_delta (get_map st w) k m.
Proof.
  unfold put. rewrite chan_bytes_add_bytes, chan_bytes_set_map, map_sum_put. unfold content. lia.
Qed.

Lemma put_bytes st w k m : bytes (put st w k m) = bytes st + put_delta (get_map st w) k m.
Proof. unfold put. simpl. by rewrite bytes_set_map. Qed.

Lemma put_ok st w k m : chan_ok st -> chan_ok (put st w k m).
Proof. unfold chan_ok. rewrite put_bytes, put_chan_bytes. lia. Qed.

Lemma put_count st w k m :
  count (put st w k m) = count st + match get_map st w !! k with Some _ => 0 | None => 1 end.
Proof.
  unfold put. change (count (add_bytes _ ?s)) with (count s). rewrite count_set_map.
  destruct (get_map st w !! k) eqn:E.
  - rewrite map_size_insert_Some by eauto. lia.
  - rewrite map_size_insert_None by done. lia.
Qed.

Lemma get_put st w k m : get_map (put st w k m) w = <[k := m]> (get_map st w).
Proof. unfold put. by rewrite get_add_bytes, get_set_map. Qed.
Lemma get_put_ne st w w' k m : w <> w' -> get_map (put st w k m) w' = get_map st w'.
Proof. intros. unfold put. by rewrite get_add_bytes, get_set_map_ne. Qed.

Lemma get_del st w k : get_map (del st w k) w = delete k (get_map st w).
Proof.
  unfold del. destruct (get_map st w !! k) eqn:E; [by rewrite get_add_bytes, get_set_map|].
  by rewrite delete_id.
Qed.
Lemma get_del_ne st w w' k : w <> w' -> get_map (del st w k) w' = get_map st w'.
Proof.
  intros. unfold del. destruct (get_map st w !! k) eqn:E; [|done].
  by rewrite get_add_bytes, get_set_map_ne.
Qed.

Lemma pending_del st w k : pending (del st w k) = None <-> pending st = None.
Proof.
  unfold del. destruct (get_map st w !! k) as [m|] eqn:E; [|done]. destruct w; [done|].
  cbn [get_map] in E. destruct (pending st) as [p|]; [done|].
  assert ((∅ : gmap gostring Member) !! k = Some m) as E' by exact E.
  by rewrite lookup_empty in E'.
Qed.

Lemma del_bytes st w k m :
  get_map st w !! k = Some m -> bytes (del st w k) = bytes st - memberBytes k m.
Proof. intros E. unfold del. rewrite E. simpl. rewrite bytes_set_map. lia. Qed.

Lemma del_chan_bytes st w k m :
  get_map st w !! k = Some m -> chan_bytes (del st w k) = chan_bytes st - memberBytes k m.
Proof.
  intros E. unfold del. rewrite E, chan_bytes_add_bytes, chan_bytes_set_map. unfold content.
  rewrite (map_sum_delete _ _ _ _ E). lia.
Qed.

Lemma del_ok st w k : chan_ok st -> chan_ok (del st w k).
Proof.
  intros Hok. destruct (get_map st w !! k) as [m|] eqn:E; [|unfold del; by rewrite E].
  unfold chan_ok. rewrite (del_bytes _ _ _ _ E), (del_chan_bytes _ _ _ _ E), Hok. done.
Qed.

Lemma del_bytes_le st w k : bytes (del st w k) <= bytes st.
Proof.
  destruct (get_map st w !! k) as [m|] eqn:E; [|unfold del; by rewrite E].
  rewrite (del_bytes _ _ _ _ E). pose proof (memberBytes_nonneg k m). lia.
Qed.

Lemma del_count st w k :
  count (del st w k) = count st - match get_map st w !! k with Some _ => 1 | None => 0 end.
Proof.
  unfold del. destruct (get_map st w !! k) as [m|] eqn:E; [|lia].
  change (count (add_bytes _ ?s)) with (count s). rewrite count_set_map.
  rewrite map_size_delete_Some by eauto.
  assert (size (get_map st w) <> 0%nat).
  { intros Hz. apply map_size_empty_inv in Hz. by rewrite Hz, lookup_empty in E. }
  lia.
Qed.

Lemma recompute_ok st : chan_ok (recomputeBytes st).
Proof. unfold chan_ok, chan_bytes, content. simpl. lia. Qed.

#[export] Hint Resolve put_ok del_ok recompute_ok : go.

(** *** The closures of rename and updateEverywhere *)

(** What such a closure may do to a channel: keep the accounting, not add
    members, and not grow it when [over]. *)
Definition tame (over : bool) (st st' : channelState) : Prop :=
  (chan_ok st -> chan_ok st') /\ count st' <= count st /\
  (over = true -> bytes st' <= bytes st).

#[global] Instance tame_refl over : Reflexive (tame over).
Proof. intros st. unfold tame. auto with lia. Qed.
#[global] Instance tame_trans over : Transitive (tame over).
Proof.
  intros a b c (H1&H2&H3) (H4&H5&H6). split; [auto|]. split; [lia|].
  intros Ho. specialize (H3 Ho). specialize (H6 Ho). lia.
Qed.

Lemma put_delta_le mp k m : put_delta mp k m <= memberBytes k m.
Proof. unfold put_delta. case_match; [pose proof (memberBytes_nonneg k m0)|]; lia. Qed.

Lemma rekey_tame over fk tk ct st w : tame over st (rekey over fk tk ct st w).
Proof.
  unfold rekey. destruct (get_map st w !! fk) as [mem|] eqn:E; [|reflexivity].
  set (rn := MkMember ct _ _ _ _ _ _). destruct (over && _) eqn:Ho; [reflexivity|].
  split; [auto with go|]. split.
  - rewrite put_count, del_count, E. destruct (_ !! tk); lia.
  - intros ->. rewrite put_bytes, (del_bytes _ _ _ _ E).
    pose proof (put_delta_le (get_map (del st w fk) w) tk rn). simpl in Ho. lia.
Qed.

Lemma update_in_tame over k fn st w : tame over st (update_in over k fn st w).
Proof.
  unfold update_in. destruct (get_map st w !! k) as [mem|] eqn:E; [|reflexivity].
  destruct (over && _) eqn:Ho; [reflexivity|].
  split; [auto with go|]. split.
  - rewrite put_count, E. lia.
  - intros ->. rewrite put_bytes. unfold put_delta. rewrite E. simpl in Ho. lia.
Qed.

Lemma del_tame over st w k : tame over st (del st w k).
Proof.
  split; [auto with go|]. split.
  - rewrite del_count. case_match; lia.
  - intros _. apply del_bytes_le.
Qed.

(** ** Relations between rosters *)

Section steps.
Context `{RosterLimits, IrcV4}.
Implicit Types r : roster.

Lemma totalMembers_count r : totalMembers r = map_sum (fun _ st => count st) r.
Proof. done. Qed.

Lemma total_insert (f : gostring -> channelState -> Z) r ck st st' :
  r !! ck = Some st -> map_sum f (<[ck := st']> r) = map_sum f r + f ck st' - f ck st.
Proof. apply map_sum_replace. Qed.

(** A step that keeps the accounting and adds neither channels nor
    members, with a bound [B] on the bytes after it. *)
Definition calm (B : Z) r r' : Prop :=
  (roster_ok r -> roster_ok r') /\ totalMembers r' <= totalMembers r /\
  (size r' <= size r)%nat /\ (roster_ok r -> totalBytes r' <= B).

Lemma calm_refl r B : totalBytes r <= B -> calm B r r.
Proof. unfold calm. auto with lia. Qed.

Lemma calm_weaken B B' r r' : B <= B' -> calm B r r' -> calm B' r r'.
Proof. intros HB (?&?&?&Hb). split_and!; auto. intros Hok. specialize (Hb Hok). lia. Qed.

(** Mapping a tame function over the channels. *)
Lemma fmap_tame (over : bool) (f : channelState -> channelState) r :
  (forall st, tame over st (f st)) ->
  (roster_ok r -> roster_ok (f <$> r)) /\ totalMembers (f <$> r) <= totalMembers r /\
  (size (f <$> r) <= size r)%nat /\ (over = true -> totalBytes (f <$> r) <= totalBytes r).
Proof.
  intros Hf. split_and!.
  - intros Hok k st' Hk. rewrite lookup_fmap in Hk.
    destruct (r !! k) as [st|] eqn:E; simplify_eq/=. apply (Hf st), (Hok k st E).
  - rewrite (totalMembers_count r), totalMembers_count, map_sum_fmap. apply map_sum_le. intros k st _. apply (Hf st).
  - by rewrite map_size_fmap.
  - intros Ho. unfold totalBytes. rewrite map_sum_fmap. apply map_sum_le. intros k st _.
    by apply (Hf st).
Qed.

(** Replacing one channel by a tame image of it. *)
Lemma insert_tame (over : bool) r ck st st' :
  r !! ck = Some st -> tame over st st' ->
  (roster_ok r -> roster_ok (<[ck := st']> r)) /\
  totalMembers (<[ck := st']> r) <= totalMembers r /\
  (size (<[ck := st']> r) <= size r)%nat /\
  (over = true -> totalBytes (<[ck := st']> r) <= totalBytes r).
Proof.
  intros Hk (T1 & T2 & T3). split_and!.
  - intros Hok. apply map_Forall_insert_2; [apply T1, (Hok ck st Hk)|done].
  - rewrite (totalMembers_count r), totalMembers_count, (total_insert _ _ _ _ _ Hk). cbn beta. lia.
  - rewrite map_size_insert_Some by eauto. lia.
  - intros Ho. unfold totalBytes. rewrite (total_insert _ _ _ _ _ Hk). cbn beta. specialize (T3 Ho). lia.
Qed.

(** *** PART, KICK, QUIT *)

Lemma del2_tame over st k : tame over st (del (del st InMembers k) InPending k).
Proof. etransitivity; apply del_tame. Qed.

Lemma bytes_nonneg st : chan_ok st -> 0 <= bytes st.
Proof.
  intros ->. unfold chan_bytes. pose proof (len_nonneg (topic st)).
  pose proof (content_nonneg st InMembers). pose proof (content_nonneg st InPending). lia.
Qed.

Lemma count_nonneg st : 0 <= count st.
Proof. unfold count. lia. Qed.

Lemma delete_calm r ck : calm (totalBytes r) r (delete ck r).
Proof.
  destruct (r !! ck) as [st|] eqn:E; [|rewrite delete_id by done; by apply calm_refl].
  split_and!.
  - intros Hok. by apply map_Forall_delete.
  - rewrite (totalMembers_count r), totalMembers_count, (map_sum_delete _ _ _ _ E). cbn beta. pose proof (count_nonneg st). lia.
  - rewrite map_size_delete_Some by eauto. lia.
  - intros Hok. unfold totalBytes. rewrite (map_sum_delete _ _ _ _ E). cbn beta.
    pose proof (bytes_nonneg st (Hok ck st E)). lia.
Qed.

Lemma memberLeft_calm isup r ch nick ours : calm (totalBytes r) r (memberLeft isup r ch nick ours).
Proof.
  unfold memberLeft. destruct ours; [apply delete_calm|].
  destruct (r !! foldKey isup ch) as [st|] eqn:E; [|by apply calm_refl].
  destruct (insert_tame true r _ st _ E (del2_tame true st (foldKey isup nick))) as (?&?&?&?).
  split_and!; auto.
Qed.

Lemma foldl_calm {A} (f : roster -> A -> roster) (l : list A) r :
  (forall r a, calm (totalBytes r) r (f r a)) -> calm (totalBytes r) r (foldl f r l).
Proof.
  intros Hf. revert r. induction l as [|a l IH]; intros r; simpl; [by apply calm_refl|].
  destruct (Hf r a) as (A1&A2&A3&A4), (IH (f r a)) as (B1&B2&B3&B4).
  split_and!; [auto|lia|lia|]. intros Hok. specialize (A4 Hok). specialize (B4 (A1 Hok)). lia.
Qed.

(** *** Topics *)

Lemma setTopic_calm isup r ch t :
  calm (Z.max (totalBytes r) (maxRosterBytes + maxRosterField)) r (setTopic isup r ch t) /\
  (maxRosterBytes <= totalBytes r -> totalBytes (setTopic isup r ch t) <= totalBytes r).
Proof.
  unfold setTopic. destruct (r !! foldKey isup ch) as [st|] eqn:E;
    [|split; [apply calm_refl; lia|lia]].
  destruct (_ && _) eqn:Hg; [split; [apply calm_refl; lia|lia]|].
  set (st' := MkChannel _ _ _ _ _).
  assert (chan_ok st -> chan_ok st') as Hok'.
  { unfold chan_ok, chan_bytes, st'. simpl. intros ->. unfold content. simpl. lia. }
  assert (totalBytes (<[foldKey isup ch:=st']> r) = totalBytes r + len (clampRoster t) - len (topic st)) as Ht.
  { unfold totalBytes. rewrite (total_insert _ _ _ _ _ E). simpl. lia. }
  assert (len (clampRoster t) <= maxRosterField) as Hc by apply clampRoster_len.
  pose proof (len_nonneg (topic st)). split; [|rewrite Ht; lia].
  split_and!.
  - intros Hok. apply map_Forall_insert_2; [apply Hok', (Hok _ _ E)|done].
  - rewrite (totalMembers_count r), totalMembers_count, (total_insert _ _ _ _ _ E). unfold count, st'. simpl. lia.
  - rewrite map_size_insert_Some by eauto. lia.
  - intros _. rewrite Ht. lia.
Qed.

(** *** Updates everywhere: rename, AWAY, ACCOUNT, CHGHOST, WHOX *)

(** Accounting and counts are kept whatever the budget; with the budget
    reached the bytes do not grow. *)
Definition guarded r r' : Prop :=
  (roster_ok r -> roster_ok r') /\ totalMembers r' <= totalMembers r /\
  (size r' <= size r)%nat /\
  (roster_ok r -> maxRosterBytes <= totalBytes r -> totalBytes r' <= totalBytes r).

Lemma calm_guarded r r' : calm (totalBytes r) r r' -> guarded r r'.
Proof. intros (?&?&?&?). split_and!; auto. Qed.

Lemma guarded_refl r : guarded r r.
Proof. split_and!; auto with lia. Qed.

Lemma fmap_guarded (f : bool -> channelState -> channelState) r :
  (forall over st, tame over st (f over st)) ->
  guarded r (f (maxRosterBytes <=? totalBytes r) <$> r).
Proof.
  intros Hf. destruct (fmap_tame (maxRosterBytes <=? totalBytes r) _ r (Hf _)) as (?&?&?&Hb).
  split_and!; auto. intros _ Ho. apply Hb. by apply Z.leb_le.
Qed.

Lemma rename_guarded isup r from to : guarded r (rename isup r from to).
Proof.
  apply (fmap_guarded (fun over st => rekey over _ _ _ (rekey over _ _ _ st InMembers) InPending)).
  intros over st. etransitivity; apply rekey_tame.
Qed.

Lemma updateEverywhere_guarded isup r nick fn : guarded r (updateEverywhere isup r nick fn).
Proof.
  apply (fmap_guarded (fun over st =>
    let st := update_in over _ fn st InMembers in
    match pending st with Some _ => update_in over _ fn st InPending | None => st end)).
  intros over st. cbn zeta. transitivity (update_in over (foldKey isup nick) fn st InMembers);
    [apply update_in_tame|]. case_match; [apply update_in_tame|reflexivity].
Qed.

Lemma memberQuit_guarded isup r sender : guarded r (memberQuit isup r sender).
Proof.
  destruct (fmap_tame true (fun st => del (del st InMembers (Fold isup (clampRoster sender)))
    InPending (Fold isup (clampRoster sender))) r) as (?&?&?&?); [intros; apply del2_tame|].
  split_and!; auto.
Qed.

Lemma setTopic_guarded isup r ch t : guarded r (setTopic isup r ch t).
Proof. destruct (setTopic_calm isup r ch t) as [(?&?&?&?) ?]. split_and!; auto. Qed.

(** *** The 366 swap *)

Lemma merge_member_bytes k o mem :
  memberBytes k (merge_member o mem) <=
  memberBytes k mem + match o with Some old => memberBytes k old | None => 0 end.
Proof.
  destruct o as [o|]; simpl; [|lia]. unfold memberBytes, memberOverhead.
  pose proof (len_nonneg k). pose proof (len_nonneg (Nick o)). pose proof (len_nonneg (Nick mem)).
  pose proof (len_nonneg (StatusPrefix o)). pose proof (len_nonneg (Account o)).
  pose proof (len_nonneg (Account mem)).
  pose proof (len_nonneg (User o)). pose proof (len_nonneg (Host o)).
  pose proof (len_nonneg (User mem)). pose proof (len_nonneg (Host mem)).
  case_match; simpl; lia.
Qed.

Lemma merge_sum (old p : gmap gostring Member) :
  map_sum memberBytes (map_imap (fun k mem => Some (merge_member (old !! k) mem)) p) <=
  map_sum memberBytes p + map_sum memberBytes old.
Proof.
  revert old. induction p as [|k mem p Hk _ IH] using map_first_key_ind; intros old.
  - rewrite map_imap_empty, !map_sum_empty.
    pose proof (map_sum_nonneg memberBytes old ltac:(auto with go)). lia.
  - rewrite map_imap_insert.
    rewrite !map_sum_insert_None by (done || by rewrite map_lookup_imap, Hk).
    pose proof (merge_member_bytes k (old !! k) mem) as Hm.
    assert (map_imap (fun k mem => Some (merge_member (old !! k) mem)) p =
            map_imap (fun k' mem => Some (merge_member (delete k old !! k') mem)) p) as ->.
    { apply map_eq. intros k'. rewrite !map_lookup_imap. destruct (p !! k') eqn:Hk'; [|done].
      simpl. rewrite lookup_delete_ne; [done|]. congruence. }
    specialize (IH (delete k old)).
    destruct (old !! k) as [o|] eqn:E.
    + rewrite (map_sum_delete _ _ _ _ E). lia.
    + rewrite (delete_id _ _ E) in IH. rewrite (delete_id _ _ E). lia.
Qed.

Lemma namesEnd_guarded isup r m : guarded r (namesEnd isup r m).
Proof.
  unfold namesEnd. destruct (r !! _) as [st|] eqn:E; [|apply guarded_refl].
  destruct (pending st) as [p|] eqn:Ep; [|apply guarded_refl].
  set (merged := map_imap _ p). set (st' := recomputeBytes _).
  assert (count st' <= count st) as Hc.
  { unfold count, st'. simpl. rewrite Ep. simpl. rewrite map_size_empty.
    assert (size merged = size p) as ->; [|lia].
    rewrite <- !size_dom. f_equal. apply dom_imap_L. intros k. rewrite elem_of_dom.
    split; [intros [x Hx]; naive_solver|naive_solver]. }
  split_and!.
  - intros Hok. apply map_Forall_insert_2; [apply recompute_ok|done].
  - rewrite (totalMembers_count r), totalMembers_count, (total_insert _ _ _ _ _ E). cbn beta. lia.
  - rewrite map_size_insert_Some by eauto. lia.
  - intros Hok _. unfold totalBytes. rewrite (total_insert _ _ _ _ _ E). cbn beta.
    assert (bytes st' <= bytes st); [|lia]. rewrite (Hok _ _ E : bytes st = _).
    unfold chan_bytes, content, st'. simpl. rewrite Ep, map_sum_empty. simpl.
    pose proof (merge_sum (members st) p) as Hm. fold merged in Hm. lia.
Qed.

(** *** NAMES *)

Lemma names_loop_spec isup st budget left raws :
  (chan_ok st -> chan_ok (names_loop isup st budget left raws)) /\
  count (names_loop isup st budget left raws) <= count st + Z.max 0 budget /\
  (left <= 0 -> names_loop isup st budget left raws = st).
Proof.
  revert st budget left. induction raws as [|raw raws IH]; intros st budget left; simpl.
  { split_and!; auto. lia. }
  destruct (_ || _) eqn:Hg; [split_and!; auto; lia|].
  destruct (splitNamesPrefix _ raw) as [[[prefix nick] user] host].
  set (fk := Fold isup (clampRoster nick)). set (mem := MkMember _ _ _ _ _ _ _).
  edestruct (IH (put st InPending fk mem)) as (I1 & I2 & _). split_and!.
  - intros Hok. apply I1. auto with go.
  - etransitivity; [apply I2|]. rewrite put_count. simpl. destruct (_ !! fk); lia.
  - lia.
Qed.

Lemma namesReply_spec isup r m :
  (roster_ok r -> roster_ok (namesReply isup r m)) /\
  (totalMembers r <= maxRosterMembers -> totalMembers (namesReply isup r m) <= maxRosterMembers) /\
  (size (namesReply isup r m) <= size r)%nat /\
  (maxRosterBytes <= totalBytes r -> totalBytes (namesReply isup r m) <= totalBytes r).
Proof.
  unfold namesReply. destruct (r !! _) as [st|] eqn:E; [|split_and!; auto with lia].
  set (st1 := MkChannel _ _ _ _ _).
  set (l := Fields _).
  destruct (names_loop_spec isup st1 (maxRosterMembers - totalMembers r)
              (maxRosterBytes - totalBytes r) l) as (I1 & I2 & I3).
  assert (count st1 = count st) as Hc by done.
  split_and!.
  - intros Hok. apply map_Forall_insert_2; [|done]. apply I1. apply (Hok _ _ E).
  - intros Ht. rewrite totalMembers_count, (total_insert _ _ _ _ _ E). cbn beta.
    rewrite <- totalMembers_count. lia.
  - rewrite map_size_insert_Some by eauto. lia.
  - intros Ho. rewrite I3 by lia. unfold totalBytes. rewrite (total_insert _ _ _ _ _ E).
    unfold st1. simpl. lia.
Qed.

(** *** MODE *)

Lemma insert_ranked_len rank pos ch cur : len (insert_ranked rank pos ch cur) = len cur + len ch.
Proof.
  induction cur as [|c cur IH]; simpl; [rewrite len_nil; lia|].
  case_match; rewrite ?len_app, ?len_cons, ?IH; lia.
Qed.

Lemma addPrefix_len rank cur ch : len cur <= len (addPrefix rank cur ch) <= len cur + len ch.
Proof.
  unfold addPrefix. pose proof (len_nonneg ch). case_match; [lia|]. rewrite insert_ranked_len. lia.
Qed.

Lemma replace_aux_len old k t : len (replace_aux old [] k t) <= len t.
Proof.
  revert k. induction t as [|c t IH]; intros k; [done|].
  rewrite len_cons. cbn [replace_aux]. destruct k as [|k].
  - case_match; [|rewrite len_cons; specialize (IH 0%nat); lia].
    simpl. etransitivity; [apply IH|]. lia.
  - etransitivity; [apply IH|]. lia.
Qed.

Lemma string_of_byte_len b : len (string_of_byte b) <= 2.
Proof. apply Z.leb_le. destruct b; vm_compute; reflexivity. Qed.

Lemma put_delta_prefix mp k mem p :
  mp !! k = Some mem -> put_delta mp k (set_prefix_of mem p) = len p - len (StatusPrefix mem).
Proof. intros E. unfold put_delta. rewrite E. unfold memberBytes. simpl. lia. Qed.

(** Replacing a member's prefix in one map of one channel. *)
Lemma put_prefix_step r ck st w fk mem p :
  r !! ck = Some st -> get_map st w !! fk = Some mem ->
  let r' := <[ck := put st w fk (set_prefix_of mem p)]> r in
  (roster_ok r -> roster_ok r') /\ totalMembers r' = totalMembers r /\ size r' = size r /\
  totalBytes r' = totalBytes r + (len p - len (StatusPrefix mem)).
Proof.
  intros E Em r'. unfold r'. split_and!.
  - intros Hok. apply map_Forall_insert_2; [apply put_ok, (Hok _ _ E)|done].
  - rewrite (totalMembers_count r), totalMembers_count, (total_insert _ _ _ _ _ E). cbn beta.
    rewrite put_count, Em. lia.
  - by rewrite map_size_insert_Some by eauto.
  - unfold totalBytes. rewrite (total_insert _ _ _ _ _ E). cbn beta.
    rewrite put_bytes, (put_delta_prefix _ _ _ _ Em). lia.
Qed.

(** One application of the closure: a grant grows the roster by at most
    two bytes, and not at all when the (possibly cached) test says the
    budget is reached. *)
Lemma status_in_spec isup ck fk sy adding w r over r' over' :
  len sy <= 2 ->
  status_in isup ck fk sy adding w (r, over) = (r', over') ->
  (roster_ok r -> roster_ok r') /\ totalMembers r' = totalMembers r /\ size r' = size r /\
  totalBytes r' <= totalBytes r + 2 /\
  ((over' = over /\ totalBytes r' <= totalBytes r) \/
   (over' = Some (default (maxRosterBytes <=? totalBytes r) over) /\
    (over' = Some true -> totalBytes r' <= totalBytes r))).
Proof.
  intros Hsy. unfold status_in. destruct (r !! ck) as [st|] eqn:E;
    [|intros [= <- <-]; split_and!; auto with lia].
  destruct (get_map st w !! fk) as [mem|] eqn:Em; [|intros [= <- <-]; split_and!; auto with lia].
  destruct adding.
  - pose proof (addPrefix_len (prefixSymbols isup) (StatusPrefix mem) sy) as Hap.
    set (np := addPrefix _ _ _) in *.
    destruct (put_prefix_step r ck st w fk mem np E Em) as (S1 & S2 & S3 & S4).
    destruct (Z.gtb_spec (len np) (len (StatusPrefix mem))).
    + destruct (default _ over) eqn:Ho; intros [= <- <-]; rewrite ?S2, ?S3, ?S4.
      * split_and!; auto with lia.
      * split_and!; auto with lia. right. split; [done|]. done.
    + intros [= <- <-]. rewrite S2, S3, S4. split_and!; auto with lia.
  - intros [= <- <-].
    pose proof (replace_aux_len sy 0 (StatusPrefix mem)) as Hr. fold (ReplaceAll (StatusPrefix mem) sy []) in Hr.
    destruct (put_prefix_step r ck st w fk mem (ReplaceAll (StatusPrefix mem) sy []) E Em)
      as (S1 & S2 & S3 & S4).
    rewrite S2, S3, S4. split_and!; auto with lia.
Qed.

(** The bound a MODE line keeps: the larger of what was there and the
    budget plus three bytes. *)
Definition mode_bound r : Z := Z.max (totalBytes r) (maxRosterBytes + 3).

Lemma applyStatusMode_calm isup r ck nick sy adding :
  len sy <= 2 -> calm (mode_bound r) r (applyStatusMode isup r ck nick sy adding).
Proof.
  intros Hsy. unfold applyStatusMode, mode_bound.
  destruct (status_in _ _ _ _ _ InMembers (r, None)) as [r1 o1] eqn:E1.
  destruct (status_in_spec _ _ _ _ _ _ _ _ _ _ Hsy E1) as (A1 & A2 & A3 & A4 & A5). cbn [fst].
  assert (calm (Z.max (totalBytes r) (maxRosterBytes + 3)) r r1) as Hc1.
  { split_and!; auto; [lia|lia|]. intros _. destruct A5 as [[_ ?]|[-> Hb]]; [lia|]. simpl in Hb.
    destruct (Z.leb_spec maxRosterBytes (totalBytes r)); [specialize (Hb eq_refl); lia|lia]. }
  destruct (r1 !! ck) as [st|]; [|done]. destruct (pending st); [|done].
  destruct (status_in isup ck (foldKey isup nick) sy adding InPending (r1, o1)) as [r2 o2] eqn:E2.
  destruct (status_in_spec _ _ _ _ _ _ _ _ _ _ Hsy E2) as (B1 & B2 & B3 & B4 & B5). simpl.
  split_and!; auto; [lia|lia|]. intros _.
  destruct A5 as [[-> ?]|[-> Hb]]; simpl in *.
  - destruct B5 as [[_ ?]|[-> Hb]]; [lia|]. simpl in Hb.
    destruct (Z.leb_spec maxRosterBytes (totalBytes r1)); [specialize (Hb eq_refl); lia|lia].
  - destruct (Z.leb_spec maxRosterBytes (totalBytes r)); [|lia].
    specialize (Hb eq_refl). destruct B5 as [[_ ?]|[-> Hb2]]; [lia|]. specialize (Hb2 eq_refl). lia.
Qed.

Lemma calm_mode_trans r r1 r2 :
  calm (mode_bound r) r r1 -> calm (mode_bound r1) r1 r2 -> calm (mode_bound r) r r2.
Proof.
  unfold mode_bound. intros (A1&A2&A3&A4) (B1&B2&B3&B4). split_and!; [auto|lia|lia|].
  intros Hok. specialize (A4 Hok). specialize (B4 (A1 Hok)). lia.
Qed.

Lemma applyModeLetter_calm isup ck params cls c adding r arg :
  calm (mode_bound r) r (applyModeLetter isup ck params cls c adding (r, arg)).1.
Proof.
  assert (calm (mode_bound r) r r) as Hr by (apply calm_refl; unfold mode_bound; lia).
  unfold applyModeLetter. destruct (class cls c == x50); [|by repeat case_match].
  apply applyStatusMode_calm, string_of_byte_len.
Qed.

Lemma mode_loop_calm isup ck params cls adding letters r arg modes :
  calm (mode_bound r) r (mode_loop isup ck params cls adding letters (r, arg) modes).
Proof.
  revert adding letters r arg. induction modes as [|c modes IH]; intros adding letters r arg; cbn [mode_loop].
  { apply calm_refl; simpl. unfold mode_bound. lia. }
  case_bool_decide; [apply IH|]. case_bool_decide; [apply IH|].
  case_match; [apply calm_refl; simpl; unfold mode_bound; lia|].
  pose proof (applyModeLetter_calm isup ck params cls c adding r arg) as Hl.
  destruct (applyModeLetter _ _ _ _ _ _ _) as [r1 arg1]. eapply calm_mode_trans; [exact Hl|apply IH].
Qed.

Lemma channelMode_calm isup r m : calm (mode_bound r) r (channelMode isup r m).
Proof.
  assert (calm (mode_bound r) r r) as Hr by (apply calm_refl; unfold mode_bound; lia).
  unfold channelMode. destruct (r !! _); [|done]. unfold applyChannelMode.
  case_match; [done|]. apply mode_loop_calm.
Qed.

(** *** JOIN *)

Lemma joinChannel_spec isup r ch ours :
  let r' := (joinChannel isup r ch ours).1 in
  (roster_ok r -> roster_ok r') /\ totalMembers r' = totalMembers r /\
  totalBytes r' = totalBytes r /\
  (Z.of_nat (size r) <= maxRosterChannels -> Z.of_nat (size r') <= maxRosterChannels).
Proof.
  unfold joinChannel. destruct (r !! _) eqn:E; [by split_and!|].
  destruct (_ || _) eqn:Hg; [by split_and!|]. simpl. split_and!.
  - intros Hok. apply map_Forall_insert_2; [|done]. unfold chan_ok, chan_bytes, content. simpl.
    by rewrite map_sum_empty.
  - rewrite (totalMembers_count r), totalMembers_count, map_sum_insert_None by done. done.
  - unfold totalBytes. rewrite map_sum_insert_None by done. done.
  - intros _. rewrite map_size_insert_None by done. lia.
Qed.

Lemma memberJoin_inv isup r m sender ours :
  (roster_ok r -> roster_ok (memberJoin isup r m sender ours)) /\
  (totalMembers r <= maxRosterMembers -> totalMembers (memberJoin isup r m sender ours) <= maxRosterMembers) /\
  (Z.of_nat (size r) <= maxRosterChannels ->
   Z.of_nat (size (memberJoin isup r m sender ours)) <= maxRosterChannels).
Proof.
  unfold memberJoin. pose proof (joinChannel_spec isup r (clampRoster (Param m 0)) ours) as Hj.
  destruct (joinChannel _ _ _ _) as [r1 key]. simpl in Hj. destruct Hj as (J1 & J2 & J3 & J4).
  assert ((roster_ok r -> roster_ok r1) /\
    (totalMembers r <= maxRosterMembers -> totalMembers r1 <= maxRosterMembers) /\
    (Z.of_nat (size r) <= maxRosterChannels -> Z.of_nat (size r1) <= maxRosterChannels)) as H1
    by (rewrite J2; auto).
  destruct key as [ck|]; [|done]. destruct (r1 !! ck) as [st|] eqn:E; [|done].
  set (k := Fold isup _). set (mem := joinMember _ _).
  destruct (_ && _) eqn:Hg; [done|].
  assert (totalMembers r1 < maxRosterMembers \/ members st !! k <> None) as Hroom.
  { destruct (members st !! k) eqn:Ek; [by right|left].
    rewrite bool_decide_eq_true_2 in Hg by done. simpl in Hg. lia. }
  destruct (match members st !! k with Some _ => _ | None => false end) eqn:Hbig; [done|].
  set (st1 := put st InMembers k mem).
  assert (count st1 = count st + match members st !! k with Some _ => 0 | None => 1 end) as Hc1
    by apply put_count.
  assert ((roster_ok r -> roster_ok (<[ck := st1]> r1)) /\
    (totalMembers r <= maxRosterMembers -> totalMembers (<[ck := st1]> r1) <= maxRosterMembers) /\
    (Z.of_nat (size r) <= maxRosterChannels -> Z.of_nat (size (<[ck := st1]> r1)) <= maxRosterChannels)) as H2.
  { split_and!.
    - intros Hok. apply map_Forall_insert_2; [apply put_ok, (J1 Hok _ _ E)|exact (J1 Hok)].
    - intros Ht. rewrite totalMembers_count, (total_insert _ _ _ _ _ E). cbn beta.
      rewrite <- totalMembers_count, Hc1.
      destruct (members st !! k); [lia|]. destruct Hroom; [lia|done].
    - intros Hs. rewrite map_size_insert_Some by eauto. auto. }
  destruct (pending st1) as [p|] eqn:Ep; [|done].
  destruct_if as Hp; [|done]. destruct H2 as (I1 & I2 & I3).
  assert (<[ck := st1]> r1 !! ck = Some st1) as E1 by apply lookup_insert_eq.
  split_and!.
  - intros Hok. apply map_Forall_insert_2; [|exact (I1 Hok)]. apply put_ok, (I1 Hok _ _ E1).
  - intros Ht. specialize (I2 Ht). rewrite totalMembers_count, (total_insert _ _ _ _ _ E1). cbn beta.
    rewrite <- totalMembers_count, put_count. cbn [get_map]. rewrite Ep. cbn [default from_option id].
    destruct (p !! k) eqn:Epk; [lia|].
    rewrite bool_decide_eq_true_2 in Hp by done. simpl in Hp. lia.
  - intros Hs. rewrite map_size_insert_Some by eauto. auto.
Qed.
End steps.

(** ** Reachable rosters *)

(** The states of a connection's roster: empty at first, changed by server
    messages (the ISUPPORT state and our nick may differ at each), cleared
    when the connection ends. *)
Inductive reachable `{RosterLimits, IrcV4} : roster -> Prop :=
  | reach_new : reachable newRoster
  | reach_handle isup ourNick m r : reachable r -> reachable (handle isup ourNick m r)
  | reach_clear r : reachable r -> reachable (clear r).

Section invariants.
Context `{RosterLimits, IrcV4}.
Implicit Types r : roster.

Definition roster_inv r : Prop :=
  roster_ok r /\ totalMembers r <= maxRosterMembers /\ Z.of_nat (size r) <= maxRosterChannels.

Lemma guarded_inv r r' : guarded r r' -> roster_inv r -> roster_inv r'.
Proof. intros (?&?&?&_) (?&?&?). split_and!; [auto|lia|lia]. Qed.

Lemma calm_inv B r r' : calm B r r' -> roster_inv r -> roster_inv r'.
Proof. intros (?&?&?&_) (?&?&?). split_and!; [auto|lia|lia]. Qed.

(** Every message but NAMES, JOIN and MODE is guarded. *)
Lemma handle_cases isup ourNick m r :
  (Command m = §"353" /\ handle isup ourNick m r = namesReply isup r m) \/
  (Command m = §"JOIN" /\ exists s u, handle isup ourNick m r = memberJoin isup r m s u) \/
  (Command m = §"MODE" /\ handle isup ourNick m r = channelMode isup r m) \/
  guarded r (handle isup ourNick m r).
Proof.
  unfold handle. set (sender := match mPrefix m with Some _ => _ | None => _ end).
  case_bool_decide; [tauto|].
  case_bool_decide; [right; right; right; apply namesEnd_guarded|].
  case_bool_decide; [right; right; right; apply setTopic_guarded|].
  case_bool_decide; [right; right; right; apply setTopic_guarded|].
  case_bool_decide; [right; right; right; apply setTopic_guarded|].
  case_bool_decide; [right; left; eauto|].
  case_bool_decide.
  { right; right; right. apply calm_guarded, foldl_calm. intros. apply memberLeft_calm. }
  case_bool_decide.
  { right; right; right. apply calm_guarded, foldl_calm. intros ? []. apply memberLeft_calm. }
  case_bool_decide; [right; right; right; apply memberQuit_guarded|].
  case_bool_decide; [right; right; right; apply rename_guarded|].
  case_bool_decide; [right; right; right; apply updateEverywhere_guarded|].
  case_bool_decide; [right; right; right; apply updateEverywhere_guarded|].
  case_bool_decide; [right; right; right; apply updateEverywhere_guarded|].
  case_bool_decide.
  { right; right; right. unfold whoxReply. case_match; [apply guarded_refl|].
    apply updateEverywhere_guarded. }
  case_bool_decide; [tauto|]. right; right; right. apply guarded_refl.
Qed.

Lemma handle_inv isup ourNick m r : roster_inv r -> roster_inv (handle isup ourNick m r).
Proof.
  intros Hi. destruct (handle_cases isup ourNick m r) as [[_ ->]|[(_&s&u&->)|[[_ ->]|Hg]]].
  - destruct (namesReply_spec isup r m) as (?&?&?&_). destruct Hi as (?&?&?).
    split_and!; [auto|auto|lia].
  - destruct (memberJoin_inv isup r m s u) as (?&?&?). destruct Hi as (?&?&?). split_and!; auto.
  - eapply calm_inv; [apply channelMode_calm|done].
  - by eapply guarded_inv.
Qed.

Lemma reachable_inv r :
  0 <= maxRosterMembers -> 0 <= maxRosterChannels -> reachable r -> roster_inv r.
Proof.
  intros Hm Hc. induction 1 as [|isup ourNick m r _ IH|r _ _].
  - split_and!; [apply map_Forall_empty|done|done].
  - by apply handle_inv.
  - split_and!; [apply map_Forall_empty|done|done].
Qed.

(** ** Properties *)

(** C35. The incremental byte accounting is exact: after any sequence of
    server messages, every channel's running counter equals the bytes of
    its topic, its members and its pending NAMES recomputed from scratch,
    and the connection-wide counts respect their caps (members plus
    pending across all channels, and number of channels). *)
Theorem roster_accounting_exact r :
  0 <= maxRosterMembers -> 0 <= maxRosterChannels -> reachable r ->
  map_Forall (fun _ st => bytes st = bytes (recomputeBytes st)) r /\
  totalMembers r <= maxRosterMembers /\ Z.of_nat (size r) <= maxRosterChannels.
Proof.
  intros Hm Hc Hr. destruct (reachable_inv r Hm Hc Hr) as (Hok & ? & ?). split_and!; [|done..].
  intros ck st E. rewrite (Hok ck st E : bytes st = _). unfold chan_bytes, content. simpl. done.
Qed.

(** Once the byte budget is reached, no message other than JOIN makes
    the roster larger; a MODE line, whose letters are guarded one by one,
    may leave it at most three bytes above. *)
Theorem over_budget_no_growth isup ourNick m r :
  roster_ok r -> maxRosterBytes <= totalBytes r -> Command m <> §"JOIN" ->
  totalBytes (handle isup ourNick m r) <=
  totalBytes r + (if Command m == §"MODE" then 3 else 0).
Proof.
  intros Hok Ho Hj. destruct (handle_cases isup ourNick m r) as [[-> ->]|[(?&_)|[[-> ->]|Hg]]].
  - destruct (namesReply_spec isup r m) as (_&_&_&Hb). specialize (Hb Ho).
    rewrite bool_decide_eq_false_2 by done. lia.
  - done.
  - destruct (channelMode_calm isup r m) as (_&_&_&Hb). specialize (Hb Hok).
    unfold mode_bound in Hb. rewrite bool_decide_eq_true_2 by done. lia.
  - destruct Hg as (_&_&_&Hb). specialize (Hb Hok Ho). case_match; lia.
Qed.

(** QUIT leaves no ghost: the sender disappears from the members and
    from the NAMES snapshot in flight of every channel, and nothing else
    changes. *)
Theorem quit_removes_everywhere isup ourNick m p r ck st' :
  Command m = §"QUIT" -> mPrefix m = Some p ->
  handle isup ourNick m r !! ck = Some st' ->
  exists st, r !! ck = Some st /\ name st' = name st /\ topic st' = topic st /\
    members st' = delete (foldKey isup (pName p)) (members st) /\
    default ∅ (pending st') = delete (foldKey isup (pName p)) (default ∅ (pending st)) /\
    (pending st' = None <-> pending st = None).
Proof.
  intros Hc Hp. unfold handle. rewrite Hc, Hp. go_switch. unfold memberQuit.
  rewrite lookup_fmap. fold (foldKey isup (pName p)). set (k := foldKey isup (pName p)).
  destruct (r !! ck) as [st|]; [|done]. cbn [fmap option_fmap option_map]. intros [= <-].
  exists st. set (st1 := del st InMembers k).
  assert (members (del st1 InPending k) = delete k (members st)) as E1.
  { change (get_map (del st1 InPending k) InMembers = delete k (get_map st InMembers)).
    unfold st1. by rewrite get_del_ne, get_del. }
  assert (default ∅ (pending (del st1 InPending k)) = delete k (default ∅ (pending st))) as E2.
  { change (get_map (del st1 InPending k) InPending = delete k (get_map st InPending)).
    unfold st1. by rewrite get_del, get_del_ne. }
  split_and!; try done.
  - unfold st1, del. by repeat case_match.
  - unfold st1, del. by repeat case_match.
  - rewrite pending_del. apply pending_del.
Qed.
End invariants.

(** *** Renaming *)

(** The effect of NICK on one map: the entry moves to the new key, with
    the new nick and all else kept. *)
Definition renamed_map (fromKey toKey ct : gostring) (mp : gmap gostring Member) : gmap gostring Member :=
  match mp !! fromKey with
  | Some mem =>
      <[toKey := MkMember ct (StatusPrefix mem) (Away mem) (Account mem) (Bot mem) (User mem) (Host mem)]>
        (delete fromKey mp)
  | None => mp
  end.

Lemma rekey_map fk tk ct st w :
  get_map (rekey false fk tk ct st w) w = renamed_map fk tk ct (get_map st w).
Proof.
  unfold rekey, renamed_map. destruct (get_map st w !! fk) eqn:E; [|done].
  simpl. by rewrite get_put, get_del.
Qed.

Lemma rekey_map_ne over fk tk ct st w w' :
  w <> w' -> get_map (rekey over fk tk ct st w) w' = get_map st w'.
Proof.
  intros Hw. unfold rekey. destruct (get_map st w !! fk) eqn:E; [|done].
  case_match; [done|]. by rewrite get_put_ne, get_del_ne.
Qed.

Section rename.
Context `{RosterLimits, IrcV4}.

(** While under the byte budget, NICK re-keys the sender in the
    members and the pending NAMES of every channel, keeping its status
    prefixes, away flag, account, bot flag and host. *)
Theorem nick_rekeys_everywhere (isup : isupport) (ourNick : gostring) (m : Message)
    (p : IrcMsg.Prefix) (r : roster) (ck : gostring) (st : channelState) :
  Command m = §"NICK" -> mPrefix m = Some p -> totalBytes r < maxRosterBytes ->
  r !! ck = Some st ->
  exists st', handle isup ourNick m r !! ck = Some st' /\
    let re := renamed_map (foldKey isup (pName p)) (foldKey isup (Param m 0)) (clampRoster (Param m 0)) in
    members st' = re (members st) /\ default ∅ (pending st') = re (default ∅ (pending st)).
Proof.
  intros Hc Hp Hb E. unfold handle. rewrite Hc, Hp. go_switch. unfold rename.
  rewrite lookup_fmap, E, (proj2 (Z.leb_gt _ _)) by done. eexists. split; [reflexivity|].
  fold (foldKey isup (pName p)) (foldKey isup (Param m 0)).
  set (fk := foldKey isup (pName p)). set (tk := foldKey isup (Param m 0)).
  set (ct := clampRoster (Param m 0)). cbv zeta. split.
  - change (get_map (rekey false fk tk ct (rekey false fk tk ct st InMembers) InPending) InMembers
            = renamed_map fk tk ct (get_map st InMembers)).
    by rewrite rekey_map_ne, rekey_map.
  - change (get_map (rekey false fk tk ct (rekey false fk tk ct st InMembers) InPending) InPending
            = renamed_map fk tk ct (get_map st InPending)).
    by rewrite rekey_map, rekey_map_ne.
Qed.
End rename.

(** ** Concrete runs *)

Definition tiny_limits : RosterLimits := {|
  maxRosterChannels := 4; maxChannelMembers := 10; maxRosterMembers := 10; maxRosterBytes := 300
|}.

Definition from (nick user host : gostring) (cmd : gostring) (params : list gostring) : Message :=
  {| Tags := ∅; mPrefix := Some (MkPrefix nick user host); Command := cmd; Params := params |}.

Definition run_roster (lim : RosterLimits) (ms : list Message) : roster :=
  foldl (fun r m => @handle lim ref_ircv4 newISupport §"me" m r) newRoster ms.

Lemma run_roster_reachable lim ms : @reachable lim ref_ircv4 (run_roster lim ms).
Proof.
  unfold run_roster. assert (@reachable lim ref_ircv4 newRoster) as Hr by constructor.
  revert Hr. generalize newRoster. induction ms as [|m ms IH]; intros r Hr; simpl; [done|].
  apply IH. by constructor.
Qed.

Definition leak_prefix : list Message :=
  [from §"me" §"u" §"h" §"JOIN" [§"#c"];
   from §"alice" §"uuuuuuuuuu" §"hhhhhhhhhh" §"JOIN" [§"#c"];
   newMsg §"353" [§"me"; §"="; §"#c"; §"alice"]].

(** The budget is not closed against JOIN: with the budget reached, a
    repeated JOIN of a member that is both known and in the NAMES snapshot
    in flight passes the guard (its entry in [members] does not grow) and
    still grows the snapshot's shorter entry. *)
Theorem over_budget_join_grows :
  let r := run_roster tiny_limits leak_prefix in
  @reachable tiny_limits ref_ircv4 r /\ @maxRosterBytes tiny_limits <= totalBytes r /\
  totalBytes r < totalBytes (run_roster tiny_limits
    (leak_prefix ++ [from §"alice" §"uuuuuuuuuu" §"hhhhhhhhhh" §"JOIN" [§"#c"]])).
Proof. cbv zeta. split; [apply run_roster_reachable|]. by vm_compute. Qed.

(** *** Witnesses *)

Definition demo : list Message :=
  [from §"me" §"u" §"h" §"JOIN" [§"#C"];
   newMsg §"353" [§"me"; §"="; §"#c"; §"@me +bob!b@host carol"];
   newMsg §"366" [§"me"; §"#c"; §"End of /NAMES list."];
   newMsg §"332" [§"me"; §"#c"; §"hello"];
   from §"bob" §"b" §"host" §"ACCOUNT" [§"bobacct"]].

Lemma roster_accounting_exact_witness :
  map_Forall (fun _ st => bytes st = bytes (recomputeBytes st)) (run_roster default_limits demo) /\
  totalMembers (run_roster default_limits demo) = 3.
Proof.
  split; [|by vm_compute].
  apply (@roster_accounting_exact default_limits ref_ircv4); [done..|].
  apply run_roster_reachable.
Defined.

Lemma over_budget_no_growth_witness :
  let r := run_roster tiny_limits leak_prefix in
  let m := from §"alice" §"u" §"h" §"CHGHOST" [§"a-much-longer-user"; §"a-much-longer-host"] in
  totalBytes (@handle tiny_limits ref_ircv4 newISupport §"me" m r) <= totalBytes r + 0.
Proof.
  intros r m. apply (@over_budget_no_growth tiny_limits ref_ircv4 newISupport §"me" m r).
  - apply (@reachable_inv tiny_limits ref_ircv4); [done..|]. apply run_roster_reachable.
  - by vm_compute.
  - by vm_compute.
Defined.

Lemma quit_removes_everywhere_witness :
  exists st', run_roster default_limits (demo ++ [from §"BOB" §"b" §"host" §"QUIT" []]) !! §"#c" = Some st'
    /\ members st' !! §"bob" = None.
Proof.
  set (q := from §"BOB" §"b" §"host" §"QUIT" []).
  assert (bool_decide (is_Some (run_roster default_limits (demo ++ [q]) !! §"#c")) = true)
    as [st' E]%bool_decide_eq_true by (vm_compute; reflexivity).
  exists st'. split; [done|]. unfold run_roster in E. rewrite foldl_app in E.
  destruct (@quit_removes_everywhere default_limits ref_ircv4 newISupport §"me" q
    (MkPrefix §"BOB" §"b" §"host") _ _ _ eq_refl eq_refl E) as (st & _ & _ & _ & Hm & _).
  rewrite Hm. apply lookup_delete_eq.
Defined.

Lemma nick_rekeys_everywhere_witness :
  exists st', run_roster default_limits (demo ++ [from §"bob" §"b" §"host" §"NICK" [§"rob"]]) !! §"#c" = Some st'
    /\ Account <$> members st' !! §"rob" = Some §"bobacct".
Proof.
  set (q := from §"bob" §"b" §"host" §"NICK" [§"rob"]). set (r := run_roster default_limits demo).
  assert ((fun st => Account <$> renamed_map §"bob" §"rob" §"rob" (members st) !! §"rob")
            <$> r !! §"#c" = Some (Some §"bobacct")) as Hv by (vm_compute; reflexivity).
  destruct (r !! §"#c") as [st|] eqn:E; [|done].
  assert (totalBytes r < @maxRosterBytes default_limits) as Hb by (vm_compute; reflexivity).
  destruct (@nick_rekeys_everywhere default_limits ref_ircv4 newISupport §"me" q
    (MkPrefix §"bob" §"b" §"host") r §"#c" st eq_refl eq_refl Hb E) as (st' & E' & Hm & _).
  exists st'. split; [unfold run_roster; rewrite foldl_app; exact E'|].
  cbn [fmap option_fmap option_map] in Hv. injection Hv as Hv. rewrite Hm. exact Hv.
Defined.
