(* ===== verification/RosterPage.v ===== *)
(** * Bounded member pages: roster.channelPage

    [channelPage] (internal/irc/roster.go) answers one page of a channel's
    member list without materialising the rest: it scans the member map once,
    in whatever order Go iterates it, keeping the [limit] smallest eligible
    keys in a max-heap ([maxStringHeap] under the standard library's
    container/heap), then sorts those.  The reference definition is
    [take limit] of the sorted eligible keys; the theorems show that every
    iteration order gives that page, and that walking pages by cursor visits
    every member exactly once. *)

From S2P Require Import Prelude GoStrings GoUtf8 IrcMsg ISupport Roster.
From Stdlib Require Import ZifyNat.

Ltac Zify.zify_post_hook ::= Z.to_euclidean_division_equations.
#[local] Arguments Nat.div : simpl never.
#[local] Arguments Nat.sub : simpl never.

(** ** container/heap over maxStringHeap *)

Module Heap.

(** [Less]: the heap's minimum in heap order is the largest string. *)
Definition Less (h : list gostring) (i j : nat) : bool := str_lt (h !!! j) (h !!! i).
Definition Swap (h : list gostring) (i j : nat) : list gostring :=
  <[i := h !!! j]> (<[j := h !!! i]> h).

(** heap.up; the index strictly decreases, so [S j] rounds are enough. *)
Fixpoint up (fuel : nat) (h : list gostring) (j : nat) : list gostring :=
  match fuel with
  | O => h
  | S k =>
      let i := ((j - 1) / 2)%nat in
      if (i =? j)%nat || negb (Less h j i) then h else up k (Swap h i j) i
  end.

(** heap.down; the index strictly increases below [n]. *)
Fixpoint down (fuel : nat) (h : list gostring) (i n : nat) : list gostring :=
  match fuel with
  | O => h
  | S k =>
      let j1 := (2 * i + 1)%nat in
      if (n <=? j1)%nat then h
      else
        let j2 := (j1 + 1)%nat in
        let j := if (j2 <? n)%nat && Less h j2 j1 then j2 else j1 in
        if negb (Less h j i) then h else down k (Swap h i j) j n
  end.

Definition Push (h : list gostring) (x : gostring) : list gostring :=
  let h := h ++ [x] in up (length h) h (length h - 1).

(** heap.Fix at the root: [up] from index 0 changes nothing. *)
Definition Fix0 (h : list gostring) : list gostring := down (length h) h 0 (length h).

Definition parent (i : nat) : nat := ((i - 1) / 2)%nat.

(** Max-heap order, at every index but [j]. *)
Definition heap_at (h : list gostring) (i : nat) : Prop := str_le (h !!! i) (h !!! parent i).
Definition heap (h : list gostring) : Prop :=
  forall i, (0 < i < length h)%nat -> heap_at h i.

Lemma Swap_length h i j : length (Swap h i j) = length h.
Proof. unfold Swap. by rewrite !length_insert. Qed.

Lemma Swap_perm h i j : (i < length h)%nat -> (j < length h)%nat -> Swap h i j ≡ₚ h.
Proof.
  intros Hi Hj. apply Permutation_insert_swap; apply list_lookup_lookup_total_lt; done.
Qed.

Lemma Swap_l h i j : (i < length h)%nat -> Swap h i j !!! i = h !!! j.
Proof. intros. unfold Swap. apply list_lookup_total_insert_eq. by rewrite length_insert. Qed.

Lemma Swap_r h i j : (j < length h)%nat -> i <> j -> Swap h i j !!! j = h !!! i.
Proof.
  intros. unfold Swap. rewrite list_lookup_total_insert_ne by done. by apply list_lookup_total_insert_eq.
Qed.

Lemma Swap_o h i j k : k <> i -> k <> j -> Swap h i j !!! k = h !!! k.
Proof. intros. unfold Swap. by rewrite !list_lookup_total_insert_ne. Qed.

Lemma Less_true h i j : Less h i j = true -> str_le (h !!! j) (h !!! i).
Proof. apply str_lt_le. Qed.
Lemma Less_false h i j : Less h i j = false -> str_le (h !!! i) (h !!! j).
Proof. done. Qed.

Lemma up_perm fuel h j : (j < length h)%nat -> up fuel h j ≡ₚ h.
Proof.
  revert h j. induction fuel as [|k IH]; intros h j Hj; simpl; [done|].
  destruct_if as E; [done|]. rewrite IH by (rewrite Swap_length; lia). apply Swap_perm; lia.
Qed.

Lemma up_heap fuel h j :
  (j < fuel)%nat -> (j < length h)%nat ->
  (forall i, (0 < i < length h)%nat -> i <> j -> heap_at h i) ->
  (forall i, (0 < i < length h)%nat -> parent i = j -> (0 < j)%nat -> str_le (h !!! i) (h !!! parent j)) ->
  heap (up fuel h j).
Proof.
  revert h j. induction fuel as [|k IH]; intros h j Hf Hj Hh Hc; [lia|]. simpl.
  change ((j - 1) / 2)%nat with (parent j).
  destruct (Nat.eqb_spec (parent j) j) as [E|E]; simpl.
  - intros i Hi. apply Hh; [done|]. unfold parent in *. lia.
  - destruct (Less h j (parent j)) eqn:EL; simpl.
    + assert (parent j < j)%nat by (unfold parent in *; lia).
      apply Less_true in EL. apply IH; rewrite ?Swap_length; try lia.
      * intros i Hi Hne. unfold heap_at. destruct (decide (i = j)) as [->|Hij].
        { rewrite Swap_r, Swap_l by lia. done. }
        rewrite (Swap_o _ _ _ i) by done.
        destruct (decide (parent i = parent j)) as [Ep|Ep].
        { rewrite Ep, Swap_l by lia. transitivity (h !!! parent j); [|done].
          rewrite <- Ep. by apply Hh. }
        destruct (decide (parent i = j)) as [Ej|Ej].
        { rewrite Ej, Swap_r by lia. apply Hc; lia. }
        rewrite Swap_o by done. by apply Hh.
      * intros i Hi Hp Hpos.
        assert (parent (parent j) < parent j)%nat by (unfold parent in *; lia).
        rewrite (Swap_o _ _ _ (parent (parent j))) by lia.
        destruct (decide (i = j)) as [->|Hij].
        { rewrite Swap_r by lia. apply Hh; lia. }
        assert (i <> parent j) by (unfold parent in *; lia).
        rewrite Swap_o by done. transitivity (h !!! parent j).
        { rewrite <- Hp. by apply Hh. } { apply Hh; lia. }
    + apply Less_false in EL. intros i Hi. destruct (decide (i = j)) as [->|]; [done|]. by apply Hh.
Qed.

Lemma down_perm fuel h i : (i < length h)%nat -> down fuel h i (length h) ≡ₚ h.
Proof.
  revert h i. induction fuel as [|k IH]; intros h i Hi; simpl; [done|].
  destruct (Nat.leb_spec (length h) (i + (i + 0) + 1)); [done|].
  set (j1 := (i + (i + 0) + 1)%nat) in *.
  set (j := if ((j1 + 1 <? length h)%nat && Less h (j1 + 1) j1) : bool then (j1 + 1)%nat else j1).
  assert (j < length h)%nat by (unfold j; destruct (Nat.ltb_spec (j1 + 1) (length h)); simpl; [destruct (Less _ _ _)|]; lia).
  destruct (negb _); [done|]. rewrite <- (Swap_length h i j) at 1.
  rewrite IH by (rewrite Swap_length; lia). apply Swap_perm; lia.
Qed.

Lemma down_heap fuel h i :
  (length h <= fuel + i)%nat -> (i < length h)%nat ->
  (forall k, (0 < k < length h)%nat -> parent k <> i -> heap_at h k) ->
  (forall k, (0 < k < length h)%nat -> parent k = i -> (0 < i)%nat -> str_le (h !!! k) (h !!! parent i)) ->
  heap (down fuel h i (length h)).
Proof.
  revert h i. induction fuel as [|f IH]; intros h i Hf Hi Hh Hc; [lia|]. simpl.
  destruct (Nat.leb_spec (length h) (i + (i + 0) + 1)) as [Hl|Hl].
  { intros k Hk. apply Hh; [done|]. unfold parent. lia. }
  set (j1 := (i + (i + 0) + 1)%nat) in *.
  set (j := if ((j1 + 1 <? length h)%nat && Less h (j1 + 1) j1) : bool then (j1 + 1)%nat else j1).
  assert ((j < length h)%nat /\ (i < j)%nat /\ parent j = i /\
          forall k, (0 < k < length h)%nat -> parent k = i -> str_le (h !!! k) (h !!! j)) as (J1 & J2 & J3 & J4).
  { unfold j. destruct (Nat.ltb_spec (j1 + 1) (length h)) as [H1|H1]; simpl.
    - destruct (Less h (j1 + 1) j1) eqn:EL; (split_and!; [unfold parent; lia..|]); intros k Hk Hp;
        (destruct (decide (k = j1)) as [->|]; [|assert (k = j1 + 1)%nat as -> by (unfold parent in *; lia)]);
        first [reflexivity | by apply Less_true | by apply Less_false].
    - split_and!; [unfold parent; lia..|]. intros k Hk Hp.
      assert (k = j1) as -> by (unfold parent in *; lia). reflexivity. }
  clearbody j. destruct (Less h j i) eqn:EL; simpl.
  - apply Less_true in EL. rewrite <- (Swap_length h i j) at 1. apply IH; rewrite ?Swap_length; try lia.
    + intros k Hk Hp. unfold heap_at. destruct (decide (parent k = i)) as [Epi|Epi].
      * rewrite Epi, Swap_l by lia. destruct (decide (k = j)) as [->|]; [by rewrite Swap_r by lia|].
        rewrite Swap_o by (unfold parent in *; lia). by apply J4.
      * rewrite (Swap_o _ _ _ (parent k)) by lia.
        destruct (decide (k = i)) as [->|]; [rewrite Swap_l by lia; apply Hc; lia|].
        rewrite Swap_o by (intros ->; unfold parent in *; lia). by apply Hh.
    + intros k Hk Hp _. rewrite J3, Swap_l by lia.
      assert (k <> i /\ k <> j) as [? ?] by (unfold parent in *; lia).
      rewrite Swap_o by done. rewrite <- Hp. apply Hh; [done|lia].
  - apply Less_false in EL. intros k Hk. destruct (decide (parent k = i)) as [E|E]; [|by apply Hh].
    unfold heap_at. rewrite E. transitivity (h !!! j); [|done]. by apply J4.
Qed.

(** The root of a heap is its largest element. *)
Lemma heap_root h x : heap h -> x ∈ h -> str_le x (h !!! 0%nat).
Proof.
  intros Hh Hx. apply list_elem_of_lookup_total in Hx as (i & Hi & <-).
  induction i as [i IH] using lt_wf_ind. destruct i as [|i]; [reflexivity|].
  transitivity (h !!! parent (S i)); [apply Hh; lia|]. apply IH; unfold parent; lia.
Qed.

Lemma Push_perm h x : Push h x ≡ₚ x :: h.
Proof.
  unfold Push. rewrite up_perm by (rewrite length_app; simpl; lia). by rewrite Permutation_app_comm.
Qed.

Lemma Push_heap h x : heap h -> heap (Push h x).
Proof.
  intros Hh. unfold Push. rewrite length_app. simpl.
  apply up_heap; rewrite ?length_app; simpl; try lia.
  - intros i Hi Hne. unfold heap_at.
    rewrite !lookup_total_app_l by (unfold parent; lia). apply Hh. lia.
  - intros i Hi Hp. unfold parent in *. lia.
Qed.

(** Replacing the root and sifting it down. *)
Lemma Fix0_spec x y h : heap (y :: h) -> heap (Fix0 (x :: h)) /\ Fix0 (x :: h) ≡ₚ x :: h.
Proof.
  intros Hh. unfold Fix0. split; [|apply down_perm; simpl; lia].
  apply down_heap; [simpl; lia..| |lia].
  intros k Hk Hp. specialize (Hh k Hk). unfold heap_at in *.
  destruct k as [|k]; [lia|]. destruct (parent (S k)); [done|]. done.
Qed.

End Heap.

Lemma filter_all {A} (P : A -> Prop) `{forall x, Decision (P x)} (l : list A) :
  (forall x, P x) -> filter P l = l.
Proof. intros HP. induction l as [|x l IH]; [done|]. rewrite filter_cons_True by done. by rewrite IH. Qed.

(** ** The page *)

Import Heap.

(** [after != "" && key <= after] skips a key. *)
Definition eligible (after key : gostring) : Prop := after = [] \/ str_lt after key = true.
#[global] Instance eligible_dec after key : Decision (eligible after key).
Proof. unfold eligible. apply _. Defined.

(** One round of the scan: the eligible count and the heap. *)
Definition page_step (limit : Z) (after : gostring) (st : Z * list gostring) (key : gostring)
    : Z * list gostring :=
  let '(n, keys) := st in
  if negb (bool_decide (eligible after key)) then (n, keys)
  else if len keys <? limit then (n + 1, Push keys key)
  else if (limit >? 0) && str_lt key (keys !!! 0%nat) then (n + 1, Fix0 (<[0%nat := key]> keys))
  else (n + 1, keys).

(** The sorted keys of the page and the eligible count. *)
Definition page_keys (order : list gostring) (limit : Z) (after : gostring) : list gostring * Z :=
  let limit := if limit <? 0 then 0 else limit in
  let '(n, keys) := foldl (page_step limit after) (0, []) order in
  (sort_Strings keys, n).

Definition zeroMember : Member := MkMember [] [] false [] false [] [].

(** [order] is the order in which Go happens to iterate the member map. *)
Definition channelPage (isup : isupport) (order : list gostring) (r : gmap gostring channelState)
    (nm : gostring) (limit : Z) (after : gostring) : option (gostring * list Member * bool) :=
  match r !! foldKey isup nm with
  | None => None
  | Some st =>
      let '(keys, n) := page_keys order limit after in
      let ms := (fun key => default zeroMember (members st !! key)) <$> keys in
      Some (topic st, ms, n >? len ms)
  end.

(** [keys] holds the [limit] smallest of the keys seen. *)
Definition selected (limit : Z) (seen : list gostring) (st : Z * list gostring) : Prop :=
  st.1 = len seen /\ heap st.2 /\ len st.2 = Z.min limit (len seen) /\
  exists rest, st.2 ++ rest ≡ₚ seen /\ forall k x, k ∈ st.2 -> x ∈ rest -> str_le k x.

Lemma page_step_selected limit after seen st key :
  0 <= limit -> eligible after key -> selected limit seen st ->
  selected limit (key :: seen) (page_step limit after st key).
Proof.
  intros Hl He. destruct st as [n keys]. intros (Hn & Hh & Hlen & rest & Hp & Hle). simpl in *. subst n.
  unfold page_step. rewrite bool_decide_eq_true_2 by done. simpl.
  pose proof (len_nonneg seen). pose proof (len_nonneg rest). pose proof (len_nonneg keys).
  assert (len keys + len rest = len seen) as Hsum by (apply Permutation_length in Hp; revert Hp; len_lia).
  destruct (Z.ltb_spec (len keys) limit).
  - (* the heap is not full: nothing has been rejected *)
    assert (rest = []) as -> by (apply len_zero; lia). rewrite app_nil_r in Hp.
    unfold selected. simpl. rewrite len_cons. split; [lia|]. split; [by apply Push_heap|]. split.
    + unfold len in *. rewrite Push_perm. simpl. lia.
    + exists []. rewrite app_nil_r, Push_perm, Hp. split; [done|]. intros ? ? _ []%not_elem_of_nil.
  - destruct keys as [|root keys].
    { rewrite len_nil in *. replace (limit >? 0) with false by lia. simpl.
      unfold selected. simpl. rewrite len_nil, len_cons. split_and!; [lia|done|lia|].
      exists (key :: seen). split; [done|]. by intros ? ? []%not_elem_of_nil. }
    rewrite len_cons in *. pose proof (len_nonneg keys).
    replace (limit >? 0) with true by lia. simpl.
    destruct (str_lt key root) eqn:EL.
    + destruct (Fix0_spec key root keys Hh) as [F1 F2].
      unfold selected. simpl. rewrite len_cons. split; [lia|]. split; [done|]. split.
      { unfold len in *. rewrite F2. simpl in *. lia. }
      exists (root :: rest). split.
      { rewrite F2, <- Hp. simpl. rewrite <- (Permutation_middle keys rest root). done. }
      intros k x Hk Hx. rewrite F2 in Hk. apply elem_of_cons in Hk, Hx.
      destruct Hx as [->|Hx], Hk as [->|Hk].
      * by apply str_lt_le.
      * apply (heap_root _ k Hh). by right.
      * transitivity root; [by apply str_lt_le|]. apply Hle; [by left|done].
      * apply Hle; [by right|done].
    + unfold selected. simpl. rewrite !len_cons in *. split_and!; [lia|done|lia|].
      exists (key :: rest). split; [simpl; rewrite <- Permutation_middle, <- Hp; simpl; apply perm_swap|].
      intros k x Hk Hx. apply elem_of_cons in Hx as [->|Hx]; [|by apply Hle].
      transitivity root; [|exact EL]. by apply (heap_root _ k Hh).
Qed.

Lemma page_scan limit after order seen st :
  0 <= limit -> selected limit seen st ->
  selected limit (rev (filter (eligible after) order) ++ seen) (foldl (page_step limit after) st order).
Proof.
  intros Hl. revert seen st. induction order as [|key order IH]; intros seen st Hs; simpl; [done|].
  rewrite filter_cons. case_decide as He.
  - simpl. rewrite <- app_assoc. apply IH. by apply page_step_selected.
  - apply IH. destruct st as [n keys]. unfold page_step. by rewrite bool_decide_eq_false_2.
Qed.

Lemma sorted_split (a b : list gostring) :
  (forall x y, x ∈ a -> y ∈ b -> str_le x y) -> sort_Strings (a ++ b) = sort_Strings a ++ sort_Strings b.
Proof.
  intros H. apply (StronglySorted_unique str_le); [apply sort_Strings_sorted| |by rewrite !sort_Strings_perm].
  apply StronglySorted_app_2; [|apply sort_Strings_sorted..].
  intros x y Hx Hy. rewrite sort_Strings_perm in Hx, Hy. by apply H.
Qed.

(** Every iteration order gives the reference page. *)
Lemma page_keys_spec order keys limit after :
  order ≡ₚ keys ->
  page_keys order limit after =
    (take (Z.to_nat limit) (sort_Strings (filter (eligible after) keys)), len (filter (eligible after) keys)).
Proof.
  intros Hperm. unfold page_keys.
  set (l := if limit <? 0 then 0 else limit). assert (l = Z.max limit 0) as El by (unfold l; case_match; lia).
  destruct (page_scan l after order [] (0, [])) as (Hn & _ & Hlen & rest & Hp & Hle); [lia| |].
  { unfold selected. simpl. change (len (@nil gostring)) with 0. split_and!; [done|intros i; simpl; lia|lia|].
    exists []. split; [done|]. by intros ? ? []%not_elem_of_nil. }
  destruct (foldl _ _ _) as [n ks]. simpl in *. rewrite app_nil_r in *.
  rewrite <- Permutation_rev, Hperm in Hp.
  assert (len (rev (filter (eligible after) order)) = len (filter (eligible after) keys)) as Elen
    by (unfold len; rewrite length_rev, Hperm; done).
  rewrite Elen in *. rewrite (sort_Strings_unique _ _ (symmetry Hp)), sorted_split by done.
  f_equal; [|done]. apply Permutation_length in Hp. rewrite length_app in Hp. unfold len in *.
  destruct (Z.le_gt_cases l (Z.of_nat (length (filter (eligible after) keys)))).
  - rewrite take_app_length'; [done|]. rewrite sort_Strings_perm. lia.
  - destruct rest; [|simpl in Hp; lia]. change (sort_Strings []) with (@nil gostring).
    rewrite app_nil_r, take_ge; [done|]. rewrite sort_Strings_perm. lia.
Qed.

(** ** Theorems *)

(** Whatever order the member map is iterated in, a page is the first
    [limit] members past the cursor in folded-key order, at most [limit] of
    them are copied, and the truncated bit says exactly whether more members
    lie past the cursor than the page holds. *)
Theorem channelPage_is_sorted_prefix (isup : isupport) (r : gmap gostring channelState) nm limit after order st :
  r !! foldKey isup nm = Some st ->
  order ≡ₚ (map_to_list (members st)).*1 ->
  let ks := sort_Strings (filter (eligible after) (map_to_list (members st)).*1) in
  channelPage isup order r nm limit after =
    Some (topic st, (fun k => default zeroMember (members st !! k)) <$> take (Z.to_nat limit) ks,
          Z.max limit 0 <? len ks).
Proof.
  intros Hst Hperm ks. unfold channelPage. rewrite Hst, (page_keys_spec _ _ _ _ Hperm). do 2 f_equal.
  fold ks. unfold len. rewrite length_fmap, length_take.
  replace (length (filter (eligible after) (map_to_list (members st)).*1)) with (length ks)
    by (unfold ks; by rewrite sort_Strings_perm).
  destruct (Z.ltb_spec (Z.max limit 0) (Z.of_nat (length ks))); lia.
Qed.

(** A client walking the roster: the cursor of the next page is the last
    key of the page before, and each page sees its own iteration order. *)
Fixpoint walk (orders : list (list gostring)) (limit : Z) (after : gostring) : list gostring :=
  match orders with
  | [] => []
  | order :: rest =>
      let '(ks, n) := page_keys order limit after in
      if n >? len ks then ks ++ walk rest limit (default [] (last ks)) else ks
  end.

Definition str_slt (a b : gostring) : Prop := str_lt a b = true.

Lemma sort_Strings_strict l : NoDup l -> StronglySorted str_slt (sort_Strings l).
Proof.
  intros Hnd. assert (NoDup (sort_Strings l)) as Hnd' by (by rewrite sort_Strings_perm).
  pose proof (sort_Strings_sorted l) as Hs. induction Hs as [|x k Hs IH Hx]; [constructor|].
  inversion_clear Hnd'. constructor; [by apply IH|]. rewrite Forall_forall in *. intros y Hy.
  specialize (Hx y Hy). apply str_le_lt_or_eq in Hx as [?| ->]; [done|]. done.
Qed.

(** The keys past the last key of a non-empty page are the ones after it. *)
Lemma next_eligible keys after k a b :
  NoDup keys -> k <> [] ->
  sort_Strings (filter (eligible after) keys) = (a ++ [k]) ++ b ->
  sort_Strings (filter (eligible k) keys) = b.
Proof.
  intros Hnd Hk E.
  pose proof (sort_Strings_strict _ (NoDup_filter _ _ Hnd) : StronglySorted str_slt (sort_Strings (filter (eligible after) keys))) as Hs.
  assert (forall x, x ∈ keys /\ eligible after x <-> x ∈ a \/ x = k \/ x ∈ b) as Hin.
  { intros x. transitivity (x ∈ sort_Strings (filter (eligible after) keys)).
    - rewrite sort_Strings_perm, list_elem_of_filter. tauto.
    - rewrite E, !elem_of_app, list_elem_of_singleton. tauto. }
  rewrite E in Hs. apply StronglySorted_app in Hs as (Hab & Ha & Hb).
  assert (forall x, x ∈ a -> str_slt x k) as Hak.
  { apply StronglySorted_app in Ha as (Ha & _ & _). intros x Hx. apply Ha; [done|]. by apply list_elem_of_singleton. }
  assert (forall x, x ∈ b -> str_slt k x) as Hkb.
  { intros x Hx. apply Hab; [|done]. apply elem_of_app. right. by apply list_elem_of_singleton. }
  apply (StronglySorted_unique str_le); [apply sort_Strings_sorted| |].
  { clear -Hb. induction Hb as [|x l Hb IH Hx]; constructor; [done|].
    eapply Forall_impl; [exact Hx|]. intros y. apply str_lt_le. }
  rewrite sort_Strings_perm. apply NoDup_Permutation; [by apply NoDup_filter| |].
  { clear -Hb. induction Hb as [|x l Hb IH Hx]; constructor; [|done]. intros Hin.
    rewrite Forall_forall in Hx. specialize (Hx x Hin). unfold str_slt in Hx. by rewrite str_lt_irrefl in Hx. }
  intros x. rewrite list_elem_of_filter. split.
  - intros [[?|Hx] Hxk]; [done|]. destruct (proj1 (Hin x)) as [Hxa|[->|?]]; [|..|done].
    + split; [done|]. destruct (proj2 (Hin k) ltac:(tauto)) as [_ [?|?]]; [by left|right].
      by eapply str_lt_trans.
    + apply Hak in Hxa. unfold str_slt in Hxa. apply str_lt_asym in Hxa. congruence.
    + by rewrite str_lt_irrefl in Hx.
  - intros Hx. split; [right; by apply Hkb|]. apply Hin. tauto.
Qed.

Lemma walk_from keys limit after orders :
  2 <= limit -> NoDup keys -> Forall (fun o => o ≡ₚ keys) orders ->
  (length (filter (eligible after) keys) < length orders)%nat ->
  walk orders limit after = sort_Strings (filter (eligible after) keys).
Proof.
  intros Hl Hnd Ho. revert after. induction Ho as [|o orders Hp Ho IH]; intros after Hlen; simpl in *; [lia|].
  rewrite (page_keys_spec _ _ _ _ Hp).
  set (S := sort_Strings (filter (eligible after) keys)).
  assert (length (filter (eligible after) keys) = length S) as EL by (unfold S; by rewrite sort_Strings_perm).
  unfold len. rewrite length_take, EL in *.
  destruct (Z.gtb_spec (Z.of_nat (length S)) (Z.of_nat (Z.to_nat limit `min` length S))); [|apply take_ge; lia].
  pose proof (take_drop (Z.to_nat limit) S) as Etd.
  destruct (take (Z.to_nat limit) S) as [|k a _] eqn:Et using rev_ind;
    [apply (f_equal length) in Et; rewrite length_take in Et; simpl in Et; lia|].
  rewrite last_snoc. simpl.
  assert (k <> []) as Hk.
  { intros ->. destruct a as [|x a].
    { apply (f_equal length) in Et. rewrite length_take in Et. simpl in Et. lia. }
    pose proof (sort_Strings_strict _ (NoDup_filter (eligible after) _ Hnd)) as Hs. fold S in Hs.
    rewrite <- Etd in Hs. apply StronglySorted_app in Hs as (_ & Hs & _).
    apply StronglySorted_app in Hs as (Hs & _ & _). specialize (Hs x [] ltac:(by left) ltac:(by left)).
    unfold str_slt in Hs. by destruct x. }
  pose proof (next_eligible keys after k a _ Hnd Hk (eq_sym Etd)) as En.
  rewrite IH.
  - by rewrite En, Etd.
  - replace (length (filter (eligible k) keys)) with (length (drop (Z.to_nat limit) S))
      by (rewrite <- En, sort_Strings_perm; done).
    rewrite length_drop. lia.
Qed.

(** Walking the pages by cursor visits every member of an unchanging
    channel exactly once, in folded-key order, whatever page size (of at least
    two) is used and however the map is iterated for each page, and the walk
    ends. *)
Theorem paging_complete (ms : gmap gostring Member) limit orders :
  2 <= limit -> Forall (fun o => o ≡ₚ (map_to_list ms).*1) orders ->
  (size ms < length orders)%nat ->
  walk orders limit [] = sort_Strings (map_to_list ms).*1.
Proof.
  intros Hl Ho Hlen.
  assert (filter (eligible []) (map_to_list ms).*1 = (map_to_list ms).*1) as E
    by (apply filter_all; intros; by left).
  rewrite (walk_from (map_to_list ms).*1), E; try done; [apply NoDup_fst_map_to_list|].
  by rewrite E, length_fmap, length_map_to_list.
Qed.

(** Three members, pages of two. *)
Definition three : gmap gostring Member :=
  list_to_map [(§"bob", zeroMember); (§"al", zeroMember); (§"cy", zeroMember)].

Lemma three_order : [§"cy"; §"al"; §"bob"] ≡ₚ (map_to_list three).*1.
Proof.
  transitivity [(§"bob", zeroMember); (§"al", zeroMember); (§"cy", zeroMember)].*1.
  - exact (Permutation_rev [§"cy"; §"al"; §"bob"]).
  - apply fmap_Permutation. symmetry. unfold three. apply map_to_list_to_map.
    apply (bool_decide_unpack _). vm_compute. exact I.
Qed.

Lemma paging_complete_witness :
  walk (replicate 4 [§"cy"; §"al"; §"bob"]) 2 [] = sort_Strings (map_to_list three).*1.
Proof.
  apply (paging_complete three 2 (replicate 4 [§"cy"; §"al"; §"bob"])).
  - lia.
  - apply Forall_replicate. exact three_order.
  - apply Nat.ltb_lt. vm_compute. reflexivity.
Defined.

Lemma channelPage_is_sorted_prefix_witness :
  channelPage newISupport [§"cy"; §"al"; §"bob"]
      {[ §"#c" := MkChannel (§"#C") (§"hi") three None 0 ]} (§"#C") 1 (§"al")
  = Some (§"hi", [zeroMember], true).
Proof.
  rewrite (channelPage_is_sorted_prefix newISupport _ (§"#C") 1 (§"al") [§"cy"; §"al"; §"bob"]
             (MkChannel (§"#C") (§"hi") three None 0)).
  - vm_compute. reflexivity.
  - vm_compute. reflexivity.
  - exact three_order.
Defined.
