(* ===== verification/Pacing.v ===== *)
(** * Connection pacing and input bounds

    Three small state machines of internal/irc: the reconnect backoff
    (backoff.go), the outbound token bucket (ratelimit.go) and the bounded
    line reader (linereader.go).  Durations are [int64] nanoseconds, with
    their wrap-around written out; instants are nanoseconds since Go's zero
    time. *)

From S2P Require Import Prelude GoStrings.

(** ** Reconnect backoff (backoff.go) *)

Module Backoff.

Record BackoffConfig := MkConfig { Min : Z; Max : Z; Stable : Z }.

Record backoff := MkBackoff { cfg : BackoffConfig; attempt : Z }.

Definition newBackoff (c : BackoffConfig) : backoff :=
  let mn := if Min c <=? 0 then 2 * Second else Min c in
  let mx := if Max c <=? 0 then 5 * Minute else Max c in
  let mx := if mx <? mn then mn else mx in
  let st := if Stable c <=? 0 then 30 * Second else Stable c in
  MkBackoff (MkConfig mn mx st) 0.

(** Go's [x << n] on [int64]: bits shifted out are lost. *)
Definition shl64 (x n : Z) : Z := wrap64 (Z.shiftl x n).

(** [rnd] is the random source: a duration in [[0, d)]. *)
Definition next (rnd : Z -> Z) (b : backoff) : Z * backoff :=
  let shifted := shl64 (Min (cfg b)) (attempt b) in
  let '(d, b') :=
    if (shifted >? 0) && (shifted <? Max (cfg b))
    then (shifted, MkBackoff (cfg b) (attempt b + 1))
    else (Max (cfg b), b) in
  let half := Z.quot d 2 in
  if half <=? 0 then (d, b') else (half + rnd half, b').

Definition reset (b : backoff) : backoff := MkBackoff (cfg b) 0.

Definition settle (uptime : Z) (b : backoff) : backoff :=
  if Stable (cfg b) <=? uptime then reset b else b.

(** The undisturbed ladder: [n] delays in a row from [b]. *)
Fixpoint ladder (rnds : list (Z -> Z)) (b : backoff) : list Z :=
  match rnds with
  | [] => []
  | rnd :: rest => let '(d, b') := next rnd b in d :: ladder rest b'
  end.

(** A configuration [newBackoff] produces from [int64] values. *)
Definition cfg_ok (c : BackoffConfig) : Prop := 0 < Min c <= Max c /\ Max c <= maxInt64.

(** The attempt counter stays where no shift has passed the cap. *)
Definition bo_ok (b : backoff) : Prop :=
  cfg_ok (cfg b) /\ 0 <= attempt b /\
  (attempt b = 0 \/ Min (cfg b) * 2 ^ (attempt b - 1) < Max (cfg b)).

Lemma newBackoff_ok c : Min c <= maxInt64 -> Max c <= maxInt64 -> bo_ok (newBackoff c).
Proof.
  intros H1 H2. unfold bo_ok, cfg_ok, newBackoff, maxInt64, Second, Minute, Second, Millisecond in *.
  simpl. split; [|split; [lia|tauto]].
  destruct (Z.leb_spec (Min c) 0), (Z.leb_spec (Max c) 0); case_match; lia.
Qed.

(** The shift never wraps to a small positive number: it is exact below the
    cap, and at or above it either exact or negative. *)
Lemma shl64_exact b :
  bo_ok b ->
  let x := Min (cfg b) * 2 ^ attempt b in
  (x < Max (cfg b) -> shl64 (Min (cfg b)) (attempt b) = x) /\
  (Max (cfg b) <= x -> shl64 (Min (cfg b)) (attempt b) <= 0 \/
                       Max (cfg b) <= shl64 (Min (cfg b)) (attempt b)).
Proof.
  intros ([Hm HM] & Ha & Hp) x. unfold shl64, maxInt64 in *. rewrite Z.shiftl_mul_pow2 by lia.
  fold x. assert (0 < x < 2 ^ 64) as Hx.
  { pose proof (Z.pow_pos_nonneg 2 (attempt b) ltac:(lia) ltac:(lia)).
    destruct (Z.eq_dec (attempt b) 0) as [E0|Hne].
    - unfold x. rewrite E0, Z.pow_0_r. lia.
    - destruct Hp as [?|Hp]; [lia|].
      assert (2 ^ attempt b = 2 * 2 ^ (attempt b - 1)) as E1
        by (rewrite <- Z.pow_succ_r by lia; f_equal; lia).
      unfold x. rewrite E1 in *. nia. }
  clearbody x. unfold wrap64. split; intros Hc.
  - rewrite Z.mod_small by lia. lia.
  - destruct (Z.lt_ge_cases x (2 ^ 63)).
    + right. rewrite Z.mod_small by lia. lia.
    + left. replace (x + 2 ^ 63) with (x - 2 ^ 63 + 1 * 2 ^ 64) by lia.
      rewrite Z.mod_add, Z.mod_small by lia. lia.
Qed.

(** What one call returns, and how the ladder advances. *)
Lemma next_spec rnd b :
  bo_ok b -> (forall h, 0 < h -> 0 <= rnd h < h) ->
  let d := Z.min (Min (cfg b) * 2 ^ attempt b) (Max (cfg b)) in
  d / 2 <= (next rnd b).1 <= d /\ ((next rnd b).1 = d -> d = 1) /\
  cfg (next rnd b).2 = cfg b /\ bo_ok (next rnd b).2 /\
  attempt (next rnd b).2 =
    (if Min (cfg b) * 2 ^ attempt b <? Max (cfg b) then attempt b + 1 else attempt b).
Proof.
  intros Hok Hr d. destruct (shl64_exact b Hok) as [Hlt Hge].
  destruct Hok as ([Hm HM] & Ha & Hp). unfold next.
  assert (0 < 2 ^ attempt b) by (apply Z.pow_pos_nonneg; lia).
  assert (forall d, 0 < d -> let r := if Z.quot d 2 <=? 0 then d else Z.quot d 2 + rnd (Z.quot d 2) in
            d / 2 <= r <= d /\ (r = d -> d = 1)) as Hhalf.
  { intros e He. cbv zeta. rewrite Z.quot_div_nonneg by lia.
    pose proof (Z.div_mod e 2 ltac:(lia)). pose proof (Z.mod_pos_bound e 2 ltac:(lia)).
    destruct (Z.leb_spec (e / 2) 0); [lia|]. specialize (Hr (e / 2) ltac:(lia)). lia. }
  destruct (Z.lt_ge_cases (Min (cfg b) * 2 ^ attempt b) (Max (cfg b))) as [Hc|Hc].
  - rewrite (Hlt Hc). assert (0 < Min (cfg b) * 2 ^ attempt b) by nia.
    rewrite (proj2 (Z.ltb_lt _ _) Hc), (proj2 (Z.gtb_lt _ _)) by lia. cbn [andb].
    replace d with (Min (cfg b) * 2 ^ attempt b) by lia. specialize (Hhalf (Min (cfg b) * 2 ^ attempt b) ltac:(lia)).
    destruct (_ <=? 0); simpl in *; (split; [lia|]); split; [lia| |lia|].
    all: split; [done|]; split; [|done]; split_and!; simpl; try done; try lia.
    all: right; by replace (attempt b + 1 - 1) with (attempt b) by lia.
  - assert ((shl64 (Min (cfg b)) (attempt b) >? 0) && (shl64 (Min (cfg b)) (attempt b) <? Max (cfg b)) = false) as ->
      by (specialize (Hge Hc); lia).
    rewrite (proj2 (Z.ltb_ge _ _)) by lia.
    replace d with (Max (cfg b)) by lia. specialize (Hhalf (Max (cfg b)) ltac:(lia)).
    destruct (_ <=? 0); simpl in *; (split; [lia|]); split; [lia| |lia|]; done.
Qed.

(** The ladder from any state at or past rung [k]. *)
Lemma ladder_spec rnds n b k d :
  Forall (fun rnd => forall h, 0 < h -> 0 <= rnd h < h) rnds ->
  bo_ok b -> attempt b <= k ->
  (attempt b = k \/ Max (cfg b) <= Min (cfg b) * 2 ^ attempt b) ->
  ladder rnds b !! n = Some d ->
  let dn := Z.min (Min (cfg b) * 2 ^ (k + Z.of_nat n)) (Max (cfg b)) in
  dn / 2 <= d <= dn /\ (d = dn -> dn = 1).
Proof.
  intros Hr. revert n b k. induction Hr as [|rnd rnds Hrnd _ IH]; intros n b k Hok Hle Hk Hn; [done|].
  simpl in Hn. pose proof (next_spec rnd b Hok Hrnd) as Hs. destruct (next rnd b) as [d1 b1].
  simpl in Hs. destruct Hs as (S1 & S2 & S3 & S4 & S5).
  destruct Hok as ([[Hm1 Hm2] _] & Ha & _).
  assert (2 ^ attempt b <= 2 ^ k) as Hpow by (apply Z.pow_le_mono_r; lia).
  destruct n as [|n]; simpl in Hn.
  - simplify_eq. replace (k + Z.of_nat 0) with k by lia.
    destruct Hk as [<-|Hk]; [done|].
    replace (Z.min (Min (cfg b) * 2 ^ k) (Max (cfg b)))
      with (Z.min (Min (cfg b) * 2 ^ attempt b) (Max (cfg b))) by nia.
    done.
  - replace (k + Z.of_nat (S n)) with ((k + 1) + Z.of_nat n) by lia.
    rewrite <- S3. apply (IH n b1 (k + 1)); try done; rewrite ?S3.
    + destruct (_ <? _); lia.
    + destruct (Z.ltb_spec (Min (cfg b) * 2 ^ attempt b) (Max (cfg b))).
      * left. destruct Hk; lia.
      * right. rewrite S5. done.
Qed.

(** Successive reconnect delays climb the ladder min(Min*2^n, Max): the
    n-th delay lies between half of it and itself, whatever the [int64]
    configuration and the attempt count; the shift's overflow is never
    mistaken for a short delay. *)
Theorem backoff_ladder c rnds n d :
  Min c <= maxInt64 -> Max c <= maxInt64 ->
  Forall (fun rnd => forall h, 0 < h -> 0 <= rnd h < h) rnds ->
  ladder rnds (newBackoff c) !! n = Some d ->
  let c' := cfg (newBackoff c) in
  let dn := Z.min (Min c' * 2 ^ Z.of_nat n) (Max c') in
  dn / 2 <= d <= dn /\ (d = dn -> dn = 1).
Proof.
  intros H1 H2 Hr Hn. apply (ladder_spec rnds n (newBackoff c) 0 d Hr); try done.
  - by apply newBackoff_ok.
  - by left.
Qed.

(** Only a connection that stayed registered for at least [Stable]
    restarts the ladder; a shorter one keeps its place on it. *)
Theorem settle_needs_stability c uptime b :
  cfg b = cfg (newBackoff c) ->
  (Stable (cfg b) <= uptime -> attempt (settle uptime b) = 0) /\
  (uptime < Stable (cfg b) -> settle uptime b = b) /\ 0 < Stable (cfg b).
Proof.
  intros Hc. unfold settle. split_and!.
  - intros H. by rewrite (proj2 (Z.leb_le _ _)).
  - intros H. by rewrite (proj2 (Z.leb_gt _ _)).
  - rewrite Hc. unfold newBackoff, Second, Millisecond. simpl. case_match; lia.
Qed.

Lemma backoff_ladder_witness :
  ladder [(fun h => h - 1); (fun _ => 0); (fun _ => 0)] (newBackoff (MkConfig 0 (5 * Second) 0)) !! 2%nat
    = Some 2500000000 /\ 2500000000 <= 5 * Second.
Proof.
  set (rs := [(fun h => h - 1); (fun _ => 0); (fun _ => 0)] : list (Z -> Z)).
  assert (ladder rs (newBackoff (MkConfig 0 (5 * Second) 0)) !! 2%nat = Some 2500000000) as E
    by (vm_compute; reflexivity).
  split; [exact E|].
  refine (proj2 (proj1 (backoff_ladder (MkConfig 0 (5 * Second) 0) rs 2 2500000000 _ _ _ E))).
  - by vm_compute.
  - by vm_compute.
  - repeat constructor; lia.
Defined.

Lemma settle_needs_stability_witness :
  settle (29 * Second) (MkBackoff (cfg (newBackoff (MkConfig 0 0 0))) 4)
    = MkBackoff (cfg (newBackoff (MkConfig 0 0 0))) 4.
Proof.
  apply (settle_needs_stability (MkConfig 0 0 0)); [reflexivity|]. by vm_compute.
Defined.

End Backoff.

(** ** Outbound token bucket (ratelimit.go) *)

Module TokenBucket.

Record tokenBucket := MkBucket { interval : Z; window : Z; at_ : Z }.

(** [time.Time]'s zero value is instant 0. *)
Definition newTokenBucket (burst itv : Z) : tokenBucket :=
  MkBucket itv (wrap64 (burst * itv)) 0.

Definition reserve (tb : tokenBucket) (now : Z) : Z * tokenBucket :=
  let at0 := if at_ tb <? now then now else at_ tb in
  let at1 := at0 + interval tb in
  (wrap64 (sat64 (at1 - now) - window tb), MkBucket (interval tb) (window tb) at1).

(** [wait] called at [now]: the instant at which it returns nil.  A timer
    fires [late] nanoseconds after its deadline. *)
Definition wait (tb : tokenBucket) (now late : Z) : Z * tokenBucket :=
  let '(d, tb') := reserve tb now in
  if d <=? 0 then (now, tb') else (now + d + late, tb').

(** The single writer: it asks for the next message [gap] after it sent the
    previous one; the result is the list of send instants. *)
Fixpoint sends (tb : tokenBucket) (t : Z) (evs : list (Z * Z)) : list Z :=
  match evs with
  | [] => []
  | (gap, late) :: rest => let '(s, tb') := wait tb (t + gap) late in s :: sends tb' s rest
  end.

Definition bucket_ok (tb : tokenBucket) : Prop :=
  0 < interval tb /\ 0 <= window tb /\ interval tb + window tb <= maxInt64.

(** One [wait] by a writer that is not ahead of the bucket: the message
    leaves no earlier than its slot minus the window, and the caller is not
    held for more than one interval. *)
Lemma wait_spec tb now late :
  bucket_ok tb -> at_ tb - window tb <= now -> 0 <= late ->
  let '(s, tb') := wait tb now late in
  interval tb' = interval tb /\ window tb' = window tb /\
  at_ tb' = Z.max (at_ tb) now + interval tb /\
  at_ tb' - window tb' <= s /\ now <= s <= now + interval tb + late.
Proof.
  intros (Hi & Hw & Hm) Hn Hl. unfold wait, reserve.
  set (a := if at_ tb <? now then now else at_ tb).
  assert (a = Z.max (at_ tb) now) as Ea by (unfold a; destruct (Z.ltb_spec (at_ tb) now); lia).
  unfold sat64, wrap64, maxInt64, minInt64 in *. rewrite Z.max_r, Z.min_r by lia.
  rewrite (Z.mod_small (_ - _ + _)) by lia.
  destruct (Z.leb_spec (a + interval tb - now - window tb + 2 ^ 63 - 2 ^ 63) 0); simpl; lia.
Qed.

Lemma sends_after tb t evs k s :
  bucket_ok tb -> at_ tb - window tb <= t ->
  Forall (fun e => 0 <= e.1 /\ 0 <= e.2) evs ->
  sends tb t evs !! k = Some s ->
  Z.max (at_ tb) t + (Z.of_nat k + 1) * interval tb - window tb <= s /\ t <= s.
Proof.
  intros Hok Ht He. revert tb t k Hok Ht.
  induction He as [|[gap late] evs [Hg Hl] _ IH]; intros tb t k Hok Ht Hk; [done|].
  simpl in *. pose proof (wait_spec tb (t + gap) late Hok ltac:(lia) Hl) as Hs.
  destruct (wait tb (t + gap) late) as [s1 tb1].
  destruct Hs as (E1 & E2 & E3 & E4 & E5), Hok as (Hi & Hw & Hm).
  destruct k as [|k]; simpl in Hk.
  - simplify_eq. lia.
  - specialize (IH tb1 s1 k). unfold bucket_ok in IH. rewrite E1, E2 in *.
    destruct IH as [IH1 IH2]; [done|lia|done|]. nia.
Qed.

Lemma sends_later tb t evs i k si sk :
  bucket_ok tb -> at_ tb - window tb <= t ->
  Forall (fun e => 0 <= e.1 /\ 0 <= e.2) evs ->
  sends tb t evs !! i = Some si -> sends tb t evs !! (i + k)%nat = Some sk ->
  Z.of_nat k * interval tb <= sk - si + window tb.
Proof.
  intros Hok Ht He. revert tb t i Hok Ht.
  induction He as [|[gap late] evs [Hg Hl] He IH]; intros tb t i Hok Ht Hi Hk; [done|].
  simpl in *. pose proof (wait_spec tb (t + gap) late Hok ltac:(lia) Hl) as Hs.
  destruct (wait tb (t + gap) late) as [s1 tb1].
  destruct Hs as (E1 & E2 & E3 & E4 & E5).
  assert (bucket_ok tb1) as Hok1 by (unfold bucket_ok in *; rewrite E1, E2; done).
  destruct i as [|i]; simpl in Hi, Hk.
  - simplify_eq. destruct k as [|k]; simpl in Hk; [simplify_eq; destruct Hok; lia|].
    destruct (sends_after tb1 si evs k sk Hok1) as [H1 _]; [lia|done|done|].
    rewrite E1, E2 in H1. lia.
  - rewrite <- E1, <- E2. apply (IH tb1 s1 i Hok1); done.
Qed.

(** The outbound rate is bounded over every stretch of the
    connection: [k] messages after any message, at least [k - burst] intervals
    have passed, however the writer is scheduled and however late the timers
    fire. *)
Theorem token_bucket_paced burst itv t evs i k si sk :
  0 < itv -> 0 <= burst -> (burst + 1) * itv <= maxInt64 -> 0 <= t ->
  Forall (fun e => 0 <= e.1 /\ 0 <= e.2) evs ->
  sends (newTokenBucket burst itv) t evs !! i = Some si ->
  sends (newTokenBucket burst itv) t evs !! (i + k)%nat = Some sk ->
  (Z.of_nat k - burst) * itv <= sk - si.
Proof.
  intros Hi Hb Hm Ht He H1 H2.
  assert (wrap64 (burst * itv) = burst * itv) as E
    by (unfold wrap64, maxInt64 in *; rewrite Z.mod_small; nia).
  assert (bucket_ok (newTokenBucket burst itv)) as Hok
    by (unfold bucket_ok; simpl; rewrite E; nia).
  pose proof (sends_later _ t evs i k si sk Hok ltac:(simpl; rewrite E; nia) He H1 H2) as H.
  simpl in H. rewrite E in H. lia.
Qed.

(** Five messages asked for at once with a burst of three: the first three
    leave together, the rest one interval apart. *)
Lemma token_bucket_paced_witness :
  let s := sends (newTokenBucket 3 100) 1000 (replicate 5 (0, 0)) in
  s = [1000; 1000; 1000; 1100; 1200] /\ (4 - 3) * 100 <= 1200 - 1000.
Proof.
  split; [by vm_compute|].
  apply (token_bucket_paced 3 100 1000 (replicate 5 (0, 0)) 0 4 1000 1200);
    first [by vm_compute | apply Forall_replicate; simpl; lia].
Defined.

End TokenBucket.

(** ** Bounded line reader (linereader.go) *)

Module LineReader.

Definition defaultIncomingLine : Z := 16 * 1024.
Definition maxIncomingLineCeiling : Z := 64 * 1024.
Definition maxTagBytes : Z := 8191.

Record boundedLineReader := MkReader { max : Z; run : Z }.

Definition newBoundedLineReader : boundedLineReader := MkReader defaultIncomingLine 0.

Definition setLimit (want : Z) (b : boundedLineReader) : boundedLineReader :=
  let want :=
    if want <? defaultIncomingLine then defaultIncomingLine
    else if want >? maxIncomingLineCeiling then maxIncomingLineCeiling
    else want in
  MkReader want (run b).

Definition midLine (b : boundedLineReader) : bool := run b >? 0.

Definition newline : byte := x0a.

(** The loop over the bytes the underlying reader returned: the new count
    and whether the limit held. *)
Fixpoint count_run (mx : Z) (p : gostring) (r : Z) : Z * bool :=
  match p with
  | [] => (r, true)
  | c :: p' =>
      if c == newline then count_run mx p' 0
      else if r + 1 >? mx then (r + 1, false) else count_run mx p' (r + 1)
  end.

(** [Read] when the underlying reader delivered [p]; false is the error that
    tears the connection down. *)
Definition Read (p : gostring) (b : boundedLineReader) : boundedLineReader * bool :=
  let '(r, ok) := count_run (max b) p (run b) in (MkReader (max b) r, ok).

(** What the read loop does with the reader, in order. *)
Inductive event := ERead (p : gostring) | ELimit (want : Z).

Fixpoint reads (evs : list event) (b : boundedLineReader) : boundedLineReader * bool :=
  match evs with
  | [] => (b, true)
  | ERead p :: rest => let '(b', ok) := Read p b in if ok then reads rest b' else (b', false)
  | ELimit w :: rest => reads rest (setLimit w b)
  end.

Definition received (evs : list event) : gostring :=
  concat ((fun e => match e with ERead p => p | ELimit _ => [] end) <$> evs).

(** A newline-free stretch of a stream. *)
Definition stretch (l s : gostring) : Prop :=
  (newline ∉ l) /\ exists a b, s = a ++ l ++ b.

Lemma setLimit_clamped w b :
  defaultIncomingLine <= max (setLimit w b) <= maxIncomingLineCeiling.
Proof.
  unfold setLimit, defaultIncomingLine, maxIncomingLineCeiling. simpl.
  repeat case_match; lia.
Qed.

(** The unfinished line at the end of a stream. *)
Fixpoint tail_line (s acc : gostring) : gostring :=
  match s with
  | [] => acc
  | c :: s' => tail_line s' (if c == newline then [] else acc ++ [c])
  end.

(** The count is the length of the unfinished line. *)
Lemma count_run_tail mx p acc :
  (count_run mx p (len acc)).2 = true -> (count_run mx p (len acc)).1 = len (tail_line p acc).
Proof.
  revert acc. induction p as [|c p IH]; intros acc; simpl; [done|].
  destruct (c == newline); [apply (IH [])|].
  destruct (len acc + 1 >? mx); [done|].
  replace (len acc + 1) with (len (acc ++ [c])) by (rewrite len_app; done). apply IH.
Qed.

Lemma tail_line_stretch s acc : newline ∉ acc -> stretch (tail_line s acc) (acc ++ s).
Proof.
  revert acc. induction s as [|c s IH]; intros acc Hacc; simpl.
  - split; [done|]. exists [], []. by rewrite !app_nil_r.
  - destruct (decide (c = newline)) as [->|Hc].
    + rewrite bool_decide_eq_true_2 by done. destruct (IH []) as (H1 & a & b & E); [apply not_elem_of_nil|].
      split; [done|]. exists (acc ++ newline :: a), b. rewrite <- app_assoc. simpl in *. by rewrite E at 1.
    + rewrite bool_decide_eq_false_2 by done. destruct (IH (acc ++ [c])) as (H1 & a & b & E); [set_solver|].
      split; [done|]. exists a, b. by rewrite <- E, <- app_assoc.
Qed.

(** The scan succeeds exactly when no line grows past the limit. *)
Lemma count_run_ok mx p acc :
  0 <= mx -> newline ∉ acc -> len acc <= mx ->
  (count_run mx p (len acc)).2 = true <->
  (forall l, stretch l (acc ++ p) -> len l <= mx).
Proof.
  intros Hmx. revert acc. induction p as [|c p IH]; intros acc Hacc Hle; simpl.
  - split; [|done]. intros _ l (_ & a & b & E). rewrite app_nil_r in E. subst acc.
    rewrite !len_app in Hle. pose proof (len_nonneg a). pose proof (len_nonneg b). lia.
  - destruct (decide (c = newline)) as [->|Hc].
    + rewrite bool_decide_eq_true_2 by done.
      rewrite (IH []); [|apply not_elem_of_nil|done]. simpl. split; intros H l (Hl & a & b & E).
      * (* a newline-free stretch lies on one side of the newline *)
        apply app_eq_inv in E as [(k & -> & E)|(k & -> & E)].
        -- destruct k as [|k1 k].
           ++ simpl in E. destruct l as [|? l]; [done|].
              inversion E; subst. set_solver.
           ++ apply app_eq_inv in E as [(k' & -> & E')|(k' & E & E')].
              ** destruct k' as [|? k']; [rewrite app_nil_r in *|].
                 { rewrite len_app in Hle. pose proof (len_nonneg a). lia. }
                 inversion E'; subst. set_solver.
              ** rewrite len_app, E, len_app in Hle.
                 pose proof (len_nonneg a). pose proof (len_nonneg k'). lia.
        -- destruct k as [|? k]; simpl in E.
           ++ destruct l as [|? l]; [done|]. inversion E; subst. set_solver.
           ++ inversion E; subst. apply H. split; [done|]. by exists k, b.
      * apply H. split; [done|]. exists (acc ++ newline :: a), b.
        rewrite E, <- app_assoc. done.
    + rewrite bool_decide_eq_false_2 by done.
      replace (len acc + 1) with (len (acc ++ [c])) by (rewrite len_app; done).
      destruct (Z.gtb_spec (len (acc ++ [c])) mx).
      * split; [done|]. intros H0. exfalso.
        enough (len (acc ++ [c]) <= mx) by lia. apply H0. split.
        { set_solver. } { exists [], p. by rewrite <- app_assoc. }
      * rewrite IH; [|set_solver|lia]. by rewrite <- app_assoc.
Qed.

Lemma count_run_app mx p q r :
  count_run mx (p ++ q) r =
  let '(r', ok) := count_run mx p r in if ok then count_run mx q r' else (r', false).
Proof. revert r. induction p as [|c p IH]; intros r; simpl; [done|]. destruct (c == newline); [apply IH|]. destruct (_ >? _); [done|apply IH]. Qed.

(** A higher limit accepts whatever a lower one did, with the same count. *)
Lemma count_run_mono mx mx' p r :
  mx <= mx' -> (count_run mx p r).2 = true -> count_run mx' p r = count_run mx p r.
Proof.
  intros Hle. revert r. induction p as [|c p IH]; intros r; simpl; [done|].
  destruct (c == newline); [apply IH|].
  destruct (Z.gtb_spec (r + 1) mx); [done|]. destruct (Z.gtb_spec (r + 1) mx'); [lia|]. apply IH.
Qed.

(** Whatever was accepted under the limits in force, the ceiling accepts. *)
Lemma reads_ceiling evs b b' :
  max b <= maxIncomingLineCeiling -> reads evs b = (b', true) ->
  count_run maxIncomingLineCeiling (received evs) (run b) = (run b', true).
Proof.
  revert b. induction evs as [|[p|w] evs IH]; intros b Hm Hr; simpl in Hr.
  - by simplify_eq.
  - unfold Read in Hr. destruct (count_run (max b) p (run b)) as [r []] eqn:E; [|done].
    unfold received. simpl. rewrite count_run_app, (count_run_mono (max b)), E by (done || by rewrite E).
    apply (IH (MkReader (max b) r)); done.
  - apply (IH (setLimit w b)); [apply setLimit_clamped|done].
Qed.

Lemma reads_fixed ps b :
  reads (ERead <$> ps) b = let '(r, ok) := count_run (max b) (concat ps) (run b) in (MkReader (max b) r, ok).
Proof.
  revert b. induction ps as [|p ps IH]; intros b; simpl; [by destruct b|].
  unfold Read. rewrite count_run_app. destruct (count_run (max b) p (run b)) as [r []]; [|done]. apply (IH (MkReader (max b) r)).
Qed.

(** However the stream is cut into reads, the reader accepts it exactly
    when none of its lines exceeds the (clamped) limit, and then the count it
    keeps between reads is the length of the unfinished line, so [midLine]
    tells whether there is one. *)
Theorem line_reader_exact w ps :
  let b := setLimit w newBoundedLineReader in
  let '(b', ok) := reads (ERead <$> ps) b in
  (ok = true <-> forall l, stretch l (concat ps) -> len l <= max b) /\
  (ok = true -> run b' = len (tail_line (concat ps) [])
                /\ (midLine b' = true <-> tail_line (concat ps) [] <> [])).
Proof.
  intros b. rewrite reads_fixed. pose proof (setLimit_clamped w newBoundedLineReader) as Hc. fold b in Hc.
  unfold defaultIncomingLine in Hc. change (run b) with (len (@nil byte)).
  pose proof (count_run_ok (max b) (concat ps) [] ltac:(lia) ltac:(apply not_elem_of_nil) ltac:(rewrite len_nil; lia)) as Hok.
  pose proof (count_run_tail (max b) (concat ps) []) as Ht.
  destruct (count_run (max b) (concat ps) (len [])) as [r ok]. simpl in *.
  split; [done|]. intros H. specialize (Ht H). subst r. split; [done|]. unfold midLine. simpl.
  destruct (tail_line _ _); [done|]. rewrite len_cons. pose proof (len_nonneg l). split; [done|lia].
Qed.

(** Whatever limits the server's LINELEN advertisements asked for and
    whenever they came, no line of what was accepted is longer than the hard
    ceiling: the parser's buffer is bounded. *)
Theorem line_reader_bounded evs b' :
  reads evs newBoundedLineReader = (b', true) ->
  0 <= run b' <= maxIncomingLineCeiling /\
  forall l, stretch l (received evs) -> len l <= maxIncomingLineCeiling.
Proof.
  intros Hr. apply reads_ceiling in Hr; [|done]. change (run newBoundedLineReader) with (len (@nil byte)) in Hr.
  pose proof (count_run_ok maxIncomingLineCeiling (received evs) [] ltac:(done) ltac:(apply not_elem_of_nil) ltac:(done)) as Hok.
  pose proof (count_run_tail maxIncomingLineCeiling (received evs) []) as Ht. rewrite Hr in Hok, Ht. simpl in *.
  destruct Hok as [Hok _]. split; [|auto].
  rewrite (Ht eq_refl). split; [apply len_nonneg|]. apply Hok; [done|]. apply tail_line_stretch; apply not_elem_of_nil.
Qed.

Lemma line_reader_bounded_witness :
  (reads [ERead (§"PING x"); ELimit 100000; ERead (newline :: §"ab")] newBoundedLineReader).1
    = MkReader 65536 2 /\ 2 <= maxIncomingLineCeiling.
Proof.
  split; [by vm_compute|].
  apply (line_reader_bounded [ERead (§"PING x"); ELimit 100000; ERead (newline :: §"ab")] (MkReader 65536 2)).
  by vm_compute.
Defined.

End LineReader.
