(* ===== verification/Sasl.v ===== *)
(** * SASL mechanisms: internal/irc/sasl.go and scram.go

    The client mechanisms PLAIN, EXTERNAL and SCRAM-SHA-256 behind the
    [saslMech] interface, their selection, and the framing of a response into
    AUTHENTICATE lines.  A mechanism is a value that each challenge replaces;
    only the handshake holds it.  The hash functions (crypto/sha256,
    crypto/hmac and golang.org/x/crypto/pbkdf2) are the class [ScramCrypto]:
    every theorem holds for any functions with SHA-256's output size. *)

From S2P Require Import Prelude GoStrings GoUtf8 GoBase64.

(** config.go, SASLConfig. *)
Record SASLConfig := MkSASL {
  Mechanism : gostring;
  Login : gostring;
  Password : gostring;
  Authzid : gostring
}.

Inductive saslErr :=
  | ErrExtraChallenge (mech : gostring)
  | ErrScramMalformed (part : gostring)
  | ErrScramMandatoryExt
  | ErrScramIncomplete
  | ErrScramNonce
  | ErrScramSalt
  | ErrScramIters
  | ErrScramItersLow (n : Z)
  | ErrScramItersHigh (n : Z)
  | ErrScramServer (e : gostring)
  | ErrScramSigEncoding
  | ErrScramSigMismatch
  | ErrMechNotOffered (mech offered : gostring)
  | ErrMechUnsupported (mech : gostring).

#[global] Instance saslErr_eq_dec : EqDecision saslErr.
Proof. solve_decision. Defined.

(** ** SCRAM-SHA-256 (scram.go) *)

Class ScramCrypto := {
  sha256_Sum256 : gostring -> gostring;
  scramHMAC : gostring -> gostring -> gostring;
  pbkdf2_Key : gostring -> gostring -> Z -> gostring
}.

(** SHA-256 and HMAC-SHA-256 give 32 bytes. *)
Class ScramCryptoLaws `{ScramCrypto} : Prop := {
  sha256_size m : length (sha256_Sum256 m) = 32%nat;
  hmac_size k m : length (scramHMAC k m) = 32%nat
}.

Record scramClient := MkScram {
  authcid : gostring;
  authzid : gostring;
  password : gostring;
  nonce : gostring;   (* what the next call of the injectable source returns *)
  clientFirstBare : gostring;
  clientNonce : gostring;
  serverSig : gostring;
  step : Z;
  verified : bool
}.

Definition scramMinIters : Z := 4096.
Definition scramMaxIters : Z := 1000000.

Definition newSCRAM (azid acid pw nc : gostring) : scramClient :=
  MkScram acid azid pw nc [] [] [] 0 false.

Definition scramEscape (s : gostring) : gostring :=
  byteReplacer (fun c => if c == x3d then §"=3D" else if c == x2c then §"=2C" else [c]) s.

Definition gs2Authzid (azid : gostring) : gostring :=
  if azid == [] then [] else §"a=" ++ scramEscape azid.

Fixpoint scram_attrs (parts : list gostring) (out : gmap gostring gostring)
    : sum saslErr (gmap gostring gostring) :=
  match parts with
  | [] => inr out
  | part :: rest =>
      let '(k, v, ok) := Cut part x3d in
      if negb ok || negb (len k =? 1) then inl (ErrScramMalformed part)
      else scram_attrs rest (<[k := v]> out)
  end.

Definition parseScramAttrs (msg : gostring) : sum saslErr (gmap gostring gostring) :=
  scram_attrs (Split msg x2c) ∅.

Definition bxor (a b : byte) : byte := z2b (Z.lxor (b2z a) (b2z b)).

(** [xorBytes] panics when [b] is shorter than [a]; both are HMAC outputs. *)
Definition xorBytes (a b : gostring) : gostring := zip_with bxor a b.

(** Absent keys read as the empty string. *)
Definition attr (attrs : gmap gostring gostring) (k : gostring) : gostring := default [] (attrs !! k).

Section scram.
Context `{ScramCrypto}.

Definition set_step (c : scramClient) (n : Z) : scramClient :=
  MkScram (authcid c) (authzid c) (password c) (nonce c) (clientFirstBare c) (clientNonce c)
    (serverSig c) n (verified c).

Definition clientFirst (c : scramClient) : scramClient * sum saslErr gostring :=
  let gs2 := §"n," ++ gs2Authzid (authzid c) ++ §"," in
  let bare := §"n=" ++ scramEscape (authcid c) ++ §",r=" ++ nonce c in
  (MkScram (authcid c) (authzid c) (password c) (nonce c) bare (nonce c) (serverSig c) (step c) (verified c),
   inr (gs2 ++ bare)).

Definition clientFinal (c : scramClient) (serverFirst : gostring) : scramClient * sum saslErr gostring :=
  match parseScramAttrs serverFirst with
  | inl e => (c, inl e)
  | inr attrs =>
      if bool_decide (is_Some (attrs !! §"m")) then (c, inl ErrScramMandatoryExt)
      else
        let rnonce := attr attrs §"r" in
        let salt64 := attr attrs §"s" in
        let iterStr := attr attrs §"i" in
        if (rnonce == []) || (salt64 == []) || (iterStr == []) then (c, inl ErrScramIncomplete)
        else if negb (HasPrefix rnonce (clientNonce c)) then (c, inl ErrScramNonce)
        else match DecodeString salt64 with
        | None => (c, inl ErrScramSalt)
        | Some salt =>
            let '(iters, ok) := Atoi iterStr in
            if negb ok || (iters <=? 0) then (c, inl ErrScramIters)
            else if iters <? scramMinIters then (c, inl (ErrScramItersLow iters))
            else if iters >? scramMaxIters then (c, inl (ErrScramItersHigh iters))
            else
              let saltedPassword := pbkdf2_Key (password c) salt iters in
              let clientKey := scramHMAC saltedPassword §"Client Key" in
              let storedKey := sha256_Sum256 clientKey in
              let serverKey := scramHMAC saltedPassword §"Server Key" in
              let channelBinding := EncodeToString (§"n," ++ gs2Authzid (authzid c) ++ §",") in
              let clientFinalNoProof := §"c=" ++ channelBinding ++ §",r=" ++ rnonce in
              let authMessage :=
                clientFirstBare c ++ §"," ++ serverFirst ++ §"," ++ clientFinalNoProof in
              let clientSig := scramHMAC storedKey authMessage in
              let proof := xorBytes clientKey clientSig in
              (MkScram (authcid c) (authzid c) (password c) (nonce c) (clientFirstBare c) (clientNonce c)
                 (scramHMAC serverKey authMessage) (step c) (verified c),
               inr (clientFinalNoProof ++ §",p=" ++ EncodeToString proof))
        end
  end.

Definition verify (c : scramClient) (serverFinal : gostring) : scramClient * sum saslErr gostring :=
  match parseScramAttrs serverFinal with
  | inl e => (c, inl e)
  | inr attrs =>
      if attr attrs §"e" != [] then (c, inl (ErrScramServer (attr attrs §"e")))
      else match DecodeString (attr attrs §"v") with
      | None => (c, inl ErrScramSigEncoding)
      | Some got =>
          if got != serverSig c then (c, inl ErrScramSigMismatch)
          else (MkScram (authcid c) (authzid c) (password c) (nonce c) (clientFirstBare c) (clientNonce c)
                  (serverSig c) (step c) true, inr [])
      end
  end.

Definition scram_respond (c : scramClient) (challenge : gostring) : scramClient * sum saslErr gostring :=
  if step c =? 0 then clientFirst (set_step c (step c + 1))
  else if step c =? 1 then clientFinal (set_step c (step c + 1)) challenge
  else if step c =? 2 then verify (set_step c (step c + 1)) challenge
  else (c, inl (ErrExtraChallenge §"SCRAM-SHA-256")).
End scram.

(** ** PLAIN and EXTERNAL (sasl.go) *)

Record plainMech := MkPlain { p_authzid : gostring; p_authcid : gostring; p_passwd : gostring; p_sent : bool }.
Record externalMech := MkExternal { e_authzid : gostring; e_sent : bool }.

Definition saslPlain (azid acid pw : gostring) : gostring := azid ++ [x00] ++ acid ++ [x00] ++ pw.

Definition plain_respond (m : plainMech) : plainMech * sum saslErr gostring :=
  if p_sent m then (m, inl (ErrExtraChallenge §"PLAIN"))
  else (MkPlain (p_authzid m) (p_authcid m) (p_passwd m) true,
        inr (saslPlain (p_authzid m) (p_authcid m) (p_passwd m))).

Definition external_respond (m : externalMech) : externalMech * sum saslErr gostring :=
  if e_sent m then (m, inl (ErrExtraChallenge §"EXTERNAL"))
  else (MkExternal (e_authzid m) true, inr (e_authzid m)).

(** ** The interface *)

Inductive saslMech :=
  | MPlain (m : plainMech)
  | MExternal (m : externalMech)
  | MScram (c : scramClient).

Definition mechScram := §"SCRAM-SHA-256".

Definition Name (m : saslMech) : gostring :=
  match m with MPlain _ => §"PLAIN" | MExternal _ => §"EXTERNAL" | MScram _ => §"SCRAM-SHA-256" end.

Definition completed (m : saslMech) : bool :=
  match m with MPlain m => p_sent m | MExternal m => e_sent m | MScram c => verified c end.

Definition respond `{ScramCrypto} (m : saslMech) (challenge : gostring) : saslMech * sum saslErr gostring :=
  match m with
  | MPlain m => let '(m', r) := plain_respond m in (MPlain m', r)
  | MExternal m => let '(m', r) := external_respond m in (MExternal m', r)
  | MScram c => let '(c', r) := scram_respond c challenge in (MScram c', r)
  end.

(** A run of challenges answered without an error. *)
Fixpoint mech_run `{ScramCrypto} (m : saslMech) (chs : list gostring) : option saslMech :=
  match chs with
  | [] => Some m
  | ch :: rest => match respond m ch with (m', inr _) => mech_run m' rest | (_, inl _) => None end
  end.

(** ** Mechanism selection *)

Section select.
Context `{Unicode}.

Definition mechListed (l mech : gostring) : bool :=
  existsb (fun m => EqualFold m mech) (Split l x2c).

Definition pick_mech (cfg : SASLConfig) (offered : gostring) : gostring :=
  let mech := ToUpper (Mechanism cfg) in
  if mech == [] then
    if Password cfg == [] then §"EXTERNAL"
    else if mechListed offered mechScram then mechScram
    else §"PLAIN"
  else mech.

(** [nc] is the nonce a SCRAM client will draw. *)
Definition newMech (cfg : SASLConfig) (offered nc : gostring) : sum saslErr saslMech :=
  let mech := pick_mech cfg offered in
  if (offered != []) && negb (mechListed offered mech) then inl (ErrMechNotOffered mech offered)
  else if mech == §"PLAIN" then
    let azid := if Authzid cfg == [] then Login cfg else Authzid cfg in
    inr (MPlain (MkPlain azid (Login cfg) (Password cfg) false))
  else if mech == §"EXTERNAL" then inr (MExternal (MkExternal (Authzid cfg) false))
  else if mech == mechScram then inr (MScram (newSCRAM (Authzid cfg) (Login cfg) (Password cfg) nc))
  else inl (ErrMechUnsupported (Mechanism cfg)).
End select.

(** ** AUTHENTICATE framing *)

(** The loop of [chunkAuthenticate]; each round removes 400 bytes. *)
Fixpoint chunk_loop (fuel : nat) (b64 : gostring) : list gostring :=
  match fuel with
  | O => []
  | S k =>
      if len b64 >? 400 then slice_to b64 400 :: chunk_loop k (slice_from b64 400)
      else if len b64 =? 400 then [b64; §"+"] else [b64]
  end.

Definition chunkAuthenticate (b64 : gostring) : list gostring :=
  if b64 == [] then [§"+"] else chunk_loop (S (length b64)) b64.

(** ** Theorems: SCRAM *)

Section scram_theorems.
Context `{Hcrypto : ScramCrypto}.

(** A run of challenges that the handshake did not abort: [None] once a
    response is an error. *)
Fixpoint scram_run (c : scramClient) (chs : list gostring) : option scramClient :=
  match chs with
  | [] => Some c
  | ch :: rest =>
      match scram_respond c ch with
      | (c', inr _) => scram_run c' rest
      | (_, inl _) => None
      end
  end.

(** RFC 5802: the AuthMessage both sides compute. *)
Definition auth_message (c : scramClient) (serverFirst rnonce : gostring) : gostring :=
  clientFirstBare c ++ §"," ++ serverFirst ++ §"," ++
  §"c=" ++ EncodeToString (§"n," ++ gs2Authzid (authzid c) ++ §",") ++ §",r=" ++ rnonce.

Definition server_key (pw salt : gostring) (iters : Z) : gostring :=
  scramHMAC (pbkdf2_Key pw salt iters) (§"Server Key").
Definition stored_key (pw salt : gostring) (iters : Z) : gostring :=
  sha256_Sum256 (scramHMAC (pbkdf2_Key pw salt iters) (§"Client Key")).

(** The only server-first messages that get a proof out of the client. *)
Definition good_first (c : scramClient) (sf rnonce salt : gostring) (iters : Z) : Prop :=
  exists attrs, parseScramAttrs sf = inr attrs /\ attrs !! §"m" = None /\
    attr attrs §"r" = rnonce /\ HasPrefix rnonce (clientNonce c) = true /\
    DecodeString (attr attrs §"s") = Some salt /\
    Atoi (attr attrs §"i") = (iters, true) /\ scramMinIters <= iters <= scramMaxIters.

Lemma clientFinal_ok c sf c' out :
  clientFinal c sf = (c', inr out) ->
  exists rnonce salt iters, good_first c sf rnonce salt iters /\
    serverSig c' = scramHMAC (server_key (password c) salt iters) (auth_message c sf rnonce) /\
    step c' = step c /\ verified c' = verified c.
Proof.
  unfold clientFinal. destruct (parseScramAttrs sf) as [e|attrs] eqn:Ep; [done|].
  destruct_if as Em; [done|]. apply bool_decide_eq_false in Em. cbv zeta.
  destruct_if as E1; [done|]. destruct_if as En; [done|]. apply negb_false_iff in En.
  destruct (DecodeString (attr attrs (§"s"))) as [salt|] eqn:Es; [|done].
  destruct (Atoi (attr attrs (§"i"))) as [iters ok] eqn:Ei.
  destruct_if as E2; [done|]. destruct_if as E3; [done|]. destruct_if as E4; [done|].
  intros [= <- <-]. destruct ok; [|done].
  exists (attr attrs (§"r")), salt, iters. split; [|done].
  exists attrs. split_and!; try done; [|lia..].
  destruct (attrs !! §"m") eqn:Em'; [|done]. exfalso. apply Em. eauto.
Qed.

Lemma verify_ok c sfin c' out :
  verify c sfin = (c', inr out) ->
  exists attrs, parseScramAttrs sfin = inr attrs /\ attr attrs §"e" = [] /\
    DecodeString (attr attrs §"v") = Some (serverSig c) /\ c' = MkScram (authcid c) (authzid c)
      (password c) (nonce c) (clientFirstBare c) (clientNonce c) (serverSig c) (step c) true.
Proof.
  unfold verify. destruct (parseScramAttrs sfin) as [e|attrs]; [done|].
  destruct_if as E1; [done|]. apply negb_false_iff, bool_decide_eq_true in E1.
  destruct (DecodeString _) as [got|] eqn:Ed; [|done].
  destruct_if as E2; [done|]. apply negb_false_iff, bool_decide_eq_true in E2. intros [= <- <-].
  exists attrs. by subst got.
Qed.

Lemma scram_run_steps c chs c' :
  0 <= step c -> scram_run c chs = Some c' -> step c' = step c + len chs /\ (step c <= 3 -> step c' <= 3).
Proof.
  revert c. induction chs as [|ch chs IH]; intros c Hc; simpl.
  - intros [= <-]. rewrite len_nil. lia.
  - destruct (scram_respond c ch) as [c1 [e|out]] eqn:E; [done|]. intros Hr.
    assert (step c1 = step c + 1 /\ step c < 3) as [E1 E2].
    { unfold scram_respond in E. destruct (Z.eqb_spec (step c) 0); [injection E as <- _; simpl; lia|].
      destruct (Z.eqb_spec (step c) 1).
      { apply clientFinal_ok in E as (? & ? & ? & _ & _ & E & _). simpl in E. lia. }
      destruct (Z.eqb_spec (step c) 2); [|done].
      apply verify_ok in E as (? & _ & _ & _ & ->). simpl. lia. }
    apply IH in Hr as [H1 H2]; [|lia]. rewrite len_cons. lia.
Qed.

(** A run that ends verified went through the three steps. *)
Lemma scram_run_verified az ac pw nc chs c' :
  scram_run (newSCRAM az ac pw nc) chs = Some c' -> verified c' = true ->
  exists prompt sf sfin rnonce salt iters fattrs,
    chs = [prompt; sf; sfin] /\
    let c1 := (clientFirst (newSCRAM az ac pw nc)).1 in
    good_first c1 sf rnonce salt iters /\
    parseScramAttrs sfin = inr fattrs /\ attr fattrs §"e" = [] /\
    DecodeString (attr fattrs §"v") =
      Some (scramHMAC (server_key pw salt iters) (auth_message c1 sf rnonce)).
Proof.
  intros Hr Hv. pose proof (scram_run_steps _ _ _ (Z.le_refl 0 : 0 <= step (newSCRAM az ac pw nc)) Hr) as [Hs H3].
  simpl in Hs, H3. specialize (H3 ltac:(lia)).
  destruct chs as [|prompt chs]; [by simplify_eq/=|]. simpl in Hr.
  destruct chs as [|sf chs]; [by simplify_eq/=|]. cbn [scram_run] in Hr.
  unfold scram_respond at 1 in Hr. simpl in Hr.
  destruct (clientFinal _ sf) as [c2 [e|out2]] eqn:E2; [done|].
  apply clientFinal_ok in E2 as (rnonce & salt & iters & Hg & Hsig & Hst & Hver). simpl in Hst, Hver.
  destruct chs as [|sfin chs]; [simplify_eq/=; congruence|]. cbn [scram_run] in Hr.
  unfold scram_respond in Hr. rewrite Hst in Hr. simpl in Hr.
  destruct (verify _ sfin) as [c3 [e|out3]] eqn:E3; [done|].
  apply verify_ok in E3 as (fattrs & Hf & He & Hd & _).
  assert (chs = []) as -> by (apply len_zero; rewrite !len_cons in Hs; pose proof (len_nonneg chs); lia).
  exists prompt, sf, sfin, rnonce, salt, iters, fattrs. split; [done|]. cbv zeta.
  split; [exact Hg|]. split_and!; [done..|]. simpl in Hd. rewrite Hd, Hsig. done.
Qed.

(** The SCRAM client reports a completed exchange only when the server
    proved that it knows the password's server key: the run consisted of the
    prompt, a server-first message that extended our nonce with an iteration
    count within the bounds and no mandatory extension, and a server-final
    message carrying HMAC(ServerKey, AuthMessage) over exactly what was
    exchanged. *)
Theorem scram_authenticates_server az ac pw nc chs c' :
  scram_run (newSCRAM az ac pw nc) chs = Some c' -> verified c' = true ->
  exists prompt sf sfin rnonce salt iters fattrs,
    chs = [prompt; sf; sfin] /\
    let c1 := (clientFirst (newSCRAM az ac pw nc)).1 in
    good_first c1 sf rnonce salt iters /\
    parseScramAttrs sfin = inr fattrs /\ attr fattrs §"e" = [] /\
    DecodeString (attr fattrs §"v") =
      Some (scramHMAC (server_key pw salt iters) (auth_message c1 sf rnonce)).
Proof. apply scram_run_verified. Qed.

(** *** An honest server (RFC 5802, section 3)

    It stores the salt, the iteration count, StoredKey and ServerKey, extends
    the client's nonce, checks the proof and answers with its signature. *)

Definition no_comma (s : gostring) : Prop := x2c ∉ s.

Definition server_first (nc sn salt iterStr : gostring) : gostring :=
  §"r=" ++ (nc ++ sn) ++ §",s=" ++ EncodeToString salt ++ §",i=" ++ iterStr.

(** The client-first-message-bare: what follows the two commas of the GS2
    header. *)
Definition server_bare (clientFirstMsg : gostring) : gostring :=
  Join (drop 2 (Split clientFirstMsg x2c)) §",".

(** The server-final message, when the client's proof is accepted. *)
Definition server_final (stored serverK bare sf nonce msg : gostring) : option gostring :=
  match parseScramAttrs msg with
  | inl _ => None
  | inr attrs =>
      let auth := bare ++ §"," ++ sf ++ §"," ++
                  Join (take 2 (Split msg x2c)) §"," in
      match DecodeString (attr attrs §"p") with
      | None => None
      | Some proof =>
          if (attr attrs §"r" == nonce) &&
             (sha256_Sum256 (xorBytes proof (scramHMAC stored auth)) == stored)
          then Some (§"v=" ++ EncodeToString (scramHMAC serverK auth))
          else None
      end
  end.

Lemma b64_no_comma s : no_comma (EncodeToString s).
Proof.
  unfold no_comma. intros Hin. pose proof (EncodeToString_chars s) as Hc.
  rewrite Forall_forall in Hc. specialize (Hc _ Hin). by apply b64char_plain in Hc as (_ & _ & _ & _ & ? & _).
Qed.

Lemma scramEscape_no_comma s : no_comma (scramEscape s).
Proof.
  unfold no_comma, scramEscape, byteReplacer. rewrite list_elem_of_bind. intros (c & Hc & _).
  destruct (c == x3d) eqn:E1; [revert Hc; vm_compute; set_solver|].
  destruct (c == x2c) eqn:E2; [revert Hc; vm_compute; set_solver|].
  apply list_elem_of_singleton in Hc as <-. done.
Qed.

Lemma gs2_no_comma s : no_comma (gs2Authzid s).
Proof.
  unfold gs2Authzid. destruct (s == []); [apply not_elem_of_nil|].
  unfold no_comma. rewrite elem_of_app. intros [H|H]; [revert H; vm_compute; set_solver|].
  by apply scramEscape_no_comma in H.
Qed.

(** Three attributes in a row. *)
Lemma attrs3 k1 k2 k3 v1 v2 v3 :
  let part k v := k :: x3d :: v in
  k1 <> x2c -> k2 <> x2c -> k3 <> x2c -> k1 <> x3d -> k2 <> x3d -> k3 <> x3d ->
  no_comma v1 -> no_comma v2 -> no_comma v3 ->
  Split (part k1 v1 ++ x2c :: part k2 v2 ++ x2c :: part k3 v3) x2c = [part k1 v1; part k2 v2; part k3 v3] /\
  parseScramAttrs (part k1 v1 ++ x2c :: part k2 v2 ++ x2c :: part k3 v3)
    = inr (<[[k3] := v3]> (<[[k2] := v2]> (<[[k1] := v1]> ∅))).
Proof.
  intros part H1 H2 H3 E1 E2 E3 N1 N2 N3. unfold no_comma in *.
  assert (Split (part k1 v1 ++ x2c :: part k2 v2 ++ x2c :: part k3 v3) x2c
          = [part k1 v1; part k2 v2; part k3 v3]) as E.
  { unfold part. rewrite !Split_app by (rewrite !not_elem_of_cons; done).
    by rewrite Split_absent by (rewrite !not_elem_of_cons; done). }
  split; [exact E|]. unfold parseScramAttrs. rewrite E. unfold part. cbn [scram_attrs Cut].
  rewrite (bool_decide_eq_false_2 (k1 = x3d)), (bool_decide_eq_false_2 (k2 = x3d)),
    (bool_decide_eq_false_2 (k3 = x3d)), (bool_decide_eq_true_2 (x3d = x3d)) by done.
  reflexivity.
Qed.

Lemma bxor_cancel a b : bxor (bxor a b) b = a.
Proof.
  unfold bxor. rewrite b2z_z2b.
  - rewrite Z.lxor_assoc, Z.lxor_nilpotent, Z.lxor_0_r. apply z2b_b2z.
  - pose proof (b2z_range a) as Ha. pose proof (b2z_range b) as Hb.
    split; [apply Z.lxor_nonneg; lia|].
    destruct (Z.eq_dec (Z.lxor (b2z a) (b2z b)) 0) as [->|Hne]; [lia|].
    apply (Z.log2_lt_cancel _ 256). eapply Z.le_lt_trans; [apply Z.log2_lxor; lia|].
    apply Z.max_lub_lt; (destruct (Z.eq_dec (b2z a) 0) as [E|E]; destruct (Z.eq_dec (b2z b) 0) as [E'|E']);
      try (rewrite E; done); try (rewrite E'; done); apply Z.log2_lt_pow2; simpl; lia.
Qed.

Lemma xorBytes_cancel a b : length a = length b -> xorBytes (xorBytes a b) b = a.
Proof.
  revert b. induction a as [|x a IH]; intros [|y b] Hl; simplify_eq/=; [done|].
  f_equal; [apply bxor_cancel|by apply IH].
Qed.

Lemma attr_insert (m : gmap gostring gostring) k k' v :
  attr (<[k := v]> m) k' = if bool_decide (k = k') then v else attr m k'.
Proof. unfold attr. case_bool_decide as E; [subst; by rewrite lookup_insert_eq|by rewrite lookup_insert_ne]. Qed.

Lemma attr_empty k : attr ∅ k = [].
Proof. reflexivity. Qed.

Lemma server_bare_spec az bare1 bare2 :
  no_comma bare1 -> no_comma bare2 ->
  server_bare ((§"n," ++ gs2Authzid az ++ §",") ++ bare1 ++ §"," ++ bare2) = bare1 ++ §"," ++ bare2.
Proof.
  intros H1 H2. unfold server_bare.
  replace ((§"n," ++ gs2Authzid az ++ §",") ++ bare1 ++ §"," ++ bare2)
    with ([x6e] ++ x2c :: gs2Authzid az ++ x2c :: bare1 ++ x2c :: bare2)
    by (rewrite <- !app_assoc; reflexivity).
  rewrite !Split_app, Split_absent; try done; [apply gs2_no_comma|].
  apply not_elem_of_cons. split; [done|apply not_elem_of_nil].
Qed.

Lemma app_no_comma a b : no_comma a -> no_comma b -> no_comma (a ++ b).
Proof. unfold no_comma. rewrite elem_of_app. tauto. Qed.

Ltac known_attrs := rewrite !attr_insert;
  repeat (first [rewrite (bool_decide_eq_false_2 ([_] = (§_))) by done
                |rewrite (bool_decide_eq_true_2 ([_] = (§_))) by done]).

Lemma verify_honest c :
  verify c (§"v=" ++ EncodeToString (serverSig c))
  = (MkScram (authcid c) (authzid c) (password c) (nonce c) (clientFirstBare c) (clientNonce c)
       (serverSig c) (step c) true, inr []).
Proof.
  unfold verify.
  assert (parseScramAttrs (§"v=" ++ EncodeToString (serverSig c)) = inr (<[[x76] := EncodeToString (serverSig c)]> ∅)) as ->.
  { unfold parseScramAttrs. rewrite Split_absent; [reflexivity|].
    apply (app_no_comma (§"v=")); [unfold no_comma; vm_compute; set_solver|apply b64_no_comma]. }
  known_attrs. rewrite attr_empty, base64_roundtrip. simpl. by rewrite bool_decide_eq_true_2.
Qed.
(** What the client computes from an honest server-first message. *)
Section honest.
Context (az pw bare nc sn salt iterStr : gostring) (iters : Z).
Context (Hnc : no_comma nc) (Hsn : no_comma sn) (Hit : no_comma iterStr)
  (Hnc0 : nc <> []) (Hs0 : salt <> []) (Hi0 : iterStr <> [])
  (Hatoi : Atoi iterStr = (iters, true)) (Hrange : scramMinIters <= iters <= scramMaxIters).

Definition h_first : gostring := server_first nc sn salt iterStr.
Definition h_noproof : gostring :=
  §"c=" ++ EncodeToString (§"n," ++ gs2Authzid az ++ §",") ++ §",r=" ++ nc ++ sn.
Definition h_auth : gostring := bare ++ §"," ++ h_first ++ §"," ++ h_noproof.
Definition h_client_key : gostring := scramHMAC (pbkdf2_Key pw salt iters) (§"Client Key").
Definition h_proof : gostring :=
  xorBytes h_client_key (scramHMAC (sha256_Sum256 h_client_key) h_auth).
Definition h_sig : gostring := scramHMAC (server_key pw salt iters) h_auth.
Definition h_final : gostring := h_noproof ++ §",p=" ++ EncodeToString h_proof.

Lemma clientFinal_honest ac st :
  clientFinal (MkScram ac az pw nc bare nc [] st false) h_first
  = (MkScram ac az pw nc bare nc h_sig st false, inr h_final).
Proof.
  destruct (attrs3 x72 x73 x69 (nc ++ sn) (EncodeToString salt) iterStr) as [_ Hsf];
    try done; [by apply app_no_comma|apply b64_no_comma|].
  unfold clientFinal. match type of Hsf with _ = ?r => change (parseScramAttrs h_first = r) in Hsf end.
  rewrite Hsf. rewrite bool_decide_eq_false_2 by (rewrite !lookup_insert_ne, lookup_empty by done; by intros []).
  known_attrs. cbv zeta.
  rewrite (bool_decide_eq_false_2 (nc ++ sn = [])) by (by destruct nc).
  rewrite (bool_decide_eq_false_2 (EncodeToString salt = [])) by (by rewrite EncodeToString_nil).
  rewrite (bool_decide_eq_false_2 (iterStr = [])) by done. simpl clientNonce. rewrite HasPrefix_app.
  rewrite base64_roundtrip, Hatoi. unfold scramMinIters, scramMaxIters in *.
  destruct (Z.leb_spec iters 0), (Z.ltb_spec iters 4096), (Z.gtb_spec iters 1000000); try lia.
  reflexivity.
Qed.

Lemma server_final_honest `{!ScramCryptoLaws} :
  server_final (stored_key pw salt iters) (server_key pw salt iters) bare h_first (nc ++ sn) h_final
  = Some (§"v=" ++ EncodeToString h_sig).
Proof.
  set (cb := EncodeToString (§"n," ++ gs2Authzid az ++ §",")).
  destruct (attrs3 x63 x72 x70 cb (nc ++ sn) (EncodeToString h_proof)) as [Hsp Hm2];
    try done; [apply b64_no_comma|by apply app_no_comma|apply b64_no_comma|].
  assert (h_final = (x63 :: x3d :: cb) ++ x2c :: (x72 :: x3d :: nc ++ sn) ++ x2c :: (x70 :: x3d :: EncodeToString h_proof)) as Em2
    by (unfold h_final, h_noproof; fold cb; clearbody cb; simpl; rewrite <- ?app_assoc; simpl;
        rewrite <- ?app_assoc; reflexivity).
  unfold server_final. rewrite <- Em2 in Hm2, Hsp. rewrite Hm2, Hsp. known_attrs.
  rewrite base64_roundtrip, (bool_decide_eq_true_2 (nc ++ sn = nc ++ sn)) by done.
  match goal with |- context [sha256_Sum256 (xorBytes _ (scramHMAC _ ?a))] => change a with h_auth end.
  unfold h_proof, stored_key. change (scramHMAC (pbkdf2_Key pw salt iters) (§"Client Key")) with h_client_key.
  rewrite xorBytes_cancel by (unfold h_client_key; by rewrite !hmac_size).
  by rewrite bool_decide_eq_true_2.
Qed.

End honest.

Context `{!ScramCryptoLaws}.

(** C40. Against a server that follows RFC 5802 and knows the same password
    the exchange succeeds in both directions: the server accepts the client's
    proof, the client accepts the server's signature, and the mechanism is
    completed. *)
Theorem scram_mutual az ac pw nc sn salt iterStr iters :
  no_comma nc -> no_comma sn -> no_comma iterStr -> nc <> [] -> salt <> [] -> iterStr <> [] ->
  Atoi iterStr = (iters, true) -> scramMinIters <= iters <= scramMaxIters ->
  let sf := server_first nc sn salt iterStr in
  exists c1 m1 c2 m2 sfin c3,
    scram_respond (newSCRAM az ac pw nc) [] = (c1, inr m1) /\ scram_respond c1 sf = (c2, inr m2) /\
    server_final (stored_key pw salt iters) (server_key pw salt iters) (server_bare m1) sf (nc ++ sn) m2
      = Some sfin /\
    scram_respond c2 sfin = (c3, inr []) /\ verified c3 = true.
Proof.
  intros Hnc Hsn Hit Hnc0 Hs0 Hi0 Hatoi Hrange sf.
  set (bare := §"n=" ++ scramEscape ac ++ §",r=" ++ nc).
  assert (server_bare ((§"n," ++ gs2Authzid az ++ §",") ++ bare) = bare) as Hb.
  { apply (server_bare_spec az (§"n=" ++ scramEscape ac) (§"r=" ++ nc));
      (apply app_no_comma; [unfold no_comma; vm_compute; set_solver|]);
      [apply scramEscape_no_comma|done]. }
  eexists (MkScram ac az pw nc bare nc [] 1 false), ((§"n," ++ gs2Authzid az ++ §",") ++ bare), _, _, _, _.
  split; [reflexivity|]. split; [by apply (clientFinal_honest az pw bare nc sn salt iterStr iters)|].
  rewrite Hb. split; [by apply server_final_honest|]. split; [apply verify_honest|done].
Qed.
End scram_theorems.

(** A toy hash of the right size, for evaluation. *)
Definition toy_crypto : ScramCrypto := {|
  sha256_Sum256 m := take 32 (m ++ replicate 32 x00);
  scramHMAC k m := take 32 (reverse m ++ k ++ replicate 32 x01);
  pbkdf2_Key p s i := p ++ s
|}.

Lemma toy_crypto_laws : @ScramCryptoLaws toy_crypto.
Proof.
  split; intros; unfold sha256_Sum256, scramHMAC, toy_crypto;
    rewrite length_take, !length_app, length_replicate; lia.
Qed.

Lemma scram_mutual_witness :
  exists c1 m1 c2 m2 sfin c3,
    @scram_respond toy_crypto (newSCRAM [] (§"al") (§"pw") (§"abc")) [] = (c1, inr m1) /\
    @scram_respond toy_crypto c1 (server_first (§"abc") (§"xyz") (§"salt") (§"4096")) = (c2, inr m2) /\
    @server_final toy_crypto (@stored_key toy_crypto (§"pw") (§"salt") 4096)
      (@server_key toy_crypto (§"pw") (§"salt") 4096) (server_bare m1)
      (server_first (§"abc") (§"xyz") (§"salt") (§"4096")) (§"abcxyz") m2 = Some sfin /\
    @scram_respond toy_crypto c2 sfin = (c3, inr []) /\ verified c3 = true.
Proof.
  apply (@scram_mutual toy_crypto toy_crypto_laws [] (§"al") (§"pw") (§"abc") (§"xyz") (§"salt") (§"4096") 4096);
    try done; try (unfold no_comma; vm_compute; set_solver).
Defined.

(** The exchange of [scram_mutual_witness], as the challenges the client
    sees. *)
Definition toy_run : list gostring :=
  [[]; server_first (§"abc") (§"xyz") (§"salt") (§"4096");
   §"v=" ++ EncodeToString
     (@h_sig toy_crypto [] (§"pw") (§"n=al,r=abc") (§"abc") (§"xyz") (§"salt") (§"4096") 4096)].

Lemma scram_authenticates_server_witness :
  exists prompt sf sfin rnonce salt iters fattrs,
    toy_run = [prompt; sf; sfin] /\
    let c1 := (clientFirst (newSCRAM [] (§"al") (§"pw") (§"abc"))).1 in
    good_first c1 sf rnonce salt iters /\
    parseScramAttrs sfin = inr fattrs /\ attr fattrs (§"e") = [] /\
    DecodeString (attr fattrs (§"v")) =
      Some (@scramHMAC toy_crypto (@server_key toy_crypto (§"pw") salt iters) (auth_message c1 sf rnonce)).
Proof.
  assert (exists c', @scram_run toy_crypto (newSCRAM [] (§"al") (§"pw") (§"abc")) toy_run = Some c' /\ verified c' = true)
    as (c' & Hr & Hv) by (eexists; split; vm_compute; reflexivity).
  exact (@scram_authenticates_server toy_crypto [] (§"al") (§"pw") (§"abc") toy_run c' Hr Hv).
Defined.

(** ** Theorems: selection and framing *)

(** The mechanism that is built is the configured one, or, when left to
    the client, EXTERNAL without a password and otherwise SCRAM-SHA-256
    whenever the server lists it, so a listing that has SCRAM never yields
    PLAIN; it is one the server listed when it listed any; and it starts
    with nothing sent, so it cannot count as completed. *)
Theorem newMech_sound `{Unicode} cfg offered nc m :
  newMech cfg offered nc = inr m ->
  completed m = false /\
  (offered <> [] -> mechListed offered (Name m) = true) /\
  (ToUpper (Mechanism cfg) <> [] -> Name m = ToUpper (Mechanism cfg)) /\
  (ToUpper (Mechanism cfg) = [] -> Password cfg = [] -> Name m = §"EXTERNAL") /\
  (ToUpper (Mechanism cfg) = [] -> Password cfg <> [] ->
     Name m = if mechListed offered mechScram then mechScram else §"PLAIN").
Proof.
  unfold newMech. set (mech := pick_mech cfg offered). cbv zeta. intros Hm.
  assert (completed m = false /\ Name m = mech /\ (offered <> [] -> mechListed offered mech = true)) as (Hc & Hn & Hl).
  { revert Hm. destruct_if as E0; [done|]. intros Hm.
    assert (offered <> [] -> mechListed offered mech = true) as Hl.
    { intros Ho. rewrite bool_decide_eq_false_2 in E0 by done. by apply negb_false_iff in E0. }
    revert Hm.
    destruct_if as E1; [apply bool_decide_eq_true in E1; by intros [= <-]|].
    destruct_if as E2; [apply bool_decide_eq_true in E2; by intros [= <-]|].
    destruct_if as E3; [apply bool_decide_eq_true in E3; by intros [= <-]|done]. }
  rewrite Hn. split; [done|]. split; [done|]. unfold mech, pick_mech. split_and!.
  - intros H1. by rewrite bool_decide_eq_false_2.
  - intros -> ->. done.
  - intros -> Hp. simpl. rewrite (bool_decide_eq_false_2 (_ = [])) by done. by destruct (mechListed _ _).
Qed.

Lemma newMech_sound_witness :
  exists m, @newMech ascii_unicode (MkSASL [] (§"al") (§"pw") []) (§"plain,scram-sha-256") [] = inr m /\
    Name m = §"SCRAM-SHA-256".
Proof.
  eexists. split; [vm_compute; reflexivity|].
  apply (@newMech_sound ascii_unicode (MkSASL [] (§"al") (§"pw") []) (§"plain,scram-sha-256") []);
    [vm_compute; reflexivity | vm_compute; reflexivity | done].
Defined.

(** The shape of a chunked response: full lines of 400 bytes, then one
    shorter line that is either the rest or, when nothing is left, "+". *)
Lemma chunk_loop_shape fuel b64 :
  b64 <> [] -> (length b64 < fuel)%nat ->
  exists fulls lst, chunk_loop fuel b64 = fulls ++ [lst] /\ Forall (fun c => len c = 400) fulls /\
    len lst < 400 /\
    ((lst = §"+" /\ concat fulls = b64) \/ (lst <> [] /\ concat fulls ++ lst = b64)).
Proof.
  revert b64. induction fuel as [|k IH]; intros b64 Hb Hf; [lia|]. cbn [chunk_loop].
  destruct (Z.gtb_spec (len b64) 400) as [H1|H1].
  - destruct (IH (slice_from b64 400)) as (fulls & lst & E & Hfl & Hl & Hc).
    + intros E. pose proof (len_slice_from b64 400 ltac:(lia)) as Hs. rewrite E, len_nil in Hs. lia.
    + unfold slice_from, len in *. rewrite length_drop. lia.
    + exists (slice_to b64 400 :: fulls), lst. rewrite E. split; [done|].
      split; [constructor; [apply len_slice_to; lia|done]|]. split; [done|].
      rewrite concat_cons, <- app_assoc.
      destruct Hc as [[-> ->]|[? ->]]; [left|right]; (split; [done|]); apply slice_cat.
  - destruct (Z.eqb_spec (len b64) 400) as [E|E].
    + exists [b64], (§"+"). split; [done|]. split; [by constructor|]. split; [done|].
      left. split; [done|]. apply app_nil_r.
    + exists [], b64. split; [done|]. split; [done|]. split; [lia|]. by right.
Qed.

Lemma chunkAuthenticate_shape b64 :
  b64 <> [] ->
  exists fulls lst, chunkAuthenticate b64 = fulls ++ [lst] /\ Forall (fun c => len c = 400) fulls /\
    len lst < 400 /\
    ((lst = §"+" /\ concat fulls = b64) \/ (lst <> [] /\ concat fulls ++ lst = b64)).
Proof.
  intros Hb. unfold chunkAuthenticate. rewrite bool_decide_eq_false_2 by done.
  apply chunk_loop_shape; [done|lia].
Qed.

Lemma mech_run_app `{ScramCrypto} m chs ch m1 m2 r :
  mech_run m chs = Some m1 -> respond m1 ch = (m2, inr r) -> mech_run m (chs ++ [ch]) = Some m2.
Proof.
  revert m. induction chs as [|c chs IH]; intros m; simpl.
  - intros [= ->] ->. done.
  - destruct (respond m c) as [m' [e|o]]; [done|]. apply IH.
Qed.

Lemma mech_run_name `{ScramCrypto} m chs m1 : mech_run m chs = Some m1 -> Name m1 = Name m.
Proof.
  revert m. induction chs as [|ch chs IH]; intros m; simpl; [by intros [= ->]|].
  destruct (respond m ch) as [m' [e|o]] eqn:E; [done|]. intros Hr. rewrite (IH _ Hr).
  destruct m as [p|x|c]; simpl in E.
  - destruct (plain_respond p). by simplify_eq.
  - destruct (external_respond x). by simplify_eq.
  - destruct (scram_respond c ch). by simplify_eq.
Qed.

Lemma mech_run_scram `{ScramCrypto} c chs m1 :
  mech_run (MScram c) chs = Some m1 -> exists c', m1 = MScram c' /\ scram_run c chs = Some c'.
Proof.
  revert c. induction chs as [|ch chs IH]; intros c; simpl; [intros [= <-]; eauto|].
  destruct (scram_respond c ch) as [c1 [e|o]]; [done|]. apply IH.
Qed.
