(* ===== verification/Sts.v ===== *)
(** * The sts capability value: internal/irc/sts.go

    Parsing of the comma-separated [sts] value a server advertises and the
    canonical form of host names under which policies are kept.  Policy
    storage is in [StsStore], the connection side in [StsManager]. *)

From S2P Require Import Prelude GoStrings GoUtf8.

(** net/netip's [ParseAddr] followed by [Unmap().String()]: [None] when the
    text is not an address. *)
Class NetIP := {
  ParseAddr : gostring -> option gostring
}.

(** [canonicalSTSHost], defined alike in internal/irc/sts.go and
    internal/store/sts.go. *)
Definition canonicalSTSHost `{Unicode, NetIP} (host : gostring) : gostring :=
  let host := TrimSuffix (TrimSpace host) §"." in
  match ParseAddr host with
  | Some ip => ip
  | None => ToLower host
  end.

Record stsValue := MkSts { port : Z; hasDuration : bool; duration : Z }.

Definition maxSTSSeconds : Z := 100 * 365 * 24 * 60 * 60.

(** One [key=value] token. *)
Definition sts_token (v : stsValue) (tok : gostring) : stsValue :=
  let '(k, val, _) := Cut tok x3d in
  if k == §"port" then
    let '(n, ok) := Atoi val in
    if ok && (n >? 0) && (n <=? 65535) then MkSts n (hasDuration v) (duration v) else v
  else if k == §"duration" then
    let '(n, ok) := Atoi val in
    if ok && (0 <=? n) then
      let n := if n >? maxSTSSeconds then maxSTSSeconds else n in
      MkSts (port v) true (wrap64 (n * Second))
    else v
  else v.

Definition parseSTS (value : gostring) : stsValue :=
  foldl sts_token (MkSts 0 false 0) (Split value x2c).

(** ** Theorems *)

Definition sts_ok (v : stsValue) : Prop :=
  0 <= port v <= 65535 /\ 0 <= duration v <= maxSTSSeconds * Second /\
  (exists s, duration v = s * Second) /\ (hasDuration v = false -> duration v = 0).

Lemma sts_token_ok v tok : sts_ok v -> sts_ok (sts_token v tok).
Proof.
  intros (H1 & H2 & H3 & H4). unfold sts_token. destruct (Cut tok x3d) as [[k val] ?].
  destruct_if as E1.
  { destruct (Atoi val) as [n ok]. destruct_if as E2; [|done].
    unfold sts_ok. simpl. split_and!; try done; lia. }
  destruct_if as E2; [|done]. destruct (Atoi val) as [n ok]. destruct_if as E3; [|done].
  unfold sts_ok. simpl. set (m := if n >? maxSTSSeconds then maxSTSSeconds else n).
  assert (0 <= m <= maxSTSSeconds) as Hm
    by (unfold m; destruct (Z.gtb_spec n maxSTSSeconds); unfold maxSTSSeconds in *; lia).
  assert (wrap64 (m * Second) = m * Second) as ->.
  { unfold wrap64, maxSTSSeconds, Second, Millisecond in *. rewrite Z.mod_small; lia. }
  unfold Second, Millisecond in *. split_and!; try lia. by exists m.
Qed.

(** Whatever the server advertises, the parsed port is a TCP port (or 0
    for none) and the duration a whole number of seconds between 0 and 100
    years: the conversion to nanoseconds never overflows into a duration in
    the past. *)
Theorem parseSTS_bounded value : sts_ok (parseSTS value).
Proof.
  unfold parseSTS. assert (sts_ok (MkSts 0 false 0)) as H0.
  { unfold sts_ok, maxSTSSeconds, Second, Millisecond. simpl. split_and!; try lia. by exists 0. }
  revert H0. generalize (MkSts 0 false 0). induction (Split value x2c) as [|tok toks IH]; intros v Hv; simpl; [done|].
  apply IH. by apply sts_token_ok.
Qed.

Example parseSTS_huge :
  parseSTS (§"port=6697,duration=99999999999,preload") = MkSts 6697 true (maxSTSSeconds * Second).
Proof. reflexivity. Qed.
