(* ===== verification/Config.v ===== *)
(** * Network configuration: internal/irc/config.go

    The configuration of one connection, its defaults, and the checks made
    when a network is added or edited.  [TLSConfig] and [STS] (runtime
    objects) are not fields here; the proxy URL and WireGuard checks, which
    belong to other packages, are arguments of [validate]. *)

From S2P Require Import Prelude GoStrings GoUtf8 IrcMsg Sasl Pacing.

Record wgConfig := MkWg {
  PrivateKey : gostring; PeerPublicKey : gostring; PresharedKey : gostring;
  Endpoint : gostring; Address : gostring; DNS : gostring; MTU : Z
}.

Record Config := MkConfig {
  CfgName : gostring;
  Addr : gostring;
  TLS : bool;
  AllowPlaintext : bool;
  TrustedFingerprints : list gostring;
  Proxy : gostring;
  WireGuard : option wgConfig;
  Nick : gostring;
  Username : gostring;
  Realname : gostring;
  Pass : gostring;
  SASL : option SASLConfig;
  Channels : list gostring;
  ChannelKeys : gmap gostring gostring;
  BackoffCfg : Backoff.BackoffConfig;
  DialTimeout : Z;
  HandshakeTimeout : Z;
  PingInterval : Z;
  PingTimeout : Z;
  SendBurst : Z;
  SendInterval : Z
}.

Inductive cfgErr :=
  | ErrAddr | ErrNick | ErrPlaintext
  | ErrSaslMech (m : gostring) | ErrSaslLogin | ErrSaslExternalTLS
  | ErrFingerprint (fp : gostring)
  | ErrProxy | ErrProxyAndWireGuard | ErrWireGuard
  | ErrUnsendable (cmd : gostring) (e : ircErr)
  | ErrTooLong (cmd : gostring) (e : ircErr).

Section checks.
Context `{Unicode, IrcV4}.

Definition effective_mech (s : SASLConfig) : gostring :=
  let mech := ToUpper (Mechanism s) in
  if (mech == []) && (Password s == []) then §"EXTERNAL" else mech.

Definition validateSASL (c : Config) : option cfgErr :=
  match SASL c with
  | None => None
  | Some s =>
      let mech := effective_mech s in
      if negb ((mech == []) || (mech == §"PLAIN") || (mech == §"EXTERNAL") || (mech == §"SCRAM-SHA-256"))
      then Some (ErrSaslMech (Mechanism s))
      else if (mech != §"EXTERNAL") && (Login s == []) then Some ErrSaslLogin
      else if (mech == §"EXTERNAL") && negb (TLS c) then Some ErrSaslExternalTLS
      else None
  end.

(** The messages registration and autojoin will send. *)
Definition registration_msgs (c : Config) : list Message :=
  let username := if Username c == [] then Nick c else Username c in
  let realname := if Realname c == [] then Nick c else Realname c in
  [newMsg §"NICK" [Nick c]; newMsg §"USER" [username; §"0"; §"*"; realname]]
  ++ (if Pass c != [] then [newMsg §"PASS" [Pass c]] else [])
  ++ ((fun ch => newMsg §"JOIN" [ch]) <$> Channels c).

Fixpoint check_msgs (msgs : list Message) : option cfgErr :=
  match msgs with
  | [] => None
  | m :: rest =>
      match checkFraming m with
      | Some e => Some (ErrUnsendable (Command m) e)
      | None =>
          match checkLineLen m defaultLineLen with
          | Some e => Some (ErrTooLong (Command m) e)
          | None => check_msgs rest
          end
      end
  end.

Definition validateRegistrationLines (c : Config) : option cfgErr := check_msgs (registration_msgs c).

(** encoding/hex: every byte a hexadecimal digit, and an even number. *)
Definition is_hex (c : byte) : bool :=
  ((48 <=? b2z c) && (b2z c <=? 57)) || ((97 <=? b2z c) && (b2z c <=? 102))
  || ((65 <=? b2z c) && (b2z c <=? 70)).
Definition hex_ok (s : gostring) : bool := forallb is_hex s && Z.even (len s).

Definition normFingerprint (fp : gostring) : gostring := ToLower (ReplaceAll fp §":" []).

Fixpoint fingerprint_loop (fps : list gostring) (set : gset gostring) : sum cfgErr (gset gostring) :=
  match fps with
  | [] => inr set
  | fp :: rest =>
      let norm := normFingerprint fp in
      if negb (len norm =? 64) then inl (ErrFingerprint fp)
      else if negb (hex_ok norm) then inl (ErrFingerprint fp)
      else fingerprint_loop rest ({[norm]} ∪ set)
  end.

(** [inr None] is the nil map of an empty configuration. *)
Definition fingerprintSet (fps : list gostring) : sum cfgErr (option (gset gostring)) :=
  if fps == [] then inr None
  else match fingerprint_loop fps ∅ with inl e => inl e | inr s => inr (Some s) end.

Definition validate (proxy_ok : gostring -> bool) (wg_ok : wgConfig -> bool) (c : Config) : option cfgErr :=
  if Addr c == [] then Some ErrAddr
  else if Nick c == [] then Some ErrNick
  else if negb (TLS c) && negb (AllowPlaintext c) then Some ErrPlaintext
  else match validateSASL c with
  | Some e => Some e
  | None =>
      match fingerprintSet (TrustedFingerprints c) with
      | inl e => Some e
      | inr _ =>
          if (Proxy c != []) && negb (proxy_ok (Proxy c)) then Some ErrProxy
          else match WireGuard c with
          | Some wg =>
              if Proxy c != [] then Some ErrProxyAndWireGuard
              else if negb (wg_ok wg) then Some ErrWireGuard
              else validateRegistrationLines c
          | None => validateRegistrationLines c
          end
      end
  end.
End checks.

Definition applyDefaults (c : Config) : Config :=
  {| CfgName := if CfgName c == [] then Addr c else CfgName c;
     Addr := Addr c; TLS := TLS c; AllowPlaintext := AllowPlaintext c;
     TrustedFingerprints := TrustedFingerprints c; Proxy := Proxy c; WireGuard := WireGuard c;
     Nick := Nick c; Username := Username c; Realname := Realname c; Pass := Pass c;
     SASL := SASL c; Channels := Channels c; ChannelKeys := ChannelKeys c;
     BackoffCfg := BackoffCfg c;
     DialTimeout := if DialTimeout c <=? 0 then 30 * Second else DialTimeout c;
     HandshakeTimeout := if HandshakeTimeout c <=? 0 then Minute else HandshakeTimeout c;
     PingInterval := if PingInterval c <=? 0 then 90 * Second else PingInterval c;
     PingTimeout := if PingTimeout c <=? 0 then 30 * Second else PingTimeout c;
     SendBurst := if SendBurst c <=? 0 then 16 else SendBurst c;
     SendInterval := if SendInterval c <=? 0 then 2 * Second else SendInterval c |}.

(** ** Lemmas *)

Lemma check_msgs_all `{IrcV4} msgs m :
  check_msgs msgs = None -> m ∈ msgs -> checkFraming m = None /\ checkLineLen m defaultLineLen = None.
Proof.
  induction msgs as [|m0 msgs IH]; simpl; [by intros _ ?%not_elem_of_nil|].
  destruct (checkFraming m0) eqn:E1; [done|]. destruct (checkLineLen m0 defaultLineLen) eqn:E2; [done|].
  intros Hc [->|Hm]%elem_of_cons; [done|by apply IH].
Qed.

(** An accepted configuration is one of the paths of [validate] that end in
    the registration check. *)
Lemma validate_ok `{Unicode, IrcV4} proxy_ok wg_ok c :
  validate proxy_ok wg_ok c = None ->
  Addr c <> [] /\ Nick c <> [] /\ (TLS c = false -> AllowPlaintext c = true) /\
  validateSASL c = None /\ (exists fs, fingerprintSet (TrustedFingerprints c) = inr fs) /\
  (WireGuard c <> None -> Proxy c = []) /\ validateRegistrationLines c = None.
Proof.
  unfold validate. destruct_if as E1; [done|]. destruct_if as E2; [done|]. destruct_if as E3; [done|].
  apply bool_decide_eq_false in E1, E2.
  destruct (validateSASL c); [done|]. destruct (fingerprintSet _) as [|fs]; [done|].
  destruct_if as E4; [done|].
  destruct (WireGuard c) as [wg|].
  - destruct_if as E5; [done|]. destruct_if as E6; [done|]. apply negb_false_iff, bool_decide_eq_true in E5.
    intros Hr. split_and!; try done; [|by exists fs]. by destruct (TLS c), (AllowPlaintext c).
  - intros Hr. split_and!; try done; [|by exists fs]. by destruct (TLS c), (AllowPlaintext c).
Qed.
