(* ===== verification/Handshake.v ===== *)
(** * Connection registration: internal/irc/handshake.go

    PASS/NICK/USER, capability negotiation and SASL as a state machine:
    [start] gives the opening messages and [handle] consumes one server
    message, returning what to send, whether registration completed, and the
    error that aborts the attempt.  The proofs about it are in
    [HandshakeProofs]. *)

From S2P Require Import Prelude GoStrings GoUtf8 GoBase64 IrcMsg Sasl Sts Config.

Definition wantedCaps : list gostring := [
  §"account-notify"; §"account-tag"; §"away-notify"; §"batch"; §"cap-notify"; §"chghost";
  §"draft/chathistory"; §"draft/multiline"; §"draft/event-playback"; §"draft/message-redaction";
  §"draft/read-marker"; §"echo-message"; §"extended-join"; §"extended-monitor"; §"invite-notify";
  §"labeled-response"; §"message-tags"; §"multi-prefix"; §"no-implicit-names"; §"server-time";
  §"setname"; §"standard-replies"; §"userhost-in-names"].

Definition wantedCapSet (c : gostring) : bool := bool_decide (c ∈ wantedCaps).

Inductive hsPhase := hsCapLS | hsCapAck | hsAuthChallenge | hsAwaitWelcome | hsDone.
#[global] Instance hsPhase_eq_dec : EqDecision hsPhase.
Proof. solve_decision. Defined.

Record handshake := MkHs {
  cfg : Config;
  phase : hsPhase;
  caps : gmap gostring gostring;
  enabled : gset gostring;
  nick : gostring;
  nickTries : Z;
  saslDone : bool;
  nakRetried : bool;
  lastReq : list gostring;
  mech : option saslMech;
  mechErr : option saslErr;
  secure : bool;
  stsDuration : option Z;
  passSent : bool;
  challengeBuf : gostring
}.

Inductive hsErr :=
  | ErrServer (text : gostring)
  | ErrNickRejected
  | ErrPasswdMismatch
  | ErrNickLocked
  | ErrSaslEarlySuccess
  | ErrSaslUnverifiedSuccess
  | ErrSaslFail | ErrSaslTooLong | ErrSaslAborted | ErrSaslAlready
  | ErrPlainPass | ErrPlainSasl | ErrSaslIncomplete
  | ErrNickTooLong (n : Z)
  | ErrRetryBeforeRedial
  | ErrNicksExhausted
  | ErrCapMalformed
  | ErrStsUpgrade (p : Z)
  | ErrCredentialsNeedTLS
  | ErrSaslNotOffered
  | ErrMech (e : saslErr)
  | ErrCapRefused
  | ErrChallengeTooLong
  | ErrChallengeEncoding
  | ErrRespond (m : gostring) (e : saslErr).

(** One field replaced. *)
Definition set_phase p h := MkHs (cfg h) p (caps h) (enabled h) (nick h) (nickTries h) (saslDone h)
  (nakRetried h) (lastReq h) (mech h) (mechErr h) (secure h) (stsDuration h) (passSent h) (challengeBuf h).
Definition set_caps c h := MkHs (cfg h) (phase h) c (enabled h) (nick h) (nickTries h) (saslDone h)
  (nakRetried h) (lastReq h) (mech h) (mechErr h) (secure h) (stsDuration h) (passSent h) (challengeBuf h).
Definition set_enabled e h := MkHs (cfg h) (phase h) (caps h) e (nick h) (nickTries h) (saslDone h)
  (nakRetried h) (lastReq h) (mech h) (mechErr h) (secure h) (stsDuration h) (passSent h) (challengeBuf h).
Definition set_nick n h := MkHs (cfg h) (phase h) (caps h) (enabled h) n (nickTries h) (saslDone h)
  (nakRetried h) (lastReq h) (mech h) (mechErr h) (secure h) (stsDuration h) (passSent h) (challengeBuf h).
Definition set_nickTries n h := MkHs (cfg h) (phase h) (caps h) (enabled h) (nick h) n (saslDone h)
  (nakRetried h) (lastReq h) (mech h) (mechErr h) (secure h) (stsDuration h) (passSent h) (challengeBuf h).
Definition set_saslDone b h := MkHs (cfg h) (phase h) (caps h) (enabled h) (nick h) (nickTries h) b
  (nakRetried h) (lastReq h) (mech h) (mechErr h) (secure h) (stsDuration h) (passSent h) (challengeBuf h).
Definition set_req b r h := MkHs (cfg h) (phase h) (caps h) (enabled h) (nick h) (nickTries h) (saslDone h)
  b r (mech h) (mechErr h) (secure h) (stsDuration h) (passSent h) (challengeBuf h).
Definition set_mech m e h := MkHs (cfg h) (phase h) (caps h) (enabled h) (nick h) (nickTries h) (saslDone h)
  (nakRetried h) (lastReq h) m e (secure h) (stsDuration h) (passSent h) (challengeBuf h).
Definition set_sts d h := MkHs (cfg h) (phase h) (caps h) (enabled h) (nick h) (nickTries h) (saslDone h)
  (nakRetried h) (lastReq h) (mech h) (mechErr h) (secure h) d (passSent h) (challengeBuf h).
Definition set_passSent b h := MkHs (cfg h) (phase h) (caps h) (enabled h) (nick h) (nickTries h) (saslDone h)
  (nakRetried h) (lastReq h) (mech h) (mechErr h) (secure h) (stsDuration h) b (challengeBuf h).
Definition set_buf b h := MkHs (cfg h) (phase h) (caps h) (enabled h) (nick h) (nickTries h) (saslDone h)
  (nakRetried h) (lastReq h) (mech h) (mechErr h) (secure h) (stsDuration h) (passSent h) b.
Definition set_secure b h := MkHs (cfg h) (phase h) (caps h) (enabled h) (nick h) (nickTries h) (saslDone h)
  (nakRetried h) (lastReq h) (mech h) (mechErr h) b (stsDuration h) (passSent h) (challengeBuf h).

Definition newHandshake (c : Config) : handshake :=
  MkHs c hsCapLS ∅ ∅ (Nick c) 0 false false [] None None (TLS c) None false [].

Definition has_credentials (c : Config) : bool := (Pass c != []) || bool_decide (is_Some (SASL c)).

(** ** Opening *)

Definition passLine (h : handshake) : handshake * list Message :=
  if (Pass (cfg h) == []) || passSent h then (h, [])
  else (set_passSent true h, [newMsg §"PASS" [Pass (cfg h)]]).

Definition start (h : handshake) : handshake * list Message :=
  let out := [newMsg §"CAP" [§"LS"; §"302"]] in
  if negb (secure h) && has_credentials (cfg h) then (h, out)
  else
    let '(h, pl) := if secure h then passLine h else (h, []) in
    let username := if Username (cfg h) == [] then Nick (cfg h) else Username (cfg h) in
    let realname := if Realname (cfg h) == [] then Nick (cfg h) else Realname (cfg h) in
    (h, out ++ pl ++ [newMsg §"NICK" [nick h]; newMsg §"USER" [username; §"0"; §"*"; realname]]).

(** ** Nick fallback *)

Definition fallbackNick (nk : gostring) (attempt : Z) : gostring :=
  let rs := runes nk in
  if len rs <=? 1 then
    let base := default 97 (head rs) in
    let n := Z.rem (base - 97 + attempt) 26 in
    let n := if n <? 0 then n + 26 else n in
    EncodeRune (97 + n)
  else
    let lst := default 0 (last rs) in
    let pick := List.filter (fun d => negb (d =? lst)) (seqZ 49 9) in
    let d := default 0 (pick !! Z.to_nat (Z.rem (attempt - 1) (len pick))) in
    string_of_runes (take (length rs - 1) rs ++ [d]).

(** ** Responses *)

(** What [handle] gives back besides the new state. *)
Record result := MkRes { out : list Message; done_ : bool; err : option hsErr }.

Definition ret (h : handshake) (o : list Message) : handshake * result := (h, MkRes o false None).
Definition fail (h : handshake) (e : hsErr) : handshake * result := (h, MkRes [] false (Some e)).

Definition maxAdvertisedCaps : Z := 512.
Definition maxSASLChallenge : Z := 8192.
Definition maxAuthoritativeNickBytes : Z := 512.

Definition cap_token (dst : gmap gostring gostring) (tok : gostring) : gmap gostring gostring :=
  let '(name, val, _) := Cut tok x3d in
  if bool_decide (dst !! name = None) && (maxAdvertisedCaps <=? Z.of_nat (size dst)) then dst
  else <[name := val]> dst.

Definition parseCapList (l : gostring) (dst : gmap gostring gostring) : gmap gostring gostring :=
  foldl cap_token dst (Fields l).

Definition capsToRequest (h : handshake) : list gostring :=
  sort_Strings
    (List.filter wantedCapSet (map_to_list (caps h)).*1
     ++ (if bool_decide (is_Some (SASL (cfg h))) && bool_decide (is_Some (caps h !! §"sasl"))
         then [§"sasl"] else [])).

Definition decodeChallenge (arg : gostring) : option gostring :=
  if (arg == §"+") || (arg == []) then Some [] else DecodeString arg.

Section handle.
Context `{Unicode, IrcV4, ScramCrypto}.

(** The nonce a SCRAM client of this handshake will draw. *)
Context (rnd : gostring).

Definition chooseMech (h : handshake) : handshake * option hsErr :=
  match SASL (cfg h) with
  | None => (h, None)
  | Some s =>
      match caps h !! §"sasl" with
      | None => (h, Some ErrSaslNotOffered)
      | Some mechs =>
          match newMech s mechs rnd with
          | inl e => (set_mech None (Some e) h, None)
          | inr m => (set_mech (Some m) (mechErr h) h, None)
          end
      end
  end.

Definition handleCapLS (m : Message) (h : handshake) : handshake * result :=
  if phase h != hsCapLS then ret h []
  else
    let more := (4 <=? len (Params m)) && (default [] (Params m !! 2%nat) == §"*") in
    let h := set_caps (parseCapList (default [] (last (Params m))) (caps h)) h in
    if more then ret h []
    else
      let v := parseSTS (default [] (caps h !! §"sts")) in
      let advertised := bool_decide (is_Some (caps h !! §"sts")) in
      if advertised && negb (secure h) && (port v >? 0) then fail h (ErrStsUpgrade (port v))
      else
        let h := if advertised && secure h && hasDuration v then set_sts (Some (duration v)) h else h in
        if negb (secure h) && has_credentials (cfg h) then fail h ErrCredentialsNeedTLS
        else match chooseMech h with
        | (h, Some e) => fail h e
        | (h, None) =>
            let '(h, pl) := passLine h in
            let reqs := capsToRequest h in
            if reqs == [] then ret (set_phase hsAwaitWelcome h) (pl ++ [newMsg §"CAP" [§"END"]])
            else ret (set_req (nakRetried h) reqs (set_phase hsCapAck h))
                     (pl ++ [newMsg §"CAP" [§"REQ"; Join reqs §" "]])
        end.

Definition ack_token (en : gset gostring) (tok : gostring) : gset gostring :=
  match CutPrefix tok §"-" with
  | Some name => en ∖ {[name]}
  | None => if wantedCapSet tok || (tok == §"sasl") then {[tok]} ∪ en else en
  end.

Definition handleCapACK (m : Message) (h : handshake) : handshake * result :=
  if phase h != hsCapAck then ret h []
  else
    let h := set_enabled (foldl ack_token (enabled h) (Fields (default [] (last (Params m))))) h in
    let sasl_on := bool_decide (§"sasl" ∈ enabled h) in
    match (if bool_decide (is_Some (SASL (cfg h))) && sasl_on then mechErr h else None) with
    | Some e => (h, MkRes [newMsg §"QUIT" [§"SASL mechanism unavailable"]] false (Some (ErrMech e)))
    | None =>
        match (if sasl_on && negb (saslDone h) then mech h else None) with
        | Some mc => ret (set_phase hsAuthChallenge h) [newMsg §"AUTHENTICATE" [Name mc]]
        | None => ret (set_phase hsAwaitWelcome h) [newMsg §"CAP" [§"END"]]
        end
    end.

Definition handleCapNAK (h : handshake) : handshake * result :=
  if phase h != hsCapAck then ret h []
  else match SASL (cfg h) with
  | Some _ =>
      if negb (nakRetried h) && (len (lastReq h) >? 1)
      then ret (set_req true [§"sasl"] h) [newMsg §"CAP" [§"REQ"; §"sasl"]]
      else fail h ErrCapRefused
  | None => ret (set_phase hsAwaitWelcome h) [newMsg §"CAP" [§"END"]]
  end.

Definition handleCAP (m : Message) (h : handshake) : handshake * result :=
  if len (Params m) <? 2 then fail h ErrCapMalformed
  else
    let sub := ToUpper (default [] (Params m !! 1%nat)) in
    if sub == §"LS" then handleCapLS m h
    else if sub == §"ACK" then handleCapACK m h
    else if sub == §"NAK" then handleCapNAK h
    else ret h [].

Definition handleAuthenticate (m : Message) (h : handshake) : handshake * result :=
  match mech h with
  | None => ret h []
  | Some mc =>
      if phase h != hsAuthChallenge then ret h []
      else
        let arg := Param m 0 in
        if (arg != §"+") && (len (challengeBuf h) + len arg >? maxSASLChallenge)
        then fail (set_buf [] h) ErrChallengeTooLong
        else
          let h := if arg != §"+" then set_buf (challengeBuf h ++ arg) h else h in
          if len arg =? 400 then ret h []
          else
            let full := challengeBuf h in
            let h := set_buf [] h in
            let full := if full == [] then §"+" else full in
            match decodeChallenge full with
            | None => fail h ErrChallengeEncoding
            | Some challenge =>
                let '(mc', r) := respond mc challenge in
                let h := set_mech (Some mc') (mechErr h) h in
                match r with
                | inl e => (h, MkRes [newMsg §"AUTHENTICATE" [§"*"]] false (Some (ErrRespond (Name mc') e)))
                | inr resp =>
                    ret h ((fun c => newMsg §"AUTHENTICATE" [c]) <$> chunkAuthenticate (EncodeToString resp))
                end
            end
  end.

Definition handleWelcome (m : Message) (h : handshake) : handshake * result :=
  if negb (secure h) && (Pass (cfg h) != []) then fail h ErrPlainPass
  else if negb (secure h) && bool_decide (is_Some (SASL (cfg h))) then fail h ErrPlainSasl
  else if bool_decide (is_Some (SASL (cfg h))) && negb (saslDone h) then fail h ErrSaslIncomplete
  else
    let h := set_phase hsDone h in
    let p := Param m 0 in
    if (p != []) && (p != §"*") then
      if len p >? maxAuthoritativeNickBytes then fail h (ErrNickTooLong (len p))
      else (set_nick p h, MkRes [] true None)
    else (h, MkRes [] true None).

Definition handleNickInUse (h : handshake) : handshake * result :=
  if negb (secure h) && has_credentials (cfg h) then fail h ErrRetryBeforeRedial
  else
    let h := set_nickTries (nickTries h + 1) h in
    if nickTries h >? 3 then fail h ErrNicksExhausted
    else
      let h := set_nick (fallbackNick (Nick (cfg h)) (nickTries h)) h in
      ret h [newMsg §"NICK" [nick h]].

Definition handleSaslSuccess (h : handshake) : handshake * result :=
  match mech h with
  | None => if bool_decide (is_Some (SASL (cfg h))) then fail h ErrSaslEarlySuccess else ret h []
  | Some mc =>
      if negb (completed mc) then fail h ErrSaslUnverifiedSuccess
      else ret (set_phase hsAwaitWelcome (set_saslDone true h)) [newMsg §"CAP" [§"END"]]
  end.

Definition handle (m : Message) (h : handshake) : handshake * result :=
  let c := Command m in
  if c == §"PING" then ret h [boundedPong m defaultLineLen]
  else if c == §"ERROR" then fail h (ErrServer (Trailing m))
  else if c == §"CAP" then handleCAP m h
  else if c == §"AUTHENTICATE" then handleAuthenticate m h
  else if c == §"001" then handleWelcome m h
  else if (c == §"433") || (c == §"436") || (c == §"437") then handleNickInUse h
  else if c == §"432" then fail h ErrNickRejected
  else if c == §"464" then fail h ErrPasswdMismatch
  else if c == §"900" then ret h []
  else if c == §"902" then fail h ErrNickLocked
  else if c == §"903" then handleSaslSuccess h
  else if c == §"904" then fail h ErrSaslFail
  else if c == §"905" then fail h ErrSaslTooLong
  else if c == §"906" then fail h ErrSaslAborted
  else if c == §"907" then fail h ErrSaslAlready
  else ret h [].

(** [Manager.register]: the opening messages, then one [handle] per message
    the server sends until registration completes or fails.  The trace has
    everything sent and every STS duration handed to the manager to persist. *)
Inductive outcome := Reading | Registered | Aborted (e : hsErr).

Record trace := MkTrace { hs : handshake; sent : list Message; persisted : list Z; status : outcome }.

Definition take_sts (h : handshake) : handshake * list Z :=
  match stsDuration h with Some d => (set_sts None h, [d]) | None => (h, []) end.

Definition register_step (t : trace) (m : Message) : trace :=
  match status t with
  | Reading =>
      let '(h, r) := handle m (hs t) in
      let '(h, ds) := take_sts h in
      MkTrace h (sent t ++ out r) (persisted t ++ ds)
        (match err r with
         | Some e => Aborted e
         | None => if done_ r then Registered else Reading
         end)
  | _ => t
  end.

Definition register_start (c : Config) (sec : bool) : trace :=
  let '(h, o) := start (set_secure sec (newHandshake c)) in MkTrace h o [] Reading.

Definition register (c : Config) (sec : bool) (ms : list Message) : trace :=
  foldl register_step (register_start c sec) ms.
End handle.
