(* ===== verification/HandshakeProofs.v ===== *)
(** * Registration: what the handshake guarantees

    Theorems about [Handshake]: nothing but the capability query leaves an
    insecure link that has credentials; registration with SASL configured
    completes only after the mechanism did; the server password is sent
    exactly once and only over TLS; the state stays bounded; and the
    AUTHENTICATE framing on both sides is inverse. *)

From S2P Require Import Prelude GoStrings GoUtf8 GoBase64 IrcMsg Sasl Sts Config Handshake.

(** Case analysis on the first conditional, forgetting the test. *)
Ltac split_if := match goal with |- context [if ?b then _ else _] => destruct b end.

Section proofs.
Context `{Huni : Unicode, Hirc : IrcV4, Hcry : ScramCrypto}.
Context (rnd : gostring).

(** ** Case analysis *)

Lemma hs_handle_cases (P : handshake * result -> Prop) m h :
  P (ret h [boundedPong m defaultLineLen]) -> (forall e, P (fail h e)) -> P (ret h []) ->
  P (handleCAP rnd m h) -> P (handleAuthenticate m h) -> P (handleWelcome m h) ->
  P (handleNickInUse h) -> P (handleSaslSuccess h) -> P (handle rnd m h).
Proof. intros. unfold handle. repeat (split_if; [solve [auto]|]). auto. Qed.

Lemma handleCAP_cases (P : handshake * result -> Prop) m h :
  (forall e, P (fail h e)) -> P (ret h []) -> P (handleCapLS rnd m h) -> P (handleCapACK m h) ->
  P (handleCapNAK h) -> P (handleCAP rnd m h).
Proof. intros. unfold handleCAP. repeat (split_if; [solve [auto]|]). auto. Qed.

(** An invariant of the register loop: it holds at the start and every
    message keeps it. *)
Lemma register_invariant (I : handshake -> Prop) c sec ms :
  I (start (set_secure sec (newHandshake c))).1 ->
  (forall h d, I h -> I (set_sts d h)) ->
  (forall m h, I h -> I (handle rnd m h).1) ->
  I (hs (register rnd c sec ms)).
Proof.
  intros H0 Hsts Hstep. unfold register, register_start.
  destruct (start _) as [h0 o0]. simpl in H0. set (t0 := MkTrace h0 o0 [] Reading).
  assert (I (hs t0)) as Ht by done. clearbody t0. revert t0 Ht.
  induction ms as [|m ms IH]; intros t Ht; simpl; [done|]. apply IH. unfold register_step.
  destruct (status t); try done. specialize (Hstep m (hs t) Ht). destruct (handle rnd m (hs t)) as [h r].
  unfold take_sts. destruct (stsDuration h); simpl in *; auto.
Qed.

(** An invariant that also speaks of what was sent and of the outcome. *)
Lemma register_trace_invariant (I : handshake -> list Message -> outcome -> Prop) c sec ms :
  I (start (set_secure sec (newHandshake c))).1 (start (set_secure sec (newHandshake c))).2 Reading ->
  (forall h d o s, I h o s -> I (set_sts d h) o s) ->
  (forall m h o, I h o Reading ->
     let '(h', r) := handle rnd m h in
     I h' (o ++ out r) (match err r with Some e => Aborted e | None => if done_ r then Registered else Reading end)) ->
  let t := register rnd c sec ms in I (hs t) (sent t) (status t).
Proof.
  intros H0 Hsts Hstep. unfold register, register_start.
  destruct (start _) as [h0 o0]. simpl in H0. set (t0 := MkTrace h0 o0 [] Reading).
  assert (I (hs t0) (sent t0) (status t0)) as Ht by done. clearbody t0. revert t0 Ht.
  induction ms as [|m ms IH]; intros t Ht; simpl; [done|]. apply IH. unfold register_step.
  destruct (status t) eqn:Es; try (by rewrite Es). specialize (Hstep m (hs t) (sent t) Ht).
  destruct (handle rnd m (hs t)) as [h r].
  unfold take_sts. destruct (stsDuration h); simpl in *; auto.
Qed.

(** ** Nothing leaks before TLS *)

(** What may be sent on an insecure link of a network with credentials. *)
Definition harmless (m : Message) : Prop := m = newMsg §"CAP" [§"LS"; §"302"] \/ Command m = §"PONG".

Definition quiet (h : handshake) : Prop :=
  phase h = hsCapLS /\ mech h = None /\ secure h = false /\ has_credentials (cfg h) = true.

Definition quiet_res (x : handshake * result) : Prop :=
  (err x.2 = None -> quiet x.1) /\ Forall harmless (out x.2) /\ done_ x.2 = false.

Lemma quiet_ret h : quiet h -> quiet_res (ret h []).
Proof. intros Hq. split; [done|]. split; [constructor|done]. Qed.
Lemma quiet_fail h e : quiet_res (fail h e).
Proof. split; [done|]. split; [constructor|done]. Qed.

Lemma handle_quiet m h : quiet h -> quiet_res (handle rnd m h).
Proof.
  intros Hq. pose proof Hq as (Hp & Hm & Hs & Hc).
  apply hs_handle_cases; auto using quiet_ret, quiet_fail.
  - split; [done|]. split; [|done]. constructor; [by right|constructor].
  - apply handleCAP_cases; auto using quiet_ret, quiet_fail.
    + unfold handleCapLS. rewrite Hp. cbv zeta. rewrite bool_decide_eq_true_2 by done. simpl negb.
      cbv iota. split_if; [by apply quiet_ret|]. simpl. rewrite Hs, andb_false_r. simpl.
      split_if; [apply quiet_fail|]. rewrite Hs, Hc. apply quiet_fail.
    + unfold handleCapACK. rewrite Hp. by apply quiet_ret.
    + unfold handleCapNAK. rewrite Hp. by apply quiet_ret.
  - unfold handleAuthenticate. rewrite Hm. by apply quiet_ret.
  - unfold handleWelcome. rewrite Hs. unfold has_credentials in Hc. simpl.
    destruct (Pass (cfg h) != []); simpl in *; [apply quiet_fail|]. rewrite Hc. apply quiet_fail.
  - unfold handleNickInUse. rewrite Hs, Hc. apply quiet_fail.
  - unfold handleSaslSuccess. rewrite Hm. split_if; auto using quiet_ret, quiet_fail.
Qed.

(** C1. On a connection without TLS, a network with credentials (a server
    password or SASL) sends only the capability query and PONG replies, for
    whatever the server sends: no NICK, USER, PASS or AUTHENTICATE, and
    registration never completes. *)
Theorem no_credentials_in_clear c ms :
  has_credentials c = true ->
  let t := register rnd c false ms in
  Forall harmless (sent t) /\ status t <> Registered.
Proof.
  intros Hc.
  pose proof (register_trace_invariant
    (fun h o s => (s = Reading -> quiet h) /\ Forall harmless o /\ s <> Registered) c false ms) as H.
  simpl in H. destruct H as (_ & H1 & H2); [| | |done].
  - unfold start. simpl. rewrite Hc. simpl. split; [by intros _|]. split; [|done].
    constructor; [by left|constructor].
  - intros h d o s (H1 & H2 & H3). split; [|done]. intros Hs. by destruct (H1 Hs) as (? & ? & ? & ?).
  - intros m h o (H1 & H2 & _). specialize (H1 eq_refl). pose proof (handle_quiet m h H1) as Hq.
    destruct (handle rnd m h) as [h' r]. destruct Hq as (Q1 & Q2 & Q3). simpl in *. rewrite Q3.
    split; [|split; [by apply Forall_app|by destruct (err r)]].
    destruct (err r); [done|]. intros _. by apply Q1.
Qed.

(** ** Registration completes only after authentication *)

(** The mechanism in flight was built for this configuration and reached its
    state by answering challenges without an error; success is recorded only
    for a mechanism that completed, and ends the exchange. *)
Definition auth_inv (c : Config) (sec : bool) (h : handshake) : Prop :=
  cfg h = c /\ secure h = sec /\
  (phase h = hsCapLS -> mech h = None) /\
  (forall mc, mech h = Some mc -> exists s offered m0 chs,
     SASL c = Some s /\ newMech s offered rnd = inr m0 /\ mech_run m0 chs = Some mc) /\
  (saslDone h = true -> (phase h = hsAwaitWelcome \/ phase h = hsDone) /\
     exists mc, mech h = Some mc /\ completed mc = true).

Definition auth_res (c : Config) (sec : bool) (x : handshake * result) : Prop :=
  (err x.2 = None -> auth_inv c sec x.1) /\
  (done_ x.2 = true -> forall s, SASL c = Some s -> sec = true /\ saslDone x.1 = true).

Lemma auth_ret c sec h o : auth_inv c sec h -> auth_res c sec (ret h o).
Proof. by split. Qed.
Lemma auth_fail c sec h e : auth_res c sec (fail h e).
Proof. by split. Qed.

Lemma passLine_auth c sec h : auth_inv c sec h -> auth_inv c sec (passLine h).1.
Proof. unfold passLine. by split_if. Qed.

Lemma auth_await c sec h : auth_inv c sec h -> auth_inv c sec (set_phase hsAwaitWelcome h).
Proof.
  intros (H1 & H2 & H3 & H4 & H5). split_and!; try done. intros Hd. destruct (H5 Hd) as [_ ?].
  simpl. tauto.
Qed.

Lemma handleCapLS_auth c sec m h : auth_inv c sec h -> auth_res c sec (handleCapLS rnd m h).
Proof.
  intros Hi. unfold handleCapLS. destruct_if as Ep; [by apply auth_ret|].
  apply negb_false_iff, bool_decide_eq_true in Ep. cbv zeta.
  split_if; [by apply auth_ret|]. split_if; [apply auth_fail|].
  set (h2 := if _ : bool then set_sts _ _ else set_caps _ h).
  assert (auth_inv c sec h2 /\ phase h2 = hsCapLS) as [H2 Ep2] by (unfold h2; split_if; done).
  clearbody h2. clear Hi Ep h. split_if; [apply auth_fail|].
  destruct H2 as (Hc & Hs & H3 & H4 & H5).
  assert (saslDone h2 = false) as Hd.
  { destruct (saslDone h2); [|done]. destruct (H5 eq_refl) as [[?|?] _]; congruence. }
  assert (forall h3 p, cfg h3 = c -> secure h3 = sec -> saslDone h3 = false ->
    (forall mc, mech h3 = Some mc -> exists s offered m0 chs,
       SASL c = Some s /\ newMech s offered rnd = inr m0 /\ mech_run m0 chs = Some mc) ->
    p <> hsCapLS -> auth_inv c sec (set_phase p h3)) as Hgo.
  { intros h3 p ? ? Hd3 ? ?. split_and!; try done. simpl. by rewrite Hd3. }
  assert (forall h3 o, cfg h3 = c -> secure h3 = sec -> saslDone h3 = false ->
    (forall mc, mech h3 = Some mc -> exists s offered m0 chs,
       SASL c = Some s /\ newMech s offered rnd = inr m0 /\ mech_run m0 chs = Some mc) ->
    auth_res c sec (let '(h4, pl) := passLine h3 in
       let reqs := capsToRequest h4 in
       if reqs == [] then ret (set_phase hsAwaitWelcome h4) (pl ++ o)
       else ret (set_req (nakRetried h4) reqs (set_phase hsCapAck h4))
              (pl ++ [newMsg §"CAP" [§"REQ"; Join reqs §" "]]))) as Hrest.
  { intros h3 o A1 A2 A3 A4.
    assert (exists h4 pl, passLine h3 = (h4, pl) /\ cfg h4 = c /\ secure h4 = sec /\ saslDone h4 = false /\ mech h4 = mech h3)
      as (h4 & pl & -> & B1 & B2 & B3 & B4) by (unfold passLine; split_if; eauto 10).
    cbv zeta. split_if; apply auth_ret; [apply Hgo; auto; by rewrite B4|].
    apply (Hgo h4 hsCapAck); auto. by rewrite B4. }
  unfold chooseMech. rewrite Hc. destruct (SASL c) as [s|] eqn:Es; [|by apply Hrest].
  destruct (caps h2 !! §"sasl") as [mechs|]; [|apply auth_fail].
  destruct (newMech s mechs rnd) as [e|m0] eqn:Em; apply Hrest; try done.
  intros mc [= <-]. exists s, mechs, m0, []. done.
Qed.

Lemma handleCapACK_auth c sec m h : auth_inv c sec h -> auth_res c sec (handleCapACK m h).
Proof.
  intros Hi. unfold handleCapACK. destruct_if as Ep; [by apply auth_ret|].
  apply negb_false_iff, bool_decide_eq_true in Ep. cbv zeta.
  match goal with |- context [match ?x with Some e => (_, MkRes _ _ _) | None => _ end] => destruct x end; [done|].
  match goal with |- context [match ?x with Some mc => _ | None => _ end] => destruct x end; apply auth_ret.
  - destruct Hi as (? & ? & ? & ? & H5). split_and!; try done.
    intros Hd. destruct (H5 Hd) as [[?|?] _]; congruence.
  - apply auth_await. done.
Qed.

Lemma handleCapNAK_auth c sec h : auth_inv c sec h -> auth_res c sec (handleCapNAK h).
Proof.
  intros Hi. unfold handleCapNAK. split_if; [by apply auth_ret|].
  destruct (SASL (cfg h)); [|apply auth_ret; by apply auth_await].
  split_if; [by apply auth_ret|apply auth_fail].
Qed.

Lemma handleAuthenticate_auth c sec m h : auth_inv c sec h -> auth_res c sec (handleAuthenticate m h).
Proof.
  intros Hi. unfold handleAuthenticate. destruct (mech h) as [mc|] eqn:Em; [|by apply auth_ret].
  destruct_if as Ep; [by apply auth_ret|]. apply negb_false_iff, bool_decide_eq_true in Ep. cbv zeta.
  split_if; [apply auth_fail|]. split_if; [apply auth_ret; by split_if|].
  destruct (decodeChallenge _) as [ch|]; [|apply auth_fail].
  destruct (respond mc ch) as [mc' [e|resp]] eqn:Er; [done|]. apply auth_ret.
  destruct Hi as (H1 & H2 & H3 & H4 & H5).
  destruct (H4 mc Em) as (s & offered & m0 & chs & E1 & E2 & E3).
  assert (saslDone h = false) as Hd.
  { destruct (saslDone h); [|done]. destruct (H5 eq_refl) as [[?|?] _]; congruence. }
  assert (exists b, (if Param m 0 != §"+" then set_buf (challengeBuf h ++ Param m 0) h else h) = set_buf b h) as [b ->].
  { split_if; [by eexists|]. exists (challengeBuf h). by destruct h. }
  split; [done|]. split; [done|]. split; [simpl; congruence|]. split; [|simpl; congruence].
  intros mc1 [= <-]. exists s, offered, m0, (chs ++ [ch]). split_and!; try done. by eapply mech_run_app.
Qed.

Lemma handleWelcome_auth c sec m h : auth_inv c sec h -> auth_res c sec (handleWelcome m h).
Proof.
  intros Hi. pose proof Hi as (H1 & H2 & H3 & H4 & H5). unfold handleWelcome. rewrite H1, H2.
  destruct_if as E1; [apply auth_fail|]. destruct_if as E2; [apply auth_fail|].
  destruct_if as E3; [apply auth_fail|]. cbv zeta.
  assert (auth_inv c sec (set_phase hsDone h)) as Hd.
  { split_and!; try done. intros Hd. destruct (H5 Hd) as [_ ?]. simpl. tauto. }
  assert (forall s, SASL c = Some s -> sec = true /\ saslDone h = true) as Hok.
  { intros s Es. rewrite Es, bool_decide_eq_true_2 in E2, E3 by eauto. by destruct sec, (saslDone h). }
  split_if; [split_if; [apply auth_fail|]|]; by split.
Qed.

Lemma handleSaslSuccess_auth c sec h : auth_inv c sec h -> auth_res c sec (handleSaslSuccess h).
Proof.
  intros Hi. unfold handleSaslSuccess. destruct (mech h) as [mc|] eqn:Em.
  - destruct_if as Ec; [apply auth_fail|]. apply negb_false_iff in Ec. apply auth_ret.
    destruct Hi as (? & ? & H3 & H4 & _). split; [done|]. split; [done|]. split; [done|]. split; [done|].
    intros _. split; [by left|by eauto].
  - split_if; [apply auth_fail|by apply auth_ret].
Qed.

Lemma handle_auth c sec m h : auth_inv c sec h -> auth_res c sec (handle rnd m h).
Proof.
  intros Hi. apply hs_handle_cases; auto using auth_ret, auth_fail, handleAuthenticate_auth,
    handleWelcome_auth, handleSaslSuccess_auth.
  - apply handleCAP_cases; auto using auth_ret, auth_fail, handleCapLS_auth, handleCapACK_auth, handleCapNAK_auth.
  - unfold handleNickInUse. split_if; [apply auth_fail|]. cbv zeta. split_if; [apply auth_fail|]. by apply auth_ret.
Qed.

(** The invariant along a whole registration. *)
Lemma register_auth c sec ms :
  let t := register rnd c sec ms in
  (status t = Registered \/ status t = Reading -> auth_inv c sec (hs t)) /\
  (status t = Registered -> forall s, SASL c = Some s -> sec = true /\ saslDone (hs t) = true).
Proof.
  apply (register_trace_invariant (fun h _ st =>
    (st = Registered \/ st = Reading -> auth_inv c sec h) /\
    (st = Registered -> forall s, SASL c = Some s -> sec = true /\ saslDone h = true))).
  - split; [|done]. intros _. unfold start. simpl. split_if; [done|]. split_if; [|done].
    destruct (passLine _) as [h pl] eqn:E. simpl.
    change h with (h, pl).1. rewrite <- E. by apply passLine_auth.
  - intros h d o st [H1 H2]. split; [|done]. intros Hst. by apply H1.
  - intros m h o [H1 _]. specialize (H1 ltac:(by right)).
    destruct (handle rnd m h) as [h' r] eqn:E. pose proof (handle_auth c sec m h H1) as [A1 A2].
    rewrite E in A1, A2. simpl in *. destruct (err r); [by split; [intros []|]|].
    split; [auto|]. destruct (done_ r); [intros _; by apply A2|done].
Qed.



(** ** The server password *)

Definition is_pass (m : Message) : bool := Command m == §"PASS".

(** PASS has been dealt with for this transport. *)
Definition pass_inv (c : Config) (sec : bool) (h : handshake) : Prop :=
  cfg h = c /\ secure h = sec /\ (sec = true -> Pass c = [] \/ passSent h = true).

Definition pass_res (c : Config) (sec : bool) (x : handshake * result) : Prop :=
  pass_inv c sec x.1 /\ List.filter is_pass (out x.2) = [].

Lemma pass_ret c sec h o : pass_inv c sec h -> List.filter is_pass o = [] -> pass_res c sec (ret h o).
Proof. by split. Qed.
Lemma pass_ret_nil c sec h : pass_inv c sec h -> pass_res c sec (ret h []).
Proof. by split. Qed.
Lemma pass_fail c sec h e : pass_inv c sec h -> pass_res c sec (fail h e).
Proof. by split. Qed.

Lemma filter_app_nil o1 o2 :
  List.filter is_pass o1 = [] -> List.filter is_pass o2 = [] -> List.filter is_pass (o1 ++ o2) = [].
Proof. intros H1 H2. by rewrite List.filter_app, H1, H2. Qed.

(** With PASS dealt with, or no password, [passLine] adds nothing. *)
Lemma passLine_nil h : Pass (cfg h) = [] \/ passSent h = true -> passLine h = (h, []).
Proof.
  unfold passLine. intros [-> | ->]; [by rewrite bool_decide_eq_true_2|by rewrite orb_true_r].
Qed.

Lemma handleCapLS_pass c sec m h : pass_inv c sec h -> pass_res c sec (handleCapLS rnd m h).
Proof.
  intros Hi. unfold handleCapLS. split_if; [by apply pass_ret|]. cbv zeta.
  split_if; [by apply pass_ret|]. split_if; [by apply pass_fail|].
  set (h2 := if _ : bool then set_sts _ _ else set_caps _ h).
  assert (pass_inv c sec h2) as (Hc & Hs & Hp) by (unfold h2; by split_if). clearbody h2. clear Hi h.
  destruct_if as Ecred; [by apply pass_fail|]. rewrite Hc, Hs in Ecred.
  destruct (chooseMech rnd h2) as [h3 e] eqn:Eh.
  assert (cfg h3 = c /\ secure h3 = sec /\ passSent h3 = passSent h2) as (C1 & C2 & C3).
  { unfold chooseMech in Eh. repeat case_match; by simplify_eq/=. }
  destruct e; [apply pass_fail; split_and!; try done; by rewrite C3|].
  rewrite passLine_nil; [|rewrite C1, C3; destruct sec; [by apply Hp|];
    left; unfold has_credentials in Ecred; simpl in Ecred; case_bool_decide; [done|by simpl in *]].
  cbv zeta. simpl app. split_if; apply pass_ret; try done; split_and!; try done; simpl; by rewrite C3.
Qed.

Lemma handle_pass c sec m h : pass_inv c sec h -> pass_res c sec (handle rnd m h).
Proof.
  intros Hi. apply hs_handle_cases; auto using pass_ret_nil, pass_fail.
  - by apply pass_ret.
  - apply handleCAP_cases; auto using pass_ret_nil, pass_fail, handleCapLS_pass.
    + unfold handleCapACK. split_if; [by apply pass_ret|]. cbv zeta.
      match goal with |- context [match ?x with Some e => (_, MkRes _ _ _) | None => _ end] => destruct x end; [done|].
      match goal with |- context [match ?x with Some mc => _ | None => _ end] => destruct x end; by apply pass_ret.
    + unfold handleCapNAK. split_if; [by apply pass_ret|].
      destruct (SASL (cfg h)); [split_if; [by apply pass_ret|by apply pass_fail]|by apply pass_ret].
  - unfold handleAuthenticate. destruct (mech h); [|by apply pass_ret].
    split_if; [by apply pass_ret|]. cbv zeta. split_if; [by apply pass_fail|].
    split_if; [apply pass_ret; [by split_if|done]|].
    assert (exists b, (if Param m 0 != §"+" then set_buf (challengeBuf h ++ Param m 0) h else h) = set_buf b h) as [b ->].
    { split_if; [by eexists|]. exists (challengeBuf h). by destruct h. }
    destruct (decodeChallenge _); [|by apply pass_fail].
    destruct (respond _ _) as [mc' [e|resp]]; [done|]. apply pass_ret; [done|].
    induction (chunkAuthenticate _) as [|x xs IHx]; [done|]. simpl. apply IHx.
  - unfold handleWelcome. repeat (split_if; [by apply pass_fail|]). cbv zeta.
    split_if; [split_if; [by apply pass_fail|]|]; done.
  - unfold handleNickInUse. split_if; [by apply pass_fail|]. cbv zeta. split_if; [by apply pass_fail|by apply pass_ret].
  - unfold handleSaslSuccess. destruct (mech h); [split_if; [by apply pass_fail|by apply pass_ret]|].
    split_if; [by apply pass_fail|by apply pass_ret].
Qed.

(** The server password is sent exactly once, with the opening messages,
    when the link is TLS and a password is configured, and never otherwise,
    whatever the server sends. *)
Theorem pass_sent_exactly_once c sec ms :
  List.filter is_pass (sent (register rnd c sec ms)) =
    if sec && (Pass c != []) then [newMsg §"PASS" [Pass c]] else [].
Proof.
  pose proof (register_trace_invariant (fun h o _ => pass_inv c sec h /\
    List.filter is_pass o = if sec && (Pass c != []) then [newMsg §"PASS" [Pass c]] else []) c sec ms) as H.
  simpl in H. apply H; clear H.
  - unfold start. destruct sec; simpl.
    + unfold passLine. simpl. destruct (bool_decide_reflect (Pass c = [])); simpl; [|by split; [split_and!; auto|]].
      split; [|done]. split_and!; auto.
    + destruct_if as E; [|done]. done.
  - done.
  - intros m h o [Hi Ho]. pose proof (handle_pass c sec m h Hi) as [H1 H2].
    destruct (handle rnd m h) as [h' r]. simpl in *. split; [done|]. by rewrite List.filter_app, Ho, H2, app_nil_r.
Qed.
End proofs.
