(* ===== verification/HandshakeBounds.v ===== *)
(** * Registration: bounds, framing and nick fallback

    The state a server can make the handshake accumulate is bounded; a
    chunked SASL challenge is reassembled to exactly what the server encoded;
    every line registration produces passes the writer's framing check; and
    the fallback nicks are usable. *)

From S2P Require Import Prelude GoStrings GoUtf8 GoBase64 IrcMsg Sasl Sts Config Handshake HandshakeProofs.

Section bounds.
Context `{Huni : Unicode, Hirc : IrcV4, Hcry : ScramCrypto}.
Context (rnd : gostring).

(** ** Bounded state *)

Definition is_nick (m : Message) : bool := Command m == §"NICK".

Definition hs_bounded (h : handshake) : Prop :=
  Z.of_nat (size (caps h)) <= maxAdvertisedCaps /\
  (forall x, x ∈ enabled h -> x ∈ wantedCaps \/ x = §"sasl") /\
  len (challengeBuf h) <= maxSASLChallenge /\
  0 <= nickTries h.

Lemma parseCapList_size l dst :
  Z.of_nat (size dst) <= maxAdvertisedCaps -> Z.of_nat (size (parseCapList l dst)) <= maxAdvertisedCaps.
Proof.
  unfold parseCapList. revert dst. induction (Fields l) as [|tok toks IH]; intros dst Hd; simpl; [done|].
  apply IH. unfold cap_token. destruct (Cut tok x3d) as [[n v] ok]. destruct_if as E; [done|].
  destruct (dst !! n) as [x|] eqn:En.
  - rewrite map_size_insert_Some; [done|by eexists].
  - rewrite bool_decide_eq_true_2 in E by done. simpl in E. rewrite map_size_insert_None by done. lia.
Qed.

Lemma ack_tokens_wanted toks en :
  (forall x, x ∈ en -> x ∈ wantedCaps \/ x = §"sasl") ->
  forall x, x ∈ foldl ack_token en toks -> x ∈ wantedCaps \/ x = §"sasl".
Proof.
  revert en. induction toks as [|tok toks IH]; intros en He; simpl; [done|]. apply IH.
  unfold ack_token. destruct (CutPrefix tok (§"-")); [intros x [? _]%elem_of_difference; auto|].
  destruct_if as E; [|done]. intros x [->%elem_of_singleton|?]%elem_of_union; [|auto].
  apply orb_true_iff in E as [E|E%bool_decide_eq_true]; [left; by apply bool_decide_eq_true in E|by right].
Qed.

(** The state stays bounded and each NICK line was paid for by a retry. *)
Definition bnd_res (h : handshake) (x : handshake * result) : Prop :=
  hs_bounded x.1 /\
  (len (List.filter is_nick (out x.2)) + Z.min (nickTries h) 3 <= Z.min (nickTries x.1) 3).

Lemma bnd_ret h h' o :
  hs_bounded h' -> nickTries h' = nickTries h -> List.filter is_nick o = [] -> bnd_res h (ret h' o).
Proof. intros H1 H2 H3. split; [done|]. simpl. rewrite H3, H2, len_nil. lia. Qed.
Lemma bnd_fail h h' e : hs_bounded h' -> nickTries h <= nickTries h' -> bnd_res h (fail h' e).
Proof. intros H1 H2. split; [done|]. simpl. rewrite len_nil. lia. Qed.
Lemma bnd_ret0 h : hs_bounded h -> bnd_res h (ret h []).
Proof. intros. by apply bnd_ret. Qed.
Lemma bnd_fail0 h e : hs_bounded h -> bnd_res h (fail h e).
Proof. intros. by apply bnd_fail. Qed.

Lemma passLine_frame h :
  let '(h', pl) := passLine h in
  caps h' = caps h /\ enabled h' = enabled h /\ challengeBuf h' = challengeBuf h /\ nickTries h' = nickTries h /\
  List.filter is_nick pl = [].
Proof. unfold passLine. by split_if. Qed.

Lemma handleCapLS_bnd m h : hs_bounded h -> bnd_res h (handleCapLS rnd m h).
Proof.
  intros Hb. unfold handleCapLS. split_if; [by apply bnd_ret0|]. cbv zeta.
  pose proof Hb as (B1 & B2 & B3 & B4).
  assert (hs_bounded (set_caps (parseCapList (default [] (last (Params m))) (caps h)) h)) as Hb1
    by (split; [by apply parseCapList_size|done]).
  split_if; [by apply bnd_ret|]. split_if; [by apply bnd_fail|].
  set (h2 := if _ : bool then set_sts _ _ else set_caps _ h).
  assert (hs_bounded h2 /\ nickTries h2 = nickTries h) as [Hb2 Ht] by (unfold h2; by split_if). clearbody h2.
  split_if; [apply bnd_fail; [done|lia]|].
  destruct (chooseMech rnd h2) as [h3 e] eqn:Eh.
  assert (hs_bounded h3 /\ nickTries h3 = nickTries h) as [Hb3 Ht3]
    by (unfold chooseMech in Eh; repeat case_match; by simplify_eq/=).
  destruct e; [apply bnd_fail; [done|lia]|].
  pose proof (passLine_frame h3) as Hf. destruct (passLine h3) as [h4 pl]. destruct Hf as (F1 & F2 & F3 & F4 & F5).
  assert (hs_bounded h4) as Hb4 by (unfold hs_bounded in *; by rewrite F1, F2, F3, F4).
  cbv zeta. split_if; (apply bnd_ret; [done|simpl; lia|by rewrite List.filter_app, F5]).
Qed.

Lemma handleAuthenticate_bnd m h : hs_bounded h -> bnd_res h (handleAuthenticate m h).
Proof.
  intros Hb. pose proof Hb as (B1 & B2 & B3 & B4). unfold handleAuthenticate.
  destruct (mech h) as [mc|]; [|by apply bnd_ret0]. split_if; [by apply bnd_ret0|]. cbv zeta.
  assert (forall b, len b <= maxSASLChallenge -> hs_bounded (set_buf b h)) as Hbuf by (intros; by split_and!).
  destruct_if as Ea; [apply bnd_fail; [by apply Hbuf|done]|].
  assert (hs_bounded (if Param m 0 != §"+" then set_buf (challengeBuf h ++ Param m 0) h else h)) as Hb1.
  { destruct_if as E; [|done]. apply Hbuf. rewrite len_app. simpl in Ea. lia. }
  assert (exists b, (if Param m 0 != §"+" then set_buf (challengeBuf h ++ Param m 0) h else h) = set_buf b h) as [b Eb].
  { split_if; [by eexists|]. exists (challengeBuf h). by destruct h. }
  rewrite Eb in *. clear Eb Ea. split_if; [by apply bnd_ret|].
  destruct (decodeChallenge _); [|by apply bnd_fail].
  destruct (respond _ _) as [mc' [e|resp]]; simpl.
  - split; [done|]. simpl. rewrite len_nil. lia.
  - apply bnd_ret; [done|done|]. induction (chunkAuthenticate _) as [|x xs IHx]; [done|]. simpl. apply IHx.
Qed.

Lemma handle_bnd m h : hs_bounded h -> bnd_res h (handle rnd m h).
Proof.
  intros Hb. apply hs_handle_cases; auto using bnd_ret0, bnd_fail0, handleAuthenticate_bnd.
  - by apply bnd_ret.
  - apply handleCAP_cases; auto using bnd_ret0, bnd_fail0, handleCapLS_bnd.
    + unfold handleCapACK. split_if; [by apply bnd_ret0|]. cbv zeta.
      set (h2 := set_enabled _ h). assert (hs_bounded h2 /\ nickTries h2 = nickTries h) as [Hb2 Ht].
      { split; [|done]. destruct Hb as (? & ? & ? & ?). split_and!; try done. by apply ack_tokens_wanted. }
      clearbody h2.
      match goal with |- context [match ?x with Some e => (_, MkRes _ _ _) | None => _ end] => destruct x end;
        [split; [done|simpl; rewrite len_nil; lia]|].
      match goal with |- context [match ?x with Some mc => _ | None => _ end] => destruct x end; by apply bnd_ret.
    + unfold handleCapNAK. split_if; [by apply bnd_ret0|].
      destruct (SASL (cfg h)); [split_if; [by apply bnd_ret|by apply bnd_fail]|by apply bnd_ret].
  - unfold handleWelcome. repeat (split_if; [by apply bnd_fail|]). cbv zeta.
    split_if; [split_if; [by apply bnd_fail|]|]; (split; [done|simpl; rewrite len_nil; lia]).
  - unfold handleNickInUse. split_if; [by apply bnd_fail|]. cbv zeta.
    assert (hs_bounded (set_nickTries (nickTries h + 1) h)) as Hb1
      by (destruct Hb as (? & ? & ? & ?); split_and!; try done; simpl; lia).
    destruct_if as E; [apply bnd_fail; [done|simpl; lia]|].
    split; [done|]. simpl in *. rewrite len_cons, len_nil. lia.
  - unfold handleSaslSuccess. destruct (mech h); [split_if; [by apply bnd_fail|by apply bnd_ret]|].
    split_if; [by apply bnd_fail|by apply bnd_ret].
Qed.

(** Whatever a server streams during registration, at most 512
    capabilities are retained, only capabilities we want (or sasl) are ever
    enabled, the buffered SASL challenge stays within 8 KiB, and at most four
    NICK lines are sent: the configured nick and three fallbacks. *)
Theorem registration_bounded c sec ms :
  let t := register rnd c sec ms in
  Z.of_nat (size (caps (hs t))) <= maxAdvertisedCaps /\
  (forall x, x ∈ enabled (hs t) -> x ∈ wantedCaps \/ x = §"sasl") /\
  len (challengeBuf (hs t)) <= maxSASLChallenge /\
  len (List.filter is_nick (sent t)) <= 4.
Proof.
  pose proof (register_trace_invariant rnd (fun h o _ => hs_bounded h /\
    len (List.filter is_nick o) <= 1 + Z.min (nickTries h) 3) c sec ms) as H.
  simpl in H. destruct H as [(H1 & H2 & H3 & H4) H5]; [| | |split_and!; try done; lia].
  - assert (hs_bounded (set_secure sec (newHandshake c))) as Hb.
    { split_and!; simpl; done. }
    unfold start. simpl. destruct_if as E; [done|].
    pose proof (passLine_frame (set_secure sec (newHandshake c))) as Hf.
    destruct sec; simpl; [|done]. destruct (passLine _) as [h4 pl]. destruct Hf as (F1 & F2 & F3 & F4 & F5).
    simpl. rewrite List.filter_app, F5. simpl. rewrite F4. split; [|done].
    unfold hs_bounded. by rewrite F1, F2, F3, F4.
  - done.
  - intros m h o [Hb Ho]. pose proof (handle_bnd m h Hb) as [H1 H2]. destruct (handle rnd m h) as [h' r].
    simpl in *. split; [done|]. rewrite List.filter_app, len_app. lia.
Qed.

(** ** Challenge reassembly *)

(** The AUTHENTICATE line with one argument. *)
Definition auth_line (arg : gostring) : Message := newMsg §"AUTHENTICATE" [arg].

(** The server's lines, handled one after the other. *)
Definition feed (h : handshake) (ms : list Message) : handshake * list Message :=
  foldl (fun '(h, o) m => let '(h', r) := handle rnd m h in (h', o ++ out r)) (h, []) ms.

Context `{!IrcV4Laws}.

Lemma auth_step_full mc h arg o :
  phase h = hsAuthChallenge -> mech h = Some mc -> len arg = 400 ->
  len (challengeBuf h) + len arg <= maxSASLChallenge ->
  (let '(h', r) := handle rnd (auth_line arg) h in (h', o ++ out r))
  = (set_buf (challengeBuf h ++ arg) h, o).
Proof.
  intros Hp Hm Ha Hl. unfold handle, auth_line. cbv zeta. simpl Command. go_switch.
  unfold handleAuthenticate. rewrite Hm, Hp, Param_spec. simpl.
  rewrite (bool_decide_eq_false_2 (arg = §"+")) by (by intros ->). simpl.
  destruct (Z.gtb_spec (len (challengeBuf h) + len arg) maxSASLChallenge); [lia|].
  rewrite Ha. simpl. by rewrite app_nil_r.
Qed.

Lemma feed_fulls mc fulls h o :
  phase h = hsAuthChallenge -> mech h = Some mc -> Forall (fun c => len c = 400) fulls ->
  len (challengeBuf h) + len (concat fulls) <= maxSASLChallenge ->
  foldl (fun '(h, o) m => let '(h', r) := handle rnd m h in (h', o ++ out r)) (h, o) (auth_line <$> fulls)
  = (set_buf (challengeBuf h ++ concat fulls) h, o).
Proof.
  intros Hp Hm Hf. revert h Hp Hm. induction Hf as [|c fulls Hc _ IH]; intros h Hp Hm Hl.
  - simpl. rewrite app_nil_r. by destruct h.
  - rewrite concat_cons, len_app in Hl. pose proof (len_nonneg (concat fulls)).
    rewrite fmap_cons. cbn [foldl]. rewrite (auth_step_full mc) by (done || lia).
    rewrite IH; [|done..|simpl; rewrite len_app; lia]. simpl. by rewrite <- app_assoc.
Qed.

Lemma auth_step_last mc h arg o :
  phase h = hsAuthChallenge -> mech h = Some mc -> len arg <> 400 ->
  let full := if arg == §"+" then challengeBuf h else challengeBuf h ++ arg in
  len full <= maxSASLChallenge ->
  forall ch, decodeChallenge (if full == [] then §"+" else full) = Some ch ->
  forall mc' resp, respond mc ch = (mc', inr resp) ->
  (let '(h', r) := handle rnd (auth_line arg) h in (h', o ++ out r))
  = (set_mech (Some mc') (mechErr h) (set_buf [] h),
     o ++ (auth_line <$> chunkAuthenticate (EncodeToString resp))).
Proof.
  intros Hp Hm Ha full Hl ch Hd mc' resp Hr. unfold handle, auth_line. cbv zeta. simpl Command. go_switch.
  unfold handleAuthenticate. rewrite Hm, Hp, Param_spec. simpl. unfold full in *.
  destruct (bool_decide_reflect (arg = §"+")) as [->|Hne]; simpl in *.
  - rewrite Hd, Hr. simpl. by destruct h.
  - rewrite len_app in Hl.
    destruct (Z.gtb_spec (len (challengeBuf h) + len arg) maxSASLChallenge); [lia|].
    destruct (Z.eqb_spec (len arg) 400); [done|]. simpl. rewrite Hd, Hr. done.
Qed.

(** A SASL challenge a server encodes and splits the way the protocol
    asks is answered as if it had arrived in one piece: after its last line
    the mechanism has been given exactly the challenge's bytes, the buffer is
    empty, and the response goes out in AUTHENTICATE lines that the same
    rule reassembles. *)
Theorem challenge_reassembled h mc ch mc' resp :
  phase h = hsAuthChallenge -> mech h = Some mc -> challengeBuf h = [] ->
  len (EncodeToString ch) <= maxSASLChallenge -> respond mc ch = (mc', inr resp) ->
  feed h (auth_line <$> chunkAuthenticate (EncodeToString ch)) =
    (set_mech (Some mc') (mechErr h) h, auth_line <$> chunkAuthenticate (EncodeToString resp)).
Proof.
  intros Hp Hm Hb Hl Hr. unfold feed. destruct (decide (ch = [])) as [->|Hch].
  { change (chunkAuthenticate (EncodeToString [])) with [§"+"]. cbn [fmap list_fmap foldl].
    rewrite (auth_step_last mc h (§"+") [] Hp Hm) with (ch := []) (mc' := mc') (resp := resp);
      [|done|simpl; by rewrite Hb|simpl; by rewrite Hb|done].
    simpl. f_equal. unfold set_mech, set_buf. simpl. by rewrite Hb. }
  assert (EncodeToString ch <> []) as Hne by (by rewrite EncodeToString_nil).
  destruct (chunkAuthenticate_shape _ Hne) as (fulls & lst & -> & Hf & Hlt & Hc).
  rewrite fmap_app, foldl_app.
  assert (len (concat fulls) <= len (EncodeToString ch)).
  { destruct Hc as [[_ <-]|[_ <-]]; [done|]. rewrite len_app. pose proof (len_nonneg lst). lia. }
  rewrite (feed_fulls mc fulls h [] Hp Hm Hf) by (rewrite Hb, len_nil; lia).
  rewrite Hb, (app_nil_l (concat fulls)). cbn [fmap list_fmap foldl].
  set (h1 := set_buf (concat fulls) h).
  assert (lst = §"+" /\ concat fulls = EncodeToString ch \/ lst <> §"+" /\ concat fulls ++ lst = EncodeToString ch) as Hc'.
  { destruct Hc as [?|[Hn E]]; [by left|]. right. split; [|done]. intros ->.
    (* a data chunk has a length that is a multiple of four *)
    pose proof (EncodeToString_mod4 ch) as H4. rewrite <- E, len_app in H4.
    assert (exists k, len (concat fulls) = 400 * k) as [k Hk].
    { clear -Hf. induction Hf as [|x l Hx _ [k IH]]; [by exists 0|]. exists (k + 1). rewrite concat_cons, len_app. lia. }
    rewrite Hk in H4. change (len (§"+")) with 1 in H4. Z.to_euclidean_division_equations. lia. }
  assert ((if lst == §"+" then challengeBuf h1 else challengeBuf h1 ++ lst) = EncodeToString ch) as Efull.
  { destruct Hc' as [[-> E]|[Hn E]]; simpl; [done|]. by rewrite bool_decide_eq_false_2. }
  rewrite (auth_step_last mc h1 lst []) with (ch := ch) (mc' := mc') (resp := resp); try done; rewrite ?Efull; try lia.
  - f_equal. unfold h1, set_mech, set_buf. simpl. by rewrite Hb.
  - rewrite bool_decide_eq_false_2 by done. unfold decodeChallenge.
    assert (EncodeToString ch <> §"+") as Hp1.
    { intros E. pose proof (EncodeToString_mod4 ch) as H4. by rewrite E in H4. }
    rewrite !bool_decide_eq_false_2 by done. apply base64_roundtrip.
Qed.
End bounds.
