(* ===== verification/HandshakeSend.v ===== *)
(** * Registration: every line it produces can be sent

    The writer tears the connection down on a message that fails the framing
    check, so an unsendable registration line would wedge a network in a
    reconnect loop.  An accepted configuration never produces one; the nick
    fallbacks are never longer than the rejected nick, differ from it, and
    from each other. *)

From S2P Require Import Prelude GoStrings GoUtf8 GoBase64 IrcMsg Sasl Sts Config Handshake HandshakeProofs.

(** ** Nick fallback *)

Lemma fallback_digits lst :
  let pick := List.filter (fun d => negb (d =? lst)) (seqZ 49 9) in
  8 <= len pick /\ NoDup pick /\ Forall (fun d => 49 <= d <= 57 /\ d <> lst) pick.
Proof.
  cbv zeta. split_and!.
  - change (seqZ 49 9) with [49; 50; 51; 52; 53; 54; 55; 56; 57]. cbn [List.filter].
    repeat match goal with |- context [?a =? lst] => destruct (Z.eqb_spec a lst) end; simpl; try lia;
      rewrite !len_cons, len_nil; lia.
  - apply NoDup_ListNoDup, List.NoDup_filter, NoDup_ListNoDup, NoDup_seqZ.
  - apply Forall_forall. intros d Hd%list_elem_of_In. apply List.filter_In in Hd as [Hd1 Hd2].
    apply list_elem_of_In, elem_of_seqZ in Hd1. apply negb_true_iff, Z.eqb_neq in Hd2. lia.
Qed.

Lemma fallback_digit nk lst k :
  last nk = Some lst -> 1 <= k <= 3 ->
  let pick := List.filter (fun d => negb (d =? lst)) (seqZ 49 9) in
  exists d, default 0 (pick !! Z.to_nat (Z.rem (k - 1) (len pick))) = d /\
    pick !! Z.to_nat (k - 1) = Some d /\ 49 <= d <= 57 /\ d <> lst.
Proof.
  intros _ Hk pick. destruct (fallback_digits lst) as (H8 & _ & Hall). fold pick in H8, Hall.
  rewrite Z.rem_small by lia.
  destruct (lookup_lt_is_Some_2 pick (Z.to_nat (k - 1))) as [d Hd]; [unfold len in H8; lia|].
  exists d. rewrite Hd. split; [done|]. split; [done|]. by eapply Forall_lookup_1 in Hall.
Qed.

Lemma last_split {A} (l : list A) : l <> [] -> exists a x, l = a ++ [x] /\ last l = Some x.
Proof.
  intros Hl. destruct (exists_last Hl) as (a & x & ->). exists a, x. by rewrite last_snoc.
Qed.

(** Two or more runes: all but the last are kept. *)
Lemma fallback_long a x k :
  a <> [] -> Forall (fun r => valid_rune r = true) (a ++ [x]) -> 1 <= k <= 3 ->
  exists d, fallbackNick (string_of_runes (a ++ [x])) k = string_of_runes (a ++ [d]) /\
    List.filter (fun d => negb (d =? x)) (seqZ 49 9) !! Z.to_nat (k - 1) = Some d /\ 49 <= d <= 57 /\ d <> x.
Proof.
  intros Ha Hv Hk. unfold fallbackNick. rewrite runes_string_of_runes by done.
  rewrite len_app, (len_cons x []), len_nil. destruct a as [|y a]; [done|]. rewrite len_cons.
  pose proof (len_nonneg a). destruct (Z.leb_spec (1 + len a + (1 + 0)) 1); [lia|].
  rewrite last_snoc. change (default 0 (Some x)) with x.
  destruct (fallback_digit ((y :: a) ++ [x]) x k) as (d & -> & Hd & Hr & Hne); [apply last_snoc|done|].
  exists d. split; [|done]. f_equal. rewrite length_app. simpl length.
  replace (S (length a) + 1 - 1)%nat with (length (y :: a)) by (simpl; lia). by rewrite take_app_length.
Qed.

Lemma fallback_short x k :
  valid_rune x = true -> 1 <= k <= 3 ->
  exists n, fallbackNick (string_of_runes [x]) k = [z2b (97 + n)] /\ 0 <= n < 26 /\ (x - 97 + k) mod 26 = n.
Proof.
  intros Hv Hk. unfold fallbackNick. rewrite runes_string_of_runes by (by constructor).
  change (len [x] <=? 1) with true. change (default 97 (head [x])) with x.
  exists ((x - 97 + k) mod 26). apply valid_rune_spec in Hv.
  assert ((if Z.rem (x - 97 + k) 26 <? 0 then Z.rem (x - 97 + k) 26 + 26 else Z.rem (x - 97 + k) 26)
          = (x - 97 + k) mod 26) as ->.
  { destruct (Z.ltb_spec (Z.rem (x - 97 + k) 26) 0); Z.to_euclidean_division_equations; lia. }
  split; [|split; [apply Z.mod_pos_bound; lia|done]].
  apply EncodeRune_ascii. pose proof (Z.mod_pos_bound (x - 97 + k) 26). lia.
Qed.

(** A fallback nick is never longer than the rejected one, is never the
    rejected one, and the three attempts give three different nicks; this
    holds for every nick that is valid UTF-8 text. *)
Theorem fallbackNick_usable rs k :
  rs <> [] -> Forall (fun r => valid_rune r = true) rs -> 1 <= k <= 3 ->
  let nk := string_of_runes rs in
  len (fallbackNick nk k) <= len nk /\ fallbackNick nk k <> nk /\
  forall j, 1 <= j <= 3 -> fallbackNick nk j = fallbackNick nk k -> j = k.
Proof.
  intros Hne Hv Hk nk. unfold nk. destruct (last_split rs Hne) as (a & x & -> & _).
  pose proof Hv as [Hva Hvx]%Forall_app. rewrite Forall_singleton in Hvx.
  pose proof (EncodeRune_length x) as Hx.
  destruct (decide (a = [])) as [->|Ha].
  - simpl app. destruct (fallback_short x k Hvx Hk) as (n & E & Hn & En). rewrite E.
    assert (string_of_runes [x] = EncodeRune x) as Ex by apply app_nil_r. rewrite Ex.
    split_and!.
    + unfold len. simpl. lia.
    + intros Heq. assert (x = 97 + n) as ->; [|Z.to_euclidean_division_equations; lia].
      rewrite (EncodeRune_low x (z2b (97 + n))); [by rewrite b2z_z2b by lia|rewrite <- Heq; by left|].
      rewrite b2z_z2b by lia. lia.
    + intros j Hj Heq. rewrite <- Ex in Heq. destruct (fallback_short x j Hvx Hj) as (n' & E' & Hn' & En').
      rewrite E' in Heq. injection Heq as Heq%(f_equal b2z). rewrite !b2z_z2b in Heq by lia.
      Z.to_euclidean_division_equations; lia.
  - destruct (fallback_long a x k Ha Hv Hk) as (d & E & Ed & Hd & Hdx). rewrite E.
    assert (forall d, 49 <= d <= 57 -> valid_rune d = true) as Hvd by (intros; apply valid_rune_spec; lia).
    assert (forall y z, Forall (fun r => valid_rune r = true) [y; z] ->
              string_of_runes (a ++ [y]) = string_of_runes (a ++ [z]) -> y = z) as Hinj.
    { intros y z Hyz Heq. apply (f_equal runes) in Heq. apply Forall_cons in Hyz as [Hy Hz].
      rewrite !runes_string_of_runes in Heq by (apply Forall_app; split; [done|first [done | by constructor]]).
      apply app_inv_head in Heq. congruence. }
    split_and!.
    + rewrite !string_of_runes_app, !len_app.
      assert (string_of_runes [d] = [z2b d]) as -> by (unfold string_of_runes; simpl; rewrite EncodeRune_ascii by lia; done).
      assert (string_of_runes [x] = EncodeRune x) as -> by apply app_nil_r. unfold len. simpl. lia.
    + intros Heq. apply Hinj in Heq; [done|]. repeat constructor; auto.
    + intros j Hj Heq. destruct (fallback_long a x j Ha Hv Hj) as (d' & E' & Ed' & Hd' & _).
      rewrite E' in Heq. apply Hinj in Heq; [|repeat constructor; auto]. subst d'.
      destruct (fallback_digits x) as (_ & Hnd & _). apply (NoDup_lookup _ _ _ _ Hnd Ed) in Ed'. lia.
Qed.

Lemma fallbackNick_usable_witness :
  fallbackNick (§"at1") 1 = §"at2" /\ fallbackNick (§"at1") 1 <> §"at1".
Proof.
  split; [by vm_compute|].
  apply (fallbackNick_usable [97; 116; 49] 1); [done| |lia].
  repeat constructor.
Defined.

(** ** Framing of everything registration sends *)

Section send.
Context `{Huni : Unicode, Hirc : IrcV4, Hcry : ScramCrypto}.
Context (rnd : gostring).

Definition sendable (m : Message) : Prop := checkFraming m = None.

Lemma sendable_single cmd p :
  hasFramingBytes cmd = false -> IndexByte cmd x20 = -1 -> hasFramingBytes p = false ->
  sendable (newMsg cmd [p]).
Proof. apply checkFraming_single. Qed.

Lemma sendable_req p : hasFramingBytes p = false -> sendable (newMsg §"CAP" [§"REQ"; p]).
Proof. intros Hp. unfold sendable, checkFraming. simpl. by rewrite Hp. Qed.

Lemma Join_bytes l sep c : c ∈ Join l sep -> c ∈ sep \/ exists w, w ∈ l /\ c ∈ w.
Proof.
  induction l as [|w [|w' l] IH]; simpl; [by intros ?%not_elem_of_nil| |].
  - intros Hc. right. exists w. split; [by left|done].
  - intros [Hc|[Hc|Hc]%elem_of_app]%elem_of_app; [right; exists w; split; [by left|done]|by left|].
    destruct (IH Hc) as [?|(v & Hv & Hcv)]; [by left|]. right. exists v. split; [by right|done].
Qed.

Lemma wanted_clean w : w ∈ wantedCaps \/ w = §"sasl" -> hasFramingBytes w = false.
Proof.
  intros [Hw| ->]; [|done].
  assert (forallb (fun w => negb (hasFramingBytes w)) wantedCaps = true) as H by by vm_compute.
  rewrite forallb_forall in H. specialize (H w ltac:(by apply list_elem_of_In)). by apply negb_true_iff in H.
Qed.

Lemma capsToRequest_wanted h w : w ∈ capsToRequest h -> w ∈ wantedCaps \/ w = §"sasl".
Proof.
  unfold capsToRequest. rewrite sort_Strings_perm. intros [Hw|Hw]%elem_of_app.
  - apply list_elem_of_In, List.filter_In in Hw as [_ Hw]. left. by apply bool_decide_eq_true in Hw.
  - right. revert Hw. split_if; [by intros ?%list_elem_of_singleton|by intros ?%not_elem_of_nil].
Qed.

Lemma req_clean h : hasFramingBytes (Join (capsToRequest h) §" ") = false.
Proof.
  apply hasFramingBytes_spec. intros c Hc [Hs|(w & Hw & Hcw)]%Join_bytes.
  - change (c ∈ [x20]) in Hs. apply list_elem_of_singleton in Hs as ->. revert Hc. unfold framing_chars.
    rewrite !elem_of_cons, elem_of_nil. intros [?|[?|[?|[]]]]; done.
  - apply capsToRequest_wanted, wanted_clean in Hw. rewrite hasFramingBytes_spec in Hw. by apply (Hw c).
Qed.

Lemma chunks_clean b64 chunk :
  Forall (fun c => b64char c = true) b64 -> chunk ∈ chunkAuthenticate b64 -> hasFramingBytes chunk = false.
Proof.
  intros Hb Hc. apply hasFramingBytes_spec. intros c Hfr Hin.
  assert (chunk = §"+" \/ c ∈ b64) as [->|Hcb].
  { destruct (decide (b64 = [])) as [->|Hne].
    - left. change (chunk ∈ [§"+"]) in Hc. by apply list_elem_of_singleton in Hc.
    - destruct (chunkAuthenticate_shape b64 Hne) as (fulls & lst & E & _ & _ & Hs). rewrite E in Hc.
      apply elem_of_app in Hc as [Hc| ->%list_elem_of_singleton].
      + right. assert (c ∈ concat fulls) by (apply list_elem_of_In, List.in_concat; exists chunk; split; by apply list_elem_of_In).
        destruct Hs as [[_ <-]|[_ <-]]; [done|]. apply elem_of_app. by left.
      + destruct Hs as [[-> _]|[_ <-]]; [by left|]. right. apply elem_of_app. by right. }
  - change (c ∈ [x2b]) in Hin. apply list_elem_of_singleton in Hin as ->. revert Hfr. unfold framing_chars.
    rewrite !elem_of_cons, elem_of_nil. intros [?|[?|[?|[]]]]; done.
  - rewrite Forall_forall in Hb. specialize (Hb c Hcb). apply b64char_plain in Hb as (H1 & H2 & _).
    revert Hfr. unfold framing_chars. rewrite !elem_of_cons, elem_of_nil.
    intros [->|[->|[->|[]]]]; [by vm_compute in H1..|done].
Qed.

(** Framing bytes are ASCII, so a fallback has one only if the nick did. *)
Lemma fallback_clean nk k : 1 <= k <= 3 -> hasFramingBytes nk = false -> hasFramingBytes (fallbackNick nk k) = false.
Proof.
  intros Hk. rewrite !hasFramingBytes_spec. intros Hn c Hc Hin.
  assert (b2z c < 14) as Hlow.
  { revert Hc. unfold framing_chars. rewrite !elem_of_cons, elem_of_nil. intros [->|[->|[->|[]]]]; by vm_compute. }
  unfold fallbackNick in Hin. cbv zeta in Hin. destruct (len (runes nk) <=? 1) eqn:El.
  - apply EncodeRune_low in Hin; [|lia]. revert Hin.
    generalize (default 97 (head (runes nk)) - 97 + k). intros z.
    pose proof (b2z_range c). destruct (Z.ltb_spec (Z.rem z 26) 0); Z.to_euclidean_division_equations; lia.
  - apply string_of_runes_low in Hin; [|lia].
    destruct (last_split (runes nk)) as (a & x & Er & Hl); [by intros E; rewrite E in El|].
    rewrite Hl in Hin. change (default 0 (Some x)) with x in Hin.
    destruct (fallback_digit (runes nk) x k Hl Hk) as (d & Ed & _ & Hd & _).
    rewrite Ed in Hin.
    apply elem_of_app in Hin as [Hin|Hin%list_elem_of_singleton]; [|lia].
    apply (Hn c Hc). rewrite <- (z2b_b2z c). apply runes_low; [|pose proof (b2z_range c); lia].
    apply elem_of_take in Hin as (i & Hi & _). by eapply list_elem_of_lookup_2.
Qed.

Definition reg_ok (c : Config) : Prop := validateRegistrationLines c = None.

Lemma reg_msgs c m : reg_ok c -> m ∈ registration_msgs c -> sendable m.
Proof. intros Hr Hm. by apply (check_msgs_all (registration_msgs c)). Qed.

(** The configuration and the retry counter are all the framing depends on. *)
Definition send_inv (c : Config) (h : handshake) : Prop := cfg h = c /\ 0 <= nickTries h.

Definition send_res (c : Config) (x : handshake * result) : Prop :=
  send_inv c x.1 /\ Forall sendable (out x.2).

Lemma send_ret0 c h : send_inv c h -> send_res c (ret h []).
Proof. by split. Qed.
Lemma send_ret1 c h m : send_inv c h -> sendable m -> send_res c (ret h [m]).
Proof. intros. split; [done|]. by constructor. Qed.
Lemma send_fail c h e : send_inv c h -> send_res c (fail h e).
Proof. by split. Qed.

Lemma nick_clean c : reg_ok c -> hasFramingBytes (Nick c) = false.
Proof.
  intros Hr. pose proof (reg_msgs c (newMsg §"NICK" [Nick c]) Hr ltac:(by left)) as H.
  unfold sendable, checkFraming in H. simpl in H. by destruct (hasFramingBytes (Nick c)).
Qed.

Lemma passLine_sendable c h : reg_ok c -> cfg h = c -> Forall sendable (passLine h).2.
Proof.
  intros Hr Hc. unfold passLine. destruct_if as E; [constructor|]. constructor; [|constructor].
  apply orb_false_iff in E as [E _]. rewrite Hc in *. apply (reg_msgs c); [done|]. unfold registration_msgs.
  rewrite E. simpl. by right; right; left.
Qed.

Lemma handleCapLS_sendable c m h : reg_ok c -> send_inv c h -> send_res c (handleCapLS rnd m h).
Proof.
  intros Hr Hi. unfold handleCapLS. split_if; [by apply send_ret0|]. cbv zeta.
  split_if; [by apply send_ret0|]. split_if; [by apply send_fail|].
  set (h2 := if _ : bool then set_sts _ _ else set_caps _ h).
  assert (send_inv c h2) as Hi2 by (unfold h2; by split_if). clearbody h2. clear Hi h.
  split_if; [by apply send_fail|]. destruct (chooseMech rnd h2) as [h3 e] eqn:Eh.
  assert (send_inv c h3) as Hi3 by (unfold chooseMech in Eh; repeat case_match; by simplify_eq/=).
  destruct e; [by apply send_fail|]. pose proof (passLine_sendable c h3 Hr (proj1 Hi3)) as Hp.
  assert (send_inv c (passLine h3).1) as Hi4 by (unfold passLine; by split_if).
  destruct (passLine h3) as [h4 pl]. cbv zeta. simpl in *.
  split_if; (split; [done|]; apply Forall_app; split; [done|]; constructor; [|constructor]);
    [done|apply sendable_req, req_clean].
Qed.

Lemma handle_sendable c m h : reg_ok c -> send_inv c h -> send_res c (handle rnd m h).
Proof.
  intros Hr Hi. apply hs_handle_cases; auto using send_ret0, send_fail.
  - apply send_ret1; [done|]. apply (boundedPong_framed m).
  - apply handleCAP_cases; auto using send_ret0, send_fail, handleCapLS_sendable.
    + unfold handleCapACK. split_if; [by apply send_ret0|]. cbv zeta.
      match goal with |- context [match ?x with Some e => (_, MkRes _ _ _) | None => _ end] => destruct x end;
        [by split; [|repeat constructor]|].
      match goal with |- context [match ?x with Some mc => _ | None => _ end] => destruct x as [mc|] end;
        apply send_ret1; try done. by destruct mc.
    + unfold handleCapNAK. split_if; [by apply send_ret0|].
      destruct (SASL (cfg h)); [split_if; [by apply send_ret1|by apply send_fail]|by apply send_ret1].
  - unfold handleAuthenticate. destruct (mech h); [|by apply send_ret0].
    split_if; [by apply send_ret0|]. cbv zeta. split_if; [by apply send_fail|].
    assert (exists b, (if Param m 0 != §"+" then set_buf (challengeBuf h ++ Param m 0) h else h) = set_buf b h) as [b ->].
    { split_if; [by eexists|]. exists (challengeBuf h). by destruct h. }
    split_if; [by apply send_ret0|]. destruct (decodeChallenge _); [|by apply send_fail].
    destruct (respond _ _) as [mc' [e|resp]]; [by split; [|repeat constructor]|].
    split; [done|]. simpl. apply Forall_forall. intros x (chunk & -> & Hx)%list_elem_of_fmap.
    apply sendable_single; [done..|]. eapply chunks_clean; [|done]. apply EncodeToString_chars.
  - unfold handleWelcome. repeat (split_if; [by apply send_fail|]). cbv zeta.
    split_if; [split_if; [by apply send_fail|]|]; by split.
  - unfold handleNickInUse. split_if; [by apply send_fail|]. cbv zeta. destruct Hi as [Hc Ht].
    destruct_if as E; [apply send_fail; split; [done|simpl; lia]|].
    apply send_ret1; [split; [done|simpl; lia]|]. apply sendable_single; [done..|]. simpl in *.
    rewrite Hc. apply fallback_clean; [lia|by apply nick_clean].
  - unfold handleSaslSuccess. destruct (mech h); [split_if; [by apply send_fail|by apply send_ret1]|].
    split_if; [by apply send_fail|by apply send_ret0].
Qed.

(** With an accepted configuration, every line registration ever
    produces, in answer to any server, passes the framing check that would
    otherwise kill the connection. *)
Theorem registration_sendable proxy_ok wg_ok c sec ms :
  validate proxy_ok wg_ok c = None -> Forall sendable (sent (register rnd c sec ms)).
Proof.
  intros Hv. apply validate_ok in Hv as (_ & _ & _ & _ & _ & _ & Hr).
  pose proof (register_trace_invariant rnd (fun h o _ => send_inv c h /\ Forall sendable o) c sec ms) as H.
  simpl in H. apply H; clear H.
  - assert (send_inv c (set_secure sec (newHandshake c))) as Hi by done.
    unfold start. simpl. split_if; [by split; [|repeat constructor]|].
    pose proof (passLine_sendable c (set_secure sec (newHandshake c)) Hr eq_refl) as Hp.
    assert (forall pl, Forall sendable pl -> Forall sendable (newMsg §"CAP" [§"LS"; §"302"] :: pl ++
      [newMsg §"NICK" [Nick c];
       newMsg §"USER" [if Username c == [] then Nick c else Username c; §"0"; §"*";
                       if Realname c == [] then Nick c else Realname c]])) as Hall.
    { intros pl Hpl. constructor; [done|]. apply Forall_app. split; [done|].
      repeat constructor; apply (reg_msgs c); try done; [by left|by right; left]. }
    destruct sec; simpl; [|split; [done|]; by apply (Hall [])].
    destruct (passLine _) as [h4 pl] eqn:E. unfold passLine in E. simpl in *.
    destruct ((Pass c == []) || false); simplify_eq/=; (split; [done|]); first [by apply (Hall []) | by apply (Hall [_])].
  - done.
  - intros m h o [Hi Ho]. pose proof (handle_sendable c m h Hr Hi) as [H1 H2].
    destruct (handle rnd m h) as [h' r]. simpl in *. split; [done|]. by apply Forall_app.
Qed.
End send.

(** ** Registration, run on concrete servers

    A SCRAM-SHA-256 registration evaluated from the opening lines to 001, and
    the same network against a plaintext server: the theorems of
    [HandshakeProofs], [HandshakeBounds] and [HandshakeSend] applied at those
    inputs. *)

From S2P Require Import Pacing.
From S2P Require Import HandshakeBounds.

#[local] Existing Instance ascii_unicode.
#[local] Existing Instance ref_ircv4.
#[local] Existing Instance toy_crypto.

Definition scram_cfg : SASLConfig := MkSASL (§"scram-sha-256") (§"al") (§"pw") [].

Definition net (tls : bool) (pass : gostring) (sasl : option SASLConfig) : Config :=
  {| CfgName := §"net"; Addr := §"irc.example:6697"; TLS := tls; AllowPlaintext := negb tls;
     TrustedFingerprints := []; Proxy := []; WireGuard := None; Nick := §"al"; Username := [];
     Realname := []; Pass := pass; SASL := sasl; Channels := [§"#chan"]; ChannelKeys := ∅;
     BackoffCfg := Backoff.MkConfig 0 0 0; DialTimeout := 0; HandshakeTimeout := 0;
     PingInterval := 0; PingTimeout := 0; SendBurst := 0; SendInterval := 0 |}.

Definition server_lines : list Message := [
  newMsg §"CAP" [§"*"; §"LS"; §"*"; §"batch sasl=PLAIN,SCRAM-SHA-256"];
  newMsg §"CAP" [§"*"; §"LS"; §"server-time sts=duration=60"];
  newMsg §"CAP" [§"*"; §"ACK"; §"batch sasl server-time"];
  newMsg §"AUTHENTICATE" [§"+"];
  newMsg §"AUTHENTICATE" [EncodeToString (server_first (§"abc") (§"xyz") (§"salt") (§"4096"))];
  newMsg §"AUTHENTICATE" [EncodeToString (default [] (toy_run !! 2%nat))];
  newMsg §"903" [§"al"; §"ok"];
  newMsg §"001" [§"al"; §"Welcome"]].

Definition scram_net : Config := net true (§"sekrit") (Some scram_cfg).

(** The whole exchange: the commands sent, the STS duration persisted, and
    the outcome. *)
Example scram_registration :
  let t := register (§"abc") scram_net true server_lines in
  (Command <$> sent t, persisted t, status t) =
  ([§"CAP"; §"PASS"; §"NICK"; §"USER"; §"CAP"; §"AUTHENTICATE"; §"AUTHENTICATE"; §"AUTHENTICATE";
    §"AUTHENTICATE"; §"CAP"], [60 * Second], Registered).
Proof. vm_compute. reflexivity. Qed.

Lemma scram_registered : status (register (§"abc") scram_net true server_lines) = Registered.
Proof. vm_compute. reflexivity. Qed.



(** The plaintext server of a network with credentials gets one line. *)
Lemma no_credentials_in_clear_witness :
  let t := register (§"abc") (net false (§"sekrit") None) false server_lines in
  Forall harmless (sent t) /\ status t <> Registered.
Proof. apply (no_credentials_in_clear (§"abc") (net false (§"sekrit") None) server_lines). vm_compute. reflexivity. Defined.

Lemma registration_sendable_witness :
  Forall sendable (sent (register (§"abc") scram_net true server_lines)).
Proof.
  apply (registration_sendable (§"abc") (fun _ => true) (fun _ => true)). vm_compute. reflexivity.
Defined.

(** A long PLAIN response and its first, empty challenge. *)
Definition plain_hs : handshake :=
  set_mech (Some (MPlain (MkPlain [] (§"al") (replicate 350 x61) false))) None
    (set_phase hsAuthChallenge (newHandshake scram_net)).

Lemma challenge_reassembled_witness :
  let resp := saslPlain [] (§"al") (replicate 350 x61) in
  feed (§"abc") plain_hs [auth_line (§"+")] =
    (set_mech (Some (MPlain (MkPlain [] (§"al") (replicate 350 x61) true))) None plain_hs,
     auth_line <$> chunkAuthenticate (EncodeToString resp)).
Proof.
  cbv zeta.
  apply (@challenge_reassembled ascii_unicode ref_ircv4 toy_crypto (§"abc") ref_ircv4_laws plain_hs
           (MPlain (MkPlain [] (§"al") (replicate 350 x61) false)) []
           (MPlain (MkPlain [] (§"al") (replicate 350 x61) true))); reflexivity || (vm_compute; discriminate).
Defined.

(** That response takes two lines: 472 bytes of base64. *)
Example plain_two_lines :
  len <$> chunkAuthenticate (EncodeToString (saslPlain [] (§"al") (replicate 350 x61))) = [400; 72].
Proof. vm_compute. reflexivity. Qed.
