(* ===== verification/StsStore.v ===== *)
(** * STS policy persistence: internal/store/sts.go

    Policies live in the settings table under "sts:<host>", one JSON record
    per host.  Older releases keyed them by the raw spelling of the host, so
    a read gathers every equivalent spelling, fails closed on any record it
    cannot decode, and migrates the strongest one to the canonical key.
    Mutations are read-modify-write under the store's mutex with a revision
    that only grows; a cleared policy leaves a tombstone.

    The table is the list of its rows.  The database may fail at a scan or at
    a write (a transaction then changes nothing), and the entropy source may
    fail: the record [Env] says what happens during one call. *)

From S2P Require Import Prelude GoStrings GoUtf8 Sts.

Record stsRecord := MkRec {
  rPort : Z;
  rUntil : option Z;      (* Unix milliseconds; nil when absent *)
  rDuration : option Z;   (* milliseconds *)
  rRevision : Z;          (* uint64 *)
  rPolicyEpoch : Z;       (* uint64 *)
  rDisabled : bool
}.

#[global] Instance stsRecord_eq_dec : EqDecision stsRecord.
Proof. solve_decision. Defined.

(** encoding/json on [stsRecord]. *)
Class StsCodec := {
  Marshal : stsRecord -> gostring;
  Unmarshal : gostring -> option stsRecord
}.

(** A record of Go integers survives the round trip: [omitempty] drops only
    zero values, which decode to zero again. *)
Definition rec_in_range (r : stsRecord) : Prop :=
  minInt64 <= rPort r <= maxInt64 /\ 0 <= rRevision r <= maxUint64 /\ 0 <= rPolicyEpoch r <= maxUint64 /\
  (forall u, rUntil r = Some u -> minInt64 <= u <= maxInt64) /\
  (forall d, rDuration r = Some d -> minInt64 <= d <= maxInt64).

Class StsCodecLaws `{StsCodec} : Prop := {
  Unmarshal_Marshal r : rec_in_range r -> Unmarshal (Marshal r) = Some r;
  Unmarshal_range v r : Unmarshal v = Some r -> rec_in_range r
}.

Inductive stsError := ErrIo | ErrCorrupt | ErrExhausted | ErrInvalid | ErrEntropy.
#[global] Instance stsError_eq_dec : EqDecision stsError.
Proof. solve_decision. Defined.

(** What the outside world does during one call: whether the scan and the
    write succeed, two random 64-bit words if there is entropy, and the
    clock (nanoseconds since the Unix epoch). *)
Record Env := MkEnv { scanOk : bool; writeOk : bool; entropy : option (Z * Z); now : Z }.

(** ** The settings table *)

Abbreviation table := (list (gostring * gostring)).

Fixpoint upsert (t : table) (k v : gostring) : table :=
  match t with
  | [] => [(k, v)]
  | (k', v') :: rest => if k' == k then (k, v) :: rest else (k', v') :: upsert rest k v
  end.

Definition delete_row (t : table) (k : gostring) : table := List.filter (fun '(k', _) => k' != k) t.

(** SQLite's [LIKE 'sts:%'] ignores the case of ASCII letters. *)
Definition ascii_lower (c : byte) : byte := if in_range 65 (b2z c) 90 then z2b (b2z c + 32) else c.
Definition like_sts (k : gostring) : bool := HasPrefix (ascii_lower <$> k) §"sts:".

(** ** A state and error monad over the table *)

Definition M (A : Type) : Type := table -> table * (stsError + A).
Definition mret {A} (a : A) : M A := fun t => (t, inr a).
Definition mfail {A} (e : stsError) : M A := fun t => (t, inl e).
Definition mbind_ {A B} (x : M A) (f : A -> M B) : M B :=
  fun t => match x t with (t', inr a) => f a t' | (t', inl e) => (t', inl e) end.
Notation "'let!' x ':=' e 'in' k" := (mbind_ e (fun x => k)) (at level 10, x pattern, k at level 200).
(** The result of [e], error included, as a value. *)
Definition mtry {A} (x : M A) : M (stsError + A) := fun t => let '(t', r) := x t in (t', inr r).

Definition maxSTSDurationMs : Z := 100 * 365 * 24 * 60 * 60 * 1000.

Definition nextSTSRevision (current : Z) : stsError + Z :=
  if current =? maxUint64 then inl ErrExhausted else inr (current + 1).

Definition lift {A} (x : stsError + A) : M A := fun t => (t, x).

(** One random word, masked into [[2^62, 2^63)]. *)
Definition mask_generation (u : Z) : Z := Z.lor (Z.land u (2 ^ 62 - 1)) (2 ^ 62).

Definition freshSTSGenerationPair (env : Env) : stsError + (Z * Z) :=
  match entropy env with
  | Some (a, b) => inr (mask_generation a, mask_generation b)
  | None => inl ErrEntropy
  end.

(** A decoded policy: [ok] is false for a tombstone or an absent row. *)
Record policy := MkPolicy {
  pPort : Z; pUntil : Z; pDuration : Z; pRevision : Z; pEpoch : Z; pOk : bool
}.

Section store.
Context `{Unicode, NetIP, StsCodec}.

Definition stsKey (host : gostring) : gostring := §"sts:" ++ canonicalSTSHost host.

Definition decodeSTSPolicy (v : gostring) (present : bool) : stsError + policy :=
  if negb present then inr (MkPolicy 0 0 0 0 0 false)
  else match Unmarshal v with
  | None => inl ErrCorrupt
  | Some rec =>
      if rDisabled rec then
        if rRevision rec =? 0 then inl ErrCorrupt
        else inr (MkPolicy 0 0 0 (rRevision rec) (rPolicyEpoch rec) false)
      else match rUntil rec with
      | None => inl ErrCorrupt
      | Some until =>
          if (rPort rec <=? 0) || (rPort rec >? 65535) || (until <=? 0) then inl ErrCorrupt
          else
            let d := match rDuration rec with
                     | Some ms => if (1 <=? ms) && (ms <=? maxSTSDurationMs)
                                  then wrap64 (ms * Millisecond) else 0
                     | None => 0
                     end in
            inr (MkPolicy (rPort rec) until d (rRevision rec) (rPolicyEpoch rec) true)
      end
  end.

(** The rows that are spellings of [host]. *)
Definition is_alias (host : gostring) (row : gostring * gostring) : bool :=
  like_sts row.1 && (canonicalSTSHost (TrimPrefix row.1 §"sts:") == canonicalSTSHost host).

Definition stsAliasesLocked (env : Env) (host : gostring) : M (list (gostring * gostring)) :=
  fun t => if scanOk env then (t, inr (List.filter (is_alias host) t)) else (t, inl ErrIo).

(** The loop of [strongestSTSAlias]: the chosen record, whether it is
    active, its expiry, and the highest revision seen. *)
Fixpoint strongest_loop (env : Env) (first : bool) (aliases : list (gostring * gostring))
    (chosen : stsRecord) (chosenActive : bool) (chosenUntil maxRevision : Z) : stsError + (stsRecord * Z) :=
  match aliases with
  | [] => inr (chosen, maxRevision)
  | (_, v) :: rest =>
      match decodeSTSPolicy v true, Unmarshal v with
      | inl e, _ => inl e
      | inr _, None => inl ErrCorrupt
      | inr p, Some rec =>
          let maxRevision := if pRevision p >? maxRevision then pRevision p else maxRevision in
          let active := pOk p && (now env <? pUntil p * 1000000) in
          let candidateUntil := if pOk p then pUntil p else 0 in
          if first || (active && negb chosenActive)
             || (eqb active chosenActive && (candidateUntil >? chosenUntil))
          then strongest_loop env false rest rec active candidateUntil maxRevision
          else strongest_loop env false rest chosen chosenActive chosenUntil maxRevision
      end
  end.

Definition zero_record : stsRecord := MkRec 0 None None 0 0 false.

Definition strongestSTSAlias (env : Env) (aliases : list (gostring * gostring)) : stsError + (stsRecord * Z) :=
  strongest_loop env true aliases zero_record false 0 0.

Definition with_revision (rec : stsRecord) (r : Z) : stsRecord :=
  MkRec (rPort rec) (rUntil rec) (rDuration rec) r (rPolicyEpoch rec) (rDisabled rec).

(** Without aliases to remove, one upsert; with them, the upsert and the
    deletions in one transaction. *)
Definition writeSTSRecordLocked (env : Env) (host : gostring) (rec : stsRecord)
    (repairAliases : list (gostring * gostring)) : M unit :=
  fun t =>
    if negb (writeOk env) then (t, inl ErrIo)
    else
      let key := stsKey host in
      let t := upsert t key (Marshal rec) in
      (foldl (fun t a => if a.1 != key then delete_row t a.1 else t) t repairAliases, inr tt).

(** The canonical row's value, [None] when there is no row. *)
Definition stsValueLocked (env : Env) (host : gostring) : M (option gostring) :=
  let key := stsKey host in
  let! aliases := stsAliasesLocked env host in
  match aliases with
  | [] => mret None
  | a :: rest =>
      let! (chosen, maxRevision) := lift (strongestSTSAlias env aliases) in
      if (rest == []) && (a.1 == key) then mret (Some a.2)
      else
        let! next := lift (nextSTSRevision maxRevision) in
        let chosen := with_revision chosen next in
        let! _ := writeSTSRecordLocked env host chosen aliases in
        mret (Some (Marshal chosen))
  end.

Definition STSPolicy (env : Env) (host : gostring) : M policy :=
  let host := canonicalSTSHost host in
  let! v := stsValueLocked env host in
  lift (match v with
        | Some v => decodeSTSPolicy v true
        | None => decodeSTSPolicy [] false
        end).

Definition stsReadErrorRepairable (expected : option Z) (e : stsError) : bool :=
  bool_decide (expected = None) && ((e == ErrCorrupt) || (e == ErrExhausted)).

Definition prepareSTSRepairLocked (env : Env) (host : gostring) : M (stsRecord * list (gostring * gostring)) :=
  let! aliases := stsAliasesLocked env host in
  let! (r, e) := lift (freshSTSGenerationPair env) in
  mret (MkRec 0 None None r e false, aliases).

Definition remintExhaustedSTSGenerations (env : Env) (expected : option Z) (current : stsRecord) : stsError + stsRecord :=
  if bool_decide (expected = None) && ((rRevision current =? maxUint64) || (rPolicyEpoch current =? maxUint64))
  then match freshSTSGenerationPair env with
       | inl e => inl e
       | inr (r, e) => inr (MkRec (rPort current) (rUntil current) (rDuration current) r e (rDisabled current))
       end
  else inr current.

(** What [updateSTS] starts from: the current record, whether there is one,
    and the rows a repair has to remove. *)
Definition read_current (env : Env) (host : gostring) (expected : option Z)
    : M (stsRecord * bool * list (gostring * gostring)) :=
  let! r := mtry (stsValueLocked env host) in
  match r with
  | inl e =>
      if negb (stsReadErrorRepairable expected e) then mfail e
      else
        let! (current, aliases) := prepareSTSRepairLocked env host in
        mret (current, negb (aliases == []), aliases)
  | inr None => mret (zero_record, false, [])
  | inr (Some raw) =>
      match Unmarshal raw with
      | None => mfail ErrCorrupt
      | Some current => mret (current, true, [])
      end
  end.

(** [makeRecord] gives the record to write, or [None] to leave things be. *)
Definition updateSTS (env : Env) (host : gostring) (expected : option Z)
    (makeRecord : Z -> stsRecord -> bool -> stsError + option stsRecord) : M (Z * Z * bool) :=
  let host := canonicalSTSHost host in
  let! (current, present, aliases) := read_current env host expected in
  if match expected with Some x => negb (rRevision current =? x) | None => false end
  then mret (rRevision current, rPolicyEpoch current, false)
  else
    let! current := lift (remintExhaustedSTSGenerations env expected current) in
    let! next := lift (makeRecord (rRevision current) current present) in
    match next with
    | None => mret (rRevision current, rPolicyEpoch current, false)
    | Some next =>
        let! _ := writeSTSRecordLocked env host next aliases in
        mret (rRevision next, rPolicyEpoch next, true)
    end.

(** Both generations advanced. *)
Definition bump (current : Z) (rec : stsRecord) (k : Z -> Z -> stsRecord) : stsError + option stsRecord :=
  match nextSTSRevision current with
  | inl e => inl e
  | inr nr => match nextSTSRevision (rPolicyEpoch rec) with
              | inl e => inl e
              | inr ne => inr (Some (k nr ne))
              end
  end.

(** [until] in Unix milliseconds, [d] in nanoseconds. *)
Definition clamp_ms (d : Z) : Z :=
  let ms := Z.quot d Millisecond in
  if ms <? 1 then 1 else if ms >? maxSTSDurationMs then maxSTSDurationMs else ms.

Definition SetSTSPolicy (env : Env) (host : gostring) (port until d : Z) : M (Z * Z) :=
  if (port <=? 0) || (port >? 65535) || (until <=? 0) then mfail ErrInvalid
  else
    let! (r, e, _) := updateSTS env host None (fun current rec _ =>
      bump current rec (fun nr ne => MkRec port (Some until) (Some (clamp_ms d)) nr ne false)) in
    mret (r, e).

Definition ClearSTSPolicy (env : Env) (host : gostring) : M (Z * Z) :=
  let! (r, e, _) := updateSTS env host None (fun current rec _ =>
    bump current rec (fun nr ne => MkRec 0 None None nr ne true)) in
  mret (r, e).

Definition RescheduleSTSPolicy (env : Env) (host : gostring) (expectedRevision until : Z) : M (Z * bool) :=
  let! (r, _, applied) := updateSTS env host (Some expectedRevision) (fun current rec present =>
    if negb present || rDisabled rec then inr None
    else match rUntil rec with
    | None => inl ErrCorrupt
    | Some u =>
        if (rPort rec <=? 0) || (rPort rec >? 65535) || (u <=? 0) then inl ErrCorrupt
        else match rDuration rec with
        | None => inr None
        | Some ms =>
            if (ms <? 1) || (ms >? maxSTSDurationMs) then inr None
            else match nextSTSRevision current with
            | inl e => inl e
            | inr nr => inr (Some (MkRec (rPort rec) (Some until) (rDuration rec) nr (rPolicyEpoch rec) (rDisabled rec)))
            end
        end
    end) in
  mret (r, applied).
End store.
