(* ===== verification/StsStoreProofs.v ===== *)
(** * STS policy persistence: what the store guarantees

    Theorems about [StsStore]: a policy that was set is what the next read
    gives, even over records that could not be read before; a record that
    cannot be decoded makes reads fail rather than report no policy; an
    unexpired policy under any spelling of the host is found; a disconnect's
    reschedule changes only the expiry, only when nothing else changed the
    record, and never revives a cleared policy. *)

From S2P Require Import Prelude GoStrings GoUtf8 Sts StsStore.

Section table.
Implicit Types (t : table) (k v : gostring).

(** A row predicate that looks at the key only. *)
Definition on_key (P : gostring * gostring -> bool) : Prop := forall k v v', P (k, v) = P (k, v').

Lemma filter_upsert_in P t k v :
  on_key P -> P (k, v) = true -> List.filter P (upsert t k v) = upsert (List.filter P t) k v.
Proof.
  intros HP Hk. induction t as [|[k' v'] t IH]; simpl; [by rewrite Hk|].
  destruct (bool_decide_reflect (k' = k)) as [->|Hne]; simpl.
  - rewrite Hk, (HP k v' v), Hk. simpl. by rewrite bool_decide_eq_true_2.
  - destruct (P (k', v')); simpl; rewrite IH; [by rewrite bool_decide_eq_false_2|done].
Qed.

Lemma filter_upsert_out P t k v :
  on_key P -> P (k, v) = false -> List.filter P (upsert t k v) = List.filter P t.
Proof.
  intros HP Hk. induction t as [|[k' v'] t IH]; simpl; [by rewrite Hk|].
  destruct (bool_decide_reflect (k' = k)) as [->|Hne]; simpl; [by rewrite (HP k v' v), Hk|].
  by rewrite IH.
Qed.

Lemma upsert_keys t k v : NoDup t.*1 -> NoDup (upsert t k v).*1 /\ forall k', k' ∈ (upsert t k v).*1 <-> k' = k \/ k' ∈ t.*1.
Proof.
  induction t as [|[k0 v0] t IH]; simpl; intros Hnd.
  - split; [repeat constructor; apply not_elem_of_nil|]. intros k'. rewrite elem_of_cons. tauto.
  - inversion_clear Hnd as [|? ? Hn Hnd']. specialize (IH Hnd') as [I1 I2].
    destruct (bool_decide_reflect (k0 = k)) as [->|Hne]; simpl.
    + split; [by constructor|]. intros k'. rewrite !elem_of_cons. tauto.
    + split; [constructor; [|done]; rewrite I2; intros [?|?]; done|]. intros k'. rewrite !elem_of_cons, I2. tauto.
Qed.

Lemma filter_keys_NoDup P t : NoDup t.*1 -> NoDup (List.filter P t).*1.
Proof.
  induction t as [|r t IH]; simpl; [done|]. intros [Hn Hnd]%NoDup_cons.
  destruct (P r); simpl; [|auto]. apply NoDup_cons. split; [|auto]. intros Hin. apply Hn.
  apply list_elem_of_fmap in Hin as (x & -> & Hx). apply list_elem_of_In, List.filter_In in Hx as [Hx _].
  apply list_elem_of_fmap. exists x. split; [done|]. by apply list_elem_of_In.
Qed.

Lemma filter_filter_comm (P Q : gostring * gostring -> bool) t :
  List.filter P (List.filter Q t) = List.filter Q (List.filter P t).
Proof.
  induction t as [|r t IH]; [done|]. simpl.
  destruct (P r) eqn:EP, (Q r) eqn:EQ; simpl; rewrite ?EP, ?EQ, IH; done.
Qed.

Lemma filter_true (P : gostring * gostring -> bool) t : (forall r, In r t -> P r = true) -> List.filter P t = t.
Proof.
  induction t as [|r t IH]; simpl; [done|]. intros H. rewrite (H r) by by left. f_equal. apply IH. auto.
Qed.

Definition keep_row (key : gostring) (al : table) (r : gostring * gostring) : bool :=
  (r.1 == key) || negb (existsb (fun a => a.1 == r.1) al).

(** The deletions of a repair, as one filter. *)
Lemma foldl_delete key al t :
  foldl (fun t (a : gostring * gostring) => if a.1 != key then delete_row t a.1 else t) t al
  = List.filter (keep_row key al) t.
Proof.
  revert t. induction al as [|a al IH]; intros t.
  - simpl. induction t as [|r t IHt]; [done|]. simpl. unfold keep_row at 1. simpl. rewrite orb_true_r. by f_equal.
  - cbn [foldl]. rewrite IH. clear IH. destruct (bool_decide_reflect (a.1 = key)) as [Ea|Ea]; simpl.
    + induction t as [|r t IHt]; [done|]. simpl. rewrite IHt. unfold keep_row. simpl.
      destruct (bool_decide_reflect (r.1 = key)) as [Er|Er]; simpl; [done|].
      destruct (bool_decide_reflect (a.1 = r.1)) as [E|E]; simpl; [congruence|done].
    + unfold delete_row. induction t as [|[rk rv] t IHt]; [done|]. simpl.
      destruct (bool_decide_reflect (rk = a.1)) as [->|E]; simpl.
      * rewrite IHt. unfold keep_row at 2. simpl. by rewrite bool_decide_eq_false_2, bool_decide_eq_true_2.
      * rewrite IHt. assert (keep_row key (a :: al) (rk, rv) = keep_row key al (rk, rv)) as ->; [|done].
        unfold keep_row. simpl. by rewrite (bool_decide_eq_false_2 (a.1 = rk)) by done.
Qed.

(** What is left of the rows of a host once its aliases are removed. *)
Lemma keep_upsert key v (A B : table) :
  NoDup A.*1 -> (forall r, r ∈ A -> existsb (fun a => a.1 == r.1) B = true) ->
  List.filter (keep_row key B) (upsert A key v) = [(key, v)].
Proof.
  intros Hnd HB. assert (forall w, keep_row key B (key, w) = true) as Hkey
    by (intros w; unfold keep_row; simpl; by rewrite bool_decide_eq_true_2).
  induction A as [|[k' v'] A IH]; simpl; [by rewrite Hkey|].
  inversion_clear Hnd as [|? ? Hn Hnd'].
  destruct (bool_decide_reflect (k' = key)) as [->|Hne]; simpl.
  - rewrite Hkey. f_equal. clear IH. assert (forall r, r ∈ A -> r.1 <> key) as Hne.
    { intros r Hr E. apply Hn. rewrite <- E. apply list_elem_of_fmap. eauto. }
    assert (forall r, r ∈ A -> existsb (fun a => a.1 == r.1) B = true) as HB' by (intros r Hr; apply HB; by right).
    clear -Hne HB'. induction A as [|r A IH]; [done|]. simpl.
    rewrite IH; [|intros r' Hr'; apply Hne; by right|intros r' Hr'; apply HB'; by right].
    unfold keep_row. rewrite bool_decide_eq_false_2, HB'; [done|by left|by apply Hne; left].
  - unfold keep_row at 1. simpl. rewrite bool_decide_eq_false_2 by done.
    pose proof (HB (k', v') ltac:(by left)) as HBk. simpl in HBk. rewrite HBk. simpl. apply IH; [done|]. intros r Hr. apply HB. by right.
Qed.
End table.

(** ** One host *)

Section host.
Context `{Huni : Unicode, Hip : NetIP, Hcodec : StsCodec, !StsCodecLaws}.
Context (host : gostring).

(** The name the store works with, and the row it belongs in. *)
Definition chost : gostring := canonicalSTSHost host.
Definition key : gostring := stsKey chost.

(** The canonical spelling is a fixed point (a host name with several
    trailing dots is not one). *)
Definition stable_host : Prop := canonicalSTSHost (canonicalSTSHost chost) = canonicalSTSHost chost.
Context (Hstable : stable_host).

Abbreviation aliases t := (List.filter (is_alias chost) t).
Abbreviation others t := (List.filter (fun r => negb (is_alias chost r)) t).

Lemma is_alias_on_key : on_key (is_alias chost).
Proof. done. Qed.
Lemma not_alias_on_key : on_key (fun r => negb (is_alias chost r)).
Proof. done. Qed.

Lemma key_alias v : is_alias chost (key, v) = true.
Proof.
  unfold is_alias, key, stsKey. cbn [fst]. rewrite TrimPrefix_app. apply andb_true_iff. split.
  - unfold like_sts. rewrite fmap_app. apply HasPrefix_app.
  - by apply bool_decide_eq_true.
Qed.

(** Rows of the host once a write went through: the written record only. *)
Definition clean (t : table) (rec : stsRecord) : Prop :=
  NoDup t.*1 /\ aliases t = [(key, Marshal rec)] /\ rec_in_range rec.

Lemma write_clean env rec al t :
  NoDup t.*1 -> writeOk env = true -> rec_in_range rec ->
  (al = aliases t \/ (al = [] /\ (aliases t = [] \/ exists v, aliases t = [(key, v)]))) ->
  exists t', writeSTSRecordLocked env chost rec al t = (t', inr tt) /\ clean t' rec /\ others t' = others t.
Proof.
  intros Hnd Hw Hr Hal. unfold writeSTSRecordLocked. rewrite Hw. simpl. fold key.
  eexists. split; [reflexivity|]. rewrite foldl_delete.
  destruct (upsert_keys t key (Marshal rec) Hnd) as [Hnd' _].
  set (t1 := upsert t key (Marshal rec)) in *.
  assert (aliases (List.filter (keep_row key al) t1) = List.filter (keep_row key al) (aliases t1)) as Ecomm
    by apply filter_filter_comm.
  assert (aliases t1 = upsert (aliases t) key (Marshal rec)) as E1
    by (apply filter_upsert_in; [apply is_alias_on_key|apply key_alias]).
  assert (List.filter (keep_row key al) (aliases t1) = [(key, Marshal rec)]) as E2.
  { rewrite E1. destruct Hal as [->|[-> [-> |[v ->]]]].
    - apply keep_upsert; [by apply filter_keys_NoDup|]. intros r Hr'. apply existsb_exists. exists r.
      split; [by apply list_elem_of_In|by apply bool_decide_eq_true].
    - simpl. unfold keep_row. simpl. by rewrite bool_decide_eq_true_2.
    - simpl. rewrite bool_decide_eq_true_2 by done. simpl. unfold keep_row. simpl. by rewrite bool_decide_eq_true_2. }
  split; [split_and!; [by apply filter_keys_NoDup|by rewrite Ecomm|done]|].
  rewrite filter_filter_comm.
  assert (others t1 = others t) as ->
    by (apply filter_upsert_out; [apply not_alias_on_key|by rewrite key_alias]).
  apply filter_true. intros r Hr'. apply List.filter_In in Hr' as [_ Hr'].
  unfold keep_row. apply orb_true_iff. right. apply negb_true_iff, not_true_iff_false.
  rewrite existsb_exists. intros (a & Ha & E%bool_decide_eq_true).
  assert (is_alias chost a = true) as Hia.
  { destruct Hal as [->|[-> _]]; [by apply List.filter_In in Ha as [_ ?]|done]. }
  destruct a as [ak av], r as [rk rv]. simpl in E. subst ak.
  rewrite (is_alias_on_key rk av rv) in Hia. by rewrite Hia in Hr'.
Qed.

(** ** Reads *)

Lemma decode_Marshal rec :
  rec_in_range rec ->
  decodeSTSPolicy (Marshal rec) true =
    if rDisabled rec then
      if rRevision rec =? 0 then inl ErrCorrupt else inr (MkPolicy 0 0 0 (rRevision rec) (rPolicyEpoch rec) false)
    else match rUntil rec with
    | None => inl ErrCorrupt
    | Some until =>
        if (rPort rec <=? 0) || (rPort rec >? 65535) || (until <=? 0) then inl ErrCorrupt
        else inr (MkPolicy (rPort rec) until
                    (match rDuration rec with
                     | Some ms => if (1 <=? ms) && (ms <=? maxSTSDurationMs) then wrap64 (ms * Millisecond) else 0
                     | None => 0 end)
                    (rRevision rec) (rPolicyEpoch rec) true)
    end.
Proof. intros Hr. unfold decodeSTSPolicy. simpl. by rewrite Unmarshal_Marshal. Qed.

Lemma decode_Unmarshal v p : decodeSTSPolicy v true = inr p -> exists rec, Unmarshal v = Some rec.
Proof. unfold decodeSTSPolicy. simpl. destruct (Unmarshal v); [eauto|done]. Qed.

Lemma value_clean env t rec p :
  clean t rec -> scanOk env = true -> decodeSTSPolicy (Marshal rec) true = inr p ->
  stsValueLocked env chost t = (t, inr (Some (Marshal rec))).
Proof.
  intros (_ & Ha & Hr) Hs Hd. unfold stsValueLocked, mbind_, stsAliasesLocked. rewrite Hs, Ha.
  unfold strongestSTSAlias, lift. cbn [strongest_loop]. rewrite Hd.
  destruct (decode_Unmarshal _ _ Hd) as [rec' ->].
  simpl. fold key. by rewrite bool_decide_eq_true_2.
Qed.

Lemma STSPolicy_clean env t rec p :
  clean t rec -> scanOk env = true -> decodeSTSPolicy (Marshal rec) true = inr p ->
  STSPolicy env host t = (t, inr p).
Proof.
  intros Hc Hs Hd. unfold STSPolicy, mbind_. fold chost. rewrite (value_clean env t rec p Hc Hs Hd).
  unfold lift. by rewrite Hd.
Qed.

(** The record chosen among the aliases is one of theirs. *)
Lemma strongest_loop_range env first al chosen act un mx r m :
  rec_in_range chosen -> 0 <= mx <= maxUint64 ->
  strongest_loop env first al chosen act un mx = inr (r, m) -> rec_in_range r /\ 0 <= m <= maxUint64.
Proof.
  revert first chosen act un mx. induction al as [|[k v] al IH]; intros first chosen act un mx Hc Hm; simpl.
  - by intros [= <- <-].
  - destruct (decodeSTSPolicy v true) as [e|p] eqn:Ed; [done|]. destruct (Unmarshal v) as [rec|] eqn:Eu; [|done].
    assert (0 <= pRevision p <= maxUint64) as Hp.
    { pose proof (Unmarshal_range _ _ Eu) as (_ & Hrev & _). unfold decodeSTSPolicy in Ed. simpl in Ed. rewrite Eu in Ed.
      destruct (rDisabled rec); [destruct (rRevision rec =? 0); by simplify_eq/=|].
      destruct (rUntil rec); [|done]. destruct (_ || _); by simplify_eq/=. }
    destruct (_ || _); apply IH; try done; try (by eapply Unmarshal_range); destruct (_ >? _); done.
Qed.

Lemma zero_in_range : rec_in_range zero_record.
Proof. unfold rec_in_range, zero_record, minInt64, maxInt64, maxUint64. simpl. split_and!; try lia; done. Qed.

Lemma with_revision_range rec r : rec_in_range rec -> 0 <= r <= maxUint64 -> rec_in_range (with_revision rec r).
Proof. intros (? & ? & ? & ? & ?) ?. unfold rec_in_range. simpl. split_and!; first [assumption | lia]. Qed.

Lemma next_range c n : 0 <= c <= maxUint64 -> nextSTSRevision c = inr n -> n = c + 1 /\ 0 <= n <= maxUint64.
Proof. unfold nextSTSRevision. destruct (Z.eqb_spec c maxUint64); [done|]. intros ? [= <-]. lia. Qed.

Lemma mask_generation_range u : 0 <= u -> 2 ^ 62 <= mask_generation u < 2 ^ 63.
Proof.
  intros Hu. unfold mask_generation. replace (2 ^ 62 - 1) with (Z.ones 62) by done.
  rewrite Z.land_ones by lia. pose proof (Z.mod_pos_bound u (2 ^ 62) ltac:(lia)) as Hm.
  assert (Z.land (u mod 2 ^ 62) (2 ^ 62) = 0) as H0.
  { apply Z.bits_inj'. intros n Hn. rewrite Z.land_spec, Z.bits_0, Z.pow2_bits_eqb by lia.
    destruct (Z.eqb_spec 62 n) as [<-|]; [|by rewrite andb_false_r]. rewrite andb_true_r.
    apply Z.bits_above_log2; [lia|]. destruct (Z.eq_dec (u mod 2 ^ 62) 0) as [->|]; [done|].
    apply Z.log2_lt_pow2; lia. }
  assert (Z.lor (u mod 2 ^ 62) (2 ^ 62) = u mod 2 ^ 62 + 2 ^ 62) as ->; [|lia].
  rewrite Z.add_nocarry_lxor by done. symmetry. by apply Z.lxor_lor.
Qed.

Lemma strongest_loop_err env f l c act u m e : strongest_loop env f l c act u m = inl e -> e = ErrCorrupt.
Proof.
  revert f c act u m. induction l as [|[k v] l IH]; intros f c act u m; simpl; [done|].
  destruct (decodeSTSPolicy v true) as [e'|p] eqn:Ed.
  { intros [= <-]. unfold decodeSTSPolicy in Ed. simpl in Ed. repeat case_match; by simplify_eq. }
  destruct (Unmarshal v); [|by intros [= <-]]. destruct (_ || _); apply IH.
Qed.

(** What a healthy environment is: nothing fails, random words are words. *)
Definition env_ok (env : Env) : Prop :=
  scanOk env = true /\ writeOk env = true /\
  exists a b, entropy env = Some (a, b) /\ 0 <= a /\ 0 <= b.

(** The value read is decodable, and the table has at most the canonical
    row left. *)
Lemma value_cases env t :
  NoDup t.*1 -> scanOk env = true -> writeOk env = true ->
  (aliases t = [] /\ stsValueLocked env chost t = (t, inr None)) \/
  (exists e, (e = ErrCorrupt \/ e = ErrExhausted) /\ stsValueLocked env chost t = (t, inl e)) \/
  (exists t1 v rec, stsValueLocked env chost t = (t1, inr (Some v)) /\ Unmarshal v = Some rec /\
     NoDup t1.*1 /\ aliases t1 = [(key, v)] /\ others t1 = others t).
Proof.
  intros Hnd Hs Hw. unfold stsValueLocked, mbind_, stsAliasesLocked. rewrite Hs.
  destruct (aliases t) as [|a rest] eqn:Ea; [by left|]. right. unfold lift.
  destruct (strongestSTSAlias env (a :: rest)) as [e|[chosen mx]] eqn:Es.
  { left. exists e. split; [|done]. left. by eapply strongest_loop_err. }
  assert (exists rec, Unmarshal a.2 = Some rec) as [reca Hreca].
  { unfold strongestSTSAlias in Es. destruct a as [k v]. simpl in Es |- *.
    destruct (decodeSTSPolicy v true); [done|]. destruct (Unmarshal v); [eauto|done]. }
  destruct (strongest_loop_range env true (a :: rest) zero_record false 0 0 chosen mx zero_in_range
              ltac:(unfold maxUint64; lia) Es) as [Hcr Hmx].
  destruct ((rest == []) && (a.1 == stsKey chost)) eqn:Eone.
  { apply andb_true_iff in Eone as [->%bool_decide_eq_true E%bool_decide_eq_true].
    right. exists t, a.2, reca. split_and!; try done. rewrite Ea. destruct a as [k v]. simpl in E. by subst k. }
  destruct (nextSTSRevision mx) as [e|n] eqn:En.
  { left. exists e. split; [|done]. unfold nextSTSRevision in En. destruct (_ =? _); [|done]. simplify_eq. by right. }
  apply next_range in En as [-> Hn]; [|done].
  pose proof (with_revision_range chosen (mx + 1) Hcr Hn) as Hr.
  destruct (write_clean env (with_revision chosen (mx + 1)) (a :: rest) t Hnd Hw Hr ltac:(left; by rewrite Ea))
    as (t1 & Hwr & (Hnd1 & Ha1 & _) & Ho).
  right. rewrite Hwr. exists t1, (Marshal (with_revision chosen (mx + 1))), (with_revision chosen (mx + 1)).
  split_and!; try done. by apply Unmarshal_Marshal.
Qed.

(** An unconditional mutation always gets a starting point. *)
Lemma read_current_ok env t :
  NoDup t.*1 -> env_ok env ->
  exists t1 cur present al, read_current env chost None t = (t1, inr (cur, present, al)) /\
    NoDup t1.*1 /\ rec_in_range cur /\ others t1 = others t /\
    (al = aliases t1 \/ (al = [] /\ (aliases t1 = [] \/ exists v, aliases t1 = [(key, v)]))).
Proof.
  intros Hnd (Hs & Hw & a & b & He & Ha & Hb). unfold read_current, mbind_, mtry.
  destruct (value_cases env t Hnd Hs Hw) as [[Hal ->]|[(e & Hee & ->)|(t1 & v & rec & -> & Hu & Hnd1 & Hal & Ho)]].
  - exists t, zero_record, false, []. do 2 (split; [done|]). split; [apply zero_in_range|]. split; [done|].
    right. split; [done|by left].
  - assert (stsReadErrorRepairable None e = true) as -> by (destruct Hee as [-> | ->]; done). simpl.
    unfold prepareSTSRepairLocked, mbind_, stsAliasesLocked, lift, freshSTSGenerationPair. rewrite Hs, He.
    eexists t, _, _, _. split; [reflexivity|]. split; [done|].
    split; [|split; [done|by left]]. pose proof (mask_generation_range a Ha). pose proof (mask_generation_range b Hb).
    unfold rec_in_range, minInt64, maxInt64, maxUint64. simpl. split_and!; first [lia | done].
  - rewrite Hu. exists t1, rec, true, []. do 2 (split; [done|]). split; [by eapply Unmarshal_range|]. split; [done|].
    right. split; [done|]. right. eauto.
Qed.

Lemma remint_ok env cur :
  env_ok env -> rec_in_range cur ->
  exists cur', remintExhaustedSTSGenerations env None cur = inr cur' /\ rec_in_range cur' /\
    rRevision cur' < maxUint64 /\ rPolicyEpoch cur' < maxUint64.
Proof.
  intros (_ & _ & a & b & He & Ha & Hb) Hr. unfold remintExhaustedSTSGenerations, freshSTSGenerationPair.
  rewrite He. simpl. pose proof (mask_generation_range a Ha). pose proof (mask_generation_range b Hb).
  destruct Hr as (? & ? & ? & ? & ?).
  destruct_if as E; (eexists; split; [reflexivity|]); unfold rec_in_range, maxUint64 in *; simpl;
    split_and!; first [assumption | lia].
Qed.

(** A Set or Clear goes through whatever the table held. *)
Lemma update_bump env k t :
  NoDup t.*1 -> env_ok env ->
  (forall nr ne, 1 <= nr <= maxUint64 -> 1 <= ne <= maxUint64 ->
     rec_in_range (k nr ne) /\ rRevision (k nr ne) = nr /\ rPolicyEpoch (k nr ne) = ne) ->
  exists t' nr ne, updateSTS env host None (fun c r _ => bump c r k) t = (t', inr (nr, ne, true)) /\
    clean t' (k nr ne) /\ others t' = others t /\ 1 <= nr <= maxUint64 /\ 1 <= ne <= maxUint64.
Proof.
  intros Hnd Henv Hk. destruct (read_current_ok env t Hnd Henv) as (t1 & cur & present & al & Hrc & Hnd1 & Hcr & Ho & Hal).
  destruct (remint_ok env cur Henv Hcr) as (cur' & Hre & Hcr' & L1 & L2).
  destruct Hcr' as (_ & R1 & R2 & _).
  unfold updateSTS, mbind_, lift. fold chost. rewrite Hrc, Hre. unfold bump, nextSTSRevision.
  destruct (Z.eqb_spec (rRevision cur') maxUint64); [lia|].
  destruct (Z.eqb_spec (rPolicyEpoch cur') maxUint64); [lia|].
  destruct (Hk (rRevision cur' + 1) (rPolicyEpoch cur' + 1)) as (K1 & K2 & K3); [lia..|].
  destruct (write_clean env (k (rRevision cur' + 1) (rPolicyEpoch cur' + 1)) al t1 Hnd1 (proj1 (proj2 Henv)) K1 Hal)
    as (t' & -> & Hc & Ho').
  eexists t', _, _. split; [by rewrite K2, K3|]. split; [done|]. split; [by rewrite Ho'|]. lia.
Qed.

Lemma clamp_ms_range d : 1 <= clamp_ms d <= maxSTSDurationMs.
Proof. unfold clamp_ms, maxSTSDurationMs. destruct (Z.ltb_spec (Z.quot d Millisecond) 1); [lia|]. destruct (Z.gtb_spec (Z.quot d Millisecond) (100 * 365 * 24 * 60 * 60 * 1000)); lia. Qed.

Lemma set_read_back env1 env2 port until d t :
  NoDup t.*1 -> env_ok env1 -> scanOk env2 = true ->
  1 <= port <= 65535 -> 1 <= until <= maxInt64 ->
  exists t' rev ep, SetSTSPolicy env1 host port until d t = (t', inr (rev, ep)) /\
    STSPolicy env2 host t' = (t', inr (MkPolicy port until (clamp_ms d * Millisecond) rev ep true)) /\
    others t' = others t.
Proof.
  intros Hnd Henv Hs2 Hp Hu.
  destruct (update_bump env1 (fun nr ne => MkRec port (Some until) (Some (clamp_ms d)) nr ne false) t Hnd Henv)
    as (t' & nr & ne & Hup & Hc & Ho & Hnr & Hne).
  { intros nr ne ? ?. pose proof (clamp_ms_range d). unfold rec_in_range, minInt64, maxInt64, maxUint64, maxSTSDurationMs in *.
    simpl. split_and!; try done; try lia; intros ? [= <-]; lia. }
  exists t', nr, ne. split; [|split; [|done]].
  - unfold SetSTSPolicy. replace ((port <=? 0) || (port >? 65535) || (until <=? 0)) with false by lia.
    unfold mbind_. by rewrite Hup.
  - eapply STSPolicy_clean; [exact Hc|done|]. rewrite decode_Marshal by apply Hc. simpl.
    replace ((port <=? 0) || (port >? 65535) || (until <=? 0)) with false by lia.
    pose proof (clamp_ms_range d). replace ((1 <=? clamp_ms d) && (clamp_ms d <=? maxSTSDurationMs)) with true by lia.
    do 2 f_equal. unfold wrap64, maxSTSDurationMs, Millisecond in *. rewrite Z.mod_small; lia.
Qed.

(** Setting a policy always takes effect: whatever the table held for
    the host, unreadable or exhausted records and other spellings included,
    the call succeeds and the next read gives that policy with the returned
    revision, leaving one row for the host and the other rows alone. *)
Theorem set_then_read env1 env2 port until d t :
  NoDup t.*1 -> env_ok env1 -> scanOk env2 = true ->
  1 <= port <= 65535 -> 1 <= until <= maxInt64 ->
  exists t' rev ep, SetSTSPolicy env1 host port until d t = (t', inr (rev, ep)) /\
    STSPolicy env2 host t' = (t', inr (MkPolicy port until (clamp_ms d * Millisecond) rev ep true)) /\
    others t' = others t.
Proof. apply set_read_back. Qed.

(** C14. A record that cannot be decoded, under any spelling of the host,
    makes the read fail and leaves the table alone: it is never mistaken for
    "no policy stored", which would let the next connect go out in clear. *)
Theorem corrupt_fails_closed env t row e :
  row ∈ t -> is_alias chost row = true -> decodeSTSPolicy row.2 true = inl e ->
  exists e', STSPolicy env host t = (t, inl e').
Proof.
  intros Hin Hal Hd. unfold STSPolicy, stsValueLocked, mbind_, stsAliasesLocked. fold chost.
  destruct (scanOk env); [|by eexists].
  assert (row ∈ aliases t) as Hrow by (apply list_elem_of_In, List.filter_In; split; [by apply list_elem_of_In|done]).
  assert (forall l f c act u m, row ∈ l -> exists e', strongest_loop env f l c act u m = inl e') as Hloop.
  { intros l. induction l as [|[k v] l IH]; intros f c act u m Hr; [by apply not_elem_of_nil in Hr|].
    simpl. apply elem_of_cons in Hr as [->|Hr].
    - simpl in Hd. rewrite Hd. by eexists.
    - destruct (decodeSTSPolicy v true); [by eexists|]. destruct (Unmarshal v); [|by eexists].
      destruct (_ || _); by apply IH. }
  destruct (aliases t) as [|a rest]; [by apply not_elem_of_nil in Hrow|].
  destruct (Hloop (a :: rest) true zero_record false 0 0 Hrow) as [e' He'].
  unfold lift, strongestSTSAlias. rewrite He'. by eexists.
Qed.

(** ** No active policy is missed *)

Definition active (env : Env) (p : policy) : Prop := pOk p = true /\ now env < pUntil p * 1000000.

(** The record decodes to a policy in force until [u]. *)
Definition decodes_until (rec : stsRecord) (u : Z) : Prop :=
  exists q, decodeSTSPolicy (Marshal rec) true = inr q /\ pOk q = true /\ pUntil q = u.

Lemma decode_same v rec : Unmarshal v = Some rec -> decodeSTSPolicy (Marshal rec) true = decodeSTSPolicy v true.
Proof.
  intros Hu. unfold decodeSTSPolicy. simpl. by rewrite Hu, (Unmarshal_Marshal rec) by (by eapply Unmarshal_range).
Qed.

Lemma decode_ok v p : decodeSTSPolicy v true = inr p -> pOk p = false -> pUntil p = 0.
Proof. unfold decodeSTSPolicy. simpl. intros Hd. repeat case_match; by simplify_eq/=. Qed.

Lemma strongest_active env f l c act u m r mx :
  strongest_loop env f l c act u m = inr (r, mx) -> (act = true -> decodes_until c u) ->
  exists act' u', (act' = true -> decodes_until r u') /\
    (f = false -> act = true -> act' = true /\ u <= u') /\
    (forall row p, row ∈ l -> decodeSTSPolicy row.2 true = inr p -> active env p -> act' = true /\ pUntil p <= u').
Proof.
  revert f c act u m. induction l as [|[k v] l IH]; intros f c act u m; simpl.
  { intros [= <- <-] Hc. exists act, u. split_and!; try done. by intros row p ?%not_elem_of_nil. }
  destruct (decodeSTSPolicy v true) as [e|p] eqn:Ed; [done|].
  destruct (Unmarshal v) as [rec|] eqn:Eu; [|done].
  set (a := pOk p && (now env <? pUntil p * 1000000)).
  set (cu := if pOk p then pUntil p else 0).
  assert (cu = pUntil p) as Ecu by (unfold cu; destruct (pOk p) eqn:E; [done|]; symmetry; by eapply decode_ok).
  assert (a = true <-> active env p) as Ha by (unfold a, active; rewrite andb_true_iff, Z.ltb_lt; done).
  destruct_if as Echoose; intros Hl Hc.
  - destruct (IH _ _ _ _ _ Hl) as (act' & u' & I1 & I2 & I3).
    { intros Ea. exists p. rewrite (decode_same v rec Eu). apply Ha in Ea as [? ?]. by rewrite Ecu. }
    exists act', u'. split; [done|]. split.
    + intros -> ->. simpl in Echoose. rewrite andb_false_r in Echoose. simpl in Echoose.
      destruct a; simpl in Echoose; [|done]. destruct (I2 eq_refl eq_refl). lia.
    + intros row p' [->|Hr]%elem_of_cons Hd Hact; [|by eapply I3].
      simpl in Hd. rewrite Ed in Hd. injection Hd as <-. apply Ha in Hact as Hat. rewrite <- Ecu. by apply I2.
  - destruct (IH _ _ _ _ _ Hl Hc) as (act' & u' & I1 & I2 & I3).
    destruct f; [done|]. simpl in Echoose. exists act', u'. split; [done|]. split; [by intros _; apply I2|].
    intros row p' [->|Hr]%elem_of_cons Hd Hact; [|by eapply I3].
    simpl in Hd. rewrite Ed in Hd. injection Hd as <-. apply Ha in Hact as Hat. rewrite Hat in Echoose.
    destruct act; [|done]. simpl in Echoose. destruct (I2 eq_refl eq_refl). split; [done|]. lia.
Qed.

Lemma decodes_with_revision rec u n :
  rec_in_range rec -> 0 <= n <= maxUint64 -> decodes_until rec u -> decodes_until (with_revision rec n) u.
Proof.
  intros Hr Hn (q & Hq & Hok & Hu). rewrite decode_Marshal in Hq by done.
  unfold decodes_until. rewrite decode_Marshal by by apply with_revision_range. simpl.
  destruct (rDisabled rec); [destruct (_ =? _); by simplify_eq/=|].
  destruct (rUntil rec); [|done]. destruct (_ || _); [done|]. simplify_eq/=. by eexists.
Qed.

Lemma active_row_read env t t' row p q :
  NoDup t.*1 -> row ∈ t -> is_alias chost row = true ->
  decodeSTSPolicy row.2 true = inr p -> active env p ->
  STSPolicy env host t = (t', inr q) -> pOk q = true /\ pUntil p <= pUntil q.
Proof.
  intros Hnd Hin Hal Hd Hact. unfold STSPolicy, stsValueLocked, mbind_, stsAliasesLocked. fold chost.
  destruct (scanOk env); [|done].
  assert (row ∈ aliases t) as Hrow by (apply list_elem_of_In, List.filter_In; split; [by apply list_elem_of_In|done]).
  destruct (aliases t) as [|a rest] eqn:Ea; [by apply not_elem_of_nil in Hrow|]. unfold lift.
  destruct (strongestSTSAlias env (a :: rest)) as [e|[chosen mx]] eqn:Es; [done|].
  destruct_if as Eone.
  { apply andb_true_iff in Eone as [->%bool_decide_eq_true _]. apply list_elem_of_singleton in Hrow as <-.
    unfold mret. rewrite Hd. intros [= <- <-]. destruct Hact. split; [done|lia]. }
  destruct (strongest_loop_range env true (a :: rest) zero_record false 0 0 chosen mx zero_in_range
              ltac:(unfold maxUint64; lia) Es) as [Hcr Hmx].
  destruct (nextSTSRevision mx) as [e|n] eqn:En; [done|]. apply next_range in En as [-> Hn]; [|done].
  unfold writeSTSRecordLocked, mret. destruct (writeOk env); [|done]. simpl.
  destruct (strongest_active _ _ _ _ _ _ _ _ _ Es) as (act' & u' & I1 & _ & I3); [done|].
  destruct (I3 row p Hrow Hd Hact) as [-> Hle]. destruct (decodes_with_revision chosen u' (mx + 1) Hcr Hn (I1 eq_refl))
    as (q' & Hq' & Hok & Hu). rewrite Hq'. intros [= _ <-]. by rewrite Hok, Hu.
Qed.

(** A policy in force is never missed: if any row that spells the host
    holds an unexpired policy, a read that returns gives a policy in force at
    least as long, whichever spelling it was stored under. *)
Theorem active_policy_found env t t' row p q :
  NoDup t.*1 -> row ∈ t -> is_alias chost row = true ->
  decodeSTSPolicy row.2 true = inr p -> active env p ->
  STSPolicy env host t = (t', inr q) -> pOk q = true /\ pUntil p <= pUntil q.
Proof. apply active_row_read. Qed.

(** ** Compare-and-swap *)

Lemma read_clean env x t rec p :
  clean t rec -> scanOk env = true -> decodeSTSPolicy (Marshal rec) true = inr p ->
  read_current env chost x t = (t, inr (rec, true, [])).
Proof.
  intros Hc Hs Hd. unfold read_current, mbind_, mtry. rewrite (value_clean env t rec p Hc Hs Hd).
  by rewrite Unmarshal_Marshal by apply Hc.
Qed.

(** A disconnect's reschedule is a compare-and-swap: it touches the
    record only when its revision is still the expected one and the policy is
    in force, and then changes nothing but the expiry and the revision, which
    moves to the next number; otherwise the table stays as it was. *)
Theorem reschedule_cas env t rec p x until :
  clean t rec -> scanOk env = true -> decodeSTSPolicy (Marshal rec) true = inr p -> 1 <= until <= maxInt64 ->
  (exists t' r,
     RescheduleSTSPolicy env host x until t = (t', inr (r, true)) /\ x = rRevision rec /\ pOk p = true /\
     r = x + 1 /\ clean t' (MkRec (rPort rec) (Some until) (rDuration rec) r (rPolicyEpoch rec) false) /\
     others t' = others t) \/
  (exists r, RescheduleSTSPolicy env host x until t = (t, inr (r, false))) \/
  (exists e, RescheduleSTSPolicy env host x until t = (t, inl e)).
Proof.
  intros Hc Hs Hd Hu. unfold RescheduleSTSPolicy, updateSTS, mbind_, lift. fold chost.
  rewrite (read_clean env (Some x) t rec p Hc Hs Hd).
  destruct (Z.eqb_spec (rRevision rec) x) as [Ex|Ex]; simpl; [|right; left; by eexists].
  rewrite decode_Marshal in Hd by apply Hc.
  destruct (rDisabled rec) eqn:Edis; simpl; [right; left; by eexists|].
  destruct (rUntil rec) as [u|]; [|done]. destruct (_ || _); [done|].
  destruct (rDuration rec) as [ms|] eqn:Edur; [|right; left; by eexists].
  destruct_if as Ems; [right; left; by eexists|].
  destruct (nextSTSRevision (rRevision rec)) as [e|n] eqn:En; [right; right; by eexists|].
  pose proof Hc as (Hnd & Hal & R1 & R2 & R3 & R4 & R5). apply next_range in En as [-> Hn]; [|done].
  destruct (writeOk env) eqn:Ew.
  - left. set (rec' := MkRec (rPort rec) (Some until) (Some ms) (rRevision rec + 1) (rPolicyEpoch rec) false).
    destruct (write_clean env rec' [] t Hnd Ew) as (t' & -> & Hc' & Ho).
    { unfold rec_in_range, rec'. simpl. split_and!; try assumption; try lia; intros ? [= <-]; unfold minInt64, maxInt64 in *; [lia|].
      apply R5. done. }
    { right. split; [done|]. right. eauto. }
    exists t', (rRevision rec + 1). subst x. simplify_eq/=. by split_and!.
  - right. right. unfold writeSTSRecordLocked. rewrite Ew. by eexists.
Qed.

(** A tombstone. *)
Lemma decode_tombstone nr ne :
  1 <= nr <= maxUint64 -> 1 <= ne <= maxUint64 ->
  rec_in_range (MkRec 0 None None nr ne true) /\
  decodeSTSPolicy (Marshal (MkRec 0 None None nr ne true)) true = inr (MkPolicy 0 0 0 nr ne false).
Proof.
  intros H1 H2. assert (rec_in_range (MkRec 0 None None nr ne true)) as Hr.
  { unfold rec_in_range, minInt64, maxInt64, maxUint64 in *. simpl. split_and!; try lia; done. }
  split; [done|]. rewrite decode_Marshal by done. simpl. destruct (Z.eqb_spec nr 0); [lia|done].
Qed.

(** A cleared policy stays cleared: clearing always succeeds, the next
    read reports no policy without an error, and no reschedule, whatever
    revision it expects and however many follow, brings it back. *)
Theorem cleared_stays_cleared env t resched :
  NoDup t.*1 -> env_ok env -> Forall (fun x => scanOk x.1.1 = true) resched ->
  exists t' rev ep, ClearSTSPolicy env host t = (t', inr (rev, ep)) /\
    foldl (fun t '(e, x, until) => (RescheduleSTSPolicy e host x until t).1) t' resched = t' /\
    forall env2, scanOk env2 = true -> STSPolicy env2 host t' = (t', inr (MkPolicy 0 0 0 rev ep false)).
Proof.
  intros Hnd Henv Hres.
  destruct (update_bump env (fun nr ne => MkRec 0 None None nr ne true) t Hnd Henv)
    as (t' & nr & ne & Hup & Hc & _ & Hnr & Hne).
  { intros nr ne H1 H2. split; [apply (decode_tombstone nr ne H1 H2)|done]. }
  destruct (decode_tombstone nr ne Hnr Hne) as [_ Hd].
  exists t', nr, ne. split; [|split].
  - unfold ClearSTSPolicy, mbind_. by rewrite Hup.
  - clear Hup. induction Hres as [|[[e x] until] resched Hs _ IH]; [done|]. simpl in *.
    assert (RescheduleSTSPolicy e host x until t' = (t', inr (nr, false))) as ->; [|done].
    unfold RescheduleSTSPolicy, updateSTS, mbind_, lift. fold chost.
    rewrite (read_clean e (Some x) t' _ _ Hc Hs Hd). simpl. by destruct (nr =? x).
  - intros env2 Hs. by apply (STSPolicy_clean env2 t' _ _ Hc Hs).
Qed.
End host.

(** ** STS policy persistence, run on concrete tables

    A codec for the records (their binary encoding, for evaluation), a table
    with an unreadable row and a legacy spelling, and the theorems of
    [StsStoreProofs] applied there. *)

(** ** A codec *)

Definition rec_tuple (r : stsRecord) : Z * option Z * option Z * Z * Z * bool :=
  (rPort r, rUntil r, rDuration r, rRevision r, rPolicyEpoch r, rDisabled r).
Definition tuple_rec (t : Z * option Z * option Z * Z * Z * bool) : stsRecord :=
  let '(a, b, c, d, e, f) := t in MkRec a b c d e f.

Fixpoint pos_bits (p : positive) : gostring :=
  match p with xH => [] | xO q => x30 :: pos_bits q | xI q => x31 :: pos_bits q end.
Fixpoint bits_pos (s : gostring) : option positive :=
  match s with
  | [] => Some xH
  | c :: s' => match bits_pos s' with
               | Some q => if c == x30 then Some (xO q) else if c == x31 then Some (xI q) else None
               | None => None
               end
  end.

Lemma bits_pos_bits p : bits_pos (pos_bits p) = Some p.
Proof. induction p as [p IH|p IH|]; simpl; rewrite ?IH; done. Qed.

Definition in64 (z : Z) : bool := (minInt64 <=? z) && (z <=? maxInt64).
Definition inu64 (z : Z) : bool := (0 <=? z) && (z <=? maxUint64).
Definition in_range_b (r : stsRecord) : bool :=
  in64 (rPort r) && inu64 (rRevision r) && inu64 (rPolicyEpoch r)
  && match rUntil r with Some u => in64 u | None => true end
  && match rDuration r with Some d => in64 d | None => true end.

Lemma in_range_b_spec r : in_range_b r = true <-> rec_in_range r.
Proof.
  unfold in_range_b, rec_in_range, in64, inu64. rewrite !andb_true_iff, !Z.leb_le.
  split.
  - intros ((((? & ?) & ?) & Hu) & Hd). split_and!; try tauto.
    + intros u E. rewrite E in Hu. lia.
    + intros d E. rewrite E in Hd. lia.
  - intros (? & ? & ? & Hu & Hd). split_and!; try tauto.
    + destruct (rUntil r) as [u|]; [|done]. specialize (Hu u eq_refl). lia.
    + destruct (rDuration r) as [d|]; [|done]. specialize (Hd d eq_refl). lia.
Qed.

Definition bits_codec : StsCodec := {|
  Marshal r := pos_bits (encode (rec_tuple r));
  Unmarshal v := match bits_pos v with
                 | Some q => match decode q with
                             | Some t => if in_range_b (tuple_rec t) then Some (tuple_rec t) else None
                             | None => None
                             end
                 | None => None
                 end
|}.

Lemma bits_codec_laws : @StsCodecLaws bits_codec.
Proof.
  split.
  - intros r Hr. simpl. rewrite bits_pos_bits, decode_encode. apply in_range_b_spec in Hr.
    destruct r. simpl in *. by rewrite Hr.
  - intros v r. simpl. destruct (bits_pos v); [|done]. destruct (decode p) as [t|]; [|done].
    destruct (in_range_b (tuple_rec t)) eqn:E; [|done]. intros [= <-]. by apply in_range_b_spec.
Qed.

(** ** Tables *)

#[local] Existing Instance ascii_unicode.
#[local] Instance no_ip : NetIP := {| ParseAddr _ := None |}.
#[local] Existing Instance bits_codec.
#[local] Existing Instance bits_codec_laws.

Definition good_env : Env := MkEnv true true (Some (5, 7)) 1000000000000.

Definition old_rec : stsRecord := MkRec 6697 (Some 2000000) (Some 5000) 3 2 false.

(** A legacy spelling beside an unrelated row. *)
Definition legacy : table := [(§"sts:IRC.Example.", Marshal old_rec); (§"theme", §"dark")].
(** The same with an unreadable canonical row. *)
Definition broken : table := (§"sts:irc.example", §"{") :: legacy.

Lemma irc_stable : @stable_host ascii_unicode no_ip (§"IRC.example").
Proof. vm_compute. reflexivity. Qed.

Lemma example_stable : @stable_host ascii_unicode no_ip (§"irc.example").
Proof. vm_compute. reflexivity. Qed.

Lemma good_env_ok : env_ok good_env.
Proof. split; [done|]. split; [done|]. exists 5, 7. done. Qed.

Lemma broken_keys : NoDup broken.*1.
Proof. apply (bool_decide_unpack _). vm_compute. exact I. Qed.
Lemma legacy_keys : NoDup legacy.*1.
Proof. apply (bool_decide_unpack _). vm_compute. exact I. Qed.

Lemma set_then_read_witness :
  exists t' rev ep, SetSTSPolicy good_env (§"IRC.example") 6697 3000000 1500000000 broken = (t', inr (rev, ep)) /\
    STSPolicy good_env (§"IRC.example") t' = (t', inr (MkPolicy 6697 3000000 1500000000 rev ep true)).
Proof.
  destruct (set_then_read (§"IRC.example") irc_stable good_env good_env 6697 3000000 1500000000 broken
              broken_keys good_env_ok eq_refl ltac:(lia) ltac:(unfold maxInt64; lia))
    as (t' & rev & ep & H1 & H2 & _).
  exists t', rev, ep. split; [exact H1|exact H2].
Defined.

Lemma corrupt_fails_closed_witness :
  exists e, STSPolicy good_env (§"IRC.example") broken = (broken, inl e).
Proof.
  apply (corrupt_fails_closed (§"IRC.example") good_env broken (§"sts:irc.example", §"{") ErrCorrupt).
  - by left.
  - vm_compute. reflexivity.
  - vm_compute. reflexivity.
Defined.

Lemma active_policy_found_witness :
  exists q, (STSPolicy good_env (§"irc.example") legacy).2 = inr q /\ pOk q = true /\ 2000000 <= pUntil q.
Proof.
  assert (exists t' q, STSPolicy good_env (§"irc.example") legacy = (t', inr q)) as (t' & q & E)
    by (eexists _, _; vm_compute; reflexivity).
  exists q. rewrite E. split; [reflexivity|].
  apply (active_policy_found (§"irc.example") good_env legacy t' (§"sts:IRC.Example.", Marshal old_rec)
           (MkPolicy 6697 2000000 5000000000 3 2 true) q legacy_keys).
  - by left.
  - vm_compute. reflexivity.
  - vm_compute. reflexivity.
  - split; [reflexivity|]. vm_compute. reflexivity.
  - exact E.
Defined.

Definition one_row : table := [(§"sts:irc.example", Marshal old_rec)].

Lemma one_row_clean : clean (§"irc.example") one_row old_rec.
Proof.
  split; [apply (bool_decide_unpack _); vm_compute; exact I|]. split; [vm_compute; reflexivity|].
  apply in_range_b_spec. vm_compute. reflexivity.
Qed.

(** A reschedule that expects the stored revision is applied. *)
Lemma reschedule_cas_witness :
  exists t' r, RescheduleSTSPolicy good_env (§"irc.example") 3 9000000 one_row = (t', inr (r, true)) /\
    r = 3 + 1 /\
    clean (§"irc.example") t' (MkRec (rPort old_rec) (Some 9000000) (rDuration old_rec) r (rPolicyEpoch old_rec) false).
Proof.
  assert ((RescheduleSTSPolicy good_env (§"irc.example") 3 9000000 one_row).2 = inr (4, true)) as E
    by (vm_compute; reflexivity).
  assert (decodeSTSPolicy (Marshal old_rec) true = inr (MkPolicy 6697 2000000 5000000000 3 2 true)) as Hd
    by (vm_compute; reflexivity).
  destruct (reschedule_cas (§"irc.example") example_stable good_env one_row old_rec _ 3 9000000 one_row_clean
              eq_refl Hd ltac:(unfold maxInt64; lia)) as [(t' & r & H1 & _ & _ & H2 & H3 & _)|[[r H1]|[e H1]]].
  - exists t', r. split; [exact H1|]. split; [exact H2|exact H3].
  - rewrite H1 in E. discriminate.
  - rewrite H1 in E. discriminate.
Defined.

Lemma cleared_stays_cleared_witness :
  exists t' rev ep, ClearSTSPolicy good_env (§"IRC.example") broken = (t', inr (rev, ep)) /\
    (RescheduleSTSPolicy good_env (§"IRC.example") rev 9000000 t').1 = t' /\
    STSPolicy good_env (§"IRC.example") t' = (t', inr (MkPolicy 0 0 0 rev ep false)).
Proof.
  pose (rev := mask_generation 5 + 1).
  destruct (cleared_stays_cleared (§"IRC.example") irc_stable good_env broken [(good_env, rev, 9000000)]
              broken_keys good_env_ok ltac:(by constructor)) as (t' & rev' & ep & H1 & H2 & H3).
  assert (rev' = rev) as ->.
  { assert ((ClearSTSPolicy good_env (§"IRC.example") broken).2 = inr (rev, mask_generation 7 + 1)) as E by (vm_compute; reflexivity).
    rewrite H1 in E. simpl in E. congruence. }
  exists t', rev, ep. split; [exact H1|]. split; [exact H2|]. by apply H3.
Defined.

(** Without the fixed point the row is written where the next read does not
    look: three trailing dots. *)
Example unstable_host_loses_policy :
  let '(t, r) := SetSTSPolicy good_env (§"h...") 6697 3000000 1500000000 [] in
  r = inr (1, 1) /\ STSPolicy good_env (§"h...") t = (t, inr (MkPolicy 0 0 0 0 0 false)).
Proof. vm_compute. split; reflexivity. Qed.
