(* ===== verification/Ring.v ===== *)
(** * Hot scrollback rings: internal/store/ring.go

    The bounded in-memory suffix of a buffer's history and every operation on
    it, with the SQL queries of internal/store/store.go whose answers it must
    reproduce, and the warm-up that loads it.  Binary search is the standard
    library's sort.Search.  The proofs are in [RingProofs]; the store that
    owns the rings is [Store]. *)

From S2P Require Import Prelude GoStrings GoUtf8.

(** ** Messages and cursors (store.go) *)

Record Message := MkMsg {
  ID : Z;
  Network : gostring;
  Target : gostring;
  Time : Z;            (* nanoseconds since the Unix epoch *)
  MsgID : gostring;
  Sender : gostring;
  MCommand : gostring;
  Raw : gostring;
  Text : gostring;
  Redacted : bool;
  RedactReason : gostring
}.

#[global] Instance Message_eq_dec : EqDecision Message.
Proof. solve_decision. Defined.

Record Cursor := MkCursor { TS : Z; CID : Z }.

Definition UnixMilli (t : Z) : Z := t / 1000000.

Definition CursorOf (m : Message) : Cursor := MkCursor (UnixMilli (Time m)) (ID m).
Definition CursorAtTime (t : Z) : Cursor := MkCursor (UnixMilli t) 0.
Definition maxCursor : Cursor := MkCursor maxInt64 maxInt64.

Definition cursorLess (a b : Cursor) : bool :=
  (TS a <? TS b) || ((TS a =? TS b) && (CID a <? CID b)).

Definition msgOverhead : Z := 192.

Definition msgBytes (m : Message) : Z :=
  len (Network m) + len (Target m) + len (Sender m) + len (MsgID m) + len (MCommand m)
  + len (Raw m) + len (Text m) + len (RedactReason m) + msgOverhead.

(** ** sort.Search *)

(** The loop halves [j - i]; [fuel = n] rounds are enough. *)
Fixpoint search_loop (fuel : nat) (f : nat -> bool) (i j : nat) : nat :=
  match fuel with
  | O => i
  | S k => if (i <? j)%nat
           then let h := ((i + j) / 2)%nat in
                if negb (f h) then search_loop k f (h + 1) j else search_loop k f i h
           else i
  end.
Definition Search (n : nat) (f : nat -> bool) : nat := search_loop n f 0 n.

(** ** The ring *)

Record ring := MkRing { max : Z; msgs : list Message; complete : bool; bytes : Z }.

Definition newRing (mx : Z) : ring := MkRing mx [] false 0.

Definition sum_bytes (l : list Message) : Z := foldr (fun m n => msgBytes m + n) 0 l.

Definition zeroMsg : Message := MkMsg 0 [] [] 0 [] [] [] [] [] false [].

(** The cursor at index [i], in range at every use. *)
Definition at_ (l : list Message) (i : nat) : Message := default zeroMsg (l !! i).

Definition adopt (r : ring) (l : list Message) : ring := MkRing (max r) l (complete r) (sum_bytes l).

Definition dropFirst (n : nat) (l : list Message) : list Message := drop n l.

(** [insert]: the new ring; the byte change is the difference of [bytes]. *)
Definition insert (r : ring) (m : Message) : ring :=
  let c := CursorOf m in
  if negb (complete r) && negb (msgs r == []) && cursorLess c (CursorOf (at_ (msgs r) 0)) then r
  else
    let i := Search (length (msgs r)) (fun i => cursorLess c (CursorOf (at_ (msgs r) i))) in
    let l := take i (msgs r) ++ m :: drop i (msgs r) in
    let b := bytes r + msgBytes m in
    if len l >? max r
    then MkRing (max r) (dropFirst 1 l) false (b - msgBytes (at_ l 0))
    else MkRing (max r) l (complete r) b.

(** The loop of [trimToBytes]: how many to drop, and the bytes left. *)
Fixpoint trim_count (limit : Z) (l : list Message) (b : Z) : nat * Z :=
  match l with
  | [] => (0%nat, b)
  | m :: rest =>
      if negb (rest == []) && (b >? limit)
      then let '(n, b') := trim_count limit rest (b - msgBytes m) in (S n, b')
      else (0%nat, b)
  end.

Definition trimToBytes (limit : Z) (r : ring) : ring :=
  let '(n, b) := trim_count limit (msgs r) (bytes r) in
  if (0 <? n)%nat then MkRing (max r) (dropFirst n (msgs r)) false b
  else MkRing (max r) (msgs r) (complete r) b.

Definition pageBefore (r : ring) (c : Cursor) (limit : Z) : list Message * bool :=
  let i := Search (length (msgs r)) (fun i => negb (cursorLess (CursorOf (at_ (msgs r) i)) c)) in
  let lo := if Z.of_nat i - limit <? 0 then 0 else Z.of_nat i - limit in
  let out := drop (Z.to_nat lo) (take i (msgs r)) in
  (out, complete r || (len out =? limit)).

Definition pageAfter (r : ring) (c : Cursor) (limit : Z) : list Message * bool :=
  let i := Search (length (msgs r)) (fun i => cursorLess c (CursorOf (at_ (msgs r) i))) in
  let hi := if Z.of_nat i + limit >? len (msgs r) then len (msgs r) else Z.of_nat i + limit in
  let out := drop i (take (Z.to_nat hi) (msgs r)) in
  (out, complete r || (negb (msgs r == []) && negb (cursorLess c (CursorOf (at_ (msgs r) 0))))).

Definition set_msgid (v : gostring) (m : Message) : Message :=
  MkMsg (ID m) (Network m) (Target m) (Time m) v (Sender m) (MCommand m) (Raw m) (Text m) (Redacted m) (RedactReason m).
Definition tombstone (reason : gostring) (m : Message) : Message :=
  MkMsg (ID m) (Network m) (Target m) (Time m) (MsgID m) (Sender m) (MCommand m) [] [] true reason.

(** The first message that satisfies [p], replaced; the byte change. *)
Fixpoint update_first (p : Message -> bool) (f : Message -> Message) (l : list Message) : list Message * Z :=
  match l with
  | [] => ([], 0)
  | m :: rest =>
      if p m then (f m :: rest, msgBytes (f m) - msgBytes m)
      else let '(rest', d) := update_first p f rest in (m :: rest', d)
  end.

Definition adoptMsgID (id : Z) (msgid : gostring) (r : ring) : ring :=
  let '(l, d) := update_first (fun m => ID m =? id) (set_msgid msgid) (msgs r) in
  MkRing (max r) l (complete r) (bytes r + d).

Definition redact (msgid reason : gostring) (r : ring) : ring :=
  let '(l, d) := update_first (fun m => MsgID m == msgid) (tombstone reason) (msgs r) in
  MkRing (max r) l (complete r) (bytes r + d).

Definition applyRetention (cutoffMs maxPerBuffer : Z) (r : ring) : ring :=
  let '(l, b, dropped) :=
    if cutoffMs >? 0 then
      let i := Search (length (msgs r)) (fun i => cutoffMs <=? UnixMilli (Time (at_ (msgs r) i))) in
      if (0 <? i)%nat then (dropFirst i (msgs r), bytes r - sum_bytes (take i (msgs r)), true)
      else (msgs r, bytes r, false)
    else (msgs r, bytes r, false) in
  let '(l, b, dropped) :=
    if (maxPerBuffer >? 0) && (len l >? maxPerBuffer) then
      let n := Z.to_nat (len l - maxPerBuffer) in
      (dropFirst n l, b - sum_bytes (take n l), true)
    else (l, b, dropped) in
  MkRing (max r) l (if dropped then false else complete r) b.

(** ** The messages table of one buffer, and the SQL the store runs on it *)

(** A row as the page queries select it: no [text] column, the time in
    milliseconds. *)
Definition row (m : Message) : Message :=
  MkMsg (ID m) (Network m) (Target m) (UnixMilli (Time m) * 1000000) (MsgID m) (Sender m) (MCommand m)
    (Raw m) [] (Redacted m) (RedactReason m).

(** The table in cursor order: the order of both queries' ORDER BY. *)
Fixpoint table_insert (m : Message) (d : list Message) : list Message :=
  match d with
  | [] => [m]
  | x :: rest => if cursorLess (CursorOf m) (CursorOf x) then m :: d else x :: table_insert m rest
  end.

Definition lastn {A} (n : nat) (l : list A) : list A := drop (length l - n) l.

(** [WHERE (ts, id) < c ORDER BY ts DESC, id DESC LIMIT n], reversed. *)
Definition sql_before (d : list Message) (c : Cursor) (limit : Z) : list Message :=
  row <$> lastn (Z.to_nat limit) (List.filter (fun m => cursorLess (CursorOf m) c) d).
(** [WHERE (ts, id) > c ORDER BY ts ASC, id ASC LIMIT n]. *)
Definition sql_after (d : list Message) (c : Cursor) (limit : Z) : list Message :=
  row <$> take (Z.to_nat limit) (List.filter (fun m => cursorLess c (CursorOf m)) d).

(** The retention DELETEs. *)
Definition sql_retain (cutoffMs maxPerBuffer : Z) (d : list Message) : list Message :=
  let d := if cutoffMs >? 0 then List.filter (fun m => cutoffMs <=? UnixMilli (Time m)) d else d in
  if maxPerBuffer >? 0 then lastn (Z.to_nat maxPerBuffer) d else d.

(** ** Page limits and warm-up *)

Definition DefaultPageSize : Z := 100.
Definition MaxPageSize : Z := 500.

Definition clampLimit (limit : Z) : Z :=
  if limit <=? 0 then DefaultPageSize else if limit >? MaxPageSize then MaxPageSize else limit.

Record limits := MkLimits { ringSize : Z; maxRingBytes : Z }.

(** The scan of [warmRingScan]: rows newest first until the byte budget. *)
Fixpoint warm_scan (budget b : Z) (rows : list Message) : list Message * bool :=
  match rows with
  | [] => ([], false)
  | m :: rest =>
      let b := b + msgBytes m in
      if budget <=? b then ([m], true)
      else let '(l, stopped) := warm_scan budget b rest in (m :: l, stopped)
  end.

(** The warm-up of [bufferAndRing]. *)
Definition warm (lim : limits) (d : list Message) : ring :=
  let warmLimit :=
    let byteCap := Z.quot (maxRingBytes lim) msgOverhead + 1 in
    if byteCap <? ringSize lim + 1 then byteCap else ringSize lim + 1 in
  let rows := take (Z.to_nat warmLimit) (reverse (row <$> d)) in
  let '(l, budgetStopped) := warm_scan (maxRingBytes lim) 0 rows in
  let l := reverse l in
  if (len l <? warmLimit) && negb budgetStopped
  then adopt (MkRing (ringSize lim) [] true 0) l
  else adopt (newRing (ringSize lim)) (if len l >? ringSize lim then drop 1 l else l).
