(* ===== verification/RingProofs.v ===== *)
(** * Hot scrollback rings: the cache is transparent

    A ring always holds, row for row, a suffix of the buffer's history in
    cursor order (all of it when it says so), within its size and with its
    byte count exact; so a page served from memory is the page the SQL query
    would return.  The invariant is kept by every operation on the ring with
    its counterpart on the table, and pages are compared on the columns the
    queries select. *)

From S2P Require Import Prelude GoStrings GoUtf8 Ring.
From Stdlib Require Import ZifyNat.

Ltac Zify.zify_post_hook ::= Z.to_euclidean_division_equations.
#[local] Arguments Nat.div : simpl never.
#[local] Arguments Nat.sub : simpl never.

(** ** sort.Search *)

Lemma search_loop_spec fuel f n i j :
  (j - i <= fuel)%nat -> (i <= j <= n)%nat ->
  (forall a b, (a <= b < n)%nat -> f a = true -> f b = true) ->
  (forall k, (k < i)%nat -> f k = false) -> (forall k, (j <= k < n)%nat -> f k = true) ->
  let s := search_loop fuel f i j in
  (i <= s <= j)%nat /\ (forall k, (k < s)%nat -> f k = false) /\ (forall k, (s <= k < n)%nat -> f k = true).
Proof.
  revert i j. induction fuel as [|fuel IH]; intros i j Hf Hij Hmon Hlo Hhi; simpl.
  - replace j with i in * by lia. split; [lia|done].
  - destruct (Nat.ltb_spec i j) as [Hlt|Hge]; [|replace j with i in * by lia; split; [lia|done]].
    set (h := ((i + j) / 2)%nat). assert (i <= h < j)%nat by (unfold h; lia).
    destruct (f h) eqn:Eh; simpl.
    + destruct (IH i h) as (H1 & H2 & H3); try done; [lia|lia| |split; [lia|done]].
      intros k Hk. apply (Hmon h k); [lia|done].
    + destruct (IH (h + 1)%nat j) as (H1 & H2 & H3); try done; [lia|lia| |split; [lia|done]].
      intros k Hk. destruct (f k) eqn:Ek; [|done]. rewrite <- Eh. symmetry. apply (Hmon k h); [lia|done].
Qed.

(** On a sorted list, the search splits it at the first element that
    satisfies an upward-closed predicate. *)
Lemma search_split (P : Message -> bool) (R : relation Message) (l : list Message) :
  StronglySorted R l -> (forall x y, R x y -> P x = true -> P y = true) ->
  let i := Search (length l) (fun i => P (at_ l i)) in
  take i l = List.filter (fun x => negb (P x)) l /\ drop i l = List.filter P l /\ (i <= length l)%nat.
Proof.
  intros Hs HP i.
  assert (forall a x, l !! a = Some x -> at_ l a = x) as Hat by (intros a x E; unfold at_; by rewrite E).
  destruct (search_loop_spec (length l) (fun i => P (at_ l i)) (length l) 0 (length l)) as (H1 & H2 & H3);
    try lia.
  { intros a b Hab Ha. destruct (decide (a = b)) as [->|Hne]; [done|].
    destruct (lookup_lt_is_Some_2 l a) as [x Hx]; [lia|]. destruct (lookup_lt_is_Some_2 l b) as [y Hy]; [lia|].
    rewrite (Hat _ _ Hx) in Ha. rewrite (Hat _ _ Hy). apply (HP x y); [|done].
    rewrite <- (take_drop b l) in Hs. apply (StronglySorted_app_1_elem_of R _ _ _ _ Hs).
    - apply elem_of_take. exists a. split; [done|lia].
    - rewrite (drop_S l y b Hy). by left. }
  fold (Search (length l) (fun i => P (at_ l i))) in H1, H2, H3. fold i in H1, H2, H3. clearbody i. clear Hs HP.
  revert i H1 H2 H3 Hat. induction l as [|x l IH]; intros i H1 H2 H3 Hat.
  { simpl in *. destruct i; [done|lia]. }
  destruct i as [|i]; simpl take; simpl drop.
  - assert (List.filter P (x :: l) = x :: l /\ List.filter (fun x => negb (P x)) (x :: l) = []) as [-> ->]; [|split_and!; [done|done|lia]].
    assert (forall y, y ∈ x :: l -> P y = true) as Hall.
    { intros y (k & Hk)%list_elem_of_lookup_1. rewrite <- (Hat _ _ Hk). apply H3. apply lookup_lt_Some in Hk. lia. }
    clear -Hall. induction (x :: l) as [|y k IH]; [done|]. simpl. rewrite (Hall y) by by left.
    destruct IH as [-> ->]; [intros z Hz; apply Hall; by right|done].
  - assert (P x = false) as Ex by (rewrite <- (Hat 0%nat x eq_refl); apply H2; lia).
    simpl. rewrite Ex. simpl. destruct (IH i) as (I1 & I2 & I3); try (simpl in *; lia).
    + intros k Hk. specialize (H2 (S k) ltac:(lia)). done.
    + intros k Hk. specialize (H3 (S k) ltac:(simpl in *; lia)). done.
    + intros a y Ha. apply (Hat (S a) y Ha).
    + rewrite I1, I2. split; [done|]. split; [done|]. simpl. lia.
Qed.

(** ** Cursor order *)

Definition mlt (a b : Message) : Prop := cursorLess (CursorOf a) (CursorOf b) = true.

Lemma cursorLess_spec a b : cursorLess a b = true <-> TS a < TS b \/ (TS a = TS b /\ CID a < CID b).
Proof. unfold cursorLess. lia. Qed.

Lemma mlt_trans a b c : mlt a b -> mlt b c -> mlt a c.
Proof. unfold mlt. rewrite !cursorLess_spec. lia. Qed.

Abbreviation sorted := (StronglySorted mlt).

Lemma row_cursor m : CursorOf (row m) = CursorOf m.
Proof. unfold CursorOf, row, UnixMilli. simpl. by rewrite Z.div_mul. Qed.

Lemma row_row m : row (row m) = row m.
Proof. unfold row, UnixMilli. simpl. by rewrite Z.div_mul. Qed.

Lemma rows_sorted l : sorted (row <$> l) <-> sorted l.
Proof.
  induction l as [|x l IH]; [done|]. rewrite fmap_cons, !StronglySorted_cons, IH, Forall_fmap.
  assert (Forall (mlt (row x) ∘ row) l <-> Forall (mlt x) l) as ->; [|done].
  apply Forall_iff. intros y. unfold mlt. simpl. by rewrite !row_cursor.
Qed.

Lemma filter_rows (P : Cursor -> bool) l :
  row <$> List.filter (fun m => P (CursorOf m)) l = List.filter (fun m => P (CursorOf m)) (row <$> l).
Proof.
  induction l as [|x l IH]; [done|]. rewrite fmap_cons. cbn [List.filter]. rewrite row_cursor.
  destruct (P (CursorOf x)); rewrite ?fmap_cons, IH; done.
Qed.

Lemma filter_sublist {A} (P : A -> bool) (l : list A) : List.filter P l `sublist_of` l.
Proof. induction l as [|x l IH]; simpl; [done|]. destruct (P x); by constructor. Qed.

Lemma sorted_sublist l k : l `sublist_of` k -> sorted k -> sorted l.
Proof.
  induction 1 as [|x l k Hs IH|x l k Hs IH]; [done|..]; rewrite ?StronglySorted_cons; intros [Hx Hk].
  - split; [|by apply IH]. rewrite Forall_forall in *. intros y Hy. apply Hx. by eapply elem_of_sublist.
  - by apply IH.
Qed.

Lemma drop_sublist {A} n (l : list A) : drop n l `sublist_of` l.
Proof. rewrite <- (take_drop n l) at 2. by apply sublist_inserts_l. Qed.

(** ** The table *)

Lemma table_insert_row m d : row <$> table_insert m d = table_insert (row m) (row <$> d).
Proof.
  induction d as [|x d IH]; [done|]. rewrite fmap_cons. cbn [table_insert]. rewrite !row_cursor.
  destruct (cursorLess _ _); rewrite ?fmap_cons, ?IH; done.
Qed.

Lemma table_insert_split m l :
  sorted l ->
  table_insert m l = List.filter (fun x => negb (cursorLess (CursorOf m) (CursorOf x))) l
                     ++ m :: List.filter (fun x => cursorLess (CursorOf m) (CursorOf x)) l.
Proof.
  induction l as [|x l IH]; [done|]. rewrite StronglySorted_cons. intros [Hx Hl]. simpl.
  destruct (cursorLess (CursorOf m) (CursorOf x)) eqn:E; simpl; [|by rewrite IH].
  assert (forall y, y ∈ l -> cursorLess (CursorOf m) (CursorOf y) = true) as Hall.
  { intros y Hy. rewrite Forall_forall in Hx. apply (mlt_trans m x y); [done|by apply Hx]. }
  clear -Hall. assert (List.filter (fun x => negb (cursorLess (CursorOf m) (CursorOf x))) l = []
    /\ List.filter (fun x => cursorLess (CursorOf m) (CursorOf x)) l = l) as [-> ->]; [|done].
  induction l as [|y l IH]; [done|]. simpl. rewrite (Hall y) by by left.
  destruct IH as [-> ->]; [intros z Hz; apply Hall; by right|done].
Qed.

Lemma table_insert_perm m l : table_insert m l ≡ₚ m :: l.
Proof.
  induction l as [|x l IH]; [done|]. simpl. destruct (cursorLess _ _); [done|]. rewrite IH. apply perm_swap.
Qed.

(** The new row's cursor differs from all others, as its id does. *)
Lemma table_insert_sorted m l : (forall x, x ∈ l -> ID x <> ID m) -> sorted l -> sorted (table_insert m l).
Proof.
  intros Hid Hl. induction l as [|x l IH]; [by repeat constructor|].
  apply StronglySorted_cons in Hl as [Hx Hl]. simpl.
  destruct (cursorLess (CursorOf m) (CursorOf x)) eqn:E.
  - apply StronglySorted_cons. split; [|by apply StronglySorted_cons].
    constructor; [done|]. rewrite Forall_forall in *. intros y Hy. by apply (mlt_trans m x y), Hx.
  - apply StronglySorted_cons. split; [|apply IH; [|done]; intros y Hy; apply Hid; by right].
    rewrite Forall_forall in *. intros y Hy. rewrite table_insert_perm in Hy. apply elem_of_cons in Hy as [->|Hy]; [|auto].
    unfold mlt. apply cursorLess_spec. pose proof (Hid x ltac:(by left)) as Hne.
    assert (~ (TS (CursorOf m) < TS (CursorOf x) \/ TS (CursorOf m) = TS (CursorOf x) /\ CID (CursorOf m) < CID (CursorOf x))) as Hn
      by (rewrite <- cursorLess_spec; congruence).
    simpl in *. lia.
Qed.

(** A row that is not older than [r] stays behind everything before [r]. *)
Lemma table_insert_behind m a x b :
  sorted (a ++ x :: b) -> cursorLess (CursorOf m) (CursorOf x) = false ->
  table_insert m (a ++ x :: b) = a ++ table_insert m (x :: b).
Proof.
  intros Hs Hx. induction a as [|y a IH]; [done|]. simpl app in Hs.
  apply StronglySorted_cons in Hs as [Hy Hs]. simpl.
  destruct (cursorLess (CursorOf m) (CursorOf y)) eqn:E; [|by rewrite IH].
  exfalso. rewrite Forall_forall in Hy. assert (mlt m x); [|congruence].
  apply (mlt_trans m y x); [done|]. apply Hy. apply elem_of_app. right. by left.
Qed.

(** A row older than [r] goes in front of it. *)
Lemma table_insert_before m a x b :
  sorted (a ++ x :: b) -> cursorLess (CursorOf m) (CursorOf x) = true ->
  table_insert m (a ++ x :: b) = table_insert m a ++ x :: b.
Proof.
  intros Hs Hx. induction a as [|y a IH]; simpl; [by rewrite Hx|].
  simpl app in Hs. apply StronglySorted_cons in Hs as [_ Hs].
  destruct (cursorLess (CursorOf m) (CursorOf y)); [done|]. by rewrite IH.
Qed.

(** ** The invariant *)

(** [r] caches the rows [d]: what is missing from it is older. *)
Definition ring_ok (d : list Message) (r : ring) : Prop :=
  1 <= max r /\ len (msgs r) <= max r /\ bytes r = sum_bytes (msgs r) /\
  exists old, row <$> d = old ++ (row <$> msgs r) /\
    (complete r = true -> old = []) /\ (msgs r = [] -> old = []).

(** Ids are unique, and so are the msgids that are there. *)
Definition disk_ok (d : list Message) : Prop :=
  sorted d /\ NoDup (ID <$> d) /\
  (forall x y, x ∈ d -> y ∈ d -> MsgID x = MsgID y -> MsgID x <> [] -> ID x = ID y).

Lemma sum_bytes_app a b : sum_bytes (a ++ b) = sum_bytes a + sum_bytes b.
Proof. induction a as [|x a IH]; simpl; [done|]. rewrite IH. lia. Qed.

Lemma ring_sorted d r : sorted d -> ring_ok d r -> sorted (msgs r).
Proof.
  intros Hs (_ & _ & _ & old & E & _). apply rows_sorted. apply rows_sorted in Hs. rewrite E in Hs.
  by apply StronglySorted_app_1_r in Hs.
Qed.

(** *** Pages *)

Lemma lastn_app {A} n (a b : list A) : (n <= length b)%nat -> lastn n (a ++ b) = lastn n b.
Proof.
  intros Hn. unfold lastn. rewrite length_app, drop_app. rewrite drop_ge by lia. simpl. f_equal. lia.
Qed.
Lemma lastn_fmap {A B} (f : A -> B) n l : f <$> lastn n l = lastn n (f <$> l).
Proof. unfold lastn. by rewrite fmap_drop, length_fmap. Qed.

Lemma pageBefore_spec r c limit :
  sorted (msgs r) -> 1 <= limit ->
  pageBefore r c limit =
    let out := lastn (Z.to_nat limit) (List.filter (fun m => cursorLess (CursorOf m) c) (msgs r)) in
    (out, complete r || (len out =? limit)).
Proof.
  intros Hs Hl. unfold pageBefore.
  destruct (search_split (fun m => negb (cursorLess (CursorOf m) c)) mlt (msgs r) Hs) as (Ht & _ & Hi).
  { intros x y Hxy Hx. apply negb_true_iff, not_true_iff_false in Hx. apply negb_true_iff, not_true_iff_false.
    intros Hy. apply Hx. revert Hxy Hy. unfold mlt. rewrite !cursorLess_spec. lia. }
  set (i := Search _ _) in *.
  assert (take i (msgs r) = List.filter (fun m => cursorLess (CursorOf m) c) (msgs r)) as Et.
  { rewrite Ht. apply filter_ext. intros x. apply negb_involutive. }
  assert (i = length (List.filter (fun m => cursorLess (CursorOf m) c) (msgs r))) as El
    by (rewrite <- Et, length_take; lia).
  rewrite Et. unfold lastn. cbv zeta. rewrite <- El.
  replace (Z.to_nat (if Z.of_nat i - limit <? 0 then 0 else Z.of_nat i - limit)) with (i - Z.to_nat limit)%nat; [done|].
  destruct (Z.ltb_spec (Z.of_nat i - limit) 0); lia.
Qed.

Lemma pageAfter_spec r c limit :
  sorted (msgs r) -> 1 <= limit ->
  pageAfter r c limit =
    (take (Z.to_nat limit) (List.filter (fun m => cursorLess c (CursorOf m)) (msgs r)),
     complete r || (negb (msgs r == []) && negb (cursorLess c (CursorOf (at_ (msgs r) 0))))).
Proof.
  intros Hs Hl. unfold pageAfter.
  destruct (search_split (fun m => cursorLess c (CursorOf m)) mlt (msgs r) Hs) as (_ & Hd & Hi).
  { intros x y Hxy Hx. revert Hxy Hx. unfold mlt. rewrite !cursorLess_spec. lia. }
  set (i := Search _ _) in *. f_equal. rewrite <- Hd.
  destruct (Z.gtb_spec (Z.of_nat i + limit) (len (msgs r))).
  - unfold len in *. rewrite Nat2Z.id, firstn_all. rewrite take_ge; [done|]. rewrite length_drop. lia.
  - rewrite take_drop_commute. f_equal. f_equal. lia.
Qed.

(** A page the ring answers for is the SQL page. *)
Lemma before_sound d r c limit out :
  sorted d -> ring_ok d r -> 1 <= limit -> pageBefore r c limit = (out, true) ->
  row <$> out = sql_before d c limit.
Proof.
  intros Hs Hok Hl Hp. pose proof (ring_sorted d r Hs Hok) as Hrs.
  rewrite pageBefore_spec in Hp by done. cbv zeta in Hp. injection Hp as <- Ha.
  destruct Hok as (_ & _ & _ & old & E & Hc & _). unfold sql_before.
  rewrite !lastn_fmap, !(filter_rows (fun k => cursorLess k c)), E, List.filter_app.
  apply orb_true_iff in Ha as [Ha|Ha%Z.eqb_eq]; [by rewrite (Hc Ha)|].
  rewrite lastn_app; [done|]. rewrite <- (filter_rows (fun k => cursorLess k c)), length_fmap.
  unfold len, lastn in Ha. rewrite length_drop in Ha. lia.
Qed.

Lemma after_sound d r c limit out :
  sorted d -> ring_ok d r -> 1 <= limit -> pageAfter r c limit = (out, true) ->
  row <$> out = sql_after d c limit.
Proof.
  intros Hs Hok Hl Hp. pose proof (ring_sorted d r Hs Hok) as Hrs.
  rewrite pageAfter_spec in Hp by done. injection Hp as <- Ha.
  destruct Hok as (_ & _ & _ & old & E & Hc & _). unfold sql_after.
  rewrite !fmap_take, !(filter_rows (fun k => cursorLess c k)), E, List.filter_app. f_equal.
  assert (List.filter (fun m => cursorLess c (CursorOf m)) old = []) as ->; [|done].
  apply orb_true_iff in Ha as [Ha|Ha]; [by rewrite (Hc Ha)|]. apply andb_true_iff in Ha as [Hne Hc0].
  apply negb_true_iff, bool_decide_eq_false in Hne. apply negb_true_iff in Hc0.
  destruct (msgs r) as [|x l]; [done|]. change (at_ (x :: l) 0) with x in Hc0.
  apply rows_sorted in Hs. rewrite E, fmap_cons in Hs.
  assert (forall y, y ∈ old -> cursorLess c (CursorOf y) = false) as Hall.
  { intros y Hy. apply not_true_iff_false. intros Hcy. rewrite <- not_true_iff_false in Hc0. apply Hc0.
    pose proof (StronglySorted_app_1_elem_of mlt _ _ y (row x) Hs Hy ltac:(by left)) as Hyx.
    unfold mlt in Hyx. rewrite row_cursor in Hyx. revert Hcy Hyx. rewrite !cursorLess_spec. lia. }
  clear -Hall. induction old as [|y old IH]; [done|]. simpl. rewrite (Hall y) by by left.
  apply IH. intros z Hz. apply Hall. by right.
Qed.

(** *** Warm-up *)

Lemma warm_scan_prefix budget b rows :
  exists rest, rows = (warm_scan budget b rows).1 ++ rest /\
    ((warm_scan budget b rows).2 = false -> rest = []) /\ (rows <> [] -> (warm_scan budget b rows).1 <> []).
Proof.
  revert b. induction rows as [|m rows IH]; intros b; simpl; [by exists []|].
  destruct (budget <=? b + msgBytes m); [by exists rows|].
  destruct (IH (b + msgBytes m)) as (rest & E & H1 & _).
  destruct (warm_scan budget (b + msgBytes m) rows) as [l st]. simpl in *. exists rest.
  split; [by f_equal|done].
Qed.

Lemma warm_ok lim d :
  1 <= ringSize lim -> 0 <= maxRingBytes lim -> ring_ok d (warm lim d).
Proof.
  intros Hrs Hb. unfold warm.
  set (wl := if Z.quot (maxRingBytes lim) msgOverhead + 1 <? ringSize lim + 1
             then Z.quot (maxRingBytes lim) msgOverhead + 1 else ringSize lim + 1).
  assert (1 <= wl <= ringSize lim + 1) as Hwl.
  { unfold wl. pose proof (Z.quot_pos (maxRingBytes lim) msgOverhead Hb ltac:(done)).
    destruct (Z.ltb_spec (Z.quot (maxRingBytes lim) msgOverhead + 1) (ringSize lim + 1)); lia. }
  clearbody wl. set (rows := take (Z.to_nat wl) (reverse (row <$> d))).
  destruct (warm_scan_prefix (maxRingBytes lim) 0 rows) as (rest & E & Hstop & Hne).
  destruct (warm_scan (maxRingBytes lim) 0 rows) as [l st]. simpl in E, Hstop, Hne. cbv zeta.
  assert (row <$> d = reverse (drop (Z.to_nat wl) (reverse (row <$> d))) ++ reverse rest ++ reverse l) as Ed.
  { rewrite <- (reverse_app l rest), <- E, <- reverse_app. unfold rows. by rewrite take_drop, reverse_involutive. }
  remember (reverse (drop (Z.to_nat wl) (reverse (row <$> d)))) as older eqn:Eold.
  assert (row <$> reverse l = reverse l) as Erow.
  { assert (forall x, x ∈ reverse l -> row x = x) as Hid.
    { intros x Hx. assert (x ∈ row <$> d) as Hxd by (rewrite Ed; set_solver).
      apply list_elem_of_fmap in Hxd as (y & -> & _). apply row_row. }
    clear -Hid. induction (reverse l) as [|x k IH]; [done|]. rewrite fmap_cons, IH, Hid; [done|by left|].
    intros y Hy. apply Hid. by right. }
  assert (len (reverse l) <= wl) as Hlen.
  { unfold len. rewrite length_reverse. apply (f_equal length) in E. unfold rows in E.
    rewrite length_take, length_app in E. lia. }
  assert (reverse l = [] -> d = []) as Hemp.
  { intros Hl. apply (f_equal length) in Hl. rewrite length_reverse in Hl. destruct l; [|done].
    destruct d as [|m d]; [done|]. exfalso. apply Hne; [|done]. unfold rows. intros Hr. apply (f_equal length) in Hr.
    rewrite length_take, length_reverse, length_fmap in Hr. simpl in Hr. lia. }
  destruct ((len (reverse l) <? wl) && negb st) eqn:Ec.
  - apply andb_true_iff in Ec as [Hlt Hst]. apply negb_true_iff in Hst.
    split; [done|]. split; [simpl; lia|]. split; [done|]. exists []. simpl. rewrite Erow.
    split; [|done]. rewrite Ed, (Hstop Hst). rewrite (Hstop Hst), app_nil_r in E.
    rewrite Eold, drop_ge; [done|]. assert (length rows < Z.to_nat wl)%nat as Hr
      by (rewrite E; unfold len in Hlt; rewrite length_reverse in Hlt; lia).
    unfold rows in Hr. rewrite length_take in Hr. lia.
  - destruct (Z.gtb_spec (len (reverse l)) (ringSize lim)) as [Hgt|Hle].
    + destruct (reverse l) as [|x k]; [unfold len in Hgt; simpl in Hgt; lia|].
      rewrite len_cons in *. simpl drop. split; [done|]. split; [simpl; rewrite drop_0; lia|]. split; [done|].
      exists ((older ++ reverse rest) ++ [x]).
      simpl. rewrite drop_0. rewrite fmap_cons in Erow. injection Erow as _ Ek.
      split; [rewrite Ed, Ek, <- !app_assoc; done|]. split; [done|]. intros ->. rewrite len_nil in Hgt. lia.
    + split; [done|]. split; [done|]. split; [done|].
      exists (older ++ reverse rest). simpl. rewrite Erow.
      split; [by rewrite Ed, <- app_assoc|]. split; [done|]. intros Hl. specialize (Hemp Hl). subst d.
      rewrite Hl, app_nil_r in Ed. symmetry in Ed. apply app_nil in Ed as [-> ->]. done.
Qed.

(** *** Append *)

Lemma insert_msgs r m :
  sorted (msgs r) ->
  let c := CursorOf m in
  (complete r = false /\ msgs r <> [] /\ cursorLess c (CursorOf (at_ (msgs r) 0)) = true /\ insert r m = r) \/
  (exists l, l = table_insert m (msgs r) /\
     (complete r = true \/ msgs r = [] \/ cursorLess c (CursorOf (at_ (msgs r) 0)) = false) /\
     insert r m = if len l >? max r
                  then MkRing (max r) (drop 1 l) false (bytes r + msgBytes m - msgBytes (at_ l 0))
                  else MkRing (max r) l (complete r) (bytes r + msgBytes m)).
Proof.
  intros Hs c. unfold insert. fold c. destruct_if as E.
  - left. apply andb_true_iff in E as [[E1 E2]%andb_true_iff E3].
    apply negb_true_iff in E1, E2. apply bool_decide_eq_false in E2. done.
  - right. destruct (search_split (fun x => cursorLess c (CursorOf x)) mlt (msgs r) Hs) as (Ht & Hd & _).
    { intros x y Hxy Hx. revert Hxy Hx. unfold mlt. rewrite !cursorLess_spec. lia. }
    cbv zeta. rewrite Ht, Hd. exists (table_insert m (msgs r)). split; [done|]. split.
    { destruct (complete r); [by left|]. right. simpl in E.
      destruct (bool_decide_reflect (msgs r = [])); [by left|]. right. done. }
    by rewrite (table_insert_split m (msgs r) Hs).
Qed.

Lemma sum_bytes_perm l k : l ≡ₚ k -> sum_bytes l = sum_bytes k.
Proof. induction 1; simpl; lia. Qed.

Lemma insert_ok d r m :
  sorted d -> ring_ok d r -> ring_ok (table_insert m d) (insert r m).
Proof.
  intros Hs Hok. pose proof (ring_sorted d r Hs Hok) as Hrs.
  destruct Hok as (Hmax & Hlen & Hby & old & E & Hc & He).
  apply rows_sorted in Hs. rewrite E in Hs.
  destruct (insert_msgs r m Hrs) as [(Hinc & Hne & Hlt & ->)|(l & El & Hpos & ->)].
  - (* older than everything cached: only on disk *)
    split; [done|]. split; [done|]. split; [done|]. exists (table_insert (row m) old).
    destruct (msgs r) as [|x k]; [done|]. change (at_ (x :: k) 0) with x in Hlt. rewrite fmap_cons in *.
    rewrite table_insert_row, E. split; [|by rewrite Hinc].
    apply table_insert_before; [done|]. by rewrite !row_cursor.
  - assert (row <$> table_insert m d = old ++ (row <$> l)) as E'.
    { rewrite El, !table_insert_row, E. destruct Hpos as [Hcomp|[Hnil|Hge]].
      - by rewrite (Hc Hcomp).
      - by rewrite (He Hnil).
      - destruct (msgs r) as [|x k]; [by rewrite (He eq_refl)|]. change (at_ (x :: k) 0) with x in Hge.
        rewrite fmap_cons in *. apply table_insert_behind; [done|]. by rewrite !row_cursor. }
    assert (sum_bytes l = bytes r + msgBytes m) as Hsum
      by (rewrite El, (sum_bytes_perm _ _ (table_insert_perm m (msgs r))), Hby; simpl; lia).
    assert (len l = len (msgs r) + 1) as Hll
      by (unfold len; rewrite El, table_insert_perm; simpl; lia).
    clear El. destruct (Z.gtb_spec (len l) (max r)).
    + destruct l as [|x l]; [rewrite len_nil in *; pose proof (len_nonneg (msgs r)); lia|].
      rewrite len_cons in *. simpl. rewrite drop_0. split; [done|]. split; [simpl; lia|].
      split; [simpl in *; unfold at_; simpl; lia|]. exists (old ++ [row x]). simpl.
      split; [by rewrite E', fmap_cons, <- app_assoc|]. split; [done|].
      intros ->. rewrite len_nil in *. pose proof (len_nonneg (msgs r)). lia.
    + split; [done|]. split; [done|]. split; [done|]. exists old. simpl. split; [done|]. split; [done|].
      intros ->. rewrite len_nil in *. pose proof (len_nonneg (msgs r)). lia.
Qed.

(** *** Trim *)

Lemma trim_count_spec limit l b :
  let '(n, b') := trim_count limit l b in
  (l <> [] -> (n < length l)%nat) /\ b' = b - sum_bytes (take n l).
Proof.
  revert b. induction l as [|m l IH]; intros b; simpl; [split; [done|lia]|].
  destruct (negb (l == []) && (b >? limit)) eqn:E; [|simpl; split; [lia|lia]].
  apply andb_true_iff in E as [E _]. apply negb_true_iff, bool_decide_eq_false in E.
  specialize (IH (b - msgBytes m)). destruct (trim_count limit l (b - msgBytes m)) as [n b'].
  destruct IH as [I1 I2]. specialize (I1 E). simpl. split; [lia|]. lia.
Qed.

Lemma trim_ok d r limit : ring_ok d r -> ring_ok d (trimToBytes limit r).
Proof.
  intros (Hmax & Hlen & Hby & old & E & Hc & He). unfold trimToBytes.
  pose proof (trim_count_spec limit (msgs r) (bytes r)) as Ht.
  destruct (trim_count limit (msgs r) (bytes r)) as [n b]. destruct Ht as [Hn Hb].
  destruct (Nat.ltb_spec 0 n).
  - split; [done|]. split; [simpl; unfold len, dropFirst in *; rewrite length_drop; lia|].
    split; [simpl; rewrite Hb, Hby, <- (take_drop n (msgs r)) at 1; rewrite sum_bytes_app; unfold dropFirst; lia|].
    exists (old ++ (row <$> take n (msgs r))). simpl.
    split; [rewrite E, <- (take_drop n (msgs r)) at 1; by rewrite fmap_app, app_assoc|].
    split; [done|]. intros Hnil. apply (f_equal length) in Hnil. unfold dropFirst in Hnil. rewrite length_drop in Hnil. simpl in Hnil.
    destruct (msgs r) as [|x k]; [by rewrite (He eq_refl), take_nil|]. specialize (Hn ltac:(done)). simpl in *. lia.
  - replace n with 0%nat in * by lia. simpl in Hb. split; [done|]. split; [done|]. split; [simpl; lia|]. exists old. done.
Qed.

(** *** Redaction and msgid adoption *)

Lemma update_first_spec (p : Message -> bool) (f : Message -> Message) l :
  sum_bytes (update_first p f l).1 = sum_bytes l + (update_first p f l).2 /\
  length (update_first p f l).1 = length l.
Proof.
  induction l as [|m l IH]; [done|]. simpl. destruct (p m); simpl; [split; lia|].
  destruct (update_first p f l) as [k d]. simpl in *. lia.
Qed.

(** With at most one match, updating the first is updating all. *)
Lemma update_first_all p f l :
  NoDup (ID <$> List.filter p l) -> (forall x y, x ∈ l -> y ∈ l -> p x = true -> p y = true -> ID x = ID y) ->
  (update_first p f l).1 = (fun m => if p m then f m else m) <$> l.
Proof.
  induction l as [|m l IH]; [done|]. intros Hnd Hu. simpl. destruct (p m) eqn:Ep; simpl.
  - f_equal. assert (List.filter p l = []) as Hnil.
    { simpl in Hnd. rewrite Ep, fmap_cons in Hnd. apply NoDup_cons in Hnd as [Hn _].
      destruct (List.filter p l) as [|y k] eqn:Ef; [done|]. exfalso. apply Hn.
      assert (In y (List.filter p l)) as Hy by (rewrite Ef; by left). apply List.filter_In in Hy as [Hy Hpy].
      rewrite (Hu m y); [rewrite fmap_cons; by left|by left|right; by apply list_elem_of_In|done|done]. }
    clear -Hnil. induction l as [|y l IH]; [done|]. simpl in Hnil |- *. destruct (p y); [done|]. f_equal. by apply IH.
  - destruct (update_first p f l) as [k d]. simpl in *. f_equal. apply IH.
    + simpl in Hnd. by rewrite Ep in Hnd.
    + intros x y Hx Hy. apply Hu; by right.
Qed.

Lemma ids_rows (l : list Message) : ID <$> (row <$> l) = ID <$> l.
Proof. rewrite <- list_fmap_compose. by apply list_fmap_ext. Qed.

(** An update of one row, on disk and in the ring. *)
Lemma update_ok d r (p : Message -> bool) (f : Message -> Message) :
  NoDup (ID <$> d) -> ring_ok d r ->
  (forall x y, x ∈ d -> y ∈ d -> p x = true -> p y = true -> ID x = ID y) ->
  (forall m, p (row m) = p m) -> (forall m, row (f m) = row (f (row m))) ->
  ring_ok ((fun m => if p m then f m else m) <$> d)
    (MkRing (max r) (update_first p f (msgs r)).1 (complete r) (bytes r + (update_first p f (msgs r)).2)).
Proof.
  intros Hnd (Hmax & Hlen & Hby & old & E & Hc & He) Hu Hp Hf.
  destruct (update_first_spec p f (msgs r)) as [Hsum Hl].
  split; [done|]. split; [simpl; unfold len in *; by rewrite Hl|]. split; [simpl; lia|].
  set (g := fun m => if p m then row (f m) else m).
  assert (forall l : list Message, row <$> ((fun m => if p m then f m else m) <$> l) = g <$> (row <$> l)) as Hg.
  { intros l. rewrite <- !list_fmap_compose. apply list_fmap_ext. intros i m _. simpl. unfold g. rewrite Hp.
    destruct (p m); [apply Hf|done]. }
  assert (forall x, x ∈ msgs r -> exists y, y ∈ d /\ ID y = ID x /\ p y = p x) as Hin.
  { intros x Hx. assert (row x ∈ row <$> d) as Hr.
    { rewrite E. apply elem_of_app. right. by apply list_elem_of_fmap_2. }
    apply list_elem_of_fmap in Hr as (y & Ey & Hy). exists y. split; [done|].
    split; [by apply (f_equal ID) in Ey | by rewrite <- (Hp y), <- (Hp x), Ey]. }
  assert ((update_first p f (msgs r)).1 = (fun m => if p m then f m else m) <$> msgs r) as Eup.
  { apply update_first_all.
    - apply (sublist_NoDup _ (ID <$> msgs r)); [|apply fmap_sublist, filter_sublist].
      assert (ID <$> d = (ID <$> old) ++ (ID <$> msgs r)) as Ei.
      { by rewrite <- (ids_rows d), E, fmap_app, ids_rows. }
      rewrite Ei in Hnd. by apply NoDup_app in Hnd as (_ & _ & ?).
    - intros x y Hx Hy Hpx Hpy. destruct (Hin x Hx) as (x' & Hx' & <- & E1). destruct (Hin y Hy) as (y' & Hy' & <- & E2).
      apply Hu; congruence. }
  rewrite Eup. exists (g <$> old). simpl. rewrite !Hg, E, fmap_app. split; [done|]. split.
  - intros Hcomp. by rewrite (Hc Hcomp).
  - intros Hnil. apply fmap_nil_inv in Hnil. by rewrite (He Hnil).
Qed.

Lemma ids_inj (d : list Message) x y : NoDup (ID <$> d) -> x ∈ d -> y ∈ d -> ID x = ID y -> x = y.
Proof.
  intros Hnd (i & Hi)%list_elem_of_lookup_1 (j & Hj)%list_elem_of_lookup_1 E.
  assert (i = j) as ->; [|congruence].
  apply (NoDup_lookup _ _ _ (ID x) Hnd); rewrite list_lookup_fmap; [by rewrite Hi|by rewrite Hj, E].
Qed.

Lemma redact_ok d r msgid reason m0 :
  disk_ok d -> ring_ok d r -> msgid <> [] -> m0 ∈ d -> MsgID m0 = msgid ->
  ring_ok ((fun m => if ID m =? ID m0 then tombstone reason m else m) <$> d) (redact msgid reason r).
Proof.
  intros (_ & Hnd & Hu) Hok Hne Hm0 Em0.
  replace ((fun m => if ID m =? ID m0 then tombstone reason m else m) <$> d)
    with ((fun m => if MsgID m == msgid then tombstone reason m else m) <$> d).
  - unfold redact. pose proof (update_ok d r (fun m => MsgID m == msgid) (tombstone reason) Hnd Hok) as H.
    destruct (update_first _ _ (msgs r)) as [l b].
    apply H; [|done|intros m; unfold row, UnixMilli; simpl; by rewrite Z.div_mul].
    intros x y Hx Hy Ex%bool_decide_eq_true Ey%bool_decide_eq_true. apply Hu; congruence.
  - apply list_fmap_ext. intros i m Hm%list_elem_of_lookup_2.
    destruct (bool_decide_reflect (MsgID m = msgid)) as [E|E], (Z.eqb_spec (ID m) (ID m0)) as [E'|E']; try done.
    + exfalso. apply E'. apply Hu; congruence.
    + exfalso. apply E. by rewrite (ids_inj d m m0).
Qed.

Lemma adopt_ok d r id msgid :
  NoDup (ID <$> d) -> ring_ok d r ->
  ring_ok ((fun m => if ID m =? id then set_msgid msgid m else m) <$> d) (adoptMsgID id msgid r).
Proof.
  intros Hnd Hok. unfold adoptMsgID.
  pose proof (update_ok d r (fun m => ID m =? id) (set_msgid msgid) Hnd Hok) as H.
  destruct (update_first _ _ (msgs r)) as [l b].
  apply H; [|done|intros m; unfold row, UnixMilli; simpl; by rewrite Z.div_mul].
  intros x y _ _ Ex%Z.eqb_eq Ey%Z.eqb_eq. congruence.
Qed.

(** *** Retention *)

Lemma applyRetention_split c n r : applyRetention c n r = applyRetention 0 n (applyRetention c 0 r).
Proof.
  unfold applyRetention. simpl. destruct (c >? 0).
  - set (i := Search _ _). destruct (0 <? i)%nat; simpl; destruct (_ && _); reflexivity.
  - simpl. destruct (_ && _); reflexivity.
Qed.

Definition recent (c : Z) (m : Message) : bool := c <=? UnixMilli (Time m).

Lemma recent_rows c l : row <$> List.filter (recent c) l = List.filter (recent c) (row <$> l).
Proof. apply (filter_rows (fun k => c <=? TS k)). Qed.

Lemma cutoff_ok d r c :
  sorted d -> ring_ok d r -> 0 < c -> ring_ok (List.filter (recent c) d) (applyRetention c 0 r).
Proof.
  intros Hs Hok Hc. pose proof (ring_sorted d r Hs Hok) as Hrs.
  destruct Hok as (Hmax & Hlen & Hby & old & E & Hco & He).
  unfold applyRetention. rewrite (proj2 (Z.gtb_lt c 0) Hc). simpl.
  destruct (search_split (recent c) mlt (msgs r) Hrs) as (Ht & Hd & Hi).
  { unfold recent, mlt. intros x y. rewrite cursorLess_spec. simpl. lia. }
  change (fun i => recent c (at_ (msgs r) i)) with (fun i => c <=? UnixMilli (Time (at_ (msgs r) i))) in Ht, Hd, Hi.
  set (i := Search _ _) in *.
  assert (row <$> List.filter (recent c) d = List.filter (recent c) old ++ (row <$> drop i (msgs r))) as E'
    by (rewrite recent_rows, E, List.filter_app, <- recent_rows, Hd; done).
  destruct (Nat.ltb_spec 0 i) as [Hpos|Hz]; simpl.
  - assert (List.filter (recent c) old = []) as Hnil.
    { destruct (msgs r) as [|x l] eqn:El; [by rewrite (He eq_refl)|]. destruct i as [|i]; [lia|].
      assert (recent c x = false) as Hx.
      { assert (In x (List.filter (fun y => negb (recent c y)) (x :: l))) as Hin by (rewrite <- Ht; by left).
        apply List.filter_In in Hin as [_ Hin]. by apply negb_true_iff in Hin. }
      apply rows_sorted in Hs. rewrite E, fmap_cons in Hs.
      assert (forall y, y ∈ old -> recent c y = false) as Hall.
      { intros y Hy. pose proof (StronglySorted_app_1_elem_of mlt _ _ y (row x) Hs Hy ltac:(by left)) as Hyx.
        revert Hyx Hx. unfold mlt, recent. rewrite row_cursor, cursorLess_spec. simpl. lia. }
      clear -Hall. induction old as [|y old IH]; [done|]. simpl. rewrite (Hall y) by by left.
      apply IH. intros z Hz. apply Hall. by right. }
    split; [done|]. unfold dropFirst. split; [simpl; unfold len in *; rewrite length_drop; lia|].
    split; [simpl; rewrite Hby; rewrite <- (take_drop i (msgs r)) at 1; rewrite sum_bytes_app; lia|].
    exists []. rewrite E', Hnil. done.
  - replace i with 0%nat in * by lia. rewrite drop_0 in *. split; [done|]. split; [done|]. split; [done|].
    exists (List.filter (recent c) old). rewrite E'. split; [done|]. simpl.
    split; intros H; [by rewrite (Hco H)|by rewrite (He H)].
Qed.

Lemma cap_ok d r n :
  ring_ok d r -> 0 < n -> ring_ok (lastn (Z.to_nat n) d) (applyRetention 0 n r).
Proof.
  intros (Hmax & Hlen & Hby & old & E & Hco & He) Hn. unfold applyRetention. simpl.
  rewrite (proj2 (Z.gtb_lt n 0) Hn). simpl.
  destruct (Z.gtb_spec (len (msgs r)) n) as [Hgt|Hle]; simpl.
  - split; [done|]. unfold dropFirst. split; [simpl; unfold len in *; rewrite length_drop; lia|].
    set (k := Z.to_nat (len (msgs r) - n)).
    split; [simpl; rewrite Hby; rewrite <- (take_drop k (msgs r)) at 1; rewrite sum_bytes_app; lia|].
    exists []. split; [|done]. rewrite lastn_fmap, E, lastn_app by (rewrite length_fmap; unfold len in *; lia).
    unfold lastn. rewrite length_fmap, <- fmap_drop. simpl. do 2 f_equal. unfold k, len in *. lia.
  - split; [done|]. split; [done|]. split; [done|].
    exists (drop (length (row <$> d) - Z.to_nat n) old). simpl. split.
    + rewrite lastn_fmap. unfold lastn. rewrite E at 2. rewrite drop_app_le; [done|].
      rewrite E, length_app, length_fmap. unfold len in *. lia.
    + split; intros H; [by rewrite (Hco H), drop_nil|by rewrite (He H), drop_nil].
Qed.

Lemma retain_ok d r c n :
  sorted d -> ring_ok d r -> ring_ok (sql_retain c n d) (applyRetention c n r).
Proof.
  intros Hs Hok. rewrite applyRetention_split. unfold sql_retain.
  assert (ring_ok (if c >? 0 then List.filter (recent c) d else d) (applyRetention c 0 r)) as H1.
  { destruct (Z.gtb_spec c 0); [by apply cutoff_ok|]. unfold applyRetention.
    destruct (Z.gtb_spec c 0); [lia|]. simpl. by destruct r. }
  change (fun m => c <=? UnixMilli (Time m)) with (recent c).
  destruct (Z.gtb_spec n 0); [by apply cap_ok|]. unfold applyRetention at 1.
  destruct (Z.gtb_spec n 0); [lia|]. simpl. by destruct (applyRetention c 0 r).
Qed.

(** *** What trimming achieves *)

Lemma msgBytes_nonneg m : 0 <= msgBytes m.
Proof. unfold msgBytes, msgOverhead, len. lia. Qed.

Lemma trim_budget limit r :
  bytes (trimToBytes limit r) <= limit \/ (length (msgs (trimToBytes limit r)) <= 1)%nat.
Proof.
  unfold trimToBytes. assert (let '(n, b) := trim_count limit (msgs r) (bytes r) in
    b <= limit \/ (length (msgs r) <= S n)%nat) as H.
  { generalize (bytes r). induction (msgs r) as [|m l IH]; intros b; simpl; [lia|].
    destruct (negb (l == []) && (b >? limit)) eqn:Ec.
    - specialize (IH (b - msgBytes m)). destruct (trim_count limit l (b - msgBytes m)) as [n b']. lia.
    - apply andb_false_iff in Ec as [Ec|Ec]; [|lia]. apply negb_false_iff, bool_decide_eq_true in Ec. subst. simpl. lia. }
  destruct (trim_count limit (msgs r) (bytes r)) as [n b].
  destruct (Nat.ltb_spec 0 n); simpl; unfold dropFirst; rewrite ?length_drop; lia.
Qed.
