(* ===== verification/Store.v ===== *)
(** * The message store: internal/store/store.go, prune.go, netconfigs.go

    The SQL tables (buffers with their messages and read markers) and the
    in-memory state that sits in front of them: the id cache, the resident
    rings with their LRU stamps and the running byte total.  One operation per
    method that touches a buffer, each run under the store's mutex.

    SQL statements are the queries of the source on finite maps and lists, and
    are taken to succeed; ids are SQLite's choice for an INTEGER PRIMARY KEY,
    one more than the largest in use.  A NULL msgid, text or reason is the
    empty string, as in the Go values read back.  Chunked deletes run to their
    last chunk with no other operation in between.  The proofs are in
    [StoreProofs]. *)

From S2P Require Import Prelude GoStrings GoUtf8 Ring.

(** ** Clamps *)

Definition maxStoredMessageBytes : Z := 16384.
Definition maxStoredFieldBytes : Z := 512.
Definition maxHotRingBytes : Z := Z.shiftl 16 20.
Definition markerSkewMs : Z := 5 * 60 * 1000.
Definition maxBuffersPerNetwork : Z := 4096.

Definition clampUTF8 (s : gostring) (mx : Z) : gostring :=
  if len s <=? mx then s
  else let s := slice_to s mx in trim_partial (length s) s.

Definition ClampMsgID (s : gostring) : gostring := clampUTF8 s maxStoredFieldBytes.

(** The zero time.Time, in nanoseconds since the Unix epoch. *)
Definition zeroTime : Z := -62135596800 * 1000000000.

(** What [append] does to the fields before it takes the lock. *)
Definition bounded (now : Z) (m : Message) : Message :=
  MkMsg (ID m) (Network m) (Target m) (if Time m =? zeroTime then now else Time m)
    (clampUTF8 (MsgID m) maxStoredFieldBytes) (clampUTF8 (Sender m) maxStoredFieldBytes)
    (clampUTF8 (MCommand m) maxStoredFieldBytes) (clampUTF8 (Raw m) maxStoredMessageBytes)
    (clampUTF8 (Text m) maxStoredMessageBytes) (Redacted m) (clampUTF8 (RedactReason m) maxStoredFieldBytes).

Definition set_buffer (network target : gostring) (m : Message) : Message :=
  MkMsg (ID m) network target (Time m) (MsgID m) (Sender m) (MCommand m) (Raw m) (Text m) (Redacted m) (RedactReason m).
Definition set_id (id : Z) (m : Message) : Message :=
  MkMsg id (Network m) (Target m) (Time m) (MsgID m) (Sender m) (MCommand m) (Raw m) (Text m) (Redacted m) (RedactReason m).

(** ** State *)

(** A row of [buffers] with its rows of [read_markers] and [messages], the
    latter in cursor order. *)
Record Buffer := MkBuffer {
  bNetwork : gostring;
  bName : gostring;
  archived : bool;
  marker : option Z;
  table : list Message
}.

Record Store := MkStore {
  db : gmap Z Buffer;
  cache : gmap (gostring * gostring) Z;  (* Go: buffers *)
  rings : gmap Z (ring * Z);             (* each with its lastUsed *)
  ringBytes : Z;
  accessSeq : Z
}.

Definition emptyStore : Store := MkStore ∅ ∅ ∅ 0 0.

Definition set_db (d : gmap Z Buffer) (st : Store) : Store :=
  MkStore d (cache st) (rings st) (ringBytes st) (accessSeq st).
Definition set_cache (c : gmap (gostring * gostring) Z) (st : Store) : Store :=
  MkStore (db st) c (rings st) (ringBytes st) (accessSeq st).

Definition set_table (d : list Message) (b : Buffer) : Buffer :=
  MkBuffer (bNetwork b) (bName b) (archived b) (marker b) d.
Definition set_archived (a : bool) (b : Buffer) : Buffer :=
  MkBuffer (bNetwork b) (bName b) a (marker b) (table b).
Definition set_marker (t : Z) (b : Buffer) : Buffer :=
  MkBuffer (bNetwork b) (bName b) (archived b) (Some t) (table b).

(** ** Row ids *)

Definition next_buffer_id (st : Store) : Z := 1 + map_fold (fun id _ n => Z.max id n) 0 (db st).

Definition max_id (l : list Message) : Z := foldr (fun m n => Z.max (ID m) n) 0 l.
Definition next_msg_id (st : Store) : Z := 1 + map_fold (fun _ b n => Z.max (max_id (table b)) n) 0 (db st).

(** ** Rings: LRU clock, eviction, accounting *)

Definition touchRing (id : Z) (st : Store) : Store :=
  let seq := (accessSeq st + 1) mod 2 ^ 64 in
  MkStore (db st) (cache st) (alter (fun ru => (ru.1, seq)) id (rings st)) (ringBytes st) seq.

(** One step of the scan for the least recently used ring. *)
Definition older (keep : Z) (best : option (Z * Z)) (e : Z * (ring * Z)) : option (Z * Z) :=
  if e.1 =? keep then best
  else match best with
  | None => Some (e.1, e.2.2)
  | Some (_, seq) => if e.2.2 <? seq then Some (e.1, e.2.2) else best
  end.

Definition victim (keep : Z) (st : Store) : option Z :=
  fst <$> fold_left (older keep) (map_to_list (rings st)) None.

(** Apply [f] to a resident ring and account for its byte change. *)
Definition update_ring (id : Z) (f : ring -> ring) (st : Store) : Store :=
  match rings st !! id with
  | Some (r, u) =>
      MkStore (db st) (cache st) (<[id := (f r, u)]> (rings st)) (ringBytes st + (bytes (f r) - bytes r)) (accessSeq st)
  | None => st
  end.

Definition dropRingLocked (id : Z) (st : Store) : Store :=
  match rings st !! id with
  | Some (r, _) => MkStore (db st) (cache st) (delete id (rings st)) (ringBytes st - bytes r) (accessSeq st)
  | None => st
  end.

(** Each round drops a ring or is the last. *)
Fixpoint evict_loop (fuel : nat) (lim : limits) (keep : Z) (st : Store) : Store :=
  match fuel with
  | O => st
  | S k =>
      if ringBytes st >? maxRingBytes lim then
        match victim keep st with
        | None => update_ring keep (trimToBytes (maxRingBytes lim)) st
        | Some v => evict_loop k lim keep (dropRingLocked v st)
        end
      else st
  end.
Definition evictRings (lim : limits) (keep : Z) (st : Store) : Store := evict_loop (S (size (rings st))) lim keep st.

(** ** Resolving buffers *)

Definition named (network target : gostring) (e : Z * Buffer) : bool :=
  (bNetwork e.2 == network) && (bName e.2 == target).

Definition find_buffer (network target : gostring) (st : Store) : option Z :=
  fst <$> head (List.filter (named network target) (map_to_list (db st))).

Definition active_count (network : gostring) (st : Store) : Z :=
  len (List.filter (fun e => (bNetwork e.2 == network) && negb (archived e.2)) (map_to_list (db st))).

(** [None] is the source's id 0. *)
Definition bufferID (lim : limits) (network target : gostring) (create : bool) (st : Store) : option Z * Store :=
  match cache st !! (network, target) with
  | Some id => (Some id, st)
  | None =>
      match find_buffer network target st with
      | Some id => (Some id, set_cache (<[(network, target) := id]> (cache st)) st)
      | None =>
          if negb create then (None, st)
          else if maxBuffersPerNetwork <=? active_count network st then (None, st)
          else
            let id := next_buffer_id st in
            (Some id,
             MkStore (<[id := MkBuffer network target false None []]> (db st))
               (<[(network, target) := id]> (cache st))
               (<[id := (MkRing (ringSize lim) [] true 0, 0)]> (rings st)) (ringBytes st) (accessSeq st))
      end
  end.

(** The ring of the buffer, warmed from its rows when it is not resident. *)
Definition bufferAndRing (lim : limits) (network target : gostring) (create : bool) (st : Store) : option Z * Store :=
  match bufferID lim network target create st with
  | (None, st) => (None, st)
  | (Some id, st) =>
      match rings st !! id with
      | Some _ => (Some id, touchRing id st)
      | None =>
          match db st !! id with
          | None => (Some id, st)
          | Some b =>
              let r := warm lim (table b) in
              let st := MkStore (db st) (cache st) (<[id := (r, 0)]> (rings st)) (ringBytes st + bytes r) (accessSeq st) in
              (Some id, evictRings lim id (touchRing id st))
          end
      end
  end.

(** The first stored spelling that folds to the same name. *)
Definition fold_scan (network target : gostring) (fold : gostring -> gostring) (st : Store) : option gostring :=
  (fun e : Z * Buffer => bName e.2) <$>
    head (List.filter (fun e => (bNetwork e.2 == network) && (fold (bName e.2) == fold target)) (map_to_list (db st))).

Definition canonicalLocked (network target : gostring) (fold : option (gostring -> gostring)) (st : Store) : gostring :=
  match cache st !! (network, target) with
  | Some _ => target
  | None => match fold with
            | None => target
            | Some f => default target (fold_scan network target f st)
            end
  end.

Definition canonicalBufferLocked (network target : gostring) (fold : option (gostring -> gostring)) (st : Store) : gostring :=
  match fold with
  | None => target
  | Some f => default target (fold_scan network target f st)
  end.

(** ** Append *)

Record appendOpts := MkOpts {
  create : bool;
  fold : option (gostring -> gostring);
  guardCreate : option (bool -> bool);
  unarchive : bool
}.

(** [INSERT OR IGNORE] under the unique index on (buffer, msgid). *)
Definition duplicate (d : list Message) (m : Message) : bool :=
  (MsgID m != []) && existsb (fun x => MsgID x == MsgID m) d.

(** The row the INSERT writes: [redacted] and [redact_reason] take their
    defaults. *)
Definition stored (m : Message) : Message :=
  MkMsg (ID m) (Network m) (Target m) (Time m) (MsgID m) (Sender m) (MCommand m) (Raw m) (Text m) false [].

(** The message as stored and whether its buffer is still archived. *)
Definition commitAppendLocked (lim : limits) (id : Z) (m : Message) (unarch : bool) (st : Store) : (Message * bool) * Store :=
  match db st !! id with
  | None => ((zeroMsg, false), st)
  | Some b =>
      if duplicate (table b) m then ((zeroMsg, false), st)
      else
        let msg := set_id (next_msg_id st) m in
        let still := if unarch then false else archived b in
        let b' := set_archived (if unarch then false else archived b) (set_table (table_insert (stored msg) (table b)) b) in
        let st := set_db (<[id := b']> (db st)) st in
        let st := update_ring id (fun r => insert r msg) st in
        ((msg, still), evictRings lim id (touchRing id st))
  end.

(** [None] is the error for an empty network or target. *)
Definition append (lim : limits) (now : Z) (network target : gostring) (m : Message) (opts : appendOpts) (st : Store)
    : option (Message * bool) * Store :=
  if (network == []) || (target == []) then (None, st)
  else
    let m := bounded now m in
    let target := clampUTF8 target maxStoredFieldBytes in
    let target := match fold opts with None => target | Some f => canonicalLocked network target (Some f) st end in
    let m := set_buffer network target m in
    let '(blocked, st) :=
      match guardCreate opts with
      | None => (false, st)
      | Some g => let '(id, st) := bufferID lim network target false st in (g (bool_decide (is_Some id)), st)
      end in
    if (blocked : bool) then (Some (zeroMsg, false), st)
    else match bufferAndRing lim network target (create opts) st with
    | (None, st) => (Some (zeroMsg, false), st)
    | (Some id, st) => let '(res, st) := commitAppendLocked lim id m (unarchive opts) st in (Some res, st)
    end.

(** The exported wrappers. *)
Definition Append := fun lim now network target m =>
  append lim now network target m (MkOpts true None None true).
Definition AppendExisting := fun lim now network target m =>
  append lim now network target m (MkOpts false None None true).
Definition AppendFoldedGuardedArchive := fun lim now network target f g unarch m =>
  append lim now network target m (MkOpts true (Some f) (Some g) unarch).

(** ** Redaction and msgid adoption *)

(** [ORDER BY id DESC LIMIT 1] *)
Definition newest (l : list Message) : option Message :=
  foldr (fun m best => match best with
                       | None => Some m
                       | Some k => if ID k <? ID m then Some m else best
                       end) None l.

(** The unredacted row with that msgid (NULL matches nothing). *)
Definition redactable (msgid : gostring) (d : list Message) : option Message :=
  newest (List.filter (fun m => (MsgID m != []) && (MsgID m == msgid) && negb (Redacted m)) d).

Definition SetRedacted (lim : limits) (network target msgid reason : gostring) (st : Store) : bool * Store :=
  if msgid == [] then (false, st)
  else
    let msgid := clampUTF8 msgid maxStoredFieldBytes in
    match bufferID lim network target false st with
    | (None, st) => (false, st)
    | (Some id, st) =>
        let reason := clampUTF8 reason maxStoredFieldBytes in
        match db st !! id with
        | None => (false, st)
        | Some b =>
            match redactable msgid (table b) with
            | None => (false, st)
            | Some m0 =>
                let d := (fun m => if ID m =? ID m0 then tombstone reason m else m) <$> table b in
                let st := set_db (<[id := set_table d b]> (db st)) st in
                (true, match rings st !! id with
                       | Some _ => evictRings lim id (touchRing id (update_ring id (redact msgid reason) st))
                       | None => st
                       end)
            end
        end
    end.

Record OwnMsg := MkOwn {
  oNetwork : gostring; oTarget : gostring; oSender : gostring;
  oText : gostring; oMsgID : gostring; SinceMs : Z
}.

Definition placeholder (sender text : gostring) (since : Z) (m : Message) : bool :=
  (MsgID m == []) && (Sender m == sender) && (Text m == text) && (since <=? UnixMilli (Time m)).

Definition AdoptOwnMsgID (lim : limits) (msg : OwnMsg) (f : option (gostring -> gostring)) (st : Store) : bool * Store :=
  if (oMsgID msg == []) || (oText msg == []) || (oSender msg == []) then (false, st)
  else
    let msgid := clampUTF8 (oMsgID msg) maxStoredFieldBytes in
    let text := clampUTF8 (oText msg) maxStoredMessageBytes in
    let target := match f with None => oTarget msg | Some g => canonicalLocked (oNetwork msg) (oTarget msg) (Some g) st end in
    match bufferID lim (oNetwork msg) target false st with
    | (None, st) => (false, st)
    | (Some id, st) =>
        match db st !! id with
        | None => (false, st)
        | Some b =>
            if existsb (fun m => MsgID m == msgid) (table b) then (false, st)
            else match head (List.filter (placeholder (oSender msg) text (SinceMs msg)) (table b)) with
            | None => (false, st)
            | Some m0 =>
                let d := (fun m => if ID m =? ID m0 then set_msgid msgid m else m) <$> table b in
                let st := set_db (<[id := set_table d b]> (db st)) st in
                (true, match rings st !! id with
                       | Some _ => evictRings lim id (touchRing id (update_ring id (adoptMsgID (ID m0) msgid) st))
                       | None => st
                       end)
            end
        end
    end.

(** ** Pages *)

Definition Before (lim : limits) (network target : gostring) (c : Cursor) (limit : Z) (st : Store) : list Message * Store :=
  let limit := clampLimit limit in
  match bufferAndRing lim network target false st with
  | (None, st) => ([], st)
  | (Some id, st) =>
      match rings st !! id, db st !! id with
      | Some (r, _), Some b =>
          match pageBefore r c limit with
          | (out, true) => (out, st)
          | (_, false) => (sql_before (table b) c limit, st)
          end
      | _, _ => ([], st)
      end
  end.

Definition After (lim : limits) (network target : gostring) (c : Cursor) (limit : Z) (st : Store) : list Message * Store :=
  let limit := clampLimit limit in
  match bufferAndRing lim network target false st with
  | (None, st) => ([], st)
  | (Some id, st) =>
      match rings st !! id, db st !! id with
      | Some (r, _), Some b =>
          match pageAfter r c limit with
          | (out, true) => (out, st)
          | (_, false) => (sql_after (table b) c limit, st)
          end
      | _, _ => ([], st)
      end
  end.

Definition Latest (lim : limits) (network target : gostring) (limit : Z) (st : Store) : list Message * Store :=
  Before lim network target maxCursor limit st.

Definition CursorForMsgID (lim : limits) (network target msgid : gostring) (st : Store) : option Cursor * Store :=
  match bufferAndRing lim network target false st with
  | (None, st) => (None, st)
  | (Some id, st) =>
      match db st !! id with
      | None => (None, st)
      | Some b => (CursorOf <$> head (List.filter (fun m => (MsgID m != []) && (MsgID m == msgid)) (table b)), st)
      end
  end.

(** ** Read markers *)

Definition ReadMarker (lim : limits) (network target : gostring) (st : Store) : option Z * Store :=
  match bufferID lim network target false st with
  | (None, st) => (None, st)
  | (Some id, st) => (db st !! id ≫= marker, st)
  end.

(** Times in milliseconds. *)
Definition SetReadMarker (lim : limits) (now : Z) (network target : gostring) (t : Z) (st : Store) : Store :=
  match bufferID lim network target false st with
  | (None, st) => st
  | (Some id, st) =>
      let ts := Z.min t (now + markerSkewMs) in
      set_db (alter (fun b => set_marker (match marker b with None => ts | Some old => Z.max old ts end) b) id (db st)) st
  end.

(** ** Retention *)

Definition pruneByAge (cutoff : Z) (d : list Message) : list Message :=
  List.filter (fun m => negb (UnixMilli (Time m) <? cutoff)) d.

(** Everything older than the [maxPer]-th newest row goes. *)
Definition pruneByCount (maxPer : Z) (d : list Message) : list Message :=
  match reverse d !! Z.to_nat (maxPer - 1) with
  | None => d
  | Some k => List.filter (fun m => negb (cursorLess (CursorOf m) (CursorOf k))) d
  end.

Definition reconcileRings (cutoff maxPer : Z) (st : Store) : Store :=
  if (cutoff <=? 0) && (maxPer <=? 0) then st
  else
    MkStore (db st) (cache st) ((fun ru : ring * Z => (applyRetention cutoff maxPer ru.1, ru.2)) <$> rings st)
      (ringBytes st + map_fold (fun _ ru n => bytes (applyRetention cutoff maxPer ru.1) - bytes ru.1 + n) 0 (rings st))
      (accessSeq st).

(** [now] in milliseconds. *)
Definition pruneOnce (now days maxPer : Z) (st : Store) : Store :=
  let cutoff := now - days * 24 * 3600 * 1000 in
  let d := if days >? 0 then (fun b => set_table (pruneByAge cutoff (table b)) b) <$> db st else db st in
  let d := if maxPer >? 0 then (fun b => set_table (pruneByCount maxPer (table b)) b) <$> d else d in
  reconcileRings (if days >? 0 then cutoff else 0) (if maxPer >? 0 then maxPer else 0) (set_db d st).

(** ** Closing buffers *)

Definition DeleteBufferFolded (lim : limits) (network target : gostring) (f : option (gostring -> gostring)) (st : Store)
    : gostring * Store :=
  let canonical := canonicalBufferLocked network target f st in
  match bufferID lim network canonical false st with
  | (None, st) => (canonical, st)
  | (Some id, st) =>
      let st := dropRingLocked id (set_db (delete id (db st)) st) in
      (canonical, set_cache (delete (network, canonical) (cache st)) st)
  end.

Definition ArchiveBufferFolded (network target : gostring) (f : option (gostring -> gostring)) (st : Store) : gostring * Store :=
  let canonical := canonicalBufferLocked network target f st in
  (canonical,
   set_db ((fun b => if (bName b == canonical) && (bNetwork b == network) then set_archived true b else b) <$> db st) st).

(** What a restart leaves: the tables. *)
Definition dropAllCachesLocked (st : Store) : Store := MkStore (db st) ∅ ∅ 0 (accessSeq st).

(** ** Runs *)

Inductive op :=
| OpAppend (now : Z) (network target : gostring) (m : Message) (opts : appendOpts)
| OpRedact (network target msgid reason : gostring)
| OpAdopt (msg : OwnMsg) (f : option (gostring -> gostring))
| OpBefore (network target : gostring) (c : Cursor) (limit : Z)
| OpAfter (network target : gostring) (c : Cursor) (limit : Z)
| OpCursor (network target msgid : gostring)
| OpMarker (now : Z) (network target : gostring) (t : Z)
| OpPrune (now days maxPer : Z)
| OpDelete (network target : gostring) (f : option (gostring -> gostring))
| OpArchive (network target : gostring) (f : option (gostring -> gostring))
| OpDropCaches.

Definition exec (lim : limits) (o : op) (st : Store) : Store :=
  match o with
  | OpAppend now network target m opts => (append lim now network target m opts st).2
  | OpRedact network target msgid reason => (SetRedacted lim network target msgid reason st).2
  | OpAdopt msg f => (AdoptOwnMsgID lim msg f st).2
  | OpBefore network target c limit => (Before lim network target c limit st).2
  | OpAfter network target c limit => (After lim network target c limit st).2
  | OpCursor network target msgid => (CursorForMsgID lim network target msgid st).2
  | OpMarker now network target t => SetReadMarker lim now network target t st
  | OpPrune now days maxPer => pruneOnce now days maxPer st
  | OpDelete network target f => (DeleteBufferFolded lim network target f st).2
  | OpArchive network target f => (ArchiveBufferFolded network target f st).2
  | OpDropCaches => dropAllCachesLocked st
  end.

Definition run (lim : limits) (ops : list op) (st : Store) : Store := fold_left (fun st o => exec lim o st) ops st.
