(* ===== verification/StoreProofs.v ===== *)
(** * The message store: invariants of every operation

    Whatever the sequence of operations, every resident ring is a faithful
    suffix of its buffer's rows, the byte total is exact, the id cache agrees
    with the tables and no two buffers share a name; the budget holds between
    operations. *)

From S2P Require Import Prelude GoStrings GoUtf8 Ring RingProofs Store.

(** ** Byte totals *)

Definition ring_sum (m : gmap Z (ring * Z)) : Z := map_fold (fun _ ru n => bytes ru.1 + n) 0 m.

Lemma ring_sum_insert m id ru : m !! id = None -> ring_sum (<[id := ru]> m) = bytes ru.1 + ring_sum m.
Proof. intros H. unfold ring_sum. rewrite map_fold_insert_L; [done| |done]. intros. lia. Qed.

Lemma ring_sum_delete m id ru : m !! id = Some ru -> ring_sum m = bytes ru.1 + ring_sum (delete id m).
Proof. intros H. unfold ring_sum. apply (map_fold_delete_L (fun _ ru n => bytes ru.1 + n) 0 id ru m); [intros; lia|done]. Qed.

Lemma ring_sum_replace m id ru ru' :
  m !! id = Some ru -> ring_sum (<[id := ru']> m) = ring_sum m + (bytes ru'.1 - bytes ru.1).
Proof.
  intros H. rewrite <- insert_delete_eq, ring_sum_insert by apply lookup_delete_eq.
  rewrite (ring_sum_delete m id ru H). lia.
Qed.

Lemma ring_sum_empty : ring_sum ∅ = 0.
Proof. apply map_fold_empty. Qed.

(** ** The invariant *)

Definition key (b : Buffer) : gostring * gostring := (bNetwork b, bName b).

(** A redacted message has no content left. *)
Definition clean (m : Message) : Prop := Redacted m = true -> Raw m = [] /\ Text m = [].

Definition table_ok (d : list Message) : Prop := disk_ok d /\ Forall clean d.
Definition cached (d : list Message) (r : ring) : Prop := ring_ok d r /\ Forall clean (msgs r).

Record store_ok (lim : limits) (st : Store) : Prop := {
  ok_tables : forall id b, db st !! id = Some b -> table_ok (table b);
  ok_names : forall i j b c, db st !! i = Some b -> db st !! j = Some c -> key b = key c -> i = j;
  ok_rings : forall id r u, rings st !! id = Some (r, u) ->
    max r = ringSize lim /\ exists b, db st !! id = Some b /\ cached (table b) r;
  ok_bytes : ringBytes st = ring_sum (rings st);
  ok_cache : forall k id, cache st !! k = Some id -> exists b, db st !! id = Some b /\ key b = k
}.

(** Within the budget, unless a single message is over it alone. *)
Definition budget_ok (lim : limits) (st : Store) : Prop :=
  ringBytes st <= maxRingBytes lim \/
  exists id ru, rings st = {[id := ru]} /\ (length (msgs ru.1) <= 1)%nat.

Definition keeps_max (f : ring -> ring) : Prop := forall r, max (f r) = max r.

Lemma insert_max m : keeps_max (fun r => insert r m).
Proof. intros r. unfold insert. destruct_if as E; [done|]. cbv zeta. destruct_if as E'; done. Qed.
Lemma trim_max limit : keeps_max (trimToBytes limit).
Proof. intros r. unfold trimToBytes. destruct (trim_count _ _ _) as [n b]. by destruct (0 <? n)%nat. Qed.
Lemma redact_max msgid reason : keeps_max (redact msgid reason).
Proof. intros r. unfold redact. by destruct (update_first _ _ _). Qed.
Lemma adopt_max id msgid : keeps_max (adoptMsgID id msgid).
Proof. intros r. unfold adoptMsgID. by destruct (update_first _ _ _). Qed.
Lemma retain_max c n : keeps_max (applyRetention c n).
Proof.
  intros r. unfold applyRetention.
  destruct (if c >? 0 then _ else _) as [[l b] dr]. by destruct (if _ && _ then _ else _) as [[l' b'] dr'].
Qed.
Lemma warm_max lim d : max (warm lim d) = ringSize lim.
Proof. unfold warm. destruct (warm_scan _ _ _) as [l st]. by destruct (_ && _). Qed.

Create HintDb store.
#[export] Hint Resolve insert_max trim_max redact_max adopt_max retain_max : store.

(** ** Tables and rings, one at a time *)

Lemma fmap_ids (g : Message -> Message) (d : list Message) :
  (forall m, ID (g m) = ID m) -> ID <$> (g <$> d) = ID <$> d.
Proof. intros Hg. rewrite <- list_fmap_compose. apply list_fmap_ext. intros i m _. apply Hg. Qed.

Lemma fmap_sorted (g : Message -> Message) d :
  (forall m, CursorOf (g m) = CursorOf m) -> sorted d -> sorted (g <$> d).
Proof.
  intros Hg. induction d as [|x d IH]; [done|]. rewrite fmap_cons, !StronglySorted_cons. intros [Hx Hd].
  split; [|by apply IH]. rewrite Forall_fmap. eapply Forall_impl; [exact Hx|]. intros y Hy. unfold mlt in *. simpl.
  by rewrite !Hg.
Qed.

Lemma disk_sublist d d' : d' `sublist_of` d -> disk_ok d -> disk_ok d'.
Proof.
  intros Hs (H1 & H2 & H3). split; [by apply (sorted_sublist d' d)|].
  split; [by apply (sublist_NoDup _ (ID <$> d)); [|apply fmap_sublist]|].
  intros x y Hx Hy. apply H3; by eapply elem_of_sublist.
Qed.

Lemma disk_insert d m :
  disk_ok d -> (forall x, x ∈ d -> ID x <> ID m) -> duplicate d m = false -> disk_ok (table_insert m d).
Proof.
  intros (H1 & H2 & H3) Hid Hdup. split; [by apply table_insert_sorted|]. split.
  - rewrite table_insert_perm, fmap_cons. apply NoDup_cons. split; [|done].
    intros (x & E & Hx)%list_elem_of_fmap. by apply (Hid x Hx).
  - assert (forall x, x ∈ d -> MsgID x = MsgID m -> MsgID m <> [] -> False) as Hno.
    { intros x Hx E Hne. unfold duplicate in Hdup. rewrite (bool_decide_eq_false_2 _ Hne) in Hdup. simpl in Hdup.
      apply not_true_iff_false in Hdup. apply Hdup, existsb_exists. exists x. split; [by apply list_elem_of_In|].
      by apply bool_decide_eq_true. }
    intros x y Hx Hy E Hne. rewrite table_insert_perm in Hx, Hy.
    apply elem_of_cons in Hx as [->|Hx]; apply elem_of_cons in Hy as [->|Hy]; [done|..].
    + exfalso. by apply (Hno y Hy).
    + exfalso. apply (Hno x Hx); congruence.
    + by apply H3.
Qed.

Lemma disk_redact d id reason :
  disk_ok d -> disk_ok ((fun m => if ID m =? id then tombstone reason m else m) <$> d).
Proof.
  intros (H1 & H2 & H3). split; [apply fmap_sorted; [intros m; by destruct (ID m =? id)|done]|].
  split; [rewrite fmap_ids; [done|intros m; by destruct (ID m =? id)]|].
  intros x y (x0 & -> & Hx)%list_elem_of_fmap (y0 & -> & Hy)%list_elem_of_fmap.
  pose proof (H3 x0 y0 Hx Hy). by destruct (ID x0 =? id), (ID y0 =? id).
Qed.

Lemma disk_adopt d id msgid :
  disk_ok d -> existsb (fun m => MsgID m == msgid) d = false ->
  disk_ok ((fun m => if ID m =? id then set_msgid msgid m else m) <$> d).
Proof.
  intros (H1 & H2 & H3) Hno. split; [apply fmap_sorted; [intros m; by destruct (ID m =? id)|done]|].
  split; [rewrite fmap_ids; [done|intros m; by destruct (ID m =? id)]|].
  assert (forall x, x ∈ d -> MsgID x <> msgid) as Hn.
  { intros x Hx E. apply not_true_iff_false in Hno. apply Hno, existsb_exists. exists x.
    split; [by apply list_elem_of_In|by apply bool_decide_eq_true]. }
  intros x y (x0 & -> & Hx)%list_elem_of_fmap (y0 & -> & Hy)%list_elem_of_fmap.
  destruct (Z.eqb_spec (ID x0) id), (Z.eqb_spec (ID y0) id); simpl; intros E Hne.
  - congruence.
  - by destruct (Hn y0 Hy).
  - by destruct (Hn x0 Hx).
  - by apply H3.
Qed.

Lemma ring_ok_rows d d' r : row <$> d = row <$> d' -> ring_ok d r -> ring_ok d' r.
Proof. intros E (H1 & H2 & H3 & old & E' & H4). split; [done|]. split; [done|]. split; [done|]. exists old. by rewrite <- E. Qed.

(** A message the store was handed as new. *)
Definition fresh_msg (m : Message) : Prop := Redacted m = false /\ RedactReason m = [].

Lemma stored_row m : fresh_msg m -> row (stored m) = row m.
Proof. intros [H1 H2]. unfold row, stored. simpl. by rewrite H1, H2. Qed.

Lemma append_both_ok d r m :
  sorted d -> ring_ok d r -> fresh_msg m -> ring_ok (table_insert (stored m) d) (insert r m).
Proof.
  intros Hs Hok Hm. apply (ring_ok_rows (table_insert m d)); [|by apply insert_ok].
  by rewrite !table_insert_row, stored_row.
Qed.

(** *** Redacted content stays gone *)

Lemma update_first_forall (P : Message -> Prop) p f l :
  (forall m, P m -> P (f m)) -> Forall P l -> Forall P (update_first p f l).1.
Proof.
  intros Hf. induction l as [|m l IH]; [done|]. intros [Hm Hl]%Forall_cons. simpl. destruct (p m); [by constructor; auto|].
  specialize (IH Hl). destruct (update_first p f l). by constructor.
Qed.

Lemma clean_insert r m : Forall clean (msgs r) -> clean m -> Forall clean (msgs (insert r m)).
Proof.
  intros Hr Hm. unfold insert. destruct_if as E; [done|]. cbv zeta. set (i := Search _ _).
  assert (Forall clean (take i (msgs r) ++ m :: drop i (msgs r))) as H
    by (apply Forall_app; split; [by apply Forall_take|constructor; [done|by apply Forall_drop]]).
  destruct_if as E'; [by apply Forall_drop|done].
Qed.

Lemma clean_retain c n r : Forall clean (msgs r) -> Forall clean (msgs (applyRetention c n r)).
Proof.
  intros Hr. unfold applyRetention, dropFirst.
  destruct (c >? 0); [set (i := Search _ _); destruct (0 <? i)%nat|]; destruct (_ && _); simpl; auto using Forall_drop.
Qed.

Lemma warm_scan_sub budget b rows : (warm_scan budget b rows).1 `sublist_of` rows.
Proof. destruct (warm_scan_prefix budget b rows) as (rest & E & _). rewrite E at 2. by apply sublist_inserts_r. Qed.

Lemma clean_warm lim d : Forall clean d -> Forall clean (msgs (warm lim d)).
Proof.
  intros Hd. unfold warm. set (rows := take _ _).
  assert (Forall clean rows) as Hrows.
  { apply Forall_take, Forall_reverse, Forall_fmap. eapply Forall_impl; [exact Hd|]. intros m Hm H. simpl in *. by destruct (Hm H). }
  pose proof (warm_scan_sub (maxRingBytes lim) 0 rows) as Hsub. destruct (warm_scan (maxRingBytes lim) 0 rows) as [l st]. simpl in Hsub.
  assert (Forall clean (reverse l)) as Hl.
  { apply Forall_reverse. rewrite Forall_forall in *. intros x Hx. apply Hrows. by eapply elem_of_sublist. }
  destruct (_ && _); simpl; [done|]. destruct_if as E; [by apply Forall_drop|done].
Qed.

Lemma cached_trim d limit r : cached d r -> cached d (trimToBytes limit r).
Proof.
  intros [H1 H2]. split; [by apply trim_ok|]. unfold trimToBytes. destruct (trim_count _ _ _) as [n b].
  destruct (0 <? n)%nat; [by apply Forall_drop|done].
Qed.

Lemma cached_insert d r m :
  sorted d -> cached d r -> fresh_msg m -> cached (table_insert (stored m) d) (insert r m).
Proof.
  intros Hs [H1 H2] Hm. split; [by apply append_both_ok|]. apply clean_insert; [done|].
  intros H. destruct Hm as [H' _]. congruence.
Qed.

Lemma cached_redact d r msgid reason m0 :
  disk_ok d -> cached d r -> msgid <> [] -> m0 ∈ d -> MsgID m0 = msgid ->
  cached ((fun m => if ID m =? ID m0 then tombstone reason m else m) <$> d) (redact msgid reason r).
Proof.
  intros Hd [H1 H2] Hne Hin E. split; [by apply redact_ok|]. unfold redact.
  pose proof (update_first_forall clean (fun m => MsgID m == msgid) (tombstone reason) (msgs r)) as H.
  destruct (update_first _ _ _). by apply H.
Qed.

Lemma cached_adopt d r id msgid :
  NoDup (ID <$> d) -> cached d r ->
  cached ((fun m => if ID m =? id then set_msgid msgid m else m) <$> d) (adoptMsgID id msgid r).
Proof.
  intros Hd [H1 H2]. split; [by apply adopt_ok|]. unfold adoptMsgID.
  pose proof (update_first_forall clean (fun m => ID m =? id) (set_msgid msgid) (msgs r)) as H.
  destruct (update_first _ _ _). by apply H.
Qed.

Lemma table_sublist d d' : d' `sublist_of` d -> table_ok d -> table_ok d'.
Proof.
  intros Hs [H1 H2]. split; [by apply (disk_sublist d)|]. rewrite Forall_forall in *. intros x Hx. apply H2. by eapply elem_of_sublist.
Qed.

Lemma table_append d m :
  table_ok d -> (forall x, x ∈ d -> ID x <> ID m) -> duplicate d m = false -> Redacted m = false -> table_ok (table_insert m d).
Proof.
  intros [H1 H2] Hid Hdup Hm. split; [by apply disk_insert|]. rewrite table_insert_perm. constructor; [|done].
  intros H. congruence.
Qed.

Lemma table_redact d id reason :
  table_ok d -> table_ok ((fun m => if ID m =? id then tombstone reason m else m) <$> d).
Proof.
  intros [H1 H2]. split; [by apply disk_redact|]. apply Forall_fmap. eapply Forall_impl; [exact H2|].
  intros m Hm. simpl. by destruct (ID m =? id).
Qed.

Lemma table_adopt d id msgid :
  table_ok d -> existsb (fun m => MsgID m == msgid) d = false ->
  table_ok ((fun m => if ID m =? id then set_msgid msgid m else m) <$> d).
Proof.
  intros [H1 H2] Hno. split; [by apply disk_adopt|]. apply Forall_fmap. eapply Forall_impl; [exact H2|].
  intros m Hm. simpl. by destruct (ID m =? id).
Qed.

Section Store.

Context (lim : limits) (Hsize : 1 <= ringSize lim) (Hbudget : 0 <= maxRingBytes lim).

Lemma empty_ok : store_ok lim emptyStore.
Proof. split; [done|done|done|symmetry; apply ring_sum_empty|done]. Qed.

(** *** A row and its ring change together *)

Lemma update_both_ok st id b b' f :
  store_ok lim st -> db st !! id = Some b -> key b' = key b -> table_ok (table b') -> keeps_max f ->
  (forall r, cached (table b) r -> cached (table b') (f r)) ->
  store_ok lim (update_ring id f (set_db (<[id := b']> (db st)) st)).
Proof.
  intros [Ht Hn Hr Hb Hc] Hid Hk Hd Hm Hf.
  assert (forall j c, <[id := b']> (db st) !! j = Some c -> exists c0, db st !! j = Some c0 /\ key c = key c0) as Hkey.
  { intros j c Hj. destruct (decide (j = id)) as [->|Hne].
    - rewrite lookup_insert_eq in Hj. injection Hj as <-. by exists b.
    - rewrite lookup_insert_ne in Hj by done. by exists c. }
  assert (forall st', db st' = <[id := b']> (db st) -> cache st' = cache st ->
    ringBytes st' = ring_sum (rings st') ->
    (forall j r u, rings st' !! j = Some (r, u) -> max r = ringSize lim /\ exists c, db st' !! j = Some c /\ cached (table c) r) ->
    store_ok lim st') as Hmk.
  { intros st' Ed Ec Eb Er. split; rewrite ?Ed, ?Ec in *; try done.
    - intros j c Hj. destruct (decide (j = id)) as [->|Hne].
      + rewrite lookup_insert_eq in Hj. by injection Hj as <-.
      + rewrite lookup_insert_ne in Hj by done. by apply (Ht j).
    - intros i j x y Hx Hy Hxy. destruct (Hkey i x Hx) as (x0 & Hx0 & Ex). destruct (Hkey j y Hy) as (y0 & Hy0 & Ey).
      apply (Hn i j x0 y0 Hx0 Hy0). congruence.
    - intros k j Hj. destruct (Hc k j Hj) as (c & Hcj & <-). destruct (decide (j = id)) as [->|Hne].
      + exists b'. rewrite lookup_insert_eq. split; [done|]. congruence.
      + exists c. by rewrite lookup_insert_ne. }
  unfold update_ring. simpl. destruct (rings st !! id) as [[r u]|] eqn:Er; apply Hmk; simpl; try done.
  - rewrite (ring_sum_replace _ _ _ _ Er), Hb. done.
  - intros j r' u' Hj. destruct (decide (j = id)) as [->|Hne].
    + rewrite lookup_insert_eq in Hj. injection Hj as <- <-. destruct (Hr _ _ _ Er) as (Em & c & Hcid & Hok).
      rewrite Hm. split; [done|]. exists b'. rewrite lookup_insert_eq. split; [done|]. apply Hf. congruence.
    + rewrite lookup_insert_ne in Hj by done. rewrite lookup_insert_ne by done. by apply (Hr j r' u').
  - intros j r' u' Hj. assert (j <> id) by congruence. rewrite lookup_insert_ne by done. by apply (Hr j r' u').
Qed.

(** A ring alone. *)
Lemma update_ring_ok st id f :
  store_ok lim st -> keeps_max f -> (forall d r, cached d r -> cached d (f r)) -> store_ok lim (update_ring id f st).
Proof.
  intros Hst Hm Hf. destruct (rings st !! id) as [[r u]|] eqn:Er; [|by unfold update_ring; rewrite Er].
  destruct (ok_rings lim st Hst _ _ _ Er) as (_ & b & Hb & _).
  pose proof (update_both_ok st id b b f Hst Hb eq_refl (ok_tables lim st Hst _ _ Hb) Hm (fun r => Hf _ r)) as H.
  rewrite insert_id in H by done. by destruct st.
Qed.

Lemma touch_ok st id : store_ok lim st -> store_ok lim (touchRing id st).
Proof.
  intros [Ht Hn Hr Hb Hc]. split; simpl; try done.
  - intros j r u Hj. destruct (decide (j = id)) as [->|Hne].
    + rewrite lookup_alter_eq in Hj. destruct (rings st !! id) as [[r' u']|] eqn:E; [|done].
      injection Hj as <- <-. by apply (Hr id r' u').
    + rewrite lookup_alter_ne in Hj by done. by apply (Hr j r u).
  - rewrite Hb. destruct (rings st !! id) as [[r u]|] eqn:E.
    + rewrite <- (insert_id (rings st) id (r, u) E) at 2. rewrite alter_insert_eq, (ring_sum_replace _ _ _ _ E). simpl. lia.
    + rewrite alter_id; [done|]. intros x Hx. congruence.
Qed.

Lemma drop_ok st id : store_ok lim st -> store_ok lim (dropRingLocked id st).
Proof.
  intros Hst. unfold dropRingLocked. destruct (rings st !! id) as [[r u]|] eqn:Er; [|done].
  destruct Hst as [Ht Hn Hr Hb Hc]. split; simpl; try done.
  - intros j r' u' Hj. apply lookup_delete_Some in Hj as [_ Hj]. by apply (Hr j r' u').
  - rewrite Hb, (ring_sum_delete _ _ _ Er). simpl. lia.
Qed.

(** *** Eviction *)

Lemma older_spec keep l best :
  match fold_left (older keep) l best with
  | None => best = None /\ Forall (fun e => e.1 = keep) l
  | Some (v, _) => (exists s, best = Some (v, s)) \/ (v <> keep /\ exists e, e ∈ l /\ e.1 = v)
  end.
Proof.
  revert best. induction l as [|e l IH]; intros best; simpl.
  { destruct best as [[v s]|]; [left; by eexists|done]. }
  specialize (IH (older keep best e)). destruct (fold_left _ _ _) as [[v s]|].
  - assert ((exists s0, best = Some (v, s0)) \/ (v <> keep /\ e.1 = v) \/ (v <> keep /\ exists e', e' ∈ l /\ e'.1 = v)) as H.
    { destruct IH as [(s0 & E)|H]; [|tauto]. unfold older in E.
      destruct (Z.eqb_spec e.1 keep); [left; by exists s0|].
      destruct best as [[w sw]|]; [destruct (_ <? sw)|]; simplify_eq; eauto. }
    destruct H as [H|[(Hv & He)|(Hv & e' & He' & E)]]; [by left|right..]; (split; [done|]).
    + exists e. split; [by left|done].
    + exists e'. split; [by right|done].
  - destruct IH as [E Hl]. unfold older in E. destruct (Z.eqb_spec e.1 keep).
    + split; [done|]. by constructor.
    + destruct best as [[w sw]|]; [by destruct (_ <? sw)|done].
Qed.

Lemma victim_some keep st v : victim keep st = Some v -> v <> keep /\ is_Some (rings st !! v).
Proof.
  unfold victim. pose proof (older_spec keep (map_to_list (rings st)) None) as H.
  destruct (fold_left _ _ _) as [[w s]|]; [|done]. intros [= <-].
  destruct H as [(s0 & ?)|(Hv & [i ru] & He & <-)]; [done|]. split; [done|].
  exists ru. by apply elem_of_map_to_list in He.
Qed.

Lemma victim_none keep st id ru : victim keep st = None -> rings st !! id = Some ru -> id = keep.
Proof.
  unfold victim. pose proof (older_spec keep (map_to_list (rings st)) None) as H.
  destruct (fold_left _ _ _) as [[w s]|]; [done|]. intros _ Hid. destruct H as [_ H].
  rewrite Forall_forall in H. apply (H (id, ru)). by apply elem_of_map_to_list.
Qed.

(** Tables and cache are untouched, and the ring in use stays. *)
Definition same_rows (keep : Z) (st st' : Store) : Prop :=
  db st' = db st /\ cache st' = cache st /\ (is_Some (rings st !! keep) -> is_Some (rings st' !! keep)).

Lemma same_rows_refl keep st : same_rows keep st st.
Proof. done. Qed.

Lemma same_rows_trans keep a b c : same_rows keep a b -> same_rows keep b c -> same_rows keep a c.
Proof. intros (A1 & A2 & A3) (B1 & B2 & B3). split; [congruence|]. split; [congruence|auto]. Qed.

Lemma touch_same id keep st : same_rows keep st (touchRing id st).
Proof. split; [done|]. split; [done|]. simpl. by rewrite lookup_alter_is_Some. Qed.

Lemma update_ring_same id f keep st : same_rows keep st (update_ring id f st).
Proof.
  unfold update_ring. destruct (rings st !! id) as [[r u]|] eqn:E; [|done]. split; [done|]. split; [done|]. simpl.
  intros H. destruct (decide (keep = id)) as [->|]; [by rewrite lookup_insert_eq|by rewrite lookup_insert_ne].
Qed.

Lemma drop_same v keep st : v <> keep -> same_rows keep st (dropRingLocked v st).
Proof.
  intros Hv. unfold dropRingLocked. destruct (rings st !! v) as [[r u]|]; [|done].
  split; [done|]. split; [done|]. simpl. by rewrite lookup_delete_ne.
Qed.

Lemma trim_last_budget keep st :
  store_ok lim st -> victim keep st = None -> maxRingBytes lim < ringBytes st ->
  budget_ok lim (update_ring keep (trimToBytes (maxRingBytes lim)) st).
Proof.
  intros Hst Hv Hover. unfold update_ring. destruct (rings st !! keep) as [[r u]|] eqn:Er.
  - assert (rings st = {[keep := (r, u)]}) as Es.
    { apply map_eq. intros i. destruct (decide (i = keep)) as [->|Hne]; [by rewrite lookup_singleton_eq|].
      rewrite lookup_singleton_ne by done. destruct (rings st !! i) as [x|] eqn:Ex; [|done].
      by destruct Hne; apply (victim_none keep st i x). }
    pose proof (ok_bytes lim st Hst) as Hb. rewrite Es in Hb. unfold ring_sum in Hb. rewrite map_fold_singleton in Hb.
    simpl in Hb. destruct (trim_budget (maxRingBytes lim) r) as [H|H].
    + left. simpl. lia.
    + right. exists keep, (trimToBytes (maxRingBytes lim) r, u). simpl. by rewrite Es, insert_singleton_eq.
  - assert (rings st = ∅) as Es.
    { apply map_empty. intros i. destruct (rings st !! i) as [x|] eqn:Ex; [|done].
      rewrite (victim_none keep st i x Hv Ex) in Ex. congruence. }
    pose proof (ok_bytes lim st Hst) as Hb. rewrite Es, ring_sum_empty in Hb. lia.
Qed.

Lemma evict_loop_ok fuel keep st :
  store_ok lim st -> (size (rings st) < fuel)%nat ->
  let st' := evict_loop fuel lim keep st in store_ok lim st' /\ budget_ok lim st' /\ same_rows keep st st'.
Proof.
  revert st. induction fuel as [|fuel IH]; intros st Hst Hf; [lia|]. simpl.
  destruct (Z.gtb_spec (ringBytes st) (maxRingBytes lim)) as [Hgt|Hle]; [|split; [done|split; [left; lia|done]]].
  destruct (victim keep st) as [v|] eqn:Ev.
  - destruct (victim_some keep st v Ev) as [Hne [[r u] Hr]].
    destruct (IH (dropRingLocked v st)) as (H1 & H2 & H3).
    + by apply drop_ok.
    + unfold dropRingLocked. rewrite Hr. simpl. rewrite map_size_delete_Some by done.
      assert (size (rings st) <> 0%nat); [|lia]. apply map_size_ne_0_lookup. by exists v, (r, u).
    + split; [done|]. split; [done|]. eapply same_rows_trans; [by apply drop_same|done].
  - split; [apply update_ring_ok; [done|auto with store|intros d r; apply cached_trim]|].
    split; [by apply trim_last_budget|apply update_ring_same].
Qed.

Lemma evict_ok keep st :
  store_ok lim st ->
  let st' := evictRings lim keep st in store_ok lim st' /\ budget_ok lim st' /\ same_rows keep st st'.
Proof. intros Hst. apply evict_loop_ok; [done|lia]. Qed.

(** The tail of every operation that grew a ring. *)
Lemma settle_ok id st :
  store_ok lim st ->
  let st' := evictRings lim id (touchRing id st) in store_ok lim st' /\ budget_ok lim st' /\ same_rows id st st'.
Proof.
  intros Hst. destruct (evict_ok id (touchRing id st)) as (H1 & H2 & H3); [by apply touch_ok|].
  split; [done|]. split; [done|]. eapply same_rows_trans; [apply touch_same|done].
Qed.

(** *** Resolving buffers *)

Lemma map_bound {A} (h : Z -> A -> Z) (m : gmap Z A) id x :
  m !! id = Some x -> h id x <= map_fold (fun k y n => Z.max (h k y) n) 0 m.
Proof.
  revert id x. apply (map_fold_weak_ind (fun n m => forall id x, m !! id = Some x -> h id x <= n)); [done|].
  intros i y m' n _ IH id x Hx. destruct (decide (id = i)) as [->|Hne].
  - rewrite lookup_insert_eq in Hx. injection Hx as <-. lia.
  - rewrite lookup_insert_ne in Hx by done. specialize (IH id x Hx). lia.
Qed.

Lemma next_buffer_fresh st : db st !! next_buffer_id st = None.
Proof.
  destruct (db st !! next_buffer_id st) as [b|] eqn:E; [|done].
  pose proof (map_bound (fun k _ => k) (db st) _ b E) as H. cbv beta in H. unfold next_buffer_id in *. lia.
Qed.

Lemma max_id_bound l m : m ∈ l -> ID m <= max_id l.
Proof. unfold max_id. induction 1 as [m l|m x l _ IH]; simpl in *; lia. Qed.

Lemma next_msg_fresh st id b m : db st !! id = Some b -> m ∈ table b -> ID m <> next_msg_id st.
Proof.
  intros Hb Hm. pose proof (map_bound (fun _ b => max_id (table b)) (db st) id b Hb) as H. cbv beta in H.
  pose proof (max_id_bound _ _ Hm) as H'. unfold next_msg_id. lia.
Qed.

Lemma head_filter {A} (p : A -> bool) (l : list A) :
  match head (List.filter p l) with
  | Some e => e ∈ l /\ p e = true
  | None => forall e, e ∈ l -> p e = false
  end.
Proof.
  destruct (List.filter p l) as [|e k] eqn:E; simpl.
  - intros e He. destruct (p e) eqn:Ep; [|done]. exfalso.
    assert (In e (List.filter p l)) as H by (apply List.filter_In; split; [by apply list_elem_of_In|done]). by rewrite E in H.
  - assert (In e (List.filter p l)) as H by (rewrite E; by left). apply List.filter_In in H as [H1 H2].
    split; [by apply list_elem_of_In|done].
Qed.

Lemma named_key network target e : named network target e = true <-> key e.2 = (network, target).
Proof.
  unfold named, key. rewrite andb_true_iff, !bool_decide_eq_true. split; [intros [-> ->]; done|by intros [= -> ->]].
Qed.

Definition absent (network target : gostring) (st : Store) : Prop :=
  forall j c, db st !! j = Some c -> key c <> (network, target).

(** What resolving a name does to the store: nothing, or a new empty buffer. *)
Definition resolved (network target : gostring) (id : Z) (b : Buffer) (st st' : Store) : Prop :=
  db st' !! id = Some b /\ key b = (network, target) /\
  (db st' = db st \/
   (db st !! id = None /\ absent network target st /\ b = MkBuffer network target false None [] /\
    db st' = <[id := b]> (db st))).

Lemma find_buffer_spec network target st :
  match find_buffer network target st with
  | Some id => exists b, db st !! id = Some b /\ key b = (network, target)
  | None => absent network target st
  end.
Proof.
  unfold find_buffer. pose proof (head_filter (named network target) (map_to_list (db st))) as H.
  destruct (head _) as [[id b]|]; simpl.
  - destruct H as [H1 H2]. exists b. split; [by apply elem_of_map_to_list|by apply named_key in H2].
  - intros j c Hc Hk. apply elem_of_map_to_list, H in Hc. apply (named_key network target (j, c)) in Hk. congruence.
Qed.

Lemma bufferID_ok network target cr st :
  store_ok lim st ->
  match bufferID lim network target cr st with
  | (Some id, st') =>
      store_ok lim st' /\
      exists b, resolved network target id b st st' /\
        ((db st' = db st /\ rings st' = rings st /\ ringBytes st' = ringBytes st) \/
         (cr = true /\ table b = [] /\ is_Some (rings st' !! id)))
  | (None, st') => st' = st /\ absent network target st
  end.
Proof.
  intros Hst. unfold bufferID. destruct (cache st !! (network, target)) as [id|] eqn:Ec.
  { split; [done|]. destruct (ok_cache lim st Hst _ _ Ec) as (b & Hb & Hk). exists b. split; [|by left].
    split; [done|]. split; [done|]. by left. }
  pose proof (find_buffer_spec network target st) as Hf. destruct (find_buffer network target st) as [id|].
  { destruct Hf as (b & Hb & Hk). split.
    - destruct Hst as [Ht Hn Hr Hby Hc]. split; try done. simpl. intros k i Hi.
      apply lookup_insert_Some in Hi as [[<- <-]|[_ Hi]]; [by exists b|by apply Hc].
    - exists b. split; [|by left]. split; [done|]. split; [done|]. by left. }
  destruct cr; simpl; [|done]. destruct_if as Hcap; [done|]. cbv zeta.
  pose proof (next_buffer_fresh st) as Hnew. set (id := next_buffer_id st) in *.
  assert (rings st !! id = None) as Hnr.
  { destruct (rings st !! id) as [[r u]|] eqn:E; [|done]. destruct (ok_rings lim st Hst _ _ _ E) as (_ & b & Hb & _). congruence. }
  split.
  - destruct Hst as [Ht Hn Hr Hby Hc]. split; simpl.
    + intros j c Hj. apply lookup_insert_Some in Hj as [[<- <-]|[_ Hj]]; [|by apply (Ht j)]. simpl.
      split; [|constructor]. split; [constructor|]. split; [constructor|]. intros x y Hx. by apply elem_of_nil in Hx.
    + intros i j x y Hx Hy Hxy.
      apply lookup_insert_Some in Hx as [[<- <-]|[Hi Hx]]; apply lookup_insert_Some in Hy as [[<- <-]|[Hj Hy]]; [done|..].
      * symmetry in Hxy. by apply Hf in Hy.
      * by apply Hf in Hx.
      * by apply (Hn i j x y).
    + intros j r u Hj. apply lookup_insert_Some in Hj as [[<- [= <- <-]]|[Hne Hj]].
      * split; [done|]. exists (MkBuffer network target false None []). rewrite lookup_insert_eq. split; [done|].
        split; [|constructor]. split; [done|]. split; [simpl; rewrite len_nil; lia|]. split; [done|]. by exists [].
      * rewrite lookup_insert_ne by done. by apply (Hr j r u).
    + rewrite ring_sum_insert by done. simpl. lia.
    + intros k j Hj. apply lookup_insert_Some in Hj as [[<- <-]|[Hne Hj]].
      * exists (MkBuffer network target false None []). by rewrite lookup_insert_eq.
      * destruct (Hc k j Hj) as (c & Hcj & Hk). exists c. rewrite lookup_insert_ne; [done|]. congruence.
  - exists (MkBuffer network target false None []). split.
    + split; [apply lookup_insert_eq|]. split; [done|]. by right.
    + right. split; [done|]. split; [done|]. simpl. by rewrite lookup_insert_eq.
Qed.

Lemma budget_ext st st' :
  rings st' = rings st -> ringBytes st' = ringBytes st -> budget_ok lim st -> budget_ok lim st'.
Proof. unfold budget_ok. by intros -> ->. Qed.

Lemma budget_touch id st : budget_ok lim st -> budget_ok lim (touchRing id st).
Proof.
  intros [H|(i & [r u] & E & H)]; [by left|]. right. exists i. simpl. rewrite E. destruct (decide (id = i)) as [->|Hne].
  - eexists. split; [apply alter_singleton_eq|done].
  - exists (r, u). split; [|done]. apply alter_id. intros x Hx. by rewrite lookup_singleton_ne in Hx.
Qed.

Lemma bufferAndRing_ok network target cr st :
  store_ok lim st ->
  match bufferAndRing lim network target cr st with
  | (Some id, st') =>
      store_ok lim st' /\
      exists b, resolved network target id b st st' /\ is_Some (rings st' !! id) /\
        ((db st' = db st /\ (budget_ok lim st -> budget_ok lim st')) \/ (cr = true /\ table b = []))
  | (None, st') => st' = st /\ absent network target st
  end.
Proof.
  intros Hst. unfold bufferAndRing. pose proof (bufferID_ok network target cr st Hst) as H.
  destruct (bufferID lim network target cr st) as [[id|] st1]; [|done].
  destruct H as (Hst1 & b & Hres & Hcase). destruct (rings st1 !! id) as [ru|] eqn:Er.
  - split; [by apply touch_ok|]. exists b. split; [done|]. split; [by simpl; rewrite lookup_alter_is_Some, Er|].
    destruct Hcase as [(E0 & E1 & E2)|(? & E & _)]; [left|by right].
    split; [done|]. intros Hbud. apply budget_touch. by apply (budget_ext st).
  - destruct Hcase as [(E0 & E1 & E2)|(_ & _ & [? ?])]; [|congruence].
    destruct Hres as (Hb & Hk & Hdb). rewrite Hb.
    set (st2 := MkStore _ _ _ _ _). assert (store_ok lim st2) as Hst2.
    { destruct Hst1 as [Ht Hn Hr Hby Hc]. split; simpl; try done.
      - intros j r u Hj. apply lookup_insert_Some in Hj as [[<- [= <- <-]]|[Hne Hj]]; [|by apply (Hr j r u)].
        split; [apply warm_max|]. exists b. split; [done|]. by split; [apply warm_ok|apply clean_warm; apply (Ht id b)].
      - rewrite ring_sum_insert by done. simpl. lia. }
    destruct (settle_ok id st2 Hst2) as (H1 & H2 & E3 & _ & H3). split; [done|]. exists b.
    unfold resolved. rewrite E3. split; [done|]. split; [|by left].
    apply H3. simpl. by rewrite lookup_insert_eq.
Qed.

(** Resolution without creation changes no row. *)
Lemma lookup_ring_ok network target st :
  store_ok lim st ->
  let st' := (bufferAndRing lim network target false st).2 in
  store_ok lim st' /\ (budget_ok lim st -> budget_ok lim st') /\ db st' = db st.
Proof.
  intros Hst. pose proof (bufferAndRing_ok network target false st Hst) as H.
  destruct (bufferAndRing lim network target false st) as [[id|] st']; [|by destruct H as [-> _]].
  by destruct H as (H1 & b & _ & _ & [[H2 H3]|[? _]]).
Qed.

(** *** Operations *)

Definition step_ok (st st' : Store) : Prop := store_ok lim st' /\ (budget_ok lim st -> budget_ok lim st').

Lemma commit_ok id b m un st :
  store_ok lim st -> db st !! id = Some b -> fresh_msg m ->
  let st' := (commitAppendLocked lim id m un st).2 in
  store_ok lim st' /\ (budget_ok lim st \/ table b = [] -> budget_ok lim st').
Proof.
  intros Hst Hb Hm. unfold commitAppendLocked. rewrite Hb. destruct (duplicate (table b) m) eqn:Ed; simpl.
  { split; [done|]. intros [?|E]; [done|]. rewrite E in Ed. unfold duplicate in Ed. simpl in Ed.
    by rewrite andb_false_r in Ed. }
  set (msg := set_id (next_msg_id st) m).
  destruct (settle_ok id (update_ring id (fun r => insert r msg)
    (set_db (<[id := set_archived (if un then false else archived b) (set_table (table_insert (stored msg) (table b)) b)]> (db st)) st)))
    as (H1 & H2 & _); [|done].
  pose proof (ok_tables lim st Hst id b Hb) as Hd.
  apply (update_both_ok st id b); try done; auto with store.
  - apply table_append; [done| |done|done]. intros x Hx. by apply (next_msg_fresh st id b x).
  - intros r Hr. apply cached_insert; [by destruct Hd as [[? _] _]|done|done].
Qed.

Lemma bounded_fresh now network target m : fresh_msg m -> fresh_msg (set_buffer network target (bounded now m)).
Proof. intros [H1 H2]. unfold fresh_msg. simpl. by rewrite H1, H2. Qed.

Lemma append_ok now network target m opts st :
  store_ok lim st -> fresh_msg m -> step_ok st (append lim now network target m opts st).2.
Proof.
  intros Hst Hm. unfold append. destruct_if as Hempty; [done|]. cbv zeta.
  set (t := match fold opts with None => _ | Some _ => _ end). clearbody t.
  set (m' := set_buffer network t (bounded now m)).
  assert (fresh_msg m') as Hm' by by apply bounded_fresh.
  assert (exists blocked st1, match guardCreate opts with
      | None => (false, st)
      | Some g => let '(id, st) := bufferID lim network t false st in (g (bool_decide (is_Some id)), st)
      end = (blocked, st1) /\ step_ok st st1) as (blocked & st1 & -> & Hst1 & Hbud).
  { destruct (guardCreate opts) as [g|]; [|by exists false, st].
    pose proof (bufferID_ok network t false st Hst) as H. destruct (bufferID lim network t false st) as [[i|] st1].
    - destruct H as (H1 & b & _ & [(_ & E1 & E2)|[? _]]); [|done]. eexists _, _. split; [done|]. split; [done|].
      by apply budget_ext.
    - destruct H as [-> _]. by eexists _, _. }
  destruct blocked; [done|]. pose proof (bufferAndRing_ok network t (create opts) st1 Hst1) as H.
  destruct (bufferAndRing lim network t (create opts) st1) as [[id|] st2]; [|by destruct H as [-> _]].
  destruct H as (Hst2 & b & (Hb & _) & _ & Hcase).
  destruct (commit_ok id b m' (unarchive opts) st2 Hst2 Hb Hm') as [H1 H2].
  destruct (commitAppendLocked lim id m' (unarchive opts) st2) as [res st3]. split; [done|].
  intros H0. apply H2. destruct Hcase as [[_ H]|[_ H]]; [left; auto|by right].
Qed.

Lemma newest_elem l m : newest l = Some m -> m ∈ l.
Proof.
  revert m. induction l as [|x l IH]; intros m; simpl; [done|]. destruct (newest l) as [k|] eqn:E.
  - destruct (ID k <? ID x); intros [= <-]; [by left|]. right. by apply IH.
  - intros [= <-]. by left.
Qed.

Lemma redactable_spec msgid d m0 :
  redactable msgid d = Some m0 -> m0 ∈ d /\ MsgID m0 = msgid /\ msgid <> [] /\ Redacted m0 = false.
Proof.
  intros H%newest_elem%list_elem_of_In%List.filter_In. destruct H as [Hin Hp].
  apply andb_true_iff in Hp as [[H1 H2]%andb_true_iff H3].
  apply negb_true_iff in H1, H3. apply bool_decide_eq_false in H1. apply bool_decide_eq_true in H2.
  split; [by apply list_elem_of_In|]. by subst.
Qed.

(** A row update mirrored in the ring when it is resident. *)
Lemma mirror_ok id b b' f st :
  store_ok lim st -> db st !! id = Some b -> key b' = key b -> table_ok (table b') -> keeps_max f ->
  (forall r, cached (table b) r -> cached (table b') (f r)) ->
  let st1 := set_db (<[id := b']> (db st)) st in
  step_ok st (match rings st1 !! id with
              | Some _ => evictRings lim id (touchRing id (update_ring id f st1))
              | None => st1
              end).
Proof.
  intros Hst Hb Hk Hd Hm Hf st1. pose proof (update_both_ok st id b b' f Hst Hb Hk Hd Hm Hf) as H.
  fold st1 in H. destruct (rings st1 !! id) as [ru|] eqn:E.
  - destruct (settle_ok id _ H) as (H1 & H2 & _). done.
  - unfold update_ring in H. rewrite E in H. done.
Qed.

Lemma redacted_ok network target msgid reason st :
  store_ok lim st -> step_ok st (SetRedacted lim network target msgid reason st).2.
Proof.
  intros Hst. unfold SetRedacted. destruct_if as Hempty; [done|]. cbv zeta.
  pose proof (bufferID_ok network target false st Hst) as H. destruct (bufferID _ _ _ _ st) as [[id|] st1]; [|by destruct H as [-> _]].
  destruct H as (Hst1 & b & (Hb & _) & [(_ & E1 & E2)|[? _]]); [|done]. rewrite Hb.
  assert (step_ok st st1) as Hs by (split; [done|by apply budget_ext]).
  destruct (redactable _ _) as [m0|] eqn:Er; [|done]. apply redactable_spec in Er as (H1 & H2 & H3 & _). simpl.
  pose proof (ok_tables lim st1 Hst1 id b Hb) as Hd.
  edestruct (mirror_ok id b) as [G1 G2]; [done|done| | | | |split; [exact G1|intros ?; apply G2; by apply Hs]].
  - done.
  - by apply table_redact.
  - auto with store.
  - intros r Hr. apply cached_redact; try done. by destruct Hd.
Qed.

Lemma adopted_ok msg f st : store_ok lim st -> step_ok st (AdoptOwnMsgID lim msg f st).2.
Proof.
  intros Hst. unfold AdoptOwnMsgID. destruct_if as Hempty; [done|]. cbv zeta.
  set (t := match f with None => _ | Some _ => _ end). clearbody t.
  pose proof (bufferID_ok (oNetwork msg) t false st Hst) as H. destruct (bufferID _ _ _ _ st) as [[id|] st1]; [|by destruct H as [-> _]].
  destruct H as (Hst1 & b & (Hb & _) & [(_ & E1 & E2)|[? _]]); [|done]. rewrite Hb.
  assert (step_ok st st1) as Hs by (split; [done|by apply budget_ext]).
  destruct (existsb _ (table b)) eqn:Eseen; [done|]. destruct (head _) as [m0|]; [|done]. simpl.
  pose proof (ok_tables lim st1 Hst1 id b Hb) as Hd.
  edestruct (mirror_ok id b) as [G1 G2]; [done|done| | | | |split; [exact G1|intros ?; apply G2; by apply Hs]].
  - done.
  - by apply table_adopt.
  - auto with store.
  - intros r Hr. apply cached_adopt; [by destruct Hd as [(_ & ? & _) _]|done].
Qed.


Lemma before_ok network target c limit st :
  store_ok lim st -> (Before lim network target c limit st).2 = (bufferAndRing lim network target false st).2.
Proof.
  intros Hst. unfold Before.
  destruct (bufferAndRing lim network target false st) as [[id|] st']; [|done].
  destruct (rings st' !! id) as [[r u]|]; [|done]. destruct (db st' !! id); [|done].
  by destruct (pageBefore _ _ _) as [out []].
Qed.

Lemma after_ok network target c limit st :
  store_ok lim st -> (After lim network target c limit st).2 = (bufferAndRing lim network target false st).2.
Proof.
  intros Hst. unfold After. destruct (bufferAndRing lim network target false st) as [[id|] st']; [|done].
  destruct (rings st' !! id) as [[r u]|]; [|done]. destruct (db st' !! id); [|done].
  by destruct (pageAfter _ _ _) as [out []].
Qed.

(** Rows that change in nothing the rings see. *)
Lemma rows_ok st d :
  store_ok lim st ->
  (forall id, option_Forall2 (fun b c => key b = key c /\ table b = table c) (db st !! id) (d !! id)) ->
  step_ok st (set_db d st).
Proof.
  intros [Ht Hn Hr Hb Hc] Hd.
  assert (forall id c, d !! id = Some c -> exists b, db st !! id = Some b /\ key b = key c /\ table b = table c) as Hback.
  { intros id c Hid. specialize (Hd id). rewrite Hid in Hd. inversion Hd as [b c' H E E'|]; subst. by exists b. }
  assert (forall id b, db st !! id = Some b -> exists c, d !! id = Some c /\ key b = key c /\ table b = table c) as Hfwd.
  { intros id b Hid. specialize (Hd id). rewrite Hid in Hd. inversion Hd as [b' c H E E'|]; subst. by exists c. }
  split; [|by apply budget_ext]. split; simpl; try done.
  - intros id c Hid. destruct (Hback id c Hid) as (b & Hb' & _ & <-). by apply (Ht id).
  - intros i j x y Hx Hy Hxy. destruct (Hback i x Hx) as (x0 & Hx0 & Kx & _). destruct (Hback j y Hy) as (y0 & Hy0 & Ky & _).
    apply (Hn i j x0 y0 Hx0 Hy0). congruence.
  - intros id r u Hid. destruct (Hr id r u Hid) as (Hm & b & Hb' & Hok). destruct (Hfwd id b Hb') as (c & Hc' & _ & E).
    split; [done|]. exists c. by rewrite <- E.
  - intros k id Hid. destruct (Hc k id Hid) as (b & Hb' & <-). destruct (Hfwd id b Hb') as (c & Hc' & -> & _). by exists c.
Qed.

Lemma marker_ok now network target t st :
  store_ok lim st -> step_ok st (SetReadMarker lim now network target t st).
Proof.
  intros Hst. unfold SetReadMarker. pose proof (bufferID_ok network target false st Hst) as H.
  destruct (bufferID _ _ _ _ st) as [[id|] st1]; [|by destruct H as [-> _]].
  destruct H as (Hst1 & b & (Hb & _) & [(_ & E1 & E2)|[? _]]); [|done].
  edestruct rows_ok as [G1 G2]; [exact Hst1| |split; [exact G1|intros H; apply G2; by apply (budget_ext st)]].
  intros j. destruct (decide (j = id)) as [->|Hne].
  - rewrite lookup_alter_eq, Hb. simpl. by constructor.
  - rewrite lookup_alter_ne by done. destruct (db st1 !! j); by constructor.
Qed.

Lemma archive_ok network target f st : store_ok lim st -> step_ok st (ArchiveBufferFolded network target f st).2.
Proof.
  intros Hst. unfold ArchiveBufferFolded. cbv zeta. simpl. apply rows_ok; [done|]. intros id.
  rewrite lookup_fmap. destruct (db st !! id) as [b|]; simpl; constructor. by destruct_if as E.
Qed.

(** *** Retention *)

Lemma pruneByCount_lastn n d : sorted d -> 0 < n -> pruneByCount n d = lastn (Z.to_nat n) d.
Proof.
  intros Hs Hn. unfold pruneByCount, lastn. destruct (reverse d !! Z.to_nat (n - 1)) as [k|] eqn:E.
  - apply reverse_lookup_Some in E as [E Hlt].
    replace (length d - Z.to_nat n)%nat with (length d - S (Z.to_nat (n - 1)))%nat by lia.
    set (i := (length d - S (Z.to_nat (n - 1)))%nat) in *. rewrite (drop_S d k i E).
    assert (d = take i d ++ k :: drop (S i) d) as Ed by (by rewrite <- (drop_S d k i E), take_drop).
    rewrite Ed in Hs |- * at 1. generalize dependent (take i d). generalize (drop (S i) d). clear E. intros c a Hs Ed.
    assert (forall x, x ∈ a -> mlt x k) as Ha
      by (intros x Hx; apply (StronglySorted_app_1_elem_of mlt a (k :: c) x k Hs Hx); by left).
    apply StronglySorted_app_1_r, StronglySorted_cons in Hs as [Hc _]. rewrite Forall_forall in Hc.
    rewrite List.filter_app. cbn [List.filter].
    assert (List.filter (fun m => negb (cursorLess (CursorOf m) (CursorOf k))) a = []) as ->.
    { clear -Ha. induction a as [|x a IH]; [done|]. simpl. rewrite (Ha x) by by left. simpl. apply IH. intros y Hy. apply Ha. by right. }
    assert (forall x, x = k \/ x ∈ c -> cursorLess (CursorOf x) (CursorOf k) = false) as Hk.
    { intros x Hx. apply not_true_iff_false. rewrite cursorLess_spec. destruct Hx as [->|Hx]; [lia|].
      apply Hc in Hx. unfold mlt in Hx. rewrite cursorLess_spec in Hx. lia. }
    rewrite (Hk k) by by left. simpl. f_equal.
    assert (forall x, x ∈ c -> cursorLess (CursorOf x) (CursorOf k) = false) as Hk' by auto. clear -Hk'.
    induction c as [|x c IH]; [done|]. simpl. rewrite (Hk' x) by by left. simpl. f_equal. apply IH.
    intros y Hy. apply Hk'. by right.
  - apply lookup_ge_None in E. rewrite length_reverse in E. by replace (length d - Z.to_nat n)%nat with 0%nat by lia.
Qed.

Lemma sql_retain_sublist c n d : sql_retain c n d `sublist_of` d.
Proof.
  unfold sql_retain. set (d1 := if c >? 0 then _ else d).
  assert (d1 `sublist_of` d) as H by (unfold d1; destruct (c >? 0); [apply filter_sublist|done]).
  destruct (n >? 0); [|done]. unfold lastn. etransitivity; [apply drop_sublist|done].
Qed.

Lemma sum_bytes_nonneg l : 0 <= sum_bytes l.
Proof. unfold sum_bytes. induction l as [|m l IH]; simpl; [lia|]. pose proof (msgBytes_nonneg m). lia. Qed.

Lemma retain_shrinks c n r :
  bytes (applyRetention c n r) <= bytes r /\ (length (msgs (applyRetention c n r)) <= length (msgs r))%nat.
Proof.
  unfold applyRetention.
  assert (forall l b (dr : bool), exists l' b' dr',
    (if (n >? 0) && (len l >? n) then
      (dropFirst (Z.to_nat (len l - n)) l, b - sum_bytes (take (Z.to_nat (len l - n)) l), true)
     else (l, b, dr)) = (l', b', dr') /\ b' <= b /\ (length l' <= length l)%nat) as H2.
  { intros l b dr. destruct (_ && _); eexists _, _, _; (split; [reflexivity|]); [|lia].
    pose proof (sum_bytes_nonneg (take (Z.to_nat (len l - n)) l)). unfold dropFirst. rewrite length_drop. lia. }
  destruct (c >? 0).
  - set (i := Search _ _). destruct (0 <? i)%nat.
    + destruct (H2 (dropFirst i (msgs r)) (bytes r - sum_bytes (take i (msgs r))) true) as (l' & b' & dr' & -> & Hb & Hl).
      simpl. pose proof (sum_bytes_nonneg (take i (msgs r))). unfold dropFirst in Hl. rewrite length_drop in Hl. lia.
    + destruct (H2 (msgs r) (bytes r) false) as (l' & b' & dr' & -> & Hb & Hl). simpl. lia.
  - destruct (H2 (msgs r) (bytes r) false) as (l' & b' & dr' & -> & Hb & Hl). simpl. lia.
Qed.

Lemma ring_sum_fmap (g : ring -> ring) (m : gmap Z (ring * Z)) :
  ring_sum ((fun ru : ring * Z => (g ru.1, ru.2)) <$> m)
  = ring_sum m + map_fold (fun _ ru n => bytes (g ru.1) - bytes ru.1 + n) 0 m.
Proof.
  induction m as [|i x m Hi IH] using map_ind.
  { by rewrite fmap_empty, ring_sum_empty, map_fold_empty. }
  rewrite fmap_insert, !ring_sum_insert, map_fold_insert_L, IH; [simpl; lia|intros; lia|done|done|].
  by rewrite lookup_fmap, Hi.
Qed.

Lemma fold_le_0 (h : ring * Z -> Z) (m : gmap Z (ring * Z)) :
  (forall ru, h ru <= 0) -> map_fold (fun _ ru n => h ru + n) 0 m <= 0.
Proof.
  intros Hh. apply (map_fold_weak_ind (fun n _ => n <= 0)); [done|]. intros i x m' n _ H. specialize (Hh x). lia.
Qed.

Lemma reconcile_ok st c n T :
  store_ok lim st -> (forall d, sorted d -> T d = sql_retain c n d) ->
  step_ok st (reconcileRings c n (set_db ((fun b => set_table (T (table b)) b) <$> db st) st)).
Proof.
  intros Hst HT. unfold reconcileRings. destruct_if as Hz.
  { apply rows_ok; [done|]. intros id. rewrite lookup_fmap. destruct (db st !! id) as [b|] eqn:E; simpl; constructor.
    split; [done|]. simpl. rewrite HT by by destruct (ok_tables lim st Hst id b E) as [[? _] _].
    unfold sql_retain. apply andb_true_iff in Hz as [H1 H2].
    destruct (Z.gtb_spec c 0); [lia|]. by destruct (Z.gtb_spec n 0); [lia|]. }
  split.
  - destruct Hst as [Ht Hn Hr Hb Hc]. split; simpl.
    + intros id b' (b & <- & Hid)%lookup_fmap_Some. simpl. pose proof (Ht id b Hid) as Hd.
      rewrite HT by by destruct Hd as [[? _] _]. by apply (table_sublist (table b)); [apply sql_retain_sublist|].
    + intros i j x' y' (x & <- & Hx)%lookup_fmap_Some (y & <- & Hy)%lookup_fmap_Some. intros Hxy. by apply (Hn i j x y).
    + intros id r u ([r0 u0] & [= <- <-] & Hid)%lookup_fmap_Some. destruct (Hr id r0 u0 Hid) as (Hm & b & Hb' & Hok).
      split; [by rewrite retain_max|]. exists (set_table (T (table b)) b). rewrite lookup_fmap, Hb'. split; [done|]. simpl.
      pose proof (Ht id b Hb') as [[Hs _] _]. rewrite HT by done. destruct Hok as [Hok Hcl].
      split; [by apply retain_ok|by apply clean_retain].
    + by rewrite ring_sum_fmap, Hb.
    + intros k id Hid. destruct (Hc k id Hid) as (b & Hb' & <-). eexists. by rewrite lookup_fmap, Hb'.
  - intros [H|(id & ru & E & H)]; [left|right].
    + simpl. pose proof (fold_le_0 (fun ru => bytes (applyRetention c n ru.1) - bytes ru.1) (rings st)) as Hle.
      assert (forall ru : ring * Z, bytes (applyRetention c n ru.1) - bytes ru.1 <= 0) as Hru
        by (intros ru; pose proof (retain_shrinks c n ru.1); lia).
      specialize (Hle Hru). lia.
    + simpl. rewrite E, map_fmap_singleton. eexists _, _. split; [done|]. simpl.
      pose proof (retain_shrinks c n ru.1). lia.
Qed.

Lemma prune_ok now days maxPer st :
  store_ok lim st -> (0 < days -> 0 < now - days * 24 * 3600 * 1000) -> step_ok st (pruneOnce now days maxPer st).
Proof.
  intros Hst Hcut. unfold pruneOnce. set (cutoff := now - days * 24 * 3600 * 1000) in *.
  set (T := fun d => let d := if days >? 0 then pruneByAge cutoff d else d in if maxPer >? 0 then pruneByCount maxPer d else d).
  replace (if maxPer >? 0 then _ else _) with ((fun b => set_table (T (table b)) b) <$> db st).
  - apply reconcile_ok; [done|]. intros d Hs. unfold T, sql_retain.
    assert ((if (if days >? 0 then cutoff else 0) >? 0
             then List.filter (fun m => (if days >? 0 then cutoff else 0) <=? UnixMilli (Time m)) d else d)
            = if days >? 0 then pruneByAge cutoff d else d) as ->.
    { destruct (Z.gtb_spec days 0) as [Hd|Hd]; [|done]. destruct (Z.gtb_spec cutoff 0); [|specialize (Hcut Hd); lia].
      unfold pruneByAge. apply List.filter_ext. intros m. rewrite Z.ltb_antisym. by rewrite negb_involutive. }
    cbv zeta. set (d1 := if days >? 0 then _ else d).
    assert (sorted d1) as Hs1.
    { unfold d1. destruct (days >? 0); [|done]. by apply (sorted_sublist _ d); [apply filter_sublist|]. }
    destruct (Z.gtb_spec maxPer 0); [|done]. destruct (Z.gtb_spec maxPer 0); [|lia]. by apply pruneByCount_lastn.
  - unfold T. apply map_eq. intros id. destruct (days >? 0), (maxPer >? 0); simpl; rewrite ?lookup_fmap;
      destruct (db st !! id) as [[]|]; reflexivity.
Qed.

(** *** Closing *)

Lemma delete_ok network target f st : store_ok lim st -> step_ok st (DeleteBufferFolded lim network target f st).2.
Proof.
  intros Hst. unfold DeleteBufferFolded. cbv zeta. set (t := canonicalBufferLocked network target f st).
  pose proof (bufferID_ok network t false st Hst) as H. destruct (bufferID _ _ _ _ st) as [[id|] st1]; [|by destruct H as [-> _]].
  destruct H as (Hst1 & b & (Hb & Hk & _) & [(_ & E1 & E2)|[? _]]); [|done]. simpl.
  assert (budget_ok lim st -> budget_ok lim st1) as Hbud by (by apply budget_ext). clearbody t. clear E1 E2 Hst.
  destruct Hst1 as [Ht Hn Hr Hby Hc].
  assert (forall st', db st' = delete id (db st1) -> cache st' = delete (network, t) (cache st1) ->
    rings st' = delete id (rings st1) -> ringBytes st' = ring_sum (rings st') -> store_ok lim st') as Hmk.
  { intros st' Ed Ec Er Eb. split; rewrite ?Ed, ?Ec, ?Er; try done.
    - intros j c Hj. apply lookup_delete_Some in Hj as [_ Hj]. by apply (Ht j).
    - intros i j x y Hx Hy. apply lookup_delete_Some in Hx as [_ Hx]. apply lookup_delete_Some in Hy as [_ Hy]. by apply (Hn i j).
    - intros j r u Hj. apply lookup_delete_Some in Hj as [Hne Hj]. rewrite lookup_delete_ne by done. by apply (Hr j r u).
    - by rewrite <- Er.
    - intros k j Hj. apply lookup_delete_Some in Hj as [Hne Hj]. destruct (Hc k j Hj) as (c & Hcj & Ek).
      exists c. rewrite lookup_delete_ne; [done|]. congruence. }
  unfold dropRingLocked. simpl. destruct (rings st1 !! id) as [[r u]|] eqn:Er.
  - split; [apply Hmk; simpl; try done; rewrite Hby, (ring_sum_delete _ _ _ Er); simpl; lia|].
    intros [H|(i & ru & E & H)]%Hbud; [left; simpl|].
    + destruct (Hr id r u Er) as (_ & c & _ & (_ & _ & Eb & _) & _). pose proof (sum_bytes_nonneg (msgs r)). lia.
    + rewrite E in Er. apply lookup_singleton_Some in Er as [-> ->]. left. simpl.
      rewrite Hby, E. unfold ring_sum. rewrite map_fold_singleton. simpl. lia.
  - assert (delete id (rings st1) = rings st1) as Ed by by apply delete_id.
    split; [apply Hmk; simpl; [done|done|done|by rewrite Hby]|].
    intros H%Hbud. by apply (budget_ext st1).
Qed.

Lemma drop_all_ok st : store_ok lim st -> step_ok st (dropAllCachesLocked st).
Proof.
  intros [Ht Hn Hr Hb Hc]. split; [|left; simpl; lia]. by split.
Qed.

(** *** Runs *)

Definition legal (o : op) : Prop :=
  match o with
  | OpAppend _ _ _ m _ => fresh_msg m
  | OpPrune now days _ => 0 < days -> 0 < now - days * 24 * 3600 * 1000
  | _ => True
  end.

Lemma exec_ok o st : store_ok lim st -> legal o -> step_ok st (exec lim o st).
Proof.
  intros Hst Hl. destruct o; simpl in *.
  - by apply append_ok.
  - by apply redacted_ok.
  - by apply adopted_ok.
  - rewrite before_ok by done. by destruct (lookup_ring_ok network target st Hst) as (? & ? & _).
  - rewrite after_ok by done. by destruct (lookup_ring_ok network target st Hst) as (? & ? & _).
  - assert ((CursorForMsgID lim network target msgid st).2 = (bufferAndRing lim network target false st).2) as ->.
    { unfold CursorForMsgID. destruct (bufferAndRing lim network target false st) as [[id|] st']; [|done]. by destruct (db st' !! id). }
    by destruct (lookup_ring_ok network target st Hst) as (? & ? & _).
  - by apply marker_ok.
  - by apply prune_ok.
  - by apply delete_ok.
  - by apply archive_ok.
  - by apply drop_all_ok.
Qed.

Lemma run_ok ops st : store_ok lim st -> Forall legal ops -> step_ok st (run lim ops st).
Proof.
  revert st. induction ops as [|o ops IH]; intros st Hst Hl; [done|].
  apply Forall_cons in Hl as [Ho Hl]. destruct (exec_ok o st Hst Ho) as [H1 H2].
  destruct (IH _ H1 Hl) as [H3 H4]. split; [done|]. auto.
Qed.

Lemma reachable_ok ops : Forall legal ops -> store_ok lim (run lim ops emptyStore) /\ budget_ok lim (run lim ops emptyStore).
Proof.
  intros Hl. destruct (run_ok ops emptyStore empty_ok Hl) as [H1 H2]. split; [done|]. apply H2. by left.
Qed.

End Store.
