(* ===== verification/StoreSpec.v ===== *)
(** * The message store: what it promises

    Pages served from memory are the pages of the database, the memory budget
    holds, a redaction leaves nothing to serve, appends store each message
    once and in one buffer per folded name, retention keeps exactly the newest
    rows, and read markers only advance.  Also a run in which an append between
    the deletes and the reconciliation of a prune hides a row. *)

From S2P Require Import Prelude GoStrings GoUtf8 Ring RingProofs Store StoreProofs.

Lemma clampLimit_pos limit : 1 <= clampLimit limit.
Proof.
  unfold clampLimit, DefaultPageSize, MaxPageSize.
  destruct (Z.leb_spec limit 0); [lia|]. destruct (Z.gtb_spec limit 500); lia.
Qed.

Lemma rows_rows (l : list Message) : row <$> (row <$> l) = row <$> l.
Proof. rewrite <- list_fmap_compose. apply list_fmap_ext. intros i m _. apply row_row. Qed.

Section Spec.

Context (lim : limits) (Hsize : 1 <= ringSize lim) (Hbudget : 0 <= maxRingBytes lim).

(** ** Pages *)

(** The ring a page is read from, on a good store. *)
Lemma page_ring network target st :
  store_ok lim st ->
  match find_buffer network target st with
  | Some id => exists b st' r u, db st !! id = Some b /\ key b = (network, target) /\
      bufferAndRing lim network target false st = (Some id, st') /\
      store_ok lim st' /\ db st' !! id = Some b /\ rings st' !! id = Some (r, u) /\ table_ok (table b) /\ cached (table b) r
  | None => bufferAndRing lim network target false st = (None, st)
  end.
Proof.
  intros Hst. pose proof (find_buffer_spec network target st) as Hf.
  pose proof (bufferAndRing_ok lim Hsize Hbudget network target false st Hst) as H.
  destruct (bufferAndRing lim network target false st) as [[id'|] st'].
  - destruct H as (Hst' & b' & (Hb' & Hk' & _) & [[r u] Hr] & [[Edb _]|[? _]]); [|done].
    rewrite Edb in Hb'. destruct (find_buffer network target st) as [id|]; [|by destruct (Hf id' b')].
    destruct Hf as (b & Hb & Hk). assert (id' = id) as ->.
    { apply (ok_names lim st Hst id' id b' b); congruence. }
    exists b, st', r, u. destruct (ok_rings lim st' Hst' id r u Hr) as (_ & b2 & Hb2 & Hok).
    rewrite Edb in *. assert (b2 = b) as -> by congruence. pose proof (ok_tables lim st Hst id b Hb). done.
  - destruct H as [-> Habs]. destruct (find_buffer network target st) as [id|]; [|done].
    destruct Hf as (b & Hb & Hk). by destruct (Habs id b).
Qed.

Lemma before_sql network target c limit st :
  store_ok lim st ->
  match find_buffer network target st with
  | Some id => exists b, db st !! id = Some b /\
      row <$> (Before lim network target c limit st).1 = sql_before (table b) c (clampLimit limit) /\
      Forall clean (Before lim network target c limit st).1
  | None => (Before lim network target c limit st).1 = []
  end.
Proof.
  intros Hst. unfold Before. pose proof (page_ring network target st Hst) as H.
  destruct (find_buffer network target st) as [id|]; [|by rewrite H].
  destruct H as (b & st' & r & u & Hb & _ & -> & Hst' & Hb' & Hr & [Hd Hcd] & [Hok Hcr]). exists b. split; [done|].
  rewrite Hr, Hb'. pose proof (clampLimit_pos limit) as Hl. destruct (pageBefore r c (clampLimit limit)) as [out []] eqn:Ep; simpl.
  - split; [apply (before_sound (table b) r c); [by destruct Hd|done|done|done]|].
    unfold pageBefore in Ep. injection Ep as <- _. by apply Forall_drop, Forall_take.
  - unfold sql_before. split; [apply rows_rows|]. apply Forall_fmap.
    assert (Forall clean (lastn (Z.to_nat (clampLimit limit)) (List.filter (fun m => cursorLess (CursorOf m) c) (table b)))) as Hc.
    { apply Forall_drop. rewrite Forall_forall in *. intros x Hx. apply Hcd. eapply elem_of_sublist; [exact Hx|apply filter_sublist]. }
    eapply Forall_impl; [exact Hc|]. intros m Hm Hred. simpl in *. by destruct (Hm Hred).
Qed.

Lemma after_sql network target c limit st :
  store_ok lim st ->
  match find_buffer network target st with
  | Some id => exists b, db st !! id = Some b /\
      row <$> (After lim network target c limit st).1 = sql_after (table b) c (clampLimit limit) /\
      Forall clean (After lim network target c limit st).1
  | None => (After lim network target c limit st).1 = []
  end.
Proof.
  intros Hst. unfold After. pose proof (page_ring network target st Hst) as H.
  destruct (find_buffer network target st) as [id|]; [|by rewrite H].
  destruct H as (b & st' & r & u & Hb & _ & -> & Hst' & Hb' & Hr & [Hd Hcd] & [Hok Hcr]). exists b. split; [done|].
  rewrite Hr, Hb'. pose proof (clampLimit_pos limit) as Hl. destruct (pageAfter r c (clampLimit limit)) as [out []] eqn:Ep; simpl.
  - split; [apply (after_sound (table b) r c); [by destruct Hd|done|done|done]|].
    unfold pageAfter in Ep. injection Ep as <- _. by apply Forall_drop, Forall_take.
  - unfold sql_after. split; [apply rows_rows|]. apply Forall_fmap.
    assert (Forall clean (take (Z.to_nat (clampLimit limit)) (List.filter (fun m => cursorLess c (CursorOf m)) (table b)))) as Hc.
    { apply Forall_take. rewrite Forall_forall in *. intros x Hx. apply Hcd. eapply elem_of_sublist; [exact Hx|apply filter_sublist]. }
    eapply Forall_impl; [exact Hc|]. intros m Hm Hred. simpl in *. by destruct (Hm Hred).
Qed.


(** After every operation the running byte total is the sum of the resident
    rings' bytes, each of which is the sum over the ring's messages; no ring
    holds more than [ringSize] messages; and the total is within the budget
    unless a single message is all that is resident. *)
Theorem ring_budget_holds ops :
  Forall legal ops ->
  let st := run lim ops emptyStore in
  ringBytes st = map_fold (fun _ ru n => sum_bytes (msgs ru.1) + n) 0 (rings st) /\
  (forall id ru, rings st !! id = Some ru -> bytes ru.1 = sum_bytes (msgs ru.1) /\ len (msgs ru.1) <= ringSize lim) /\
  (ringBytes st <= maxRingBytes lim \/
   exists id ru, rings st = {[id := ru]} /\ (length (msgs ru.1) <= 1)%nat).
Proof.
  intros Hl st. destruct (reachable_ok lim Hsize Hbudget ops Hl) as [Hst Hb]. fold st in Hst, Hb.
  assert (forall id ru, rings st !! id = Some ru -> bytes ru.1 = sum_bytes (msgs ru.1) /\ len (msgs ru.1) <= ringSize lim) as Hr.
  { intros id [r u] Hr. destruct (ok_rings lim st Hst id r u Hr) as (<- & b & _ & (_ & H1 & H2 & _) & _). done. }
  split; [|done]. rewrite (ok_bytes lim st Hst). unfold ring_sum.
  revert Hr. generalize (rings st) as m. clear. intros m. induction m as [|i x m Hi IH] using map_ind; intros Hr.
  { by rewrite !map_fold_empty. }
  rewrite !map_fold_insert_L; [|intros; lia|done|intros; lia|done]. destruct (Hr i x) as [-> _]; [apply lookup_insert_eq|].
  rewrite IH; [done|]. intros id ru Hid. apply (Hr id). rewrite lookup_insert_ne; [done|congruence].
Qed.

(** ** Redaction *)

Lemma db_update_ring id f st : db (update_ring id f st) = db st.
Proof. unfold update_ring. by destruct (rings st !! id) as [[r u]|]. Qed.

Lemma db_evict_loop fuel keep st : db (evict_loop fuel lim keep st) = db st.
Proof.
  revert st. induction fuel as [|fuel IH]; intros st; [done|]. simpl. destruct (_ >? _); [|done].
  destruct (victim keep st) as [v|]; [|apply db_update_ring]. rewrite IH. unfold dropRingLocked.
  by destruct (rings st !! v) as [[r u]|].
Qed.

Lemma db_settle id st : db (evictRings lim id (touchRing id st)) = db st.
Proof. unfold evictRings. by rewrite db_evict_loop. Qed.

Lemma redacted_rows network target msgid reason st :
  store_ok lim st -> (SetRedacted lim network target msgid reason st).1 = true ->
  let st' := (SetRedacted lim network target msgid reason st).2 in
  exists id b, db st' !! id = Some b /\ key b = (network, target) /\
    forall y, y ∈ table b -> MsgID y = ClampMsgID msgid -> Redacted y = true.
Proof.
  intros Hst. unfold SetRedacted. destruct_if as Hempty; [done|]. cbv zeta.
  pose proof (bufferID_ok lim Hsize network target false st Hst) as H.
  destruct (bufferID _ _ _ _ st) as [[id|] st1]; [|done].
  destruct H as (Hst1 & b & (Hb & Hk & _) & _). rewrite Hb. unfold ClampMsgID.
  destruct (redactable _ (table b)) as [m0|] eqn:Er; [|done]. intros _. simpl.
  apply redactable_spec in Er as (H1 & H2 & H3 & _). destruct (ok_tables lim st1 Hst1 id b Hb) as [(_ & _ & Hu) _].
  eexists id, _. split; [destruct (rings st1 !! id); rewrite ?db_settle, ?db_update_ring; apply lookup_insert_eq|].
  split; [exact Hk|].
  simpl. intros y (x & -> & Hx)%list_elem_of_fmap. destruct (Z.eqb_spec (ID x) (ID m0)) as [|Hne]; [done|].
  intros E. destruct Hne. apply Hu; congruence.
Qed.

(** A served message mirrors a row of the table. *)
Lemma served_row (l k d : list Message) m :
  row <$> l = row <$> k -> k `sublist_of` d -> m ∈ l ->
  exists y, y ∈ d /\ MsgID y = MsgID m /\ Redacted y = Redacted m.
Proof.
  intros E HP Hm. apply (list_elem_of_fmap_2 row) in Hm. rewrite E in Hm.
  apply list_elem_of_fmap in Hm as (y & Ey & Hy). exists y. split; [by eapply elem_of_sublist|].
  split; [by apply (f_equal MsgID) in Ey|by apply (f_equal Redacted) in Ey].
Qed.

(** C26. Once a redaction has been applied, no page of the buffer (whether
    served from the ring or from the database) carries any content for that
    msgid: every copy is a tombstone with no raw line and no text. *)
Theorem redaction_leaves_no_content ops network target msgid reason c limit m :
  Forall legal ops ->
  let st := run lim ops emptyStore in
  (SetRedacted lim network target msgid reason st).1 = true ->
  let st' := (SetRedacted lim network target msgid reason st).2 in
  m ∈ (Before lim network target c limit st').1 ++ (After lim network target c limit st').1 ->
  MsgID m = ClampMsgID msgid -> Redacted m = true /\ Raw m = [] /\ Text m = [].
Proof.
  intros Hl st Hok st' Hm Hid. destruct (reachable_ok lim Hsize Hbudget ops Hl) as [Hst _]. fold st in Hst.
  destruct (redacted_ok lim Hsize Hbudget network target msgid reason st Hst) as [Hst' _]. fold st' in Hst'.
  destruct (redacted_rows network target msgid reason st Hst Hok) as (id & b & Hb & Hk & Hrows). fold st' in Hb.
  pose proof (find_buffer_spec network target st') as Hf.
  pose proof (before_sql network target c limit st' Hst') as HB. pose proof (after_sql network target c limit st' Hst') as HA.
  destruct (find_buffer network target st') as [id'|]; [|by destruct (Hf id b)].
  destruct Hf as (b0 & Hb0 & Hk0). assert (id' = id) as -> by (apply (ok_names lim st' Hst' id' id b0 b); congruence).
  destruct HB as (b1 & Hb1 & EB & CB). destruct HA as (b2 & Hb2 & EA & CA).
  assert (b1 = b) as -> by congruence. assert (b2 = b) as -> by congruence.
  rewrite Forall_forall in CB, CA. apply elem_of_app in Hm as [Hm|Hm].
  - destruct (served_row _ _ (table b) m EB) as (y & Hy & Ey & Er);
      [etransitivity; [apply drop_sublist|apply filter_sublist]|done|].
    assert (Redacted m = true) as Hred by (rewrite <- Er; apply Hrows; congruence). split; [done|]. by apply CB.
  - destruct (served_row _ _ (table b) m EA) as (y & Hy & Ey & Er);
      [etransitivity; [apply sublist_take|apply filter_sublist]|done|].
    assert (Redacted m = true) as Hred by (rewrite <- Er; apply Hrows; congruence). split; [done|]. by apply CA.
Qed.

(** ** Append *)

Lemma next_msg_pos st : 1 <= next_msg_id st.
Proof.
  unfold next_msg_id. assert (0 <= map_fold (fun _ b n => Z.max (max_id (table b)) n) 0 (db st)); [|lia].
  apply (map_fold_weak_ind (fun n _ => 0 <= n)); [done|]. intros. lia.
Qed.

(** A buffer without rows does not move the next id. *)
Lemma next_msg_empty st st' id b :
  db st !! id = None -> table b = [] -> db st' = <[id := b]> (db st) -> next_msg_id st' = next_msg_id st.
Proof.
  intros Hid Hb E. unfold next_msg_id. rewrite E, map_fold_insert_L by (intros; lia || done). rewrite Hb. cbn [max_id foldr].
  assert (0 <= map_fold (fun _ b n => Z.max (max_id (table b)) n) 0 (db st)); [|lia].
  apply (map_fold_weak_ind (fun n _ => 0 <= n)); [done|]. intros. lia.
Qed.

(** The effect of [append] on the rows. *)
Definition append_effect (now : Z) (m : Message) (opts : appendOpts) (st : Store) (msg : Message) (still : bool) (st' : Store) : Prop :=
  exists id b,
    (db st !! id = Some b \/
     (db st !! id = None /\ create opts = true /\ b = MkBuffer (Network msg) (Target msg) false None [])) /\
    key b = (Network msg, Target msg) /\
    msg = set_id (ID msg) (set_buffer (Network msg) (Target msg) (bounded now m)) /\
    duplicate (table b) msg = false /\ (forall x, x ∈ table b -> ID x <> ID msg) /\
    still = negb (unarchive opts) && archived b /\
    db st' = <[id := set_archived still (set_table (table_insert (stored msg) (table b)) b)]> (db st).

Lemma guard_db opts network target st :
  store_ok lim st ->
  exists blocked st1, match guardCreate opts with
    | None => (false, st)
    | Some g => let '(id, st) := bufferID lim network target false st in (g (bool_decide (is_Some id)), st)
    end = (blocked, st1) /\ store_ok lim st1 /\ db st1 = db st.
Proof.
  intros Hst. destruct (guardCreate opts) as [g|]; [|by exists false, st].
  pose proof (bufferID_ok lim Hsize network target false st Hst) as H.
  destruct (bufferID lim network target false st) as [[i|] st1]; eexists _, _; (split; [done|]); [|by destruct H as [-> _]].
  by destruct H as (? & b & _ & [(? & _)|[? _]]).
Qed.

Lemma commit_effect now network target m opts st id b st0 :
  db st !! id = Some b -> key b = (network, target) ->
  (db st = db st0 \/ (db st0 !! id = None /\ create opts = true /\ b = MkBuffer network target false None [] /\ db st = <[id := b]> (db st0))) ->
  let m' := set_buffer network target (bounded now m) in
  let '((msg, still), st') := commitAppendLocked lim id m' (unarchive opts) st in
  if ID msg =? 0 then db st' = db st0 else append_effect now m opts st0 msg still st'.
Proof.
  intros Hb Hk Hdb m'. unfold commitAppendLocked. rewrite Hb. destruct (duplicate (table b) m') eqn:Ed.
  { simpl. destruct Hdb as [|(_ & _ & -> & _)]; [done|]. unfold duplicate in Ed. simpl in Ed. by rewrite andb_false_r in Ed. }
  cbv zeta. simpl. pose proof (next_msg_pos st). destruct (Z.eqb_spec (next_msg_id st) 0); [lia|].
  exists id, b. split; [|split; [done|split; [done|split; [done|]]]].
  { destruct Hdb as [<-|(H1 & H2 & H3 & _)]; [by left|by right]. }
  split; [intros x Hx; by apply (next_msg_fresh st id b)|].
  split; [by destruct (unarchive opts)|].
  rewrite db_settle, db_update_ring. simpl. replace (if unarchive opts then false else archived b) with (negb (unarchive opts) && archived b) by by destruct (unarchive opts).
  destruct Hdb as [->|(_ & _ & _ & ->)]; [done|]. by rewrite insert_insert_eq.
Qed.

(** The name [append] resolves the target to, and whether its guard refuses. *)
Definition resolved_name (opts : appendOpts) (network target : gostring) (st : Store) : gostring :=
  let t := clampUTF8 target maxStoredFieldBytes in
  match fold opts with None => t | Some f => canonicalLocked network t (Some f) st end.
Definition vetoed (opts : appendOpts) (network t : gostring) (st : Store) : bool :=
  match guardCreate opts with
  | None => false
  | Some g => g (bool_decide (is_Some (bufferID lim network t false st).1))
  end.

Lemma append_cases now network target m opts st :
  store_ok lim st ->
  match append lim now network target m opts st with
  | (None, st') => (network = [] \/ target = []) /\ st' = st
  | (Some (msg, still), st') =>
      if ID msg =? 0 then db st' = db st
      else append_effect now m opts st msg still st' /\
           Network msg = network /\ Target msg = resolved_name opts network target st /\ vetoed opts network (Target msg) st = false /\
           ID msg = next_msg_id st
  end.
Proof.
  intros Hst. unfold append. destruct_if as Hempty.
  { split; [|done]. apply orb_true_iff in Hempty as [H|H]; apply bool_decide_eq_true in H; tauto. }
  cbv zeta. fold (resolved_name opts network target st). set (t := resolved_name opts network target st). clearbody t.
  destruct (guard_db opts network t st Hst) as (blocked & st1 & Eg & Hst1 & Edb).
  assert (blocked = vetoed opts network t st) as Ev.
  { unfold vetoed. destruct (guardCreate opts) as [g|]; [|by injection Eg]. destruct (bufferID lim network t false st). by injection Eg. }
  rewrite Eg. destruct blocked; [done|].
  pose proof (bufferAndRing_ok lim Hsize Hbudget network t (create opts) st1 Hst1) as H.
  destruct (bufferAndRing lim network t (create opts) st1) as [[id|] st2]; [|by destruct H as [-> _]].
  destruct H as (Hst2 & b & (Hb & Hk & Hres) & _ & Hcase).
  pose proof (commit_effect now network t m opts st2 id b st Hb Hk) as Hc. cbv zeta in Hc.
  assert (forall msg still st', commitAppendLocked lim id (set_buffer network t (bounded now m)) (unarchive opts) st2 = ((msg, still), st') ->
    ID msg <> 0 -> Network msg = network /\ Target msg = t /\ ID msg = next_msg_id st2) as Hn.
  { intros msg still st'. unfold commitAppendLocked. rewrite Hb. destruct (duplicate _ _); intros [= <- <- <-] Hid; [done|]. done. }
  assert (db st2 = db st \/ (db st !! id = None /\ create opts = true /\ b = MkBuffer network t false None [] /\ db st2 = <[id := b]> (db st))) as Hdb.
  { rewrite <- Edb. destruct Hcase as [[H _]|[Hcr _]]; [by left|]. destruct Hres as [H|(H1 & H2 & H3 & H4)]; [by left|by right]. }
  assert (next_msg_id st2 = next_msg_id st) as En.
  { destruct Hdb as [E|(H1 & _ & -> & E)]; [unfold next_msg_id; by rewrite E|]. by apply (next_msg_empty _ _ id (MkBuffer network t false None [])). }
  destruct (commitAppendLocked _ _ _ _ _) as [[msg still] st3].
  assert (if ID msg =? 0 then db st3 = db st else append_effect now m opts st msg still st3) as Hd.
  { by apply Hc. }
  destruct (Z.eqb_spec (ID msg) 0) as [|Hne]; [done|]. destruct (Hn _ _ _ eq_refl Hne) as (-> & -> & ->). by rewrite <- Ev.
Qed.


(** ** One buffer per folded name *)

Definition no_split (f : gostring -> gostring) (st : Store) : Prop :=
  forall i j b c, db st !! i = Some b -> db st !! j = Some c ->
    bNetwork b = bNetwork c -> f (bName b) = f (bName c) -> i = j.

(** Operations that create buffers resolve the target under [f]. *)
Definition folds (f : gostring -> gostring) (o : op) : Prop :=
  match o with
  | OpAppend _ _ _ _ opts => create opts = true -> fold opts = Some f
  | _ => True
  end.

Definition names_sub (st st' : Store) : Prop :=
  forall id b', db st' !! id = Some b' -> exists b, db st !! id = Some b /\ key b = key b'.

Lemma names_sub_db st st' : db st' = db st -> names_sub st st'.
Proof. intros E id b Hb. rewrite E in Hb. by exists b. Qed.

Lemma names_sub_insert st st' id b b' :
  db st !! id = Some b -> key b' = key b -> db st' = <[id := b']> (db st) -> names_sub st st'.
Proof.
  intros Hb Hk E j c Hc. rewrite E in Hc. apply lookup_insert_Some in Hc as [[<- <-]|[_ Hc]]; [by exists b|by exists c].
Qed.

Lemma no_split_sub f st st' : names_sub st st' -> no_split f st -> no_split f st'.
Proof.
  intros Hs H i j b' c' Hb Hc En Ef. destruct (Hs i b' Hb) as (b & Hb0 & Kb). destruct (Hs j c' Hc) as (c & Hc0 & Kc).
  unfold key in *. simplify_eq. apply (H i j b c Hb0 Hc0); congruence.
Qed.

(** What [bufferID] without creation leaves alone. *)
Lemma bufferID_db network target st :
  store_ok lim st ->
  let '(o, st') := bufferID lim network target false st in
  store_ok lim st' /\ db st' = db st /\ forall id, o = Some id -> exists b, db st !! id = Some b /\ key b = (network, target).
Proof.
  intros Hst. pose proof (bufferID_ok lim Hsize network target false st Hst) as H.
  destruct (bufferID lim network target false st) as [[id|] st1]; [|by destruct H as [-> _]].
  destruct H as (H1 & b & (Hb & Hk & _) & [(E & _)|[? _]]); [|done]. split; [done|]. split; [done|].
  intros i [= <-]. exists b. by rewrite <- E.
Qed.

Lemma redact_names network target msgid reason st :
  store_ok lim st -> names_sub st (SetRedacted lim network target msgid reason st).2.
Proof.
  intros Hst. unfold SetRedacted. destruct_if as E; [by apply names_sub_db|]. cbv zeta.
  pose proof (bufferID_db network target st Hst) as H. destruct (bufferID lim network target false st) as [[id|] st1].
  2: by apply names_sub_db; destruct H as (_ & ? & _).
  destruct H as (_ & Edb & Hid). destruct (Hid id eq_refl) as (b & Hb & _). rewrite Edb, Hb.
  destruct (redactable _ _) as [m0|]; [|by apply names_sub_db].
  apply (names_sub_insert st _ id b (set_table ((fun m => if ID m =? ID m0 then tombstone (clampUTF8 reason maxStoredFieldBytes) m else m) <$> table b) b) Hb eq_refl).
  simpl. destruct (rings st1 !! id); by rewrite ?db_settle, ?db_update_ring.
Qed.

Lemma adopt_names msg f st : store_ok lim st -> names_sub st (AdoptOwnMsgID lim msg f st).2.
Proof.
  intros Hst. unfold AdoptOwnMsgID. destruct_if as E; [by apply names_sub_db|]. cbv zeta.
  set (t := match f with None => _ | Some _ => _ end).
  pose proof (bufferID_db (oNetwork msg) t st Hst) as H. destruct (bufferID lim (oNetwork msg) t false st) as [[id|] st1].
  2: by apply names_sub_db; destruct H as (_ & ? & _).
  destruct H as (_ & Edb & Hid). destruct (Hid id eq_refl) as (b & Hb & _). rewrite Edb, Hb.
  destruct (existsb _ _); [by apply names_sub_db|]. destruct (head _) as [m0|]; [|by apply names_sub_db].
  apply (names_sub_insert st _ id b (set_table ((fun m => if ID m =? ID m0 then set_msgid (clampUTF8 (oMsgID msg) maxStoredFieldBytes) m else m) <$> table b) b) Hb eq_refl).
  simpl. destruct (rings st1 !! id); by rewrite ?db_settle, ?db_update_ring.
Qed.

Lemma marker_names now network target t st : store_ok lim st -> names_sub st (SetReadMarker lim now network target t st).
Proof.
  intros Hst. unfold SetReadMarker. pose proof (bufferID_db network target st Hst) as H.
  destruct (bufferID lim network target false st) as [[id|] st1]; [|by apply names_sub_db; destruct H as (_ & ? & _)].
  destruct H as (_ & Edb & _). intros j c Hc. simpl in Hc. rewrite Edb in Hc.
  apply lookup_alter_Some in Hc as [(<- & b & Hb & ->)|[_ Hc]]; [by exists b|by exists c].
Qed.

Lemma prune_names now days maxPer st : names_sub st (pruneOnce now days maxPer st).
Proof.
  assert (forall c n st, db (reconcileRings c n st) = db st) as Hr by (intros c n s; unfold reconcileRings; by destruct_if as E).
  intros id b Hb. unfold pruneOnce in Hb. rewrite Hr in Hb. simpl in Hb.
  destruct (days >? 0), (maxPer >? 0); rewrite ?lookup_fmap in Hb; destruct (db st !! id) as [c|]; try done;
    exists c; simpl in Hb; by simplify_eq.
Qed.

Lemma delete_names network target f st : store_ok lim st -> names_sub st (DeleteBufferFolded lim network target f st).2.
Proof.
  intros Hst. unfold DeleteBufferFolded. cbv zeta. set (t := canonicalBufferLocked _ _ _ _).
  pose proof (bufferID_db network t st Hst) as H. destruct (bufferID lim network t false st) as [[id|] st1].
  2: by apply names_sub_db; destruct H as (_ & ? & _).
  destruct H as (_ & Edb & _). intros j c Hc. simpl in Hc. unfold dropRingLocked in Hc. simpl in Hc.
  assert (delete id (db st1) !! j = Some c) as Hd by (by destruct (rings st1 !! id) as [[r u]|]).
  apply lookup_delete_Some in Hd as [_ Hd]. exists c. by rewrite <- Edb.
Qed.

Lemma archive_names network target f st : names_sub st (ArchiveBufferFolded network target f st).2.
Proof.
  intros id c Hc. unfold ArchiveBufferFolded in Hc. simpl in Hc. rewrite lookup_fmap in Hc.
  destruct (db st !! id) as [b|]; [|done]. exists b. split; [done|]. simpl in Hc. injection Hc as <-. by destruct_if as E.
Qed.

(** A name [canonicalLocked] resolved and that is absent is absent under the
    fold too. *)
Lemma canonical_absent f network target st :
  store_ok lim st -> absent network (canonicalLocked network target (Some f) st) st ->
  forall j c, db st !! j = Some c -> bNetwork c = network -> f (bName c) <> f (canonicalLocked network target (Some f) st).
Proof.
  intros Hst. unfold canonicalLocked. destruct (cache st !! (network, target)) as [id|] eqn:Ec.
  { intros Habs. destruct (ok_cache lim st Hst _ _ Ec) as (b & Hb & Hk). by destruct (Habs id b Hb). }
  unfold fold_scan.
  pose proof (head_filter (fun e : Z * Buffer => (bNetwork e.2 == network) && (f (bName e.2) == f target)) (map_to_list (db st))) as H.
  destruct (head _) as [[id b]|]; simpl; intros Habs j c Hc En Ef.
  - destruct H as [Hin Hp]. apply elem_of_map_to_list in Hin. apply andb_true_iff in Hp as [Hn _].
    apply bool_decide_eq_true in Hn. simpl in Hn. apply (Habs id b Hin). unfold key. by rewrite Hn.
  - apply elem_of_map_to_list, H in Hc. simpl in Hc. by rewrite (bool_decide_eq_true_2 _ En), (bool_decide_eq_true_2 _ Ef) in Hc.
Qed.

Lemma commit_names id b m un st : db st !! id = Some b -> names_sub st (commitAppendLocked lim id m un st).2.
Proof.
  intros Hb. unfold commitAppendLocked. rewrite Hb. destruct (duplicate _ _); [by apply names_sub_db|].
  eapply (names_sub_insert st _ id b _ Hb); [|cbv zeta; simpl; rewrite db_settle, db_update_ring; reflexivity]. done.
Qed.

Lemma append_no_split f now network target m opts st :
  store_ok lim st -> (create opts = true -> fold opts = Some f) -> no_split f st ->
  no_split f (append lim now network target m opts st).2.
Proof.
  intros Hst Hf Hns. unfold append. destruct_if as Hempty; [done|]. cbv zeta.
  set (t := match fold opts with None => _ | Some _ => _ end).
  destruct (guard_db opts network t st Hst) as (blocked & st1 & -> & Hst1 & Edb).
  assert (no_split f st1) as Hns1 by (by apply (no_split_sub f st), Hns; apply names_sub_db). destruct blocked; [done|].
  pose proof (bufferAndRing_ok lim Hsize Hbudget network t (create opts) st1 Hst1) as H.
  destruct (bufferAndRing lim network t (create opts) st1) as [[id|] st2]; [|by destruct H as [-> _]].
  destruct H as (Hst2 & b & (Hb & Hk & Hres) & _ & Hcase).
  assert (no_split f st2) as Hns2.
  { destruct Hcase as [[E _]|[Hcr _]]; [by apply (no_split_sub f st1), Hns1; apply names_sub_db|].
    destruct Hres as [E|(H1 & H2 & H3 & H4)]; [by apply (no_split_sub f st1), Hns1; apply names_sub_db|].
    assert (forall j c, db st !! j = Some c -> bNetwork c = network -> f (bName c) <> f t) as Hnew.
    { unfold t. rewrite (Hf Hcr). apply canonical_absent; [done|]. intros j c Hc. rewrite <- Edb in Hc.
      apply (H2 j c) in Hc. unfold t in Hc. by rewrite (Hf Hcr) in Hc. }
    intros i j x y Hx Hy En Ef. rewrite H4, Edb in Hx, Hy.
    apply lookup_insert_Some in Hx as [[<- <-]|[Hi Hx]]; apply lookup_insert_Some in Hy as [[<- <-]|[Hj Hy]]; [done|..].
    - destruct (Hnew j y Hy); [by rewrite H3 in En|by rewrite H3 in Ef].
    - destruct (Hnew i x Hx); [by rewrite H3 in En|by rewrite H3 in Ef].
    - by apply (Hns i j x y). }
  pose proof (commit_names id b (set_buffer network t (bounded now m)) (unarchive opts) st2 Hb) as Hc.
  destruct (commitAppendLocked _ _ _ _ _) as [res st3]. by apply (no_split_sub f st2).
Qed.

Lemma exec_no_split f o st :
  store_ok lim st -> folds f o -> no_split f st -> no_split f (exec lim o st).
Proof.
  intros Hst Hf Hns. assert (forall st', names_sub st st' -> no_split f st') as Hsub by (intros; by apply (no_split_sub f st)).
  destruct o; simpl in *.
  - by apply append_no_split.
  - by apply Hsub, redact_names.
  - by apply Hsub, adopt_names.
  - apply Hsub, names_sub_db. rewrite before_ok by done. by destruct (lookup_ring_ok lim Hsize Hbudget network target st Hst) as (_ & _ & ?).
  - apply Hsub, names_sub_db. rewrite after_ok by done. by destruct (lookup_ring_ok lim Hsize Hbudget network target st Hst) as (_ & _ & ?).
  - apply Hsub, names_sub_db. destruct (lookup_ring_ok lim Hsize Hbudget network target st Hst) as (_ & _ & E).
    unfold CursorForMsgID. destruct (bufferAndRing lim network target false st) as [[id|] st']; [|done]. by destruct (db st' !! id).
  - by apply Hsub, marker_names.
  - apply Hsub, prune_names.
  - by apply Hsub, delete_names.
  - apply Hsub, archive_names.
  - by apply Hsub, names_sub_db.
Qed.

(** If every append that may create a buffer resolves its target under the
    network's casemapping [f], no network ever has two buffers whose names fold
    to the same key, whatever the spellings that arrive and however operations
    interleave. *)
Theorem folded_buffers_never_split f ops :
  Forall legal ops -> Forall (folds f) ops ->
  forall i j b c, let st := run lim ops emptyStore in
    db st !! i = Some b -> db st !! j = Some c ->
    bNetwork b = bNetwork c -> f (bName b) = f (bName c) -> i = j.
Proof.
  intros Hl Hf. assert (forall st, store_ok lim st -> no_split f st -> no_split f (run lim ops st)) as H.
  { induction ops as [|o ops IH]; intros st Hst Hns; [done|].
    apply Forall_cons in Hl as [Hl Hls]. apply Forall_cons in Hf as [Hf Hfs].
    destruct (exec_ok lim Hsize Hbudget o st Hst Hl) as [H1 _].
    apply (IH Hls Hfs); [done|]. by apply exec_no_split. }
  apply (H emptyStore); [apply empty_ok|done].
Qed.

(** ** Retention and markers *)

(** A prune with no other operation in between leaves each buffer exactly
    its newest [maxPer] rows among those not older than the age cutoff (each
    bound only when configured), removes no buffer, and changes nothing else of
    a buffer. *)
Theorem prune_keeps_newest ops now days maxPer :
  Forall legal ops ->
  let st := run lim ops emptyStore in
  let cutoff := now - days * 24 * 3600 * 1000 in
  let keep d :=
    let recent := if days >? 0 then List.filter (fun m => cutoff <=? UnixMilli (Time m)) d else d in
    if maxPer >? 0 then lastn (Z.to_nat maxPer) recent else recent in
  db (pruneOnce now days maxPer st) = (fun b => set_table (keep (table b)) b) <$> db st.
Proof.
  intros Hl st cutoff keep. destruct (reachable_ok lim Hsize Hbudget ops Hl) as [Hst _]. fold st in Hst. clearbody st.
  assert (forall c n st, db (reconcileRings c n st) = db st) as Hr by (intros c n s; unfold reconcileRings; by destruct_if as E).
  unfold pruneOnce. rewrite Hr. simpl. fold cutoff.
  assert (forall d, pruneByAge cutoff d = List.filter (fun m => cutoff <=? UnixMilli (Time m)) d) as Ha.
  { intros d. unfold pruneByAge. apply List.filter_ext. intros m. rewrite Z.ltb_antisym. by rewrite negb_involutive. }
  apply map_eq. intros id. rewrite lookup_fmap. destruct (db st !! id) as [b|] eqn:Eb.
  - destruct (ok_tables lim st Hst id b Eb) as [[Hs _] _]. unfold keep. cbv zeta.
    destruct (Z.gtb_spec days 0), (Z.gtb_spec maxPer 0); rewrite ?lookup_fmap, Eb; simpl; rewrite ?Ha; rewrite ?pruneByCount_lastn; try done.
    + apply (sorted_sublist _ (table b)); [apply filter_sublist|done].
    + by destruct b.
  - destruct (days >? 0), (maxPer >? 0); by rewrite ?lookup_fmap, Eb.
Qed.

(** A read marker never moves back and never past five minutes from now:
    setting it yields the later of the old marker and the clamped time, and
    only for a buffer that exists. *)
Theorem read_marker_advances ops now network target t :
  Forall legal ops ->
  let st := run lim ops emptyStore in
  match find_buffer network target st with
  | None => db (SetReadMarker lim now network target t st) = db st
  | Some id => exists b ts, db st !! id = Some b /\
      db (SetReadMarker lim now network target t st) = <[id := set_marker ts b]> (db st) /\
      (forall old, marker b = Some old -> old <= ts) /\
      (Z.min t (now + markerSkewMs) <= ts) /\
      (ts <= now + markerSkewMs \/ marker b = Some ts)
  end.
Proof.
  intros Hl st. destruct (reachable_ok lim Hsize Hbudget ops Hl) as [Hst _]. fold st in Hst. clearbody st.
  pose proof (find_buffer_spec network target st) as Hf. pose proof (bufferID_ok lim Hsize network target false st Hst) as H.
  unfold SetReadMarker. destruct (bufferID lim network target false st) as [[id'|] st1].
  - destruct H as (_ & b' & (Hb' & Hk' & _) & [(Edb & _)|[? _]]); [|done]. rewrite Edb in Hb' |- *.
    destruct (find_buffer network target st) as [id|]; [|by destruct (Hf id' b')].
    destruct Hf as (b & Hb & Hk). assert (id' = id) as -> by (apply (ok_names lim st Hst id' id b' b); congruence).
    eexists b, _. split; [done|]. split.
    + simpl. rewrite <- (insert_id (db st) id b Hb) at 1. by rewrite alter_insert_eq.
    + destruct (marker b) as [old|]; [split; [intros o [= <-]; lia|]|split; [done|]]; [|lia].
      split; [lia|]. destruct (Z.max_spec old (Z.min t (now + markerSkewMs))) as [[? ->]|[? ->]]; [left; lia|by right].
  - destruct H as [-> Habs]. destruct (find_buffer network target st) as [id|]; [|done].
    destruct Hf as (b & Hb & Hk). by destruct (Habs id b).
Qed.

End Spec.
