(* ===== verification/StoreRun.v ===== *)
(** * The message store: concrete runs

    A run over two buffers with tight limits, at which the theorems of
    [StoreSpec] are applied, and a schedule of the pruner with two appends
    after which a ring serves a page the database would not. *)

From S2P Require Import Prelude GoStrings GoUtf8 Ring RingProofs Store StoreProofs StoreSpec.

Definition line (ms : Z) (msgid text : gostring) : Message :=
  MkMsg 0 [] [] (ms * 1000000) msgid §"alice" §"PRIVMSG" (§":alice PRIVMSG " ++ text) text false [].

(** Two messages per ring; two rings of one message fit the budget. *)
Definition tight : limits := MkLimits 2 460.

(** ASCII case folding. *)
Definition lower : gostring -> gostring := map (fun c => let z := b2z c in if (65 <=? z) && (z <=? 90) then z2b (z + 32) else c).

Definition folded : appendOpts := MkOpts true (Some lower) None true.

Definition session : list op := [
  OpAppend 0 §"net" §"#Go" (line 1000 §"a" §"one") folded;
  OpAppend 0 §"net" §"#go" (line 3000 §"b" §"two") folded;
  OpAppend 0 §"net" §"#GO" (line 2000 §"c" §"three") folded;
  OpAppend 0 §"net" §"#go" (line 2000 §"c" §"three") folded;
  OpAppend 0 §"net" §"bob" (line 2500 [] §"mine") folded;
  OpAdopt (MkOwn §"net" §"bob" §"alice" §"mine" §"d" 0) (Some lower);
  OpArchive §"net" §"bob" None;
  OpBefore §"net" §"#Go" maxCursor 50;
  OpMarker 10000 §"net" §"#Go" 2000
].

Lemma session_legal : Forall legal session.
Proof. repeat constructor. Defined.

Lemma session_folds : Forall (folds lower) session.
Proof. repeat constructor. Defined.

Definition session_store : Store := Eval vm_compute in run tight session emptyStore.

(** Two buffers, the out-of-order and the repeated message handled, and the
    budget in force: at most one of the two rings is resident. *)
Example session_shape :
  size (db session_store) = 2%nat /\ size (rings session_store) = 1%nat /\
  (forall b, db session_store !! 1 = Some b -> (MsgID <$> table b) = [§"a"; §"c"; §"b"] /\ marker b = Some 2000) /\
  (forall b, db session_store !! 2 = Some b -> (MsgID <$> table b) = [§"d"] /\ archived b = true).
Proof. vm_compute. split_and!; try done; intros b [= <-]; done. Qed.


Lemma ring_budget_holds_witness :
  let st := run tight session emptyStore in
  ringBytes st = map_fold (fun _ ru n => sum_bytes (msgs ru.1) + n) 0 (rings st) /\
  (forall id ru, rings st !! id = Some ru -> bytes ru.1 = sum_bytes (msgs ru.1) /\ len (msgs ru.1) <= 2) /\
  (ringBytes st <= 460 \/ exists id ru, rings st = {[id := ru]} /\ (length (msgs ru.1) <= 1)%nat).
Proof. exact (ring_budget_holds tight ltac:(done) ltac:(done) session session_legal). Defined.

(** The newest message of the channel, tombstoned. *)
Lemma redaction_leaves_no_content_witness :
  let st := run tight session emptyStore in
  let st' := (SetRedacted tight §"net" §"#Go" §"b" §"spam" st).2 in
  let m := default zeroMsg (head (After tight §"net" §"#Go" (MkCursor 2500 0) 10 st').1) in
  ID m = 2 /\ Redacted m = true /\ Raw m = [] /\ Text m = [].
Proof.
  intros st st' m. split; [vm_compute; reflexivity|].
  apply (redaction_leaves_no_content tight ltac:(done) ltac:(done) session §"net" §"#Go" §"b" §"spam" (MkCursor 2500 0) 10 m session_legal).
  - vm_compute. reflexivity.
  - apply elem_of_app. right. vm_compute. left.
  - vm_compute. reflexivity.
Defined.


Lemma folded_buffers_never_split_witness :
  Forall (folds lower) session /\
  forall i j b c, db session_store !! i = Some b -> db session_store !! j = Some c ->
    bNetwork b = bNetwork c -> lower (bName b) = lower (bName c) -> i = j.
Proof.
  split; [exact session_folds|].
  replace session_store with (run tight session emptyStore) by (vm_compute; reflexivity).
  exact (folded_buffers_never_split tight ltac:(done) ltac:(done) lower session session_legal session_folds).
Defined.

Lemma prune_keeps_newest_witness :
  db (pruneOnce 90000000 1 1 (run tight session emptyStore))
  = (fun b => set_table (lastn 1 (List.filter (fun m => 3600000 <=? UnixMilli (Time m)) (table b))) b)
      <$> db (run tight session emptyStore).
Proof. exact (prune_keeps_newest tight ltac:(done) ltac:(done) session 90000000 1 1 session_legal). Defined.

Lemma read_marker_advances_witness :
  exists b ts, db (run tight session emptyStore) !! 1 = Some b /\
    db (SetReadMarker tight 3000 §"net" §"#Go" 1000 (run tight session emptyStore)) = <[1 := set_marker ts b]> (db (run tight session emptyStore)) /\
    (forall old, marker b = Some old -> old <= ts) /\ 1000 <= ts /\ (ts <= 303000 \/ marker b = Some ts).
Proof.
  pose proof (read_marker_advances tight ltac:(done) ltac:(done) session 3000 §"net" §"#Go" 1000 session_legal) as H.
  cbv zeta in H. replace (find_buffer §"net" §"#Go" (run tight session emptyStore)) with (Some 1) in H by (vm_compute; reflexivity).
  exact H.
Defined.

(** ** An append between a prune's deletes and its reconciliation *)

Definition roomy : limits := MkLimits 1000 maxHotRingBytes.

Definition history : Store :=
  (Append roomy 0 §"net" §"#c" (line 1000 §"old" §"x") emptyStore).2.

(** The pruner has deleted the rows older than 10 s and let go of the lock. *)
Definition deleted : Store :=
  set_db ((fun b => set_table (pruneByAge 10000 (table b)) b) <$> db history) history.

(** Backfill brings a row that is older than the cutoff; the pruner then trims
    the rings; backfill goes on with an older row. *)
Definition raced : Store :=
  let st := (Append roomy 0 §"net" §"#c" (line 9000 §"p" §"newer") deleted).2 in
  let st := reconcileRings 10000 0 st in
  (Append roomy 0 §"net" §"#c" (line 8000 §"q" §"older") st).2.

(** The row [p] is on disk, but a page after [q] is answered from the
    ring, without it: the ring was emptied and marked incomplete, and the next
    insert made it look like the newest suffix again. *)
Theorem prune_race_hides_row :
  let c := MkCursor 8000 3 in
  (After roomy §"net" §"#c" c 50 raced).1 = [] /\
  MsgID <$> sql_after (default [] (table <$> db raced !! 1)) c 50 = [§"p"].
Proof. vm_compute. split; reflexivity. Qed.
