(* ===== verification/Outbound.v ===== *)
(** * The send queue and the writer: internal/irc/manager.go

    What the manager does to a line on its way out: the length limits learned
    from ISUPPORT and from our own hostmask, UTF-8 scrubbing, the atomic
    enqueue of [sendAll] with the keys of outgoing JOINs, and the writer's last
    checks.  The interleaving of the writer with the goroutines that fill its
    three lanes is in [Writer]. *)

From S2P Require Import Prelude GoStrings GoUtf8 IrcMsg ISupport Roster.

(** ** strings.ToValidUTF8 *)

(** Each run of invalid bytes becomes one replacement. *)
Fixpoint to_valid_aux (invalid : bool) (rep : gostring) (l : list (Z * gostring)) : gostring :=
  match l with
  | [] => []
  | (r, bs) :: rest =>
      if (r =? RuneError) && (length bs =? 1)%nat
      then (if invalid then [] else rep) ++ to_valid_aux true rep rest
      else bs ++ to_valid_aux false rep rest
  end.
Definition ToValidUTF8 (s rep : gostring) : gostring := to_valid_aux false rep (chunks s).

Definition uFFFD : gostring := EncodeRune RuneError.

(** ** Limits *)

Definition lineLen (isup : isupport) : Z :=
  match Raw isup §"LINELEN" with
  | Some v => let n := (Atoi v).1 in if n >? defaultLineLen then n else defaultLineLen
  | None => defaultLineLen
  end.

Definition isupInt (isup : isupport) (name : gostring) (def : Z) : Z :=
  match Raw isup name with
  | Some v => let '(n, ok) := Atoi v in if ok && (n >? 0) then n else def
  | None => def
  end.

Record ownIdent := MkIdent { iUser : gostring; iHost : gostring }.

Definition fallbackUserLen : Z := 10.
Definition fallbackHostLen : Z := 63.

Definition ownPrefixLen (isup : isupport) (nick : gostring) (id : ownIdent) : Z :=
  let user := len (iUser id) in
  let host := len (iHost id) in
  let user := if user =? 0 then isupInt isup §"USERLEN" fallbackUserLen else user in
  let host := if host =? 0 then isupInt isup §"HOSTLEN" fallbackHostLen else host in
  len §":" + len nick + len §"!" + user + len §"@" + host + len §" ".

Section outbound.
Context `{IrcV4}.

Definition noteOwnIdent (isup : isupport) (nick : gostring) (m : Message) (cur : ownIdent) : ownIdent :=
  if Command m == §"396" then
    let host := Param m 1 in
    if (host != []) && FoldEqual isup (Param m 0) nick then MkIdent (iUser cur) (clampRoster host) else cur
  else
    match mPrefix m with
    | None => cur
    | Some p =>
        if (pUser p == []) || (pHost p == []) || negb (FoldEqual isup (pName p) nick) then cur
        else
          let '(user, host) :=
            if (Command m == §"CHGHOST") && (2 <=? len (Params m)) then (Param m 0, Param m 1) else (pUser p, pHost p) in
          MkIdent (clampRoster user) (clampRoster host)
    end.

Definition scrub_param (p : gostring) : gostring := if ValidString p then p else ToValidUTF8 p uFFFD.

Definition scrubUTF8 (isup : isupport) (msg : Message) : Message :=
  match Raw isup §"UTF8ONLY" with
  | None => msg
  | Some _ => {| Tags := Tags msg; mPrefix := mPrefix msg; Command := Command msg; Params := scrub_param <$> Params msg |}
  end.

(** ** sendAll *)

Inductive sendErr :=
  | SendLine (e : ircErr)
  | ErrNotConnected
  | ErrSendQueueFull.

#[global] Instance sendErr_eq_dec : EqDecision sendErr.
Proof. solve_decision. Defined.

Definition maxJoinedChannels : Z := 4096.
Definition maxChannelNameBytes : Z := maxRosterField.

(** The capacity of [Manager.out]. *)
Definition outCap : Z := 512.

Record Sender := MkSender {
  registered : bool;
  out : list Message;
  joinKeys : gmap gostring gostring
}.

(** One channel of an outgoing JOIN with its key, if the key list reaches. *)
Definition note_key (isup : isupport) (keys : list gostring) (jk : gmap gostring gostring) (ic : nat * gostring)
    : gmap gostring gostring :=
  let '(i, ch) := ic in
  if (ch == []) || negb (IsChannel isup ch) || (len ch >? maxChannelNameBytes) then jk
  else
    let key := match keys !! i with Some k => if validJoinKey k then k else [] | None => [] end in
    let folded := Fold isup ch in
    if bool_decide (jk !! folded = None) && (maxJoinedChannels <=? Z.of_nat (size jk)) then jk
    else <[folded := key]> jk.

Definition noteJoinKeys (isup : isupport) (msg : Message) (jk : gmap gostring gostring) : gmap gostring gostring :=
  if Command msg != §"JOIN" then jk
  else match Params msg with
  | [] => jk
  | p0 :: rest =>
      let keys := match rest with [] => [] | p1 :: _ => Split p1 x2c end in
      foldl (note_key isup keys) jk (imap pair (Split p0 x2c))
  end.

(** The checks of one message. *)
Definition check_out (isup : isupport) (prefix : Z) (msg : Message) : option ircErr :=
  match checkFraming msg with
  | Some e => Some e
  | None =>
      match checkLineLen (scrubUTF8 isup msg) (lineLen isup) with
      | Some e => Some e
      | None => if relayedCommand (Command msg) then checkRelayedLen (scrubUTF8 isup msg) (lineLen isup) prefix else None
      end
  end.

Fixpoint check_all (isup : isupport) (prefix : Z) (msgs : list Message) : option ircErr :=
  match msgs with
  | [] => None
  | m :: rest => match check_out isup prefix m with Some e => Some e | None => check_all isup prefix rest end
  end.

Definition sendAll (isup : isupport) (prefix : Z) (msgs : list Message) (s : Sender) : option sendErr * Sender :=
  match check_all isup prefix msgs with
  | Some e => (Some (SendLine e), s)
  | None =>
      if negb (registered s) then (Some ErrNotConnected, s)
      else if outCap - len (out s) <? len msgs then (Some ErrSendQueueFull, s)
      else (None, MkSender (registered s) (out s ++ msgs)
                    (foldl (fun jk m => if Command m == §"JOIN" then noteJoinKeys isup m jk else jk) (joinKeys s) msgs))
  end.

Definition Send (isup : isupport) (prefix : Z) (msg : Message) (s : Sender) : option sendErr * Sender :=
  sendAll isup prefix [msg] s.

Definition setRegistered (v : bool) (s : Sender) : Sender := MkSender v (out s) (joinKeys s).
Definition drainSendQueue (s : Sender) : Sender := MkSender (registered s) [] (joinKeys s).

Definition ChannelKey (isup : isupport) (channel : gostring) (s : Sender) : gostring :=
  default [] (joinKeys s !! Fold isup channel).

(** ** The writer's last checks *)

(** A tainted line ends the connection, an over-length one is dropped, and
    anything else is written in its scrubbed form. *)
Definition writeOne (isup : isupport) (m : Message) : ircErr + option Message :=
  match checkFraming m with
  | Some e => inl e
  | None =>
      let scrubbed := scrubUTF8 isup m in
      match checkLineLen scrubbed (lineLen isup) with
      | Some _ => inr None
      | None => inr (Some scrubbed)
      end
  end.

(** What the length of a rendered message is bounded by: the command, each
    parameter after a space, and the colon before the last one. *)
Definition params_len (ps : list gostring) : Z := foldr (fun p n => 1 + len p + n) 0 ps.

Class IrcV4Size `{IrcV4} : Prop := {
  MsgString_len m : Tags m = ∅ -> mPrefix m = None -> len (MsgString m) <= len (Command m) + params_len (Params m) + 1
}.

(** ** Lemmas *)

Lemma lineLen_floor isup : defaultLineLen <= lineLen isup.
Proof.
  unfold lineLen. destruct (Raw isup §"LINELEN") as [v|]; [|done].
  destruct (Z.gtb_spec (Atoi v).1 defaultLineLen); lia.
Qed.

Lemma check_all_spec isup prefix msgs :
  check_all isup prefix msgs = None <-> Forall (fun m => check_out isup prefix m = None) msgs.
Proof.
  induction msgs as [|m msgs IH]; simpl; [done|]. rewrite Forall_cons.
  destruct (check_out isup prefix m); [split; [done|by intros [? _]]|]. rewrite IH. tauto.
Qed.

(** What was accepted is written, not dropped and not fatal, as long as the
    limits have not changed. *)
Lemma check_out_written isup prefix m :
  check_out isup prefix m = None -> writeOne isup m = inr (Some (scrubUTF8 isup m)).
Proof.
  unfold check_out, writeOne. destruct (checkFraming m); [done|].
  by destruct (checkLineLen (scrubUTF8 isup m) (lineLen isup)).
Qed.

Lemma note_key_size isup keys jk ic :
  Z.of_nat (size jk) <= maxJoinedChannels -> Z.of_nat (size (note_key isup keys jk ic)) <= maxJoinedChannels.
Proof.
  intros Hs. unfold note_key. destruct ic as [i ch]. destruct_if as E1; [done|]. cbv zeta.
  set (key := match keys !! i with Some k => _ | None => _ end). destruct_if as E2; [done|].
  destruct (jk !! Fold isup ch) as [k|] eqn:Ek.
  - rewrite map_size_insert_Some by by eexists. done.
  - rewrite map_size_insert_None by done. rewrite (bool_decide_eq_true_2 _ eq_refl) in E2. simpl in E2. lia.
Qed.

Lemma noteJoinKeys_size isup msg jk :
  Z.of_nat (size jk) <= maxJoinedChannels -> Z.of_nat (size (noteJoinKeys isup msg jk)) <= maxJoinedChannels.
Proof.
  intros Hs. unfold noteJoinKeys. destruct_if as E; [done|]. destruct (Params msg) as [|p0 rest]; [done|].
  revert jk Hs. induction (imap pair (Split p0 x2c)) as [|ic l IH]; intros jk Hs; [done|].
  simpl. apply IH. by apply note_key_size.
Qed.

(** *** Scrubbing *)

Lemma to_valid_id b rep l :
  Forall (fun '(r, bs) => negb ((r =? RuneError) && (length bs =? 1)%nat) = true) l -> to_valid_aux b rep l = mjoin l.*2.
Proof.
  revert b. induction l as [|[r bs] l IH]; intros b; [done|]. intros [Hr Hl]%Forall_cons. simpl.
  apply negb_true_iff in Hr. rewrite Hr. by rewrite IH.
Qed.

(** Valid text is left alone. *)
Lemma ToValidUTF8_valid s rep : ValidString s = true -> ToValidUTF8 s rep = s.
Proof.
  intros Hv. unfold ToValidUTF8. rewrite to_valid_id; [apply chunks_concat|].
  unfold ValidString in Hv. rewrite forallb_forall in Hv. apply Forall_forall. intros [r bs] Hx.
  apply (Hv (r, bs)). by apply list_elem_of_In.
Qed.

Lemma to_valid_len b rep l :
  (length rep <= 3)%nat -> Forall (fun x : Z * gostring => (1 <= length x.2)%nat) l ->
  (length (to_valid_aux b rep l) <= 3 * length (mjoin l.*2))%nat.
Proof.
  intros Hr. revert b. induction l as [|[r bs] l IH]; intros b; [simpl; lia|]. intros [Hb Hl]%Forall_cons. simpl in Hb.
  change (mjoin ((r, bs) :: l).*2) with (bs ++ mjoin l.*2). cbn [to_valid_aux].
  rewrite length_app. destruct ((r =? RuneError) && (length bs =? 1)%nat); rewrite length_app.
  - specialize (IH true Hl). destruct b; cbn [length]; lia.
  - specialize (IH false Hl). lia.
Qed.

Lemma uFFFD_len : length uFFFD = 3%nat.
Proof. reflexivity. Qed.

Lemma fmap_eq_id (l : list gostring) (f : gostring -> gostring) : Forall (fun x => f x = x) l -> f <$> l = l.
Proof. induction 1 as [|x l E _ IH]; [done|]. by rewrite fmap_cons, E, IH. Qed.

(** Messages whose parameters are valid UTF-8 go out as they are. *)
Lemma scrubUTF8_valid isup msg : Forall (fun p => ValidString p = true) (Params msg) -> scrubUTF8 isup msg = msg.
Proof.
  intros Hv. unfold scrubUTF8. destruct (Raw isup §"UTF8ONLY"); [|done].
  rewrite fmap_eq_id; [by destruct msg|]. eapply Forall_impl; [exact Hv|].
  intros p Hp. unfold scrub_param. by rewrite Hp.
Qed.

Lemma ValidString_Join l sep :
  ValidString sep = true -> Forall (fun s => ValidString s = true) l -> ValidString (Join l sep) = true.
Proof.
  intros Hs. induction 1 as [|x l Hx Hl IH]; [done|]. destruct l as [|y l]; [done|].
  change (Join (x :: y :: l) sep) with (x ++ sep ++ Join (y :: l) sep). by rewrite !ValidString_app by done.
Qed.

Lemma Join_elem l sep c : c ∈ Join l sep -> c ∈ sep \/ exists x, x ∈ l /\ c ∈ x.
Proof.
  induction l as [|x l IH]; [by intros ?%elem_of_nil|]. destruct l as [|y l].
  - intros Hc. right. exists x. split; [by left|done].
  - change (Join (x :: y :: l) sep) with (x ++ sep ++ Join (y :: l) sep).
    intros [Hc|[Hc|Hc]%elem_of_app]%elem_of_app; [right; exists x; split; [by left|done]|by left|].
    destruct (IH Hc) as [|(z & Hz & ?)]; [by left|]. right. exists z. split; [by right|done].
Qed.

Lemma Join_len l sep k : Forall (fun s : gostring => len s <= k) l -> len (Join l sep) <= (k + len sep) * len l.
Proof.
  pose proof (len_nonneg sep). induction 1 as [|x l Hx Hl IH]; [unfold len; simpl; lia|].
  pose proof (len_nonneg x). pose proof (len_nonneg l). rewrite len_cons, Z.mul_add_distr_l, Z.mul_1_r. destruct l as [|y l].
  - simpl. rewrite len_nil. lia.
  - change (Join (x :: y :: l) sep) with (x ++ sep ++ Join (y :: l) sep). rewrite !len_app. lia.
Qed.

(** *** Accounting of the queue *)

Definition sender_ok (s : Sender) : Prop :=
  len (out s) <= outCap /\ Forall (fun m => checkFraming m = None) (out s) /\
  Z.of_nat (size (joinKeys s)) <= maxJoinedChannels.

Lemma check_out_framing isup prefix m : check_out isup prefix m = None -> checkFraming m = None.
Proof. unfold check_out. by destruct (checkFraming m). Qed.

Lemma sendAll_ok isup prefix msgs s : sender_ok s -> sender_ok (sendAll isup prefix msgs s).2.
Proof.
  intros (H1 & H2 & H3). unfold sendAll. destruct (check_all isup prefix msgs) eqn:Ec; [done|].
  destruct (registered s); [|done]. simpl. destruct_if as Ef; [done|]. split_and!; simpl.
  - rewrite len_app. lia.
  - apply Forall_app. split; [done|]. apply check_all_spec in Ec. eapply Forall_impl; [exact Ec|].
    intros m. apply check_out_framing.
  - clear -H3. revert H3. generalize (joinKeys s) as jk. induction msgs as [|m msgs IH]; intros jk H3; [done|].
    simpl. apply IH. destruct_if as E; [by apply noteJoinKeys_size|done].
Qed.

(** The queue holds all of a batch or none of it. *)
Lemma sendAll_cases isup prefix msgs s :
  match sendAll isup prefix msgs s with
  | (Some _, s') => s' = s
  | (None, s') => registered s = true /\ out s' = out s ++ msgs /\ registered s' = true /\
      len (out s') <= outCap /\ Forall (fun m => check_out isup prefix m = None) msgs
  end.
Proof.
  unfold sendAll. destruct (check_all isup prefix msgs) eqn:Ec; [done|].
  destruct (registered s) eqn:Er; [|done]. simpl. destruct_if as Ef; [done|]. simpl.
  split_and!; try done; [rewrite len_app; lia|by apply check_all_spec].
Qed.

Lemma sendAll_succeeds isup prefix msgs s :
  registered s = true -> Forall (fun m => check_out isup prefix m = None) msgs -> len msgs + len (out s) <= outCap ->
  (sendAll isup prefix msgs s).1 = None.
Proof.
  intros Hr Hc Hl. unfold sendAll. rewrite (proj2 (check_all_spec isup prefix msgs) Hc), Hr. cbn [negb].
  destruct (Z.ltb_spec (outCap - len (out s)) (len msgs)); [lia|done].
Qed.
End outbound.

Lemma ref_ircv4_size : @IrcV4Size ref_ircv4.
Proof.
  split. intros m _ _. unfold MsgString, ref_ircv4. rewrite len_app.
  set (f := fun (i : nat) (p : gostring) => _). cut (len (mjoin (imap f (Params m))) <= params_len (Params m) + 1); [lia|].
  assert (forall i p, len (f i p) <= len p + (if (S i =? length (Params m))%nat then 2 else 1)) as Hf.
  { intros i p. unfold f. destruct (S i =? length (Params m))%nat; cbn [andb]; [|unfold len; simpl; lia].
    destruct_if as E; rewrite len_app; unfold len; simpl; lia. }
  assert (forall (ps : list gostring) (g : nat -> gostring -> gostring) (k : nat), (forall i p, len (g i p) <= len p + (if (S i + k =? length (Params m))%nat then 2 else 1)) ->
    (k + length ps <= length (Params m))%nat ->
    len (mjoin (imap g ps)) <= params_len ps + (if (k + length ps =? length (Params m))%nat then 1 else 0)) as Hall.
  { clear f Hf. induction ps as [|p ps IH]; intros g k Hg Hk; [simpl; destruct_if as E; unfold len; simpl; lia|].
    cbn [imap]. change (mjoin (g 0%nat p :: imap (g ∘ S) ps)) with (g 0%nat p ++ mjoin (imap (g ∘ S) ps)). rewrite len_app.
    specialize (Hg 0%nat p) as Hg0. specialize (IH (g ∘ S) (S k)). cbn [params_len foldr length] in *.
    assert (forall i q, len ((g ∘ S) i q) <= len q + (if (S i + S k =? length (Params m))%nat then 2 else 1)) as Hg'.
    { intros i q. specialize (Hg (S i) q). simpl in *. by replace (i + S k)%nat with (S (i + k))%nat by lia. }
    specialize (IH Hg' ltac:(lia)). fold (params_len ps) in *.
    replace (k + S (length ps))%nat with (S k + length ps)%nat by lia.
    destruct (S k + length ps =? length (Params m))%nat eqn:E1; destruct (1 + k =? length (Params m))%nat eqn:E2; try lia.
    apply Nat.eqb_eq in E1, E2. destruct ps; [|cbn [length] in *; lia].
    change (len (mjoin (imap (g ∘ S) []))) with 0. change (params_len []) with 0. lia. }
  specialize (Hall (Params m) f 0%nat). rewrite Nat.add_0_l, Nat.eqb_refl in Hall. apply Hall; [|lia].
  intros i p. rewrite Nat.add_0_r. apply Hf.
Qed.
