(* ===== verification/Writer.v ===== *)
(** * One connection's writer and the goroutines that feed it

    [runOnce], [writeLoop] and [nextOutbound] of internal/irc/manager.go as a
    transition system: the read loop and the registration fill the urgent and
    the internal lane, any goroutine may call [sendAll], connections close and
    open, and the writer takes one message at a time through the three staged
    selects, which other goroutines may run between. *)

From S2P Require Import Prelude GoStrings GoUtf8 IrcMsg ISupport Roster Outbound.

(** What a dequeued message is: a PONG, handshake or keepalive traffic, a rejoin
    JOIN, or a message accepted by [sendAll] on connection [tag]. *)
Inductive origin := FromUrgent | FromInternal | FromRejoin | FromOut (tag : Z).

#[global] Instance origin_eq_dec : EqDecision origin.
Proof. solve_decision. Defined.

(** Which select the writer is about to run. *)
Inductive stage := Stage1 | Stage2 | Stage3.

#[global] Instance stage_eq_dec : EqDecision stage.
Proof. solve_decision. Defined.

Record conn := MkConn {
  gen : Z;                            (* monGen *)
  sender : Sender;
  tags : list Z;                      (* the connection each queued message was accepted on *)
  urgent : list Message;
  internal : list (origin * Message);
  pending : list Message;             (* rejoin JOINs not queued yet *)
  opened : bool;                      (* setRegistered(true) has run on this connection *)
  pc : stage;
  wire : list (origin * Message)      (* dequeued on this connection, oldest first *)
}.

Definition newConn (rejoins : list Message) (c : conn) : conn :=
  MkConn (gen c + 1) (drainSendQueue (sender c)) [] [] [] rejoins false Stage1 [].

Definition idle : conn := MkConn 0 (MkSender false [] ∅) [] [] [] [] false Stage1 [].

(** The writer takes [e]; the next select is the first. *)
Definition take_urgent (m : Message) (u : list Message) (c : conn) : conn :=
  MkConn (gen c) (sender c) (tags c) u (internal c) (pending c) (opened c) Stage1 (wire c ++ [(FromUrgent, m)]).
Definition take_internal (e : origin * Message) (i : list (origin * Message)) (c : conn) : conn :=
  MkConn (gen c) (sender c) (tags c) (urgent c) i (pending c) (opened c) Stage1 (wire c ++ [e]).
Definition take_out (m : Message) (o : list Message) (t : Z) (ts : list Z) (c : conn) : conn :=
  MkConn (gen c) (MkSender (registered (sender c)) o (joinKeys (sender c))) ts (urgent c) (internal c) (pending c)
    (opened c) Stage1 (wire c ++ [(FromOut t, m)]).

Definition set_pc (p : stage) (c : conn) : conn :=
  MkConn (gen c) (sender c) (tags c) (urgent c) (internal c) (pending c) (opened c) p (wire c).
Definition set_lanes (u : list Message) (i : list (origin * Message)) (p : list Message) (c : conn) : conn :=
  MkConn (gen c) (sender c) (tags c) u i p (opened c) (pc c) (wire c).
Definition set_sender (s : Sender) (ts : list Z) (o : bool) (c : conn) : conn :=
  MkConn (gen c) s ts (urgent c) (internal c) (pending c) o (pc c) (wire c).

Section writer.
Context `{IrcV4}.

Inductive step : conn -> conn -> Prop :=
  (* other goroutines *)
  | step_send isup prefix msgs s' c :
      sendAll isup prefix msgs (sender c) = (None, s') ->
      step c (set_sender s' (tags c ++ replicate (length msgs) (gen c)) (opened c) c)
  | step_urgent m c : step c (set_lanes (urgent c ++ [m]) (internal c) (pending c) c)
  | step_internal m c : step c (set_lanes (urgent c) (internal c ++ [(FromInternal, m)]) (pending c) c)
  | step_rejoin m ms c :
      pending c = m :: ms -> step c (set_lanes (urgent c) (internal c ++ [(FromRejoin, m)]) ms c)
  | step_registered c :
      pending c = [] -> step c (set_sender (setRegistered true (sender c)) (tags c) true c)
  | step_closed c : step c (set_sender (setRegistered false (sender c)) (tags c) (opened c) c)
  | step_connect rejoins c : registered (sender c) = false -> step c (newConn rejoins c)
  (* the writer *)
  | step_take_urgent m u c : urgent c = m :: u -> step c (take_urgent m u c)
  | step_take_internal e i c : pc c <> Stage1 -> internal c = e :: i -> step c (take_internal e i c)
  | step_take_out m o t ts c :
      pc c = Stage3 -> out (sender c) = m :: o -> tags c = t :: ts -> step c (take_out m o t ts c)
  | step_default1 c : pc c = Stage1 -> urgent c = [] -> step c (set_pc Stage2 c)
  | step_default2 c : pc c = Stage2 -> urgent c = [] -> internal c = [] -> step c (set_pc Stage3 c).

Definition steps : conn -> conn -> Prop := rtc step.
Definition reachable (c : conn) : Prop := steps idle c.

(** ** The invariant *)

Definition is_out (e : origin * Message) : bool := match e.1 with FromOut _ => true | _ => false end.
Definition outs (l : list (origin * Message)) : nat := length (List.filter is_out l).
Definition has_rejoin (l : list (origin * Message)) : Prop := exists m, (FromRejoin, m) ∈ l.

(** No user message before a rejoin, one excepted. *)
Definition rejoins_first (n : nat) (w : list (origin * Message)) : Prop :=
  forall a m b, w = a ++ (FromRejoin, m) :: b -> (outs a <= n)%nat.

Record conn_ok (c : conn) : Prop := {
  ok_sender : sender_ok (sender c);
  ok_tags : length (tags c) = length (out (sender c)) /\ Forall (fun t => t = gen c) (tags c);
  ok_wire : Forall (fun e => match e.1 with FromOut t => t = gen c /\ checkFraming e.2 = None | _ => True end) (wire c);
  ok_internal : Forall (fun e => is_out e = false) (internal c);
  ok_closed : opened c = false -> out (sender c) = [] /\ outs (wire c) = 0%nat /\ registered (sender c) = false;
  ok_opened : opened c = true -> pending c = [];
  ok_rejoin : has_rejoin (internal c) -> (outs (wire c) <= 1)%nat /\ (outs (wire c) = 1%nat -> pc c <> Stage3);
  ok_first : rejoins_first 1 (wire c)
}.

Lemma outs_app a b : outs (a ++ b) = (outs a + outs b)%nat.
Proof. unfold outs. by rewrite List.filter_app, length_app. Qed.

Lemma has_rejoin_nil : ~ has_rejoin [].
Proof. intros [m Hm]. by apply elem_of_nil in Hm. Qed.

Lemma rejoins_first_snoc n w e :
  rejoins_first n w -> (e.1 = FromRejoin -> (outs w <= n)%nat) -> rejoins_first n (w ++ [e]).
Proof.
  intros Hw He a m b E. destruct b as [|x b _] using rev_ind.
  - apply app_inj_tail in E as [-> ->]. by apply He.
  - assert (a ++ (FromRejoin, m) :: b ++ [x] = (a ++ (FromRejoin, m) :: b) ++ [x]) as Ea by by rewrite <- app_assoc.
    rewrite Ea in E. apply app_inj_tail in E as [-> <-]. by apply (Hw a m b).
Qed.

Lemma outs_snoc_other w e : is_out e = false -> outs (w ++ [e]) = outs w.
Proof. intros E. rewrite outs_app. unfold outs. simpl. rewrite E. simpl. lia. Qed.
Lemma outs_snoc_out w t m : outs (w ++ [(FromOut t, m)]) = S (outs w).
Proof. rewrite outs_app. unfold outs. simpl. lia. Qed.

Lemma idle_ok : conn_ok idle.
Proof.
  split; simpl; try done.
  - intros H'. by apply has_rejoin_nil in H'.
  - intros a m b E. by destruct a.
Qed.

(** *** The other goroutines *)

Lemma send_step_ok isup prefix msgs s' c :
  sendAll isup prefix msgs (sender c) = (None, s') -> conn_ok c ->
  conn_ok (set_sender s' (tags c ++ replicate (length msgs) (gen c)) (opened c) c).
Proof.
  intros E [H1 [H2 H2'] H3 H4 H5 H6 H7 H8].
  pose proof (sendAll_cases isup prefix msgs (sender c)) as Hc. pose proof (sendAll_ok isup prefix msgs (sender c) H1) as Hok.
  rewrite E in Hc, Hok. simpl in Hok. destruct Hc as (Hr & Ho & _ & _). split; simpl; try done.
  - rewrite Ho, !length_app, length_replicate, H2. split; [done|]. apply Forall_app. split; [done|].
    by apply Forall_replicate.
  - intros Hop. destruct (H5 Hop) as (_ & _ & ?). congruence.
Qed.

Lemma lane_step_ok c u i p :
  conn_ok c -> Forall (fun e => is_out e = false) i -> (opened c = true -> p = []) ->
  (has_rejoin i -> has_rejoin (internal c) \/ opened c = false) ->
  conn_ok (set_lanes u i p c).
Proof.
  intros [H1 H2 H3 H4 H5 H6 H7 H8] Hi Hp Hr. split; simpl; try done.
  intros Hri. destruct (Hr Hri) as [?|Hop]; [by apply H7|]. destruct (H5 Hop) as (_ & -> & _). split; [lia|done].
Qed.

Lemma rejoin_snoc l o m : has_rejoin (l ++ [(o, m)]) -> o <> FromRejoin -> has_rejoin l.
Proof.
  intros [x Hx] Ho. apply elem_of_app in Hx as [Hx|Hx]; [by exists x|].
  apply list_elem_of_singleton in Hx. simplify_eq.
Qed.

Lemma connect_ok rejoins c : registered (sender c) = false -> conn_ok c -> conn_ok (newConn rejoins c).
Proof.
  intros Hr [(H1 & H1' & H1'') _ _ _ _ _ _ _]. split; simpl; try done.
  - intros H'. by apply has_rejoin_nil in H'.
  - intros a m b E. by destruct a.
Qed.

(** *** The writer *)

Lemma take_urgent_ok m u c : conn_ok c -> conn_ok (take_urgent m u c).
Proof.
  intros [H1 H2 H3 H4 H5 H6 H7 H8]. split; simpl; rewrite ?outs_snoc_other by done; try done.
  - apply Forall_app. split; [done|]. by constructor.
  - intros Hr. destruct (H7 Hr). split; done.
  - by apply rejoins_first_snoc.
Qed.

Lemma take_internal_ok e i c : internal c = e :: i -> conn_ok c -> conn_ok (take_internal e i c).
Proof.
  intros Ei [H1 H2 H3 H4 H5 H6 H7 H8]. rewrite Ei in *. apply Forall_cons in H4 as [He Hi].
  split; simpl; rewrite ?outs_snoc_other by done; try done.
  - apply Forall_app. split; [done|]. constructor; [|done]. unfold is_out in He. by destruct e.1.
  - intros [m Hm]. destruct H7 as [H7 _]; [exists m; by right|]. split; done.
  - apply rejoins_first_snoc; [done|]. intros Ee. apply H7. exists e.2. destruct e as [o m]. simpl in Ee. subst o. by left.
Qed.

Lemma take_out_ok m o t ts c :
  pc c = Stage3 -> out (sender c) = m :: o -> tags c = t :: ts -> conn_ok c -> conn_ok (take_out m o t ts c).
Proof.
  intros Hpc Eo Et [(H1 & H1' & H1'') [H2 H2'] H3 H4 H5 H6 H7 H8]. rewrite Eo, Et in *.
  apply Forall_cons in H2' as [Ht Hts]. apply Forall_cons in H1' as [Hm Ho]. rewrite len_cons in H1.
  split; simpl; rewrite ?outs_snoc_out; try done.
  - split_and!; [simpl; lia|done|done].
  - split; [simpl in H2; lia|done].
  - apply Forall_app. split; [done|]. by constructor.
  - intros Hop. by destruct (H5 Hop) as (? & _).
  - intros Hr. destruct (H7 Hr) as [Hle Hne]. destruct (outs (wire c)) as [|[|]]; [split; [lia|done]|by destruct Hne|lia].
  - by apply rejoins_first_snoc.
Qed.

Lemma step_ok c c' : step c c' -> conn_ok c -> conn_ok c'.
Proof.
  intros Hs Hok. pose proof Hok as [Q1 Q2 Q3 H4 H5 H6 H7 H8].
  destruct Hs as [isup prefix msgs s' c Es|m c|m c|m ms c Ep|c Ep|c|rejoins c Er|m u c Eu|e i c Epc Ei|m o t ts c Epc Eo Et|c Epc Eu|c Epc Eu Ei].
  - by apply (send_step_ok isup prefix).
  - apply lane_step_ok; [done|done|done|tauto].
  - apply lane_step_ok; [done|apply Forall_app; split; [done|by constructor]|done|].
    intros Hr. left. by apply rejoin_snoc in Hr.
  - apply lane_step_ok; [done|apply Forall_app; split; [done|by constructor]| |].
    + intros Hop. rewrite (H6 Hop) in *. done.
    + intros _. right. destruct (opened c) eqn:E; [|done]. rewrite (H6 eq_refl) in *. done.
  - split; simpl; done.
  - split; simpl; try done. intros Hop. by destruct (H5 Hop) as (? & ? & _).
  - by apply connect_ok.
  - by apply take_urgent_ok.
  - by apply take_internal_ok.
  - by apply take_out_ok.
  - split; simpl; try done. intros Hr. destruct (H7 Hr). split; done.
  - split; simpl; try done. intros Hr. rewrite Ei in Hr. by apply has_rejoin_nil in Hr.
Qed.

Lemma conn_reachable_ok c : reachable c -> conn_ok c.
Proof.
  intros Hr. refine (rtc_ind_r (R := step) conn_ok idle idle_ok _ c Hr).
  intros x y _ Hs. by apply step_ok.
Qed.

(** ** Theorems *)

(** C33. Whatever the interleaving of senders, registration, disconnects and the
    writer: a user message that reaches the wire was accepted by [sendAll] on
    that very connection and passed the framing check (so it cannot be the line
    that tears the connection down), the queue never exceeds its capacity, and
    at most one user message leaves before the last of the rejoin JOINs. *)
Theorem writer_safe c :
  reachable c ->
  len (out (sender c)) <= outCap /\
  (forall t m, (FromOut t, m) ∈ wire c -> t = gen c /\ checkFraming m = None) /\
  (forall before m after, wire c = before ++ (FromRejoin, m) :: after -> (outs before <= 1)%nat).
Proof.
  intros Hr. destruct (conn_reachable_ok c Hr) as [(H1 & _) _ H3 _ _ _ _ H8]. split; [done|]. split; [|exact H8].
  intros t m Hm. rewrite Forall_forall in H3. exact (H3 _ Hm).
Qed.

End writer.

(** ** The one that may overtake *)

#[local] Existing Instance ref_ircv4.

Definition overtaken : list (origin * Message) :=
  [(FromOut 1, newMsg §"PRIVMSG" [§"#a"; §"hi"]); (FromRejoin, newMsg §"JOIN" [§"#a"])].

Definition demoJoin : Message := newMsg §"JOIN" [§"#a"].
Definition demoMsg : Message := newMsg §"PRIVMSG" [§"#a"; §"hi"].

Lemma overtaken_reachable : exists c, reachable c /\ wire c = overtaken.
Proof.
  eexists. split.
  - unfold reachable, steps.
    eapply rtc_l; [apply (step_connect [demoJoin]); reflexivity|].
    eapply rtc_l; [apply step_default1; reflexivity|].
    eapply rtc_l; [apply step_default2; reflexivity|].
    eapply rtc_l; [apply (step_rejoin demoJoin []); reflexivity|].
    eapply rtc_l; [apply step_registered; reflexivity|].
    eapply rtc_l; [apply (step_send newISupport 0 [demoMsg]); vm_compute; reflexivity|].
    eapply rtc_l; [apply (step_take_out demoMsg [] 1 []); vm_compute; reflexivity|].
    eapply rtc_l; [apply step_default1; reflexivity|].
    eapply rtc_l; [apply (step_take_internal (FromRejoin, demoJoin) []); [done|reflexivity]|].
    apply rtc_refl.
  - reflexivity.
Qed.

(** The JOINs are queued before the connection is exposed to senders, but
    that alone does not put them first on the wire: a writer that found its
    lanes empty in the second select and was preempted before the third chooses
    between a JOIN and a user message that have arrived since. *)
Theorem user_message_can_overtake_join : exists c, reachable c /\ wire c = overtaken.
Proof. exact overtaken_reachable. Qed.

Lemma writer_safe_witness :
  exists c, wire c = overtaken /\ len (out (sender c)) <= outCap /\
    (forall t m, (FromOut t, m) ∈ wire c -> t = gen c /\ checkFraming m = None) /\
    (forall before m after, wire c = before ++ (FromRejoin, m) :: after -> (outs before <= 1)%nat).
Proof.
  destruct overtaken_reachable as (c & Hc & E). exists c. split; [exact E|]. exact (writer_safe c Hc).
Defined.
