(* ===== verification/Monitor.v ===== *)
(** * The MONITOR list: internal/irc/manager.go

    The buddy list of one connection: validation and clamping of the wanted
    nicks, the incremental reconcile, the authoritative rebuild after
    ERR_MONLISTFULL (734), and the abstract MONITOR server they drive. *)

From S2P Require Import Prelude GoStrings GoUtf8 IrcMsg ISupport Roster Outbound.

(** ** Definitions *)

Definition maxReconcileTargets : Z := 1024.
Definition maxMonitorNickLen : Z := 48.

Definition ValidMonitorTarget (nick : gostring) : bool :=
  (nick != []) && (len nick <=? maxMonitorNickLen) && negb (ContainsAny nick [x20; x2c; x0d; x0a; x00]).

Definition monitorAdvertised (isup : isupport) : bool := bool_decide (is_Some (Raw isup §"MONITOR")).

Definition monitorLimit (isup : isupport) : Z :=
  match Raw isup §"MONITOR" with
  | Some v => let '(n, ok) := Atoi v in if ok then n else 0
  | None => 0
  end.

(** The loop takes at least one target per turn for [n >= 1]: the number of
    targets is fuel enough. *)
Fixpoint chunk_loop (fuel : nat) (targets : list gostring) (n : Z) : list (list gostring) :=
  match fuel with
  | O => []
  | S fuel' =>
      if 0 <? len targets then
        let e := if n >? len targets then len targets else n in
        slice_to targets e :: chunk_loop fuel' (slice_from targets e) n
      else []
  end.
Definition chunkTargets (targets : list gostring) (n : Z) : list (list gostring) :=
  chunk_loop (length targets) targets n.

(** The part of [Manager] guarded by [monActiveMu], all of it per connection. *)
Record Monitor := MkMonitor {
  monActive : gmap gostring gostring;   (* folded nick -> wire spelling *)
  monLimit734 : Z;
  monRebuildPending : bool;
  monRecovered734 : bool;
  monRecoveredCap : Z
}.

(** What [runOnce] resets on every connection. *)
Definition newMonitor : Monitor := MkMonitor ∅ 0 false false 0.

Definition effectiveMonitorLimitLocked (isup : isupport) (m : Monitor) : Z :=
  let lim := monitorLimit isup in
  if (monLimit734 m >? 0) && ((lim =? 0) || (monLimit734 m <? lim)) then monLimit734 m else lim.

Definition monitorTargetLimitLocked (isup : isupport) (m : Monitor) : Z :=
  let limit := effectiveMonitorLimitLocked isup m in
  if (limit <=? 0) || (limit >? maxReconcileTargets) then maxReconcileTargets else limit.

Fixpoint targets_loop (isup : isupport) (limit : Z) (targetSet : gset gostring) (targetOrder desired : list gostring)
    : gset gostring * list gostring :=
  match desired with
  | [] => (targetSet, targetOrder)
  | n :: rest =>
      if negb (ValidMonitorTarget n) then targets_loop isup limit targetSet targetOrder rest
      else
        let f := Fold isup n in
        if bool_decide (f ∈ targetSet) then targets_loop isup limit targetSet targetOrder rest
        else if limit <=? len targetOrder then (targetSet, targetOrder)
        else targets_loop isup limit ({[f]} ∪ targetSet) (targetOrder ++ [n]) rest
  end.
Definition monitorTargetsLocked (isup : isupport) (m : Monitor) (desired : list gostring) : gset gostring * list gostring :=
  targets_loop isup (monitorTargetLimitLocked isup m) ∅ [] desired.

Definition monitorMsgs (op : gostring) (targets : list gostring) : list Message :=
  (fun chunk => newMsg §"MONITOR" [op; Join chunk §","]) <$> chunkTargets targets 10.

Definition set_active (a : gmap gostring gostring) (m : Monitor) : Monitor :=
  MkMonitor a (monLimit734 m) (monRebuildPending m) (monRecovered734 m) (monRecoveredCap m).

(** [m.monActive[m.isup.Fold(n)] = n] for each of [ns]. *)
Definition activate (isup : isupport) (ns : list gostring) (a : gmap gostring gostring) : gmap gostring gostring :=
  foldl (fun a n => <[Fold isup n := n]> a) a ns.
Definition deactivate (fs : list gostring) (a : gmap gostring gostring) : gmap gostring gostring :=
  foldl (fun a f => delete f a) a fs.

Section monitor.
Context `{IrcV4}.
Variables (isup : isupport) (prefix : Z).

(** [iter] is the order in which Go's map iteration visits [monActive]. *)
Definition reconcileLocked (iter : list (gostring * gostring)) (desired : list gostring) (m : Monitor) (s : Sender)
    : option sendErr * Monitor * Sender :=
  let '(targetSet, targetOrder) := monitorTargetsLocked isup m desired in
  let removed := List.filter (fun fs => negb (bool_decide (fs.1 ∈ targetSet))) iter in
  let addWire := List.filter (fun n => bool_decide (monActive m !! Fold isup n = None)) targetOrder in
  if (len removed =? 0) && (len addWire =? 0) then (None, m, s)
  else
    let msgs := monitorMsgs §"-" removed.*2 ++ monitorMsgs §"+" addWire in
    match sendAll isup prefix msgs s with
    | (Some err, s') => (Some err, m, s')
    | (None, s') => (None, set_active (activate isup addWire (deactivate removed.*1 (monActive m))) m, s')
    end.

Definition rebuildMonitoredLocked (desired : list gostring) (m : Monitor) (s : Sender) : option sendErr * Monitor * Sender :=
  let '(_, targetOrder) := monitorTargetsLocked isup m desired in
  match sendAll isup prefix (newMsg §"MONITOR" [§"C"] :: monitorMsgs §"+" targetOrder) s with
  | (Some err, s') => (Some err, m, s')
  | (None, s') => (None, set_active (activate isup targetOrder ∅) m, s')
  end.

Definition completeMonitorRebuildLocked (desired : list gostring) (m : Monitor) (s : Sender)
    : option sendErr * Monitor * Sender :=
  match rebuildMonitoredLocked desired m s with
  | (Some err, m', s') => (Some err, m', s')
  | (None, m', s') =>
      (None, MkMonitor (monActive m') (monLimit734 m') false true (monitorTargetLimitLocked isup m'), s')
  end.

Definition ReconcileMonitored (iter : list (gostring * gostring)) (desired : list gostring) (m : Monitor) (s : Sender)
    : option sendErr * Monitor * Sender :=
  if negb (registered s) || negb (monitorAdvertised isup) then (None, m, s)
  else if monRebuildPending m then completeMonitorRebuildLocked desired m s
  else reconcileLocked iter desired m s.

(** The active nicks a 734 without a usable limit names, counted once each. *)
Fixpoint rejected_active (active : gmap gostring gostring) (seen : gset gostring) (nicks : list gostring) : Z :=
  match nicks with
  | [] => 0
  | n :: rest =>
      let f := Fold isup n in
      if bool_decide (is_Some (active !! f)) && negb (bool_decide (f ∈ seen))
      then 1 + rejected_active active ({[f]} ∪ seen) rest
      else rejected_active active seen rest
  end.

(** [gen] is the event's connection generation, [monGen] the manager's. *)
Definition MonitorRejected (nicks : list gostring) (limit gen monGen : Z) (desired : list gostring) (m : Monitor) (s : Sender)
    : option sendErr * Monitor * Sender :=
  if negb (gen =? monGen) then (None, m, s)
  else if monRecovered734 m && (limit <=? 0) then (None, m, s)
  else
    let learned := if limit <=? 0 then Z.of_nat (size (monActive m)) - rejected_active (monActive m) ∅ nicks else limit in
    let lim := if (learned >? 0) && ((monLimit734 m =? 0) || (learned <? monLimit734 m)) then learned else monLimit734 m in
    let m1 := MkMonitor (monActive m) lim (monRebuildPending m) (monRecovered734 m) (monRecoveredCap m) in
    if monRecovered734 m1 && (monRecoveredCap m1 <=? monitorTargetLimitLocked isup m1) then (None, m1, s)
    else completeMonitorRebuildLocked desired (MkMonitor (monActive m1) lim true (monRecovered734 m1) (monRecoveredCap m1)) s.
End monitor.

(** ** The server's side

    A MONITOR list with room for [cap] nicks, compared by the network's case
    folding: what the list holds and which additions it has refused. *)

Record mserver := MkServer { watched : gset gostring; refused : list gostring }.

Section server.
Variables (isup : isupport) (cap : Z).

Definition srv_add (sv : mserver) (n : gostring) : mserver :=
  let f := Fold isup n in
  if bool_decide (f ∈ watched sv) then sv
  else if cap <=? Z.of_nat (size (watched sv)) then MkServer (watched sv) (refused sv ++ [n])
  else MkServer ({[f]} ∪ watched sv) (refused sv).

Definition srv_del (sv : mserver) (n : gostring) : mserver :=
  MkServer (watched sv ∖ {[Fold isup n]}) (refused sv).

Definition srv_exec (sv : mserver) (m : Message) : mserver :=
  if Command m != §"MONITOR" then sv
  else match Params m with
  | [op; targets] =>
      if op == §"+" then foldl srv_add sv (Split targets x2c)
      else if op == §"-" then foldl srv_del sv (Split targets x2c)
      else sv
  | [op] => if op == §"C" then MkServer ∅ (refused sv) else sv
  | _ => sv
  end.

Definition folds (ns : list gostring) : gset gostring := list_to_set (Fold isup <$> ns).

(** ** Lemmas *)

Lemma chunk_loop_spec fuel l n :
  1 <= n -> (length l <= fuel)%nat ->
  mjoin (chunk_loop fuel l n) = l /\ Forall (fun c => c <> [] /\ len c <= n) (chunk_loop fuel l n).
Proof.
  intros Hn. revert l. induction fuel as [|fuel IH]; intros l Hl.
  { assert (l = []) as -> by (destruct l; [done|simpl in Hl; lia]). done. }
  cbn [chunk_loop]. destruct (Z.ltb_spec 0 (len l)) as [Hp|Hp].
  - cbv zeta. set (e := if n >? len l then len l else n).
    assert (1 <= e <= n /\ e <= len l) as [He1 He2] by (unfold e; destruct (Z.gtb_spec n (len l)); lia).
    destruct (IH (slice_from l e)) as [IH1 IH2].
    { pose proof (len_slice_from l e ltac:(lia)). unfold len in *. lia. }
    split.
    + transitivity (slice_to l e ++ slice_from l e); [|apply slice_cat].
      by change (slice_to l e ++ mjoin (chunk_loop fuel (slice_from l e) n) = slice_to l e ++ slice_from l e); rewrite IH1.
    + constructor; [|done]. pose proof (len_slice_to l e ltac:(lia)). split; [|lia].
      intros E. rewrite E, len_nil in *. lia.
  - pose proof (len_nonneg l). assert (l = []) as -> by (apply len_zero; lia). done.
Qed.

Lemma chunkTargets_spec l n :
  1 <= n -> mjoin (chunkTargets l n) = l /\ Forall (fun c => c <> [] /\ len c <= n) (chunkTargets l n).
Proof. intros Hn. by apply chunk_loop_spec. Qed.

Lemma chunkTargets_forall l n (P : gostring -> Prop) :
  1 <= n -> Forall P l -> Forall (Forall P) (chunkTargets l n).
Proof.
  intros Hn HP. destruct (chunkTargets_spec l n Hn) as [E _]. rewrite <- E in HP. clear E.
  induction (chunkTargets l n) as [|c cs IH]; [done|]. simpl in HP. apply Forall_app in HP as [Hc Hcs].
  constructor; [done|by apply IH].
Qed.

Lemma ValidMonitorTarget_spec n :
  ValidMonitorTarget n = true <->
  n <> [] /\ len n <= maxMonitorNickLen /\ (forall c, c ∈ n -> c ∉ [x20; x2c; x0d; x0a; x00]).
Proof.
  unfold ValidMonitorTarget. rewrite !andb_true_iff, Z.leb_le, !negb_true_iff, bool_decide_eq_false.
  split.
  - intros [[Hn Hl] Hc]. split_and!; [done..|]. intros c Hin Hbad. apply not_true_iff_false in Hc. apply Hc.
    unfold ContainsAny. apply existsb_exists. exists c. split; [by apply list_elem_of_In|by apply ContainsByte_spec].
  - intros (Hn & Hl & Hc). split_and!; [done..|]. apply not_true_iff_false. unfold ContainsAny.
    intros (c & Hin%list_elem_of_In & Hbad%ContainsByte_spec)%existsb_exists. by apply (Hc c).
Qed.

Lemma valid_no_comma n : ValidMonitorTarget n = true -> x2c ∉ n.
Proof. intros (_ & _ & Hc)%ValidMonitorTarget_spec Hin. apply (Hc _ Hin). set_solver. Qed.

(** *** Executing the commands *)

Lemma split_chunk c :
  c <> [] -> Forall (fun n => ValidMonitorTarget n = true) c -> Split (Join c §",") x2c = c.
Proof. intros Hne Hv. apply Split_Join; [done|]. eapply Forall_impl; [exact Hv|]. apply valid_no_comma. Qed.

Lemma exec_chunks (op : gostring) (step : mserver -> gostring -> mserver) l sv :
  (forall sv targets, srv_exec sv (newMsg §"MONITOR" [op; targets]) = foldl step sv (Split targets x2c)) ->
  Forall (fun n => ValidMonitorTarget n = true) l ->
  foldl srv_exec sv (monitorMsgs op l) = foldl step sv l.
Proof.
  intros Hop Hv. unfold monitorMsgs.
  destruct (chunkTargets_spec l 10 ltac:(lia)) as [E Hne].
  pose proof (chunkTargets_forall l 10 _ ltac:(lia) Hv) as Hvs. rewrite <- E at 2. clear E Hv. revert sv.
  induction (chunkTargets l 10) as [|c cs IH]; intros sv; [done|].
  apply Forall_cons in Hne as [[Hc _] Hne]. apply Forall_cons in Hvs as [Hvc Hvs].
  simpl. rewrite foldl_app, Hop, split_chunk by done. by apply IH.
Qed.

Lemma exec_add l sv :
  Forall (fun n => ValidMonitorTarget n = true) l -> foldl srv_exec sv (monitorMsgs §"+" l) = foldl srv_add sv l.
Proof. by apply exec_chunks. Qed.
Lemma exec_del l sv :
  Forall (fun n => ValidMonitorTarget n = true) l -> foldl srv_exec sv (monitorMsgs §"-" l) = foldl srv_del sv l.
Proof. by apply exec_chunks. Qed.

Lemma folds_cons n l : folds (n :: l) = {[Fold isup n]} ∪ folds l.
Proof. done. Qed.

Lemma dels_spec l sv : foldl srv_del sv l = MkServer (watched sv ∖ folds l) (refused sv).
Proof.
  revert sv. induction l as [|n l IH]; intros [w r]; simpl; [f_equal; set_solver|].
  rewrite IH, folds_cons. simpl. f_equal. set_solver.
Qed.

(** Room for all of them means none is refused. *)
Lemma adds_spec l sv :
  Z.of_nat (size (folds l ∪ watched sv)) <= cap ->
  foldl srv_add sv l = MkServer (folds l ∪ watched sv) (refused sv).
Proof.
  revert sv. induction l as [|n l IH]; intros [w r] Hs; cbn [watched refused] in *.
  - simpl. f_equal. set_solver.
  - rewrite folds_cons in Hs. simpl. unfold srv_add at 2. cbn [watched refused].
    assert (folds (n :: l) ∪ w = folds l ∪ ({[Fold isup n]} ∪ w)) as Eu by (rewrite folds_cons; set_solver).
    rewrite Eu. case_bool_decide as Hin.
    + assert ({[Fold isup n]} ∪ w = w) as -> by set_solver. apply IH. cbn [watched].
      etrans; [|exact Hs]. apply inj_le, subseteq_size. set_solver.
    + destruct (Z.leb_spec cap (Z.of_nat (size w))) as [Hfull|_].
      * exfalso. assert (size ({[Fold isup n]} ∪ w) = S (size w)) as Es.
        { rewrite size_union by set_solver. rewrite size_singleton. lia. }
        assert (size ({[Fold isup n]} ∪ w) <= size ({[Fold isup n]} ∪ folds l ∪ w))%nat by (apply subseteq_size; set_solver).
        lia.
      * apply IH. cbn [watched]. etrans; [|exact Hs]. apply inj_le, subseteq_size. set_solver.
Qed.
End server.
