(* ===== verification/MonitorProofs.v ===== *)
(** * The MONITOR list: what the server ends up watching *)

From S2P Require Import Prelude GoStrings GoUtf8 IrcMsg ISupport Roster Outbound Monitor.

Section targets.
Variable isup : isupport.

(** ** The wanted nicks *)

Definition targets_ok (limit : Z) (p : gset gostring * list gostring) : Prop :=
  p.1 = folds isup p.2 /\ NoDup (Fold isup <$> p.2) /\ len p.2 <= limit /\
  Forall (fun n => ValidMonitorTarget n = true) p.2.

Lemma folds_elem f ns : f ∈ folds isup ns <-> exists n, n ∈ ns /\ Fold isup n = f.
Proof.
  unfold folds. rewrite elem_of_list_to_set, list_elem_of_fmap. split; intros (n & ? & ?); by exists n.
Qed.

Lemma folds_snoc ns n : folds isup (ns ++ [n]) = {[Fold isup n]} ∪ folds isup ns.
Proof. unfold folds. rewrite fmap_app, list_to_set_app_L. simpl. set_solver. Qed.

Lemma targets_loop_ok limit desired ts ord :
  targets_ok limit (ts, ord) -> targets_ok limit (targets_loop isup limit ts ord desired).
Proof.
  revert ts ord. induction desired as [|n ds IH]; intros ts ord Hp; [done|]. cbn [targets_loop].
  destruct (negb (ValidMonitorTarget n)) eqn:Ev; [by apply IH|]. cbv zeta.
  case_bool_decide as Hin; [by apply IH|].
  destruct (Z.leb_spec limit (len ord)); [done|]. apply IH.
  destruct Hp as (E & Hnd & Hl & Hv). cbn [fst snd] in *. split_and!; cbn [fst snd].
  - by rewrite folds_snoc, E.
  - rewrite fmap_app. apply NoDup_app. split_and!; [done| |apply NoDup_singleton].
    intros f Hf Hn. apply list_elem_of_singleton in Hn as ->. apply Hin. subst ts. by apply elem_of_list_to_set.
  - rewrite len_app, len_cons, len_nil. lia.
  - apply Forall_app. split; [done|]. constructor; [|done]. by apply negb_false_iff.
Qed.

Lemma limit_range m : 1 <= monitorTargetLimitLocked isup m <= maxReconcileTargets.
Proof.
  unfold monitorTargetLimitLocked, maxReconcileTargets. set (l := effectiveMonitorLimitLocked isup m).
  destruct ((l <=? 0) || (l >? 1024)) eqn:E; lia.
Qed.

Lemma targets_spec m desired :
  targets_ok (monitorTargetLimitLocked isup m) (monitorTargetsLocked isup m desired).
Proof.
  apply targets_loop_ok. pose proof (limit_range m).
  split_and!; simpl; [done|constructor|rewrite len_nil; lia|constructor].
Qed.

(** Nothing is left out that the limit has room for. *)
Lemma targets_loop_complete limit desired ts ord n :
  ts = folds isup ord -> n ∈ desired -> ValidMonitorTarget n = true ->
  let p := targets_loop isup limit ts ord desired in Fold isup n ∈ p.1 \/ limit <= len p.2.
Proof.
  intros E Hn Hv. cbv zeta.
  assert (forall ds ts ord, ts ⊆ (targets_loop isup limit ts ord ds).1) as Hmono.
  { intros ds. induction ds as [|d ds IH]; intros ts' ord'; [done|]. cbn [targets_loop]. destruct_if as E1; [apply IH|].
    cbv zeta. destruct_if as E2; [apply IH|]. destruct_if as E3; [done|].
    etrans; [|apply IH]. set_solver. }
  revert ts ord E. induction desired as [|d ds IH]; intros ts ord E; [set_solver|]. cbn [targets_loop].
  apply elem_of_cons in Hn as [<-|Hn].
  - rewrite Hv. cbn [negb]. cbv zeta. case_bool_decide as Hin; [left; by apply Hmono|].
    destruct (Z.leb_spec limit (len ord)); [by right|]. left. apply Hmono. set_solver.
  - destruct_if as E1; [by apply IH|]. cbv zeta. destruct_if as E2; [by apply IH|].
    destruct (Z.leb_spec limit (len ord)); [by right|]. apply IH; [done|]. by rewrite folds_snoc, E.
Qed.

Lemma targets_size m desired :
  Z.of_nat (size (monitorTargetsLocked isup m desired).1) <= monitorTargetLimitLocked isup m.
Proof.
  destruct (targets_spec m desired) as (-> & Hnd & Hl & _). unfold folds.
  rewrite size_list_to_set by done. rewrite length_fmap. exact Hl.
Qed.

(** ** The active set *)

Definition mon_ok (m : Monitor) : Prop :=
  forall f n, monActive m !! f = Some n -> Fold isup n = f /\ ValidMonitorTarget n = true.

Lemma dom_activate ns a : dom (activate isup ns a) = folds isup ns ∪ dom a.
Proof.
  revert a. induction ns as [|n ns IH]; intros a; [simpl; set_solver|].
  change (activate isup (n :: ns) a) with (activate isup ns (<[Fold isup n := n]> a)).
  rewrite IH, folds_cons, dom_insert_L. set_solver.
Qed.

Lemma dom_deactivate fs a : dom (deactivate fs a) = dom a ∖ list_to_set fs.
Proof.
  revert a. induction fs as [|f fs IH]; intros a; [simpl; set_solver|].
  change (deactivate (f :: fs) a) with (deactivate fs (delete f a)).
  rewrite IH, dom_delete_L. simpl. set_solver.
Qed.

Lemma activate_ok ns a :
  Forall (fun n => ValidMonitorTarget n = true) ns ->
  map_Forall (fun f n => Fold isup n = f /\ ValidMonitorTarget n = true) a ->
  map_Forall (fun f n => Fold isup n = f /\ ValidMonitorTarget n = true) (activate isup ns a).
Proof.
  intros Hv. revert a. induction Hv as [|n ns Hn Hv IH]; intros a Ha; [done|].
  simpl. apply IH. by apply map_Forall_insert_2.
Qed.

Lemma deactivate_ok (P : gostring -> gostring -> Prop) fs a : map_Forall P a -> map_Forall P (deactivate fs a).
Proof. revert a. induction fs as [|f fs IH]; intros a Ha; [done|]. simpl. apply IH. by apply map_Forall_delete. Qed.
End targets.

Section sync.
Context `{IrcV4}.
Variables (isup : isupport) (prefix cap : Z).

Abbreviation exec := (foldl (srv_exec isup cap)).
Abbreviation Watched m desired := (monitorTargetsLocked isup m desired).1.

(** The commands [s'] has queued on top of [s]. *)
Definition queued (s s' : Sender) (msgs : list Message) : Prop := out s' = out s ++ msgs.

(** ** The incremental step *)

Section delta.
Variables (iter : list (gostring * gostring)) (active : gmap gostring gostring) (ts : gset gostring).
Hypothesis Hiter : iter ≡ₚ map_to_list active.
Hypothesis Hok : map_Forall (fun f n => Fold isup n = f /\ ValidMonitorTarget n = true) active.
Let removed := List.filter (fun fs => negb (bool_decide (fs.1 ∈ ts))) iter.

Lemma removed_elem f n : (f, n) ∈ removed <-> active !! f = Some n /\ f ∉ ts.
Proof.
  unfold removed. rewrite list_elem_of_In, filter_In, <- list_elem_of_In, Hiter, elem_of_map_to_list. simpl.
  by rewrite negb_true_iff, bool_decide_eq_false.
Qed.

Lemma removed_dom : list_to_set removed.*1 = dom active ∖ ts.
Proof.
  apply set_eq. intros f. rewrite elem_of_list_to_set, list_elem_of_fmap, elem_of_difference, elem_of_dom. split.
  - intros ([f' n] & -> & Hr). apply removed_elem in Hr as [Ha Ht]. by split; [eexists|].
  - intros [[n Hn] Ht]. exists (f, n). split; [done|]. by apply removed_elem.
Qed.

Lemma removed_valid : Forall (fun n => ValidMonitorTarget n = true) removed.*2.
Proof.
  apply Forall_forall. intros n ([f n'] & -> & Hr)%list_elem_of_fmap. apply removed_elem in Hr as [Ha _].
  by destruct (Hok _ _ Ha).
Qed.

Lemma removed_folds : folds isup removed.*2 = dom active ∖ ts.
Proof.
  rewrite <- removed_dom. unfold folds. f_equal. rewrite <- list_fmap_compose. apply list_fmap_ext.
  intros i [f n] Hr. apply list_elem_of_lookup_2, removed_elem in Hr as [Ha _]. simpl. by destruct (Hok _ _ Ha).
Qed.

End delta.

Lemma added_folds (active : gmap gostring gostring) (ts : gset gostring) ord :
  ts = folds isup ord ->
  folds isup (List.filter (fun n => bool_decide (active !! Fold isup n = None)) ord) = ts ∖ dom active.
Proof.
  intros ->. apply set_eq. intros f. rewrite elem_of_difference, !folds_elem, not_elem_of_dom.
  setoid_rewrite list_elem_of_In. setoid_rewrite filter_In. setoid_rewrite <- list_elem_of_In.
  split.
  - intros (n & [Hn Ha%bool_decide_eq_true] & <-). split; [by exists n|done].
  - intros [(n & Hn & <-) Ha]. exists n. split; [split; [done|by apply bool_decide_eq_true]|done].
Qed.

Lemma filter_valid (P : gostring -> bool) ns :
  Forall (fun n => ValidMonitorTarget n = true) ns -> Forall (fun n => ValidMonitorTarget n = true) (List.filter P ns).
Proof. rewrite !Forall_forall. intros Hv n [Hn _]%list_elem_of_In%filter_In. by apply Hv, list_elem_of_In. Qed.

Lemma len_nil_inv {A} (l : list A) : (len l =? 0) = true -> l = [].
Proof. intros E. apply len_zero. lia. Qed.

Lemma delta_union (ts d : gset gostring) : (ts ∖ d) ∪ (d ∖ (d ∖ ts)) = ts.
Proof. apply set_eq. intros f. destruct (decide (f ∈ ts)), (decide (f ∈ d)); set_solver. Qed.
Lemma delta_empty (ts d : gset gostring) : ∅ = d ∖ ts -> ∅ = ts ∖ d -> d = ts.
Proof. intros E1 E2. apply set_eq. intros f. destruct (decide (f ∈ ts)), (decide (f ∈ d)); set_solver. Qed.

(** Removals go first, so that the list never holds more than the target. *)
Lemma reconcile_sync iter desired m s m' s' sv :
  iter ≡ₚ map_to_list (monActive m) -> mon_ok isup m -> monitorTargetLimitLocked isup m <= cap ->
  watched sv = dom (monActive m) ->
  reconcileLocked isup prefix iter desired m s = (None, m', s') ->
  dom (monActive m') = Watched m desired /\ mon_ok isup m' /\
  exists msgs, queued s s' msgs /\ exec sv msgs = MkServer (Watched m desired) (refused sv).
Proof.
  intros Hiter Hok Hcap Hsv. unfold reconcileLocked.
  pose proof (targets_spec isup m desired) as (Ets & _ & _ & Hval). pose proof (targets_size isup m desired) as Hsize.
  destruct (monitorTargetsLocked isup m desired) as [ts ord]. cbn [fst snd] in *.
  set (removed := List.filter _ iter). set (added := List.filter _ ord).
  pose proof (removed_dom iter (monActive m) ts Hiter) as Rd. fold removed in Rd.
  pose proof (removed_folds iter (monActive m) ts Hiter Hok) as Rf. fold removed in Rf.
  pose proof (removed_valid iter (monActive m) ts Hiter Hok) as Rv. fold removed in Rv.
  pose proof (added_folds (monActive m) ts ord Ets) as Af. fold added in Af.
  assert (Forall (fun n => ValidMonitorTarget n = true) added) as Av by by apply filter_valid.
  destruct ((len removed =? 0) && (len added =? 0)) eqn:Eidle.
  - intros [= <- <-]. apply andb_true_iff in Eidle as [Er%len_nil_inv Ea%len_nil_inv]. rewrite Er in Rd. rewrite Ea in Af.
    simpl in Rd. cbn in Af. assert (dom (monActive m) = ts) as Ed by by apply delta_empty.
    split_and!; [done..|]. exists []. split; [by unfold queued; rewrite app_nil_r|]. simpl. destruct sv. simpl in *. congruence.
  - pose proof (sendAll_cases isup prefix (monitorMsgs §"-" removed.*2 ++ monitorMsgs §"+" added) s) as Hc.
    destruct (sendAll isup prefix _ s) as [[err|] s1]; [done|]. destruct Hc as (_ & Ho & _). intros [= <- <-].
    split_and!.
    + cbn [monActive set_active]. rewrite dom_activate, dom_deactivate, Rd, Af. apply delta_union.
    + intros f n. cbn [monActive set_active]. by apply activate_ok; [|apply deactivate_ok].
    + eexists. split; [exact Ho|]. rewrite foldl_app, exec_del, exec_add by done. rewrite dels_spec, adds_spec; cbn [watched refused].
      * rewrite Af, Rf, Hsv. by rewrite delta_union.
      * etrans; [|exact (Z.le_trans _ _ _ Hsize Hcap)]. rewrite Af, Rf, Hsv, delta_union. done.
Qed.

(** ** The rebuild *)

(** It does not matter what the server held before. *)
Lemma rebuild_sync desired m s m' s' sv :
  monitorTargetLimitLocked isup m <= cap ->
  rebuildMonitoredLocked isup prefix desired m s = (None, m', s') ->
  dom (monActive m') = Watched m desired /\ mon_ok isup m' /\ m' = set_active (monActive m') m /\
  exists msgs, queued s s' msgs /\ exec sv msgs = MkServer (Watched m desired) (refused sv).
Proof.
  intros Hcap. unfold rebuildMonitoredLocked.
  pose proof (targets_spec isup m desired) as (Ets & _ & _ & Hval). pose proof (targets_size isup m desired) as Hsize.
  destruct (monitorTargetsLocked isup m desired) as [ts ord]. cbn [fst snd] in *.
  pose proof (sendAll_cases isup prefix (newMsg §"MONITOR" [§"C"] :: monitorMsgs §"+" ord) s) as Hc.
  destruct (sendAll isup prefix _ s) as [[err|] s1]; [done|]. destruct Hc as (_ & Ho & _). intros [= <- <-]. split_and!.
  - cbn [monActive set_active]. rewrite dom_activate, dom_empty_L, Ets. set_solver.
  - intros f n. cbn [monActive set_active]. by apply activate_ok; [|apply map_Forall_empty].
  - done.
  - eexists. split; [exact Ho|]. cbn [foldl]. change (srv_exec isup cap sv (newMsg §"MONITOR" [§"C"])) with (MkServer ∅ (refused sv)).
    rewrite exec_add by done. rewrite adds_spec; cbn [watched refused]; rewrite (right_id_L ∅ (∪)), <- Ets; [done|lia].
Qed.

Lemma complete_sync desired m s m' s' sv :
  monitorTargetLimitLocked isup m <= cap ->
  completeMonitorRebuildLocked isup prefix desired m s = (None, m', s') ->
  dom (monActive m') = Watched m desired /\ mon_ok isup m' /\ monRebuildPending m' = false /\
  monRecovered734 m' = true /\ monRecoveredCap m' = monitorTargetLimitLocked isup m /\
  exists msgs, queued s s' msgs /\ exec sv msgs = MkServer (Watched m desired) (refused sv).
Proof.
  intros Hcap. unfold completeMonitorRebuildLocked.
  destruct (rebuildMonitoredLocked isup prefix desired m s) as [[[err|] m1] s1] eqn:E; [done|]. intros [= <- <-].
  destruct (rebuild_sync _ _ _ _ _ sv Hcap E) as (Hd & Hok & -> & Hq). by split_and!.
Qed.

Lemma reconcile_pending iter desired m s :
  monRebuildPending (reconcileLocked isup prefix iter desired m s).1.2 = monRebuildPending m.
Proof.
  unfold reconcileLocked. destruct (monitorTargetsLocked isup m desired) as [ts ord]. destruct_if as E; [done|].
  by destruct (sendAll isup prefix _ s) as [[err|] s1].
Qed.

(** What the manager knows of the server's list: everything, unless a 734 has
    made it ambiguous and the rebuild is still owed. *)
Definition in_sync (m : Monitor) (sv : mserver) : Prop :=
  mon_ok isup m /\ (monRebuildPending m = true \/ watched sv = dom (monActive m)).


(** A 734 is recovered from whatever it meant.  If handling it queued
    anything, then from any list whatsoever a server with room for the learned
    limit ends up watching exactly what the manager records, and refuses
    nothing. *)
Theorem rejected_recovers nicks limit gen monGen desired m s m' s' sv :
  MonitorRejected isup prefix nicks limit gen monGen desired m s = (None, m', s') ->
  s' <> s -> monitorTargetLimitLocked isup m' <= cap ->
  gen = monGen /\ monRebuildPending m' = false /\ mon_ok isup m' /\
  exists msgs, queued s s' msgs /\ exec sv msgs = MkServer (dom (monActive m')) (refused sv).
Proof.
  unfold MonitorRejected. destruct (Z.eqb_spec gen monGen) as [Hg|]; [|intros [= <- <-]; done]. cbn [negb].
  destruct_if as E1; [intros [= <- <-]; done|]. cbv zeta. cbn [monRecovered734 monRecoveredCap monActive].
  set (lim := if _ && ((monLimit734 m =? 0) || _) then _ else _).
  destruct_if as E2; [intros [= <- <-]; done|]. intros E _ Hcap.
  assert (monitorTargetLimitLocked isup (MkMonitor (monActive m) lim true (monRecovered734 m) (monRecoveredCap m)) <= cap) as Hcap'.
  { etrans; [|exact Hcap]. revert E. unfold completeMonitorRebuildLocked, rebuildMonitoredLocked.
    destruct (monitorTargetsLocked isup _ desired) as [ts ord].
    destruct (sendAll isup prefix _ s) as [[err|] s1]; [done|]. intros [= <- <-]. reflexivity. }
  destruct (complete_sync _ _ _ _ _ sv Hcap' E) as (Hd & Hok & Hp & _ & _ & Hq). rewrite Hd. by split_and!.
Qed.

(** ** Recovery cannot feed on itself *)

(** One call that drives the list, with what the hub hands it. *)
Inductive mon_call :=
  | CallReconcile (iter : list (gostring * gostring)) (desired : list gostring)
  | CallRejected (nicks : list gostring) (limit gen monGen : Z) (desired : list gostring).

Definition mon_apply (c : mon_call) (m : Monitor) (s : Sender) : option sendErr * Monitor * Sender :=
  match c with
  | CallReconcile iter desired => ReconcileMonitored isup prefix iter desired m s
  | CallRejected nicks limit gen monGen desired => MonitorRejected isup prefix nicks limit gen monGen desired m s
  end.

(** How many MONITOR C a list of commands holds. *)
Definition clears (msgs : list Message) : Z := len (List.filter (fun m => Params m == [§"C"]) msgs).

(** The MONITOR C commands queued by a sequence of calls, each of which finds
    the send queue in a state of its own. *)
Fixpoint total_clears (calls : list (mon_call * Sender)) (m : Monitor) : Z :=
  match calls with
  | [] => 0
  | (c, s) :: rest =>
      let '(_, m', s') := mon_apply c m s in clears (drop (length (out s)) (out s')) + total_clears rest m'
  end.

Definition recovery_inv (m : Monitor) : Prop :=
  0 <= monLimit734 m /\
  (monRecovered734 m = true -> 1 <= monRecoveredCap m <= maxReconcileTargets /\
    (monRebuildPending m = true -> monitorTargetLimitLocked isup m < monRecoveredCap m)).

Definition budget (m : Monitor) : Z := if monRecovered734 m then monRecoveredCap m else maxReconcileTargets + 1.

Lemma budget_pos m : recovery_inv m -> 1 <= budget m <= maxReconcileTargets + 1.
Proof. intros [_ Hi]. unfold budget, maxReconcileTargets in *. destruct (monRecovered734 m); [destruct Hi; [done|lia]|lia]. Qed.

Lemma clears_monitorMsgs op ns : clears (monitorMsgs op ns) = 0.
Proof. unfold clears, monitorMsgs. induction (chunkTargets ns 10) as [|c cs IH]; [done|].
  rewrite fmap_cons. simpl. by rewrite bool_decide_false by done.
Qed.
Lemma clears_app a b : clears (a ++ b) = clears a + clears b.
Proof. unfold clears. by rewrite List.filter_app, len_app. Qed.
Lemma clears_same (s : Sender) : clears (drop (length (out s)) (out s)) = 0.
Proof. by rewrite drop_ge. Qed.
Lemma clears_queued s s' msgs : out s' = out s ++ msgs -> clears (drop (length (out s)) (out s')) = clears msgs.
Proof. intros ->. by rewrite drop_app_length. Qed.

Definition call_ok (m m' : Monitor) (s s' : Sender) : Prop :=
  recovery_inv m' /\ clears (drop (length (out s)) (out s')) + budget m' <= budget m.

(** Each clear is paid for by a strictly tighter limit. *)
Lemma complete_budget desired m s :
  recovery_inv m -> monRebuildPending m = true ->
  let '(_, m', s') := completeMonitorRebuildLocked isup prefix desired m s in call_ok m m' s s'.
Proof.
  intros Hi Hp. unfold completeMonitorRebuildLocked, rebuildMonitoredLocked.
  destruct (monitorTargetsLocked isup m desired) as [ts ord].
  pose proof (sendAll_cases isup prefix (newMsg §"MONITOR" [§"C"] :: monitorMsgs §"+" ord) s) as Hc.
  destruct (sendAll isup prefix _ s) as [[err|] s1].
  - subst s1. split; [done|]. rewrite clears_same. lia.
  - destruct Hc as (_ & Ho & _). set (m' := MkMonitor _ _ _ _ _).
    assert (monitorTargetLimitLocked isup m' = monitorTargetLimitLocked isup m) as El by done.
    pose proof (limit_range isup m). destruct Hi as [Hk Hi]. split.
    + split; [done|]. intros _. split; [exact (limit_range isup m)|done].
    + rewrite (clears_queued _ _ _ Ho). change (newMsg §"MONITOR" [§"C"] :: monitorMsgs §"+" ord) with ([newMsg §"MONITOR" [§"C"]] ++ monitorMsgs §"+" ord).
      rewrite clears_app, clears_monitorMsgs. change (clears [newMsg §"MONITOR" [§"C"]]) with 1.
      change (budget m') with (monitorTargetLimitLocked isup m). unfold budget. destruct (monRecovered734 m); [destruct Hi; [done|]|]; lia.
Qed.

Lemma reconcile_budget iter desired m s :
  recovery_inv m -> let '(_, m', s') := ReconcileMonitored isup prefix iter desired m s in call_ok m m' s s'.
Proof.
  intros Hi. unfold ReconcileMonitored. destruct_if as E1; [split; [done|rewrite clears_same; lia]|].
  destruct (monRebuildPending m) eqn:Ep; [by apply complete_budget|]. unfold reconcileLocked.
  destruct (monitorTargetsLocked isup m desired) as [ts ord]. destruct_if as E2; [split; [done|rewrite clears_same; lia]|].
  cbv zeta. set (msgs := monitorMsgs _ _ ++ monitorMsgs _ _). pose proof (sendAll_cases isup prefix msgs s) as Hc.
  destruct (sendAll isup prefix msgs s) as [[err|] s1].
  - subst s1. split; [done|rewrite clears_same; lia].
  - destruct Hc as (_ & Ho & _). split; [exact Hi|]. rewrite (clears_queued _ _ _ Ho). unfold msgs.
    rewrite clears_app, !clears_monitorMsgs. unfold budget. simpl. lia.
Qed.

(** Learning a limit only tightens. *)
Lemma tighten_limit m learned p r c :
  0 <= monLimit734 m ->
  let lim := if (learned >? 0) && ((monLimit734 m =? 0) || (learned <? monLimit734 m)) then learned else monLimit734 m in
  0 <= lim /\ monitorTargetLimitLocked isup (MkMonitor (monActive m) lim p r c) <= monitorTargetLimitLocked isup m.
Proof.
  intros H0. unfold monitorTargetLimitLocked, effectiveMonitorLimitLocked, maxReconcileTargets. cbn [monLimit734].
  generalize (monitorLimit isup) as L. generalize dependent (monLimit734 m). intros k Hk L. cbv zeta.
  destruct ((learned >? 0) && ((k =? 0) || (learned <? k))) eqn:E1;
  destruct ((learned >? 0) && ((L =? 0) || (learned <? L))) eqn:E2;
  destruct ((k >? 0) && ((L =? 0) || (k <? L))) eqn:E3; repeat (let E := fresh in destruct_if as E); lia.
Qed.

Lemma rejected_budget nicks limit gen monGen desired m s :
  recovery_inv m -> let '(_, m', s') := MonitorRejected isup prefix nicks limit gen monGen desired m s in call_ok m m' s s'.
Proof.
  intros Hi. unfold MonitorRejected. destruct_if as E1; [split; [done|rewrite clears_same; lia]|].
  destruct_if as E2; [split; [done|rewrite clears_same; lia]|]. cbv zeta. cbn [monRecovered734 monRecoveredCap monActive].
  generalize (if limit <=? 0 then Z.of_nat (size (monActive m)) - rejected_active isup (monActive m) ∅ nicks else limit) as learned.
  intros learned. set (lim := if _ && ((monLimit734 m =? 0) || _) then _ else _). destruct Hi as [Hk Hi].
  destruct_if as E3.
  - destruct (tighten_limit m learned (monRebuildPending m) (monRecovered734 m) (monRecoveredCap m) Hk) as [Hl Ht]. fold lim in Hl, Ht.
    split; [|rewrite clears_same; unfold budget; simpl; lia]. split; [done|]. cbn [monRecovered734 monRecoveredCap monRebuildPending].
    intros Hr. destruct (Hi Hr) as [Hc Hp]. split; [done|]. intros Hpd. specialize (Hp Hpd). lia.
  - destruct (tighten_limit m learned true (monRecovered734 m) (monRecoveredCap m) Hk) as [Hl Ht]. fold lim in Hl, Ht.
    refine (complete_budget desired (MkMonitor (monActive m) lim true (monRecovered734 m) (monRecoveredCap m)) s _ eq_refl).
    split; [done|]. cbn [monRecovered734 monRecoveredCap monRebuildPending]. intros Hr. split; [by apply Hi|].
    intros _. rewrite Hr in E3. cbn [andb] in E3. apply Z.leb_gt in E3. exact E3.
Qed.

(** The 734 recovery terminates: whatever numerics a server sends, in
    whatever order and with whatever limits, and however often the send queue is
    full, one connection clears the server's list at most 1024 times. *)
Theorem rebuilds_bounded calls : total_clears calls newMonitor <= maxReconcileTargets.
Proof.
  assert (forall calls m, recovery_inv m -> total_clears calls m <= budget m - 1) as Hall.
  { clear calls. induction calls as [|[c s] rest IH]; intros m Hi; cbn [total_clears]; [pose proof (budget_pos m Hi); lia|].
    assert (let '(_, m', s') := mon_apply c m s in call_ok m m' s s') as Hc.
    { destruct c; [by apply reconcile_budget|by apply rejected_budget]. }
    destruct (mon_apply c m s) as [[err m'] s']. destruct Hc as [Hi' Hb]. specialize (IH m' Hi'). lia. }
  etrans; [apply Hall; split; [simpl; lia|done]|]. unfold budget. simpl. lia.
Qed.
End sync.

(** ** Reconciling never gets stuck *)

Section progress.
Context `{IrcV4} `{!IrcV4Size}.
Variables (isup : isupport) (prefix : Z).

Definition goodTarget (n : gostring) : Prop := ValidMonitorTarget n = true /\ ValidString n = true.

Lemma chunk_sendable op c :
  op ∈ [§"+"; §"-"] -> len c <= 10 -> Forall goodTarget c ->
  check_out isup prefix (newMsg §"MONITOR" [op; Join c §","]) = None.
Proof.
  intros Hop Hlen Hc.
  assert (ValidString op = true /\ len op = 1 /\
    (forall j, hasFramingBytes j = false -> checkParamFraming [op; j] = None)) as (Hov & Hol & Hoc).
  { apply elem_of_cons in Hop as [->|Hop]; [|apply list_elem_of_singleton in Hop as ->];
      (split_and!; [reflexivity..|]); intros j Hj; simpl; by rewrite Hj. }
  assert (hasFramingBytes (Join c §",") = false) as Hjf.
  { apply hasFramingBytes_spec. intros x Hx [Hx'|(n & Hn & Hxn)]%Join_elem.
    - apply list_elem_of_singleton in Hx' as ->. by apply ContainsByte_spec in Hx.
    - rewrite Forall_forall in Hc. destruct (Hc n Hn) as [(_ & _ & Hbad)%ValidMonitorTarget_spec _]. apply (Hbad x Hxn).
      unfold framing_chars in Hx. set_solver. }
  assert (len (Join c §",") <= 490) as Hjl.
  { etrans; [apply (Join_len c §"," maxMonitorNickLen)|].
    - eapply Forall_impl; [exact Hc|]. by intros n [(_ & ? & _)%ValidMonitorTarget_spec _].
    - change (len §",") with 1. unfold maxMonitorNickLen. lia. }
  unfold check_out.
  assert (checkFraming (newMsg §"MONITOR" [op; Join c §","]) = None) as ->.
  { unfold checkFraming. change (hasFramingBytes (Command (newMsg §"MONITOR" [op; Join c §","])) || _) with false. cbn [Params newMsg].
    by rewrite (Hoc _ Hjf). }
  rewrite scrubUTF8_valid.
  2:{ constructor; [done|]. constructor; [|done]. apply ValidString_Join; [done|]. eapply Forall_impl; [exact Hc|]. by intros n [_ ?]. }
  unfold checkLineLen. cbv zeta. set (bare := MkMessage _ _ _ _).
  assert (len (MsgString bare) <= 501) as Hm.
  { etrans; [by apply MsgString_len|]. cbn [bare Command Params newMsg params_len foldr]. rewrite Hol. change (len §"MONITOR") with 7. lia. }
  pose proof (lineLen_floor isup). unfold defaultLineLen in *. destruct (Z.gtb_spec (len (MsgString bare) + 2) (lineLen isup)); [lia|done].
Qed.

Lemma chunk_loop_count fuel l n : 1 <= n -> (length l <= fuel)%nat -> n * len (chunk_loop fuel l n) <= len l + n - 1.
Proof.
  intros Hn. revert l. induction fuel as [|fuel IH]; intros l Hl; cbn [chunk_loop]; [unfold len; simpl; lia|].
  destruct (Z.ltb_spec 0 (len l)) as [Hp|Hp]; [|unfold len; simpl; lia]. cbv zeta. rewrite len_cons, Z.mul_add_distr_l, Z.mul_1_r.
  set (e := if n >? len l then len l else n).
  assert (1 <= e <= n /\ e <= len l /\ (e < n -> e = len l)) as (He1 & He2 & He3) by (unfold e; destruct (Z.gtb_spec n (len l)); lia).
  pose proof (len_slice_from l e ltac:(lia)) as Hs. specialize (IH (slice_from l e) ltac:(unfold len in *; lia)).
  destruct (decide (e < n)) as [He|]; [|lia].
  rewrite (len_zero (slice_from l e)) in * by lia. destruct fuel; unfold len in *; simpl in *; lia.
Qed.

Lemma monitorMsgs_sendable op ns :
  op ∈ [§"+"; §"-"] -> Forall goodTarget ns -> len ns <= maxReconcileTargets ->
  Forall (fun m => check_out isup prefix m = None) (monitorMsgs op ns) /\ len (monitorMsgs op ns) <= 103.
Proof.
  intros Hop Hns Hl. unfold monitorMsgs. split.
  - apply Forall_fmap, Forall_forall. intros c Hc. destruct (chunkTargets_spec ns 10 ltac:(lia)) as [_ Hs].
    pose proof (chunkTargets_forall ns 10 _ ltac:(lia) Hns) as Hg. rewrite Forall_forall in Hs, Hg. unfold compose.
    apply chunk_sendable; [done|by apply Hs|by apply Hg].
  - unfold len. rewrite length_fmap. pose proof (chunk_loop_count (length ns) ns 10 ltac:(lia) ltac:(lia)) as Hcount.
    fold (chunkTargets ns 10) in Hcount. unfold maxReconcileTargets, len in *. lia.
Qed.

Lemma targets_good m desired :
  Forall (fun n => ValidString n = true) desired -> Forall goodTarget (monitorTargetsLocked isup m desired).2.
Proof.
  intros Hd. destruct (targets_spec isup m desired) as (_ & _ & _ & Hv).
  assert (forall limit ds ts ord, Forall (fun n => ValidString n = true) ds -> Forall (fun n => ValidString n = true) ord ->
    Forall (fun n => ValidString n = true) (targets_loop isup limit ts ord ds).2) as Hall.
  { clear. intros limit ds. induction ds as [|d ds IH]; intros ts ord Hds Ho; [done|]. apply Forall_cons in Hds as [Hd Hds].
    cbn [targets_loop]. destruct_if as E1; [by apply IH|]. cbv zeta. destruct_if as E2; [by apply IH|]. destruct_if as E3; [done|].
    apply IH; [done|]. apply Forall_app. by split; [|constructor]. }
  specialize (Hall (monitorTargetLimitLocked isup m) desired ∅ [] Hd ltac:(done)).
  fold (monitorTargetsLocked isup m desired) in Hall. rewrite Forall_forall in *. intros n Hn. split; auto.
Qed.

(** The send needs no more than 206 free places of the 512. *)
Lemma reconcileLocked_progress iter desired m s :
  iter ≡ₚ map_to_list (monActive m) -> mon_ok isup m -> map_Forall (fun _ n => ValidString n = true) (monActive m) ->
  Forall (fun n => ValidString n = true) desired -> Z.of_nat (size (monActive m)) <= maxReconcileTargets ->
  registered s = true -> len (out s) <= outCap - 206 ->
  (reconcileLocked isup prefix iter desired m s).1.1 = None.
Proof.
  intros Hiter Hok Hutf Hd Hsize Hr Hq. unfold reconcileLocked.
  pose proof (targets_good m desired Hd) as Hg. destruct (targets_spec isup m desired) as (_ & _ & Hl & _).
  pose proof (limit_range isup m) as Hlim.
  destruct (monitorTargetsLocked isup m desired) as [ts ord]. cbn [fst snd] in *.
  set (removed := List.filter _ iter). set (added := List.filter _ ord). destruct_if as E; [done|].
  assert (Forall goodTarget removed.*2) as Hrem.
  { apply Forall_forall. intros n ([f n'] & -> & Hin)%list_elem_of_fmap.
    apply (removed_elem iter (monActive m) ts Hiter) in Hin as [Ha _]. split; [by eapply Hok|by eapply Hutf]. }
  assert (Forall goodTarget added) as Hadd.
  { rewrite Forall_forall in Hg |- *. intros n [Hn _]%list_elem_of_In%filter_In. by apply Hg, list_elem_of_In. }
  assert (len removed.*2 <= maxReconcileTargets) as Hlr.
  { unfold len. rewrite length_fmap. etrans; [apply inj_le, List.filter_length_le|].
    rewrite Hiter, length_map_to_list. done. }
  assert (len added <= maxReconcileTargets) as Hla.
  { pose proof (List.filter_length_le (fun n => bool_decide (monActive m !! Fold isup n = None)) ord) as Hfl. fold added in Hfl.
    unfold len in *. lia. }
  destruct (monitorMsgs_sendable §"-" removed.*2) as [Hs1 Hn1]; [set_solver|done..|].
  destruct (monitorMsgs_sendable §"+" added) as [Hs2 Hn2]; [set_solver|done..|].
  pose proof (sendAll_succeeds isup prefix (monitorMsgs §"-" removed.*2 ++ monitorMsgs §"+" added) s Hr) as Hsend.
  destruct (sendAll isup prefix _ s) as [err s1]. destruct err; [|done]. discriminate Hsend.
  - apply Forall_app. by split.
  - rewrite len_app. lia.
Qed.

(** Reconciling cannot become permanently impossible: on a registered
    connection with 206 of the 512 places of the send queue free, a reconcile of
    any wanted list of valid UTF-8 succeeds, whether incremental or a rebuild
    still owed; no chunk of it can fail the length or framing checks. *)
Theorem reconcile_progress iter desired m s :
  iter ≡ₚ map_to_list (monActive m) -> mon_ok isup m -> map_Forall (fun _ n => ValidString n = true) (monActive m) ->
  Forall (fun n => ValidString n = true) desired -> Z.of_nat (size (monActive m)) <= maxReconcileTargets ->
  registered s = true -> len (out s) <= outCap - 206 ->
  (ReconcileMonitored isup prefix iter desired m s).1.1 = None.
Proof.
  intros Hiter Hok Hutf Hd Hsize Hr Hq. unfold ReconcileMonitored. destruct_if as E1; [done|].
  destruct (monRebuildPending m); [|by apply reconcileLocked_progress].
  unfold completeMonitorRebuildLocked, rebuildMonitoredLocked.
  pose proof (targets_good m desired Hd) as Hg. destruct (targets_spec isup m desired) as (_ & _ & Hl & _).
  pose proof (limit_range isup m) as Hlim.
  destruct (monitorTargetsLocked isup m desired) as [ts ord]. cbn [fst snd] in *.
  destruct (monitorMsgs_sendable §"+" ord) as [Hs Hn]; [set_solver|done|lia|].
  pose proof (sendAll_succeeds isup prefix (newMsg §"MONITOR" [§"C"] :: monitorMsgs §"+" ord) s Hr) as Hsend.
  destruct (sendAll isup prefix _ s) as [err s1]. destruct err; [|done]. discriminate Hsend.
  - constructor; [|done]. unfold check_out. change (checkFraming (newMsg §"MONITOR" [§"C"])) with (@None ircErr).
    cbv iota. rewrite scrubUTF8_valid by by repeat constructor. unfold checkLineLen. cbv zeta. set (bare := MkMessage _ _ _ _).
    assert (len (MsgString bare) <= 10) as Hm by (etrans; [by apply MsgString_len|]; vm_compute; congruence).
    pose proof (lineLen_floor isup). unfold defaultLineLen in *. destruct (Z.gtb_spec (len (MsgString bare) + 2) (lineLen isup)); [lia|done].
  - rewrite len_cons. lia.
Qed.
End progress.

(** ** Examples *)

#[local] Existing Instance ref_ircv4.
#[local] Existing Instance ref_ircv4_size.

Definition demo_isup : isupport := handle_token newISupport §"MONITOR=2".
Definition demo_desired : list gostring := [§"Alice"; §"bad nick"; §"ALICE"; §"bob"; §"carol"].
Definition demo_mon : Monitor := MkMonitor {[ §"dave" := §"Dave" ]} 0 false false 0.
Definition demo_sender : Sender := MkSender true [] ∅.
Definition demo_server : mserver := MkServer {[ §"dave" ]} [].

Lemma demo_mon_ok : mon_ok demo_isup demo_mon.
Proof. intros f n E. unfold demo_mon in E. cbn [monActive] in E. apply lookup_singleton_Some in E as [<- <-]. by vm_compute. Qed.

Definition demo_result : option sendErr * Monitor * Sender :=
  ReconcileMonitored demo_isup 0 [(§"dave", §"Dave")] demo_desired demo_mon demo_sender.

(** One removal, then the first two of the valid distinct nicks. *)
Example demo_queue :
  Params <$> out demo_result.2 = [[§"-"; §"Dave"]; [§"+"; §"Alice,bob"]] /\ demo_result.1.1 = None.
Proof. vm_compute. split; reflexivity. Qed.


(** The server turns out to take one nick only. *)
Definition demo_734 : option sendErr * Monitor * Sender :=
  MonitorRejected demo_isup 0 [§"bob"] 1 7 7 demo_desired demo_result.1.2 demo_sender.

Lemma rejected_recovers_witness :
  exists msgs, queued demo_sender demo_734.2 msgs /\
    foldl (srv_exec demo_isup 1) (MkServer {[ §"alice"; §"x" ]} [§"bob"]) msgs = MkServer (dom (monActive demo_734.1.2)) [§"bob"].
Proof.
  destruct (rejected_recovers demo_isup 0 1 [§"bob"] 1 7 7 demo_desired demo_result.1.2 demo_sender demo_734.1.2 demo_734.2
    (MkServer {[ §"alice"; §"x" ]} [§"bob"])) as (_ & _ & _ & Hq); [vm_compute; reflexivity|by vm_compute|vm_compute; congruence|].
  exact Hq.
Defined.

Lemma reconcile_progress_witness : demo_result.1.1 = None.
Proof.
  apply (reconcile_progress demo_isup 0 [(§"dave", §"Dave")] demo_desired demo_mon demo_sender).
  - unfold demo_mon. cbn [monActive]. by rewrite map_to_list_singleton.
  - exact demo_mon_ok.
  - apply map_Forall_singleton. reflexivity.
  - repeat constructor.
  - vm_compute. congruence.
  - reflexivity.
  - vm_compute. congruence.
Defined.
