(* ===== verification/StsManager.v ===== *)
(** * STS enforcement on connections: internal/irc/manager.go

    The in-memory policy of one network manager and how it is kept in step with
    the shared policy store: the load before every dial, the address a
    connection is made to, policies received on secure connections, the
    reschedule at close, and [Run]'s gate, which refuses to dial while the
    policy of a plaintext network is unknown.  The store is the interface
    [STSStore] of internal/irc/sts.go, the class [StsStoreOps] here;
    [StsManagerProofs] instantiates it with the store of [StsStore]. *)

From S2P Require Import Prelude GoStrings GoUtf8 GoNet Sts StsStore Config.

(** Expiries cross the interface as Unix times in nanoseconds. *)
Class StsStoreOps (T : Type) := {
  st_policy : Env -> gostring -> T -> T * (stsError + policy);
  st_set : Env -> gostring -> Z -> Z -> Z -> T -> T * (stsError + (Z * Z));
  st_clear : Env -> gostring -> T -> T * (stsError + (Z * Z));
  st_reschedule : Env -> gostring -> Z -> Z -> T -> T * (stsError + (Z * bool))
}.

(** What a store promises its managers: an unexpired policy it holds for a host
    is found by a read that succeeds, and a policy that was set is read back. *)
Class StsStoreLaws (T : Type) `{StsStoreOps T} := {
  (** the store is in order and reads the host's name as it is spelled *)
  st_ok : gostring -> T -> Prop;
  st_holds : gostring -> Z -> T -> Prop;
  st_found env h t t' u q :
    st_ok h t -> st_holds h u t -> now env < u * Millisecond -> st_policy env h t = (t', inr q) ->
    pOk q = true /\ u <= pUntil q;
  st_sane env h t t' q : st_policy env h t = (t', inr q) -> pOk q = true -> 1 <= pPort q <= 65535;
  st_set_read env1 env2 h port until d t t' r :
    st_ok h t -> scanOk env1 = true -> writeOk env1 = true ->
    (exists a b, entropy env1 = Some (a, b) /\ 0 <= a /\ 0 <= b) -> scanOk env2 = true ->
    1 <= port <= 65535 -> 1 <= until / Millisecond <= maxInt64 ->
    st_set env1 h port until d t = (t', r) ->
    exists rev ep, r = inr (rev, ep) /\
      exists q, st_policy env2 h t' = (t', inr q) /\ pOk q = true /\ pPort q = port /\ pUntil q = until / Millisecond
}.

(** The fields of [Manager] guarded by [stsMu].  A zero [time.Time] is [None]. *)
Record StsState := MkStsState {
  stsPort : Z;
  stsUntil : option Z;
  stsLastDur : Z;
  stsRevision : Z;
  stsRevisionKnown : bool;
  stsPolicyEpoch : Z;
  stsPolicyEpochKnown : bool;
  stsSession : bool;
  stsDirty : bool;
  stsDirtyFull : bool;
  stsDirtyBaseEpoch : Z;
  stsDirtyBaseEpochKnown : bool
}.

Definition newStsState : StsState := MkStsState 0 None 0 0 false 0 false false false false 0 false.

Definition set_policy (port : Z) (until : option Z) (dur : Z) (session : bool) (st : StsState) : StsState :=
  MkStsState port until dur (stsRevision st) (stsRevisionKnown st) (stsPolicyEpoch st) (stsPolicyEpochKnown st) session
    (stsDirty st) (stsDirtyFull st) (stsDirtyBaseEpoch st) (stsDirtyBaseEpochKnown st).
Definition set_revision (r : Z) (rk : bool) (e : Z) (ek : bool) (st : StsState) : StsState :=
  MkStsState (stsPort st) (stsUntil st) (stsLastDur st) r rk e ek (stsSession st)
    (stsDirty st) (stsDirtyFull st) (stsDirtyBaseEpoch st) (stsDirtyBaseEpochKnown st).
Definition set_dirty (d full : bool) (base : Z) (baseKnown : bool) (st : StsState) : StsState :=
  MkStsState (stsPort st) (stsUntil st) (stsLastDur st) (stsRevision st) (stsRevisionKnown st) (stsPolicyEpoch st)
    (stsPolicyEpochKnown st) (stsSession st) d full base baseKnown.
(** [stsDirtyBaseEpoch] keeps its value when the flag is cleared. *)
Definition clear_dirty (st : StsState) : StsState := set_dirty false false (stsDirtyBaseEpoch st) false st.

(** [until.IsZero() || now.Before(until)]. *)
Definition unexpired (now : Z) (until : option Z) : bool :=
  match until with None => true | Some u => now <? u end.
Definition localActive (now : Z) (st : StsState) : bool := (stsPort st >? 0) && unexpired now (stsUntil st).

Definition storeUntil (p : policy) : Z := pUntil p * Millisecond.
Definition storeActive (now : Z) (p : policy) : bool := pOk p && (now <? storeUntil p).

(** [m.stsUntil.After(until)]; the zero time is before every expiry. *)
Definition until_after (until : option Z) (u : Z) : bool := match until with None => false | Some v => v >? u end.

Definition resolveSTSDirtyLocked (revision policyEpoch : Z) (active local : bool) (until : Z) (st : StsState)
    : bool * StsState :=
  let newerShared := stsDirtyBaseEpochKnown st && negb (policyEpoch =? stsDirtyBaseEpoch st) in
  if negb newerShared && local && (stsDirtyFull st || negb active || until_after (stsUntil st) until)
  then (true, set_dirty (stsDirty st) (stsDirtyFull st) policyEpoch true (set_revision revision true policyEpoch true st))
  else (false, clear_dirty st).

(** What [loadSTS] does with the policy the store returned. *)
Definition adopt (tnow : Z) (p : policy) (st : StsState) : StsState :=
  let active := storeActive tnow p in
  let '(retained, st1) :=
    if stsDirty st then resolveSTSDirtyLocked (pRevision p) (pEpoch p) active (localActive tnow st) (storeUntil p) st
    else (false, st) in
  if retained then st1
  else
    let st2 := set_revision (pRevision p) true (pEpoch p) true st1 in
    if active then set_policy (pPort p) (Some (storeUntil p)) (pDuration p) false st2
    else if negb (stsSession st2) then set_policy 0 None 0 false st2
    else st2.

Section manager.
Context `{Unicode, NetIP, StsStoreOps T}.
(** [persisted] is whether [cfg.STS] is set. *)
Variables (cfg : Config) (persisted : bool).

Definition loadSTS (env : Env) (tnow : Z) (t : T) (st : StsState) : option stsError * T * StsState :=
  if negb persisted then (None, t, st)
  else match SplitHostPort (Addr cfg) with
  | None => (None, t, st)
  | Some (host, _) =>
      match st_policy env (canonicalSTSHost host) t with
      | (t', inl err) => (Some err, t', st)
      | (t', inr p) => (None, t', adopt tnow p st)
      end
  end.

Definition effectiveAddr (tnow : Z) (st : StsState) : gostring * bool :=
  if TLS cfg then (Addr cfg, true)
  else match SplitHostPort (Addr cfg) with
  | None => (Addr cfg, false)
  | Some (host, _) =>
      if (stsPort st >? 0) && unexpired tnow (stsUntil st) then (JoinHostPort host (Itoa (stsPort st)), true)
      else (Addr cfg, false)
  end.

Definition applySTS (env : Env) (tnow : Z) (connAddr : gostring) (d : Z) (t : T) (st : StsState) : T * StsState :=
  match SplitHostPort (Addr cfg), SplitHostPort connAddr with
  | Some (host, _), Some (_, portStr) =>
      let host := canonicalSTSHost host in
      let '(port, ok) := Atoi portStr in
      if negb ok then (t, st)
      else
        let until := tnow + d in
        let st1 := if d =? 0 then set_policy 0 None 0 false st else set_policy port (Some until) d false st in
        if negb persisted then (t, st1)
        else if d =? 0 then
          match st_clear env host t with
          | (t', inr (revision, policyEpoch)) => (t', clear_dirty (set_revision revision true policyEpoch true st1))
          | (t', inl _) => (t', clear_dirty st1)
          end
        else
          match st_set env host port until d t with
          | (t', inr (revision, policyEpoch)) => (t', clear_dirty (set_revision revision true policyEpoch true st1))
          | (t', inl _) =>
              (t', set_dirty true true (stsPolicyEpoch st) (stsPolicyEpochKnown st)
                     (set_revision (stsRevision st) (stsRevisionKnown st) (stsPolicyEpoch st) (stsPolicyEpochKnown st) st1))
          end
  | _, _ => (t, st)
  end.

Definition rescheduleSTS (env : Env) (tnow : Z) (t : T) (st : StsState) : T * StsState :=
  let dirtyFull := stsDirty st && stsDirtyFull st in
  if (stsLastDur st <=? 0) || (stsPort st =? 0) then (t, st)
  else
    let until := tnow + stsLastDur st in
    let st1 := set_policy (stsPort st) (Some until) (stsLastDur st) (stsSession st) st in
    if negb persisted || dirtyFull then (t, st1)
    else match SplitHostPort (Addr cfg) with
    | None => (t, st1)
    | Some (host, _) =>
        if negb (stsRevisionKnown st) then (t, st1)
        else match st_reschedule env (canonicalSTSHost host) (stsRevision st) until t with
        | (t', inl _) => (t', set_dirty true false (stsPolicyEpoch st) (stsPolicyEpochKnown st) st1)
        | (t', inr (newRevision, true)) =>
            (t', clear_dirty (set_revision newRevision true (stsPolicyEpoch st1) (stsPolicyEpochKnown st1) st1))
        | (t', inr (_, false)) => (t', set_dirty true false (stsPolicyEpoch st) (stsPolicyEpochKnown st) st1)
        end
    end.

(** [Run] on [errSTSUpgrade]. *)
Definition adoptUpgrade (port : Z) (st : StsState) : StsState := set_policy port None 0 true st.

(** [Run]'s gate: whether the dial may go ahead. *)
Definition gate (err : option stsError) : bool := bool_decide (err = None) || TLS cfg.
End manager.

(** [capNotifySTS]: the [sts] tokens of a CAP NEW, in order.  An upgrade seen on
    an insecure connection ends it. *)
Section notify.
Context `{Unicode, NetIP, StsStoreOps T}.
Variables (cfg : Config) (persisted : bool).

Fixpoint notify_tokens (env : Env) (tnow : Z) (secure : bool) (connAddr : gostring) (toks : list gostring) (t : T) (st : StsState)
    : T * StsState * option Z :=
  match toks with
  | [] => (t, st, None)
  | tok :: rest =>
      let '(name, val, _) := Cut tok x3d in
      if name != §"sts" then notify_tokens env tnow secure connAddr rest t st
      else
        let v := parseSTS val in
        if negb secure && (port v >? 0) then (t, st, Some (port v))
        else
          let '(t, st) := if secure && hasDuration v then applySTS cfg persisted env tnow connAddr (duration v) t st else (t, st) in
          notify_tokens env tnow secure connAddr rest t st
  end.

Definition capNotifySTS (env : Env) (tnow : Z) (secure : bool) (connAddr : gostring) (params : list gostring) (t : T) (st : StsState)
    : T * StsState * option Z :=
  if (len params <? 3) || negb (ToUpper (default [] (params !! 1%nat)) == §"NEW") then (t, st, None)
  else notify_tokens env tnow secure connAddr (Fields (default [] (last params))) t st.
End notify.
