(* ===== verification/StsManagerProofs.v ===== *)
(** * STS enforcement: no silent downgrade

    The life of one manager as a transition system over a store other managers
    may change at any time, the invariant of its policy state, and the theorems:
    a plaintext dial is always justified by what was read just before it, an
    upgrade is followed by a secure dial, and a policy that was persisted protects
    the network after a restart. *)

From S2P Require Import Prelude GoStrings GoUtf8 GoNet Sts StsStore StsStoreProofs StsManager Pacing Config.

(** ** The manager's life *)

Section life.
Context `{Huni : Unicode, Hip : NetIP} `{Hops : StsStoreOps T} `{Hlaws : !StsStoreLaws T}.
Variables (cfg : Config) (persisted : bool).

(** What the load that allows a dial was made from. *)
Record load := MkLoad { lEnv : Env; lNow : Z; lStore : T; lState : StsState; lErr : option stsError }.

Inductive phase :=
  | AtGate
  | Ready (l : load)
  | Live (addr : gostring) (secure : bool).

Record world := MkWorld { clock : Z; tab : T; sts : StsState; ph : phase }.

Inductive wstep : world -> world -> Prop :=
  | w_tick n w : 0 <= n -> wstep w (MkWorld (clock w + n) (tab w) (sts w) (ph w))
  | w_others t w : wstep w (MkWorld (clock w) t (sts w) (ph w))
  | w_load env err t' st' w :
      ph w = AtGate -> now env <= clock w ->
      loadSTS cfg persisted env (clock w) (tab w) (sts w) = (err, t', st') -> gate cfg err = true ->
      wstep w (MkWorld (clock w) t' st' (Ready (MkLoad env (clock w) (tab w) (sts w) err)))
  | w_refused env err t' st' w :
      ph w = AtGate -> loadSTS cfg persisted env (clock w) (tab w) (sts w) = (err, t', st') -> gate cfg err = false ->
      wstep w (MkWorld (clock w) t' st' AtGate)
  | w_dial l addr secure w :
      ph w = Ready l -> effectiveAddr cfg (clock w) (sts w) = (addr, secure) ->
      wstep w (MkWorld (clock w) (tab w) (sts w) (Live addr secure))
  | w_dial_failed l w : ph w = Ready l -> wstep w (MkWorld (clock w) (tab w) (sts w) AtGate)
  | w_policy env addr d t' st' w :
      ph w = Live addr true -> 0 <= d -> applySTS cfg persisted env (clock w) addr d (tab w) (sts w) = (t', st') ->
      wstep w (MkWorld (clock w) t' st' (ph w))
  | w_upgrade addr port w :
      ph w = Live addr false -> 0 < port -> wstep w (MkWorld (clock w) (tab w) (adoptUpgrade port (sts w)) AtGate)
  | w_close_secure env addr t' st' w :
      ph w = Live addr true -> rescheduleSTS cfg persisted env (clock w) (tab w) (sts w) = (t', st') ->
      wstep w (MkWorld (clock w) t' st' AtGate)
  | w_close addr w : ph w = Live addr false -> wstep w (MkWorld (clock w) (tab w) (sts w) AtGate).

Definition start (n : Z) (t : T) : world := MkWorld n t newStsState AtGate.
Definition wreachable (w : world) : Prop := exists n t, rtc wstep (start n t) w.

(** ** The invariant *)

Definition sts_inv (st : StsState) : Prop :=
  (stsSession st = true -> 0 < stsPort st /\ stsUntil st = None /\ stsLastDur st = 0) /\
  (stsDirty st = true -> stsUntil st = None -> stsSession st = true) /\
  (persisted = false -> stsDirty st = false).

Definition world_inv (w : world) : Prop :=
  sts_inv (sts w) /\
  match ph w with
  | Ready l => lNow l <= clock w /\ now (lEnv l) <= lNow l /\ sts_inv (lState l) /\ gate cfg (lErr l) = true /\
               exists t', loadSTS cfg persisted (lEnv l) (lNow l) (lStore l) (lState l) = (lErr l, t', sts w)
  | _ => True
  end.

Lemma resolve_inv r e a loc u st :
  sts_inv st -> persisted = true -> sts_inv (resolveSTSDirtyLocked r e a loc u st).2.
Proof.
  intros (I1 & I2 & I3) Hp. unfold resolveSTSDirtyLocked. destruct_if as E; (split; [exact I1|split]); cbn; try done; congruence.
Qed.

Lemma adopt_inv tnow p st : sts_inv st -> persisted = true -> sts_inv (adopt tnow p st).
Proof.
  intros Hi Hp. unfold adopt. pose proof (resolve_inv (pRevision p) (pEpoch p) (storeActive tnow p) (localActive tnow st) (storeUntil p) st Hi Hp) as Hr.
  assert (sts_inv (if stsDirty st then resolveSTSDirtyLocked (pRevision p) (pEpoch p) (storeActive tnow p) (localActive tnow st) (storeUntil p) st
    else (false, st)).2) as H1 by by destruct (stsDirty st).
  assert (forall b st1, (if stsDirty st then resolveSTSDirtyLocked (pRevision p) (pEpoch p) (storeActive tnow p) (localActive tnow st) (storeUntil p) st
    else (false, st)) = (b, st1) -> b = false -> stsDirty st1 = false) as H2.
  { intros b st1. unfold resolveSTSDirtyLocked. destruct (stsDirty st) eqn:Ed; [destruct_if as E|]; by intros [= <- <-]. }
  destruct (if stsDirty st then _ else _) as [b st1]. specialize (H2 b st1 eq_refl). cbn [snd] in H1. destruct b; [done|].
  specialize (H2 eq_refl). destruct H1 as (I1 & I2 & I3). cbv zeta. destruct (storeActive tnow p).
  - split; [done|]. split; [done|]. cbn. congruence.
  - cbn [stsSession set_revision]. destruct (stsSession st1) eqn:Es; cbn [negb].
    + split; [cbn; by rewrite Es in *|]. split; cbn; [congruence|done].
    + split; [done|]. split; cbn; [congruence|done].
Qed.

Lemma load_inv env tnow t st : sts_inv st -> sts_inv (loadSTS cfg persisted env tnow t st).2.
Proof.
  intros Hi. unfold loadSTS. destruct persisted eqn:Ep; [|done]. cbn [negb]. destruct (SplitHostPort (Addr cfg)) as [[host q]|]; [|done].
  destruct (st_policy env _ t) as [t' [e|p]]; [done|]. by apply adopt_inv.
Qed.

Lemma apply_inv env tnow addr d t st : sts_inv st -> sts_inv (applySTS cfg persisted env tnow addr d t st).2.
Proof.
  intros Hi. pose proof Hi as (I1 & I2 & I3). unfold applySTS. destruct (SplitHostPort (Addr cfg)) as [[host q]|]; [|done].
  destruct (SplitHostPort addr) as [[ch ps]|]; [|done]. cbv zeta. destruct (Atoi ps) as [pt ok]. destruct ok; [|done]. cbn [negb].
  destruct persisted eqn:Ep; cbn [negb].
  - destruct (Z.eqb_spec d 0).
    + destruct (st_clear env _ t) as [t' [err|[r ep]]]; (split; [done|]); split; cbn; congruence.
    + destruct (st_set env _ _ _ _ t) as [t' [err|[r ep]]]; (split; [done|]); split; cbn; congruence.
  - specialize (I3 eq_refl). destruct (d =? 0); (split; [done|]); split; cbn; congruence.
Qed.

Lemma reschedule_inv env tnow t st : sts_inv st -> sts_inv (rescheduleSTS cfg persisted env tnow t st).2.
Proof.
  intros Hi. pose proof Hi as (I1 & I2 & I3). unfold rescheduleSTS. destruct_if as E; [done|].
  assert (stsSession st = false) as Es.
  { destruct (stsSession st); [|done]. destruct (I1 eq_refl) as (_ & _ & Hd). rewrite Hd in E. done. }
  cbv zeta. destruct persisted eqn:Ep; cbn [negb orb].
  - destruct_if as E2; [split; cbn; [congruence|]; split; [done|congruence]|].
    destruct (SplitHostPort (Addr cfg)) as [[host q]|]; [|split; cbn; [congruence|]; split; [done|congruence]].
    destruct_if as E3; [split; cbn; [congruence|]; split; [done|congruence]|].
    destruct (st_reschedule env _ _ _ t) as [t' [err|[r [|]]]]; (split; cbn; [congruence|]; split; [done|congruence]).
  - split; cbn; [congruence|]. split; [done|]. intros _. by apply I3.
Qed.

Lemma wstep_inv w w' : wstep w w' -> world_inv w -> world_inv w'.
Proof.
  intros Hs [Hi Hp]. destruct Hs as [n w Hn|t w|env err t' st' w Hph Hnow El Hg|env err t' st' w Hph El Hg|l addr sec w Hph He|l w Hph
    |env addr d t' st' w Hph Hd Ea|addr pt w Hph Hpt|env addr t' st' w Hph Er|addr w Hph]; (split; [|cbn [ph sts clock]]); cbn [sts]; try done.
  - destruct (ph w) as [|l|]; [done| |done]. destruct Hp as (? & ? & ? & ? & t' & ?). split_and!; [lia|done..|]. by exists t'.
  - pose proof (load_inv env (clock w) (tab w) (sts w) Hi) as Hl. by rewrite El in Hl.
  - cbn [lNow lEnv lState lErr lStore]. split_and!; [lia|done..|]. by exists t'.
  - pose proof (load_inv env (clock w) (tab w) (sts w) Hi) as Hl. by rewrite El in Hl.
  - pose proof (apply_inv env (clock w) addr d (tab w) (sts w) Hi) as Hl. by rewrite Ea in Hl.
  - by rewrite Hph.
  - destruct Hi as (I1 & I2 & I3). by repeat split.
  - pose proof (reschedule_inv env (clock w) (tab w) (sts w) Hi) as Hl. by rewrite Er in Hl.
Qed.

Lemma wreachable_inv w : wreachable w -> world_inv w.
Proof.
  intros (n & t & Hr). refine (rtc_ind_r (R := wstep) world_inv (start n t) _ _ w Hr).
  - by repeat split.
  - intros x y _ Hs. by apply wstep_inv.
Qed.

(** ** Theorems *)

(** The state after a load, when the next dial is not secured by a policy. *)
Lemma adopt_exposed tnow t2 p st :
  sts_inv st -> tnow <= t2 -> (pOk p = true -> 0 < pPort p) -> localActive t2 (adopt tnow p st) = false ->
  (storeActive t2 p = true ->
    stsDirty st = true /\ stsDirtyFull st = true /\ localActive tnow st = true /\ localActive t2 st = false) /\
  (stsDirty st = true -> stsSession st = false -> localActive t2 st = true ->
    stsDirtyBaseEpochKnown st = true /\ pEpoch p <> stsDirtyBaseEpoch st) /\
  (stsSession st = true -> storeActive tnow p = true /\ storeActive t2 p = false).
Proof.
  intros (I1 & I2 & _) Ht Hport.
  assert (storeActive t2 p = true -> storeActive tnow p = true) as Hmono by (unfold storeActive; lia).
  assert (localActive t2 st = true -> localActive tnow st = true) as Hloc.
  { unfold localActive, unexpired. destruct (stsUntil st); lia. }
  assert (stsSession st = true -> localActive t2 st = true) as Hses.
  { intros Hs. destruct (I1 Hs) as (? & Hu & _). unfold localActive, unexpired. rewrite Hu. lia. }
  assert (storeActive tnow p = true -> (0 <? pPort p) = true) as Hpp.
  { unfold storeActive. destruct (pOk p); [|done]. specialize (Hport eq_refl). lia. }
  assert (forall st2, localActive t2 (set_policy (pPort p) (Some (storeUntil p)) (pDuration p) false st2) = false ->
    storeActive tnow p = true -> storeActive t2 p = false) as Hadopted.
  { intros st2. unfold localActive, storeActive. simpl. lia. }
  unfold adopt, resolveSTSDirtyLocked. destruct (stsDirty st) eqn:Ed.
  - destruct (stsDirtyBaseEpochKnown st && negb (pEpoch p =? stsDirtyBaseEpoch st)) eqn:En; cbn [negb andb].
    + cbv iota zeta. intros El. split_and!.
      * intros Hsa. specialize (Hmono Hsa). rewrite Hmono in El. specialize (Hadopted _ El Hmono). congruence.
      * intros _ _ _. lia.
      * intros Hs. destruct (storeActive tnow p) eqn:Esa; [split; [done|by eapply Hadopted]|]. cbn [stsSession set_revision clear_dirty set_dirty] in El.
        rewrite Hs in El. cbn [negb] in El. change (localActive t2 st = false) in El. specialize (Hses Hs). congruence.
    + destruct (localActive tnow st) eqn:Elt; cbn [andb].
      * destruct (stsDirtyFull st || negb (storeActive tnow p) || until_after (stsUntil st) (storeUntil p)) eqn:Er; cbv iota zeta.
        -- change (localActive t2 (set_dirty _ _ _ _ _)) with (localActive t2 st). intros El.
           split_and!; [|congruence|intros Hs; specialize (Hses Hs); congruence].
           intros Hsa. specialize (Hmono Hsa). rewrite Hmono in Er. split_and!; [done| |done..].
           destruct (stsDirtyFull st); [done|]. cbn in Er. unfold until_after in Er. unfold localActive, unexpired in El, Elt.
           destruct (stsUntil st) as [u|]; [|done]. unfold storeActive in Hsa. lia.
        -- destruct (storeActive tnow p) eqn:Esa; [|by rewrite orb_true_r in Er]. intros El. specialize (Hadopted _ El eq_refl).
           split_and!; [congruence| |done]. intros _ Hs Hl. exfalso.
           destruct (stsUntil st) as [u|] eqn:Eu; [|rewrite (I2 eq_refl eq_refl) in Hs; done].
           unfold until_after in Er. unfold localActive, unexpired in Hl. rewrite Eu in Hl. unfold storeActive in Hadopted, Esa. lia.
      * cbv iota zeta. intros El.
        assert (localActive t2 st = false) as Hl2 by (destruct (localActive t2 st); [by discriminate Hloc|done]).
        split_and!; [|congruence|intros Hs; specialize (Hses Hs); congruence].
        intros Hsa. specialize (Hmono Hsa). rewrite Hmono in El. specialize (Hadopted _ El Hmono). congruence.
  - cbv iota zeta. intros El. split_and!; [|done|].
    + intros Hsa. specialize (Hmono Hsa). rewrite Hmono in El. specialize (Hadopted _ El Hmono). congruence.
    + intros Hs. destruct (storeActive tnow p) eqn:Esa; [split; [done|by eapply Hadopted]|].
      cbn [stsSession set_revision] in El. rewrite Hs in El. cbn [negb] in El. change (localActive t2 st = false) in El.
      specialize (Hses Hs). congruence.
Qed.

Lemma effective_plain t2 st host q addr :
  TLS cfg = false -> SplitHostPort (Addr cfg) = Some (host, q) ->
  effectiveAddr cfg t2 st = (addr, false) -> localActive t2 st = false /\ addr = Addr cfg.
Proof.
  intros Ht Hh. unfold effectiveAddr. rewrite Ht, Hh. fold (localActive t2 st). destruct (localActive t2 st); by intros [= <-].
Qed.

(** C13. No silent downgrade.  When a network with a policy store is about to be
    dialled in the clear, the load made just before it succeeded, and:
    - an unexpired policy the store held then, under any spelling of the host,
      is overridden by a newer one, received on a verified connection, whose
      write failed and which has expired meanwhile;
    - a policy received on a verified connection but not persisted, and still in
      force, has been replaced by a Set or Clear of another manager;
    - an upgrade the server asked for has been replaced by a stored policy that
      was in force at the load and has expired since. *)
Theorem plaintext_dial_justified w l host q addr :
  wreachable w -> ph w = Ready l -> persisted = true -> TLS cfg = false -> SplitHostPort (Addr cfg) = Some (host, q) ->
  effectiveAddr cfg (clock w) (sts w) = (addr, false) ->
  exists p t', st_policy (lEnv l) (canonicalSTSHost host) (lStore l) = (t', inr p) /\ sts w = adopt (lNow l) p (lState l) /\
  (forall u, st_ok (canonicalSTSHost host) (lStore l) -> st_holds (canonicalSTSHost host) u (lStore l) -> clock w < u * Millisecond ->
    stsDirtyFull (lState l) = true /\ localActive (lNow l) (lState l) = true /\ localActive (clock w) (lState l) = false) /\
  (stsDirty (lState l) = true -> stsSession (lState l) = false -> localActive (clock w) (lState l) = true ->
    stsDirtyBaseEpochKnown (lState l) = true /\ pEpoch p <> stsDirtyBaseEpoch (lState l)) /\
  (stsSession (lState l) = true -> storeActive (lNow l) p = true /\ storeActive (clock w) p = false).
Proof.
  intros Hr Hph Hp Ht Hh He. destruct (wreachable_inv w Hr) as [_ Hi]. rewrite Hph in Hi.
  destruct Hi as (Hn & Hn2 & Hli & Hg & t' & Hl). destruct (effective_plain _ _ _ _ _ Ht Hh He) as [Hx _].
  unfold loadSTS in Hl. rewrite Hp, Hh in Hl. cbn [negb] in Hl.
  destruct (st_policy (lEnv l) (canonicalSTSHost host) (lStore l)) as [t1 [e|p]] eqn:Epol.
  { exfalso. injection Hl as Hle _ _. rewrite <- Hle in Hg. unfold gate in Hg. by rewrite Ht in Hg. }
  injection Hl as _ <- Hst. exists p, t1. split; [done|]. split; [done|]. rewrite <- Hst in Hx.
  destruct (adopt_exposed (lNow l) (clock w) p (lState l) Hli Hn) as (A1 & A2 & A3); [|done|].
  - intros Hok. pose proof (st_sane _ _ _ _ _ Epol Hok). lia.
  - split_and!; [|done..]. intros u Hok Hh' Hu. assert (now (lEnv l) < u * Millisecond) as Hnu by (clear -Hn Hn2 Hu; lia).
    destruct (st_found _ _ _ _ u p Hok Hh' Hnu Epol) as [Hpo Hpu].
    destruct A1 as (_ & ? & ? & ?); [|done]. unfold storeActive, storeUntil. rewrite Hpo. cbn [andb].
    apply Z.ltb_lt. clear -Hu Hpu. unfold Millisecond in *. lia.
Qed.

(** An upgrade a server asks for on an insecure connection is acted on: the
    next dial, whatever the store says, goes to TLS, on the advertised port or on
    the port of a stored policy in force. *)
Theorem upgrade_dials_secure env tnow port t st t' st' host q :
  0 < port -> TLS cfg = false -> SplitHostPort (Addr cfg) = Some (host, q) ->
  loadSTS cfg persisted env tnow t (adoptUpgrade port st) = (None, t', st') ->
  exists p, effectiveAddr cfg tnow st' = (JoinHostPort host (Itoa p), true) /\
    (p = port \/ exists r, st_policy env (canonicalSTSHost host) t = (t', inr r) /\ storeActive tnow r = true /\ p = pPort r).
Proof.
  intros Hp Ht Hh. unfold loadSTS. destruct persisted; cbn [negb].
  2:{ intros [= <- <-]. exists port. split; [|by left]. unfold effectiveAddr. rewrite Ht, Hh. simpl. by destruct (Z.gtb_spec port 0); [|lia]. }
  rewrite Hh. destruct (st_policy env (canonicalSTSHost host) t) as [t1 [e|r]] eqn:Epol; [done|]. intros [= <- <-].
  assert (forall st2, stsPort st2 = port -> stsUntil st2 = None -> effectiveAddr cfg tnow st2 = (JoinHostPort host (Itoa port), true)) as Hown.
  { intros st2 E1 E2. unfold effectiveAddr. rewrite Ht, Hh, E1, E2. simpl. by destruct (Z.gtb_spec port 0); [|lia]. }
  unfold adopt, resolveSTSDirtyLocked. destruct (stsDirty (adoptUpgrade port st)); [destruct_if as Er|].
  1:{ exists port. split; [by apply Hown|by left]. }
  all: cbv iota zeta; destruct (storeActive tnow r) eqn:Esa; [|exists port; split; [by apply Hown|by left]].
  all: exists (pPort r); split; [|right; by exists r]; unfold storeActive in Esa; destruct (pOk r) eqn:Eok; [|done];
    pose proof (st_sane _ _ _ _ _ Epol Eok); unfold effectiveAddr; rewrite Ht, Hh; cbn [stsPort stsUntil set_policy unexpired]; cbn [andb] in Esa;
    rewrite Esa; by destruct (Z.gtb_spec (pPort r) 0); [|lia].
Qed.

(** C36. Protection survives a restart.  After a policy was received on a secure
    connection and the store was healthy, a manager that starts from nothing and
    loads before the expiry dials TLS on the port of that connection. *)
Theorem restart_protected env1 env2 t0 t2 connAddr ch ps port d host q t st :
  TLS cfg = false -> persisted = true -> SplitHostPort (Addr cfg) = Some (host, q) ->
  SplitHostPort connAddr = Some (ch, ps) -> Atoi ps = (port, true) -> 1 <= port <= 65535 ->
  0 < d -> 1 <= (t0 + d) / Millisecond <= maxInt64 -> t2 < (t0 + d) / Millisecond * Millisecond ->
  st_ok (canonicalSTSHost host) t -> env_ok env1 -> scanOk env2 = true ->
  let t1 := (applySTS cfg persisted env1 t0 connAddr d t st).1 in
  exists st2, loadSTS cfg persisted env2 t2 t1 newStsState = (None, t1, st2) /\
    effectiveAddr cfg t2 st2 = (JoinHostPort host (Itoa port), true).
Proof.
  intros Ht Hp Hh Hc Ha Hport Hd Hu Ht2 Hok (Es & Ew & Een) Hs2. cbv zeta. unfold applySTS, loadSTS. rewrite Hp, Hh, Hc, Ha. cbn [negb].
  destruct (Z.eqb_spec d 0); [lia|].
  destruct (st_set env1 (canonicalSTSHost host) port (t0 + d) d t) as [t1 r] eqn:Eset.
  destruct (st_set_read _ env2 _ _ _ _ _ _ _ Hok Es Ew Een Hs2 Hport Hu Eset) as (rev & ep & -> & p & Epol & Hpo & Hpp & Hpu).
  cbn [fst]. rewrite Epol. eexists. split; [reflexivity|].
  assert (storeActive t2 p = true) as Hsa by (unfold storeActive, storeUntil; rewrite Hpo, Hpu; simpl; lia).
  unfold adopt. cbn [stsDirty newStsState]. rewrite Hsa. unfold effectiveAddr. rewrite Ht, Hh. cbn [stsPort stsUntil set_policy unexpired].
  rewrite Hpp. unfold storeActive in Hsa. rewrite Hpo in Hsa. cbn [andb] in Hsa. rewrite Hsa. by destruct (Z.gtb_spec port 0); [|lia].
Qed.
End life.

(** ** The real store *)

Section real.
Context `{Huni : Unicode, Hip : NetIP, Hcodec : StsCodec, !StsCodecLaws}.

#[export] Instance store_ops : StsStoreOps table := {|
  st_policy := STSPolicy;
  st_set env h port until d := SetSTSPolicy env h port (until / Millisecond) d;
  st_clear := ClearSTSPolicy;
  st_reschedule env h rev until := RescheduleSTSPolicy env h rev (until / Millisecond)
|}.

Lemma decode_port v present p : decodeSTSPolicy v present = inr p -> pOk p = true -> 1 <= pPort p <= 65535.
Proof.
  unfold decodeSTSPolicy. destruct (negb present); [by intros [= <-]|]. destruct (Unmarshal v) as [rec|]; [|done].
  destruct (rDisabled rec); [destruct (_ =? _); [done|by intros [= <-]]|]. destruct (rUntil rec); [|done].
  destruct_if as E; [done|]. intros [= <-] _. simpl. lia.
Qed.

Lemma policy_port env h t t' q : STSPolicy env h t = (t', inr q) -> pOk q = true -> 1 <= pPort q <= 65535.
Proof.
  unfold STSPolicy, mbind_, lift. destruct (stsValueLocked env (canonicalSTSHost h) t) as [t1 [e|[v|]]]; [done|..];
    intros Hd; exact (decode_port _ _ q (f_equal snd Hd)).
Qed.

(** internal/store's policies keep what the manager relies on. *)
#[export] Program Instance store_laws : StsStoreLaws table := {|
  st_ok h t := NoDup t.*1 /\ stable_host h;
  st_holds h u t := exists row p, row ∈ t /\ is_alias (chost h) row = true /\ decodeSTSPolicy row.2 true = inr p /\ pOk p = true /\ pUntil p = u
|}.
Next Obligation.
  intros env h t t' u q [Hnd Hst] (row & p & Hin & Hal & Hd & Hok & <-) Hn Hr.
  eapply (active_row_read h env t t' row p q Hnd Hin Hal Hd); [|exact Hr]. by split.
Qed.
Next Obligation. intros env h t t' q. apply policy_port. Qed.
Next Obligation.
  intros env1 env2 h port until d t t' r [Hnd Hst] Hs Hw He Hs2 Hp Hu. unfold st_set, store_ops. intros Eset.
  destruct (set_read_back h Hst env1 env2 port (until / Millisecond) d t Hnd) as (t1 & rev & ep & E1 & E2 & _);
    [by split|done..|]. rewrite Eset in E1. injection E1 as -> ->. exists rev, ep. split; [done|]. eexists. split; [exact E2|]. done.
Qed.
End real.

(** ** Examples *)

#[local] Existing Instance ascii_unicode.
#[local] Instance plain_ip : NetIP := {| ParseAddr _ := None |}.

#[local] Existing Instance bits_codec.
#[local] Existing Instance bits_codec_laws.

Definition demo_cfg : Config :=
  MkConfig §"net" §"irc.example:6667" false true [] [] None §"me" [] [] [] None [] ∅ (Backoff.MkConfig 0 0 0) 0 0 0 0 0 0.

Definition demo_world : world (T := table) := start 1000000000000 [].
Definition demo_load : load (T := table) := MkLoad good_env 1000000000000 [] newStsState None.
Definition demo_ready : world (T := table) := MkWorld 1000000000000 [] (adopt 1000000000000 (MkPolicy 0 0 0 0 0 false) newStsState) (Ready demo_load).

Lemma demo_reachable : wreachable demo_cfg true demo_ready.
Proof.
  exists 1000000000000, []. eapply rtc_l; [|apply rtc_refl].
  apply (w_load demo_cfg true good_env None [] _ demo_world); [reflexivity|vm_compute; congruence|vm_compute; reflexivity|reflexivity].
Qed.

(** Without any policy the first dial is in the clear, as configured. *)
Lemma plaintext_dial_justified_witness :
  effectiveAddr demo_cfg (clock demo_ready) (sts demo_ready) = (§"irc.example:6667", false) /\
  exists p t', st_policy good_env (canonicalSTSHost §"irc.example") ([] : table) = (t', inr p) /\ sts demo_ready = adopt (lNow demo_load) p newStsState.
Proof.
  assert (effectiveAddr demo_cfg (clock demo_ready) (sts demo_ready) = (§"irc.example:6667", false)) as He by (vm_compute; reflexivity).
  split; [exact He|].
  destruct (plaintext_dial_justified demo_cfg true demo_ready demo_load §"irc.example" §"6667" §"irc.example:6667"
    demo_reachable eq_refl eq_refl eq_refl eq_refl He) as (p & t' & H1 & H2 & _).
  exists p, t'. split; [exact H1|exact H2].
Defined.

Lemma upgrade_dials_secure_witness :
  exists p, effectiveAddr demo_cfg 0 (adopt 0 (MkPolicy 0 0 0 0 0 false) (adoptUpgrade 6697 newStsState)) =
    (JoinHostPort §"irc.example" (Itoa p), true).
Proof.
  destruct (upgrade_dials_secure (T := table) demo_cfg true good_env 0 6697 [] newStsState []
    (adopt 0 (MkPolicy 0 0 0 0 0 false) (adoptUpgrade 6697 newStsState)) §"irc.example" §"6667") as (p & Hp & _);
    [lia|reflexivity|reflexivity|vm_compute; reflexivity|].
  exists p. exact Hp.
Defined.

Lemma restart_protected_witness :
  let t1 := (applySTS demo_cfg true good_env 1000000000000 §"irc.example:6697" (3600 * Second) ([] : table) newStsState).1 in
  exists st2, loadSTS demo_cfg true good_env 2000000000000 t1 newStsState = (None, t1, st2) /\
    effectiveAddr demo_cfg 2000000000000 st2 = (§"irc.example:6697", true).
Proof.
  apply (restart_protected demo_cfg true good_env good_env 1000000000000 2000000000000 §"irc.example:6697" §"irc.example" §"6697" 6697
    (3600 * Second) §"irc.example" §"6667" [] newStsState); try reflexivity; try (vm_compute; split; congruence).
  - split; [constructor|vm_compute; reflexivity].
  - apply good_env_ok.
Defined.
