(* ===== verification/Multiline.v ===== *)
(** * draft/multiline: internal/irc/multiline.go

    Reconstruction of incoming multiline batches under its defensive ceilings,
    and the splitting, validation and atomic sending of outgoing ones. *)

From S2P Require Import Prelude GoStrings GoUtf8 GoNet IrcMsg ISupport Roster Outbound.

(** ** Incoming *)

Definition concatTag : gostring := §"draft/multiline-concat".

Definition maxOpenMLBatches : Z := 8.
Definition maxMLBatchLines : Z := 1024.
Definition maxMLBatchBytes : Z := 64 * 1024.

Record mlAccum := MkAccum {
  aTarget : gostring;
  aCommand : gostring;
  aPrefix : option Prefix;
  aTags : gmap gostring gostring;
  aBody : gostring;
  aFirst : bool;
  aLines : Z
}.

Abbreviation multiline := (gmap gostring mlAccum).
Definition newMultiline : multiline := ∅.

Inductive mlErr := ErrTooManyBatches | ErrTooManyLines | ErrTooManyBytes.
#[global] Instance mlErr_eq_dec : EqDecision mlErr.
Proof. solve_decision. Defined.

Section incoming.
Context `{IrcV4}.

Definition add (m : Message) (a : mlAccum) : mlErr + mlAccum :=
  if (Command m != §"PRIVMSG") && (Command m != §"NOTICE") then inr a
  else
    let body := Trailing m in
    let newline := if bool_decide (is_Some (Tags m !! concatTag)) then false else negb (aFirst a) in
    let sep := if newline then 1 else 0 in
    if aLines a + 1 >? maxMLBatchLines then inl ErrTooManyLines
    else if len (aBody a) + sep + len body >? maxMLBatchBytes then inl ErrTooManyBytes
    else if aFirst a then
      inr (MkAccum (aTarget a) (Command m) (match aPrefix a with None => mPrefix m | Some p => Some p end) (aTags a)
             (aBody a ++ body) false (aLines a + 1))
    else
      inr (MkAccum (aTarget a) (aCommand a) (aPrefix a) (aTags a)
             ((if newline then aBody a ++ [x0a] else aBody a) ++ body) false (aLines a + 1)).

Definition build (a : mlAccum) : option Message :=
  if aCommand a == [] then None
  else Some {| Tags := aTags a; mPrefix := aPrefix a; Command := aCommand a; Params := [aTarget a; aBody a] |}.

(** The reconstructed message, whether the line was consumed, and the batches
    still open; an error ends the connection. *)
Definition feed (m : Message) (ml : multiline) : mlErr + (option Message * bool * multiline) :=
  let p0 := default [] (Params m !! 0%nat) in
  if (Command m == §"BATCH") && (3 <=? len (Params m)) && HasPrefix p0 §"+" && (default [] (Params m !! 1%nat) == §"draft/multiline")
  then
    if maxOpenMLBatches <=? Z.of_nat (size ml) then inl ErrTooManyBatches
    else inr (None, true,
           <[slice_from p0 1 := MkAccum (default [] (Params m !! 2%nat)) [] (mPrefix m) (Tags m) [] true 0]> ml)
  else if (Command m == §"BATCH") && (1 <=? len (Params m)) && HasPrefix p0 §"-" then
    let ref := slice_from p0 1 in
    match ml !! ref with
    | None => inr (None, false, ml)
    | Some acc => inr (build acc, true, delete ref ml)
    end
  else
    let ref := default [] (Tags m !! §"batch") in
    match (if ref != [] then ml !! ref else None) with
    | Some acc =>
        match add m acc with
        | inl e => inl e
        | inr acc' => inr (None, true, <[ref := acc']> ml)
        end
    | None => inr (None, false, ml)
    end.

(** The read loop's use of it: the messages passed on, in order, until an error. *)
Fixpoint feed_all (ms : list Message) (ml : multiline) : mlErr + (list Message * multiline) :=
  match ms with
  | [] => inr ([], ml)
  | m :: rest =>
      match feed m ml with
      | inl e => inl e
      | inr (emit, consumed, ml') =>
          match feed_all rest ml' with
          | inl e => inl e
          | inr (out, ml'') => inr (match emit with Some x => [x] | None => [] end ++ (if consumed then [] else [m]) ++ out, ml'')
          end
      end
  end.

(** *** Outgoing *)

Record multilineLimits := MkLimits { maxBytes : Z; maxLines : Z }.

Definition limits_token (lim : multilineLimits) (tok : gostring) : multilineLimits :=
  let '(k, v, _) := Cut tok x3d in
  let n := (Atoi v).1 in
  if k == §"max-bytes" then MkLimits n (maxLines lim)
  else if k == §"max-lines" then MkLimits (maxBytes lim) n
  else lim.
Definition parseMultilineLimits (value : gostring) : multilineLimits :=
  foldl limits_token (MkLimits 0 0) (Split value x2c).

Inductive sendMlErr :=
  | MlLines (n limit : Z)
  | MlLineLen (n limit room : Z)
  | MlBytes (n limit : Z)
  | MlBatchTooLarge (n : Z)
  | MlSend (e : sendErr).
#[global] Instance sendMlErr_eq_dec : EqDecision sendMlErr.
Proof. solve_decision. Defined.

Definition multilineOverhead (prefixLen : Z) (target : gostring) : Z :=
  prefixLen + len §"@batch=ml18446744073709551615 PRIVMSG " + len target + len (§" :" ++ [x0d; x0a]).

Fixpoint check_lines (lineLen overhead : Z) (lines : list gostring) (total : Z) : sendMlErr + Z :=
  match lines with
  | [] => inr total
  | l :: rest =>
      if len l + overhead >? lineLen then inl (MlLineLen (len l) lineLen (lineLen - overhead))
      else check_lines lineLen overhead rest (total + len l)
  end.

Definition validateMultiline (target : gostring) (lines : list gostring) (lim : multilineLimits) (lineLen prefixLen : Z)
    : option sendMlErr :=
  if (maxLines lim >? 0) && (len lines >? maxLines lim) then Some (MlLines (len lines) (maxLines lim))
  else
    let lineLen := if lineLen <=? 0 then 512 else lineLen in
    match check_lines lineLen (multilineOverhead prefixLen target) lines 0 with
    | inl e => Some e
    | inr total =>
        let total := total + (len lines - 1) in
        if (maxBytes lim >? 0) && (total >? maxBytes lim) then Some (MlBytes total (maxBytes lim)) else None
    end.

Definition batchLine (ref target line : gostring) : Message :=
  {| Tags := {[ §"batch" := ref ]}; mPrefix := None; Command := §"PRIVMSG"; Params := [target; line] |}.

Definition buildMultilineBatch (ref target : gostring) (lines : list gostring) : list Message :=
  newMsg §"BATCH" [§"+" ++ ref; §"draft/multiline"; target] ::
  (batchLine ref target <$> lines) ++ [newMsg §"BATCH" [§"-" ++ ref]].

(** [seq] is the batch counter after the increment, a [uint64]. *)
Definition SendMultiline (isup : isupport) (prefix : Z) (capValue : gostring) (seq : Z) (target : gostring) (lines : list gostring)
    (s : Sender) : option sendMlErr * Sender :=
  match validateMultiline target lines (parseMultilineLimits capValue) (lineLen isup) prefix with
  | Some e => (Some e, s)
  | None =>
      let batch := buildMultilineBatch (§"ml" ++ Itoa seq) target lines in
      if len batch >? outCap then (Some (MlBatchTooLarge (len lines)), s)
      else match sendAll isup prefix batch s with
           | (Some e, s') => (Some (MlSend e), s')
           | (None, s') => (None, s')
           end
  end.
End incoming.

(** ** Memory *)

Lemma map_size_insert_le {A} (m : gmap gostring A) k x : (size (<[k := x]> m) <= S (size m))%nat.
Proof. destruct (m !! k) eqn:E; [rewrite map_size_insert_Some by by eexists|rewrite map_size_insert_None by done]; lia. Qed.

Lemma map_sum_const {A} (m : gmap gostring A) c : map_sum (fun _ _ => c) m = c * Z.of_nat (size m).
Proof.
  induction m as [|k x m Hk IH] using map_ind; [rewrite map_sum_empty, map_size_empty; lia|].
  rewrite map_sum_insert_None, map_size_insert_None, IH by done. lia.
Qed.

Section bounds.
Context `{IrcV4}.

Definition accum_ok (a : mlAccum) : Prop := len (aBody a) <= maxMLBatchBytes /\ 0 <= aLines a <= maxMLBatchLines.
Definition ml_inv (ml : multiline) : Prop :=
  Z.of_nat (size ml) <= maxOpenMLBatches /\ map_Forall (fun _ a => accum_ok a) ml.

Lemma add_ok m a a' : accum_ok a -> add m a = inr a' -> accum_ok a'.
Proof.
  intros [Hb Hl]. unfold add. destruct_if as E1; [by intros [= <-]|]. cbv zeta.
  set (nl := if bool_decide _ then false else _). destruct_if as E2; [done|]. destruct_if as E3; [done|].
  assert (len (aBody a) + (if nl then 1 else 0) + len (Trailing m) <= maxMLBatchBytes /\ aLines a + 1 <= maxMLBatchLines) as [Hbb Hll] by lia.
  destruct (aFirst a); intros [= <-]; split; cbn [aBody aLines]; rewrite ?len_app.
  - destruct nl; lia.
  - lia.
  - destruct nl; rewrite ?len_app; unfold len in *; simpl; lia.
  - lia.
Qed.

Lemma feed_inv m ml emit consumed ml' : ml_inv ml -> feed m ml = inr (emit, consumed, ml') -> ml_inv ml'.
Proof.
  intros [Hs Hf]. unfold feed. destruct_if as E1.
  - destruct_if as E2; [done|]. intros [= <- <- <-]. split.
    + pose proof (map_size_insert_le ml (slice_from (default [] (Params m !! 0%nat)) 1)
        (MkAccum (default [] (Params m !! 2%nat)) [] (mPrefix m) (Tags m) [] true 0)). lia.
    + apply map_Forall_insert_2; [|done]. split; cbn; unfold maxMLBatchBytes, maxMLBatchLines, len; simpl; lia.
  - destruct_if as E2.
    + cbv zeta. destruct (ml !! _) as [acc|] eqn:El; intros [= <- <- <-]; [|done]. split; [|by apply map_Forall_delete].
      rewrite map_size_delete_Some by by eexists. lia.
    + cbv zeta. set (ref := default [] (Tags m !! §"batch")).
      destruct (if ref != [] then ml !! ref else None) as [acc|] eqn:El; [|by intros [= <- <- <-]].
      destruct (add m acc) as [e|acc'] eqn:Ea; [done|]. intros [= <- <- <-].
      assert (ml !! ref = Some acc) as Hr by by destruct (ref != []). split.
      * rewrite map_size_insert_Some by by eexists. done.
      * apply map_Forall_insert_2; [|done]. by apply (add_ok m acc); [apply (Hf ref)|].
Qed.

(** Incoming reconstruction is bounded whatever the server sends: after any
    sequence of lines, at most 8 batches are open and they hold at most 8 times
    64 KiB of text between them, in at most 1024 lines each. *)
Theorem multiline_bounded ms out ml :
  feed_all ms newMultiline = inr (out, ml) ->
  Z.of_nat (size ml) <= maxOpenMLBatches /\
  map_sum (fun _ a => len (aBody a)) ml <= maxOpenMLBatches * maxMLBatchBytes /\
  map_Forall (fun _ a => aLines a <= maxMLBatchLines) ml.
Proof.
  intros E. assert (ml_inv ml) as [Hs Hf].
  { assert (ml_inv newMultiline) as Hi by (split; [done|apply map_Forall_empty]).
    revert Hi out ml E. generalize newMultiline. induction ms as [|m ms IH]; intros ml0 Hi out ml; cbn [feed_all]; [by intros [= <- <-]|].
    destruct (feed m ml0) as [e|[[em c] ml1]] eqn:Ef; [done|]. destruct (feed_all ms ml1) as [e|[out' ml2]] eqn:Ea; [done|].
    intros [= <- <-]. apply (IH ml1) in Ea; [done|]. by eapply feed_inv. }
  split; [done|]. split.
  - etrans; [apply (map_sum_le _ (fun _ _ => maxMLBatchBytes))|].
    + intros k a Ha. by apply (Hf k a Ha).
    + rewrite map_sum_const. unfold maxMLBatchBytes, maxOpenMLBatches in *. lia.
  - intros k a Ha. by apply (Hf k a Ha).
Qed.
End bounds.

(** ** The round trip *)

Section roundtrip.
Context `{IrcV4} `{!IrcV4Laws}.

(** A server relays a line with its sender in front. *)
Definition relay (p : Prefix) (m : Message) : Message :=
  {| Tags := Tags m; mPrefix := Some p; Command := Command m; Params := Params m |}.

(** The accumulator once [done] has been received. *)
Definition holding (p : Prefix) (target : gostring) (got : list gostring) : mlAccum :=
  match got with
  | [] => MkAccum target [] (Some p) ∅ [] true 0
  | _ => MkAccum target §"PRIVMSG" (Some p) ∅ (Join got [x0a]) false (len got)
  end.

Lemma Join_snoc l x sep : l <> [] -> Join (l ++ [x]) sep = Join l sep ++ sep ++ x.
Proof.
  induction l as [|y l IH]; [done|]. intros _. destruct l as [|z l]; [done|].
  change ((y :: z :: l) ++ [x]) with (y :: (z :: l) ++ [x]).
  change (Join (y :: z :: l) sep) with (y ++ sep ++ Join (z :: l) sep).
  assert (Join (y :: (z :: l) ++ [x]) sep = y ++ sep ++ Join ((z :: l) ++ [x]) sep) as -> by done.
  rewrite IH by done. by rewrite <- !app_assoc.
Qed.

Lemma add_line ref p target got line :
  len (got ++ [line]) <= maxMLBatchLines -> len (Join (got ++ [line]) [x0a]) <= maxMLBatchBytes ->
  add (relay p (batchLine ref target line)) (holding p target got) = inr (holding p target (got ++ [line])).
Proof.
  intros Hl Hb. unfold add. cbn [Command relay batchLine]. rewrite (bool_decide_eq_true_2 (§"PRIVMSG" = §"PRIVMSG")) by done. cbn [negb andb].
  rewrite Trailing_spec. cbn [Params relay batchLine]. change (default [] (last [target; line])) with line.
  rewrite bool_decide_eq_false_2.
  2:{ cbn [Tags relay batchLine]. rewrite lookup_singleton_ne by done. by intros [? ?]. }
  rewrite len_app, len_cons, len_nil in Hl. destruct got as [|g got].
  - simpl in Hb. cbn [holding aFirst aLines aBody negb app]. change (len []) with 0. simpl.
    destruct (Z.gtb_spec (0 + 0 + len line) maxMLBatchBytes); [lia|]. done.
  - rewrite Join_snoc in Hb by done. rewrite !len_app in Hb. change (len [x0a]) with 1 in Hb.
    change (holding p target (g :: got)) with (MkAccum target §"PRIVMSG" (Some p) ∅ (Join (g :: got) [x0a]) false (len (g :: got))).
    cbn [aFirst aLines aBody negb]. destruct (Z.gtb_spec (len (g :: got) + 1) maxMLBatchLines); [lia|].
    destruct (Z.gtb_spec (len (Join (g :: got) [x0a]) + 1 + len line) maxMLBatchBytes); [lia|].
    cbn [aTarget aCommand aPrefix aTags]. f_equal. unfold holding. destruct ((g :: got) ++ [line]) eqn:E; [done|]. rewrite <- E.
    rewrite Join_snoc by done. rewrite <- app_assoc. f_equal. rewrite len_app. done.
Qed.

Lemma feed_line ref p target line ml acc acc' :
  ref <> [] -> ml !! ref = Some acc -> add (relay p (batchLine ref target line)) acc = inr acc' ->
  feed (relay p (batchLine ref target line)) ml = inr (None, true, <[ref := acc']> ml).
Proof.
  intros Hr Hm Ha. unfold feed. cbn [Command relay batchLine]. rewrite !(bool_decide_eq_false_2 (§"PRIVMSG" = §"BATCH")) by done. cbn [andb].
  cbn [Tags relay batchLine]. rewrite lookup_singleton_eq. change (default [] (Some ref)) with ref.
  rewrite bool_decide_eq_false_2 by done. cbn [negb]. by rewrite Hm, Ha.
Qed.

Lemma feed_lines ref p target got lines ml :
  ref <> [] -> len (got ++ lines) <= maxMLBatchLines -> len (Join (got ++ lines) [x0a]) <= maxMLBatchBytes ->
  forall rest, feed_all ((relay p <$> (batchLine ref target <$> lines)) ++ rest) (<[ref := holding p target got]> ml) =
    feed_all rest (<[ref := holding p target (got ++ lines)]> ml).
Proof.
  intros Hr. revert got. induction lines as [|l lines IH]; intros got Hl Hb rest; [by rewrite app_nil_r|].
  replace (got ++ l :: lines) with ((got ++ [l]) ++ lines) in * by by rewrite <- app_assoc.
  assert (add (relay p (batchLine ref target l)) (holding p target got) = inr (holding p target (got ++ [l]))) as Ha.
  { apply add_line; [rewrite len_app in Hl; pose proof (len_nonneg lines); lia|].
    etrans; [|exact Hb]. clear. induction lines as [|x lines IH] using rev_ind; [by rewrite app_nil_r|].
    rewrite app_assoc, (Join_snoc ((got ++ [l]) ++ lines)) by by intros [[_ ?]%app_eq_nil _]%app_eq_nil. rewrite !len_app. pose proof (len_nonneg x). unfold len at 3. simpl. lia. }
  rewrite fmap_cons, fmap_cons. cbn [app feed_all]. rewrite (feed_line ref p target l _ (holding p target got) (holding p target (got ++ [l])) Hr);
    [|by rewrite lookup_insert_eq|exact Ha].
  rewrite insert_insert_eq, IH by done. by destruct (feed_all rest _) as [e|[o ml']].
Qed.

Lemma relay_batch ref target lines p ml :
  ref <> [] -> ml !! ref = None -> Z.of_nat (size ml) < maxOpenMLBatches -> lines <> [] ->
  len lines <= maxMLBatchLines -> len (Join lines [x0a]) <= maxMLBatchBytes ->
  feed_all (relay p <$> buildMultilineBatch ref target lines) ml =
    inr ([{| Tags := ∅; mPrefix := Some p; Command := §"PRIVMSG"; Params := [target; Join lines [x0a]] |}], ml).
Proof.
  intros Hr Hm Hs Hne Hl Hb. unfold buildMultilineBatch. rewrite fmap_cons, fmap_app. cbn [feed_all].
  assert (feed (relay p (newMsg §"BATCH" [§"+" ++ ref; §"draft/multiline"; target])) ml =
    inr (None, true, <[ref := holding p target []]> ml)) as ->.
  { unfold feed. cbn [Command relay newMsg Params]. change (default [] ([§"+" ++ ref; §"draft/multiline"; target] !! 0%nat)) with (§"+" ++ ref).
    rewrite HasPrefix_app. change (slice_from (§"+" ++ ref) 1) with ref. simpl.
    destruct (Z.leb_spec maxOpenMLBatches (Z.of_nat (size ml))); [lia|]. done. }
  rewrite (feed_lines ref p target [] lines ml Hr Hl Hb). cbn [app fmap list_fmap feed_all].
  assert (feed (relay p (newMsg §"BATCH" [§"-" ++ ref])) (<[ref := holding p target lines]> ml) = inr (build (holding p target lines), true, ml)) as ->.
  { unfold feed. cbn [Command relay newMsg Params]. change (default [] ([§"-" ++ ref] !! 0%nat)) with (§"-" ++ ref). rewrite HasPrefix_app.
    change (slice_from (§"-" ++ ref) 1) with ref. simpl. rewrite lookup_insert_eq. by rewrite delete_insert_id. }
  destruct lines; [done|]. done.
Qed.
End roundtrip.

(** ** What is accepted for sending arrives *)

Section sending.
Context `{IrcV4} `{!IrcV4Laws}.

Definition lines_len (lines : list gostring) : Z := foldr (fun l n => len l + n) 0 lines.

Lemma check_lines_spec lineLen overhead lines total r :
  check_lines lineLen overhead lines total = inr r ->
  r = total + lines_len lines /\ Forall (fun l => len l + overhead <= lineLen) lines.
Proof.
  revert total. induction lines as [|l lines IH]; intros total; simpl; [intros [= <-]; split; [lia|done]|].
  destruct_if as E; [done|]. intros (-> & Hf)%IH. split; [lia|]. constructor; [lia|done].
Qed.

Lemma Join_lines_len lines c : lines <> [] -> len (Join lines [c]) = lines_len lines + (len lines - 1).
Proof.
  induction lines as [|l lines IH]; [done|]. intros _. destruct lines as [|l' lines]; [simpl; unfold len; simpl; lia|].
  change (Join (l :: l' :: lines) [c]) with (l ++ [c] ++ Join (l' :: lines) [c]). rewrite !len_app, IH by done.
  change (lines_len (l :: l' :: lines)) with (len l + lines_len (l' :: lines)). rewrite !len_cons. unfold len at 2. simpl. lia.
Qed.

Lemma validate_spec target lines lim lineLen prefixLen :
  validateMultiline target lines lim lineLen prefixLen = None -> lines <> [] ->
  (0 < maxLines lim -> len lines <= maxLines lim) /\ (0 < maxBytes lim -> len (Join lines [x0a]) <= maxBytes lim) /\
  Forall (fun l => len l + multilineOverhead prefixLen target <= (if lineLen <=? 0 then 512 else lineLen)) lines.
Proof.
  intros E Hne. unfold validateMultiline in E. destruct_if as E1 in E; [done|]. cbv zeta in E.
  destruct (check_lines _ _ lines 0) as [e|r] eqn:Ec; [done|]. apply check_lines_spec in Ec as [-> Hf].
  destruct_if as E2 in E; [done|]. rewrite Join_lines_len by done. split_and!; [lia..|done].
Qed.

End sending.

(** ** Examples *)

#[local] Existing Instance ref_ircv4.
#[local] Existing Instance ref_ircv4_laws.

Definition ml_sender : Sender := MkSender true [] ∅.
Definition ml_lines : list gostring := [§"hello"; []; §"world"].

Definition ml_session : list Message :=
  [newMsg §"BATCH" [§"+a"; §"draft/multiline"; §"#c"]; batchLine §"a" §"#c" §"hi"; newMsg §"PING" [§"x"];
   batchLine §"a" §"#c" §"there"; newMsg §"BATCH" [§"-a"]].

Lemma multiline_bounded_witness :
  exists out, feed_all ml_session newMultiline = inr (out, newMultiline) /\ len out = 2 /\
    map_sum (fun _ a => len (aBody a)) newMultiline <= maxOpenMLBatches * maxMLBatchBytes.
Proof.
  assert (feed_all ml_session newMultiline =
    inr ([newMsg §"PING" [§"x"]; newMsg §"PRIVMSG" [§"#c"; §"hi" ++ [x0a] ++ §"there"]], newMultiline)) as E by (vm_compute; reflexivity).
  eexists. split; [exact E|]. split; [reflexivity|]. exact (proj1 (proj2 (multiline_bounded _ _ _ E))).
Defined.


(** ** Our own echo *)

Definition longLine : gostring := replicate 400 x61.
Definition longMessage : list gostring := replicate 170 longLine.

(** Without an advertised max-bytes there is no such guarantee: a message can
    be accepted for sending that our own reconstruction refuses, so that its
    echo (echo-message) ends the connection it was sent on. *)
Theorem own_echo_can_disconnect :
  exists s', SendMultiline newISupport 20 §"max-lines=200" 1 §"#c" longMessage ml_sender = (None, s') /\
    feed_all (relay (MkPrefix §"me" §"u" §"h") <$> out s') newMultiline = inl ErrTooManyBytes.
Proof.
  eexists. split.
  - unfold SendMultiline.
    assert (validateMultiline §"#c" longMessage (parseMultilineLimits §"max-lines=200") (lineLen newISupport) 20 = None) as -> by (vm_compute; reflexivity).
    unfold sendAll.
    assert (check_all newISupport 20 (buildMultilineBatch (§"ml" ++ Itoa 1) §"#c" longMessage) = None) as -> by (vm_compute; reflexivity).
    reflexivity.
  - vm_compute. reflexivity.
Qed.
