(* ===== verification/JoinIntent.v ===== *)
(** * Rejoin intents and lazy membership requests: internal/irc/manager.go

    The set of channels to rejoin on every registration, kept in step with our
    own JOINs and PARTs; the JOIN lines a reconnect sends; and the bounded
    per-connection sets behind NAMES and WHOX requests. *)

From S2P Require Import Prelude GoStrings GoUtf8 IrcMsg ISupport Roster Outbound.

Definition joinMsg (ch key : gostring) : Message :=
  if key == [] then newMsg §"JOIN" [ch] else newMsg §"JOIN" [ch; key].

(** The rejoin set (raw channel name -> key), the keys of outgoing JOINs (folded
    name -> key) and the channels whose NAMES were requested (folded). *)
Record Intents := MkIntents {
  joined : gmap gostring gostring;
  keys : gmap gostring gostring;
  namesReq : gset gostring
}.

(** NewManager: the configured channels with their keys. *)
Definition seedJoined (channels : list gostring) (channelKeys : gmap gostring gostring) : gmap gostring gostring :=
  foldl (fun j ch => <[ch := default [] (channelKeys !! ch)]> j) ∅ channels.

(** The joined-channel set is full: the connection is torn down. *)
Inductive intentErr := ErrJoinedSetFull.

Section intents.
Context `{IrcV4}.
Variable isup : isupport.

Definition rejoinable (ch key : gostring) : bool :=
  let msg := joinMsg ch key in
  bool_decide (checkFraming msg = None) && bool_decide (checkLineLen (scrubUTF8 isup msg) defaultLineLen = None).

(** The pruned set and the JOINs, in the order of the channel names. *)
Definition rejoinList (j : gmap gostring gostring) : list Message * gmap gostring gostring :=
  let j' := filter (fun kv => rejoinable kv.1 kv.2 = true) j in
  let chans := sort_Strings (map_to_list j').*1 in
  ((fun ch => joinMsg ch (default [] (j' !! ch))) <$> chans, j').

(** The key of the first entry, in iteration order, that spells [ch] otherwise
    and has one. *)
Fixpoint inherit_key (iter : list (gostring * gostring)) (ch : gostring) : option gostring :=
  match iter with
  | [] => None
  | (other, k) :: rest => if (k != []) && FoldEqual isup other ch then Some k else inherit_key rest ch
  end.

(** [iter] is the order of Go's iteration over [joined]. *)
Definition rememberJoinIntent (iter : list (gostring * gostring)) (ch : gostring) (s : Intents) : option intentErr * Intents :=
  if (ch == []) || negb (IsChannel isup ch) then (None, s)
  else
    let known := bool_decide (is_Some (joined s !! ch)) in
    let explicit := keys s !! Fold isup ch in
    let key := match explicit with
               | Some k => k
               | None => match joined s !! ch with
                         | Some k => k
                         | None => default [] (inherit_key iter ch)
                         end
               end in
    let sendable := rejoinable ch key in
    if negb sendable && ((key == []) || negb (rejoinable ch [])) then (None, s)
    else
      let key := if sendable then key else [] in
      if negb known && (maxJoinedChannels <=? Z.of_nat (size (joined s))) then (Some ErrJoinedSetFull, s)
      else
        let j := match explicit with
                 | Some _ => map_imap (fun other k => Some (if FoldEqual isup other ch then key else k)) (joined s)
                 | None => joined s
                 end in
        (None, MkIntents (<[ch := key]> j) (keys s) (namesReq s ∖ {[Fold isup ch]})).

Definition forgetJoinIntent (l : gostring) (s : Intents) : Intents :=
  let parted : gset gostring := list_to_set (Fold isup <$> Split l x2c) in
  MkIntents (filter (fun kv => Fold isup kv.1 ∉ parted) (joined s))
            (filter (fun kv => kv.1 ∉ parted) (keys s)) (namesReq s).

Definition trackJoinIntent (iter : list (gostring * gostring)) (nick : gostring) (m : Message) (s : Intents)
    : option intentErr * Intents :=
  match mPrefix m with
  | None => (None, s)
  | Some p =>
      if negb (FoldEqual isup (pName p) nick) then (None, s)
      else if Command m == §"JOIN" then rememberJoinIntent iter (Param m 0) s
      else if Command m == §"PART" then (None, forgetJoinIntent (Param m 0) s)
      else (None, s)
  end.

(** ** NAMES and WHOX *)

(** [gen_after] is [namesGen] when the lock is taken again after the send. *)
Definition EnsureNames (capEnabled : bool) (prefix : Z) (gen gen_after : Z) (channel : gostring) (names : gset gostring) (s : Sender)
    : gset gostring * Sender :=
  if negb capEnabled || negb (registered s) then (names, s)
  else if len channel >? maxChannelNameBytes then (names, s)
  else
    let key := Fold isup channel in
    let already := bool_decide (key ∈ names) in
    if negb already && (maxJoinedChannels <=? Z.of_nat (size names)) then (names, s)
    else if already then (names, s)
    else match Send isup prefix (newMsg §"NAMES" [channel]) s with
         | (Some _, s') => (names, s')
         | (None, s') => (if gen_after =? gen then {[key]} ∪ names else names, s')
         end.

Definition maybeWHOX (channel : gostring) (done : gset gostring) : option Message * gset gostring :=
  if (channel == []) || (len channel >? maxChannelNameBytes) then (None, done)
  else match Raw isup §"WHOX" with
  | None => (None, done)
  | Some _ =>
      let key := Fold isup channel in
      if bool_decide (key ∈ done) then (None, done)
      else if maxJoinedChannels <=? Z.of_nat (size done) then (None, done)
      else
        let msg := newMsg §"WHO" [channel; §"%tnfa," ++ whoxToken] in
        if bool_decide (is_Some (checkFraming msg)) || bool_decide (is_Some (checkLineLen (scrubUTF8 isup msg) (lineLen isup)))
        then (None, done)
        else (Some msg, {[key]} ∪ done)
  end.
End intents.

(** ** Theorems *)

Section theorems.
Context `{IrcV4}.

Lemma rejoinable_spec isup ch key :
  rejoinable isup ch key = true <->
  checkFraming (joinMsg ch key) = None /\ checkLineLen (scrubUTF8 isup (joinMsg ch key)) defaultLineLen = None.
Proof. unfold rejoinable. by rewrite andb_true_iff, !bool_decide_eq_true. Qed.

Lemma checkLineLen_mono msg a b : a <= b -> checkLineLen msg a = None -> checkLineLen msg b = None.
Proof.
  unfold checkLineLen. cbv zeta. intros Hab. set (n := len _ + 2). destruct (Z.gtb_spec n a); [done|].
  destruct (Z.gtb_spec n b); [lia|done].
Qed.

(** A rejoinable JOIN is written by a writer that scrubs the same way. *)
Lemma rejoinable_written isup isup' ch key :
  scrubUTF8 isup' (joinMsg ch key) = scrubUTF8 isup (joinMsg ch key) -> rejoinable isup ch key = true ->
  writeOne isup' (joinMsg ch key) = inr (Some (scrubUTF8 isup (joinMsg ch key))).
Proof.
  intros Es [Hf Hl]%rejoinable_spec. unfold writeOne. rewrite Hf, Es.
  by rewrite (checkLineLen_mono _ _ _ (lineLen_floor isup') Hl).
Qed.

Lemma rejoinList_elem isup j m :
  m ∈ (rejoinList isup j).1 <-> exists ch key, j !! ch = Some key /\ rejoinable isup ch key = true /\ m = joinMsg ch key.
Proof.
  unfold rejoinList. cbn [fst]. set (j' := filter _ j). rewrite list_elem_of_fmap. split.
  - intros (ch & -> & Hch). rewrite sort_Strings_perm in Hch. apply list_elem_of_fmap in Hch as ([c k] & -> & Hck%elem_of_map_to_list).
    cbn [fst]. rewrite Hck. apply map_lookup_filter_Some in Hck as [Hj Hr]. by exists c, k.
  - intros (ch & key & Hj & Hr & ->).
    assert (j' !! ch = Some key) as Hj' by by apply map_lookup_filter_Some.
    exists ch. rewrite Hj'. split; [done|]. rewrite sort_Strings_perm. apply list_elem_of_fmap. exists (ch, key).
    split; [done|]. by apply elem_of_map_to_list.
Qed.

(** A stored channel never wedges reconnecting.  The JOINs sent after
    registration are exactly those of the rejoin set that fit a default line,
    one per channel and sorted by name; what could not be sent is dropped from
    the set for good; and the writer writes each of them, neither ending the
    connection nor dropping the line, whatever LINELEN the server has announced
    by then. *)
Theorem rejoins_written isup isup' j :
  (forall m, scrubUTF8 isup' m = scrubUTF8 isup m) ->
  let '(msgs, j') := rejoinList isup j in
  StronglySorted str_le (default [] <$> ((fun m => Params m !! 0%nat) <$> msgs)) /\
  length msgs = size j' /\ (forall ch key, j' !! ch = Some key <-> j !! ch = Some key /\ joinMsg ch key ∈ msgs) /\
  (rejoinList isup j').1 = msgs /\
  Forall (fun m => writeOne isup' m = inr (Some (scrubUTF8 isup m))) msgs.
Proof.
  intros Es. unfold rejoinList. set (j' := filter _ j). split_and!.
  - rewrite <- list_fmap_compose. replace (_ <$> _) with (sort_Strings (map_to_list j').*1); [apply sort_Strings_sorted|].
    rewrite <- list_fmap_compose. symmetry. etrans; [|apply list_fmap_id]. apply list_fmap_ext. intros i ch _. unfold compose, joinMsg.
    by destruct (default [] (j' !! ch) == []).
  - rewrite length_fmap, sort_Strings_perm, length_fmap. apply length_map_to_list.
  - intros ch key. split.
    + intros Hk. split; [by apply map_lookup_filter_Some in Hk as [? _]|]. apply list_elem_of_fmap. exists ch. rewrite Hk.
      split; [done|]. rewrite sort_Strings_perm. apply list_elem_of_fmap. exists (ch, key). by rewrite elem_of_map_to_list.
    + intros [Hk Hm]. apply map_lookup_filter_Some. split; [done|]. cbn [fst snd].
      apply (rejoinList_elem isup j) in Hm as (ch' & key' & _ & Hr & E). unfold rejoinable in *. by rewrite E.
  - assert (filter (fun kv => rejoinable isup kv.1 kv.2 = true) j' = j') as ->; [|done].
    apply map_filter_id. intros ch key Hk. by apply map_lookup_filter_Some in Hk as [_ ?].
  - apply Forall_forall. intros m (ch & key & _ & Hr & ->)%(rejoinList_elem isup j). by apply rejoinable_written.
Qed.

(** *** PART *)

(** A self-PART ends the rejoin of every channel it names, under every
    spelling, and of no other. *)
Theorem part_forgets isup l s :
  let s' := forgetJoinIntent isup l s in
  (forall part ch, part ∈ Split l x2c -> FoldEqual isup ch part = true -> joined s' !! ch = None) /\
  (forall part, part ∈ Split l x2c -> keys s' !! Fold isup part = None) /\
  (forall ch, (forall part, part ∈ Split l x2c -> FoldEqual isup ch part = false) ->
    joined s' !! ch = joined s !! ch /\ keys s' !! Fold isup ch = keys s !! Fold isup ch).
Proof.
  cbv zeta. unfold forgetJoinIntent. cbn [joined keys]. split_and!.
  - intros part ch Hp Hf. apply map_lookup_filter_None. right. intros k _ Hn. apply Hn. cbn [fst].
    apply elem_of_list_to_set, list_elem_of_fmap. exists part. split; [|done]. by apply bool_decide_eq_true in Hf.
  - intros part Hp. apply map_lookup_filter_None. right. intros k _ Hn. apply Hn. cbn [fst].
    apply elem_of_list_to_set, list_elem_of_fmap. by exists part.
  - intros ch Hno.
    assert (Fold isup ch ∉ (list_to_set (Fold isup <$> Split l x2c) : gset gostring)) as Hn.
    { intros (part & E & Hp)%elem_of_list_to_set%list_elem_of_fmap. specialize (Hno part Hp). unfold FoldEqual in Hno.
      by apply bool_decide_eq_false in Hno. }
    split.
    + destruct (joined s !! ch) as [k|] eqn:E; [by apply map_lookup_filter_Some|]. apply map_lookup_filter_None. by left.
    + destruct (keys s !! Fold isup ch) as [k|] eqn:E; [by apply map_lookup_filter_Some|]. apply map_lookup_filter_None. by left.
Qed.

(** *** JOIN *)

Lemma rejoinable_scrub isup isup' ch key :
  (forall m, scrubUTF8 isup' m = scrubUTF8 isup m) -> rejoinable isup' ch key = rejoinable isup ch key.
Proof. intros Es. unfold rejoinable. by rewrite Es. Qed.

(** A channel we joined comes back.  After our own JOIN was recorded, the
    next registration sends a JOIN for it; a key we sent with the JOIN goes with
    it and replaces the key of every other spelling of the channel, and without
    one the key already stored is kept. *)
Theorem join_comes_back isup isup' iter ch s s' :
  rememberJoinIntent isup iter ch s = (None, s') -> ch <> [] -> IsChannel isup ch = true -> rejoinable isup ch [] = true ->
  (forall m, scrubUTF8 isup' m = scrubUTF8 isup m) ->
  exists key, joined s' !! ch = Some key /\ joinMsg ch key ∈ (rejoinList isup' (joined s')).1 /\
    (forall k, keys s !! Fold isup ch = Some k -> rejoinable isup ch k = true ->
      forall other k', joined s' !! other = Some k' -> FoldEqual isup other ch = true -> k' = k) /\
    (forall k, keys s !! Fold isup ch = None -> joined s !! ch = Some k -> rejoinable isup ch k = true -> key = k).
Proof.
  intros E Hne Hch Hr Es. unfold rememberJoinIntent in E. rewrite (bool_decide_eq_false_2 (ch = [])), Hch in E by done. cbn [negb orb] in E.
  cbv zeta in E. set (key0 := match keys s !! Fold isup ch with Some _ => _ | None => _ end) in E.
  rewrite Hr in E. destruct_if as E1 in E.
  { exfalso. apply andb_true_iff in E1 as [E1 E2]. apply orb_true_iff in E2 as [E2|E2]; [|done].
    apply bool_decide_eq_true in E2. rewrite E2, Hr in E1. done. }
  destruct_if as E2 in E; [done|]. injection E as <-. set (key := if rejoinable isup ch key0 then key0 else []). exists key. cbn [joined].
  assert (rejoinable isup ch key = true) as Hk by (unfold key; by destruct (rejoinable isup ch key0) eqn:Ek).
  split_and!.
  - apply lookup_insert_eq.
  - apply rejoinList_elem. exists ch, key. split; [apply lookup_insert_eq|]. split; [|done]. by rewrite (rejoinable_scrub isup isup').
  - intros k Ekey Hrk other k' Ho Hf. assert (key = k) as Eqk by (unfold key, key0; by rewrite Ekey, Hrk).
    apply lookup_insert_Some in Ho as [[_ <-]|[_ Ho]]; [done|]. rewrite Ekey in Ho. rewrite map_lookup_imap in Ho.
    destruct (joined s !! other); [|done]. cbn in Ho. rewrite Hf in Ho. congruence.
  - intros k Ekey Hj Hrk. unfold key, key0. rewrite Ekey, Hj. by rewrite Hrk.
Qed.

(** *** Bounds *)

Lemma remember_size isup iter ch s :
  let s' := (rememberJoinIntent isup iter ch s).2 in
  Z.of_nat (size (joined s')) <= Z.max maxJoinedChannels (Z.of_nat (size (joined s))).
Proof.
  cbv zeta. unfold rememberJoinIntent. destruct_if as E1; [cbn; lia|]. cbv zeta. destruct_if as E2; [cbn; lia|].
  set (key := if rejoinable isup ch _ then _ else []). destruct_if as E3; [cbn; lia|]. cbn [snd joined].
  set (j := match keys s !! Fold isup ch with Some _ => _ | None => _ end).
  assert (dom j = dom (joined s)) as Hd.
  { unfold j. destruct (keys s !! Fold isup ch); [|done]. apply set_eq. intros o. rewrite !elem_of_dom, map_lookup_imap.
    destruct (joined s !! o); cbn; split; intros [? ?]; try done; by eexists. }
  assert (size j = size (joined s)) as Hs by by rewrite <- !size_dom, Hd.
  destruct (joined s !! ch) as [k|] eqn:Ek.
  - assert (is_Some (j !! ch)) as Hj by (apply elem_of_dom; rewrite Hd; apply elem_of_dom; by eexists).
    rewrite map_size_insert_Some by done. lia.
  - assert (j !! ch = None) as Hj by (apply not_elem_of_dom; rewrite Hd; by apply not_elem_of_dom).
    rewrite map_size_insert_None by done. rewrite bool_decide_eq_false_2 in E3 by by intros [? ?].
    cbn [negb andb] in E3. lia.
Qed.

Lemma map_filter_size {A} (P : gostring * A -> Prop) `{!forall x, Decision (P x)} (m : gmap gostring A) : (size (filter P m) <= size m)%nat.
Proof. apply map_subseteq_size, map_filter_subseteq. Qed.

Lemma track_size isup iter nick m s :
  Z.of_nat (size (joined (trackJoinIntent isup iter nick m s).2)) <= Z.max maxJoinedChannels (Z.of_nat (size (joined s))).
Proof.
  unfold trackJoinIntent. destruct (mPrefix m) as [p|]; [|cbn; lia]. destruct_if as E1; [cbn; lia|].
  destruct_if as E2; [apply remember_size|]. destruct_if as E3; [|cbn; lia]. cbn [snd]. unfold forgetJoinIntent. cbn [joined].
  pose proof (map_filter_size (fun kv : gostring * gostring => Fold isup kv.1 ∉ (list_to_set (Fold isup <$> Split (Param m 0) x2c) : gset gostring)) (joined s)). lia.
Qed.

Lemma EnsureNames_size (isup : isupport) cap prefix g1 g2 ch names s :
  Z.of_nat (size names) <= maxJoinedChannels ->
  Z.of_nat (size (EnsureNames isup cap prefix g1 g2 ch names s).1) <= maxJoinedChannels.
Proof.
  intros Hn. unfold EnsureNames. destruct_if as E1; [done|]. destruct_if as E2; [done|]. cbv zeta. destruct_if as E3; [done|].
  destruct_if as E4; [done|]. destruct (Send _ _ _ s) as [[e|] s']; [done|]. cbn [fst]. destruct (g2 =? g1); [|done].
  case_bool_decide as Hin; [done|]. rewrite size_union by set_solver. rewrite size_singleton. cbn [negb andb] in E3. lia.
Qed.

Lemma maybeWHOX_size (isup : isupport) (ch : gostring) (asked : gset gostring) :
  Z.of_nat (size asked) <= maxJoinedChannels -> Z.of_nat (size (maybeWHOX isup ch asked).2) <= maxJoinedChannels.
Proof.
  intros Hn. unfold maybeWHOX. destruct_if as E1; [done|]. destruct (Raw isup §"WHOX"); [|done]. cbv zeta.
  destruct (bool_decide_reflect (Fold isup ch ∈ asked)) as [|Hin]; [done|]. destruct_if as E2; [done|]. destruct_if as E3; [done|]. cbn [snd].
  rewrite size_union by set_solver. rewrite size_singleton. lia.
Qed.

Lemma whox_written (isup : isupport) (ch : gostring) asked msg asked' :
  maybeWHOX isup ch asked = (Some msg, asked') -> writeOne isup msg = inr (Some (scrubUTF8 isup msg)).
Proof.
  unfold maybeWHOX. destruct_if as E1; [done|]. destruct (Raw isup §"WHOX") as [v|]; [|done]. cbv zeta.
  destruct_if as Ein; [done|]. destruct_if as E2; [done|].
  destruct_if as E3; [done|]. intros [= <- <-]. apply orb_false_iff in E3 as [Hf Hl].
  apply bool_decide_eq_false, eq_None_not_Some in Hf. apply bool_decide_eq_false, eq_None_not_Some in Hl.
  assert (writeOne isup (newMsg §"WHO" [ch; §"%tnfa," ++ whoxToken]) =
    inr (Some (scrubUTF8 isup (newMsg §"WHO" [ch; §"%tnfa," ++ whoxToken])))) as Hw by (unfold writeOne; by rewrite Hf, Hl).
  exact Hw.
Qed.

(** The WHO a server can make us send is always one the writer writes, and it
    is asked once per channel and connection. *)
Theorem whox_sendable (isup : isupport) (ch : gostring) asked msg asked' :
  maybeWHOX isup ch asked = (Some msg, asked') ->
  writeOne isup msg = inr (Some (scrubUTF8 isup msg)) /\
  (Fold isup ch ∉ asked) /\ (maybeWHOX isup ch asked').1 = None.
Proof.
  intros E. split; [by eapply whox_written|]. revert E. unfold maybeWHOX.
  destruct_if as E1; [done|]. destruct (Raw isup §"WHOX") as [v|]; [|done]. cbv zeta.
  destruct (bool_decide_reflect (Fold isup ch ∈ asked)) as [|Hin]; [done|]. destruct_if as E2; [done|].
  destruct_if as E3; [done|]. intros [= <- <-]. split; [done|].
  by rewrite bool_decide_eq_true_2 by set_solver.
Qed.
End theorems.

(** ** Examples *)

#[local] Existing Instance ref_ircv4.

Definition ex_joined : gmap gostring gostring := {[ §"#b" := §"key"; §"#a" := []; [x23; x0d] := [] ]}.
Definition ex_intents : Intents := MkIntents {[ §"#Foo" := §"old" ]} {[ §"#foo" := §"new" ]} ∅.

Lemma rejoins_written_witness :
  (forall m, scrubUTF8 newISupport m = scrubUTF8 newISupport m) /\
  (rejoinList newISupport ex_joined).1 = [newMsg §"JOIN" [§"#a"]; newMsg §"JOIN" [§"#b"; §"key"]] /\
  Forall (fun m => writeOne newISupport m = inr (Some (scrubUTF8 newISupport m))) (rejoinList newISupport ex_joined).1.
Proof.
  split; [reflexivity|]. split; [vm_compute; reflexivity|].
  pose proof (rejoins_written newISupport newISupport ex_joined (fun m => eq_refl)) as Hall.
  destruct (rejoinList newISupport ex_joined) as [msgs j']. exact (proj2 (proj2 (proj2 (proj2 Hall)))).
Defined.

Lemma join_comes_back_witness :
  exists key, joined (rememberJoinIntent newISupport [(§"#Foo", §"old")] §"#foo" ex_intents).2 !! §"#foo" = Some key /\
    joinMsg §"#foo" key ∈ (rejoinList newISupport (joined (rememberJoinIntent newISupport [(§"#Foo", §"old")] §"#foo" ex_intents).2)).1.
Proof.
  destruct (join_comes_back newISupport newISupport [(§"#Foo", §"old")] §"#foo" ex_intents
    (rememberJoinIntent newISupport [(§"#Foo", §"old")] §"#foo" ex_intents).2) as (key & H1 & H2 & _);
    [reflexivity|done|reflexivity|vm_compute; reflexivity|done|].
  exists key. split; [exact H1|exact H2].
Defined.

Lemma whox_sendable_witness :
  let isup := handle_token newISupport §"WHOX" in
  let msg := newMsg §"WHO" [§"#a"; §"%tnfa,152"] in
  (maybeWHOX isup §"#a" ∅).1 = Some msg /\ writeOne isup msg = inr (Some (scrubUTF8 isup msg)).
Proof.
  cbv zeta. set (isup := handle_token newISupport §"WHOX"). set (msg := newMsg §"WHO" [§"#a"; §"%tnfa,152"]).
  assert ((maybeWHOX isup §"#a" ∅).1 = Some msg) as E by (vm_compute; reflexivity). split; [exact E|].
  apply (whox_sendable isup §"#a" ∅ msg (maybeWHOX isup §"#a" ∅).2). rewrite <- E. apply surjective_pairing.
Defined.
