(* ===== verification/CapNotify.v ===== *)
(** * Capability changes after registration: internal/irc/manager.go

    The enabled capabilities with their values, set when registration completes
    and kept current by CAP NEW, ACK and DEL. *)

From S2P Require Import Prelude GoStrings GoUtf8 IrcMsg ISupport Roster Outbound Sasl Sts Config Handshake.

Record Caps := MkCaps {
  enabledCaps : gset gostring;
  capVals : gmap gostring gostring;
  pendingCapVals : gmap gostring gostring
}.

Definition CapEnabled (name : gostring) (c : Caps) : bool := bool_decide (name ∈ enabledCaps c).
Definition CapValue (name : gostring) (c : Caps) : gostring := default [] (capVals c !! name).

(** The values of the capabilities registration enabled, empty ones left out. *)
Definition applyCaps (hs : handshake) : Caps :=
  MkCaps (enabled hs) (filter (fun kv => kv.1 ∈ enabled hs /\ kv.2 <> []) (caps hs)) ∅.

(** One token of CAP NEW: the names to request so far, and the stashed values. *)
Definition new_token (c : Caps) (acc : list gostring * gmap gostring gostring) (tok : gostring)
    : list gostring * gmap gostring gostring :=
  let '(req, pend) := acc in
  let '(name, value, _) := Cut tok x3d in
  if negb (wantedCapSet name) || CapEnabled name c || bool_decide (name ∈ req) then acc
  else (req ++ [name], if value != [] then <[name := value]> pend else pend).

(** One token of CAP ACK or DEL. *)
Definition change_token (enable : bool) (c : Caps) (tok : gostring) : Caps :=
  let '(name, removed) := match CutPrefix tok §"-" with Some rest => (rest, true) | None => (tok, false) end in
  if enable && negb removed then
    if negb (wantedCapSet name) then c
    else match pendingCapVals c !! name with
         | Some v => MkCaps ({[name]} ∪ enabledCaps c) (<[name := v]> (capVals c)) (delete name (pendingCapVals c))
         | None => MkCaps ({[name]} ∪ enabledCaps c) (capVals c) (pendingCapVals c)
         end
  else MkCaps (enabledCaps c ∖ {[name]}) (delete name (capVals c)) (delete name (pendingCapVals c)).

Section notify.
Context `{Unicode, IrcV4}.

Definition applyCapChange (enable : bool) (l : gostring) (c : Caps) : Caps := foldl (change_token enable) c (Fields l).

(** The request to send, if any. *)
Definition handleCapNotify (isup : isupport) (m : Message) (c : Caps) : option Message * Caps :=
  if len (Params m) <? 3 then (None, c)
  else
    let l := default [] (last (Params m)) in
    let sub := ToUpper (default [] (Params m !! 1%nat)) in
    if sub == §"NEW" then
      let '(req, pend) := foldl (new_token c) ([], pendingCapVals c) (Fields l) in
      let c' := MkCaps (enabledCaps c) (capVals c) pend in
      if len req =? 0 then (None, c')
      else
        let reqMsg := newMsg §"CAP" [§"REQ"; Join (sort_Strings req) §" "] in
        if bool_decide (is_Some (checkLineLen reqMsg (lineLen isup))) then (None, c') else (Some reqMsg, c')
    else if (sub == §"ACK") || (sub == §"DEL") then (None, applyCapChange (sub == §"ACK") l c)
    else (None, c).

(** The CAP messages of a connection, each with the ISUPPORT state it meets. *)
Fixpoint notify_all (ms : list (isupport * Message)) (c : Caps) : list Message * Caps :=
  match ms with
  | [] => ([], c)
  | (isup, m) :: rest =>
      let '(req, c1) := handleCapNotify isup m c in
      let '(reqs, c2) := notify_all rest c1 in
      (match req with Some r => r :: reqs | None => reqs end, c2)
  end.
End notify.

(** ** Lemmas *)

Definition wanted (name : gostring) : Prop := name ∈ wantedCaps.

(** What the tables may hold: what registration enabled, and wanted names. *)
Definition caps_ok (c0 c : Caps) : Prop :=
  (forall n, n ∈ enabledCaps c -> n ∈ enabledCaps c0 \/ wanted n) /\
  (forall n, is_Some (capVals c !! n) -> is_Some (capVals c0 !! n) \/ wanted n) /\
  (forall n, is_Some (pendingCapVals c !! n) -> is_Some (pendingCapVals c0 !! n) \/ wanted n).

Lemma wantedCapSet_spec n : wantedCapSet n = true <-> wanted n.
Proof. apply bool_decide_eq_true. Qed.

Lemma new_token_ok c req pend tok :
  Forall (fun n => wanted n /\ n ∉ enabledCaps c) req -> NoDup req ->
  let '(req', pend') := new_token c (req, pend) tok in
  Forall (fun n => wanted n /\ n ∉ enabledCaps c) req' /\ NoDup req' /\
  (forall n, is_Some (pend' !! n) -> is_Some (pend !! n) \/ wanted n).
Proof.
  intros Hf Hnd. unfold new_token. destruct (Cut tok x3d) as [[name value] ok]. destruct_if as E; [by eauto|].
  apply orb_false_iff in E as [[Hw He]%orb_false_iff Hr]. apply negb_false_iff, wantedCapSet_spec in Hw.
  apply bool_decide_eq_false in He. apply bool_decide_eq_false in Hr. split_and!.
  - apply Forall_app. split; [done|]. by constructor.
  - apply NoDup_app. split_and!; [done| |apply NoDup_singleton]. intros n Hn ->%list_elem_of_singleton. done.
  - intros n Hn. destruct (value != []); [|by left]. destruct (decide (n = name)) as [->|Hne]; [by right|].
    rewrite lookup_insert_ne in Hn by done. by left.
Qed.

Lemma new_tokens_ok c toks req pend :
  Forall (fun n => wanted n /\ n ∉ enabledCaps c) req -> NoDup req ->
  let '(req', pend') := foldl (new_token c) (req, pend) toks in
  Forall (fun n => wanted n /\ n ∉ enabledCaps c) req' /\ NoDup req' /\
  (forall n, is_Some (pend' !! n) -> is_Some (pend !! n) \/ wanted n).
Proof.
  revert req pend. induction toks as [|tok toks IH]; intros req pend Hf Hnd; cbn [foldl]; [by eauto|].
  pose proof (new_token_ok c req pend tok Hf Hnd) as Ht. destruct (new_token c (req, pend) tok) as [req1 pend1].
  destruct Ht as (Hf1 & Hnd1 & Hp1). specialize (IH req1 pend1 Hf1 Hnd1).
  destruct (foldl (new_token c) (req1, pend1) toks) as [req2 pend2]. destruct IH as (? & ? & Hp2). split_and!; [done..|].
  intros n [Hn|Hn]%Hp2; [by apply Hp1|by right].
Qed.

Lemma change_token_ok enable c0 c tok : caps_ok c0 c -> caps_ok c0 (change_token enable c tok).
Proof.
  intros (H1 & H2 & H3). unfold change_token. destruct (match CutPrefix tok §"-" with Some rest => _ | None => _ end) as [name removed].
  destruct_if as E1.
  - destruct (negb (wantedCapSet name)) eqn:Ew; [done|]. apply negb_false_iff, wantedCapSet_spec in Ew.
    destruct (pendingCapVals c !! name) as [v|]; split_and!; cbn [enabledCaps capVals pendingCapVals]; try done.
    + intros n [->%elem_of_singleton|Hn]%elem_of_union; [by right|by apply H1].
    + intros n Hn. destruct (decide (n = name)) as [->|Hne]; [by right|]. rewrite lookup_insert_ne in Hn by done. by apply H2.
    + intros n [v' [_ Hn]%lookup_delete_Some]. apply H3. by eexists.
    + intros n [->%elem_of_singleton|Hn]%elem_of_union; [by right|by apply H1].
  - split_and!; cbn [enabledCaps capVals pendingCapVals].
    + intros n [Hn _]%elem_of_difference. by apply H1.
    + intros n [v' [_ Hn]%lookup_delete_Some]. apply H2. by eexists.
    + intros n [v' [_ Hn]%lookup_delete_Some]. apply H3. by eexists.
Qed.

Lemma applyCapChange_ok enable l c0 c : caps_ok c0 c -> caps_ok c0 (applyCapChange enable l c).
Proof.
  unfold applyCapChange. revert c. induction (Fields l) as [|tok toks IH]; intros c Hc; [done|]. cbn [foldl].
  by apply IH, change_token_ok.
Qed.

(** ** Theorems *)

Section theorems.
Context `{Unicode, IrcV4}.

(** A CAP REQ for distinct wanted names in order. *)
Definition is_request (m : Message) : Prop :=
  exists names, m = newMsg §"CAP" [§"REQ"; Join names §" "] /\ names <> [] /\ StronglySorted str_le names /\ NoDup names /\ Forall wanted names.

Lemma handleCapNotify_ok isup m c0 c :
  caps_ok c0 c -> let '(req, c') := handleCapNotify isup m c in
  caps_ok c0 c' /\ (forall r, req = Some r -> is_request r /\ checkLineLen r (lineLen isup) = None).
Proof.
  intros Hc. unfold handleCapNotify. destruct_if as E1; [done|]. cbv zeta. set (sub := ToUpper _). destruct_if as E2.
  - pose proof (new_tokens_ok c (Fields (default [] (last (Params m)))) [] (pendingCapVals c) ltac:(done) ltac:(constructor)) as Ht.
    destruct (foldl (new_token c) ([], pendingCapVals c) _) as [req pend]. destruct Ht as (Hf & Hnd & Hp).
    assert (caps_ok c0 (MkCaps (enabledCaps c) (capVals c) pend)) as Hc'.
    { destruct Hc as (H1 & H2 & H3). split_and!; [done..|]. cbn [pendingCapVals]. intros n [Hn|Hn]%Hp; [by apply H3|by right]. }
    destruct (len req =? 0) eqn:E3; [done|]. destruct_if as E4; [done|]. split; [done|]. intros r [= <-]. split.
    + exists (sort_Strings req). split; [done|]. split_and!.
      * intros En. assert (req = []) as ->; [|done]. apply Permutation_nil_r. rewrite <- En. symmetry. apply sort_Strings_perm.
      * apply sort_Strings_sorted.
      * by rewrite sort_Strings_perm.
      * rewrite sort_Strings_perm. eapply Forall_impl; [exact Hf|]. by intros n [? _].
    + by apply bool_decide_eq_false, eq_None_not_Some in E4.
  - destruct_if as E3; [|done]. split; [by apply applyCapChange_ok|done].
Qed.

Lemma wanted_framed : Forall (fun n => hasFramingBytes n = false /\ ValidString n = true) wantedCaps.
Proof.
  apply Forall_forall. intros n Hn.
  assert (forallb (fun n => negb (hasFramingBytes n) && ValidString n) wantedCaps = true) as Hall by (vm_compute; reflexivity).
  rewrite forallb_forall in Hall. specialize (Hall n ltac:(by apply list_elem_of_In)).
  apply andb_true_iff in Hall as [Ha Hb]. split; [by apply negb_true_iff|done].
Qed.

Lemma request_framed m : is_request m -> checkFraming m = None.
Proof.
  intros (names & -> & Hne & _ & _ & Hw). pose proof wanted_framed as Hcl. rewrite Forall_forall in Hcl, Hw.
  assert (hasFramingBytes (Join names §" ") = false) as Hf.
  { apply hasFramingBytes_spec. intros b Hb [Hb'|(n & Hn & Hbn)]%Join_elem.
    - apply list_elem_of_singleton in Hb' as ->. by apply ContainsByte_spec in Hb.
    - destruct (Hcl n (Hw n Hn)) as [Hfn _]. by apply (proj1 (hasFramingBytes_spec n) Hfn b). }
  unfold checkFraming. cbn [Command Params newMsg mPrefix Tags]. change (hasFramingBytes §"CAP" || _) with false. cbn [checkParamFraming].
  change (hasFramingBytes §"REQ") with false. rewrite Hf. simpl. done.
Qed.

(** A server cannot use CAP to make us send a bad line: the request answering
    a CAP NEW is written as it stands, neither tearing the connection down nor
    being dropped, and asks for distinct wanted capabilities that are not enabled
    yet. *)
Theorem cap_request_sendable isup m c r c' :
  handleCapNotify isup m c = (Some r, c') -> is_request r /\ writeOne isup r = inr (Some r) /\ enabledCaps c' = enabledCaps c.
Proof.
  intros E. assert (caps_ok c c) as Hc by (split_and!; intros n Hn; by left).
  pose proof (handleCapNotify_ok isup m c c Hc) as Hok. rewrite E in Hok. destruct Hok as [_ Hr]. destruct (Hr r eq_refl) as [Hreq Hl].
  split; [done|]. split.
  - unfold writeOne. rewrite (request_framed r Hreq). destruct Hreq as (names & -> & _ & _ & _ & Hw).
    pose proof wanted_framed as Hcl. rewrite Forall_forall in Hcl.
    rewrite scrubUTF8_valid; [by rewrite Hl|]. constructor; [done|]. constructor; [|done].
    apply ValidString_Join; [done|]. rewrite Forall_forall in Hw |- *. intros n Hn. apply Hcl, Hw, Hn.
  - unfold handleCapNotify in E. destruct_if as E1 in E; [done|]. cbv zeta in E. destruct_if as E2 in E.
    + destruct (foldl (new_token c) _ _) as [req pend]. destruct (len req =? 0); [done|]. destruct_if as E4 in E; [done|]. by injection E as _ <-.
    + by destruct_if as E3 in E.
Qed.

(** Capability state is bounded whatever the server announces: after any
    sequence of CAP messages the enabled capabilities, their values and the
    values waiting for an ACK are only ever for names registration enabled or
    the client wants, so at most 23 are added. *)
Theorem cap_state_bounded ms c0 :
  let '(reqs, c) := notify_all ms c0 in
  caps_ok c0 c /\ Forall is_request reqs /\
  (size (enabledCaps c) <= size (enabledCaps c0) + 23)%nat.
Proof.
  assert (forall c, caps_ok c0 c -> let '(reqs, c') := notify_all ms c in caps_ok c0 c' /\ Forall is_request reqs) as Hall.
  { induction ms as [|[isup m] ms IH]; intros c Hc; cbn [notify_all]; [done|].
    pose proof (handleCapNotify_ok isup m c0 c Hc) as Hok. destruct (handleCapNotify isup m c) as [req c1]. destruct Hok as [Hc1 Hr].
    specialize (IH c1 Hc1). destruct (notify_all ms c1) as [reqs c2]. destruct IH as [Hc2 Hf]. split; [done|].
    destruct req as [r|]; [|done]. constructor; [by apply Hr|done]. }
  specialize (Hall c0). destruct (notify_all ms c0) as [reqs c]. destruct Hall as [Hc Hf]; [split_and!; intros n Hn; by left|].
  split; [done|]. split; [done|]. destruct Hc as [Hc _].
  assert (enabledCaps c ⊆ enabledCaps c0 ∪ list_to_set wantedCaps) as Hsub.
  { intros n [Hn|Hn]%Hc; [by apply elem_of_union_l|]. apply elem_of_union_r. by apply elem_of_list_to_set. }
  etrans; [exact (subseteq_size _ _ Hsub)|]. rewrite size_union_alt.
  assert (size (list_to_set wantedCaps ∖ enabledCaps c0) <= 23)%nat; [|lia].
  etrans; [apply subseteq_size, subseteq_difference_l; reflexivity|].
  change 23%nat with (length wantedCaps). etrans; [|reflexivity]. rewrite size_list_to_set; [done|].
  apply (bool_decide_unpack _). vm_compute. exact I.
Qed.
End theorems.

(** ** Examples *)

#[local] Existing Instance ascii_unicode.
#[local] Existing Instance ref_ircv4.

Definition cap_new : Message := newMsg §"CAP" [§"me"; §"NEW"; §"echo-message bogus batch=1 batch"].
Definition no_caps : Caps := MkCaps ∅ ∅ ∅.

Lemma cap_request_sendable_witness :
  (handleCapNotify newISupport cap_new no_caps).1 = Some (newMsg §"CAP" [§"REQ"; §"batch echo-message"]) /\
  writeOne newISupport (newMsg §"CAP" [§"REQ"; §"batch echo-message"]) = inr (Some (newMsg §"CAP" [§"REQ"; §"batch echo-message"])).
Proof.
  assert ((handleCapNotify newISupport cap_new no_caps).1 = Some (newMsg §"CAP" [§"REQ"; §"batch echo-message"])) as E by (vm_compute; reflexivity).
  split; [exact E|].
  apply (cap_request_sendable newISupport cap_new no_caps (newMsg §"CAP" [§"REQ"; §"batch echo-message"]) (handleCapNotify newISupport cap_new no_caps).2).
  rewrite <- E. apply surjective_pairing.
Defined.
