(* ===== verification/ServeLoop.v ===== *)
(** * The steady state of a connection: internal/irc/manager.go, ctcp.go

    What the read loop does with one server line: PONG and capability changes,
    multiline reconstruction, tracking of history replays, ISUPPORT, CTCP
    replies, our own nick, the roster and the rejoin intents, and the event for
    the hub.  The components are those of the files required here. *)

From S2P Require Import Prelude GoStrings GoUtf8 GoNet IrcMsg ISupport Roster Pacing Sts StsStore StsManager Config Handshake Outbound Multiline JoinIntent CapNotify.

(** ** CTCP (ctcp.go) *)

Definition ctcpVersion : gostring := §"ircthing".
Definition maxCTCPPingToken : Z := 64.
Definition x01s : gostring := [x01].

Section ctcp.
Context `{Unicode, IrcV4}.

(** [stamp] is the current time in RFC 1123 form. *)
Definition ctcp_answer (stamp cmd args : gostring) : option gostring :=
  let c := ToUpper cmd in
  if c == §"VERSION" then Some (§"VERSION " ++ ctcpVersion)
  else if c == §"PING" then
    let args := if len args >? maxCTCPPingToken then slice_to args maxCTCPPingToken else args in
    Some (TrimSpace (§"PING " ++ args))
  else if c == §"TIME" then Some (§"TIME " ++ stamp)
  else if c == §"CLIENTINFO" then Some §"CLIENTINFO ACTION CLIENTINFO PING TIME VERSION"
  else None.

Definition ctcpReply (stamp : gostring) (m : Message) : option Message :=
  match mPrefix m with
  | None => None
  | Some p =>
      if (pName p == []) || (len (Params m) <? 2) then None
      else
        let body := Trailing m in
        if negb (HasPrefix body x01s) then None
        else
          let body := TrimSuffix (TrimPrefix body x01s) x01s in
          let '(cmd, args, _) := Cut body x20 in
          match ctcp_answer stamp cmd args with
          | Some reply => Some (newMsg §"NOTICE" [pName p; x01s ++ reply ++ x01s])
          | None => None
          end
  end.
End ctcp.

(** ** Replayed history *)

Definition maxOpenHistBatches : Z := 256.
Definition maxBatchRefBytes : Z := 512.

(** crypto/sha256 followed by encoding/hex. *)
Class Sha256 := { sha256_hex : gostring -> gostring }.
Class Sha256Laws `{Sha256} : Prop := { sha256_hex_len s : len (sha256_hex s) = 64 }.

Section batches.
Context `{Sha256, IrcV4}.

Definition clampBatchRef (ref : gostring) : gostring :=
  if len ref <=? maxBatchRefBytes then ref else x00 :: sha256_hex ref.

(** [None]: too many open batches. *)
Definition trackChathistoryBatch (m : Message) (hist : gset gostring) : option (gset gostring) :=
  match Params m with
  | [] => Some hist
  | ref :: _ =>
      if Command m != §"BATCH" then Some hist
      else if HasPrefix ref §"+" && (Param m 1 == §"chathistory") then
        if maxOpenHistBatches <=? Z.of_nat (size hist) then None
        else
          let k := clampBatchRef (slice_from ref 1) in
          Some (if k != [] then {[k]} ∪ hist else hist)
      else if HasPrefix ref §"-" then Some (hist ∖ {[clampBatchRef (slice_from ref 1)]})
      else Some hist
  end.

Definition isPlayback (m : Message) (hist : gset gostring) : bool :=
  let ref := default [] (Tags m !! §"batch") in
  (ref != []) && bool_decide (clampBatchRef ref ∈ hist).
End batches.

(** ** The state of a live connection *)

Definition maxAffectedChannels : Z := 128.

Inductive lineErr :=
  | LineUpgrade (port : Z)         (* errSTSUpgrade *)
  | LineMultiline (e : mlErr)
  | LineHistBatches
  | LineNickTooLong (n : Z)
  | LineIntents (e : intentErr).

Record Live (T : Type) := MkLive {
  lIsup : isupport;
  lReader : LineReader.boundedLineReader;
  lNick : gostring;
  lIdent : ownIdent;
  lRoster : roster;
  lJoined : gmap gostring gostring;
  lNames : gset gostring;
  lWhox : gset gostring;
  lCaps : Caps;
  lHist : gset gostring;
  lMl : multiline;
  lSender : Sender;
  lPolicy : StsState;
  lStore : T
}.
Arguments MkLive {T}.
Arguments lIsup {T}. Arguments lReader {T}. Arguments lNick {T}. Arguments lIdent {T}. Arguments lRoster {T}.
Arguments lJoined {T}. Arguments lNames {T}. Arguments lWhox {T}. Arguments lCaps {T}. Arguments lHist {T}.
Arguments lMl {T}. Arguments lSender {T}. Arguments lPolicy {T}. Arguments lStore {T}.

(** What a line makes the loop send and tell the hub. *)
Record Output := MkOutput {
  oUrgent : list Message;
  oInternal : list Message;
  oEvents : list (Message * list gostring)
}.
Definition no_output : Output := MkOutput [] [] [].
Definition out_app (a b : Output) : Output :=
  MkOutput (oUrgent a ++ oUrgent b) (oInternal a ++ oInternal b) (oEvents a ++ oEvents b).

(** What the outside world contributes while one line is handled. *)
Record LineCtx := MkCtx {
  cEnv : Env;
  cNow : Z;
  cStamp : gostring;
  cIter : list (gostring * gostring)   (* iteration order of the rejoin set *)
}.

Section loop.
Context `{Unicode, NetIP, IrcV4, Sha256, RosterLimits} `{StsStoreOps T}.
Variables (cfg : Config) (persisted secure : bool) (addr : gostring).

(** Field updates. *)
Definition with_sts (t : T) (st : StsState) (c : Caps) (s : Live T) : Live T :=
  MkLive (lIsup s) (lReader s) (lNick s) (lIdent s) (lRoster s) (lJoined s) (lNames s) (lWhox s) c (lHist s) (lMl s) (lSender s) st t.
Definition with_batches (ml : multiline) (hist : gset gostring) (s : Live T) : Live T :=
  MkLive (lIsup s) (lReader s) (lNick s) (lIdent s) (lRoster s) (lJoined s) (lNames s) (lWhox s) (lCaps s) hist ml (lSender s) (lPolicy s) (lStore s).
Definition with_isup (i : isupport) (r : LineReader.boundedLineReader) (s : Live T) : Live T :=
  MkLive i r (lNick s) (lIdent s) (lRoster s) (lJoined s) (lNames s) (lWhox s) (lCaps s) (lHist s) (lMl s) (lSender s) (lPolicy s) (lStore s).
Definition with_reply (sd : Sender) (whox : gset gostring) (s : Live T) : Live T :=
  MkLive (lIsup s) (lReader s) (lNick s) (lIdent s) (lRoster s) (lJoined s) (lNames s) whox (lCaps s) (lHist s) (lMl s) sd (lPolicy s) (lStore s).
Definition with_self (nick : gostring) (id : ownIdent) (r : roster) (s : Live T) : Live T :=
  MkLive (lIsup s) (lReader s) nick id r (lJoined s) (lNames s) (lWhox s) (lCaps s) (lHist s) (lMl s) (lSender s) (lPolicy s) (lStore s).
Definition with_intents (i : Intents) (s : Live T) : Live T :=
  MkLive (lIsup s) (lReader s) (lNick s) (lIdent s) (lRoster s) (joined i) (namesReq i) (lWhox s) (lCaps s) (lHist s) (lMl s)
    (MkSender (registered (lSender s)) (out (lSender s)) (keys i)) (lPolicy s) (lStore s).

(** PING and CAP. *)
Definition serviceLine (x : LineCtx) (m : Message) (s : Live T) : (lineErr + unit) * Output * Live T :=
  let pong := if Command m == §"PING" then [boundedPong m (lineLen (lIsup s))] else [] in
  if Command m == §"CAP" then
    let '(req, c) := handleCapNotify (lIsup s) m (lCaps s) in
    let o := MkOutput pong (match req with Some r => [r] | None => [] end) [] in
    let '(t, st, up) := capNotifySTS cfg persisted (cEnv x) (cNow x) secure addr (Params m) (lStore s) (lPolicy s) in
    let s := with_sts t st c s in
    match up with
    | Some port => (inl (LineUpgrade port), o, s)
    | None => (inr tt, o, s)
    end
  else (inr tt, MkOutput pong [] [], s).

(** CTCP replies go through the ordinary queue, where they may be dropped. *)
Definition autoReply (x : LineCtx) (m : Message) (s : Live T) : list Message * Live T :=
  let sd :=
    if (Command m == §"PRIVMSG") && FoldEqual (lIsup s) (Param m 0) (lNick s) then
      match ctcpReply (cStamp x) m with
      | Some reply => (Send (lIsup s) (ownPrefixLen (lIsup s) (lNick s) (lIdent s)) reply (lSender s)).2
      | None => lSender s
      end
    else lSender s in
  if Command m == §"366" then
    let '(who, whox) := maybeWHOX (lIsup s) (Param m 1) (lWhox s) in
    (match who with Some w => [w] | None => [] end, with_reply sd whox s)
  else ([], with_reply sd (lWhox s) s).

(** The channels of a QUIT or NICK, captured before the roster forgets them. *)
Definition affected_of (m : Message) (s : Live T) : list gostring :=
  match mPrefix m with
  | Some p =>
      if (Command m == §"QUIT") || (Command m == §"NICK") then
        let a := channelsWith (lIsup s) (lRoster s) (pName p) in
        if len a >? maxAffectedChannels then slice_to a maxAffectedChannels else a
      else []
  | None => []
  end.

(** Our own nick after the line: an over-long one is an error. *)
Definition own_nick (m : Message) (s : Live T) : lineErr + gostring :=
  match mPrefix m with
  | Some p =>
      if (Command m == §"NICK") && FoldEqual (lIsup s) (pName p) (lNick s) then
        let n := Param m 0 in
        if n == [] then inr (lNick s)
        else if len n >? maxAuthoritativeNickBytes then inl (LineNickTooLong (len n))
        else inr n
      else inr (lNick s)
  | None => inr (lNick s)
  end.

Definition onLiveLine (x : LineCtx) (m : Message) (s : Live T) : (lineErr + list gostring) * list Message * Live T :=
  let affected := affected_of m s in
  let '(who, s1) := autoReply x m s in
  match own_nick m s1 with
  | inl e => (inl e, who, s1)
  | inr nick =>
      let id := noteOwnIdent (lIsup s1) nick m (lIdent s1) in
      let r := Roster.handle (lIsup s1) nick m (lRoster s1) in
      let s2 := with_self nick id r s1 in
      let '(err, i) := trackJoinIntent (lIsup s2) (cIter x) nick m (MkIntents (lJoined s2) (joinKeys (lSender s2)) (lNames s2)) in
      let s3 := with_intents i s2 in
      match err with
      | Some e => (inl (LineIntents e), who, s3)
      | None => (inr affected, who, s3)
      end
  end.

Definition processLine (x : LineCtx) (m : Message) (s : Live T) : option lineErr * Output * Live T :=
  let '(r, o, s) := serviceLine x m s in
  match r with
  | inl e => (Some e, o, s)
  | inr _ =>
      match feed m (lMl s) with
      | inl e => (Some (LineMultiline e), o, s)
      | inr (emit, consumed, ml) =>
          let s := with_batches ml (lHist s) s in
          let o := out_app o (MkOutput [] [] (match emit with Some e => [(e, [])] | None => [] end)) in
          if consumed then (None, o, s)
          else match trackChathistoryBatch m (lHist s) with
          | None => (Some LineHistBatches, o, s)
          | Some hist =>
              let s := with_batches (lMl s) hist s in
              let playback := isPlayback m hist in
              let isup := ISupport.handle m (lIsup s) in
              let reader := if Command m == §"005" then LineReader.setLimit (lineLen isup + LineReader.maxTagBytes) (lReader s) else lReader s in
              let s := with_isup isup reader s in
              if playback then (None, out_app o (MkOutput [] [] [(m, [])]), s)
              else
                let '(res, who, s) := onLiveLine x m s in
                let o := out_app o (MkOutput [] who []) in
                match res with
                | inl e => (Some e, o, s)
                | inr affected => (None, out_app o (MkOutput [] [] [(m, affected)]), s)
                end
          end
      end
  end.

(** [serveLoop]: lines until the first error. *)
Fixpoint serveLoop (ms : list (LineCtx * Message)) (s : Live T) : option lineErr * Output * Live T :=
  match ms with
  | [] => (None, no_output, s)
  | (x, m) :: rest =>
      match processLine x m s with
      | (Some e, o, s') => (Some e, o, s')
      | (None, o, s') => let '(err, o', s'') := serveLoop rest s' in (err, out_app o o', s'')
      end
  end.
End loop.

(** ** The steady state: bounds, isolation of replays, and what is sent *)

From S2P Require Import RosterInv.

Section batches.
Context `{Sha256, !Sha256Laws, IrcV4}.

Lemma clampBatchRef_len ref : len (clampBatchRef ref) <= maxBatchRefBytes.
Proof.
  unfold clampBatchRef. destruct (Z.leb_spec (len ref) maxBatchRefBytes); [done|].
  rewrite len_cons, sha256_hex_len. unfold maxBatchRefBytes. lia.
Qed.

Definition hist_ok (hist : gset gostring) : Prop :=
  Z.of_nat (size hist) <= maxOpenHistBatches /\ forall k, k ∈ hist -> len k <= maxBatchRefBytes.

Lemma track_hist_ok m hist hist' : hist_ok hist -> trackChathistoryBatch m hist = Some hist' -> hist_ok hist'.
Proof.
  intros [Hs Hl]. unfold trackChathistoryBatch. destruct (Params m) as [|ref ps]; [by intros [= <-]|].
  destruct_if as E1; [by intros [= <-]|]. destruct_if as E2.
  - destruct_if as E3; [done|]. cbv zeta. intros [= <-]. destruct_if as E4; [|done]. split.
    + destruct (decide (clampBatchRef (slice_from ref 1) ∈ hist)) as [Hin|Hin].
      * replace ({[clampBatchRef (slice_from ref 1)]} ∪ hist) with hist by set_solver. done.
      * rewrite size_union by set_solver. rewrite size_singleton. lia.
    + intros k [->%elem_of_singleton|Hk]%elem_of_union; [apply clampBatchRef_len|by apply Hl].
  - destruct_if as E3; [|by intros [= <-]]. intros [= <-]. split.
    + pose proof (subseteq_size (hist ∖ {[clampBatchRef (slice_from ref 1)]}) hist ltac:(set_solver)). lia.
    + intros k [Hk _]%elem_of_difference. by apply Hl.
Qed.
End batches.

Section invariant.
Context `{Huni : Unicode, Hip : NetIP, Hirc : IrcV4, Hsha : Sha256, Hsl : !Sha256Laws, Hlim : RosterLimits} `{Hops : StsStoreOps T}.
Variables (cfg : Config) (persisted secure : bool) (addr : gostring).
(** The rejoin set may have been configured larger than its cap. *)
Variable seeds : Z.

Record live_ok (s : Live T) : Prop := {
  ok_isup : isupport_wf (lIsup s);
  ok_nick : len (lNick s) <= maxAuthoritativeNickBytes;
  ok_roster : roster_inv (lRoster s);
  ok_joined : Z.of_nat (size (lJoined s)) <= Z.max maxJoinedChannels seeds;
  ok_whox : Z.of_nat (size (lWhox s)) <= maxJoinedChannels;
  ok_hist : hist_ok (lHist s);
  ok_ml : ml_inv (lMl s);
  ok_sender : sender_ok (lSender s)
}.

(** What goes out on the lanes that bypass [sendAll] must never be a line the
    writer dies of, and an event names a bounded number of channels. *)
Definition output_ok (o : Output) : Prop :=
  Forall (fun m => checkFraming m = None) (oUrgent o) /\ Forall (fun m => checkFraming m = None) (oInternal o) /\
  Forall (fun e => len e.2 <= maxAffectedChannels) (oEvents o).

Lemma output_ok_app a b : output_ok a -> output_ok b -> output_ok (out_app a b).
Proof. intros (A1 & A2 & A3) (B1 & B2 & B3). split_and!; cbn; by apply Forall_app. Qed.

Lemma written_framed isup m x : writeOne isup m = inr x -> checkFraming m = None.
Proof. unfold writeOne. by destruct (checkFraming m). Qed.

Lemma service_ok x m s r o s' :
  live_ok s -> serviceLine cfg persisted secure addr x m s = (r, o, s') -> live_ok s' /\ output_ok o.
Proof.
  intros Hok. unfold serviceLine. set (pong := if Command m == §"PING" then _ else _).
  assert (Forall (fun m => checkFraming m = None) pong) as Hp.
  { unfold pong. case_bool_decide; [|done]. constructor; [apply boundedPong_framed|done]. }
  destruct_if as E1; [|by intros [= <- <- <-]].
  assert (caps_ok (lCaps s) (lCaps s)) as Hc by (split_and!; intros n Hn; by left).
  pose proof (handleCapNotify_ok (lIsup s) m (lCaps s) (lCaps s) Hc) as Hn.
  destruct (handleCapNotify (lIsup s) m (lCaps s)) as [req c]. destruct Hn as [_ Hr].
  destruct (capNotifySTS _ _ _ _ _ _ _ _ _) as [[t st] up].
  assert (live_ok (with_sts t st c s)) as Hok' by (destruct Hok; by split).
  assert (output_ok (MkOutput pong (match req with Some r => [r] | None => [] end) [])) as Ho.
  { split_and!; cbn; [done| |done]. destruct req as [q|]; [|done]. constructor; [|done]. apply request_framed. by apply Hr. }
  destruct up; by intros [= <- <- <-].
Qed.

Lemma feed_ok m s emit consumed ml hist :
  live_ok s -> feed m (lMl s) = inr (emit, consumed, ml) -> hist_ok hist -> live_ok (with_batches ml hist s).
Proof. intros [] Ef Hh. split; try done. cbn. by eapply feed_inv. Qed.

Lemma autoReply_ok x m s who s' :
  live_ok s -> autoReply x m s = (who, s') -> live_ok s' /\ Forall (fun m => checkFraming m = None) who.
Proof.
  intros Hok. unfold autoReply. set (sd := if _ && FoldEqual _ _ _ then _ else _).
  assert (sender_ok sd) as Hsd.
  { unfold sd. destruct Hok. destruct_if as E; [|done]. destruct (ctcpReply (cStamp x) m); [|done]. by apply sendAll_ok. }
  destruct_if as E1.
  - pose proof (maybeWHOX_size (lIsup s) (Param m 1) (lWhox s) (ok_whox s Hok)) as Hw.
    destruct (maybeWHOX (lIsup s) (Param m 1) (lWhox s)) as [w whox] eqn:Ew. cbn [snd] in Hw. intros [= <- <-]. split.
    + destruct Hok; by split.
    + destruct w as [q|]; [|done]. constructor; [|done]. eapply written_framed, whox_written, Ew.
  - intros [= <- <-]. destruct Hok; by split; [split|].
Qed.

Lemma own_nick_ok m (s : Live T) n : len (lNick s) <= maxAuthoritativeNickBytes -> own_nick m s = inr n -> len n <= maxAuthoritativeNickBytes.
Proof.
  intros Hn. unfold own_nick. destruct (mPrefix m); [|by intros [= <-]]. destruct_if as E1; [|by intros [= <-]]. cbv zeta.
  destruct_if as E2; [by intros [= <-]|]. destruct_if as E3; [done|]. intros [= <-]. lia.
Qed.

Lemma affected_len m (s : Live T) : len (affected_of m s) <= maxAffectedChannels.
Proof.
  unfold affected_of. assert (len (@nil gostring) <= maxAffectedChannels) as H0 by done.
  destruct (mPrefix m); [|done]. destruct_if as E1; [|done]. cbv zeta. destruct_if as E2; [|lia].
  apply len_slice_to_le. unfold maxAffectedChannels. lia.
Qed.

Lemma track_keys isup iter nick m i : (size (keys (trackJoinIntent isup iter nick m i).2) <= size (keys i))%nat.
Proof.
  unfold trackJoinIntent. destruct (mPrefix m); [|done]. destruct_if as E1; [done|]. destruct_if as E2.
  - unfold rememberJoinIntent. destruct_if as E3; [done|]. cbv zeta. destruct_if as E4; [done|].
    match goal with |- context [if ?b then (Some ErrJoinedSetFull, i) else _] => by destruct b end.
  - destruct_if as E3; [|done]. cbn. apply map_filter_size.
Qed.

Lemma onLiveLine_ok x m s res who s' :
  live_ok s -> onLiveLine x m s = (res, who, s') ->
  live_ok s' /\ Forall (fun m => checkFraming m = None) who /\ (forall a, res = inr a -> len a <= maxAffectedChannels).
Proof.
  intros Hok. unfold onLiveLine. pose proof (affected_len m s) as Ha. destruct (autoReply x m s) as [w s1] eqn:Er.
  destruct (autoReply_ok _ _ _ _ _ Hok Er) as [Hok1 Hw]. destruct (own_nick m s1) as [e|nick] eqn:En; [by intros [= <- <- <-]|].
  pose proof (own_nick_ok m s1 nick (ok_nick s1 Hok1) En) as Hn. cbv zeta. cbn [lIsup lRoster lIdent with_self lJoined lNames lSender].
  set (i0 := MkIntents (lJoined s1) (joinKeys (lSender s1)) (lNames s1)).
  pose proof (track_size (lIsup s1) (cIter x) nick m i0) as Hts. pose proof (track_keys (lIsup s1) (cIter x) nick m i0) as Htk.
  destruct (trackJoinIntent (lIsup s1) (cIter x) nick m i0) as [err i]. cbn [snd] in Hts, Htk. cbn [joined keys i0] in Hts, Htk.
  assert (live_ok (with_intents i (with_self nick (noteOwnIdent (lIsup s1) nick m (lIdent s1)) (Roster.handle (lIsup s1) nick m (lRoster s1)) s1))) as Hok2.
  { destruct Hok1 as [K1 K2 K3 K4 K5 K6 K7 (S1 & S2 & S3)]. split; cbn; try done; [by apply handle_inv|lia|].
    split_and!; cbn; [done..|lia]. }
  destruct err; intros [= <- <- <-]; (split; [done|]); (split; [done|]); [done|]. by intros a [= <-].
Qed.

Lemma processLine_ok x m s err o s' :
  live_ok s -> processLine cfg persisted secure addr x m s = (err, o, s') -> live_ok s' /\ output_ok o.
Proof.
  intros Hok. unfold processLine. destruct (serviceLine cfg persisted secure addr x m s) as [[r o0] s0] eqn:Es.
  destruct (service_ok _ _ _ _ _ _ Hok Es) as [Hok0 Ho0]. destruct r as [e|[]]; [by intros [= <- <- <-]|].
  destruct (feed m (lMl s0)) as [e|[[emit consumed] ml]] eqn:Ef; [by intros [= <- <- <-]|]. cbv zeta.
  pose proof (feed_ok m s0 emit consumed ml (lHist s0) Hok0 Ef (ok_hist s0 Hok0)) as Hok1.
  assert (output_ok (out_app o0 (MkOutput [] [] (match emit with Some e => [(e, [])] | None => [] end)))) as Ho1.
  { apply output_ok_app; [done|]. split_and!; [done..|]. by destruct emit; repeat constructor. }
  destruct consumed; [by intros [= <- <- <-]|]. cbn [lHist with_batches lMl].
  destruct (trackChathistoryBatch m (lHist s0)) as [hist|] eqn:Et; [|by intros [= <- <- <-]].
  pose proof (track_hist_ok m (lHist s0) hist (ok_hist s0 Hok0) Et) as Hh.
  set (s2 := with_isup _ _ _). assert (live_ok s2) as Hok2.
  { destruct Hok1. split; try done. cbn. by apply handle_wf. }
  destruct (isPlayback m hist).
  - intros [= <- <- <-]. split; [done|]. apply output_ok_app; [done|]. by repeat constructor.
  - destruct (onLiveLine x m s2) as [[res who] s3] eqn:El. destruct (onLiveLine_ok _ _ _ _ _ _ Hok2 El) as (Hok3 & Hw & Ha).
    assert (output_ok (MkOutput [] who [])) as Hwo by (split_and!; cbn; done).
    pose proof (output_ok_app _ _ Ho1 Hwo) as Ho2. destruct res as [e|a]; intros [= <- <- <-]; (split; [done|]); [done|].
    apply output_ok_app; [done|]. split_and!; cbn; [done..|]. constructor; [by apply Ha|done].
Qed.


(** Replayed history is shown, not obeyed.  A line of an open chathistory
    batch that is not part of a multiline message is handed to the hub once,
    without affected channels, and leaves our nick and hostmask, the roster, the
    rejoin set, the WHOX set, the send queue and the open batches as they were. *)
Theorem playback_isolated x m s :
  Command m <> §"BATCH" -> Command m <> §"CAP" -> isPlayback m (lHist s) = true -> lMl s !! default [] (Tags m !! §"batch") = None ->
  let '(err, o, s') := processLine cfg persisted secure addr x m s in
  err = None /\ oEvents o = [(m, [])] /\ oInternal o = [] /\
  lNick s' = lNick s /\ lIdent s' = lIdent s /\ lRoster s' = lRoster s /\ lJoined s' = lJoined s /\ lWhox s' = lWhox s /\
  lSender s' = lSender s /\ lHist s' = lHist s /\ lMl s' = lMl s.
Proof.
  intros Hb Hc Hp Hml. unfold processLine, serviceLine. rewrite (bool_decide_eq_false_2 (Command m = §"CAP")) by done.
  unfold feed. rewrite (bool_decide_eq_false_2 (Command m = §"BATCH")) by done. cbn [andb]. rewrite Hml.
  replace (if default [] (Tags m !! §"batch") != [] then None else None) with (@None mlAccum) by by destruct (_ != _).
  cbv iota zeta. cbn [lHist lMl with_batches].
  assert (trackChathistoryBatch m (lHist s) = Some (lHist s)) as ->.
  { unfold trackChathistoryBatch. destruct (Params m); [done|]. by rewrite (bool_decide_eq_false_2 (Command m = §"BATCH")). }
  rewrite Hp. cbn. by split_and!.
Qed.
End invariant.

(** ** Examples *)

#[local] Existing Instance ascii_unicode.
#[local] Instance ex_ip : NetIP := {| ParseAddr _ := None |}.
#[local] Existing Instance ref_ircv4.
#[local] Existing Instance default_limits.
#[local] Instance ex_sha : Sha256 := {| sha256_hex _ := replicate 64 x30 |}.
#[local] Instance ex_sha_laws : Sha256Laws.
Proof. by split. Qed.
(** A store that remembers nothing. *)
#[local] Instance ex_store : StsStoreOps unit := {|
  st_policy _ _ t := (t, inr (MkPolicy 0 0 0 0 0 false));
  st_set _ _ _ _ _ t := (t, inr (1, 1));
  st_clear _ _ t := (t, inr (1, 1));
  st_reschedule _ _ _ _ t := (t, inr (1, false))
|}.

Definition ex_cfg : Config :=
  MkConfig §"net" §"irc.example:6697" true false [] [] None §"me" [] [] [] None [] ∅ (Backoff.MkConfig 0 0 0) 0 0 0 0 0 0.
Definition ex_ctx : LineCtx := MkCtx (MkEnv true true None 0) 0 §"now" [].
Definition ex_live : Live unit :=
  MkLive newISupport LineReader.newBoundedLineReader §"me" (MkIdent [] []) ∅ ∅ ∅ ∅ no_caps ∅ newMultiline (MkSender true [] ∅) newStsState tt.

Lemma ex_live_ok : live_ok 0 ex_live.
Proof. split; cbn; try done. apply newISupport_wf. Qed.

Definition ex_lines : list (LineCtx * Message) :=
  [(ex_ctx, newMsg §"PING" [§"x"]); (ex_ctx, MkMessage ∅ (Some (MkPrefix §"me" §"u" §"h")) §"JOIN" [§"#c"])].


Definition ex_replayed : Message := MkMessage {[ §"batch" := §"h" ]} (Some (MkPrefix §"me" §"u" §"h")) §"NICK" [§"other"].
Definition ex_replaying : Live unit := with_batches newMultiline {[ §"h" ]} ex_live.

Lemma playback_isolated_witness :
  isPlayback ex_replayed (lHist ex_replaying) = true /\
  let '(err, o, s') := processLine ex_cfg false true §"irc.example:6697" ex_ctx ex_replayed ex_replaying in
  err = None /\ oEvents o = [(ex_replayed, [])] /\ lNick s' = §"me".
Proof.
  split; [vm_compute; reflexivity|].
  pose proof (playback_isolated ex_cfg false true §"irc.example:6697" ex_ctx ex_replayed ex_replaying
    ltac:(by vm_compute) ltac:(by vm_compute) ltac:(vm_compute; reflexivity) ltac:(vm_compute; reflexivity)) as Hp.
  destruct (processLine ex_cfg false true §"irc.example:6697" ex_ctx ex_replayed ex_replaying) as [[err o] s'].
  destruct Hp as (H1 & H2 & _ & H3 & _). split; [exact H1|]. split; [exact H2|]. exact H3.
Defined.
