(* ===== verification/NetGuard.v ===== *)
(** * The outbound address guard: internal/netguard/netguard.go

    Which IP addresses and URL hosts the program may fetch from on behalf of a
    client. *)

From S2P Require Import Prelude GoStrings GoUtf8 GoNet GoIP.

(** The [i]-th byte. *)
Definition b4 (a : Z) (i : Z) : Z := Z.land (Z.shiftr a (8 * (3 - i))) 0xFF.
Definition b6 (a : Z) (i : Z) : Z := Z.land (Z.shiftr a (8 * (15 - i))) 0xFF.

(** The classification methods of [net.IP], after [To4]. *)
Definition IsLoopback (ip : IP) : bool := match ip with IPv4 a => b4 a 0 =? 127 | IPv6 a => a =? 1 end.
Definition IsPrivate (ip : IP) : bool :=
  match ip with
  | IPv4 a => (b4 a 0 =? 10) || ((b4 a 0 =? 172) && (Z.land (b4 a 1) 0xF0 =? 16)) || ((b4 a 0 =? 192) && (b4 a 1 =? 168))
  | IPv6 a => Z.land (b6 a 0) 0xFE =? 0xFC
  end.
Definition IsUnspecified (ip : IP) : bool := match ip with IPv4 a => a =? 0 | IPv6 a => a =? 0 end.
Definition IsLinkLocalUnicast (ip : IP) : bool :=
  match ip with
  | IPv4 a => (b4 a 0 =? 169) && (b4 a 1 =? 254)
  | IPv6 a => (b6 a 0 =? 0xFE) && (Z.land (b6 a 1) 0xC0 =? 0x80)
  end.
Definition IsLinkLocalMulticast (ip : IP) : bool :=
  match ip with
  | IPv4 a => (b4 a 0 =? 224) && (b4 a 1 =? 0) && (b4 a 2 =? 0)
  | IPv6 a => (b6 a 0 =? 0xFF) && (Z.land (b6 a 1) 0x0F =? 2)
  end.
Definition IsMulticast (ip : IP) : bool :=
  match ip with IPv4 a => Z.land (b4 a 0) 0xF0 =? 0xE0 | IPv6 a => b6 a 0 =? 0xFF end.
Definition IsInterfaceLocalMulticast (ip : IP) : bool :=
  match ip with IPv4 _ => false | IPv6 a => (b6 a 0 =? 0xFF) && (Z.land (b6 a 1) 0x0F =? 1) end.

(** A CIDR block; [netip.Prefix.Contains] compares the leading bits of addresses
    of one family. *)
Record prefix := MkPrefix { pFamily6 : bool; pBase : Z; pBits : Z }.

Definition Contains (p : prefix) (ip : IP) : bool :=
  match ip with
  | IPv4 a => negb (pFamily6 p) && (Z.shiftr a (32 - pBits p) =? Z.shiftr (pBase p) (32 - pBits p))
  | IPv6 a => pFamily6 p && (Z.shiftr a (128 - pBits p) =? Z.shiftr (pBase p) (128 - pBits p))
  end.

Definition v4 (a b c d : Z) : Z := a * 2 ^ 24 + b * 2 ^ 16 + c * 2 ^ 8 + d.
(** The first three 16-bit groups of an address whose others are zero. *)
Definition v6 (a b c : Z) : Z := a * 2 ^ 112 + b * 2 ^ 96 + c * 2 ^ 80.

Definition specialPurposePrefixes : list prefix := [
  MkPrefix false (v4 0 0 0 0) 8; MkPrefix false (v4 192 0 0 0) 24; MkPrefix false (v4 192 0 2 0) 24;
  MkPrefix false (v4 198 51 100 0) 24; MkPrefix false (v4 203 0 113 0) 24; MkPrefix false (v4 192 31 196 0) 24;
  MkPrefix false (v4 192 52 193 0) 24; MkPrefix false (v4 192 88 99 0) 24; MkPrefix false (v4 192 175 48 0) 24;
  MkPrefix false (v4 100 64 0 0) 10; MkPrefix false (v4 198 18 0 0) 15; MkPrefix false (v4 240 0 0 0) 4;
  MkPrefix true 0 128; MkPrefix true 1 128; MkPrefix true (0xFFFF * 2 ^ 32) 96;
  MkPrefix true 0 96; MkPrefix true (0xFFFF * 2 ^ 48) 96;
  MkPrefix true (v6 0x64 0xff9b 0) 96; MkPrefix true (v6 0x64 0xff9b 1) 48; MkPrefix true (v6 0x100 0 0) 64;
  MkPrefix true (v6 0x2001 0 0) 23; MkPrefix true (v6 0x2001 0xdb8 0) 32; MkPrefix true (v6 0x2002 0 0) 16;
  MkPrefix true (v6 0x3fff 0 0) 20; MkPrefix true (v6 0x5f00 0 0) 16].

Definition globalUnicastV6 : prefix := MkPrefix true (v6 0x2000 0 0) 3.

(** [None] is a nil [net.IP]. *)
Definition IsPublicIP (ip : option IP) : bool :=
  match ip with
  | None => false
  | Some ip =>
      let ip := To4 ip in
      if IsLoopback ip || IsPrivate ip || IsUnspecified ip || IsLinkLocalUnicast ip || IsLinkLocalMulticast ip
         || IsMulticast ip || IsInterfaceLocalMulticast ip then false
      else if existsb (fun p => Contains p ip) specialPurposePrefixes then false
      else match ip with IPv6 _ => Contains globalUnicastV6 ip | IPv4 _ => true end
  end.

(** ** Hosts *)

Definition isHexDigit (c : Z) : bool := in_range 48 c 57 || in_range 97 c 102 || in_range 65 c 70.

Definition numericLabel (s : gostring) : bool :=
  match s with
  | [] => false
  | c0 :: c1 :: rest =>
      if (c0 == x30) && ((c1 == x78) || (c1 == x58)) then forallb isHexDigit (runes rest)
      else forallb (fun c => in_range 48 c 57) (runes s)
  | _ => forallb (fun c => in_range 48 c 57) (runes s)
  end.

Section hosts.
Context `{Unicode}.

Definition IsLocalName (host : gostring) : bool :=
  let host := ToLower (TrimSuffix host §".") in
  if (host == §"localhost") || HasSuffix host §".localhost" then true
  else if host == [] then false
  else forallb numericLabel (Split host x2e).

Definition HostAllowedBy (host : gostring) (allowIP : option IP -> bool) : bool :=
  let zone := IndexByte host x25 in
  let host := if 0 <=? zone then slice_to host zone else host in
  match ParseIP host with
  | Some ip => allowIP (Some ip)
  | None => negb (IsLocalName host)
  end.

Definition HostAllowed (host : gostring) : bool := HostAllowedBy host IsPublicIP.
End hosts.

(** ** The IPv4 allowlist, as intervals *)

(** First and last public address of each stretch between the blocks refused. *)
Definition public4 : list (Z * Z) := [
  (v4 1 0 0 0, v4 9 255 255 255); (v4 11 0 0 0, v4 100 63 255 255); (v4 100 128 0 0, v4 126 255 255 255);
  (v4 128 0 0 0, v4 169 253 255 255); (v4 169 255 0 0, v4 172 15 255 255); (v4 172 32 0 0, v4 191 255 255 255);
  (v4 192 0 1 0, v4 192 0 1 255); (v4 192 0 3 0, v4 192 31 195 255); (v4 192 31 197 0, v4 192 52 192 255);
  (v4 192 52 194 0, v4 192 88 98 255); (v4 192 88 100 0, v4 192 167 255 255); (v4 192 169 0 0, v4 192 175 47 255);
  (v4 192 175 49 0, v4 198 17 255 255); (v4 198 20 0 0, v4 198 51 99 255); (v4 198 51 101 0, v4 203 0 112 255);
  (v4 203 0 114 0, v4 223 255 255 255)].

(** ** Lemmas *)

Lemma shiftr_block a base k : 0 <= k -> base mod 2 ^ k = 0 -> (Z.shiftr a k =? Z.shiftr base k) = in_range base a (base + 2 ^ k - 1).
Proof.
  intros Hk Hb. rewrite !Z.shiftr_div_pow2 by lia. pose proof (Z.pow_pos_nonneg 2 k ltac:(lia) Hk) as Hp.
  pose proof (Z.div_mod base (2 ^ k) ltac:(lia)) as Hd. pose proof (Z.div_mod a (2 ^ k) ltac:(lia)) as Ha.
  pose proof (Z.mod_pos_bound a (2 ^ k) Hp) as Hm. unfold in_range.
  destruct (Z.eqb_spec (a / 2 ^ k) (base / 2 ^ k)) as [E|E].
  - rewrite E in Ha. symmetry. apply andb_true_iff. rewrite !Z.leb_le. lia.
  - symmetry. apply andb_false_iff. rewrite !Z.leb_gt.
    destruct (Z.lt_total (a / 2 ^ k) (base / 2 ^ k)) as [Hl|[Hl|Hl]]; [left; nia|done|right; nia].
Qed.

Lemma b4_div a i : 0 <= i <= 3 -> b4 a i = a / 2 ^ (8 * (3 - i)) mod 256.
Proof.
  intros Hi. unfold b4. rewrite Z.shiftr_div_pow2 by lia. change 0xFF with (Z.ones 8). by rewrite Z.land_ones by lia.
Qed.

(** *** Unions of intervals *)

Definition in_any (l : list (Z * Z)) (a : Z) : bool := existsb (fun '(lo, hi) => in_range lo a hi) l.

Definition breakpoints (l : list (Z * Z)) : list Z := 0 :: mjoin ((fun '(lo, hi) => [lo; hi + 1]) <$> l).

(** The last breakpoint not after [a]. *)
Definition floor_in (bs : list Z) (a : Z) : Z := foldr (fun b p => if (b <=? a) && (p <? b) then b else p) 0 bs.

Lemma floor_in_spec bs a : 0 <= a -> let p := floor_in bs a in p <= a /\ (p = 0 \/ p ∈ bs) /\ forall b, b ∈ bs -> b <= a -> b <= p.
Proof.
  intros Ha. cbv zeta. induction bs as [|b bs (IH1 & IH2 & IH3)]; simpl.
  - split; [done|]. split; [by left|]. by intros b Hb%elem_of_nil.
  - destruct ((b <=? a) && (floor_in bs a <? b)) eqn:E.
    + split; [lia|]. split; [right; by left|]. intros c [->|Hc]%elem_of_cons Hle; [lia|]. specialize (IH3 c Hc Hle). lia.
    + split; [done|]. split; [destruct IH2; [by left|right; by right]|].
      intros c [->|Hc]%elem_of_cons Hle; [|by apply IH3]. lia.
Qed.

Lemma in_any_floor l bs a :
  0 <= a -> (forall b, b ∈ breakpoints l -> b ∈ bs) -> in_any l a = in_any l (floor_in bs a).
Proof.
  intros Ha Hsub. destruct (floor_in_spec bs a Ha) as (H1 & _ & H3). revert Hsub H1 H3. generalize (floor_in bs a) as p. intros p Hsub H1 H3.
  induction l as [|[lo hi] l IH]; [done|]. cbn [in_any existsb].
  assert (in_range lo a hi = in_range lo p hi) as ->.
  { assert (lo ∈ bs) as Hlo by (apply Hsub; right; by left). assert (hi + 1 ∈ bs) as Hhi by (apply Hsub; right; right; by left).
    specialize (H3 lo Hlo) as K1. specialize (H3 (hi + 1) Hhi) as K2. unfold in_range.
    destruct (Z.leb_spec lo a), (Z.leb_spec lo p), (Z.leb_spec a hi), (Z.leb_spec p hi); try done; lia. }
  f_equal. apply IH. intros b [->|Hb]%elem_of_cons; apply Hsub; [by left|]. right. right. by right.
Qed.

(** Two unions of intervals that agree at every breakpoint below [N] agree below
    [N]. *)
Lemma intervals_agree N l k (f : bool -> bool) :
  forallb (fun b => (N <=? b) || eqb (in_any l b) (f (in_any k b))) (breakpoints l ++ breakpoints k) = true ->
  forall a, 0 <= a < N -> in_any l a = f (in_any k a).
Proof.
  intros Hall a [Ha HN]. set (bs := breakpoints l ++ breakpoints k) in *.
  rewrite (in_any_floor l bs a Ha), (in_any_floor k bs a Ha); [|intros b Hb; apply elem_of_app; auto..].
  rewrite forallb_forall in Hall. destruct (floor_in_spec bs a Ha) as (Hle & Hor & _).
  assert (In (floor_in bs a) bs) as Hin by (destruct Hor as [->|Hin]; [by left|by apply list_elem_of_In]).
  specialize (Hall _ Hin). apply orb_true_iff in Hall as [Hge|Heq]; [lia|by apply eqb_true_iff].
Qed.

(** *** The tests as intervals *)

Lemma byte_div a k b : 0 <= a < 2 ^ (k + 8) -> 0 <= k -> 0 <= b < 256 ->
  (a / 2 ^ k mod 256 =? b) = in_range (b * 2 ^ k) a (b * 2 ^ k + 2 ^ k - 1).
Proof.
  intros Ha Hk Hb. rewrite Z.pow_add_r in Ha by lia. change (2 ^ 8) with 256 in Ha.
  pose proof (Z.pow_pos_nonneg 2 k ltac:(lia) Hk) as Hp.
  rewrite (Z.mod_small (a / 2 ^ k)) by (split; [apply Z.div_pos; lia|apply Z.div_lt_upper_bound; lia]).
  rewrite <- (shiftr_block a (b * 2 ^ k) k Hk) by (apply Z.mod_mul; lia).
  rewrite !Z.shiftr_div_pow2 by lia. by rewrite Z.div_mul by lia.
Qed.

(** Masked bytes, by inspection of the 256 bytes. *)
Definition bytes256 : list Z := Z.of_nat <$> seq 0 256.
Lemma masked mask want lo hi :
  forallb (fun x => eqb (Z.land x mask =? want) (in_range lo x hi)) bytes256 = true ->
  forall x, 0 <= x < 256 -> (Z.land x mask =? want) = in_range lo x hi.
Proof.
  intros Hall x Hx. rewrite forallb_forall in Hall. apply eqb_true_iff, Hall.
  apply in_map_iff. exists (Z.to_nat x). split; [lia|]. apply in_seq. lia.
Qed.

Lemma byte_range a k lo hi : 0 <= a < 2 ^ (k + 8) -> 0 <= k -> 0 <= lo -> hi < 256 ->
  in_range lo (a / 2 ^ k mod 256) hi = in_range (lo * 2 ^ k) a ((hi + 1) * 2 ^ k - 1).
Proof.
  intros Ha Hk Hlo Hhi. rewrite Z.pow_add_r in Ha by lia. change (2 ^ 8) with 256 in Ha.
  pose proof (Z.pow_pos_nonneg 2 k ltac:(lia) Hk) as Hp.
  rewrite (Z.mod_small (a / 2 ^ k)) by (split; [apply Z.div_pos; lia|apply Z.div_lt_upper_bound; lia]).
  pose proof (Z.div_mod a (2 ^ k) ltac:(lia)) as Hd. pose proof (Z.mod_pos_bound a (2 ^ k) Hp) as Hm.
  unfold in_range. set (q := a / 2 ^ k) in *. set (r := a mod 2 ^ k) in *. f_equal.
  - destruct (Z.leb_spec lo q), (Z.leb_spec (lo * 2 ^ k) a); try done; nia.
  - destruct (Z.leb_spec q hi), (Z.leb_spec a ((hi + 1) * 2 ^ k - 1)); try done; nia.
Qed.

Lemma two_bytes a k x lo hi : 0 <= a < 2 ^ (k + 16) -> 0 <= k -> 0 <= lo -> hi < 256 -> 0 <= x < 256 ->
  (a / 2 ^ (k + 8) mod 256 =? x) && in_range lo (a / 2 ^ k mod 256) hi =
  in_range ((x * 256 + lo) * 2 ^ k) a ((x * 256 + hi + 1) * 2 ^ k - 1).
Proof.
  intros Ha Hk Hlo Hhi Hx. rewrite Z.pow_add_r in Ha by lia. change (2 ^ 16) with 65536 in Ha.
  pose proof (Z.pow_pos_nonneg 2 k ltac:(lia) Hk) as Hp.
  rewrite Z.pow_add_r by lia. change (2 ^ 8) with 256. rewrite <- Z.div_div by lia.
  pose proof (Z.div_mod a (2 ^ k) ltac:(lia)) as Hd. pose proof (Z.mod_pos_bound a (2 ^ k) Hp) as Hm.
  set (q := a / 2 ^ k) in *. set (r := a mod 2 ^ k) in *.
  assert (0 <= q < 65536) as Hq by nia.
  pose proof (Z.div_mod q 256 ltac:(lia)) as Hd2. pose proof (Z.mod_pos_bound q 256 ltac:(lia)) as Hm2.
  set (h := q / 256) in *. set (l := q mod 256) in *. rewrite (Z.mod_small h) by lia.
  assert ((h =? x) && in_range lo l hi = in_range (x * 256 + lo) q (x * 256 + hi)) as ->.
  { unfold in_range. destruct (Z.eqb_spec h x), (Z.leb_spec lo l), (Z.leb_spec l hi), (Z.leb_spec (x * 256 + lo) q), (Z.leb_spec q (x * 256 + hi)); try done; lia. }
  unfold in_range. f_equal.
  - destruct (Z.leb_spec (x * 256 + lo) q), (Z.leb_spec ((x * 256 + lo) * 2 ^ k) a); try done; nia.
  - destruct (Z.leb_spec q (x * 256 + hi)), (Z.leb_spec a ((x * 256 + hi + 1) * 2 ^ k - 1)); try done; nia.
Qed.

(** What the guard refuses, as intervals. *)
Definition deny4 : list (Z * Z) :=
  [(v4 127 0 0 0, v4 127 255 255 255); (v4 10 0 0 0, v4 10 255 255 255); (v4 172 16 0 0, v4 172 31 255 255);
   (v4 192 168 0 0, v4 192 168 255 255); (0, 0); (v4 169 254 0 0, v4 169 254 255 255); (v4 224 0 0 0, v4 239 255 255 255)] ++
  ((fun p => (pBase p, pBase p + 2 ^ (32 - pBits p) - 1)) <$> List.filter (fun p => negb (pFamily6 p)) specialPurposePrefixes).

Lemma byte_mod a k : 0 <= a / 2 ^ k mod 256 < 256.
Proof. apply Z.mod_pos_bound. lia. Qed.

Lemma classes4 a :
  0 <= a < 2 ^ 32 ->
  IsLoopback (IPv4 a) || IsPrivate (IPv4 a) || IsUnspecified (IPv4 a) || IsLinkLocalUnicast (IPv4 a) || IsLinkLocalMulticast (IPv4 a)
    || IsMulticast (IPv4 a) || IsInterfaceLocalMulticast (IPv4 a) = in_any (take 7 deny4) a.
Proof.
  intros Ha. unfold IsLoopback, IsPrivate, IsUnspecified, IsLinkLocalUnicast, IsLinkLocalMulticast, IsMulticast, IsInterfaceLocalMulticast.
  rewrite !b4_div by lia. change (8 * (3 - 0)) with 24. change (8 * (3 - 1)) with 16. change (8 * (3 - 2)) with 8.
  rewrite (masked 0xF0 16 16 31 ltac:(vm_compute; reflexivity)) by apply byte_mod.
  rewrite (masked 0xF0 0xE0 0xE0 0xEF ltac:(vm_compute; reflexivity)) by apply byte_mod.
  assert (forall x, 0 <= x < 256 -> (a / 2 ^ 16 mod 256 =? x) = in_range x (a / 2 ^ 16 mod 256) x) as E1 by (intros; unfold in_range; lia).
  rewrite (E1 168), (E1 254) by lia.
  change 24 with (16 + 8).
  rewrite (two_bytes a 16 172 16 31), (two_bytes a 16 192 168 168), (two_bytes a 16 169 254 254) by lia.
  change (16 + 8) with 24.
  rewrite (byte_range a 24 0xE0 0xEF) by lia. rewrite (byte_div a 24 127), (byte_div a 24 10) by lia.
  assert (forall c, (a / 2 ^ 24 mod 256 =? 224) && c = true -> in_range (224 * 2 ^ 24) a ((239 + 1) * 2 ^ 24 - 1) = true) as Esub.
  { intros c [E _]%andb_true_iff. rewrite (byte_div a 24 224) in E by lia. unfold in_range in *. lia. }
  cbn [take deny4 app in_any existsb]. unfold v4.
  set (llm := (a / 2 ^ 24 mod 256 =? 224) && _ && _).
  assert (llm = true -> in_range (224 * 2 ^ 24) a ((239 + 1) * 2 ^ 24 - 1) = true) as El.
  { unfold llm. rewrite <- andb_assoc. apply Esub. }
  assert ((a =? 0) = in_range 0 a 0) as -> by (unfold in_range; lia).
  change (existsb _ (take 0 _)) with false. clearbody llm. unfold in_range in *. clear E1 Esub. destruct llm; [specialize (El eq_refl)|clear El]; lia.
Qed.

Lemma contains_block (six : bool) p a :
  0 <= pBits p <= (if six then 128 else 32) -> pBase p mod 2 ^ ((if six then 128 else 32) - pBits p) = 0 ->
  Contains p (if six then IPv6 a else IPv4 a) =
  eqb (pFamily6 p) six && in_range (pBase p) a (pBase p + 2 ^ ((if six then 128 else 32) - pBits p) - 1).
Proof.
  intros Hb Hm. destruct six; unfold Contains; rewrite shiftr_block by (done || lia); by destruct (pFamily6 p).
Qed.

(** Every block of the list is aligned. *)
Definition aligned (p : prefix) : bool :=
  let w := if pFamily6 p then 128 else 32 in (0 <=? pBits p) && (pBits p <=? w) && (pBase p mod 2 ^ (w - pBits p) =? 0).

Lemma blocks (six : bool) ps a :
  forallb aligned ps = true ->
  existsb (fun p => Contains p (if six then IPv6 a else IPv4 a)) ps =
  in_any ((fun p => (pBase p, pBase p + 2 ^ ((if six then 128 else 32) - pBits p) - 1)) <$> List.filter (fun p => eqb (pFamily6 p) six) ps) a.
Proof.
  induction ps as [|p ps IH]; [done|]. simpl. intros [Hp Hps]%andb_true_iff. rewrite (IH Hps).
  unfold aligned in Hp. apply andb_true_iff in Hp as [[H1 H2]%andb_true_iff H3].
  destruct (pFamily6 p) eqn:Ef, six; cbn [eqb] in *.
  - rewrite (contains_block true p a), Ef by lia. done.
  - unfold Contains. by rewrite Ef.
  - unfold Contains. by rewrite Ef.
  - rewrite (contains_block false p a), Ef by lia. done.
Qed.

Definition deny6 : list (Z * Z) :=
  [(1, 1); (0xfc * 2 ^ 120, 0xfe * 2 ^ 120 - 1); (0, 0); ((0xfe * 256 + 0x80) * 2 ^ 112, (0xfe * 256 + 0xbf + 1) * 2 ^ 112 - 1);
   (0xff * 2 ^ 120, 2 ^ 128 - 1)] ++
  ((fun p => (pBase p, pBase p + 2 ^ (128 - pBits p) - 1)) <$> List.filter (fun p => pFamily6 p) specialPurposePrefixes).

Lemma b6_div a i : 0 <= i <= 15 -> b6 a i = a / 2 ^ (8 * (15 - i)) mod 256.
Proof.
  intros Hi. unfold b6. rewrite Z.shiftr_div_pow2 by lia. change 0xFF with (Z.ones 8). by rewrite Z.land_ones by lia.
Qed.

Lemma classes6 a :
  0 <= a < 2 ^ 128 ->
  IsLoopback (IPv6 a) || IsPrivate (IPv6 a) || IsUnspecified (IPv6 a) || IsLinkLocalUnicast (IPv6 a) || IsLinkLocalMulticast (IPv6 a)
    || IsMulticast (IPv6 a) || IsInterfaceLocalMulticast (IPv6 a) = in_any (take 5 deny6) a.
Proof.
  intros Ha. unfold IsLoopback, IsPrivate, IsUnspecified, IsLinkLocalUnicast, IsLinkLocalMulticast, IsMulticast, IsInterfaceLocalMulticast.
  rewrite !b6_div by lia. change (8 * (15 - 0)) with (112 + 8). change (8 * (15 - 1)) with 112.
  rewrite (masked 0xFE 0xFC 0xFC 0xFD ltac:(vm_compute; reflexivity)) by apply byte_mod.
  rewrite (masked 0xC0 0x80 0x80 0xBF ltac:(vm_compute; reflexivity)) by apply byte_mod.
  rewrite (two_bytes a 112 0xFE 0x80 0xBF) by lia. change (112 + 8) with 120.
  rewrite (byte_range a 120 0xFC 0xFD) by lia. rewrite (byte_div a 120 0xFF) by lia.
  set (nib2 := Z.land _ 15 =? 2). set (nib1 := Z.land _ 15 =? 1). clearbody nib1 nib2.
  cbn [take deny6 app in_any existsb]. change (existsb _ (take 0 _)) with false. unfold in_range. destruct nib1, nib2; lia.
Qed.

(** ** Theorems *)

(** The public IPv6 space: 2000::/3 without its special blocks. *)
Definition public6 : list (Z * Z) := [
  (v6 0x2000 0 0, v6 0x2001 0 0 - 1); (v6 0x2001 0x200 0, v6 0x2001 0xdb8 0 - 1); (v6 0x2001 0xdb9 0, v6 0x2002 0 0 - 1);
  (v6 0x2003 0 0, v6 0x3fff 0 0 - 1); (v6 0x3fff 0x1000 0, v6 0x4000 0 0 - 1)].

Lemma in_any_app l k a : in_any (l ++ k) a = in_any l a || in_any k a.
Proof. apply existsb_app. Qed.

Lemma public4_exact a : 0 <= a < 2 ^ 32 -> IsPublicIP (Some (IPv4 a)) = in_any public4 a.
Proof.
  intros Ha. unfold IsPublicIP. cbn [To4]. rewrite classes4 by done.
  rewrite (blocks false specialPurposePrefixes a ltac:(vm_compute; reflexivity)).
  rewrite (intervals_agree (2 ^ 32) public4 deny4 negb ltac:(vm_compute; reflexivity) a Ha).
  rewrite <- (take_drop 7 deny4) at 2. rewrite in_any_app.
  change (drop 7 deny4) with ((fun p => (pBase p, pBase p + 2 ^ (32 - pBits p) - 1)) <$> List.filter (fun p => eqb (pFamily6 p) false) specialPurposePrefixes).
  by destruct (in_any (take 7 deny4) a), (in_any _ a).
Qed.

(** Everything outside 2000::/3, as one more refused interval on each side. *)
Definition outside6 : list (Z * Z) := [(0, v6 0x2000 0 0 - 1); (v6 0x4000 0 0, 2 ^ 128 - 1)].

Lemma public6_exact a :
  0 <= a < 2 ^ 128 -> To4 (IPv6 a) = IPv6 a -> IsPublicIP (Some (IPv6 a)) = in_any public6 a.
Proof.
  intros Ha H4. unfold IsPublicIP. rewrite H4, classes6 by done.
  rewrite (blocks true specialPurposePrefixes a ltac:(vm_compute; reflexivity)).
  rewrite (intervals_agree (2 ^ 128) public6 (deny6 ++ outside6) negb ltac:(vm_compute; reflexivity) a Ha).
  rewrite in_any_app. rewrite <- (take_drop 5 deny6) at 2. rewrite in_any_app.
  change (drop 5 deny6) with ((fun p => (pBase p, pBase p + 2 ^ (128 - pBits p) - 1)) <$> List.filter (fun p => eqb (pFamily6 p) true) specialPurposePrefixes).
  rewrite (contains_block true globalUnicastV6 a) by first [by vm_compute | cbn; lia].
  assert (in_any outside6 a = negb (eqb (pFamily6 globalUnicastV6) true && in_range (pBase globalUnicastV6) a
            (pBase globalUnicastV6 + 2 ^ (128 - pBits globalUnicastV6) - 1))) as ->.
  { cbn [in_any outside6 existsb globalUnicastV6 pFamily6 pBase pBits eqb andb]. unfold in_range, v6. lia. }
  by destruct (in_any (take 5 deny6) a), (in_any (_ <$> _) a), (eqb _ _ && _).
Qed.

(** *** Host names *)

Definition lower_byte (c : byte) : byte := z2b (if is_upper (b2z c) then b2z c + 32 else b2z c).

Definition lower (s : gostring) : gostring := lower_byte <$> s.

Definition hex_byte (c : byte) : bool := isHexDigit (b2z c).

(** One part of an inet_aton(3) address, on the bytes as written. *)
Definition aton_label (s : gostring) : bool :=
  match s with
  | [] => false
  | x30 :: x78 :: rest | x30 :: x58 :: rest => forallb hex_byte rest
  | _ => forallb is_digit s
  end.

(** The names that reach the local host without DNS: localhost and its
    subdomains in any case, and every numeric spelling, with or without the
    final dot. *)
Definition local_core (core : gostring) : Prop :=
  lower core = §"localhost" \/ (exists sub, lower core = sub ++ §".localhost") \/
  (exists labels, labels <> [] /\ Forall (fun l => aton_label l = true) labels /\ core = Join labels §".").

Definition loopback_name (host : gostring) : Prop :=
  exists core dot, host = core ++ dot /\ (dot = [] \/ dot = §".") /\ local_core core.

Lemma lower_byte_dot c : lower_byte c = x2e <-> c = x2e.
Proof. split; [|by intros ->]. by destruct c. Qed.

Lemma lower_byte_hex c : hex_byte (lower_byte c) = hex_byte c.
Proof. by destruct c. Qed.

Lemma lower_byte_digit c : is_digit (lower_byte c) = is_digit c.
Proof. by destruct c. Qed.

Lemma ToLower_ascii `{Unicode} s : is_ascii s = true -> ToLower s = lower_byte <$> s.
Proof.
  intros Ha. unfold ToLower. rewrite (runes_ascii s Ha). induction s as [|c s IH]; [done|].
  simpl in Ha. apply andb_true_iff in Ha as [Hc Hs]. cbn [fmap list_fmap]. change (?x :: ?l) with ([x] ++ l) at 1.
  rewrite string_of_runes_app, (IH Hs). change (lower_byte c :: ?l) with ([lower_byte c] ++ l). f_equal.
  unfold string_of_runes. cbn [mbind list_bind]. rewrite app_nil_r. unfold rune_lower. rewrite Hc.
  apply EncodeRune_ascii. clear IH Hs. destruct c; try done; vm_compute; split; congruence.
Qed.

Lemma lower_ascii s : is_ascii s = true -> is_ascii (lower_byte <$> s) = true.
Proof.
  induction s as [|c s IH]; [done|]. unfold is_ascii in *. simpl. intros [Hc Hs]%andb_true_iff.
  apply andb_true_iff. split; [by destruct c|by apply IH].
Qed.

Lemma forallb_runes f s : is_ascii s = true -> forallb f (runes s) = forallb (fun c => f (b2z c)) s.
Proof. intros Ha. rewrite (runes_ascii s Ha). clear Ha. induction s as [|c s IH]; [done|]. cbn. f_equal. apply IH. Qed.

Lemma forallb_lower f s : (forall c, f (lower_byte c) = f c) -> forallb f (lower_byte <$> s) = forallb f s.
Proof. intros Hf. induction s as [|c s IH]; [done|]. cbn. rewrite Hf. f_equal. apply IH. Qed.

Lemma numericLabel_lower s : is_ascii s = true -> numericLabel (lower_byte <$> s) = aton_label s.
Proof.
  intros Ha. assert (forallb (fun c => in_range 48 c 57) (runes (lower_byte <$> s)) = forallb is_digit s) as Hd.
  { rewrite forallb_runes by by apply lower_ascii. apply (forallb_lower is_digit s lower_byte_digit). }
  destruct s as [|c0 [|c1 rest]]; [done|by destruct c0|].
  assert (forallb isHexDigit (runes (lower_byte <$> rest)) = forallb hex_byte rest) as Hx.
  { simpl in Ha. apply andb_true_iff in Ha as [_ [_ Hr]%andb_true_iff].
    rewrite forallb_runes by by apply lower_ascii. apply (forallb_lower hex_byte rest lower_byte_hex). }
  cbn [fmap list_fmap numericLabel] in *. rewrite Hd, Hx. clear.
  destruct (lower_byte c0 == x30) eqn:E0; [|by destruct c0].
  assert (c0 = x30) as -> by by destruct c0. simpl. by destruct c1.
Qed.

Lemma Split_lower s : Split (lower s) x2e = lower <$> Split s x2e.
Proof.
  induction s as [|c s IH]; [done|]. unfold lower. cbn [fmap list_fmap Split]. fold (lower s). rewrite IH.
  pose proof (lower_byte_dot c) as Hd. destruct (decide (c = x2e)) as [->|Hn]; [done|].
  rewrite (bool_decide_eq_false_2 (c = x2e)) by done. rewrite (bool_decide_eq_false_2 (lower_byte c = x2e)) by by rewrite Hd.
  by destruct (Split s x2e).
Qed.

Lemma is_ascii_app a b : is_ascii (a ++ b) = is_ascii a && is_ascii b.
Proof. apply forallb_app. Qed.

Lemma Split_ascii s w c : is_ascii s = true -> w ∈ Split s c -> is_ascii w = true.
Proof.
  revert w. induction s as [|d s IH]; simpl; intros w Ha Hw; [by apply list_elem_of_singleton in Hw as ->|].
  apply andb_true_iff in Ha as [Hd Hs]. specialize (fun w => IH w Hs).
  case_bool_decide; [apply elem_of_cons in Hw as [->|Hw]; auto|].
  destruct (Split s c) as [|w' ws]; [apply list_elem_of_singleton in Hw as ->; simpl; by rewrite Hd|].
  apply elem_of_cons in Hw as [->|Hw]; [|apply IH; by right]. simpl. rewrite Hd. apply IH. by left.
Qed.

Lemma forallb_numeric ls :
  Forall (fun l => is_ascii l = true) ls -> forallb numericLabel (lower <$> ls) = forallb aton_label ls.
Proof. induction 1 as [|l ls Hl _ IH]; [done|]. cbn. f_equal; [by apply numericLabel_lower|apply IH]. Qed.

Lemma HasSuffix_spec s p : HasSuffix s p = true <-> exists t, s = t ++ p.
Proof.
  unfold HasSuffix. rewrite HasPrefix_spec. split; intros [t Ht].
  - exists (reverse t). by rewrite <- (reverse_involutive s), Ht, reverse_app, reverse_involutive.
  - exists (reverse t). by rewrite Ht, reverse_app.
Qed.

Lemma TrimSuffix_cases s p : s = TrimSuffix s p ++ p \/ (TrimSuffix s p = s /\ ~ exists t, s = t ++ p).
Proof.
  unfold TrimSuffix. destruct (HasSuffix s p) eqn:E.
  - apply HasSuffix_spec in E as [t ->]. left. rewrite length_app, Nat.add_sub. by rewrite take_app_length.
  - right. split; [done|]. rewrite <- HasSuffix_spec. congruence.
Qed.

Lemma forallb_Forall {A} (f : A -> bool) l : forallb f l = true <-> Forall (fun x => f x = true) l.
Proof. rewrite forallb_forall, Forall_forall. by setoid_rewrite list_elem_of_In. Qed.

Section guard.
Context `{Unicode}.

Lemma aton_no_dot l : aton_label l = true -> x2e ∉ l.
Proof.
  assert (forall f : byte -> bool, f x2e = false -> forall s, forallb f s = true -> x2e ∉ s) as Hf.
  { intros f Hf s Hall Hin. rewrite forallb_forall in Hall. apply list_elem_of_In, Hall in Hin. congruence. }
  destruct l as [|c0 [|c1 rest]]; [done|intros Hl; apply (Hf is_digit eq_refl); by destruct c0|].
  intros Hl. destruct (decide (c0 = x30 /\ (c1 = x78 \/ c1 = x58))) as [[-> Hc]|Hn].
  - assert (forallb hex_byte rest = true) as Hr by (destruct Hc as [->| ->]; done).
    pose proof (Hf hex_byte eq_refl _ Hr). destruct Hc as [->| ->]; set_solver.
  - apply (Hf is_digit eq_refl). destruct c0; try done. destruct c1; try done; destruct Hn; auto.
Qed.

Lemma IsLocalName_core host :
  is_ascii host = true -> IsLocalName host = true <-> local_core (TrimSuffix host §".").
Proof.
  intros Ha. assert (is_ascii (TrimSuffix host §".") = true) as Hc.
  { destruct (TrimSuffix_cases host §".") as [E|[-> _]]; [|done]. rewrite E, is_ascii_app in Ha. by apply andb_true_iff in Ha as [? _]. }
  unfold IsLocalName, local_core. rewrite (ToLower_ascii _ Hc). fold (lower (TrimSuffix host §".")).
  set (core := TrimSuffix host §".") in *. clearbody core. clear Ha host.
  assert (forallb numericLabel (Split (lower core) x2e) = forallb aton_label (Split core x2e)) as En.
  { rewrite Split_lower. apply forallb_numeric, Forall_forall. intros w Hw. by eapply Split_ascii. }
  rewrite En. clear En.
  assert (forallb aton_label (Split core x2e) = true <->
          exists labels, labels <> [] /\ Forall (fun l => aton_label l = true) labels /\ core = Join labels §".") as El.
  { rewrite forallb_Forall. split.
    - intros Hl. exists (Split core x2e). split; [apply Split_nonempty|]. split; [done|]. symmetry. apply (Join_Split core x2e).
    - intros (ls & Hne & Hls & ->). change §"." with [x2e]. rewrite Split_Join; [done..|].
      eapply Forall_impl; [done|]. intros l. apply aton_no_dot. }
  destruct ((lower core == §"localhost") || HasSuffix (lower core) §".localhost") eqn:E1.
  - split; [intros _|done]. apply orb_true_iff in E1 as [E1|E1]; [left; by apply bool_decide_eq_true in E1|].
    right. left. by apply HasSuffix_spec.
  - apply orb_false_iff in E1 as [E1 E2]. apply bool_decide_eq_false in E1.
    assert (~ exists sub, lower core = sub ++ §".localhost") as E3 by (rewrite <- HasSuffix_spec; congruence).
    destruct (lower core == []) eqn:E4.
    + apply bool_decide_eq_true in E4. destruct core; [|done]. rewrite <- El. cbn. naive_solver.
    + rewrite El. naive_solver.
Qed.
Lemma Join_last_dot ls :
  ls <> [] -> Forall (fun l => aton_label l = true) ls -> exists c, last (Join ls §".") = Some c /\ c <> x2e.
Proof.
  induction ls as [|w ws IH]; [done|]. intros _ [Hw Hws]%Forall_cons. destruct ws as [|w' ws].
  - simpl. destruct (last w) as [c|] eqn:El.
    + exists c. split; [done|]. intros ->. apply last_Some in El as [u ->]. apply aton_no_dot in Hw. set_solver.
    + apply last_None in El as ->. done.
  - destruct (IH ltac:(done) Hws) as (c & Hl & Hc). exists c. split; [|done].
    change (Join (w :: w' :: ws) §".") with (w ++ §"." ++ Join (w' :: ws) §"."). by rewrite !last_app, Hl.
Qed.

Lemma dot_ended core : local_core core -> ~ exists t, core = t ++ §".".
Proof.
  intros Hc [t ->]. assert (lower (t ++ §".") = lower t ++ [x2e]) as El by (unfold lower; by rewrite fmap_app).
  destruct Hc as [E|[[sub E]|(ls & Hne & Hls & E)]]; [rewrite El in E..|].
  - apply (f_equal last) in E. rewrite last_snoc in E. discriminate.
  - apply (f_equal last) in E. rewrite last_snoc, last_app in E. discriminate.
  - destruct (Join_last_dot ls Hne Hls) as (c & Hl & Hn). rewrite <- E in Hl. change §"." with [x2e] in Hl.
    rewrite last_snoc in Hl. congruence.
Qed.

Lemma IsLocalName_exact host : is_ascii host = true -> IsLocalName host = true <-> loopback_name host.
Proof.
  intros Ha. rewrite (IsLocalName_core host Ha). split.
  - intros Hc. exists (TrimSuffix host §".").
    destruct (TrimSuffix_cases host §".") as [E|[E _]]; [exists §"."|exists []; rewrite app_nil_r]; split; auto.
  - intros (core & dot & -> & [->| ->] & Hc).
    + rewrite app_nil_r. destruct (TrimSuffix_cases core §".") as [E|[-> _]]; [|done].
      exfalso. eapply dot_ended; [exact Hc|]. by exists (TrimSuffix core §".").
    + by rewrite TrimSuffix_app.
Qed.

(** C24. The address guard: [IsPublicIP] admits exactly the sixteen stretches of
    IPv4 space and the five of IPv6 space that are public, an IPv4-mapped IPv6
    address being judged as the IPv4 address it carries, so no spelling of a
    loopback, private, link-local or special-purpose address gets through. *)
Theorem public_ip_exact ip :
  ip_ok ip ->
  IsPublicIP (Some ip) = match To4 ip with IPv4 a => in_any public4 a | IPv6 a => in_any public6 a end.
Proof.
  intros Hip. apply To4_ok in Hip. assert (IsPublicIP (Some ip) = IsPublicIP (Some (To4 ip))) as ->.
  { unfold IsPublicIP. by rewrite To4_idem. }
  pose proof (To4_idem ip) as Hi. destruct (To4 ip) as [a|a]; [by apply public4_exact|by apply public6_exact].
Qed.

(** The host guard: with any zone after a percent sign cut off, a URL host in
    ASCII is admitted exactly when it is a literal address that is public, or no
    literal address and no name that reaches the local host without DNS:
    localhost or a subdomain of it in any case, or any numeric spelling that
    inet_aton takes, with or without the final dot. *)
Theorem host_guard_exact host zone :
  is_ascii host = true -> x25 ∉ host -> zone = [] \/ head zone = Some x25 ->
  HostAllowed (host ++ zone) = true <->
  match ParseIP host with
  | Some ip => IsPublicIP (Some ip) = true
  | None => ~ loopback_name host
  end.
Proof.
  intros Ha Hp Hz. assert (HostAllowed (host ++ zone) =
    match ParseIP host with Some ip => IsPublicIP (Some ip) | None => negb (IsLocalName host) end) as ->.
  { unfold HostAllowed, HostAllowedBy. destruct zone as [|c z].
    - rewrite app_nil_r. by rewrite (proj2 (IndexByte_none host x25) Hp).
    - destruct Hz as [?|[= ->]]; [done|]. rewrite IndexByte_app by done.
      rewrite (proj2 (Z.leb_le _ _)) by apply len_nonneg. unfold slice_to, len. rewrite Nat2Z.id, take_app_length. done. }
  destruct (ParseIP host); [done|]. rewrite negb_true_iff. rewrite <- (IsLocalName_exact host Ha).
  by destruct (IsLocalName host).
Qed.
End guard.

(** 127.0.0.1 as an IPv4-mapped address is refused, 2606:4700:: is admitted. *)
Lemma public_ip_exact_witness :
  IsPublicIP (Some (IPv6 (0xFFFF * 2 ^ 32 + v4 127 0 0 1))) = false /\ IsPublicIP (Some (IPv6 (v6 0x2606 0x4700 0))) = true.
Proof.
  split; (rewrite public_ip_exact; [vm_compute; reflexivity|vm_compute; split; congruence]).
Defined.

Lemma host_guard_exact_witness :
  (@HostAllowed ascii_unicode (§"::1" ++ §"%eth0") = true -> False) /\
  (@HostAllowed ascii_unicode (§"0x7F.1." ++ []) = true -> False).
Proof.
  split; intros HA.
  - apply (@host_guard_exact ascii_unicode) in HA;
      [discriminate HA|reflexivity|apply (bool_decide_eq_true_1 (x25 ∉ §"::1")); vm_compute; reflexivity|right; reflexivity].
  - apply (@host_guard_exact ascii_unicode) in HA;
      [|reflexivity|apply (bool_decide_eq_true_1 (x25 ∉ §"0x7F.1.")); vm_compute; reflexivity|left; reflexivity].
    apply HA. exists §"0x7F.1", §".". split; [reflexivity|]. split; [right; reflexivity|]. right. right.
    exists [§"0x7F"; §"1"]. split; [discriminate|]. split; [|reflexivity]. repeat constructor.
Defined.
