(* ===== verification/LoginLimit.v ===== *)
(** * The login limiter: internal/api/loginlimit.go

    The per-source failure tracker, the address it keys on, and how a request
    names its source, and the global attempt bucket.  Times are nanoseconds. *)

From S2P Require Import Prelude GoStrings GoUtf8 GoNet GoIP.

Definition loginBackoffBase : Z := Second.
Definition loginBackoffMax : Z := Minute.
Definition loginSourcesMax : Z := 1024.

Record loginSource := MkLoginSource { failures : Z; blockedUntil : Z; blockLogged : bool }.

Abbreviation sourceTable := (gmap gostring loginSource).

(** An IPv4 address is its own bucket, an IPv6 address shares one with its /64,
    anything else is used as it is. *)
Definition loginBucket (source : gostring) : gostring :=
  match ParseIP source with
  | None => source
  | Some ip =>
      match To4 ip with
      | IPv4 a => String (IPv4 a)
      | IPv6 a => String (IPv6 (mask64 a)) ++ §"/64"
      end
  end.

Definition retryAfter (l : sourceTable) (source : gostring) (now : Z) : Z :=
  match l !! loginBucket source with
  | Some s => if now <? blockedUntil s then blockedUntil s - now else 0
  | None => 0
  end.

(** The wait, whether to log the refusal, and the table with that noted. *)
Definition retryAfterLogged (l : sourceTable) (source : gostring) (now : Z) : Z * bool * sourceTable :=
  let key := loginBucket source in
  match l !! key with
  | Some s =>
      if now <? blockedUntil s
      then (blockedUntil s - now, negb (blockLogged s), <[key := MkLoginSource (failures s) (blockedUntil s) true]> l)
      else (0, false, l)
  | None => (0, false, l)
  end.

Definition expiredSource (now : Z) (s : loginSource) : bool := blockedUntil s <? now.

Definition pruneExpired (l : sourceTable) (now : Z) : sourceTable :=
  filter (fun kv => expiredSource now kv.2 = false) l.

Definition msize (l : gmap gostring loginSource) : Z := Z.of_nat (size l).

Definition recordFailure (s : loginSource) (now : Z) : loginSource :=
  let shift := Z.min (failures s) 6 in
  MkLoginSource (failures s + 1) (now + Z.min (Z.shiftl loginBackoffBase shift) loginBackoffMax) false.

Definition fail (l : sourceTable) (source : gostring) (now : Z) : sourceTable :=
  let key := loginBucket source in
  match l !! key with
  | Some s => <[key := recordFailure s now]> l
  | None =>
      let l := if loginSourcesMax <=? msize l then pruneExpired l now else l in
      if loginSourcesMax <=? msize l then l
      else <[key := recordFailure (MkLoginSource 0 0 false) now]> l
  end.

Definition ok (l : sourceTable) (source : gostring) : sourceTable := delete (loginBucket source) l.

(** ** Which source a request counts against *)

(** [vals] are the X-Forwarded-For header lines. *)
Definition forwardedClientIP (vals : list gostring) : gostring :=
  match last vals with
  | None => []
  | Some v =>
      let parts := Split v x2c in
      let last := TrimSpace (default [] (last parts)) in
      match ParseIP last with None => [] | Some _ => last end
  end.

Definition loginSourceKey (trustProxyForwarded : bool) (vals : list gostring) (remoteAddr : gostring) : gostring :=
  let ip := if trustProxyForwarded then forwardedClientIP vals else [] in
  if negb (bool_decide (ip = [])) then ip
  else match SplitHostPort remoteAddr with Some (host, _) => host | None => remoteAddr end.

(** ** Buckets *)

(** Two addresses of one site: the same IPv4 address, or the same /64. *)
Definition same_site (x y : IP) : Prop :=
  match To4 x, To4 y with
  | IPv4 a, IPv4 b => a = b
  | IPv6 a, IPv6 b => Z.shiftr a 64 = Z.shiftr b 64
  | _, _ => False
  end.

Lemma String_v6 a : String (IPv6 (mask64 a)) = String6 (mask64 a).
Proof. unfold String. cbn [To4]. by rewrite mask64_not_mapped. Qed.

(** The bucket of a login source: two sources that are addresses are counted
    together exactly when they are the same IPv4 address, in either of its forms,
    or IPv6 addresses of the same /64. *)
Theorem login_bucket_exact s t x y :
  ParseIP s = Some x -> ParseIP t = Some y -> loginBucket s = loginBucket t <-> same_site x y.
Proof.
  intros Ex Ey. pose proof (To4_ok _ (ParseIP_ok _ _ Ex)) as Hx. pose proof (To4_ok _ (ParseIP_ok _ _ Ey)) as Hy.
  unfold loginBucket, same_site. rewrite Ex, Ey. destruct (To4 x) as [a|a], (To4 y) as [b|b]; cbn [ip_ok] in Hx, Hy.
  - split; [intros E; by apply String4_inj|by intros ->].
  - split; [|done]. intros E. pose proof (String4_no_slash a) as Hn. change (String4 a) with (String (IPv4 a)) in Hn.
    rewrite E in Hn. apply not_elem_of_app in Hn as [_ Hn]. destruct Hn. by left.
  - split; [|done]. intros E. pose proof (String4_no_slash b) as Hn. change (String4 b) with (String (IPv4 b)) in Hn.
    rewrite <- E in Hn. apply not_elem_of_app in Hn as [_ Hn]. destruct Hn. by left.
  - rewrite !String_v6. split.
    + intros E. apply String6_mask_inj; [done..|]. by apply app_inj_2 in E as [? _].
    + intros E. unfold mask64. by rewrite E.
Qed.

Lemma login_bucket_exact_witness :
  loginBucket §"2001:db8:0:1::dead" = loginBucket §"2001:DB8::1:ffff:0:0:1" /\ loginBucket §"::ffff:10.0.0.1" = loginBucket §"10.0.0.1".
Proof.
  split; (eapply login_bucket_exact; [vm_compute; reflexivity|vm_compute; reflexivity|vm_compute; reflexivity]).
Defined.

(** ** The tracker over time *)

Inductive op :=
  | Fail (source : gostring) (now : Z)
  | Ok (source : gostring)
  | Check (source : gostring) (now : Z)
  | CheckLogged (source : gostring) (now : Z).

Definition apply_op (l : sourceTable) (o : op) : sourceTable :=
  match o with
  | Fail s now => fail l s now
  | Ok s => ok l s
  | Check _ _ => l
  | CheckLogged s now => (retryAfterLogged l s now).2
  end.

Definition op_time (o : op) : option Z :=
  match o with Fail _ now | Check _ now | CheckLogged _ now => Some now | Ok _ => None end.

Definition run (l : sourceTable) (ops : list op) : sourceTable := foldl apply_op l ops.

(** The delay after [n] failures on record. *)
Definition backoffDelay (n : Z) : Z := Z.min (Z.shiftl loginBackoffBase (Z.min n 6)) loginBackoffMax.

Definition table_ok (l : sourceTable) : Prop :=
  msize l <= loginSourcesMax /\ map_Forall (fun _ s => 0 < failures s) l.

Lemma backoffDelay_mono n m : 0 <= n <= m -> backoffDelay n <= backoffDelay m.
Proof.
  intros Hn. unfold backoffDelay. rewrite !Z.shiftl_mul_pow2 by lia.
  assert (2 ^ Z.min n 6 <= 2 ^ Z.min m 6) by (apply Z.pow_le_mono_r; lia).
  assert (0 < loginBackoffBase) by (vm_compute; done). nia.
Qed.

Lemma backoffDelay_pos n : 0 <= n -> 0 < backoffDelay n.
Proof.
  intros Hn. pose proof (backoffDelay_mono 0 n ltac:(lia)) as Hm. change (backoffDelay 0) with 1000000000 in Hm. lia.
Qed.

Lemma msize_insert_new (l : sourceTable) k s : l !! k = None -> msize (<[k:=s]> l) = msize l + 1.
Proof. intros Hk. unfold msize. rewrite map_size_insert_None by done. lia. Qed.

Lemma msize_insert_old (l : sourceTable) k s : is_Some (l !! k) -> msize (<[k:=s]> l) = msize l.
Proof. intros [t Hk]. unfold msize. rewrite map_size_insert_Some by by eexists. done. Qed.

Lemma msize_prune l now : msize (pruneExpired l now) <= msize l.
Proof. unfold msize, pruneExpired. pose proof (map_subseteq_size _ _ (map_filter_subseteq (fun kv => expiredSource now kv.2 = false) l)). lia. Qed.

Lemma fail_ok l source now : table_ok l -> table_ok (fail l source now).
Proof.
  intros [Hs Hf]. unfold fail. destruct (l !! loginBucket source) as [s|] eqn:E.
  - split; [by rewrite msize_insert_old by by eexists|]. apply map_Forall_insert_2; [|done].
    specialize (Hf _ _ E). simpl in *. lia.
  - assert (forall l', msize l' <= loginSourcesMax -> map_Forall (fun _ s => 0 < failures s) l' -> l' !! loginBucket source = None ->
      table_ok (if loginSourcesMax <=? msize l' then l' else <[loginBucket source := recordFailure (MkLoginSource 0 0 false) now]> l')) as Hgo.
    { intros l' Hs' Hf' E'. destruct (Z.leb_spec loginSourcesMax (msize l')); [by split|].
      split; [rewrite msize_insert_new by done; lia|]. by apply map_Forall_insert_2. }
    destruct (loginSourcesMax <=? msize l); [|by apply Hgo]. apply Hgo.
    + pose proof (msize_prune l now). lia.
    + intros k s Hk. apply map_lookup_filter_Some in Hk as [Hk _]. by apply (Hf k).
    + apply map_lookup_filter_None. by left.
Qed.

Lemma op_ok l o : table_ok l -> table_ok (apply_op l o).
Proof.
  intros Hok. destruct o as [s now|s|s now|s now]; simpl; [by apply fail_ok| |done|].
  - destruct Hok as [Hs Hf]. split; [|by apply map_Forall_delete]. unfold ok, msize in *.
    pose proof (map_subseteq_size _ _ (delete_subseteq l (loginBucket s))). lia.
  - unfold retryAfterLogged. destruct (l !! loginBucket s) as [e|] eqn:E; [|done]. destruct (_ <? _); [|done]. simpl.
    destruct Hok as [Hs Hf]. split; [by rewrite msize_insert_old by by eexists|]. apply map_Forall_insert_2; [|done].
    by specialize (Hf _ _ E).
Qed.

(** What an operation leaves of a bucket that is still blocked at its time. *)
Lemma op_keeps_block l o key e :
  table_ok l -> l !! key = Some e -> (forall s, o = Ok s -> loginBucket s <> key) ->
  (forall now, op_time o = Some now -> now <= blockedUntil e) ->
  exists e', apply_op l o !! key = Some e' /\
    ((failures e' = failures e /\ blockedUntil e' = blockedUntil e) \/
     exists s now, o = Fail s now /\ loginBucket s = key /\ e' = recordFailure e now).
Proof.
  intros [Hs Hf] E Hno Ht. destruct o as [s now|s|s now|s now]; simpl.
  - unfold fail. destruct (decide (loginBucket s = key)) as [Hk|Hk].
    + rewrite Hk, E. exists (recordFailure e now). rewrite lookup_insert_eq. split; [done|]. right. by exists s, now.
    + exists e. split; [|by left]. destruct (l !! loginBucket s) as [t|]; [by rewrite lookup_insert_ne|].
      assert (pruneExpired l now !! key = Some e) as Hp.
      { apply map_lookup_filter_Some. split; [done|]. apply Z.ltb_ge. by apply Ht. }
      destruct (loginSourcesMax <=? msize l); [destruct (_ <=? _); [done|]|destruct (_ <=? _); [done|]]; by rewrite lookup_insert_ne.
  - exists e. unfold ok. rewrite lookup_delete_ne by (by apply Hno). auto.
  - exists e. auto.
  - unfold retryAfterLogged. destruct (decide (loginBucket s = key)) as [Hk|Hk].
    + rewrite Hk, E. destruct (_ <? _); simpl; [|exists e; auto]. eexists. rewrite lookup_insert_eq. split; [done|]. left. done.
    + exists e. split; [|by left]. destruct (l !! loginBucket s) as [t|]; [|done]. destruct (_ <? _); [|done]. simpl. by rewrite lookup_insert_ne.
Qed.

Lemma limiter_run_ok l ops : table_ok l -> table_ok (run l ops).
Proof. revert l. induction ops as [|o ops IH]; intros l Hok; [done|]. apply IH. by apply op_ok. Qed.

Lemma table_ok_empty : table_ok ∅.
Proof. split; [vm_compute; congruence|apply map_Forall_empty]. Qed.

(** No operation of [ops] clears the bucket, and their times lie in the window. *)
Definition quiet (key : gostring) (t0 t1 : Z) (o : op) : Prop :=
  (forall s, o = Ok s -> loginBucket s <> key) /\ (forall now, op_time o = Some now -> t0 <= now <= t1).

Lemma run_keeps_block ops l key e t0 t1 d :
  table_ok l -> l !! key = Some e -> t1 <= t0 + d -> t0 + d <= blockedUntil e -> d <= backoffDelay (failures e) ->
  Forall (quiet key t0 t1) ops ->
  exists e', run l ops !! key = Some e' /\ t0 + d <= blockedUntil e'.
Proof.
  revert l e. induction ops as [|o ops IH]; intros l e Hok E H1 H0 Hd Hq; [by exists e|].
  apply Forall_cons in Hq as [[Hno Ht] Hq]. pose proof (proj2 Hok _ _ E) as Hpos. simpl in Hpos.
  destruct (op_keeps_block l o key e Hok E Hno) as (e1 & E1 & Hc).
  { intros now Hn. specialize (Ht now Hn). lia. }
  apply (IH (apply_op l o) e1); [by apply op_ok|done|done| | |done].
  - destruct Hc as [[_ ->]|(s & now & -> & Hs & ->)]; [done|]. specialize (Ht now eq_refl).
    unfold recordFailure. cbn [blockedUntil]. fold (backoffDelay (failures e)). lia.
  - destruct Hc as [[-> _]|(s & now & -> & Hs & ->)]; [done|]. cbn [recordFailure failures].
    pose proof (backoffDelay_mono (failures e) (failures e + 1) ltac:(lia)). lia.
Qed.

Lemma fail_recorded l source now e :
  table_ok l -> fail l source now !! loginBucket source = Some e ->
  exists n, 0 <= n /\ e = MkLoginSource (n + 1) (now + backoffDelay n) false /\ (n = 0 \/ exists s, l !! loginBucket source = Some s /\ n = failures s).
Proof.
  intros [_ Hf]. unfold fail. destruct (l !! loginBucket source) as [s|] eqn:E.
  - rewrite lookup_insert_eq. intros [= <-]. exists (failures s). specialize (Hf _ _ E). simpl in Hf.
    split; [lia|]. split; [done|]. right. by exists s.
  - assert (forall l', l' !! loginBucket source = None ->
      (if loginSourcesMax <=? msize l' then l' else <[loginBucket source := recordFailure (MkLoginSource 0 0 false) now]> l') !! loginBucket source = Some e ->
      e = recordFailure (MkLoginSource 0 0 false) now) as Hgo.
    { intros l' En. destruct (_ <=? _); [by rewrite En|]. rewrite lookup_insert_eq. by intros [= <-]. }
    intros He. exists 0. split; [done|]. split; [|by left]. destruct (loginSourcesMax <=? msize l); apply Hgo in He; try done.
    apply map_lookup_filter_None. by left.
Qed.

(** Login backoff: whatever came before, when a failure is recorded its source
    and every other source of its bucket stay blocked for the whole delay of its
    rung of the ladder, one second doubling to a minute, no matter how many other
    sources fail meanwhile; and the table never exceeds its limit. *)
Theorem login_backoff_enforced ops source t e ops' t1 s' now :
  let l := run ∅ ops in
  fail l source t !! loginBucket source = Some e ->
  let delay := backoffDelay (failures e - 1) in
  t1 <= t + delay -> Forall (quiet (loginBucket source) t t1) ops' ->
  loginBucket s' = loginBucket source -> t <= now < t + delay ->
  t + delay - now <= retryAfter (run (fail l source t) ops') s' now /\
  msize (run (fail l source t) ops') <= loginSourcesMax.
Proof.
  intros l He delay H1 Hq Hs Hn. assert (table_ok l) as Hl by apply limiter_run_ok, table_ok_empty.
  pose proof (fail_ok l source t Hl) as Hf. split; [|by apply limiter_run_ok].
  destruct (fail_recorded l source t e Hl He) as (n & Hn0 & Ee & _). subst e. subst delay. cbn [failures] in *.
  replace (n + 1 - 1) with n in * by lia.
  destruct (run_keeps_block ops' (fail l source t) (loginBucket source) _ t t1 (backoffDelay n) Hf He H1) as (e' & E' & Hb).
  - done.
  - cbn [failures]. apply backoffDelay_mono. lia.
  - done.
  - unfold retryAfter. rewrite Hs, E'. destruct (Z.ltb_spec now (blockedUntil e')); lia.
Qed.

(** The fourth failure in a row of one /64 blocks all of it for eight seconds. *)
Lemma login_backoff_enforced_witness :
  5 * Second <= retryAfter (run (fail (run ∅ [Fail §"2001:db8::1" 0; Fail §"2001:db8::2" (2 * Second); Fail §"2001:db8::3" (5 * Second)])
    §"2001:db8::4" (10 * Second)) [Fail §"192.0.2.1" (11 * Second)]) §"2001:db8::5" (13 * Second).
Proof.
  refine (Z.le_trans _ _ _ _ (proj1 (login_backoff_enforced _ §"2001:db8::4" (10 * Second) (MkLoginSource 4 (18 * Second) false)
    [Fail §"192.0.2.1" (11 * Second)] (11 * Second) §"2001:db8::5" (13 * Second) _ _ _ _ _))).
  - vm_compute; congruence.
  - vm_compute; reflexivity.
  - vm_compute; congruence.
  - apply Forall_cons; split; [|apply Forall_nil; exact I]. split; [intros s Hs; discriminate Hs|].
    intros now Hnow. injection Hnow as <-. vm_compute; split; congruence.
  - vm_compute; reflexivity.
  - vm_compute; split; congruence.
Defined.

(** *** One log line per window *)

(** The refusals of the bucket that are logged. *)
Fixpoint logged (key : gostring) (l : sourceTable) (ops : list op) : nat :=
  match ops with
  | [] => O
  | o :: ops =>
      (match o with
       | CheckLogged s now => if bool_decide (loginBucket s = key) && (retryAfterLogged l s now).1.2 then 1 else 0
       | _ => 0
       end + logged key (apply_op l o) ops)%nat
  end.

(** However many requests of a bucket are refused between two of its failures,
    at most one of them is logged. *)
Theorem login_log_once key l ops :
  (forall s now, Fail s now ∈ ops -> loginBucket s <> key) -> (logged key l ops <= 1)%nat.
Proof.
  assert (forall ops l, (forall s now, Fail s now ∈ ops -> loginBucket s <> key) ->
    (forall e, l !! key = Some e -> blockLogged e = true) -> logged key l ops = O) as Hz.
  { clear. induction ops as [|o ops IH]; intros l Hno Hb; [done|]. cbn [logged].
    rewrite IH; [|intros s now Hin; apply (Hno s now); by right|].
    - destruct o as [| | |s now]; try done. case_bool_decide as Hk; [|done]. unfold retryAfterLogged. rewrite Hk.
      destruct (l !! key) as [e|] eqn:E; [|done]. destruct (_ <? _); [|done]. simpl. by rewrite (Hb e eq_refl).
    - destruct o as [s now|s| |s now]; simpl; [| |done|].
      + assert (loginBucket s <> key) as Hk by (apply (Hno s now); by left). intros e. unfold fail.
        destruct (l !! loginBucket s) as [x|]; [rewrite lookup_insert_ne by done; apply Hb|].
        assert (pruneExpired l now !! key = Some e -> blockLogged e = true) as Hp.
        { intros [Hp _]%map_lookup_filter_Some. by apply Hb. }
        destruct (_ <=? msize l); (destruct (_ <=? _); [|rewrite lookup_insert_ne by done]); auto.
      + intros e He. unfold ok in He. apply lookup_delete_Some in He as [_ He]. by apply Hb.
      + intros e. unfold retryAfterLogged. destruct (l !! loginBucket s) as [x|] eqn:E; [|apply Hb]. destruct (_ <? _); [|apply Hb]. simpl.
        destruct (decide (loginBucket s = key)) as [Hk|Hk]; [rewrite Hk, lookup_insert_eq; by intros [= <-]|rewrite lookup_insert_ne by done; apply Hb]. }
  revert l. induction ops as [|o ops IH]; intros l Hno; [simpl; lia|].
  assert (forall s now, Fail s now ∈ ops -> loginBucket s <> key) as Hno' by (intros s now Hin; apply (Hno s now); by right).
  cbn [logged]. destruct o as [| | |s now]; try (apply IH; done).
  case_bool_decide as Hk; [|by apply IH]. destruct (retryAfterLogged l s now).1.2 eqn:El; [|by apply IH].
  rewrite Hz; [done..|]. cbn [apply_op]. unfold retryAfterLogged in *. rewrite Hk in *. destruct (l !! key) as [x|]; [|done].
  destruct (_ <? _); [|done]. simpl. intros e. rewrite lookup_insert_eq. by intros [= <-].
Qed.

Lemma login_log_once_witness :
  (logged §"10.0.0.1" (fail ∅ §"10.0.0.1" 0) [CheckLogged §"10.0.0.1" 1; CheckLogged §"10.0.0.1" 2; Fail §"10.0.0.2" 3; CheckLogged §"10.0.0.1" 4] <= 1)%nat.
Proof.
  apply login_log_once. intros s now Hin. apply list_elem_of_In in Hin. cbn in Hin.
  destruct Hin as [Hx|[Hx|[Hx|[Hx|Hx]]]]; try discriminate Hx; [injection Hx as <- _; vm_compute; congruence|destruct Hx].
Defined.

(** ** The global login bucket: internal/api/loginlimit.go, globalAllow

    The token bucket that every login attempt is charged to, in float64
    arithmetic. *)

From Stdlib Require Import QArith Qminmax Lqa.
From S2P Require Import GoFloat.

Open Scope Z_scope.

Definition loginGlobalRate : Q := 1.
Definition loginGlobalBurst : Q := 5.

Record bucket := MkBucket { tokens : Q; lastRefill : Z }.
Definition newBucket (now : Z) : bucket := MkBucket loginGlobalBurst now.

Definition qlt (a b : Q) : bool := negb (Qle_bool b a).
Definition fmin (a b : Q) : Q := if Qle_bool a b then a else b.

Definition refill (b : bucket) (now : Z) : bucket :=
  let elapsed := Seconds (sat64 (now - lastRefill b)) in
  if qlt 0 elapsed
  then MkBucket (fmin (fadd (tokens b) (fmul elapsed loginGlobalRate)) loginGlobalBurst) now
  else b.

Definition globalAllow (b : bucket) (now : Z) : Z * bucket :=
  let b := refill b now in
  if Qle_bool 1 (tokens b) then (0, MkBucket (fsub (tokens b) 1) (lastRefill b))
  else (int_of_float (fmul (fdiv (fsub 1 (tokens b)) loginGlobalRate) (inject_Z Second)), b).

(** Whether the attempt takes a token. *)
Definition charged (b : bucket) (now : Z) : bool := Qle_bool 1 (tokens (refill b now)).

(** The answers to calls at the given times. *)
Fixpoint calls (b : bucket) (times : list Z) : list Z * bucket :=
  match times with
  | [] => ([], b)
  | t :: times => let '(w, b) := globalAllow b t in let '(ws, b) := calls b times in (w :: ws, b)
  end.

Fixpoint charges (b : bucket) (times : list Z) : Z :=
  match times with
  | [] => 0
  | t :: times => (if charged b t then 1 else 0) + charges (globalAllow b t).2 times
  end.

(** ** The attempts charged are bounded *)

Lemma ulp_small : (0 < ulp)%Q /\ (ulp <= 1 # 1000000)%Q.
Proof. split; [apply P_pos|]. vm_compute. discriminate. Qed.

Lemma rnd_nonneg q : (0 <= q)%Q -> (0 <= rnd q)%Q.
Proof. intros Hq. destruct (rnd_error q Hq) as [H1 _]. destruct ulp_small. nra. Qed.

Lemma rnd_nonpos q : (q <= 0)%Q -> (rnd q <= 0)%Q.
Proof.
  intros Hq. unfold rnd. assert (Qnum q <= 0) as Hn by (unfold Qle in Hq; cbn in Hq; lia).
  destruct (Z.eqb_spec (Qnum q) 0) as [E|E]; [lra|]. rewrite (proj2 (Z.ltb_ge _ _)) by lia.
  destruct (rnd_pos_error (- Qnum q) (Z.pos (Qden q)) ltac:(lia) ltac:(lia)) as [H1 _]. destruct ulp_small.
  assert (0 <= inject_Z (- Qnum q) / inject_Z (Z.pos (Qden q)))%Q as Hx.
  { apply Qle_shift_div_l; [unfold Qlt; cbn; lia|]. unfold Qle. cbn. lia. }
  nra.
Qed.

(** Seconds as an exact rational. *)
Definition secs (d : Z) : Q := (inject_Z d / inject_Z Second)%Q.

Lemma secs_split d : (secs d == inject_Z (Z.quot d Second) + inject_Z (Z.rem d Second) / inject_Z Second)%Q.
Proof.
  unfold secs. rewrite (Z.quot_rem' d Second) at 1. rewrite inject_Z_plus, inject_Z_mult. field. discriminate.
Qed.

Lemma int_nonneg n : 0 <= n -> (0 <= inject_Z n)%Q.
Proof. intros Hn. unfold Qle. cbn. lia. Qed.

Lemma billion : (float_of_int 1000000000 == inject_Z Second)%Q.
Proof. vm_compute. reflexivity. Qed.

Lemma rnd_upper q c : (0 <= q)%Q -> (q <= c)%Q -> (rnd q <= c * (1 + ulp))%Q.
Proof. intros Hq Hc. destruct (rnd_error q Hq) as [_ H2]. destruct ulp_small. nra. Qed.

Lemma Seconds_upper d : 0 <= d -> (0 <= Seconds d)%Q /\ (Seconds d <= secs d * ((1 + ulp) * (1 + ulp) * (1 + ulp)))%Q.
Proof.
  intros Hd. assert (0 < Second) as HS by (by vm_compute). destruct ulp_small as [U1 U2].
  pose proof (Z.quot_pos d Second Hd ltac:(lia)) as Hq. pose proof (Z.rem_nonneg d Second ltac:(lia) Hd) as Hr.
  apply int_nonneg in Hq, Hr. set (S := Z.quot d Second) in *. set (N := Z.rem d Second) in *.
  assert (0 < inject_Z Second)%Q as HSq by (by vm_compute).
  assert (0 <= inject_Z N / inject_Z Second)%Q as Hn. { apply Qle_shift_div_l; [done|]. lra. }
  unfold Seconds. fold S N. unfold fadd, fdiv. change (float_of_int S) with (rnd (inject_Z S)). change (float_of_int N) with (rnd (inject_Z N)).
  pose proof (rnd_nonneg _ Hq) as R1. pose proof (rnd_upper _ _ Hq (Qle_refl _)) as R2.
  pose proof (rnd_nonneg _ Hr) as R3. pose proof (rnd_upper _ _ Hr (Qle_refl _)) as R4.
  set (x := (rnd (inject_Z N) / float_of_int 1000000000)%Q) in *.
  assert (0 <= x)%Q as Hx. { unfold x. rewrite billion. apply Qle_shift_div_l; [done|]. lra. }
  assert (x <= inject_Z N / inject_Z Second * (1 + ulp))%Q as Hx2.
  { unfold x. rewrite billion. apply Qle_shift_div_r; [done|].
    assert (inject_Z N / inject_Z Second * (1 + ulp) * inject_Z Second == inject_Z N * (1 + ulp))%Q as -> by (field; discriminate). done. }
  pose proof (rnd_nonneg _ Hx) as R5. pose proof (rnd_upper _ _ Hx Hx2) as R6.
  split; [apply rnd_nonneg; lra|].
  assert (rnd (inject_Z S) + rnd x <= secs d * ((1 + ulp) * (1 + ulp)))%Q as Hsum.
  { rewrite secs_split. fold S N. set (s := inject_Z S) in *. set (n := (inject_Z N / inject_Z Second)%Q) in *.
    assert (0 <= s * (1 + ulp) * ulp)%Q by (apply Qmult_le_0_compat; [apply Qmult_le_0_compat; lra|lra]). lra. }
  apply Qle_trans with (secs d * ((1 + ulp) * (1 + ulp)) * (1 + ulp))%Q; [apply rnd_upper; [lra|done]|]. lra.
Qed.

Lemma Seconds_nonpos d : d <= 0 -> (Seconds d <= 0)%Q.
Proof.
  intros Hd. assert (0 < Second) as HS by (by vm_compute).
  assert (Z.quot d Second <= 0) as Hq by (apply Z.quot_le_upper_bound; lia).
  assert (Z.rem d Second <= 0) as Hr by (pose proof (Z.rem_nonpos d Second ltac:(lia) Hd); lia).
  assert (inject_Z (Z.quot d Second) <= 0)%Q as Q1 by (unfold Qle; cbn; lia).
  assert (inject_Z (Z.rem d Second) <= 0)%Q as Q2 by (unfold Qle; cbn; lia).
  apply rnd_nonpos in Q1, Q2. unfold Seconds, fadd, fdiv, float_of_int in *. apply rnd_nonpos.
  assert (rnd (rnd (inject_Z (Z.rem d Second)) / rnd (inject_Z 1000000000)) <= 0)%Q as Q3; [|lra].
  apply rnd_nonpos. change (rnd (inject_Z 1000000000)) with (float_of_int 1000000000). rewrite billion.
  apply Qle_shift_div_r; [by vm_compute|]. lra.
Qed.

Definition bucket_ok (b : bucket) : Prop := (0 <= tokens b)%Q /\ (tokens b <= 5)%Q.

Lemma Qle_bool_reflect a b : if Qle_bool a b then (a <= b)%Q else (b < a)%Q.
Proof. destruct (Qle_bool a b) eqn:E; [by apply Qle_bool_iff|]. apply Qnot_le_lt. intros Hle. apply Qle_bool_iff in Hle. congruence. Qed.

Lemma powers_small : ((1 + ulp) * (1 + ulp) * (1 + ulp) * (1 + ulp) <= 1 + 5 * ulp)%Q.
Proof. vm_compute. discriminate. Qed.

Lemma secs_mono a b : a <= b -> (secs a <= secs b)%Q.
Proof.
  intros Hab. unfold secs. apply Qle_shift_div_l; [by vm_compute|].
  assert (inject_Z a / inject_Z Second * inject_Z Second == inject_Z a)%Q as -> by (field; discriminate). by rewrite <- Zle_Qle.
Qed.

(** What a refill adds. *)
Lemma refill_bound b now :
  bucket_ok b ->
  bucket_ok (refill b now) /\ lastRefill b <= lastRefill (refill b now) /\
  (tokens (refill b now) <= tokens b + secs (lastRefill (refill b now) - lastRefill b) * (1 + 5 * ulp) + 5 * ulp)%Q.
Proof.
  intros [H0 H5]. destruct ulp_small as [U1 U2]. unfold refill. set (d := sat64 (now - lastRefill b)).
  unfold qlt. pose proof (Qle_bool_reflect (Seconds d) 0) as Hr. destruct (Qle_bool (Seconds d) 0); cbn [negb tokens lastRefill].
  { split; [done|]. split; [lia|]. rewrite Z.sub_diag. assert (secs 0 == 0)%Q as -> by reflexivity. lra. }
  assert (0 < d) as Hd. { destruct (Z.le_gt_cases d 0) as [Hn|]; [|done]. apply Seconds_nonpos in Hn. lra. }
  assert (d <= now - lastRefill b) as Hdn by (unfold d, sat64, minInt64, maxInt64 in *; lia).
  destruct (Seconds_upper d ltac:(lia)) as [S0 S1].
  unfold fmul, loginGlobalRate, loginGlobalBurst. assert (0 <= Seconds d * 1)%Q as Hm by lra.
  pose proof (rnd_nonneg _ Hm) as E0. pose proof (rnd_upper _ (secs d * ((1 + ulp) * (1 + ulp) * (1 + ulp))) Hm ltac:(lra)) as E1.
  set (e := rnd (Seconds d * 1)) in *.
  assert (e <= secs (now - lastRefill b) * (1 + 5 * ulp))%Q as E2.
  { pose proof (secs_mono _ _ Hdn) as Hsm. pose proof powers_small as Hps. assert (0 <= secs d)%Q as Hsd by (pose proof (secs_mono 0 d ltac:(lia)) as Hz; assert (secs 0 == 0)%Q as Ez by reflexivity; lra).
    apply Qle_trans with (secs d * (1 + 5 * ulp))%Q; [|apply Qmult_le_r; [lra|done]].
    apply Qle_trans with (secs d * ((1 + ulp) * (1 + ulp) * (1 + ulp) * (1 + ulp)))%Q; [lra|].
    rewrite !(Qmult_comm (secs d)). by apply Qmult_le_compat_r. }
  unfold fadd, fmin. assert (0 <= tokens b + e)%Q as Hs by lra. pose proof (rnd_nonneg _ Hs) as A0. destruct (rnd_error _ Hs) as [_ A1].
  pose proof (Qle_bool_reflect (rnd (tokens b + e)) 5) as Hc. destruct (Qle_bool (rnd (tokens b + e)) 5); cbn [tokens lastRefill].
  - split; [done|]. split; [lia|]. destruct (Qlt_le_dec (tokens b + e) 5) as [Hlt|Hge]; [|lra].
    assert ((tokens b + e) * ulp <= 5 * ulp)%Q by (apply Qmult_le_r; lra). lra.
  - split; [split; cbn [tokens]; lra|]. split; [lia|]. destruct (Qlt_le_dec (tokens b + e) 5) as [Hlt|Hge]; [|lra].
    assert ((tokens b + e) * ulp <= 5 * ulp)%Q by (apply Qmult_le_r; lra). lra.
Qed.

Lemma allow_bound b now :
  bucket_ok b -> let b' := (globalAllow b now).2 in
  bucket_ok b' /\ lastRefill b <= lastRefill b' /\
  (inject_Z (if charged b now then 1 else 0) + tokens b' <= tokens b + secs (lastRefill b' - lastRefill b) * (1 + 5 * ulp) + 9 * ulp)%Q.
Proof.
  intros Hb. destruct (refill_bound b now Hb) as ([R0 R5] & Hl & Ht). destruct ulp_small as [U1 U2].
  unfold globalAllow, charged. pose proof (Qle_bool_reflect 1 (tokens (refill b now))) as Hc.
  destruct (Qle_bool 1 (tokens (refill b now))); cbn [snd tokens lastRefill].
  - assert (0 <= tokens (refill b now) - 1)%Q as Hs by lra. pose proof (rnd_nonneg _ Hs) as A0. destruct (rnd_error _ Hs) as [_ A1]. unfold fsub.
    assert ((tokens (refill b now) - 1) * ulp <= 4 * ulp)%Q by (apply Qmult_le_r; lra). change (inject_Z 1) with 1%Q.
    split; [split; cbn [tokens]; [done|lra]|]. split; [done|]. lra.
  - split; [done|]. split; [done|]. change (inject_Z 0) with 0%Q. lra.
Qed.

(** The global login bucket: over any calls, the attempts that took a token
    number at most the burst of five plus one per second between the first and the
    last refill, up to the rounding of float64, a relative error of 5 * 2^-53 and
    9 * 2^-53 per call. *)
Theorem global_attempts_bounded times t0 :
  let b := (calls (newBucket t0) times).2 in
  (inject_Z (charges (newBucket t0) times) <= 5 + secs (lastRefill b - t0) * (1 + 5 * ulp) + inject_Z (len times) * (9 * ulp))%Q.
Proof.
  assert (forall times b, bucket_ok b -> let b' := (calls b times).2 in
    bucket_ok b' /\ lastRefill b <= lastRefill b' /\
    (inject_Z (charges b times) + tokens b' <= tokens b + secs (lastRefill b' - lastRefill b) * (1 + 5 * ulp) + inject_Z (len times) * (9 * ulp))%Q) as Hrun.
  { clear. induction times as [|t times IH]; intros b Hb; cbn [calls charges].
    - cbn [snd]. split; [done|]. split; [lia|]. rewrite Z.sub_diag. assert (secs 0 == 0)%Q as -> by reflexivity.
      change (inject_Z (len [])) with 0%Q. change (inject_Z 0) with 0%Q. lra.
    - destruct (allow_bound b t Hb) as (Hb1 & Hl1 & H1). destruct (globalAllow b t) as [w b1]. cbn [snd] in *.
      destruct (IH b1 Hb1) as (Hb2 & Hl2 & H2). destruct (calls b1 times) as [ws b2]. cbn [snd] in *.
      split; [done|]. split; [lia|]. rewrite len_cons, !inject_Z_plus.
      assert (secs (lastRefill b2 - lastRefill b) == secs (lastRefill b2 - lastRefill b1) + secs (lastRefill b1 - lastRefill b))%Q as ->.
      { unfold secs. unfold Z.sub. rewrite !inject_Z_plus, !inject_Z_opp. field. discriminate. }
      change (inject_Z 1) with 1%Q in *. lra. }
  cbv zeta. destruct (Hrun times (newBucket t0)) as ([H0 _] & _ & H1); [by split; vm_compute|]. cbn [lastRefill tokens newBucket] in H1.
  unfold loginGlobalBurst in H1. lra.
Qed.

(** ** Attempts let through without a token *)

(** Five attempts at once, then one every tenth of a second. *)
Definition tenths : list Z := replicate 5 0 ++ ((fun i => Z.of_nat i * 100000000) <$> seq 1 10).

Definition drained : bucket := (calls (newBucket 0) tenths).2.

Example tenths_answers :
  (calls (newBucket 0) tenths).1 = [0; 0; 0; 0; 0; 900000000; 800000000; 700000000; 600000000; 500000000; 400000000; 300000000; 200000000; 100000000; 0].
Proof. vm_compute. reflexivity. Qed.

Lemma free_answer : globalAllow drained 1000000000 = (0, drained).
Proof. vm_compute. reflexivity. Qed.

(** [globalAllow] can let attempts through without charging them: after this
    schedule the bucket holds just under one token, the wait is rounded down to 0,
    which the callers take for leave to go on, and any number of further attempts at
    that instant gets the same answer and leaves the bucket as it was. *)
Theorem global_bucket_free_pass n :
  charges (newBucket 0) tenths = 5 /\ last (calls (newBucket 0) tenths).1 = Some 0 /\
  calls drained (replicate n 1000000000) = (replicate n 0, drained) /\ charges drained (replicate n 1000000000) = 0.
Proof.
  split; [vm_compute; reflexivity|]. split; [vm_compute; reflexivity|].
  induction n as [|n [IH1 IH2]]; [done|]. cbn [replicate calls charges]. rewrite free_answer. cbn [snd]. rewrite IH1, IH2.
  split; [done|]. by vm_compute.
Qed.
