(* ===== verification/Sessions.v ===== *)
(** * Login sessions and password rotation: internal/api/api.go, password.go, push.go

    The session table of [Server] with the cancel functions of its sockets and
    streams, and the handlers that change it.  Each handler is a sequence of
    steps, one per critical section, so that the steps of concurrent requests
    interleave as their goroutines do.  bcrypt is a parameter. *)

From S2P Require Import Prelude GoStrings GoUtf8 GoNet GoIP LoginLimit.

Definition maxSessions : Z := 128.
Definition minPasswordLen : Z := 8.
Definition maxPasswordLen : Z := 72.
Definition maxPushSubscriptions : Z := 16.
Definition loginSlots : nat := 2.

(** A registered [context.CancelFunc]: of a socket or of a media stream, by its
    number.  The numbers are uint64 counters in the code, which would wrap after
    2^64 registrations; here they do not wrap. *)
Inductive cancelFunc := Socket (id : Z) | Stream (id : Z).
#[export] Instance cancelFunc_eq_dec : EqDecision cancelFunc.
Proof. solve_decision. Defined.

Record Server := MkServer {
  tokens : gmap gostring Z;
  wsCancels : gmap gostring (list Z);
  wsNextID : Z;
  streamCancels : gmap gostring (list Z);
  streamNextID : Z;
  sessionTTL : Z;
  passwordHash : gostring;
  credGen : Z;
  passwordMu : bool;
  pushMutationMu : bool;
  sem : nat;
  login : sourceTable;
  (** the rows of the store these handlers write *)
  storedHash : option gostring;
  pushSubscriptions : gmap gostring (gostring * gostring);
  pushEpoch : Z }.

(** Field updates. *)
Definition set_tokens (f : gmap gostring Z -> gmap gostring Z) (s : Server) : Server :=
  MkServer (f (tokens s)) (wsCancels s) (wsNextID s) (streamCancels s) (streamNextID s) (sessionTTL s) (passwordHash s)
    (credGen s) (passwordMu s) (pushMutationMu s) (sem s) (login s) (storedHash s) (pushSubscriptions s) (pushEpoch s).
Definition set_wsCancels (m : gmap gostring (list Z)) (next : Z) (s : Server) : Server :=
  MkServer (tokens s) m next (streamCancels s) (streamNextID s) (sessionTTL s) (passwordHash s)
    (credGen s) (passwordMu s) (pushMutationMu s) (sem s) (login s) (storedHash s) (pushSubscriptions s) (pushEpoch s).
Definition set_streamCancels (m : gmap gostring (list Z)) (next : Z) (s : Server) : Server :=
  MkServer (tokens s) (wsCancels s) (wsNextID s) m next (sessionTTL s) (passwordHash s)
    (credGen s) (passwordMu s) (pushMutationMu s) (sem s) (login s) (storedHash s) (pushSubscriptions s) (pushEpoch s).
Definition set_hash (h : gostring) (s : Server) : Server :=
  MkServer (tokens s) (wsCancels s) (wsNextID s) (streamCancels s) (streamNextID s) (sessionTTL s) h
    (credGen s) (passwordMu s) (pushMutationMu s) (sem s) (login s) (storedHash s) (pushSubscriptions s) (pushEpoch s).
Definition set_credGen (g : Z) (s : Server) : Server :=
  MkServer (tokens s) (wsCancels s) (wsNextID s) (streamCancels s) (streamNextID s) (sessionTTL s) (passwordHash s)
    g (passwordMu s) (pushMutationMu s) (sem s) (login s) (storedHash s) (pushSubscriptions s) (pushEpoch s).
Definition set_passwordMu (b : bool) (s : Server) : Server :=
  MkServer (tokens s) (wsCancels s) (wsNextID s) (streamCancels s) (streamNextID s) (sessionTTL s) (passwordHash s)
    (credGen s) b (pushMutationMu s) (sem s) (login s) (storedHash s) (pushSubscriptions s) (pushEpoch s).
Definition set_pushMu (b : bool) (s : Server) : Server :=
  MkServer (tokens s) (wsCancels s) (wsNextID s) (streamCancels s) (streamNextID s) (sessionTTL s) (passwordHash s)
    (credGen s) (passwordMu s) b (sem s) (login s) (storedHash s) (pushSubscriptions s) (pushEpoch s).
Definition set_sem (n : nat) (s : Server) : Server :=
  MkServer (tokens s) (wsCancels s) (wsNextID s) (streamCancels s) (streamNextID s) (sessionTTL s) (passwordHash s)
    (credGen s) (passwordMu s) (pushMutationMu s) n (login s) (storedHash s) (pushSubscriptions s) (pushEpoch s).
Definition set_login (l : sourceTable) (s : Server) : Server :=
  MkServer (tokens s) (wsCancels s) (wsNextID s) (streamCancels s) (streamNextID s) (sessionTTL s) (passwordHash s)
    (credGen s) (passwordMu s) (pushMutationMu s) (sem s) l (storedHash s) (pushSubscriptions s) (pushEpoch s).
Definition set_store (h : option gostring) (subs : gmap gostring (gostring * gostring)) (s : Server) : Server :=
  MkServer (tokens s) (wsCancels s) (wsNextID s) (streamCancels s) (streamNextID s) (sessionTTL s) (passwordHash s)
    (credGen s) (passwordMu s) (pushMutationMu s) (sem s) (login s) h subs (pushEpoch s).
Definition BumpPushEpoch (s : Server) : Server :=
  MkServer (tokens s) (wsCancels s) (wsNextID s) (streamCancels s) (streamNextID s) (sessionTTL s) (passwordHash s)
    (credGen s) (passwordMu s) (pushMutationMu s) (sem s) (login s) (storedHash s) (pushSubscriptions s) (wrapu64 (pushEpoch s + 1)).

(** ** The token table (under s.mu) *)

Definition cancelSocketsLocked (token : gostring) (s : Server) : list cancelFunc * Server :=
  match wsCancels s !! token with
  | None => ([], s)
  | Some ids => (Socket <$> ids, set_wsCancels (delete token (wsCancels s)) (wsNextID s) s)
  end.

Definition cancelStreamsLocked (token : gostring) (s : Server) : list cancelFunc * Server :=
  match streamCancels s !! token with
  | None => ([], s)
  | Some ids => (Stream <$> ids, set_streamCancels (delete token (streamCancels s)) (streamNextID s) s)
  end.

Definition deleteTokenLocked (token : gostring) (s : Server) : list cancelFunc * Server :=
  let s := set_tokens (delete token) s in
  let '(c1, s) := cancelSocketsLocked token s in
  let '(c2, s) := cancelStreamsLocked token s in
  (c1 ++ c2, s).

(** [deleteTokenLocked] for each of a list of tokens. *)
Fixpoint deleteTokens (ts : list gostring) (s : Server) : list cancelFunc * Server :=
  match ts with
  | [] => ([], s)
  | t :: ts => let '(c, s) := deleteTokenLocked t s in let '(cs, s) := deleteTokens ts s in (c ++ cs, s)
  end.

Definition after (now expiry : Z) : bool := expiry <? now.

Definition tokenValid (token : gostring) (now : Z) (s : Server) : bool * list cancelFunc * Server :=
  match tokens s !! token with
  | None => (false, [], s)
  | Some expiry =>
      if after now expiry then let '(cs, s) := deleteTokenLocked token s in (false, cs, s)
      else (true, [], s)
  end.

(** [authed]: the token of the request's cookie, if it has one. *)
Definition authed (cookie : option gostring) (now : Z) (s : Server) : bool * list cancelFunc * Server :=
  match cookie with None => (false, [], s) | Some t => tokenValid t now s end.

Definition registerWSCancel (token : gostring) (now : Z) (s : Server) : option (Z * Server) :=
  if bool_decide (token = []) then None
  else match tokens s !! token with
       | None => None
       | Some expiry =>
           if after now expiry then None
           else let id := wsNextID s in
                Some (id, set_wsCancels (<[token := default [] (wsCancels s !! token) ++ [id]]> (wsCancels s)) (id + 1) s)
       end.

Definition without (id : Z) (ids : list Z) : list Z := filter (fun x => x <> id) ids.

Definition unregister (token : gostring) (id : Z) (m : gmap gostring (list Z)) : gmap gostring (list Z) :=
  match m !! token with
  | None => m
  | Some ids => let ids := without id ids in if bool_decide (ids = []) then delete token m else <[token := ids]> m
  end.

Definition unregisterWS (token : gostring) (id : Z) (s : Server) : Server :=
  set_wsCancels (unregister token id (wsCancels s)) (wsNextID s) s.

Definition registerStreamCancel (token : gostring) (now : Z) (s : Server) : option (Z * Server) :=
  if bool_decide (token = []) then None
  else match tokens s !! token with
       | None => None
       | Some expiry =>
           if after now expiry then None
           else let id := streamNextID s in
                Some (id, set_streamCancels (<[token := default [] (streamCancels s !! token) ++ [id]]> (streamCancels s)) (id + 1) s)
       end.

Definition unregisterStream (token : gostring) (id : Z) (s : Server) : Server :=
  set_streamCancels (unregister token id (streamCancels s)) (streamNextID s) s.

(** The order in which a range over the table visits it. *)
Class MapOrder := { tokenOrder : gmap gostring Z -> list (gostring * Z) }.
Class MapOrderLaw `{MapOrder} := { tokenOrder_perm m : tokenOrder m ≡ₚ map_to_list m }.

(** bcrypt.CompareHashAndPassword succeeds. *)
Class Bcrypt := { compareHash : gostring -> gostring -> bool }.

Section handlers.
Context `{MapOrder, Bcrypt}.

(** The token that expires first, the first visited of equals. *)
Definition oldest_step (acc : gostring * Z) (te : gostring * Z) : gostring * Z :=
  if bool_decide (acc.1 = []) || (te.2 <? acc.2) then te else acc.

Definition oldestToken (s : Server) : gostring :=
  (foldl oldest_step ([], 0) (tokenOrder (tokens s))).1.

(** The loop that evicts down to the capacity. *)
Fixpoint evictOldest (fuel : nat) (s : Server) : list cancelFunc * Server :=
  match fuel with
  | O => ([], s)
  | S fuel =>
      if maxSessions <=? Z.of_nat (size (tokens s)) then
        let '(c, s) := deleteTokenLocked (oldestToken s) s in
        let '(cs, s) := evictOldest fuel s in (c ++ cs, s)
      else ([], s)
  end.

Definition expiredTokens (now : Z) (s : Server) : list gostring :=
  (List.filter (fun te => after now te.2) (tokenOrder (tokens s))).*1.

(** [issueToken] with its random token: [None] is errCredRotated. *)
Definition issueToken (gen : Z) (token : gostring) (now : Z) (s : Server) : option (list cancelFunc * Server) :=
  if negb (credGen s =? gen) then None
  else
    let '(c1, s) := deleteTokens (expiredTokens now s) s in
    let '(c2, s) := evictOldest (S (size (tokens s))) s in
    Some (c1 ++ c2, set_tokens (<[token := now + sessionTTL s]>) s).

(** The revocation of [handleChangePassword], in one critical section. *)
Definition revokeAll (s : Server) : list cancelFunc * Server :=
  deleteTokens (tokenOrder (tokens s)).*1 (set_credGen (wrapu64 (credGen s + 1)) s).

(** ** The store rows *)

Definition SetSettingAndWipePushSubscriptions (hash : gostring) (s : Server) : Server := set_store (Some hash) ∅ s.

Definition UpsertPushSubscription (endpoint : gostring) (keys : gostring * gostring) (s : Server) : option Server :=
  if maxPushSubscriptions <=? Z.of_nat (size (delete endpoint (pushSubscriptions s))) then None
  else Some (set_store (storedHash s) (<[endpoint := keys]> (pushSubscriptions s)) s).

Definition DeletePushSubscription (endpoint : gostring) (s : Server) : Server :=
  set_store (storedHash s) (delete endpoint (pushSubscriptions s)) s.

(** ** Requests and their progress *)

(** Where a request stands.  The marked arguments are not in the code: they
    record, for the statements about it, under which of the installed hashes the
    password of a login was accepted. *)
Inductive pc :=
  (* handleLogin *)
  | LoginRequest (source username password : gostring)
  | LoginUnblocked (source username password : gostring)
  | LoginAllowed (source username password : gostring)
  | LoginSnapshot (source username password : gostring) (gen : Z) (since : nat)
  | LoginSlot (source username password : gostring) (gen : Z) (since : nat)
  | LoginCompared (source password : gostring) (good : bool) (gen : Z) (since under : nat)
  | LoginReleased (source password : gostring) (good : bool) (gen : Z) (since under : nat)
  | LoginAuthenticated (password : gostring) (gen : Z) (since under : nat)
  | LoginRechecked (password : gostring) (gen : Z) (since under : nat)
  (* handleChangePassword *)
  | RotRequest (cookie : option gostring) (source current new : gostring)
  | RotAuthed (cookie : option gostring) (source current new : gostring)
  | RotUnblocked (cookie : option gostring) (source current new : gostring)
  | RotAllowed (cookie : option gostring) (source current new : gostring)
  | RotLocked (cookie : option gostring) (source current new : gostring)
  | RotRechecked (cookie : option gostring) (source current new : gostring)
  | RotReauthed (source current new : gostring)
  | RotSlot (source current new : gostring)
  | RotCompared (source new : gostring) (good : bool)
  | RotReleased (source new : gostring) (good : bool)
  | RotVerified (new : gostring)
  | RotHashed (hash : gostring)
  | RotBarrier (hash : gostring)
  | RotStored (hash : gostring)
  | RotInstalled
  | RotBumped
  | RotRevoked
  | RotPushUnlock (status : Z)
  | RotUnlock (status : Z)
  (* handlePushSubscribe, handlePushUnsubscribe *)
  | SubRequest (cookie : option gostring) (endpoint : gostring) (keys : option (gostring * gostring))
  | SubAuthed (cookie : option gostring) (endpoint : gostring) (keys : option (gostring * gostring))
  | SubLocked (cookie : option gostring) (endpoint : gostring) (keys : option (gostring * gostring))
  | SubReauthed (endpoint : gostring) (keys : option (gostring * gostring)) (under : nat)
  | SubUnlock (status : Z)
  (* handleLogout *)
  | OutRequest (cookie : option gostring) (endpoint : gostring)
  | OutLocked (cookie : option gostring) (endpoint : gostring)
  | OutChecked (cookie : option gostring) (endpoint : gostring) (deletePush : bool)
  | OutRevoked (endpoint : gostring) (deletePush : bool)
  | OutDeleted
  | OutUnlock (status : Z)
  | OutSignedOut (status : Z)
  (* handleWS, and a media request with sessionScopedContext *)
  | WsRequest (cookie : option gostring)
  | WsAuthed (cookie : option gostring)
  | WsLive (token : gostring) (id : Z)
  | WsClosing (token : gostring) (id : Z)
  | StreamRequest (cookie : option gostring)
  | StreamAuthed (cookie : option gostring)
  | StreamLive (token : gostring) (id : Z)
  (* answered, with the status *)
  | Answered (status : Z).

(** What the environment decides at a step. *)
Record Input := MkInput {
  now : Z;
  random : option gostring;     (** randomToken *)
  newHash : option gostring;    (** bcrypt.GenerateFromPassword *)
  slot : bool;                  (** a hashing slot comes free in time *)
  globalOk : bool;              (** globalAllow *)
  storeOk : bool;               (** the store call succeeds *)
  closes : bool }.              (** the peer ends the connection *)

(** The running server: its state, where each request stands with the cancel
    functions it has yet to call, and those called.  The last four fields are the
    record the statements are about: the hashes installed, oldest first, how many
    rotations have revoked, and under which hash each session and each push
    subscription was obtained. *)
Record World := MkWorld {
  srv : Server;
  requests : gmap nat (pc * list cancelFunc);
  cancelled : list cancelFunc;
  hashes : list gostring;
  revocations : nat;
  born : gmap gostring (nat * gostring);
  planted : gmap gostring nat }.

Definition set_srv (s : Server) (w : World) : World :=
  MkWorld s (requests w) (cancelled w) (hashes w) (revocations w) (born w) (planted w).

(** The request goes on at [p], with [cs] more cancel functions to call. *)
Definition goto (tid : nat) (p : pc) (cs : list cancelFunc) (s : Server) (w : World) : World :=
  MkWorld s (<[tid := (p, cs)]> (requests w)) (cancelled w) (hashes w) (revocations w) (born w) (planted w).

Definition record_install (h : gostring) (w : World) : World :=
  MkWorld (srv w) (requests w) (cancelled w) (hashes w ++ [h]) (revocations w) (born w) (planted w).
Definition record_revocation (w : World) : World :=
  MkWorld (srv w) (requests w) (cancelled w) (hashes w) (S (revocations w)) (born w) (planted w).
Definition record_session (t : gostring) (under : nat) (password : gostring) (w : World) : World :=
  MkWorld (srv w) (requests w) (cancelled w) (hashes w) (revocations w) (<[t := (under, password)]> (born w)) (planted w).
Definition record_planted (e : gostring) (under : nat) (w : World) : World :=
  MkWorld (srv w) (requests w) (cancelled w) (hashes w) (revocations w) (born w) (<[e := under]> (planted w)).

(** Under which hash the session of a cookie was opened. *)
Definition bornUnder (cookie : option gostring) (w : World) : nat :=
  match cookie with Some t => match born w !! t with Some (n, _) => n | None => O end | None => O end.

Variable cfgUsername : gostring.

(** The steps of [handleLogin] and [authenticate]. *)
Definition stepLogin (i : Input) (tid : nat) (p : pc) (w : World) : option World :=
  let s := srv w in
  match p with
  | LoginRequest source username password =>
      let '(wait, _, table) := retryAfterLogged (login s) source (now i) in
      let s := set_login table s in
      Some (if 0 <? wait then goto tid (Answered 429) [] s w else goto tid (LoginUnblocked source username password) [] s w)
  | LoginUnblocked source username password =>
      Some (if globalOk i then goto tid (LoginAllowed source username password) [] s w else goto tid (Answered 429) [] s w)
  | LoginAllowed source username password =>
      Some (goto tid (LoginSnapshot source username password (credGen s) (revocations w)) [] s w)
  | LoginSnapshot source username password gen since =>
      Some (if slot i && (sem s <? loginSlots)%nat
            then goto tid (LoginSlot source username password gen since) [] (set_sem (S (sem s)) s) w
            else goto tid (Answered 429) [] s w)
  | LoginSlot source username password gen since =>
      let userOK := bool_decide (username = cfgUsername) in
      let passOK := compareHash (passwordHash s) password in
      Some (goto tid (LoginCompared source password (userOK && passOK) gen since (pred (length (hashes w)))) [] s w)
  | LoginCompared source password good gen since under =>
      Some (goto tid (LoginReleased source password good gen since under) [] (set_sem (pred (sem s)) s) w)
  | LoginReleased source password good gen since under =>
      Some (if good then goto tid (LoginAuthenticated password gen since under) [] (set_login (ok (login s) source) s) w
            else goto tid (Answered 401) [] (set_login (fail (login s) source (now i)) s) w)
  | LoginAuthenticated password gen since under =>
      Some (if credGen s =? gen then goto tid (LoginRechecked password gen since under) [] s w else goto tid (Answered 401) [] s w)
  | LoginRechecked password gen since under =>
      match random i with
      | None => Some (goto tid (Answered 500) [] s w)
      | Some token =>
          match issueToken gen token (now i) s with
          | None => Some (goto tid (Answered 401) [] s w)
          | Some (cs, s) => Some (record_session token under password (goto tid (Answered 204) cs s w))
          end
      end
  | _ => None
  end.

(** The steps of [handleChangePassword], behind [requireAuth]. *)
Definition stepRotate (i : Input) (tid : nat) (p : pc) (w : World) : option World :=
  let s := srv w in
  match p with
  | RotRequest cookie source current new =>
      let '(ok, cs, s) := authed cookie (now i) s in
      Some (goto tid (if ok then RotAuthed cookie source current new else Answered 401) cs s w)
  | RotAuthed cookie source current new =>
      Some (goto tid (if 0 <? retryAfter (login s) source (now i) then Answered 429 else RotUnblocked cookie source current new) [] s w)
  | RotUnblocked cookie source current new =>
      Some (goto tid (if globalOk i then RotAllowed cookie source current new else Answered 429) [] s w)
  | RotAllowed cookie source current new =>
      Some (if passwordMu s then goto tid (Answered 429) [] s w
            else goto tid (RotLocked cookie source current new) [] (set_passwordMu true s) w)
  | RotLocked cookie source current new =>
      Some (goto tid (if 0 <? retryAfter (login s) source (now i) then RotUnlock 429 else RotRechecked cookie source current new) [] s w)
  | RotRechecked cookie source current new =>
      let '(ok, cs, s) := authed cookie (now i) s in
      Some (goto tid (if ok then RotReauthed source current new else RotUnlock 401) cs s w)
  | RotReauthed source current new =>
      Some (if slot i && (sem s <? loginSlots)%nat then goto tid (RotSlot source current new) [] (set_sem (S (sem s)) s) w
            else goto tid (RotUnlock 429) [] s w)
  | RotSlot source current new =>
      Some (goto tid (RotCompared source new (compareHash (passwordHash s) current)) [] s w)
  | RotCompared source new good =>
      Some (goto tid (RotReleased source new good) [] (set_sem (pred (sem s)) s) w)
  | RotReleased source new good =>
      Some (if good then goto tid (RotVerified new) [] (set_login (ok (login s) source) s) w
            else goto tid (RotUnlock 403) [] (set_login (fail (login s) source (now i)) s) w)
  | RotVerified new =>
      Some (goto tid
        (if (len new <? minPasswordLen) || (maxPasswordLen <? len new) then RotUnlock 400
         else match newHash i with None => RotUnlock 500 | Some hash => RotHashed hash end) [] s w)
  | RotHashed hash =>
      if pushMutationMu s then None else Some (goto tid (RotBarrier hash) [] (set_pushMu true s) w)
  | RotBarrier hash =>
      Some (if storeOk i then goto tid (RotStored hash) [] (SetSettingAndWipePushSubscriptions hash s) w
            else goto tid (RotPushUnlock 500) [] s w)
  | RotStored hash => Some (record_install hash (goto tid RotInstalled [] (set_hash hash s) w))
  | RotInstalled => Some (goto tid RotBumped [] (BumpPushEpoch s) w)
  | RotBumped => let '(cs, s) := revokeAll s in Some (record_revocation (goto tid RotRevoked cs s w))
  | RotRevoked => Some (goto tid (RotPushUnlock 204) [] s w)
  | RotPushUnlock status => Some (goto tid (RotUnlock status) [] (set_pushMu false s) w)
  | RotUnlock status => Some (goto tid (Answered status) [] (set_passwordMu false s) w)
  | _ => None
  end.

(** The steps of [handlePushSubscribe] with its keys, [handlePushUnsubscribe]
    without. *)
Definition stepPush (i : Input) (tid : nat) (p : pc) (w : World) : option World :=
  let s := srv w in
  match p with
  | SubRequest cookie endpoint keys =>
      let '(ok, cs, s) := authed cookie (now i) s in
      Some (goto tid (if ok then SubAuthed cookie endpoint keys else Answered 401) cs s w)
  | SubAuthed cookie endpoint keys =>
      Some (if pushMutationMu s then goto tid (Answered 429) [] s w
            else goto tid (SubLocked cookie endpoint keys) [] (set_pushMu true s) w)
  | SubLocked cookie endpoint keys =>
      let '(ok, cs, s) := authed cookie (now i) s in
      Some (goto tid (if ok then SubReauthed endpoint keys (bornUnder cookie w) else SubUnlock 401) cs s w)
  | SubReauthed endpoint keys under =>
      if negb (storeOk i) then Some (goto tid (SubUnlock 500) [] s w)
      else match keys with
           | None => Some (goto tid (SubUnlock 204) [] (DeletePushSubscription endpoint s) w)
           | Some keys =>
               match UpsertPushSubscription endpoint keys s with
               | None => Some (goto tid (SubUnlock 409) [] s w)
               | Some s => Some (record_planted endpoint under (goto tid (SubUnlock 204) [] s w))
               end
           end
  | SubUnlock status => Some (goto tid (Answered status) [] (set_pushMu false s) w)
  | _ => None
  end.

(** The steps of [handleLogout]; [pending] are the cancel functions it calls after
    releasing the barrier. *)
Definition stepLogout (i : Input) (tid : nat) (p : pc) (pending : list cancelFunc) (w : World) : option World :=
  let s := srv w in
  match p with
  | OutRequest cookie endpoint =>
      if pushMutationMu s then None else Some (goto tid (OutLocked cookie endpoint) [] (set_pushMu true s) w)
  | OutLocked cookie endpoint =>
      if bool_decide (endpoint = []) then Some (goto tid (OutChecked cookie endpoint false) [] s w)
      else let '(ok, cs, s) := authed cookie (now i) s in Some (goto tid (OutChecked cookie endpoint ok) cs s w)
  | OutChecked cookie endpoint deletePush =>
      match cookie with
      | None => Some (goto tid (OutRevoked endpoint deletePush) [] s w)
      | Some token => let '(cs, s) := deleteTokenLocked token s in Some (goto tid (OutRevoked endpoint deletePush) cs s w)
      end
  | OutRevoked endpoint deletePush =>
      Some (if deletePush then
              if storeOk i then goto tid OutDeleted pending (DeletePushSubscription endpoint s) w
              else goto tid (OutUnlock 500) pending s w
            else goto tid (OutUnlock 204) pending s w)
  | OutDeleted => Some (goto tid (OutUnlock 204) pending (BumpPushEpoch s) w)
  | OutUnlock status => Some (goto tid (OutSignedOut status) pending (set_pushMu false s) w)
  | OutSignedOut status => Some (goto tid (Answered status) [] s w)
  | _ => None
  end.

(** The life of a WebSocket: [handleWS] up to its registration, then the
    revalidation of [wsWritePump] until either side ends it. *)
Definition stepSocket (i : Input) (tid : nat) (p : pc) (w : World) : option World :=
  let s := srv w in
  match p with
  | WsRequest cookie =>
      let '(ok, cs, s) := authed cookie (now i) s in
      Some (goto tid (if ok then WsAuthed cookie else Answered 401) cs s w)
  | WsAuthed cookie =>
      let token := default [] cookie in
      Some (match registerWSCancel token (now i) s with
            | None => goto tid (Answered 1008) [] s w
            | Some (id, s) => goto tid (WsLive token id) [] s w
            end)
  | WsLive token id =>
      if closes i || bool_decide (Socket id ∈ cancelled w) then Some (goto tid (WsClosing token id) [] s w)
      else let '(ok, cs, s) := tokenValid token (now i) s in
           Some (goto tid (if ok then WsLive token id else WsClosing token id) cs s w)
  | WsClosing token id => Some (goto tid (Answered 0) [] (unregisterWS token id s) w)
  | _ => None
  end.

(** The life of a media request: [requireAuth], then [sessionScopedContext]. *)
Definition stepStream (i : Input) (tid : nat) (p : pc) (w : World) : option World :=
  let s := srv w in
  match p with
  | StreamRequest cookie =>
      let '(ok, cs, s) := authed cookie (now i) s in
      Some (goto tid (if ok then StreamAuthed cookie else Answered 401) cs s w)
  | StreamAuthed cookie =>
      let token := default [] cookie in
      Some (match registerStreamCancel token (now i) s with
            | None => goto tid (Answered 401) [] s w
            | Some (id, s) => goto tid (StreamLive token id) [] s w
            end)
  | StreamLive token id =>
      if closes i || bool_decide (Stream id ∈ cancelled w)
      then Some (goto tid (Answered 0) [] (unregisterStream token id s) w)
      else None
  | _ => None
  end.

Definition stepLive (i : Input) (tid : nat) (p : pc) (w : World) : option World :=
  match p with
  | WsRequest _ | WsAuthed _ | WsLive _ _ | WsClosing _ _ => stepSocket i tid p w
  | StreamRequest _ | StreamAuthed _ | StreamLive _ _ => stepStream i tid p w
  | _ => None
  end.

(** A cancel function is called before the request goes on, except by a logout,
    which first gives up the barrier. *)
Definition defers (p : pc) : bool :=
  match p with OutRevoked _ _ | OutDeleted | OutUnlock _ => true | _ => false end.

Definition fire (tid : nat) (p : pc) (c : cancelFunc) (cs : list cancelFunc) (w : World) : World :=
  MkWorld (srv w) (<[tid := (p, cs)]> (requests w)) (c :: cancelled w) (hashes w) (revocations w) (born w) (planted w).

Definition advance (i : Input) (tid : nat) (w : World) : option World :=
  match requests w !! tid with
  | None => None
  | Some (p, pending) =>
      match pending with
      | c :: cs => if defers p then stepLogout i tid p pending w else Some (fire tid p c cs w)
      | [] =>
          match p with
          | LoginRequest _ _ _ | LoginUnblocked _ _ _ | LoginAllowed _ _ _ | LoginSnapshot _ _ _ _ _ | LoginSlot _ _ _ _ _
          | LoginCompared _ _ _ _ _ _ | LoginReleased _ _ _ _ _ _ | LoginAuthenticated _ _ _ _ | LoginRechecked _ _ _ _ => stepLogin i tid p w
          | SubRequest _ _ _ | SubAuthed _ _ _ | SubLocked _ _ _ | SubReauthed _ _ _ | SubUnlock _ => stepPush i tid p w
          | OutRequest _ _ | OutLocked _ _ | OutChecked _ _ _ | OutRevoked _ _ | OutDeleted | OutUnlock _ | OutSignedOut _ => stepLogout i tid p [] w
          | WsRequest _ | WsAuthed _ | WsLive _ _ | WsClosing _ _ | StreamRequest _ | StreamAuthed _ | StreamLive _ _ => stepLive i tid p w
          | Answered _ => None
          | _ => stepRotate i tid p w
          end
      end
  end.

(** A request that arrives. *)
Definition arrival (p : pc) : bool :=
  match p with
  | LoginRequest _ _ _ | RotRequest _ _ _ _ | SubRequest _ _ _ | OutRequest _ _ | WsRequest _ | StreamRequest _ => true
  | _ => false
  end.

Inductive step : World -> World -> Prop :=
  | step_arrive w tid p : arrival p = true -> requests w !! tid = None -> step w (goto tid p [] (srv w) w)
  | step_advance w i tid w' : advance i tid w = Some w' -> step w w'.

(** The server as [New] makes it, with the hash [loadPasswordHash] gives. *)
Definition newServer (ttl : Z) (hash : gostring) (stored : option gostring) (subs : gmap gostring (gostring * gostring)) : Server :=
  MkServer ∅ ∅ 0 ∅ 0 ttl hash 0 false false 0 ∅ stored subs 0.

Definition newWorld (ttl : Z) (hash : gostring) (stored : option gostring) (subs : gmap gostring (gostring * gostring)) : World :=
  MkWorld (newServer ttl hash stored subs) ∅ [] [hash] 0 ∅ ∅.

Definition reachable (ttl : Z) (hash : gostring) (stored : option gostring) (subs : gmap gostring (gostring * gostring)) : World -> Prop :=
  rtc step (newWorld ttl hash stored subs).

(** [loadPasswordHash]: the stored override, refused when it is no bcrypt hash,
    else the hash of the configuration. *)
Definition loadPasswordHash (readOk : bool) (stored : option gostring) (validHash : gostring -> bool) (seed : gostring) : option (gostring * bool) :=
  if negb readOk then None
  else match stored with
       | None => Some (seed, false)
       | Some h => if validHash h then Some (h, true) else None
       end.
End handlers.
