(* ===== verification/SessionsProofs.v ===== *)
(** * Sessions across a password rotation

    Invariants of the interleaved handlers of Sessions: which password every live
    session was opened with, what a rotation leaves of the sessions and the push
    subscriptions before it, and that no socket or stream of a deleted session
    escapes cancellation. *)

From S2P Require Import Prelude GoStrings GoUtf8 GoNet GoIP LoginLimit Sessions.

Section proofs.
Context {Mo : MapOrder} {Ml : MapOrderLaw} {Bc : Bcrypt}.
Variable cfgUsername : gostring.

Abbreviation advance := (Sessions.advance cfgUsername).
Abbreviation step := (Sessions.step cfgUsername).

(** ** Deleting tokens *)

(** [s'] is [s] without some tokens; the cancel functions registered under them are
    in [cs], the others are still registered. *)
Record swept (s s' : Server) (cs : list cancelFunc) : Prop := {
  sw_tokens : tokens s' ⊆ tokens s;
  sw_ws : wsCancels s' ⊆ wsCancels s;
  sw_st : streamCancels s' ⊆ streamCancels s;
  sw_ws_gone : forall t ids, wsCancels s !! t = Some ids -> wsCancels s' !! t = Some ids \/ (forall id, id ∈ ids -> Socket id ∈ cs);
  sw_st_gone : forall t ids, streamCancels s !! t = Some ids -> streamCancels s' !! t = Some ids \/ (forall id, id ∈ ids -> Stream id ∈ cs);
  sw_clean : forall t, tokens s' !! t = None -> tokens s !! t = None \/ (wsCancels s' !! t = None /\ streamCancels s' !! t = None);
  sw_rest : (wsNextID s', streamNextID s', sessionTTL s', passwordHash s', credGen s') = (wsNextID s, streamNextID s, sessionTTL s, passwordHash s, credGen s);
  sw_locks : (passwordMu s', pushMutationMu s', sem s', login s') = (passwordMu s, pushMutationMu s, sem s, login s);
  sw_store : (storedHash s', pushSubscriptions s', pushEpoch s') = (storedHash s, pushSubscriptions s, pushEpoch s) }.

Lemma swept_refl s cs : swept s s cs.
Proof. split; auto. Qed.

Lemma swept_trans s1 s2 s3 c1 c2 : swept s1 s2 c1 -> swept s2 s3 c2 -> swept s1 s3 (c1 ++ c2).
Proof.
  intros [A1 A2 A3 A4 A5 A6 A7 A8 A9] [B1 B2 B3 B4 B5 B6 B7 B8 B9].
  assert (forall (m : gmap gostring (list Z)) m', m' ⊆ m -> forall t, m !! t = None -> m' !! t = None) as Hsub.
  { intros m m' Hs t Hn. destruct (m' !! t) as [x|] eqn:E; [|done]. by rewrite (lookup_weaken _ _ _ _ E Hs) in Hn. }
  split; [by etrans..| | | |congruence|congruence|congruence].
  - intros t ids Ht. destruct (A4 t ids Ht) as [Hk|Hk]; [|right; intros id Hid; apply elem_of_app; auto].
    destruct (B4 t ids Hk) as [?|Hk2]; [by left|]. right. intros id Hid. apply elem_of_app. auto.
  - intros t ids Ht. destruct (A5 t ids Ht) as [Hk|Hk]; [|right; intros id Hid; apply elem_of_app; auto].
    destruct (B5 t ids Hk) as [?|Hk2]; [by left|]. right. intros id Hid. apply elem_of_app. auto.
  - intros t Ht. destruct (B6 t Ht) as [Hk|Hk]; [|by right]. destruct (A6 t Hk) as [?|[Hw Hs]]; [by left|]. right.
    split; [by apply (Hsub _ _ B2)|by apply (Hsub _ _ B3)].
Qed.

Lemma deleteTokenLocked_swept t s cs s' : deleteTokenLocked t s = (cs, s') -> swept s s' cs /\ tokens s' = delete t (tokens s).
Proof.
  unfold deleteTokenLocked, cancelSocketsLocked, cancelStreamsLocked. cbn [set_tokens wsCancels].
  intros E. assert (forall (m : gmap gostring (list Z)) u, delete t m !! u = m !! u \/ (u = t)) as Hd.
  { intros m u. destruct (decide (u = t)) as [->|Hn]; [by right|]. left. by apply lookup_delete_ne. }
  destruct (wsCancels s !! t) as [ids|] eqn:Ew, (streamCancels s !! t) as [jds|] eqn:Es;
    cbn [set_tokens set_wsCancels set_streamCancels streamCancels wsCancels] in E; rewrite ?Es in E;
    cbn [set_tokens set_wsCancels set_streamCancels streamCancels wsCancels] in E; injection E as <- <-; split; try done;
    split; cbn; try done; try apply delete_subseteq.
  all: try (intros u ids0 Hu; destruct (decide (u = t)) as [->|Hn]; [|by left; rewrite ?lookup_delete_ne by done]).
  all: try (right; intros id Hid; rewrite ?Ew in Hu; rewrite ?Es in Hu; simplify_eq; rewrite ?elem_of_app, ?list_elem_of_fmap; eauto).
  all: intros u Hu; apply lookup_delete_None in Hu as [<-|Hu]; [right|by left]; rewrite ?lookup_delete_eq; done.
Qed.

Lemma deleteTokens_swept ts s cs s' :
  deleteTokens ts s = (cs, s') -> swept s s' cs /\ forall t, t ∈ ts -> tokens s' !! t = None.
Proof.
  revert s cs. induction ts as [|t ts IH]; intros s cs; simpl.
  { intros [= <- <-]. split; [apply swept_refl|]. by intros t Ht%elem_of_nil. }
  destruct (deleteTokenLocked t s) as [c s1] eqn:E1. destruct (deleteTokens ts s1) as [c2 s2] eqn:E2. intros [= <- <-].
  apply deleteTokenLocked_swept in E1 as [S1 D1]. apply IH in E2 as [S2 D2]. split; [by eapply swept_trans|].
  intros u [->|Hu]%elem_of_cons; [|by apply D2]. destruct (tokens s2 !! t) as [e|] eqn:E; [|done].
  pose proof (lookup_weaken _ _ _ _ E (sw_tokens _ _ _ S2)) as Hw. by rewrite D1, lookup_delete_eq in Hw.
Qed.

Lemma evictOldest_swept fuel s cs s' : evictOldest fuel s = (cs, s') -> swept s s' cs.
Proof.
  revert s cs. induction fuel as [|fuel IH]; intros s cs; simpl; [intros [= <- <-]; apply swept_refl|].
  destruct (_ <=? _); [|intros [= <- <-]; apply swept_refl].
  destruct (deleteTokenLocked _ s) as [c s1] eqn:E1. destruct (evictOldest fuel s1) as [c2 s2] eqn:E2. intros [= <- <-].
  apply deleteTokenLocked_swept in E1 as [S1 _]. eapply swept_trans; [exact S1|by apply IH].
Qed.

Lemma tokenValid_swept t now s b cs s' :
  tokenValid t now s = (b, cs, s') -> swept s s' cs /\ (b = true -> s' = s /\ is_Some (tokens s !! t)).
Proof.
  unfold tokenValid. destruct (tokens s !! t) as [e|] eqn:E; [|intros [= <- <- <-]; split; [apply swept_refl|done]].
  destruct (after now e); [|intros [= <- <- <-]; split; [apply swept_refl|eauto]].
  destruct (deleteTokenLocked t s) as [c s1] eqn:E1. intros [= <- <- <-]. apply deleteTokenLocked_swept in E1 as [S1 _]. done.
Qed.

Lemma authed_swept c now s b cs s' :
  authed c now s = (b, cs, s') -> swept s s' cs /\ (b = true -> s' = s /\ exists t, c = Some t /\ is_Some (tokens s !! t)).
Proof.
  destruct c as [t|]; simpl; [|intros [= <- <- <-]; split; [apply swept_refl|done]].
  intros [Hs Hb]%tokenValid_swept. split; [done|]. intros Ht. destruct (Hb Ht). eauto.
Qed.

Lemma issueToken_spec gen token now s cs s' :
  issueToken gen token now s = Some (cs, s') ->
  credGen s = gen /\ exists s1, swept s s1 cs /\ s' = set_tokens (<[token := now + sessionTTL s1]>) s1.
Proof.
  unfold issueToken. destruct (Z.eqb_spec (credGen s) gen) as [Hg|]; [|done]. simpl.
  destruct (deleteTokens _ s) as [c1 s1] eqn:E1. destruct (deleteTokens_swept _ _ _ _ E1) as [S1 _].
  destruct (if _ <=? _ then _ else _) as [c2 s2] eqn:E2. intros [= <- <-]. split; [done|]. exists s2. split; [|done].
  eapply swept_trans; [exact S1|]. by apply (evictOldest_swept (S (size (tokens s1)))).
Qed.

Lemma revokeAll_spec s cs s' :
  revokeAll s = (cs, s') -> swept (set_credGen (wrapu64 (credGen s + 1)) s) s' cs /\ tokens s' = ∅.
Proof.
  unfold revokeAll. intros [Hs Hall]%deleteTokens_swept. split; [done|]. apply map_empty. intros t.
  destruct (tokens s' !! t) as [e|] eqn:E; [|done]. rewrite <- E. apply Hall. pose proof (lookup_weaken _ _ _ _ E (sw_tokens _ _ _ Hs)) as Hw.
  cbn in Hw. rewrite tokenOrder_perm. apply list_elem_of_fmap. exists (t, e). split; [done|]. by apply elem_of_map_to_list.
Qed.

(** *** The capacity *)

Lemma oldest_in l acc : foldl oldest_step acc l = acc \/ foldl oldest_step acc l ∈ l.
Proof.
  revert acc. induction l as [|x l IH]; intros acc; [by left|]. simpl. destruct (IH (oldest_step acc x)) as [E|E]; [|right; by right].
  rewrite E. unfold oldest_step. destruct (_ || _); [right; by left|by left].
Qed.

Lemma oldestToken_in s : tokens s <> ∅ -> is_Some (tokens s !! oldestToken s).
Proof.
  intros Hne. unfold oldestToken. assert (tokenOrder (tokens s) <> []) as Hn.
  { intros E. pose proof (tokenOrder_perm (tokens s)) as Hp. rewrite E in Hp. apply Permutation_nil in Hp. by apply map_to_list_empty_iff in Hp. }
  assert (foldl oldest_step ([], 0) (tokenOrder (tokens s)) ∈ tokenOrder (tokens s)) as Hin.
  { destruct (tokenOrder (tokens s)) as [|x l]; [done|]. simpl. change (oldest_step ([], 0) x) with x.
    destruct (oldest_in l x) as [->|Hi]; [by left|by right]. }
  destruct (foldl _ _ _) as [t e]. rewrite tokenOrder_perm in Hin. apply elem_of_map_to_list in Hin. by exists e.
Qed.

Lemma evictOldest_room fuel s cs s' :
  (size (tokens s) < fuel)%nat -> evictOldest fuel s = (cs, s') -> Z.of_nat (size (tokens s')) < maxSessions.
Proof.
  revert s cs. induction fuel as [|fuel IH]; intros s cs Hf; simpl; [lia|].
  destruct (Z.leb_spec maxSessions (Z.of_nat (size (tokens s)))) as [Hm|Hm]; [|intros [= <- <-]; done].
  destruct (deleteTokenLocked _ s) as [c s1] eqn:E1. destruct (evictOldest fuel s1) as [c2 s2] eqn:E2. intros [= <- <-].
  apply deleteTokenLocked_swept in E1 as [_ D1]. eapply IH; [|exact E2]. rewrite D1.
  assert (tokens s <> ∅) as Hne. { intros E0. rewrite E0, map_size_empty in Hm. by unfold maxSessions in Hm. }
  rewrite map_size_delete_Some by by apply oldestToken_in. unfold maxSessions in Hm. lia.
Qed.

Lemma issueToken_room gen token now s cs s' :
  issueToken gen token now s = Some (cs, s') -> Z.of_nat (size (tokens s')) <= maxSessions.
Proof.
  unfold issueToken. destruct (negb _); [done|]. destruct (deleteTokens _ s) as [c1 s1].
  destruct (evictOldest _ s1) as [c2 s2] eqn:E2. intros [= <- <-]. apply evictOldest_room in E2; [|lia]. cbn.
  destruct (tokens s2 !! token) as [e|] eqn:E.
  - rewrite map_size_insert_Some by by eexists. lia.
  - rewrite map_size_insert_None by done. lia.
Qed.

(** ** Locks *)

Definition holdsPassword (p : pc) : bool :=
  match p with
  | RotLocked _ _ _ _ | RotRechecked _ _ _ _ | RotReauthed _ _ _ | RotSlot _ _ _ | RotCompared _ _ _ | RotReleased _ _ _
  | RotVerified _ | RotHashed _ | RotBarrier _ | RotStored _ | RotInstalled | RotBumped | RotRevoked | RotPushUnlock _ | RotUnlock _ => true
  | _ => false
  end.

Definition holdsPush (p : pc) : bool :=
  match p with
  | RotBarrier _ | RotStored _ | RotInstalled | RotBumped | RotRevoked | RotPushUnlock _
  | SubLocked _ _ _ | SubReauthed _ _ _ | SubUnlock _
  | OutLocked _ _ | OutChecked _ _ _ | OutRevoked _ _ | OutDeleted | OutUnlock _ => true
  | _ => false
  end.

(** At most one request holds the lock, and then it is taken. *)
Definition mutex (holds : pc -> bool) (locked : bool) (rs : gmap nat (pc * list cancelFunc)) : Prop :=
  forall t p c, rs !! t = Some (p, c) -> holds p = true ->
    locked = true /\ forall t' p' c', rs !! t' = Some (p', c') -> holds p' = true -> t' = t.

(** What a step from [p0] to [p] may do to a lock: nothing, take it when free, or
    give it up. *)
Definition lock_step (holds : pc -> bool) (p0 p : pc) (locked locked' : bool) : bool :=
  if holds p then (holds p0 && eqb locked' locked) || (negb (holds p0) && negb locked && locked')
  else holds p0 || eqb locked' locked.

Lemma mutex_goto holds locked locked' rs tid p0 c0 p c :
  mutex holds locked rs -> rs !! tid = Some (p0, c0) -> lock_step holds p0 p locked locked' = true ->
  mutex holds locked' (<[tid := (p, c)]> rs).
Proof.
  intros Hm H0 Hl t q d Hq Hh. unfold lock_step in Hl.
  apply lookup_insert_Some in Hq as [[<- [= -> ->]]|[Hne Hq]].
  - rewrite Hh in Hl. apply orb_true_iff in Hl as [[Hp He%eqb_prop]%andb_true_iff|[[_ Hn]%andb_true_iff ->]%andb_true_iff].
    + destruct (Hm _ _ _ H0 Hp) as [-> Hu]. split; [done|]. intros t' p' c' Ht' Hh'.
      apply lookup_insert_Some in Ht' as [[<- _]|[_ Ht']]; [done|]. by eapply Hu.
    + split; [done|]. intros t' p' c' Ht' Hh'. apply lookup_insert_Some in Ht' as [[<- _]|[_ Ht']]; [done|].
      destruct (Hm _ _ _ Ht' Hh') as [-> _]. done.
  - destruct (Hm _ _ _ Hq Hh) as [-> Hu]. destruct (holds p) eqn:Ep.
    + apply orb_true_iff in Hl as [[Hp _]%andb_true_iff|[[_ Hn]%andb_true_iff _]%andb_true_iff]; [|done]. by rewrite (Hu _ _ _ H0 Hp) in Hne.
    + apply orb_true_iff in Hl as [Hp|He%eqb_prop]; [by rewrite (Hu _ _ _ H0 Hp) in Hne|]. split; [done|].
      intros t' p' c' Ht' Hh'. apply lookup_insert_Some in Ht' as [[<- [= -> ->]]|[_ Ht']]; [congruence|]. by eapply Hu.
Qed.

Lemma mutex_arrive holds locked rs tid p c :
  mutex holds locked rs -> rs !! tid = None -> holds p = false -> mutex holds locked (<[tid := (p, c)]> rs).
Proof.
  intros Hm H0 Hh t q d Hq Hh1. apply lookup_insert_Some in Hq as [[<- [= -> ->]]|[Hne Hq]]; [congruence|].
  destruct (Hm _ _ _ Hq Hh1) as [-> Hu]. split; [done|]. intros t' p' c' Ht' Hh'.
  apply lookup_insert_Some in Ht' as [[<- [= -> ->]]|[_ Ht']]; [congruence|]. by eapply Hu.
Qed.

(** ** The password of every session *)

(** The password was accepted by the [n]-th hash installed. *)
Definition accepted (hs : list gostring) (n : nat) (password : gostring) : Prop :=
  exists h, hs !! n = Some h /\ compareHash h password = true.

(** What holds while a request stands at [p]. *)
Definition request_ok (rev : nat) (hs : list gostring) (subs : gmap gostring (gostring * gostring)) (p : pc) : Prop :=
  match p with
  | LoginSnapshot _ _ _ gen since | LoginSlot _ _ _ gen since => gen = wrapu64 (Z.of_nat since) /\ (since <= rev)%nat
  | LoginCompared _ pw good gen since under | LoginReleased _ pw good gen since under =>
      gen = wrapu64 (Z.of_nat since) /\ (since <= rev)%nat /\ (since <= under)%nat /\ (good = true -> accepted hs under pw)
  | LoginAuthenticated pw gen since under | LoginRechecked pw gen since under =>
      gen = wrapu64 (Z.of_nat since) /\ (since <= rev)%nat /\ (since <= under)%nat /\ accepted hs under pw
  | SubReauthed _ _ under => (rev <= under < length hs)%nat
  | RotStored _ => subs = ∅ /\ length hs = S rev
  | RotInstalled | RotBumped => subs = ∅ /\ length hs = S (S rev)
  | _ => holdsPassword p = true -> length hs = S rev
  end.

Record rot_inv (w : World) : Prop := {
  ri_pw : mutex holdsPassword (passwordMu (srv w)) (requests w);
  ri_push : mutex holdsPush (pushMutationMu (srv w)) (requests w);
  ri_free : passwordMu (srv w) = false -> length (hashes w) = S (revocations w);
  ri_len : (S (revocations w) <= length (hashes w))%nat;
  ri_last : last (hashes w) = Some (passwordHash (srv w));
  ri_gen : credGen (srv w) = wrapu64 (Z.of_nat (revocations w));
  ri_requests : forall tid p c, requests w !! tid = Some (p, c) ->
    request_ok (revocations w) (hashes w) (pushSubscriptions (srv w)) p;
  ri_tokens : forall t e, tokens (srv w) !! t = Some e ->
    exists n pw, born w !! t = Some (n, pw) /\ (revocations w <= n)%nat /\ accepted (hashes w) n pw;
  ri_subs : forall e k, pushSubscriptions (srv w) !! e = Some k ->
    (revocations w <= default O (planted w !! e) < length (hashes w))%nat }.

Lemma request_ok_subs rev hs subs subs' p :
  request_ok rev hs subs p -> subs' ⊆ subs -> request_ok rev hs subs' p.
Proof.
  intros Hp Hs. assert (subs = ∅ -> subs' = ∅) as He.
  { intros ->. apply map_empty. intros t. destruct (subs' !! t) as [x|] eqn:E; [|done]. by apply (lookup_weaken _ _ _ _ E) in Hs. }
  destruct p; simpl in *; try done; destruct Hp; auto.
Qed.

(** A step that neither installs a hash, revokes, opens a session nor plants a
    subscription. *)
Lemma quiet_step w tid p0 c0 p cs s' :
  rot_inv w -> requests w !! tid = Some (p0, c0) ->
  lock_step holdsPassword p0 p (passwordMu (srv w)) (passwordMu s') = true ->
  lock_step holdsPush p0 p (pushMutationMu (srv w)) (pushMutationMu s') = true ->
  passwordHash s' = passwordHash (srv w) -> credGen s' = credGen (srv w) ->
  tokens s' ⊆ tokens (srv w) -> pushSubscriptions s' ⊆ pushSubscriptions (srv w) ->
  passwordMu s' = passwordMu (srv w) \/ length (hashes w) = S (revocations w) ->
  request_ok (revocations w) (hashes w) (pushSubscriptions s') p ->
  rot_inv (goto tid p cs s' w).
Proof.
  intros [I1 I2 I3 I4 I5 I6 I7 I8 I9] H0 L1 L2 E1 E2 Ht Hs Hf Hp.
  split; cbn [goto srv requests hashes revocations born planted].
  - by eapply mutex_goto.
  - by eapply mutex_goto.
  - destruct Hf as [->|Hf]; auto.
  - done.
  - by rewrite E1.
  - by rewrite E2.
  - intros t q c Hq. apply lookup_insert_Some in Hq as [[_ [= -> ->]]|[_ Hq]]; [done|].
    eapply request_ok_subs; [by eapply I7|done].
  - intros t e Hte. eapply I8, lookup_weaken; [exact Hte|done].
  - intros e k He. eapply I9, lookup_weaken; [exact He|done].
Qed.

Lemma lock_step_same holds p0 p b : (holds p = true -> holds p0 = true) -> lock_step holds p0 p b b = true.
Proof. unfold lock_step. rewrite eqb_reflx. destruct (holds p); [intros ->; done|intros _]. apply orb_true_r. Qed.

Lemma swept_quiet s s' cs : swept s s' cs ->
  tokens s' ⊆ tokens s /\ passwordHash s' = passwordHash s /\ credGen s' = credGen s /\ passwordMu s' = passwordMu s /\
  pushMutationMu s' = pushMutationMu s /\ pushSubscriptions s' = pushSubscriptions s.
Proof. intros [A1 A2 A3 A4 A5 A6 A7 A8 A9]. simplify_eq. done. Qed.

(** The step after a check of the session: [s'] may have lost it. *)
Lemma swept_step w tid p0 c0 p cs s' cs' :
  rot_inv w -> requests w !! tid = Some (p0, c0) -> swept (srv w) s' cs' ->
  (holdsPassword p = true -> holdsPassword p0 = true) -> (holdsPush p = true -> holdsPush p0 = true) ->
  request_ok (revocations w) (hashes w) (pushSubscriptions (srv w)) p ->
  rot_inv (goto tid p cs s' w).
Proof.
  intros Hi Hr (E1 & E2 & E3 & E4 & E5 & E6)%swept_quiet H1 H2 Hp.
  eapply quiet_step; [exact Hi|exact Hr|rewrite E4; by apply lock_step_same|rewrite E5; by apply lock_step_same|done|done|done| |by left|by rewrite E6].
  by rewrite E6.
Qed.

(** A step that changes nothing the invariant is about. *)
Lemma plain_step w tid p0 c0 p cs s' :
  rot_inv w -> requests w !! tid = Some (p0, c0) ->
  (tokens s', passwordHash s', credGen s', passwordMu s', pushMutationMu s', pushSubscriptions s') =
  (tokens (srv w), passwordHash (srv w), credGen (srv w), passwordMu (srv w), pushMutationMu (srv w), pushSubscriptions (srv w)) ->
  (holdsPassword p = true -> holdsPassword p0 = true) -> (holdsPush p = true -> holdsPush p0 = true) ->
  request_ok (revocations w) (hashes w) (pushSubscriptions (srv w)) p ->
  rot_inv (goto tid p cs s' w).
Proof.
  intros Hi Hr [= E1 E2 E3 E4 E5 E6] H1 H2 Hp.
  eapply quiet_step; [exact Hi|exact Hr|rewrite E4; by apply lock_step_same|rewrite E5; by apply lock_step_same|done|done|by rewrite E1|by rewrite E6|by left|by rewrite E6].
Qed.

Ltac plain := eapply plain_step; [eassumption|eassumption|reflexivity|done|done|].

Lemma open_session w tid cs s1 token pw since under e :
  rot_inv w -> requests w !! tid = Some (LoginRechecked pw (credGen (srv w)) since under, []) ->
  Z.of_nat (revocations w) < 2 ^ 64 -> swept (srv w) s1 cs ->
  rot_inv (record_session token under pw (goto tid (Answered 204) cs (set_tokens (<[token := e]>) s1) w)).
Proof.
  intros Hi Hr Hb Hs. destruct (ri_requests _ Hi _ _ _ Hr) as (Hg & Hsr & Hsu & Hacc).
  assert (since = revocations w) as ->.
  { rewrite (ri_gen _ Hi) in Hg. unfold wrapu64 in Hg. rewrite !Z.mod_small in Hg by lia. lia. }
  pose proof (swept_step w tid _ _ (Answered 204) cs s1 cs Hi Hr Hs ltac:(done) ltac:(done) ltac:(done)) as [J1 J2 J3 J4 J5 J6 J7 J8 J9].
  split; cbn in *; try done. intros t x [[<- _]|[Hne Ht]]%lookup_insert_Some.
  - exists under, pw. by rewrite lookup_insert_eq.
  - rewrite lookup_insert_ne by done. by apply (J8 t x).
Qed.

Lemma stepLogin_inv w i tid p w' :
  rot_inv w -> Z.of_nat (revocations w) < 2 ^ 64 -> requests w !! tid = Some (p, []) ->
  stepLogin cfgUsername i tid p w = Some w' -> rot_inv w'.
Proof.
  intros Hi Hb Hr Hs. pose proof (ri_requests _ Hi _ _ _ Hr) as Hp. destruct p; try done; cbn in Hs.
  - destruct (retryAfterLogged _ _ _) as [[wait b] table]. injection Hs as <-. destruct (0 <? wait); by plain.
  - injection Hs as <-. destruct (globalOk i); by plain.
  - injection Hs as <-. plain. split; [apply (ri_gen _ Hi)|done].
  - injection Hs as <-. destruct (slot i && _); by plain.
  - injection Hs as <-. plain. destruct Hp as [Hg Hle]. pose proof (ri_len _ Hi) as Hl. split_and!; [done|done|lia|].
    intros [_ Hc]%andb_true_iff. exists (passwordHash (srv w)). split; [|done]. rewrite <- last_lookup. apply (ri_last _ Hi).
  - injection Hs as <-. by plain.
  - injection Hs as <-. destruct Hp as (Hg & Hle & Hu & Hc). destruct good; plain; [|done]. split_and!; auto.
  - injection Hs as <-. destruct (_ =? _); by plain.
  - destruct (random i) as [token|]; [|injection Hs as <-; by plain].
    destruct (issueToken gen token (now i) (srv w)) as [[cs s']|] eqn:Ei; [|injection Hs as <-; by plain].
    injection Hs as <-. apply issueToken_spec in Ei as [<- (s1 & Hsw & ->)]. by eapply open_session.
Qed.

Lemma other_holder_free w holds locked tid p0 c0 t p c :
  mutex holds locked (requests w) -> requests w !! tid = Some (p0, c0) -> holds p0 = true ->
  requests w !! t = Some (p, c) -> t <> tid -> holds p = false.
Proof.
  intros Hm Hr Hh Ht Hne. destruct (holds p) eqn:E; [|done]. destruct (Hm _ _ _ Hr Hh) as [_ Hu]. by rewrite (Hu _ _ _ Ht E) in Hne.
Qed.

Lemma accepted_snoc hs h n pw : accepted hs n pw -> accepted (hs ++ [h]) n pw.
Proof. intros (x & Hx & Hc). exists x. split; [|done]. by apply lookup_app_l_Some. Qed.

(** The hash becomes the one in effect. *)
Lemma install_step w tid hash :
  rot_inv w -> requests w !! tid = Some (RotStored hash, []) ->
  rot_inv (record_install hash (goto tid RotInstalled [] (set_hash hash (srv w)) w)).
Proof.
  intros Hi Hr. destruct (ri_requests _ Hi _ _ _ Hr) as [Hsub Hlen]. destruct (Hi) as [I1 I2 I3 I4 I5 I6 I7 I8 I9].
  destruct (I1 _ _ _ Hr eq_refl) as [Hmu _].
  split; cbn; rewrite ?length_app; cbn.
  - eapply mutex_goto; [done|done|by apply lock_step_same].
  - eapply mutex_goto; [done|done|by apply lock_step_same].
  - intros Hf. congruence.
  - lia.
  - by rewrite last_snoc.
  - done.
  - intros t q c Hq. apply lookup_insert_Some in Hq as [[_ [= <- <-]]|[Hne Hq]].
    { split; [done|]. rewrite length_app. simpl. lia. }
    pose proof (other_holder_free w _ _ _ _ _ _ _ _ I1 Hr eq_refl Hq ltac:(congruence)) as Hnh.
    pose proof (other_holder_free w _ _ _ _ _ _ _ _ I2 Hr eq_refl Hq ltac:(congruence)) as Hnp.
    specialize (I7 _ _ _ Hq). destruct q; simpl in *; try done.
    + destruct I7 as (? & ? & ? & Hacc). split_and!; try done. intros Hg. by apply accepted_snoc, Hacc.
    + destruct I7 as (? & ? & ? & Hacc). split_and!; try done. intros Hg. by apply accepted_snoc, Hacc.
    + destruct I7 as (? & ? & ? & Hacc). split_and!; try done. by apply accepted_snoc.
    + destruct I7 as (? & ? & ? & Hacc). split_and!; try done. by apply accepted_snoc.
  - intros t e Ht. destruct (I8 t e Ht) as (n & pw & Hb & Hn & Hacc). exists n, pw. split_and!; try done. by apply accepted_snoc.
  - intros e k He. rewrite Hsub in He. done.
Qed.

(** Every session is revoked. *)
Lemma revoke_step w tid cs s' :
  rot_inv w -> requests w !! tid = Some (RotBumped, []) -> revokeAll (srv w) = (cs, s') ->
  rot_inv (record_revocation (goto tid RotRevoked cs s' w)).
Proof.
  intros Hi Hr Hv. destruct (ri_requests _ Hi _ _ _ Hr) as [Hsub Hlen]. destruct (Hi) as [I1 I2 I3 I4 I5 I6 I7 I8 I9].
  destruct (I1 _ _ _ Hr eq_refl) as [Hmu _]. apply revokeAll_spec in Hv as [Hsw Hemp].
  apply swept_quiet in Hsw as (_ & E2 & E3 & E4 & E5 & E6). cbn in E2, E3, E4, E5, E6.
  split; cbn.
  - eapply mutex_goto; [done|done|rewrite E4; by apply lock_step_same].
  - eapply mutex_goto; [done|done|rewrite E5; by apply lock_step_same].
  - intros _. lia.
  - lia.
  - by rewrite E2.
  - rewrite E3, I6. unfold wrapu64. rewrite Z.add_mod_idemp_l by lia. f_equal. lia.
  - intros t q c Hq. apply lookup_insert_Some in Hq as [[_ [= <- <-]]|[Hne Hq]]; [by intros _|].
    pose proof (other_holder_free w _ _ _ _ _ _ _ _ I1 Hr eq_refl Hq ltac:(congruence)) as Hnh.
    pose proof (other_holder_free w _ _ _ _ _ _ _ _ I2 Hr eq_refl Hq ltac:(congruence)) as Hnp.
    specialize (I7 _ _ _ Hq). destruct q; simpl in *; try done; destruct I7 as [? ?]; split_and!; try done; try lia; naive_solver lia.
  - intros t e Ht. by rewrite Hemp in Ht.
  - intros e k He. rewrite E6, Hsub in He. done.
Qed.

(** The new hash is stored and the push subscriptions are gone. *)
Lemma wipe_step w tid hash :
  rot_inv w -> requests w !! tid = Some (RotBarrier hash, []) ->
  rot_inv (goto tid (RotStored hash) [] (SetSettingAndWipePushSubscriptions hash (srv w)) w).
Proof.
  intros Hi Hr. eapply quiet_step; [exact Hi|exact Hr|by apply lock_step_same|by apply lock_step_same|done|done|done| |by left|].
  - apply map_empty_subseteq.
  - split; [done|]. by apply (ri_requests _ Hi _ _ _ Hr).
Qed.

Lemma stepRotate_inv w i tid p w' :
  rot_inv w -> requests w !! tid = Some (p, []) -> stepRotate i tid p w = Some w' -> rot_inv w'.
Proof.
  intros Hi Hr Hs. pose proof (ri_requests _ Hi _ _ _ Hr) as Hp. destruct p; try done; cbn in Hs.
  - destruct (authed _ _ _) as [[b cs] s'] eqn:Ea. injection Hs as <-. apply authed_swept in Ea as [Hsw _].
    destruct b; by eapply swept_step.
  - injection Hs as <-. destruct (0 <? _); by plain.
  - injection Hs as <-. destruct (globalOk i); by plain.
  - destruct (passwordMu (srv w)) eqn:Em; injection Hs as <-; [by plain|].
    eapply quiet_step; [exact Hi|exact Hr|by rewrite Em|by apply lock_step_same|done|done|done|done| |].
    + right. by apply (ri_free _ Hi).
    + intros _. by apply (ri_free _ Hi).
  - injection Hs as <-. destruct (0 <? _); by plain.
  - destruct (authed _ _ _) as [[b cs] s'] eqn:Ea. injection Hs as <-. apply authed_swept in Ea as [Hsw _].
    destruct b; by eapply swept_step.
  - injection Hs as <-. destruct (slot i && _); by plain.
  - injection Hs as <-. by plain.
  - injection Hs as <-. by plain.
  - injection Hs as <-. destruct good; by plain.
  - injection Hs as <-. destruct (_ || _); [by plain|]. destruct (newHash i); by plain.
  - destruct (pushMutationMu (srv w)) eqn:Em; [done|]. injection Hs as <-.
    eapply quiet_step; [exact Hi|exact Hr|by apply lock_step_same|by rewrite Em|done|done|done|done|by left|]. exact Hp.
  - injection Hs as <-. destruct (storeOk i); [by apply wipe_step|by plain].
  - injection Hs as <-. by apply install_step.
  - injection Hs as <-. plain. exact Hp.
  - destruct (revokeAll (srv w)) as [cs s'] eqn:Er. injection Hs as <-. by eapply revoke_step.
  - injection Hs as <-. by plain.
  - injection Hs as <-.
    eapply quiet_step; [exact Hi|exact Hr|by apply lock_step_same|done|done|done|done|done|by left|]. exact Hp.
  - injection Hs as <-. eapply quiet_step; [exact Hi|exact Hr|done|by apply lock_step_same|done|done|done|done| |done].
    right. by apply Hp.
Qed.

Lemma bornUnder_current w t : rot_inv w -> is_Some (tokens (srv w) !! t) ->
  (revocations w <= bornUnder (Some t) w < length (hashes w))%nat.
Proof.
  intros Hi [e Ht]. destruct (ri_tokens _ Hi _ _ Ht) as (n & pw & Hb & Hn & (h & Hh & _)). simpl. rewrite Hb.
  apply lookup_lt_Some in Hh. lia.
Qed.

(** A subscription is planted by a session of the current password. *)
Lemma plant_step w tid endpoint k ks under s' :
  rot_inv w -> requests w !! tid = Some (SubReauthed endpoint ks under, []) -> UpsertPushSubscription endpoint k (srv w) = Some s' ->
  rot_inv (record_planted endpoint under (goto tid (SubUnlock 204) [] s' w)).
Proof.
  intros Hi Hr Hu. pose proof (ri_requests _ Hi _ _ _ Hr) as Hun. simpl in Hun. unfold UpsertPushSubscription in Hu.
  destruct (_ <=? _); [done|]. injection Hu as <-. destruct (Hi) as [I1 I2 I3 I4 I5 I6 I7 I8 I9]. split; cbn; try done.
  - eapply mutex_goto; [done|done|by apply lock_step_same].
  - eapply mutex_goto; [done|done|by apply lock_step_same].
  - intros t q c Hq. apply lookup_insert_Some in Hq as [[_ [= <- <-]]|[Hne Hq]]; [done|].
    pose proof (other_holder_free w _ _ _ _ _ _ _ _ I2 Hr eq_refl Hq ltac:(congruence)) as Hnp.
    specialize (I7 _ _ _ Hq). destruct q; simpl in *; done.
  - intros e x [[<- _]|[Hne He]]%lookup_insert_Some; [by rewrite lookup_insert_eq|]. rewrite lookup_insert_ne by done. by apply (I9 e x).
Qed.

Lemma stepPush_inv w i tid p w' :
  rot_inv w -> requests w !! tid = Some (p, []) -> stepPush i tid p w = Some w' -> rot_inv w'.
Proof.
  intros Hi Hr Hs. pose proof (ri_requests _ Hi _ _ _ Hr) as Hp. destruct p; try done; cbn in Hs.
  - destruct (authed _ _ _) as [[b cs] s'] eqn:Ea. injection Hs as <-. apply authed_swept in Ea as [Hsw _].
    destruct b; by eapply swept_step.
  - destruct (pushMutationMu (srv w)) eqn:Em; injection Hs as <-; [by plain|].
    eapply quiet_step; [exact Hi|exact Hr|by apply lock_step_same|by rewrite Em|done|done|done|done|by left|done].
  - destruct (authed _ _ _) as [[b cs] s'] eqn:Ea. injection Hs as <-. apply authed_swept in Ea as [Hsw Hb].
    destruct b; [|by eapply swept_step]. destruct (Hb eq_refl) as (-> & t & -> & Ht).
    eapply swept_step; [done|done|done|done|done|]. by apply bornUnder_current.
  - destruct (storeOk i); [|injection Hs as <-; by plain]. cbn in Hs. destruct keys as [k|].
    + destruct (UpsertPushSubscription endpoint k (srv w)) as [s'|] eqn:Eu; injection Hs as <-; [by eapply plant_step|by plain].
    + injection Hs as <-. eapply quiet_step; [exact Hi|exact Hr|by apply lock_step_same|by apply lock_step_same|done|done|done| |by left|done].
      apply delete_subseteq.
  - injection Hs as <-. eapply quiet_step; [exact Hi|exact Hr|by apply lock_step_same|done|done|done|done|done|by left|done].
Qed.

Lemma stepLogout_inv w i tid p pend w' :
  rot_inv w -> requests w !! tid = Some (p, pend) -> stepLogout i tid p pend w = Some w' -> rot_inv w'.
Proof.
  intros Hi Hr Hs. destruct p; try done; cbn in Hs.
  - destruct (pushMutationMu (srv w)) eqn:Em; [done|]. injection Hs as <-.
    eapply quiet_step; [exact Hi|exact Hr|by apply lock_step_same|by rewrite Em|done|done|done|done|by left|done].
  - case_bool_decide; [injection Hs as <-; by plain|].
    destruct (authed _ _ _) as [[b cs] s'] eqn:Ea. injection Hs as <-. apply authed_swept in Ea as [Hsw _]. by eapply swept_step.
  - destruct cookie as [t|]; [|injection Hs as <-; by plain].
    destruct (deleteTokenLocked t (srv w)) as [cs s'] eqn:Ed. injection Hs as <-. apply deleteTokenLocked_swept in Ed as [Hsw _].
    by eapply swept_step.
  - injection Hs as <-. destruct deletePush; [|by plain]. destruct (storeOk i); [|by plain].
    eapply quiet_step; [exact Hi|exact Hr|by apply lock_step_same|by apply lock_step_same|done|done|done|apply delete_subseteq|by left|done].
  - injection Hs as <-. by plain.
  - injection Hs as <-. eapply quiet_step; [exact Hi|exact Hr|by apply lock_step_same|done|done|done|done|done|by left|done].
  - injection Hs as <-. by plain.
Qed.

Lemma register_ws_plain token now s id s' : registerWSCancel token now s = Some (id, s') ->
  id = wsNextID s /\ s' = set_wsCancels (<[token := default [] (wsCancels s !! token) ++ [id]]> (wsCancels s)) (id + 1) s /\ is_Some (tokens s !! token).
Proof.
  unfold registerWSCancel. case_bool_decide; [done|]. destruct (tokens s !! token) as [e|]; [|done]. destruct (after now e); [done|].
  intros [= <- <-]. eauto.
Qed.

Lemma register_stream_plain token now s id s' : registerStreamCancel token now s = Some (id, s') ->
  id = streamNextID s /\ s' = set_streamCancels (<[token := default [] (streamCancels s !! token) ++ [id]]> (streamCancels s)) (id + 1) s /\ is_Some (tokens s !! token).
Proof.
  unfold registerStreamCancel. case_bool_decide; [done|]. destruct (tokens s !! token) as [e|]; [|done]. destruct (after now e); [done|].
  intros [= <- <-]. eauto.
Qed.

Lemma stepLive_inv w i tid p w' :
  rot_inv w -> requests w !! tid = Some (p, []) -> stepLive i tid p w = Some w' -> rot_inv w'.
Proof.
  intros Hi Hr Hs. destruct p; try done; cbn in Hs.
  - destruct (authed _ _ _) as [[b cs] s'] eqn:Ea. injection Hs as <-. apply authed_swept in Ea as [Hsw _].
    destruct b; by eapply swept_step.
  - destruct (registerWSCancel _ _ _) as [[id s']|] eqn:Er; injection Hs as <-; [|by plain].
    apply register_ws_plain in Er as (-> & -> & _). by plain.
  - destruct (closes i || _); [injection Hs as <-; by plain|].
    destruct (tokenValid _ _ _) as [[b cs] s'] eqn:Ea. injection Hs as <-. apply tokenValid_swept in Ea as [Hsw _].
    destruct b; by eapply swept_step.
  - injection Hs as <-. by plain.
  - destruct (authed _ _ _) as [[b cs] s'] eqn:Ea. injection Hs as <-. apply authed_swept in Ea as [Hsw _].
    destruct b; by eapply swept_step.
  - destruct (registerStreamCancel _ _ _) as [[id s']|] eqn:Er; injection Hs as <-; [|by plain].
    apply register_stream_plain in Er as (-> & -> & _). by plain.
  - destruct (closes i || _); [injection Hs as <-; by plain|done].
Qed.

(** The handlers of [advance], with what each is called on. *)
Lemma advance_cases i tid w w' :
  advance i tid w = Some w' ->
  exists p pend, requests w !! tid = Some (p, pend) /\
    ((exists c cs, pend = c :: cs /\ defers p = false /\ w' = fire tid p c cs w) \/
     (pend = [] /\ (stepLogin cfgUsername i tid p w = Some w' \/ stepRotate i tid p w = Some w' \/ stepPush i tid p w = Some w' \/ stepLive i tid p w = Some w')) \/
     ((pend = [] \/ defers p = true) /\ stepLogout i tid p pend w = Some w')).
Proof.
  unfold Sessions.advance. destruct (requests w !! tid) as [[p pend]|]; [|done]. intros Ha. exists p, pend. split; [done|].
  destruct pend as [|c cs].
  - destruct p; try done; try (right; left; split; [done|]; tauto); right; right; auto.
  - destruct (defers p) eqn:Ed; [right; right; auto|]. left. exists c, cs. split_and!; [done|done|congruence].
Qed.

Lemma advance_inv w i tid w' :
  rot_inv w -> Z.of_nat (revocations w) < 2 ^ 64 -> advance i tid w = Some w' -> rot_inv w'.
Proof.
  intros Hi Hb (p & pend & Hr & Hc)%advance_cases.
  destruct Hc as [(c & cs & -> & Hd & ->)|[[-> [Hs|[Hs|[Hs|Hs]]]]|[_ Hs]]].
  - destruct (Hi) as [I1 I2 I3 I4 I5 I6 I7 I8 I9]. split; cbn; try done.
    + eapply mutex_goto; [done|done|by apply lock_step_same].
    + eapply mutex_goto; [done|done|by apply lock_step_same].
    + intros t q d Hq. apply lookup_insert_Some in Hq as [[_ [= -> ->]]|[_ Hq]]; by eapply I7.
  - by eapply stepLogin_inv.
  - by eapply stepRotate_inv.
  - by eapply stepPush_inv.
  - by eapply stepLive_inv.
  - by eapply stepLogout_inv.
Qed.

Lemma step_revocations w w' : step w w' -> (revocations w <= revocations w')%nat.
Proof.
  intros Hs. destruct Hs as [w tid p _ _|w i tid w' (p & pend & _ & Hc)%advance_cases]; [done|].
  destruct Hc as [(c & cs & -> & Hd & ->)|[[-> [Hs|[Hs|[Hs|Hs]]]]|[_ Hs]]]; [done|..];
    (destruct p; try done; cbn in Hs; repeat case_match; simplify_eq; simpl; lia).
Qed.

Lemma arrive_inv w tid p : rot_inv w -> arrival p = true -> requests w !! tid = None -> rot_inv (goto tid p [] (srv w) w).
Proof.
  intros [I1 I2 I3 I4 I5 I6 I7 I8 I9] Ha Hn. split; cbn; try done.
  - apply mutex_arrive; [done|done|by destruct p].
  - apply mutex_arrive; [done|done|by destruct p].
  - intros t q c Hq. apply lookup_insert_Some in Hq as [[_ [= <- <-]]|[_ Hq]]; [by destruct p|by eapply I7].
Qed.

Lemma newWorld_inv ttl hash stored subs : rot_inv (newWorld ttl hash stored subs).
Proof.
  split; cbn; try done. intros e k He. rewrite lookup_empty. simpl. lia.
Qed.

Lemma sessions_reachable_inv ttl hash stored subs w :
  Sessions.reachable cfgUsername ttl hash stored subs w -> Z.of_nat (revocations w) < 2 ^ 64 -> rot_inv w.
Proof.
  revert w. apply (rtc_ind_r (fun w => Z.of_nat (revocations w) < 2 ^ 64 -> rot_inv w)); [intros _; apply newWorld_inv|].
  intros w w' _ Hs IH Hb.
  pose proof (step_revocations _ _ Hs) as Hle. specialize (IH ltac:(lia)).
  destruct Hs as [w tid p Ha Hn|w i tid w' Ha]; [by apply arrive_inv|]. eapply advance_inv; [exact IH|lia|exact Ha].
Qed.

(** ** The registry of sockets and streams *)

(** The cancel function is due: called, or held by a request that will call it. *)
Definition due (c : cancelFunc) (w : World) : Prop :=
  c ∈ cancelled w \/ exists tid p pend, requests w !! tid = Some (p, pend) /\ c ∈ pend.

Definition registered (m : gmap gostring (list Z)) (token : gostring) (id : Z) : Prop := exists ids, m !! token = Some ids /\ id ∈ ids.

Definition socket_of (p : pc) : option (gostring * Z) :=
  match p with WsLive t id | WsClosing t id => Some (t, id) | _ => None end.
Definition stream_of (p : pc) : option (gostring * Z) :=
  match p with StreamLive t id => Some (t, id) | _ => None end.

(** What a step does to the registries: a request that neither registers nor
    unregisters keeps them up to a sweep whose cancel functions it takes over. *)
Definition kept (s s' : Server) (cs : list cancelFunc) : Prop :=
  exists s1, swept s s1 cs /\ wsCancels s' = wsCancels s1 /\ streamCancels s' = streamCancels s1 /\
    (forall t, is_Some (tokens s1 !! t) -> is_Some (tokens s' !! t)) /\
    wsNextID s' = wsNextID s1 /\ streamNextID s' = streamNextID s1.

Inductive reg_effect (tid : nat) (p0 : pc) (pend : list cancelFunc) (w w' : World) : Prop :=
  | eff_fire c cs : pend = c :: cs -> w' = fire tid p0 c cs w -> reg_effect tid p0 pend w w'
  | eff_keep p cs : requests w' = <[tid := (p, cs)]> (requests w) -> cancelled w' = cancelled w ->
      pend ⊆ cs -> kept (srv w) (srv w') cs -> socket_of p = socket_of p0 -> stream_of p = stream_of p0 -> reg_effect tid p0 pend w w'
  | eff_register_ws token now id s' : pend = [] -> registerWSCancel token now (srv w) = Some (id, s') ->
      socket_of p0 = None -> stream_of p0 = None -> w' = goto tid (WsLive token id) [] s' w -> reg_effect tid p0 pend w w'
  | eff_unregister_ws token id : pend = [] -> p0 = WsClosing token id ->
      w' = goto tid (Answered 0) [] (unregisterWS token id (srv w)) w -> reg_effect tid p0 pend w w'
  | eff_register_stream token now id s' : pend = [] -> registerStreamCancel token now (srv w) = Some (id, s') ->
      socket_of p0 = None -> stream_of p0 = None -> w' = goto tid (StreamLive token id) [] s' w -> reg_effect tid p0 pend w w'
  | eff_unregister_stream token id : pend = [] -> p0 = StreamLive token id ->
      w' = goto tid (Answered 0) [] (unregisterStream token id (srv w)) w -> reg_effect tid p0 pend w w'.

Lemma kept_same s s' cs :
  (tokens s', wsCancels s', streamCancels s', wsNextID s', streamNextID s') = (tokens s, wsCancels s, streamCancels s, wsNextID s, streamNextID s) ->
  kept s s' cs.
Proof. intros [= E1 E2 E3 E4 E5]. exists s. rewrite E1. split_and!; try done. apply swept_refl. Qed.

Lemma kept_swept s s' cs : swept s s' cs -> kept s s' cs.
Proof. intros Hs. by exists s'. Qed.

Ltac sub := first [reflexivity | apply list_subseteq_nil].
Ltac same := eapply eff_keep; [reflexivity|reflexivity|sub|by apply kept_same|done|done].
Ltac swept_by lem :=
  match goal with H : _ = (_, ?s') |- _ => apply lem in H as [?Hsw _]; (eapply eff_keep; [reflexivity|reflexivity|sub|by apply kept_swept| |]) end.

Lemma advance_effect i tid w w' :
  advance i tid w = Some w' -> exists p0 pend, requests w !! tid = Some (p0, pend) /\ reg_effect tid p0 pend w w'.
Proof.
  intros (p & pend & Hr & Hc)%advance_cases. exists p, pend. split; [done|].
  destruct Hc as [(c & cs & -> & Hd & ->)|[[-> [Hs|[Hs|[Hs|Hs]]]]|[Hpd Hs]]]; [by eapply eff_fire|..].
  - destruct p; try done; cbn in Hs; try (repeat case_match; simplify_eq; same).
    destruct (random i) as [token|]; [|simplify_eq; same].
    destruct (issueToken gen token (now i) (srv w)) as [[cs s']|] eqn:Ei; [|simplify_eq; same]. injection Hs as <-.
    apply issueToken_spec in Ei as [_ (s1 & Hsw & ->)].
    apply (eff_keep tid _ _ w _ (Answered 204) cs); [done|done|sub| |done|done].
    exists s1. split_and!; try done. intros t Ht. cbn. by apply lookup_insert_is_Some'; right.
  - destruct p; try done; cbn in Hs; try (repeat case_match; simplify_eq; same).
    + destruct (authed _ _ _) as [[b cs] s'] eqn:Ea. injection Hs as <-. swept_by authed_swept; by destruct b.
    + destruct (authed _ _ _) as [[b cs] s'] eqn:Ea. injection Hs as <-. swept_by authed_swept; by destruct b.
    + destruct (revokeAll (srv w)) as [cs s'] eqn:Er. injection Hs as <-. apply revokeAll_spec in Er as [[? ? ? ? ? ? Hrest ? ?] _]. cbn in *. injection Hrest as ? ? ? ? ?.
      apply (eff_keep tid _ _ w _ RotRevoked cs); [done|done|sub| |done|done].
      exists (set_credGen (credGen (srv w)) s'). split_and!; try done. split; cbn; try done. congruence.
  - destruct p; try done; cbn in Hs; try (repeat case_match; simplify_eq; same).
    + destruct (authed _ _ _) as [[b cs] s'] eqn:Ea. injection Hs as <-. swept_by authed_swept; by destruct b.
    + destruct (authed _ _ _) as [[b cs] s'] eqn:Ea. injection Hs as <-. swept_by authed_swept; by destruct b.
    + repeat case_match; simplify_eq; try same. unfold UpsertPushSubscription in *. case_match; simplify_eq.
      eapply eff_keep; [reflexivity|reflexivity|sub|by apply kept_same|done|done].
  - destruct p; try done; cbn in Hs.
    + destruct (authed _ _ _) as [[b cs] s'] eqn:Ea. injection Hs as <-. swept_by authed_swept; by destruct b.
    + destruct (registerWSCancel _ _ _) as [[id s']|] eqn:Er; injection Hs as <-; [by eapply eff_register_ws|same].
    + destruct (closes i || _); [injection Hs as <-; same|].
      destruct (tokenValid _ _ _) as [[b cs] s'] eqn:Ea. injection Hs as <-. swept_by tokenValid_swept; by destruct b.
    + injection Hs as <-. by eapply eff_unregister_ws.
    + destruct (authed _ _ _) as [[b cs] s'] eqn:Ea. injection Hs as <-. swept_by authed_swept; by destruct b.
    + destruct (registerStreamCancel _ _ _) as [[id s']|] eqn:Er; injection Hs as <-; [by eapply eff_register_stream|same].
    + destruct (closes i || _); [|done]. injection Hs as <-. by eapply eff_unregister_stream.
  - destruct p; try done; cbn in Hs; destruct Hpd as [->|Hd]; try done;
      try (repeat case_match; simplify_eq; same).
    + repeat case_match; simplify_eq; try same. swept_by authed_swept; done.
    + repeat case_match; simplify_eq; try same. swept_by deleteTokenLocked_swept; done.
Qed.

(** [owns] tells which registration of the registry [m] a request owns. *)
Record reg_inv (owns : pc -> option (gostring * Z)) (mk : Z -> cancelFunc) (m : gmap gostring (list Z)) (next : Z) (w : World) : Prop := {
  rg_tokens : forall t ids, m !! t = Some ids -> is_Some (tokens (srv w) !! t);
  rg_next : forall tid p c t id, requests w !! tid = Some (p, c) -> owns p = Some (t, id) -> id < next;
  rg_unique : forall tid p c t id tid' p' c' t', requests w !! tid = Some (p, c) -> owns p = Some (t, id) ->
    requests w !! tid' = Some (p', c') -> owns p' = Some (t', id) -> tid' = tid;
  rg_live : forall tid p c t id, requests w !! tid = Some (p, c) -> owns p = Some (t, id) -> registered m t id \/ due (mk id) w }.

Section registry.
Variables (owns : pc -> option (gostring * Z)) (mk : Z -> cancelFunc).
Abbreviation reg := (reg_inv owns mk).

Lemma due_goto c w w' tid p0 pend p cs :
  requests w !! tid = Some (p0, pend) -> requests w' = <[tid := (p, cs)]> (requests w) -> cancelled w ⊆ cancelled w' ->
  (c ∈ pend -> c ∈ cs \/ c ∈ cancelled w') -> due c w -> due c w'.
Proof.
  intros Hr Hr' Hc Hp [Hin|(t & q & qs & Hq & Hin)]; [left; by apply Hc|].
  destruct (decide (t = tid)) as [->|Hne].
  - simplify_eq. destruct (Hp Hin) as [Hcs|?]; [|by left]. right. exists tid, p, cs. by rewrite Hr', lookup_insert_eq.
  - right. exists t, q, qs. by rewrite Hr', lookup_insert_ne.
Qed.

Lemma reg_goto m m' next w w' tid p0 pend p cs :
  reg m next w -> requests w !! tid = Some (p0, pend) -> requests w' = <[tid := (p, cs)]> (requests w) ->
  cancelled w ⊆ cancelled w' -> (forall c, c ∈ pend -> c ∈ cs \/ c ∈ cancelled w') -> owns p = owns p0 ->
  (forall t ids, m !! t = Some ids -> m' !! t = Some ids \/ forall id, id ∈ ids -> mk id ∈ cs) ->
  (forall t ids, m' !! t = Some ids -> is_Some (tokens (srv w') !! t)) ->
  reg m' next w'.
Proof.
  intros [R1 R2 R3 R4] Hr Hr' Hc Hp Ho Hm Ht.
  assert (forall t q c x, requests w' !! t = Some (q, c) -> owns q = Some x -> exists q0 c0, requests w !! t = Some (q0, c0) /\ owns q0 = Some x) as Hback.
  { intros t q c x Hq Hx. rewrite Hr' in Hq. apply lookup_insert_Some in Hq as [[<- [= -> ->]]|[_ Hq]]; [|by exists q, c].
    exists p0, pend. by rewrite <- Ho. }
  split; [done| | |].
  - intros t q c u id Hq Hx. destruct (Hback _ _ _ _ Hq Hx) as (q0 & c0 & Hq0 & Hx0). by eapply R2.
  - intros t q c u id t' q' c' u' Hq Hx Hq' Hx'. destruct (Hback _ _ _ _ Hq Hx) as (q0 & c0 & Hq0 & Hx0).
    destruct (Hback _ _ _ _ Hq' Hx') as (q1 & c1 & Hq1 & Hx1). by eapply R3.
  - intros t q c u id Hq Hx. destruct (Hback _ _ _ _ Hq Hx) as (q0 & c0 & Hq0 & Hx0).
    destruct (R4 _ _ _ _ _ Hq0 Hx0) as [(ids & Hi & Hin)|Hd]; [|right; exact (due_goto (mk id) w w' tid p0 pend p cs Hr Hr' Hc (Hp _) Hd)].
    destruct (Hm _ _ Hi) as [Hi'|Hcs]; [left; by exists ids|]. right. right. exists tid, p, cs. rewrite Hr', lookup_insert_eq. auto.
Qed.

Lemma reg_register m next w tid p0 p token s' :
  reg m next w -> requests w !! tid = Some (p0, []) -> owns p0 = None -> owns p = Some (token, next) ->
  tokens s' = tokens (srv w) -> is_Some (tokens (srv w) !! token) ->
  reg (<[token := default [] (m !! token) ++ [next]]> m) (next + 1) (goto tid p [] s' w).
Proof.
  intros [R1 R2 R3 R4] Hr Ho Hp Ht Hin.
  assert (forall t q c u id, requests w !! t = Some (q, c) -> owns q = Some (u, id) -> id < next) as Hlt by done.
  split; cbn.
  - intros t ids [[<- _]|[_ Hi]]%lookup_insert_Some; rewrite Ht; [done|by eapply R1].
  - intros t q c u id Hq Hx. apply lookup_insert_Some in Hq as [[_ [= <- <-]]|[_ Hq]]; [|specialize (R2 _ _ _ _ _ Hq Hx); lia].
    rewrite Hp in Hx. injection Hx as _ <-. lia.
  - intros t q c u id t' q' c' u' Hq Hx Hq' Hx'.
    apply lookup_insert_Some in Hq. apply lookup_insert_Some in Hq'.
    destruct Hq as [[<- [= <- <-]]|[Hne Hq]], Hq' as [[<- [= <- <-]]|[Hne' Hq']]; [done|..].
    + rewrite Hp in Hx. injection Hx as _ <-. specialize (R2 _ _ _ _ _ Hq' Hx'). lia.
    + rewrite Hp in Hx'. injection Hx' as _ <-. specialize (R2 _ _ _ _ _ Hq Hx). lia.
    + by eapply R3.
  - intros t q c u id Hq Hx. apply lookup_insert_Some in Hq as [[_ [= <- <-]]|[Hne Hq]].
    + rewrite Hp in Hx. injection Hx as <- <-. left. eexists. rewrite lookup_insert_eq. split; [done|]. apply elem_of_app. right. by left.
    + destruct (R4 _ _ _ _ _ Hq Hx) as [(ids & Hi & Hii)|Hd].
      * left. destruct (decide (u = token)) as [->|Hn].
        -- eexists. rewrite lookup_insert_eq, Hi. split; [done|]. apply elem_of_app. by left.
        -- exists ids. by rewrite lookup_insert_ne.
      * right. eapply (due_goto _ w _ tid p0 [] p []); [done|done|done|set_solver|done].
Qed.

Lemma unregister_other token id m t j : (t, j) <> (token, id) -> registered m t j -> registered (unregister token id m) t j.
Proof.
  intros Hne (ids & Hi & Hin). unfold unregister. destruct (decide (t = token)) as [->|Hn].
  - rewrite Hi. assert (j ∈ without id ids) as Hw by (apply list_elem_of_filter; split; [congruence|done]).
    case_bool_decide as Hb; [rewrite Hb in Hw; by apply elem_of_nil in Hw|]. eexists. by rewrite lookup_insert_eq.
  - exists ids. split; [|done]. destruct (m !! token); [|done]. case_bool_decide; [by rewrite lookup_delete_ne|by rewrite lookup_insert_ne].
Qed.

Lemma reg_unregister m next w tid p0 p token id s' :
  reg m next w -> requests w !! tid = Some (p0, []) -> owns p0 = Some (token, id) -> owns p = None ->
  tokens s' = tokens (srv w) -> reg (unregister token id m) next (goto tid p [] s' w).
Proof.
  intros [R1 R2 R3 R4] Hr Ho Hp Ht.
  assert (forall t q c x, <[tid := (p, [])]> (requests w) !! t = Some (q, c) -> owns q = Some x -> t <> tid /\ requests w !! t = Some (q, c)) as Hback.
  { intros t q c x Hq Hx. apply lookup_insert_Some in Hq as [[<- [= <- <-]]|[Hne Hq]]; [congruence|auto]. }
  split; cbn.
  - intros t ids Hi. rewrite Ht. unfold unregister in Hi. destruct (m !! token) as [js|] eqn:Em; [|by eapply R1].
    case_bool_decide; [apply lookup_delete_Some in Hi as [_ Hi]; by eapply R1|].
    apply lookup_insert_Some in Hi as [[<- _]|[_ Hi]]; by eapply R1.
  - intros t q c u j Hq Hx. destruct (Hback _ _ _ _ Hq Hx). by eapply R2.
  - intros t q c u j t' q' c' u' Hq Hx Hq' Hx'. destruct (Hback _ _ _ _ Hq Hx), (Hback _ _ _ _ Hq' Hx'). by eapply R3.
  - intros t q c u j Hq Hx. destruct (Hback _ _ _ _ Hq Hx) as [Hne Hq0]. destruct (R4 _ _ _ _ _ Hq0 Hx) as [Hreg|Hd].
    + left. apply unregister_other; [|done]. intros [= -> ->]. by rewrite (R3 _ _ _ _ _ _ _ _ _ Hr Ho Hq0 Hx) in Hne.
    + right. eapply (due_goto _ w _ tid p0 [] p []); [done|done|done|set_solver|done].
Qed.

Lemma reg_arrive m next w tid p : reg m next w -> requests w !! tid = None -> owns p = None -> reg m next (goto tid p [] (srv w) w).
Proof.
  intros [R1 R2 R3 R4] Hr Hp.
  assert (forall t q c x, <[tid := (p, [])]> (requests w) !! t = Some (q, c) -> owns q = Some x -> requests w !! t = Some (q, c)) as Hback.
  { intros t q c x Hq Hx. apply lookup_insert_Some in Hq as [[<- [= <- <-]]|[Hne Hq]]; [congruence|auto]. }
  split; cbn; [done| | |].
  - intros t q c u j Hq Hx. eapply R2; eauto.
  - intros t q c u j t' q' c' u' Hq Hx Hq' Hx'. eapply R3; eauto.
  - intros t q c u j Hq Hx. destruct (R4 _ _ _ _ _ (Hback _ _ _ _ Hq Hx) Hx) as [?|[Hc|(t' & q' & qs & Hq' & Hin)]]; [by left|right; by left|].
    right. right. exists t', q', qs. split; [|done]. cbn. rewrite lookup_insert_ne; [done|]. intros ->. congruence.
Qed.
End registry.

Definition live_inv (w : World) : Prop :=
  reg_inv socket_of Socket (wsCancels (srv w)) (wsNextID (srv w)) w /\
  reg_inv stream_of Stream (streamCancels (srv w)) (streamNextID (srv w)) w.

Lemma kept_reg s s' cs :
  kept s s' cs ->
  (forall t ids, wsCancels s !! t = Some ids -> is_Some (tokens s !! t)) -> (forall t ids, streamCancels s !! t = Some ids -> is_Some (tokens s !! t)) ->
  (forall t ids, wsCancels s' !! t = Some ids -> is_Some (tokens s' !! t)) /\ (forall t ids, streamCancels s' !! t = Some ids -> is_Some (tokens s' !! t)).
Proof.
  intros (s1 & [A1 A2 A3 A4 A5 A6 A7 A8 A9] & E1 & E2 & Ht & _ & _) Hw Hs. rewrite E1, E2.
  split; intros t ids Hi; apply Ht; destruct (tokens s1 !! t) as [e|] eqn:E; try done;
    destruct (A6 t E) as [Hn|[Hn1 Hn2]]; try congruence.
  - destruct (Hw t ids ltac:(by eapply lookup_weaken)). congruence.
  - destruct (Hs t ids ltac:(by eapply lookup_weaken)). congruence.
Qed.

Lemma live_step w i tid w' : live_inv w -> advance i tid w = Some w' -> live_inv w'.
Proof.
  intros [Lw Ls] (p0 & pend & Hr & He)%advance_effect.
  destruct He as [c cs -> ->|p cs Hq Hc Hsub Hk Ho1 Ho2|token n id s' -> Hreg Ho1 Ho2 ->|token id -> -> ->|token n id s' -> Hreg Ho1 Ho2 ->|token id -> -> ->].
  - assert (forall d, d ∈ c :: cs -> d ∈ cs \/ d ∈ c :: cancelled w) as Hd by (intros d; rewrite !elem_of_cons; tauto).
    split; (eapply reg_goto; [eassumption|exact Hr|reflexivity|by intros ? ?; right|exact Hd|done|auto|]); [apply Lw|apply Ls].
  - destruct (kept_reg _ _ _ Hk (rg_tokens _ _ _ _ _ Lw) (rg_tokens _ _ _ _ _ Ls)) as [K1 K2].
    destruct Hk as (s1 & [A1 A2 A3 A4 A5 A6 A7 A8 A9] & E1 & E2 & Ht & E3 & E4). injection A7 as B1 B2 _ _ _.
    split.
    + rewrite E3, B1. eapply reg_goto; [exact Lw|exact Hr|exact Hq|by rewrite Hc|by left; apply Hsub|exact Ho1| |exact K1]. by rewrite E1.
    + rewrite E4, B2. eapply reg_goto; [exact Ls|exact Hr|exact Hq|by rewrite Hc|by left; apply Hsub|exact Ho2| |exact K2]. by rewrite E2.
  - apply register_ws_plain in Hreg as (-> & -> & Hin). split.
    + by eapply reg_register.
    + eapply reg_goto; [exact Ls|exact Hr|reflexivity|done|by left|done|by left|apply Ls].
  - split; [by eapply (reg_unregister _ _ _ _ _ _ (WsClosing token id))|].
    eapply reg_goto; [exact Ls|exact Hr|reflexivity|done|by left|done|by left|apply Ls].
  - apply register_stream_plain in Hreg as (-> & -> & Hin). split; [|by eapply reg_register].
    eapply reg_goto; [exact Lw|exact Hr|reflexivity|done|by left|done|by left|apply Lw].
  - split; [|by eapply (reg_unregister _ _ _ _ _ _ (StreamLive token id))].
    eapply reg_goto; [exact Lw|exact Hr|reflexivity|done|by left|done|by left|apply Lw].
Qed.

Lemma reachable_live ttl hash stored subs w : Sessions.reachable cfgUsername ttl hash stored subs w -> live_inv w.
Proof.
  revert w. apply rtc_ind_r; [by split; split|]. intros w w' _ Hs IH.
  destruct Hs as [w tid p Ha Hn|w i tid w' Ha]; [|by eapply live_step].
  destruct IH. split; apply reg_arrive; try done; by destruct p.
Qed.

(** ** The table is bounded *)

Lemma effect_size i tid w w' :
  Z.of_nat (size (tokens (srv w))) <= maxSessions -> advance i tid w = Some w' -> Z.of_nat (size (tokens (srv w'))) <= maxSessions.
Proof.
  assert (forall s s' cs, swept s s' cs -> (size (tokens s') <= size (tokens s))%nat) as Hsz.
  { intros s s' cs Hs. apply map_subseteq_size, Hs. }
  intros Hm (p & pend & Hr & Hc)%advance_cases.
  destruct Hc as [(c & cs & -> & Hd & ->)|[[-> [Hs|[Hs|[Hs|Hs]]]]|[_ Hs]]]; [done|..]; destruct p; try done; cbn in Hs;
    repeat case_match; simplify_eq; cbn; try done;
    repeat match goal with
    | H : authed _ _ _ = _ |- _ => apply authed_swept in H as [H _]; apply Hsz in H
    | H : tokenValid _ _ _ = _ |- _ => apply tokenValid_swept in H as [H _]; apply Hsz in H
    | H : deleteTokenLocked _ _ = _ |- _ => apply deleteTokenLocked_swept in H as [H _]; apply Hsz in H
    | H : revokeAll _ = _ |- _ => apply revokeAll_spec in H as [_ H]; rewrite H, map_size_empty
    | H : registerWSCancel _ _ _ = _ |- _ => apply register_ws_plain in H as (_ & -> & _)
    | H : registerStreamCancel _ _ _ = _ |- _ => apply register_stream_plain in H as (_ & -> & _)
    | H : UpsertPushSubscription _ _ _ = _ |- _ => unfold UpsertPushSubscription in H; case_match; simplify_eq
    | H : issueToken _ _ _ _ = _ |- _ => by apply issueToken_room in H
    end; cbn; try done; try lia.
Qed.

(** ** The stored hash *)

(** The row of the password is the hash in effect, or the one a rotation has just
    stored and is about to install. *)
Record stored_inv (seed : gostring) (w : World) : Prop := {
  si_now : forall tid c h, requests w !! tid = Some (RotStored h, c) -> storedHash (srv w) = Some h;
  si_row : match storedHash (srv w) with
           | None => passwordHash (srv w) = seed
           | Some h => passwordHash (srv w) = h \/ exists tid c, requests w !! tid = Some (RotStored h, c)
           end }.

(** A step of a request that is not storing or installing a hash. *)
Lemma stored_goto seed w w' tid p0 pend p cs :
  stored_inv seed w -> requests w !! tid = Some (p0, pend) -> requests w' = <[tid := (p, cs)]> (requests w) ->
  (forall h, p = RotStored h <-> p0 = RotStored h) ->
  storedHash (srv w') = storedHash (srv w) -> passwordHash (srv w') = passwordHash (srv w) -> stored_inv seed w'.
Proof.
  intros [S1 S2] Hr Hr' Hp E1 E2. split.
  - intros t c h Ht. rewrite E1. rewrite Hr' in Ht. apply lookup_insert_Some in Ht as [[<- [= Hph ->]]|[_ Ht]]; [|by eapply S1].
    eapply S1. rewrite Hr. by rewrite (proj1 (Hp h) Hph).
  - rewrite E1, E2. destruct (storedHash (srv w)) as [h|]; [|done]. destruct S2 as [?|(t & c & Ht)]; [by left|]. right.
    destruct (decide (t = tid)) as [->|Hne]; [|exists t, c; by rewrite Hr', lookup_insert_ne].
    rewrite Hr in Ht. injection Ht as Hph <-. exists tid, cs. rewrite Hr', lookup_insert_eq. by rewrite (proj2 (Hp h) Hph).
Qed.

Lemma swept_store s s' cs : swept s s' cs -> storedHash s' = storedHash s /\ passwordHash s' = passwordHash s.
Proof. intros [A1 A2 A3 A4 A5 A6 A7 A8 A9]. by simplify_eq. Qed.

Lemma stored_step seed w i tid w' : rot_inv w -> stored_inv seed w -> advance i tid w = Some w' -> stored_inv seed w'.
Proof.
  intros Hi Hst (p & pend & Hr & Hc)%advance_cases.
  assert (forall p' cs s' w', requests w' = <[tid := (p', cs)]> (requests w) -> srv w' = s' ->
    (forall h, p <> RotStored h) -> (forall h, p' <> RotStored h) ->
    storedHash s' = storedHash (srv w) -> passwordHash s' = passwordHash (srv w) -> stored_inv seed w') as Hgo.
  { intros p' cs s' w1 Hw <- Hn Hn' E1 E2. eapply stored_goto; [exact Hst|exact Hr|exact Hw| |done|done].
    intros h. split; intros Hx; [by apply Hn' in Hx|by apply Hn in Hx]. }
  destruct Hc as [(c & cs & -> & Hd & ->)|[[-> [Hs|[Hs|[Hs|Hs]]]]|[_ Hs]]].
  1: by eapply stored_goto.
  2: destruct p; try done.
  all: try (destruct p; try done).
  all: cbn in Hs.
  all: try (repeat case_match; simplify_eq; by (eapply Hgo; [reflexivity|reflexivity|..])).
  all: repeat case_match; simplify_eq.
  all: repeat match goal with
    | H : authed _ _ _ = _ |- _ => apply authed_swept in H as [H _]; apply swept_store in H as [? ?]
    | H : tokenValid _ _ _ = _ |- _ => apply tokenValid_swept in H as [H _]; apply swept_store in H as [? ?]
    | H : deleteTokenLocked _ _ = _ |- _ => apply deleteTokenLocked_swept in H as [H _]; apply swept_store in H as [? ?]
    | H : revokeAll _ = _ |- _ => apply revokeAll_spec in H as [H _]; apply swept_store in H as [? ?]
    | H : registerWSCancel _ _ _ = _ |- _ => apply register_ws_plain in H as (_ & -> & _)
    | H : registerStreamCancel _ _ _ = _ |- _ => apply register_stream_plain in H as (_ & -> & _)
    | H : UpsertPushSubscription _ _ _ = _ |- _ => unfold UpsertPushSubscription in H; case_match; simplify_eq
    | H : issueToken _ _ _ _ = _ |- _ => apply issueToken_spec in H as (_ & s1 & H & ->); apply swept_store in H as [? ?]
    end.
  all: try (by (eapply Hgo; [reflexivity|reflexivity|..])).
  - split; cbn; [|right; exists tid, []; by rewrite lookup_insert_eq].
    intros t c h Ht. apply lookup_insert_Some in Ht as [[_ [= <- _]]|[Hne Ht]]; [done|].
    by pose proof (other_holder_free w _ _ _ _ _ _ _ _ (ri_pw _ Hi) Hr eq_refl Ht ltac:(congruence)).
  - destruct Hst as [S1 S2]. rewrite (S1 _ _ _ Hr) in S2. split; cbn; rewrite (S1 _ _ _ Hr); [|by left].
    intros t c h Ht. apply lookup_insert_Some in Ht as [[_ ?]|[Hne Ht]]; [done|]. rewrite <- (S1 _ _ _ Hr). by eapply S1.
Qed.

Lemma reachable_stored ttl hash stored subs w :
  Sessions.reachable cfgUsername ttl hash stored subs w -> Z.of_nat (revocations w) < 2 ^ 64 ->
  (forall h, stored = Some h -> hash = h) -> stored_inv hash w.
Proof.
  intros Hr Hb Hst. revert w Hr Hb.
  apply (rtc_ind_r (fun w => Z.of_nat (revocations w) < 2 ^ 64 -> stored_inv hash w)).
  { intros _. split; cbn; [done|]. destruct stored as [h|]; [left; by apply Hst|done]. }
  intros w w' Hr Hs IH Hb. pose proof (step_revocations _ _ Hs) as Hle. specialize (IH ltac:(lia)).
  pose proof (sessions_reachable_inv ttl hash stored subs w Hr ltac:(lia)) as Hi.
  destruct Hs as [w tid p Ha Hn|w i tid w' Ha]; [|by eapply stored_step].
  destruct IH as [S1 S2]. split; cbn.
  - intros t c h Ht. apply lookup_insert_Some in Ht as [[_ [= -> _]]|[_ Ht]]; [done|by eapply S1].
  - destruct (storedHash (srv w)) as [h|]; [|done]. destruct S2 as [?|(t & c & Ht)]; [by left|]. right. exists t, c.
    rewrite lookup_insert_ne; [done|]. intros ->. congruence.
Qed.

(** ** Theorems *)

Section theorems.
Context (ttl : Z) (hash : gostring) (stored : option gostring) (subs : gmap gostring (gostring * gostring)).
Abbreviation reachable := (Sessions.reachable cfgUsername ttl hash stored subs).

(** C2. Password rotation ends every session of the old password: however the
    requests interleave, each token in the session table was given for a password
    that a hash in effect since the last completed rotation accepted.  In
    particular a login that verified the old password just before a rotation
    never leaves a session behind it. *)
Theorem rotation_ends_sessions w t expiry :
  reachable w -> Z.of_nat (revocations w) < 2 ^ 64 -> tokens (srv w) !! t = Some expiry ->
  exists n password h, born w !! t = Some (n, password) /\ (revocations w <= n)%nat /\
    hashes w !! n = Some h /\ compareHash h password = true.
Proof.
  intros Hr Hb Ht. destruct (ri_tokens _ (sessions_reachable_inv _ _ _ _ _ Hr Hb) _ _ Ht) as (n & pw & Hbn & Hn & (h & Hh & Hc)).
  by exists n, pw, h.
Qed.

(** C28. Password rotation ends every push subscription of the old password: each
    row was planted by a session opened under a hash in effect since the last
    completed rotation, also when the subscribing request was under way while the
    rotation ran. *)
Theorem rotation_ends_push w endpoint keys :
  reachable w -> Z.of_nat (revocations w) < 2 ^ 64 -> pushSubscriptions (srv w) !! endpoint = Some keys ->
  (revocations w <= default O (planted w !! endpoint) < length (hashes w))%nat.
Proof. intros Hr Hb He. by apply (ri_subs _ (sessions_reachable_inv _ _ _ _ _ Hr Hb) _ keys). Qed.

(** C32. No socket or stream outlives its session: while a WebSocket or a media
    request is live, its token is in the session table, or its cancel function has
    been called or is held by a request that calls it before it answers. *)
Theorem no_orphaned_connection w tid p pend t c :
  reachable w -> requests w !! tid = Some (p, pend) ->
  (exists id, p = WsLive t id /\ c = Socket id) \/ (exists id, p = StreamLive t id /\ c = Stream id) ->
  is_Some (tokens (srv w) !! t) \/ due c w.
Proof.
  intros Hr Hp Hl. destruct (reachable_live _ _ _ _ _ Hr) as [Lw Ls]. destruct Hl as [(id & -> & ->)|(id & -> & ->)].
  - destruct (rg_live _ _ _ _ _ Lw _ _ _ t id Hp eq_refl) as [(ids & Hi & _)|?]; [left; by eapply (rg_tokens _ _ _ _ _ Lw)|by right].
  - destruct (rg_live _ _ _ _ _ Ls _ _ _ t id Hp eq_refl) as [(ids & Hi & _)|?]; [left; by eapply (rg_tokens _ _ _ _ _ Ls)|by right].
Qed.

(** At most [maxSessions] sessions exist at any time. *)
Theorem sessions_bounded w : reachable w -> Z.of_nat (size (tokens (srv w))) <= maxSessions.
Proof.
  revert w. apply rtc_ind_r; [vm_compute; congruence|]. intros w w' _ Hs IH.
  destruct Hs as [w tid p Ha Hn|w i tid w' Ha]; [done|by eapply effect_size].
Qed.

(** The rotated password survives a restart at any moment: the hash loaded from
    the store is the one in effect, or the one of a rotation that has stored it and
    not yet installed it; an unreadable or corrupt row refuses to start rather than
    bring back the hash of the configuration. *)
Theorem rotation_survives_restart w readOk valid h overridden :
  reachable w -> Z.of_nat (revocations w) < 2 ^ 64 -> (forall x, stored = Some x -> hash = x) ->
  loadPasswordHash readOk (storedHash (srv w)) valid hash = Some (h, overridden) ->
  h = passwordHash (srv w) \/ exists tid c, requests w !! tid = Some (RotStored h, c).
Proof.
  intros Hr Hb Hst Hl. destruct (reachable_stored _ _ _ _ _ Hr Hb Hst) as [_ S2]. unfold loadPasswordHash in Hl.
  destruct readOk; [|done]. cbn in Hl. destruct (storedHash (srv w)) as [x|]; [|injection Hl as <- _; by left].
  destruct (valid x); [|done]. injection Hl as <- _. destruct S2 as [?|?]; [by left|by right].
Qed.
End theorems.
End proofs.

(** ** Runs of the session handlers

    Scripts of interleaved requests, and the theorems of SessionsProofs at the
    states they reach. *)

(** Go's map iteration in some order; a hash that shows its password. *)
Definition anyOrder : MapOrder := {| tokenOrder := map_to_list |}.
Lemma anyOrder_law : @MapOrderLaw anyOrder.
Proof. split. reflexivity. Qed.

Definition toyBcrypt : Bcrypt := {| compareHash := fun h p => bool_decide (h = §"H" ++ p) |}.

Inductive action := Arrive (tid : nat) (p : pc) | Go (i : Input) (tid : nat).

Section run.
Context {Mo : MapOrder} {Bc : Bcrypt}.
Variable user : gostring.

(** An action that is not possible is skipped. *)
Definition act (w : World) (a : action) : World :=
  match a with
  | Arrive tid p => if arrival p && bool_decide (requests w !! tid = None) then goto tid p [] (srv w) w else w
  | Go i tid => default w (advance user i tid w)
  end.

Lemma act_reachable ttl hash stored subs w a :
  reachable user ttl hash stored subs w -> reachable user ttl hash stored subs (act w a).
Proof.
  intros Hr. destruct a as [tid p|i tid]; simpl.
  - destruct (arrival p) eqn:Ea; [|done]. case_bool_decide; [|done]. eapply rtc_r; [exact Hr|]. by apply step_arrive.
  - destruct (advance user i tid w) as [w'|] eqn:Ea; [|done]. eapply rtc_r; [exact Hr|]. by eapply step_advance.
Qed.

Lemma run_reachable ttl hash stored subs acts w :
  reachable user ttl hash stored subs w -> reachable user ttl hash stored subs (foldl act w acts).
Proof. revert w. induction acts as [|a acts IH]; intros w Hr; [done|]. apply IH. by apply act_reachable. Qed.
End run.

Definition inp (token : gostring) : Input := MkInput 1 (Some token) (Some §"Hnew-password") true true true false.
Definition go (n : nat) (tid : nat) (token : gostring) : list action := replicate n (Go (inp token) tid).

(** A session and its socket under the old password; a second login that has
    verified the old password when the owner rotates it; then a login with the new
    password and a push subscription. *)
Definition race : list action :=
  [Arrive 0 (LoginRequest §"192.0.2.1" §"me" §"old-password")] ++ go 9 0 §"t0" ++
  [Arrive 1 (WsRequest (Some §"t0"))] ++ go 2 1 §"" ++
  [Arrive 2 (LoginRequest §"192.0.2.9" §"me" §"old-password")] ++ go 7 2 §"t2" ++
  [Arrive 3 (RotRequest (Some §"t0") §"192.0.2.1" §"old-password" §"new-password")] ++ go 16 3 §"" ++
  go 2 2 §"t2" ++ go 6 3 §"" ++
  [Arrive 4 (LoginRequest §"192.0.2.1" §"me" §"new-password")] ++ go 9 4 §"t4" ++
  [Arrive 5 (SubRequest (Some §"t4") §"https://push.example/1" (Some (§"k", §"a")))] ++ go 5 5 §"".

Definition raced : World :=
  foldl (@act anyOrder toyBcrypt §"me") (newWorld 1000 §"Hold-password" None ∅) race.

Lemma raced_reachable : @reachable anyOrder toyBcrypt §"me" 1000 §"Hold-password" None ∅ raced.
Proof. apply run_reachable. apply rtc_refl. Qed.

(** The second login is refused, the first session and its socket are gone. *)
Example race_outcome :
  ((fst <$> requests raced !! 2%nat), (fst <$> requests raced !! 3%nat), tokens (srv raced) !! §"t0", tokens (srv raced) !! §"t4",
   bool_decide (Socket 0 ∈ cancelled raced), revocations raced) =
  (Some (Answered 401), Some (Answered 204), None, Some 1001, true, 1%nat).
Proof. vm_compute. reflexivity. Qed.

Lemma raced_revocations : Z.of_nat (revocations raced) < 2 ^ 64.
Proof. vm_compute. reflexivity. Qed.

Lemma rotation_ends_sessions_witness :
  exists n password h, born raced !! §"t4" = Some (n, password) /\ (revocations raced <= n)%nat /\
    hashes raced !! n = Some h /\ @compareHash toyBcrypt h password = true.
Proof.
  exact (@rotation_ends_sessions anyOrder anyOrder_law toyBcrypt §"me" 1000 §"Hold-password" None ∅ raced §"t4" 1001
    raced_reachable raced_revocations ltac:(vm_compute; reflexivity)).
Defined.

Lemma rotation_ends_push_witness :
  (revocations raced <= default O (planted raced !! §"https://push.example/1") < length (hashes raced))%nat.
Proof.
  exact (@rotation_ends_push anyOrder anyOrder_law toyBcrypt §"me" 1000 §"Hold-password" None ∅ raced §"https://push.example/1" (§"k", §"a")
    raced_reachable raced_revocations ltac:(vm_compute; reflexivity)).
Defined.

(** The socket of the old session, while the rotation has revoked it and not yet
    called its cancel function. *)
Definition revoking : World :=
  foldl (@act anyOrder toyBcrypt §"me") (newWorld 1000 §"Hold-password" None ∅) (take 38 race).

Lemma revoking_reachable : @reachable anyOrder toyBcrypt §"me" 1000 §"Hold-password" None ∅ revoking.
Proof. apply run_reachable. apply rtc_refl. Qed.

Lemma no_orphaned_connection_witness : is_Some (tokens (srv revoking) !! §"t0") \/ due (Socket 0) revoking.
Proof.
  refine (@no_orphaned_connection anyOrder anyOrder_law toyBcrypt §"me" 1000 §"Hold-password" None ∅ revoking 1%nat (WsLive §"t0" 0) []
    §"t0" (Socket 0) revoking_reachable ltac:(vm_compute; reflexivity) _).
  left. exists 0. split; reflexivity.
Defined.

Lemma sessions_bounded_witness : Z.of_nat (size (tokens (srv raced))) <= maxSessions.
Proof.
  exact (@sessions_bounded anyOrder anyOrder_law toyBcrypt §"me" 1000 §"Hold-password" None ∅ raced raced_reachable).
Defined.

Lemma rotation_survives_restart_witness :
  §"Hnew-password" = passwordHash (srv raced) \/ exists tid c, requests raced !! tid = Some (RotStored §"Hnew-password", c).
Proof.
  refine (@rotation_survives_restart anyOrder anyOrder_law toyBcrypt §"me" 1000 §"Hold-password" None ∅ raced true (fun _ => true) §"Hnew-password" true
    raced_reachable raced_revocations _ ltac:(vm_compute; reflexivity)).
  intros x Hx. discriminate Hx.
Defined.

Example revoking_state : (tokens (srv revoking) !! §"t0", (fst <$> requests revoking !! 3%nat), (snd <$> requests revoking !! 3%nat)) = (None, Some RotRevoked, Some [Socket 0]).
Proof. vm_compute. reflexivity. Qed.
