(* ===== verification/TtlCache.v ===== *)
(** * The preview and thumbnail cache: internal/api/cache.go

    A bounded map whose entries expire.  [order] is the order in which a range over
    the map visits it, which decides the entry evicted when none has expired. *)

From S2P Require Import Prelude.

Section cache.
Context {V : Type}.

Record ttlEntry := MkEntry { val : V; exp : Z }.
Record ttlCache := MkCache { m : gmap gostring ttlEntry; ttl : Z; max : Z }.

Definition newTTLCache (ttl max : Z) : ttlCache := MkCache ∅ ttl max.

Definition get (c : ttlCache) (key : gostring) (now : Z) : option V * ttlCache :=
  match m c !! key with
  | None => (None, c)
  | Some e => if exp e <? now then (None, MkCache (delete key (m c)) (ttl c) (max c)) else (Some (val e), c)
  end.

Definition cacheLen (c : ttlCache) : Z := Z.of_nat (size (m c)).

Definition evictLocked (order : gmap gostring ttlEntry -> list gostring) (c : ttlCache) (now : Z) : ttlCache :=
  let c := MkCache (filter (fun ke => (exp ke.2 <? now) = false) (m c)) (ttl c) (max c) in
  if cacheLen c <? max c then c
  else match order (m c) with
       | [] => c
       | k :: _ => MkCache (delete k (m c)) (ttl c) (max c)
       end.

Definition put (order : gmap gostring ttlEntry -> list gostring) (c : ttlCache) (key : gostring) (v : V) (now : Z) : ttlCache :=
  let c := if max c <=? cacheLen c then evictLocked order c now else c in
  MkCache (<[key := MkEntry v (now + ttl c)]> (m c)) (ttl c) (max c).

(** ** Histories *)

Inductive op := Get (key : gostring) (now : Z) | Put (key : gostring) (v : V) (now : Z).

Context (order : gmap gostring ttlEntry -> list gostring).
Hypothesis order_keys : forall m, order m ≡ₚ (map_to_list m).*1.

Definition apply (c : ttlCache) (o : op) : ttlCache :=
  match o with Get k t => (get c k t).2 | Put k v t => put order c k v t end.

(** The value last put for a key, and when. *)
Fixpoint last_put (key : gostring) (ops : list op) : option (V * Z) :=
  match ops with
  | [] => None
  | o :: ops =>
      match last_put key ops with
      | Some x => Some x
      | None => match o with Put k v t => if bool_decide (k = key) then Some (v, t) else None | Get _ _ => None end
      end
  end.

Record cache_inv (ttl0 max0 : Z) (ops : list op) (c : ttlCache) : Prop := {
  ci_conf : ttl c = ttl0 /\ max c = max0;
  ci_size : 1 <= max0 -> cacheLen c <= max0;
  ci_entry : forall k e, m c !! k = Some e -> exists t, last_put k ops = Some (val e, t) /\ exp e = t + ttl0 }.

Lemma evict_sub c now : m (evictLocked order c now) ⊆ m c.
Proof.
  unfold evictLocked. cbn. set (f := filter _ _). assert (f ⊆ m c) as Hf by apply map_filter_subseteq.
  destruct (_ <? _); [done|]. destruct (order f) as [|k ks]; [done|]. cbn. etrans; [apply delete_subseteq|done].
Qed.

Lemma evict_room c now : 1 <= max c -> cacheLen c <= max c -> cacheLen (evictLocked order c now) < max c.
Proof.
  intros Hm Hl. unfold evictLocked. set (c1 := MkCache (filter _ _) _ _).
  assert (cacheLen c1 <= max c) as H1.
  { unfold cacheLen, c1 in *. cbn. pose proof (map_subseteq_size _ _ (map_filter_subseteq (fun ke => (exp ke.2 <? now) = false) (m c))). lia. }
  change (max c1) with (max c). destruct (Z.ltb_spec (cacheLen c1) (max c)) as [Hlt|Hge]; [done|].
  pose proof (order_keys (m c1)) as Ho. destruct (order (m c1)) as [|k ks] eqn:Eo.
  - apply Permutation_nil in Ho. apply fmap_nil_inv in Ho. apply map_to_list_empty_iff in Ho.
    unfold cacheLen in Hge. rewrite Ho, map_size_empty in Hge. lia.
  - assert (is_Some (m c1 !! k)) as Hk.
    { assert (k ∈ (map_to_list (m c1)).*1) as Hin by (rewrite <- Ho; by left).
      apply list_elem_of_fmap in Hin as ([k' e] & -> & Hin). apply elem_of_map_to_list in Hin. by exists e. }
    unfold cacheLen in *. cbn [m ttl max c1] in *. rewrite map_size_delete_Some by done.
    assert (size (filter (fun ke : gostring * ttlEntry => (exp ke.2 <? now) = false) (m c)) <> O); [|lia].
    intros E0. apply map_size_empty_inv in E0. rewrite E0 in Hk. by destruct Hk.
Qed.

Lemma cache_apply_inv ttl0 max0 ops c o : cache_inv ttl0 max0 ops c -> cache_inv ttl0 max0 (ops ++ [o]) (apply c o).
Proof.
  intros [[Ht Hm] Hs He].
  assert (forall k, last_put k (ops ++ [o]) = match o with Put k' v t => if bool_decide (k' = k) then Some (v, t) else last_put k ops | Get _ _ => last_put k ops end) as Hlast.
  { intros k. clear. induction ops as [|x ops IH]; simpl; [destruct o; [done|by case_bool_decide]|].
    rewrite IH. destruct o as [|k' v t]; [done|]. by case_bool_decide. }
  destruct o as [k t|k v t]; simpl.
  - unfold get. destruct (m c !! k) as [e|] eqn:Ek; [destruct (exp e <? t)|]; split; cbn; auto.
    + intros H1. specialize (Hs H1). unfold cacheLen in *. cbn. pose proof (map_subseteq_size _ _ (delete_subseteq (m c) k)). lia.
    + intros k' e' [_ Hk]%lookup_delete_Some. rewrite Hlast. by apply He.
    + intros k' e' Hk. rewrite Hlast. by apply He.
    + intros k' e' Hk. rewrite Hlast. by apply He.
  - unfold put. set (c1 := if _ <=? _ then _ else _).
    assert (m c1 ⊆ m c) as Hsub by (unfold c1; destruct (_ <=? _); [apply evict_sub|done]).
    assert (ttl c1 = ttl0 /\ max c1 = max0) as [Ht1 Hm1].
    { unfold c1. destruct (_ <=? _); [|done]. unfold evictLocked. cbn. destruct (_ <? _); [done|]. by destruct (order _). }
    split; cbn; [done| |].
    + intros H1. specialize (Hs H1). assert (cacheLen c1 < max0) as Hr.
      { unfold c1. rewrite <- Hm in *. destruct (Z.leb_spec (max c) (cacheLen c)); [by apply evict_room|done]. }
      unfold cacheLen in *. cbn. destruct (m c1 !! k) eqn:Ek; [rewrite map_size_insert_Some by by eexists|rewrite map_size_insert_None by done]; lia.
    + intros k' e' Hk. rewrite Hlast. apply lookup_insert_Some in Hk as [[<- <-]|[Hne Hk]].
      * rewrite bool_decide_eq_true_2 by done. exists t. cbn. by rewrite Ht1.
      * rewrite bool_decide_eq_false_2 by done. eapply He, lookup_weaken; [exact Hk|done].
Qed.

Lemma run_inv ttl0 max0 ops : cache_inv ttl0 max0 ops (foldl apply (newTTLCache ttl0 max0) ops).
Proof.
  induction ops as [|o ops IH] using rev_ind; [split; cbn; [done|intros; unfold cacheLen; cbn [m newTTLCache foldl]; rewrite map_size_empty; lia|done]|].
  rewrite foldl_app. by apply cache_apply_inv.
Qed.

(** The cache after any history: it never holds more than its limit, and what a
    lookup returns is the value last put under that key, put no longer ago than the
    time to live. *)
Theorem cache_fresh ttl0 max0 ops key now v :
  let c := foldl apply (newTTLCache ttl0 max0) ops in
  (1 <= max0 -> cacheLen c <= max0) /\
  ((get c key now).1 = Some v -> exists t, last_put key ops = Some (v, t) /\ now <= t + ttl0).
Proof.
  intros c. destruct (run_inv ttl0 max0 ops) as [Hc Hs He]. fold c in Hc, Hs, He. split; [done|].
  unfold get. destruct (m c !! key) as [e|] eqn:Ek; [|done]. destruct (Z.ltb_spec (exp e) now); [done|].
  intros [= <-]. destruct (He _ _ Ek) as (t & Hl & Hx). exists t. split; [done|lia].
Qed.
End cache.

Lemma cache_fresh_witness :
  let order := fun m => (map_to_list m).*1 in
  let ops := [Put §"a" 1%nat 0; Put §"b" 2%nat 5; Put §"a" 3%nat 7] in
  let c := foldl (apply order) (newTTLCache 10 2) ops in
  cacheLen c <= 2 /\ exists t, last_put §"a" ops = Some (3%nat, t) /\ 12 <= t + 10.
Proof.
  pose proof (cache_fresh (V := nat) (fun m => (map_to_list m).*1) (fun m => reflexivity _) 10 2
    [Put §"a" 1%nat 0; Put §"b" 2%nat 5; Put §"a" 3%nat 7] §"a" 12 3%nat) as [H1 H2].
  split; [apply H1; lia|]. apply H2. vm_compute. reflexivity.
Defined.
