(* ===== verification/Search.v ===== *)
(** * Full text search: internal/store/search.go

    The query text handed to SQLite's FTS5, the search over the messages of a
    store, and the page around a hit.  Which messages an FTS5 expression matches is
    a parameter. *)

From S2P Require Import Prelude GoStrings GoUtf8 Ring RingProofs Store StoreProofs.

(** ** The query *)

Definition quote : gostring := [x22].

(** A term in quotes, its own quotes doubled. *)
Definition quoteTerm (f : gostring) : gostring := quote ++ ReplaceAll f quote (quote ++ quote) ++ quote.

Definition ftsQuery (input : gostring) : gostring :=
  let fields := Fields input in
  if bool_decide (fields = []) then [] else Join (quoteTerm <$> fields) §" ".

(** The FTS5 string syntax: an expression of quoted strings separated by spaces is
    their conjunction, and inside one a doubled quote is a quote.  [None] is a
    syntax error, or anything that is not such a conjunction. *)
Fixpoint read_string (s : gostring) : option (gostring * gostring) :=
  match s with
  | [] => None
  | x22 :: x22 :: s' => (fun '(t, r) => (x22 :: t, r)) <$> read_string s'
  | x22 :: s' => Some ([], s')
  | c :: s' => (fun '(t, r) => (c :: t, r)) <$> read_string s'
  end.

Fixpoint read_query (fuel : nat) (s : gostring) : option (list gostring) :=
  match fuel with
  | O => None
  | S fuel =>
      match s with
      | x22 :: s' =>
          match read_string s' with
          | Some (t, []) => Some [t]
          | Some (t, x20 :: r) => cons t <$> read_query fuel r
          | _ => None
          end
      | _ => None
      end
  end.

(** ** Searching *)

Record SearchOptions := MkSearch { Query : gostring; SNetwork : gostring; STarget : gostring; SBefore : Cursor; SLimit : Z }.

Definition cursor_zero (c : Cursor) : bool := (TS c =? 0) && (CID c =? 0).

(** The WHERE clause besides the match. *)
Definition in_scope (o : SearchOptions) (b : Buffer) : bool :=
  if SNetwork o == [] then true
  else (bNetwork b == SNetwork o) && (if STarget o == [] then true else bName b == STarget o).
Definition before_cursor (o : SearchOptions) (m : Message) : bool :=
  if cursor_zero (SBefore o) then true else cursorLess (CursorOf m) (SBefore o).

(** The rows in descending cursor order, as the ORDER BY gives them. *)
Definition newer_first (a b : Message) : Prop := cursorLess (CursorOf a) (CursorOf b) = false.
#[export] Instance newer_first_dec a b : Decision (newer_first a b).
Proof. unfold newer_first. apply _. Defined.

Definition all_rows (scope : Buffer -> bool) (st : Store) : list Message :=
  mjoin ((fun ib => if scope ib.2 then table ib.2 else []) <$> map_to_list (db st)).

Section search.
Variable matches : gostring -> Message -> bool.

Definition hits (o : SearchOptions) (expr : gostring) (st : Store) : list Message :=
  merge_sort newer_first (List.filter (fun m => matches expr m && negb (Redacted m) && before_cursor o m) (all_rows (in_scope o) st)).

Definition SearchMessages (o : SearchOptions) (st : Store) : list Message :=
  let expr := ftsQuery (Query o) in
  if expr == [] then [] else row <$> take (Z.to_nat (clampLimit (SLimit o))) (hits o expr st).

End search.

(** ** The page around a message *)

Definition Around (lim : limits) (network target : gostring) (c : Cursor) (limit : Z) (st : Store) : list Message * Store :=
  let limit := clampLimit limit in
  match bufferID lim network target false st with
  | (None, st) => ([], st)
  | (Some id, st) =>
      match db st !! id with
      | None => ([], st)
      | Some b =>
          let half := Z.quot limit 2 in
          let older := row <$> lastn (Z.to_nat (half + 1)) (List.filter (fun m => negb (cursorLess c (CursorOf m))) (table b)) in
          let newer := row <$> take (Z.to_nat (limit - len older)) (List.filter (fun m => cursorLess c (CursorOf m)) (table b)) in
          (older ++ newer, st)
      end
  end.

(** ** Theorems *)

Definition escape (f : gostring) : gostring := f ≫= (fun c => if c == x22 then [x22; x22] else [c]).

Lemma replace_quote f : ReplaceAll f quote (quote ++ quote) = escape f.
Proof.
  unfold ReplaceAll. induction f as [|c f IH]; [done|]. unfold escape. cbn [replace_aux mbind list_bind]. fold (escape f).
  destruct (decide (c = x22)) as [->|Hn].
  - change (HasPrefix (x22 :: f) quote) with true. rewrite bool_decide_eq_true_2 by done. change (length quote - 1)%nat with O. by rewrite IH.
  - rewrite bool_decide_eq_false_2 by done. assert (HasPrefix (c :: f) quote = false) as ->.
    { cbn. by rewrite bool_decide_eq_false_2. }
    by rewrite IH.
Qed.

Lemma read_escaped f rest : head rest <> Some x22 -> read_string (escape f ++ x22 :: rest) = Some (f, rest).
Proof.
  intros Hr. induction f as [|c f IH].
  - destruct rest as [|d rest]; [done|]. cbn. destruct d; done.
  - unfold escape. cbn [mbind list_bind]. fold (escape f). destruct (decide (c = x22)) as [->|Hn].
    + rewrite bool_decide_eq_true_2 by done. cbn. by rewrite IH.
    + rewrite bool_decide_eq_false_2 by done. cbn [app]. destruct c; try done; cbn; by rewrite IH.
Qed.

Lemma read_joined ts fuel : (length ts <= fuel)%nat -> ts <> [] -> read_query fuel (Join (quoteTerm <$> ts) §" ") = Some ts.
Proof.
  revert fuel. induction ts as [|t ts IH]; intros [|fuel] Hf Hne; simpl in Hf; try done; [lia|].
  assert (forall r, quoteTerm t ++ r = x22 :: escape t ++ x22 :: r) as Hq.
  { intros r. unfold quoteTerm. rewrite replace_quote. cbn. f_equal. by rewrite <- app_assoc. }
  destruct ts as [|t' ts].
  - change (Join (quoteTerm <$> [t]) §" ") with (quoteTerm t). rewrite <- (app_nil_r (quoteTerm t)), Hq. cbn [read_query].
    by rewrite read_escaped.
  - change (Join (quoteTerm <$> t :: t' :: ts) §" ") with (quoteTerm t ++ x20 :: Join (quoteTerm <$> t' :: ts) §" ").
    rewrite Hq. cbn [read_query]. rewrite read_escaped by done. by rewrite (IH fuel ltac:(simpl in *; lia) ltac:(done)).
Qed.

(** The search query keeps the user's words as literal text: read back by the
    FTS5 string syntax it is the conjunction of exactly the whitespace-separated
    terms of the input, whatever quotes and operators they contain; and there is no
    query exactly when the input has no term. *)
Theorem ftsQuery_literal input :
  (Fields input = [] -> ftsQuery input = []) /\
  (Fields input <> [] -> read_query (length (Fields input)) (ftsQuery input) = Some (Fields input)).
Proof.
  unfold ftsQuery. split; intros Hf; [by rewrite bool_decide_eq_true_2|].
  rewrite bool_decide_eq_false_2 by done. by apply read_joined.
Qed.

Example ftsQuery_example : ftsQuery ([x61; x22; x20; x20] ++ §"OR b*") = [x22; x61; x22; x22; x22; x20] ++ quoteTerm §"OR" ++ §" " ++ quoteTerm §"b*".
Proof. vm_compute. reflexivity. Qed.

(** ** Search pages *)

#[export] Instance newer_first_trans : Transitive newer_first.
Proof.
  intros a b c Hab Hbc. unfold newer_first in *. destruct (cursorLess (CursorOf a) (CursorOf c)) eqn:E; [|done].
  apply cursorLess_spec in E. apply not_true_iff_false in Hab, Hbc. rewrite cursorLess_spec in Hab, Hbc. lia.
Qed.
#[export] Instance newer_first_total : Total newer_first.
Proof.
  intros a b. unfold newer_first. destruct (cursorLess (CursorOf a) (CursorOf b)) eqn:E; [|by left]. right.
  apply cursorLess_spec in E. apply not_true_iff_false. rewrite cursorLess_spec. lia.
Qed.

Definition below (m x : Message) : bool := cursorLess (CursorOf x) (CursorOf m).

Lemma filter_perm {A} (P : A -> bool) (l k : list A) : l ≡ₚ k -> List.filter P l ≡ₚ List.filter P k.
Proof.
  induction 1 as [|x l k _ IH|x y l|l k j _ IH1 _ IH2]; [done| | |by etrans]; cbn.
  - destruct (P x); [by constructor|done].
  - destruct (P x), (P y); try done. by constructor.
Qed.

(** Message ids are a primary key, positive. *)
Definition keyed (st : Store) : Prop :=
  NoDup (ID <$> all_rows (fun _ => true) st) /\ Forall (fun m => 0 < ID m) (all_rows (fun _ => true) st).

Lemma rows_sub scope st : all_rows scope st `sublist_of` all_rows (fun _ => true) st.
Proof.
  unfold all_rows. induction (map_to_list (db st)) as [|ib l IH]; [done|]. cbn. apply sublist_app; [|exact IH].
  destruct (scope ib.2); [done|apply sublist_nil_l].
Qed.

Lemma sorted_strict (l : list Message) :
  StronglySorted newer_first l -> NoDup (ID <$> l) -> StronglySorted (fun a b => below a b = true) l.
Proof.
  induction 1 as [|a l Hl IH Ha]; cbn; [constructor|]. intros [Hn Hd]%NoDup_cons. constructor; [by apply IH|].
  rewrite Forall_forall in *. intros b Hb. specialize (Ha b Hb). unfold newer_first, below in *.
  apply cursorLess_spec. apply not_true_iff_false in Ha. rewrite cursorLess_spec in Ha. cbn in *.
  assert (ID b <> ID a); [|lia]. intros E. apply Hn. rewrite <- E. by apply list_elem_of_fmap_2.
Qed.

Lemma below_irrefl m : below m m = false.
Proof. unfold below. apply not_true_iff_false. rewrite cursorLess_spec. lia. Qed.

(** In strict order, what is below the last of a prefix is the rest. *)
Lemma page_rest l n m :
  StronglySorted (fun a b => below a b = true) l -> last (take n l) = Some m -> List.filter (below m) l = drop n l.
Proof.
  intros Hs Hl. apply last_Some in Hl as [pre Hpre].
  assert (l = (pre ++ [m]) ++ drop n l) as El by (rewrite <- Hpre; by rewrite take_drop).
  rewrite El in Hs. rewrite El at 1. revert Hs. generalize (drop n l) as post. clear. intros post Hs.
  rewrite List.filter_app. assert (List.filter (below m) (pre ++ [m]) = []) as ->.
  { rewrite <- app_assoc in Hs. rewrite List.filter_app. cbn. rewrite below_irrefl, app_nil_r.
    induction pre as [|a pre IH]; [done|]. cbn in Hs. apply StronglySorted_inv in Hs as [Hs Ha]. cbn. rewrite (IH Hs).
    destruct (below m a) eqn:E; [|done]. rewrite Forall_forall in Ha.
    assert (below a m = true) as Hm by (apply Ha; rewrite elem_of_app, elem_of_cons; auto).
    unfold below in *. rewrite cursorLess_spec in *. lia. }
  cbn. apply List.forallb_filter_id, forallb_forall. intros x Hx%list_elem_of_In.
  apply (StronglySorted_app_1_elem_of _ _ _ m x Hs); [rewrite elem_of_app; right; by left|done].
Qed.

Section paging.
Variable matches : gostring -> Message -> bool.

(** The pages of a search, each before the last hit of the one before it. *)
Fixpoint search_pages (n : nat) (o : SearchOptions) (st : Store) : list (list Message) :=
  match n with
  | O => []
  | S n =>
      let page := SearchMessages matches o st in
      page :: match last page with
              | None => []
              | Some m => search_pages n (MkSearch (Query o) (SNetwork o) (STarget o) (CursorOf m) (SLimit o)) st
              end
  end.

Definition older_than (o : SearchOptions) (m : Message) : SearchOptions :=
  MkSearch (Query o) (SNetwork o) (STarget o) (CursorOf m) (SLimit o).

Lemma hits_in o expr st m : m ∈ hits matches o expr st ->
  m ∈ all_rows (in_scope o) st /\ matches expr m = true /\ Redacted m = false /\ before_cursor o m = true.
Proof.
  unfold hits. rewrite merge_sort_Permutation. intros [Hin Hp]%list_elem_of_In%filter_In.
  apply andb_true_iff in Hp as [[H1 H2%negb_true_iff]%andb_true_iff H3]. split_and!; [by apply list_elem_of_In|done..].
Qed.

Lemma hits_strict o expr st : keyed st -> StronglySorted (fun a b => below a b = true) (hits matches o expr st).
Proof.
  intros [Hk _]. apply sorted_strict; [apply (StronglySorted_merge_sort newer_first)|]. unfold hits. rewrite merge_sort_Permutation.
  eapply sublist_NoDup; [exact Hk|]. apply fmap_sublist. etrans; [apply filter_sublist|apply rows_sub].
Qed.

(** The hits before a hit are the hits older than it. *)
Lemma hits_next o expr st m :
  keyed st -> m ∈ hits matches o expr st -> hits matches (older_than o m) expr st = List.filter (below m) (hits matches o expr st).
Proof.
  intros Hk Hm. pose proof (hits_in _ _ _ _ Hm) as (Hrow & _ & _ & Hbc).
  assert (cursor_zero (CursorOf m) = false) as Hz.
  { destruct Hk as [_ Hpos]. rewrite Forall_forall in Hpos. unfold cursor_zero. cbn.
    assert (0 < ID m); [|lia]. apply Hpos. eapply sublist_subseteq; [apply rows_sub|exact Hrow]. }
  assert (AntiSymm (=) (fun a b => below a b = true)) as Has.
  { intros a b Hab Hba. unfold below in *. rewrite cursorLess_spec in *. lia. }
  apply (StronglySorted_unique (fun a b => below a b = true)); [by apply hits_strict| |].
  - pose proof (hits_strict o expr st Hk) as Hs. clear - Hs. induction Hs as [|a l Hs IH Ha]; [constructor|]. cbn.
    destruct (below m a); [|done]. constructor; [done|]. rewrite Forall_forall in *. intros x [Hx _]%list_elem_of_In%filter_In. by apply Ha, list_elem_of_In.
  - unfold hits. rewrite merge_sort_Permutation.
    rewrite (filter_perm _ _ _ (merge_sort_Permutation newer_first _)).
    change (in_scope (older_than o m)) with (in_scope o). clear Hrow.
    induction (all_rows (in_scope o) st) as [|x l IH]; [done|]. cbn.
    assert (matches expr x && negb (Redacted x) && before_cursor (older_than o m) x =
            (matches expr x && negb (Redacted x) && before_cursor o x) && below m x) as ->.
    { unfold before_cursor at 1. cbn [SBefore older_than]. rewrite Hz. fold (below m x). destruct (below m x) eqn:Eb; [|by rewrite !andb_false_r].
      assert (before_cursor o x = true) as ->; [|by rewrite !andb_true_r]. unfold before_cursor in *. destruct (cursor_zero (SBefore o)); [done|].
      unfold below in Eb. rewrite cursorLess_spec in *. lia. }
    destruct (_ && before_cursor o x); cbn; [|done]. destruct (below m x); cbn; [by constructor|done].
Qed.

(** Paging through a search by the cursor of the last hit visits every hit once:
    the pages in order are the matches in scope, not redacted, newest first, cut
    after the pages asked for. *)
Theorem search_pages_exact n o st :
  keyed st -> ftsQuery (Query o) <> [] ->
  mjoin (search_pages n o st) = row <$> take (n * Z.to_nat (clampLimit (SLimit o))) (hits matches o (ftsQuery (Query o)) st).
Proof.
  intros Hk Hq. revert o Hq. induction n as [|n IH]; intros o Hq; [done|].
  cbn [search_pages]. change (mjoin (?a :: ?b)) with (a ++ mjoin b). unfold SearchMessages. rewrite bool_decide_eq_false_2 by done.
  set (L := Z.to_nat (clampLimit (SLimit o))). set (hs := hits matches o (ftsQuery (Query o)) st).
  rewrite fmap_last. destruct (last (take L hs)) as [m|] eqn:El; cbn [fmap option_fmap option_map].
  - assert (MkSearch (Query o) (SNetwork o) (STarget o) (CursorOf (row m)) (SLimit o) = older_than o m) as -> by by rewrite row_cursor.
    rewrite (IH (older_than o m) Hq). cbn [Query SLimit older_than]. fold L.
    assert (m ∈ hs) as Hm by (apply last_Some_elem_of in El; apply elem_of_take in El as (k & Hk' & _); by eapply list_elem_of_lookup_2).
    rewrite (hits_next o _ st m Hk Hm). fold hs. rewrite (page_rest hs L m); [|by apply hits_strict|done].
    rewrite <- fmap_app. f_equal. replace (S n * L)%nat with (L + n * L)%nat by lia. by rewrite take_take_drop.
  - apply last_None in El. change (mjoin []) with (@nil Message). rewrite app_nil_r. assert (hs = [] \/ L = O) as [->| ->].
    { destruct hs; [by left|]. destruct L; [by right|done]. }
    + by rewrite !take_nil.
    + by rewrite Nat.mul_0_r.
Qed.
End paging.

(** ** Around a hit *)

Lemma split_at d c : sorted d ->
  d = List.filter (fun m => negb (cursorLess c (CursorOf m))) d ++ List.filter (fun m => cursorLess c (CursorOf m)) d.
Proof.
  intros Hs. destruct (search_split (fun m => cursorLess c (CursorOf m)) mlt d Hs) as (H1 & H2 & _).
  - intros x y Hxy Hx. unfold mlt in Hxy. rewrite cursorLess_spec in *. lia.
  - rewrite <- H1, <- H2. by rewrite take_drop.
Qed.

Lemma window d c limit :
  sorted d -> 1 <= limit ->
  let half := Z.quot limit 2 in
  let older := lastn (Z.to_nat (half + 1)) (List.filter (fun m => negb (cursorLess c (CursorOf m))) d) in
  let newer := take (Z.to_nat (limit - len older)) (List.filter (fun m => cursorLess c (CursorOf m)) d) in
  exists pre post, d = pre ++ (older ++ newer) ++ post /\ len (older ++ newer) <= limit /\
    (forall m, m ∈ d -> CursorOf m = c -> m ∈ older) /\ len older <= half + 1 /\ (pre <> [] -> len older = half + 1) /\
    (post <> [] -> len (older ++ newer) = limit).
Proof.
  intros Hs Hlim half older newer. pose proof (split_at d c Hs) as Hd.
  set (F1 := List.filter (fun m => negb (cursorLess c (CursorOf m))) d) in *. set (F2 := List.filter (fun m => cursorLess c (CursorOf m)) d) in *.
  assert (half = limit / 2) as Hh by (unfold half; apply Z.quot_div_nonneg; lia).
  assert (2 * half <= limit /\ 0 <= half /\ half + 1 <= limit) as (_ & H0 & H1) by (Z.to_euclidean_division_equations; lia).
  set (k := (length F1 - Z.to_nat (half + 1))%nat). assert (older = drop k F1) as Eo by done.
  assert (len older = Z.min (len F1) (half + 1)) as Lo by (rewrite Eo; unfold len; rewrite length_drop; unfold k; lia).
  exists (take k F1), (drop (Z.to_nat (limit - len older)) F2).
  assert (len newer = Z.min (limit - len older) (len F2)) as Ln by (unfold newer, len in *; rewrite length_take; lia).
  split; [|split; [|split; [|split; [|split]]]].
  - rewrite Hd at 1. unfold newer. rewrite Eo. rewrite <- (take_drop k F1) at 1. rewrite <- (take_drop (Z.to_nat (limit - len older)) F2) at 1.
    rewrite Eo. by rewrite !app_assoc.
  - rewrite len_app. lia.
  - intros m Hm Hc. rewrite Eo.
    assert (m ∈ F1) as Hin. { apply list_elem_of_In, filter_In. split; [by apply list_elem_of_In|]. rewrite Hc. unfold cursorLess. lia. }
    rewrite <- (take_drop k F1) in Hin. apply elem_of_app in Hin as [Hin|Hin]; [|done]. exfalso.
    assert (sorted F1) as Hs1 by (eapply sorted_sublist; [apply filter_sublist|done]). rewrite <- (take_drop k F1) in Hs1.
    assert (exists y, y ∈ drop k F1) as [y Hy].
    { destruct (drop k F1) as [|y l] eqn:E; [|exists y; by left]. apply (f_equal length) in E. rewrite length_drop in E. unfold k in E. simpl in E.
      destruct F1; [by rewrite take_nil in Hin; apply elem_of_nil in Hin|]. simpl in E. lia. }
    pose proof (StronglySorted_app_1_elem_of _ _ _ m y Hs1 Hin Hy) as Hlt. unfold mlt in Hlt. rewrite Hc in Hlt.
    assert (y ∈ F1) as Hy1 by (rewrite <- (take_drop k F1); apply elem_of_app; by right).
    apply list_elem_of_In, filter_In in Hy1 as [_ Hn]. by rewrite Hlt in Hn.
  - lia.
  - intros Hp. assert (0 < k)%nat by (destruct k; [by rewrite take_0 in Hp|lia]). unfold k, len in *. lia.
  - intros Hp. rewrite len_app. assert (Z.of_nat (length (drop (Z.to_nat (limit - len older)) F2)) > 0) as Hlen.
    { destruct (drop _ F2); [done|simpl; lia]. }
    rewrite length_drop in Hlen. unfold len in *. lia.
Qed.

Section around.
Context (lim : limits) (Hsize : 1 <= ringSize lim) (Hbudget : 0 <= maxRingBytes lim).

(** The page around a message: in every reachable store it is one stretch of the
    buffer, without gap, no longer than the clamped limit, that holds the message
    asked for; it starts no more than half the limit before it, and it reaches that
    far back or to the first row. *)
Theorem around_window ops network target c limit :
  Forall legal ops ->
  let st := run lim ops emptyStore in
  match find_buffer network target st with
  | None => (Around lim network target c limit st).1 = []
  | Some id => exists b pre older newer post, db st !! id = Some b /\ table b = pre ++ (older ++ newer) ++ post /\
      (Around lim network target c limit st).1 = row <$> (older ++ newer) /\
      len (older ++ newer) <= clampLimit limit /\
      (forall m, m ∈ table b -> CursorOf m = c -> m ∈ older) /\
      len older <= Z.quot (clampLimit limit) 2 + 1 /\ (pre <> [] -> len older = Z.quot (clampLimit limit) 2 + 1) /\
      (post <> [] -> len (older ++ newer) = clampLimit limit)
  end.
Proof.
  intros Hl st. destruct (reachable_ok lim Hsize Hbudget ops Hl) as [Hst _]. fold st in Hst. clearbody st. clear Hl ops.
  unfold Around. pose proof (bufferID_ok lim Hsize network target false st Hst) as Hb. pose proof (find_buffer_spec network target st) as Hf.
  destruct (bufferID lim network target false st) as [[id'|] st'].
  - destruct Hb as (_ & b & (Hbb & Hk & _) & [[Edb _]|[? _]]); [|done]. rewrite Edb in Hbb.
    destruct (find_buffer network target st) as [id|]; [|by destruct (Hf id' b)]. destruct Hf as (b2 & Hb2 & Hk2).
    assert (id' = id) as -> by (apply (ok_names lim st Hst id' id b b2); congruence). rewrite Edb, Hbb.
    assert (1 <= clampLimit limit) as Hc. { unfold clampLimit, DefaultPageSize, MaxPageSize. destruct (Z.leb_spec limit 0); [lia|]. destruct (limit >? 500); lia. }
    destruct (ok_tables lim st Hst id b Hbb) as [[Hs _] _].
    destruct (window (table b) c (clampLimit limit) Hs Hc) as (pre & post & H1 & H2). exists b, pre. eexists _, _, post.
    split; [done|]. split; [exact H1|]. split; [|exact H2]. rewrite fmap_app. unfold len. by rewrite !length_fmap.
  - destruct Hb as [-> Habs]. destruct (find_buffer network target st) as [id|]; [|done]. destruct Hf as (b & Hb1 & Hk). by destruct (Habs id b).
Qed.
End around.

(** ** Runs *)

Definition talk (id ts : Z) (text : gostring) : Message := MkMsg id §"net" §"#go" (ts * 1000000) [] §"alice" §"PRIVMSG" text text false [].

(** Two buffers with five messages. *)
Definition library : Store :=
  MkStore {[1 := MkBuffer §"net" §"#go" false None [talk 1 10 §"one"; talk 2 20 §"two"; talk 4 40 §"four"];
            2 := MkBuffer §"net" §"#c" false None [talk 3 30 §"three"; talk 5 50 §"five"]]} ∅ ∅ 0 0.

(** Two pages of two. *)
Lemma search_pages_exact_witness :
  mjoin (search_pages (fun _ _ => true) 2 (MkSearch §"x" [] [] (MkCursor 0 0) 2) library) =
  row <$> [talk 5 50 §"five"; talk 4 40 §"four"; talk 3 30 §"three"; talk 2 20 §"two"].
Proof.
  rewrite (search_pages_exact (fun _ _ => true) 2 (MkSearch §"x" [] [] (MkCursor 0 0) 2) library); [vm_compute; reflexivity| |vm_compute; congruence].
  split; [apply (bool_decide_eq_true_1 (NoDup _)); vm_compute; reflexivity|].
  apply (bool_decide_eq_true_1 (Forall _ _)); vm_compute; reflexivity.
Defined.

Definition talked : list op := [OpAppend 0 §"net" §"#go" (talk 0 10 §"one") (MkOpts true None None true);
  OpAppend 0 §"net" §"#go" (talk 0 20 §"two") (MkOpts true None None true); OpAppend 0 §"net" §"#go" (talk 0 30 §"three") (MkOpts true None None true)].

Lemma around_window_witness :
  match find_buffer §"net" §"#go" (run (MkLimits 2 460) talked emptyStore) with
  | None => False
  | Some id => exists b pre older newer post, db (run (MkLimits 2 460) talked emptyStore) !! id = Some b /\ table b = pre ++ (older ++ newer) ++ post /\
      (Around (MkLimits 2 460) §"net" §"#go" (MkCursor 20 2) 2 (run (MkLimits 2 460) talked emptyStore)).1 = row <$> (older ++ newer)
  end.
Proof.
  pose proof (around_window (MkLimits 2 460) ltac:(cbn; lia) ltac:(cbn; lia) talked §"net" §"#go" (MkCursor 20 2) 2 ltac:(repeat constructor)) as Hw.
  cbv zeta in Hw. assert (bool_decide (is_Some (find_buffer §"net" §"#go" (run (MkLimits 2 460) talked emptyStore))) = true) as Hs by (vm_compute; reflexivity).
  apply bool_decide_eq_true_1 in Hs. destruct (find_buffer §"net" §"#go" (run (MkLimits 2 460) talked emptyStore)) as [id|]; [|destruct Hs as [? Hs]; discriminate Hs].
  destruct Hw as (b & pre & older & newer & post & H1 & H2 & H3 & _). exists b, pre, older, newer, post. split; [exact H1|]. split; [exact H2|exact H3].
Defined.
