(* ===== verification/Highlight.v ===== *)
(** * Highlights: internal/hub/highlight.go

    Stripping of formatting codes, and which messages mention the user or match a
    highlight rule.  The regular expressions are written out. *)

From S2P Require Import Prelude GoStrings GoUtf8.

Record Rule := MkRule { Pattern : gostring; RNetwork : gostring; RID : gostring }.

(** ** Formatting codes *)

Definition digitByte (c : byte) : bool := is_digit c.
Definition hexByte (c : byte) : bool := is_digit c || in_range 97 (b2z c) 102 || in_range 65 (b2z c) 70.

(** How many bytes, at most [n], satisfy the class. *)
Fixpoint run_length (class : byte -> bool) (n : nat) (s : gostring) : nat :=
  match n, s with
  | S n, c :: s => if class c then S (run_length class n s) else O
  | _, _ => O
  end.

(** [\x03(?:[0-9]{1,2}(?:,[0-9]{1,2})?)?] at the start of [s]: its length. *)
Definition matchIndexed (s : gostring) : nat :=
  match s with
  | x03 :: s =>
      let n := run_length digitByte 2 s in
      if (n =? 0)%nat then 1
      else match drop n s with
           | x2c :: t => let k := run_length digitByte 2 t in if (k =? 0)%nat then 1 + n else 1 + n + 1 + k
           | _ => 1 + n
           end
  | _ => O
  end.

(** [\x04(?:[0-9a-fA-F]{6}(?:,[0-9a-fA-F]{6})?)?]. *)
Definition matchHex (s : gostring) : nat :=
  match s with
  | x04 :: s =>
      if (run_length hexByte 6 s =? 6)%nat
      then match drop 6 s with
           | x2c :: t => if (run_length hexByte 6 t =? 6)%nat then 14 else 7
           | _ => 7
           end
      else 1
  | _ => O
  end.

Definition attrByte (c : byte) : bool :=
  match c with x02 | x0f | x11 | x16 | x1d | x1e | x1f => true | _ => false end.
Definition matchAttrs (s : gostring) : nat := match s with c :: _ => if attrByte c then 1 else O | [] => O end.

(** [ReplaceAllString(s, "")] of an expression whose match at a position has the
    given length, 0 for none. *)
Fixpoint remove_aux (m : gostring -> nat) (skip : nat) (s : gostring) : gostring :=
  match s with
  | [] => []
  | c :: s' =>
      match skip with
      | S k => remove_aux m k s'
      | O => match m s with O => c :: remove_aux m 0 s' | S k => remove_aux m k s' end
      end
  end.
Definition removeAll (m : gostring -> nat) (s : gostring) : gostring := remove_aux m 0 s.

Definition stripCodes (text : gostring) : gostring :=
  removeAll matchAttrs (removeAll matchHex (removeAll matchIndexed text)).

(** ** Mentions *)

Definition foldNickReplacer : gostring -> gostring :=
  byteReplacer (fun c => match c with x5b => [x7b] | x5d => [x7d] | x5c => [x7c] | x7e => [x5e] | _ => [c] end).

Section highlight.
Context `{Unicode}.

Definition foldNick (s : gostring) : gostring := foldNickReplacer (ToLower s).

(** [nickBoundary] in a case-insensitive expression: the class also excludes the
    two runes beyond ASCII that fold to a letter. *)
Definition nickBoundary (r : Z) : bool :=
  negb (in_range 65 r 90 || in_range 97 r 122 || in_range 48 r 57 || (r =? 95) || (r =? 45) || (r =? 91) || (r =? 93) || (r =? 92)
        || (r =? 96) || (r =? 94) || (r =? 123) || (r =? 125) || (r =? 124) || (r =? 0x17F) || (r =? 0x212A)).

Fixpoint prefix_fold (nick rs : list Z) : option (list Z) :=
  match nick, rs with
  | [], _ => Some rs
  | n :: nick, r :: rs => if rune_fold_eq n r then prefix_fold nick rs else None
  | _, [] => None
  end.

(** Some position matches [(^|B)nick($|B)]; [start] when the position is the start
    of the text or follows a boundary. *)
Fixpoint mention_at (nick : list Z) (start : bool) (rs : list Z) : bool :=
  (start && match prefix_fold nick rs with Some [] => true | Some (r :: _) => nickBoundary r | None => false end)
  || match rs with [] => false | r :: rs => mention_at nick (nickBoundary r) rs end.

Definition mentionsMe (text nick : gostring) : bool :=
  if bool_decide (nick = []) then false
  else mention_at (runes (foldNick nick)) true (runes (foldNick (stripCodes text))).

Fixpoint match_rules (lower : gostring) (rules : list Rule) (network : gostring) : bool :=
  match rules with
  | [] => false
  | r :: rules =>
      let p := TrimSpace (Pattern r) in
      if bool_decide (p = []) then match_rules lower rules network
      else if negb (bool_decide (RNetwork r = [])) && negb (bool_decide (RNetwork r = network)) then match_rules lower rules network
      else if Contains lower (ToLower p) then true
      else match_rules lower rules network
  end.

Definition highlightText (text nick : gostring) (rules : list Rule) (network : gostring) : bool :=
  if bool_decide (text = []) then false
  else
    let clean := stripCodes text in
    if mentionsMe clean nick then true else match_rules (ToLower clean) rules network.

(** ** Theorems *)

(** The bytes that start a formatting code. *)
Definition codeByte (c : byte) : bool := match c with x03 | x04 => true | _ => attrByte c end.

(** An expression that matches exactly where a byte of [p] stands. *)
Definition starts_with (p : byte -> bool) (m : gostring -> nat) : Prop :=
  forall c s, (m (c :: s) <> O) <-> p c = true.

Lemma indexed_starts : starts_with (fun c => bool_decide (c = x03)) matchIndexed.
Proof.
  intros c s. destruct c; try done. split; [done|]. intros _. unfold matchIndexed. set (n := run_length _ _ _). clearbody n.
  destruct (n =? 0)%nat; [done|]. destruct (drop n s) as [|d t]; [done|]. destruct d; try done. by destruct (_ =? 0)%nat.
Qed.

Lemma hex_starts : starts_with (fun c => bool_decide (c = x04)) matchHex.
Proof.
  intros c s. destruct c; try done. split; [done|]. intros _. unfold matchHex. destruct (_ =? 6)%nat; [|done].
  destruct (drop 6 s) as [|d t]; [done|]. destruct d; try done. by destruct (_ =? 6)%nat.
Qed.

Lemma attrs_start : starts_with attrByte matchAttrs.
Proof. intros c s. unfold matchAttrs. by destruct (attrByte c). Qed.

Lemma remove_sub m s k c : c ∈ remove_aux m k s -> c ∈ s.
Proof.
  revert k. induction s as [|d s IH]; intros k; [done|]. simpl. rewrite elem_of_cons.
  destruct k; [destruct (m (d :: s)); [rewrite elem_of_cons; intros [->|?]; [by left|right; eauto]|]|]; intros Hc; right; eauto.
Qed.

Lemma remove_none p m s k c : starts_with p m -> c ∈ remove_aux m k s -> p c = false.
Proof.
  intros Hm. revert k. induction s as [|d s IH]; intros k; [by intros ?%elem_of_nil|]. simpl. destruct k; [|apply IH].
  destruct (m (d :: s)) eqn:E; [|apply IH]. rewrite elem_of_cons. intros [->|Hc]; [|by eapply IH].
  destruct (p d) eqn:Ed; [|done]. by apply (Hm d s) in Ed.
Qed.

Lemma remove_id p m s : starts_with p m -> (forall c, c ∈ s -> p c = false) -> remove_aux m 0 s = s.
Proof.
  intros Hm. induction s as [|d s IH]; intros Hn; [done|]. simpl.
  assert (m (d :: s) = O) as ->.
  { destruct (m (d :: s)) eqn:E; [done|]. assert (p d = true) as Hd by (apply (Hm d s); congruence). rewrite Hn in Hd by by left. done. }
  f_equal. apply IH. intros c Hc. apply Hn. by right.
Qed.

(** No code byte is left. *)
Lemma stripped_plain text c : c ∈ stripCodes text -> codeByte c = false.
Proof.
  unfold stripCodes, removeAll. intros Hc. pose proof (remove_none _ _ _ _ _ attrs_start Hc) as H1.
  apply remove_sub in Hc. pose proof (remove_none _ _ _ _ _ hex_starts Hc) as H2. apply remove_sub in Hc.
  pose proof (remove_none _ _ _ _ _ indexed_starts Hc) as H3. unfold codeByte. by destruct c.
Qed.

Lemma strip_plain text : (forall c, c ∈ text -> codeByte c = false) -> stripCodes text = text.
Proof.
  intros Hp. assert (forall c, c ∈ text -> bool_decide (c = x03) = false /\ bool_decide (c = x04) = false /\ attrByte c = false) as Hc.
  { intros c Hin. specialize (Hp c Hin). by destruct c. }
  unfold stripCodes, removeAll. rewrite (remove_id _ _ text indexed_starts) by (intros c Hin; by apply Hc).
  rewrite (remove_id _ _ text hex_starts) by (intros c Hin; by apply Hc). apply (remove_id _ _ text attrs_start). intros c Hin. by apply Hc.
Qed.

Lemma runes_nonempty s : s <> [] -> runes s <> [].
Proof.
  intros Hs E. apply Hs. rewrite <- (chunks_concat s). unfold runes in E. apply fmap_nil_inv in E. by rewrite E.
Qed.

Lemma ToLower_nonempty s : s <> [] -> ToLower s <> [].
Proof.
  intros Hs%runes_nonempty. unfold ToLower. destruct (runes s) as [|r rs]; [done|]. cbn.
  pose proof (EncodeRune_length (rune_lower r)) as Hl. destruct (EncodeRune (rune_lower r)); [simpl in Hl; lia|done].
Qed.

Lemma foldNick_nonempty s : s <> [] -> runes (foldNick s) <> [].
Proof.
  intros Hs%ToLower_nonempty. apply runes_nonempty. unfold foldNick, foldNickReplacer, byteReplacer.
  destruct (ToLower s) as [|c t]; [done|]. by destruct c.
Qed.

Lemma nothing_to_match rules network : match_rules (ToLower []) rules network = false.
Proof.
  induction rules as [|r rules IH]; [done|]. cbn [match_rules]. case_bool_decide as Hp; [done|]. rewrite IH.
  apply ToLower_nonempty in Hp. destruct (_ && _); [done|]. change (ToLower []) with (@nil byte). unfold Contains. cbn.
  by destruct (ToLower (TrimSpace (Pattern r))).
Qed.

(** Formatting codes cannot hide a highlight or make one: what is left after
    stripping holds no code byte and is stripped to itself, and whether a message is
    a highlight depends only on it. *)
Theorem highlight_ignores_codes text nick rules network :
  Forall (fun c => codeByte c = false) (stripCodes text) /\
  stripCodes (stripCodes text) = stripCodes text /\
  highlightText text nick rules network = highlightText (stripCodes text) nick rules network.
Proof.
  assert (stripCodes (stripCodes text) = stripCodes text) as Hid.
  { apply strip_plain. intros c. apply stripped_plain. }
  split; [apply Forall_forall; intros c; apply stripped_plain|]. split; [done|].
  unfold highlightText. rewrite Hid. case_bool_decide as Ht; [subst; done|]. case_bool_decide as Hs; [|done].
  assert (mentionsMe (stripCodes text) nick = false) as ->; [|rewrite Hs; apply nothing_to_match].
  unfold mentionsMe. case_bool_decide as Hn; [done|]. rewrite Hs. apply foldNick_nonempty in Hn.
  change (runes (foldNick (stripCodes []))) with (@nil Z). by destruct (runes (foldNick nick)).
Qed.

Lemma prefix_fold_spec nick rs post :
  prefix_fold nick rs = Some post <-> exists mid, rs = mid ++ post /\ Forall2 (fun n r => rune_fold_eq n r = true) nick mid.
Proof.
  revert rs. induction nick as [|n nick IH]; intros rs; simpl.
  - split; [intros [= ->]; by exists []|]. intros (mid & -> & Hm). by apply Forall2_nil_inv_l in Hm as ->.
  - destruct rs as [|r rs].
    + split; [done|]. intros (mid & E & Hm). apply Forall2_cons_inv_l in Hm as (r & k & _ & _ & ->). done.
    + destruct (rune_fold_eq n r) eqn:Er.
      * rewrite IH. split; intros (mid & E & Hm).
        -- exists (r :: mid). subst. split; [done|]. by constructor.
        -- apply Forall2_cons_inv_l in Hm as (r' & k & Hr & Hk & ->). injection E as -> ->. by exists k.
      * split; [done|]. intros (mid & E & Hm). apply Forall2_cons_inv_l in Hm as (r' & k & Hr & _ & ->). injection E as -> _. congruence.
Qed.

(** Where a boundary, or the end of the text, is required. *)
Definition at_edge (o : option Z) : Prop := match o with None => True | Some r => nickBoundary r = true end.

Lemma mention_at_spec nick start rs :
  mention_at nick start rs = true <->
  exists pre mid post, rs = pre ++ mid ++ post /\ Forall2 (fun n r => rune_fold_eq n r = true) nick mid /\
    (pre = [] -> start = true) /\ (pre <> [] -> at_edge (last pre)) /\ at_edge (head post).
Proof.
  revert start. induction rs as [|r rs IH]; intros start; cbn [mention_at].
  - rewrite orb_false_r. split.
    + intros [Hs Hp]%andb_true_iff. destruct (prefix_fold nick []) as [post|] eqn:E; [|done].
      apply prefix_fold_spec in E as (mid & E & Hm). exists [], mid, post. split_and!; try done. by destruct post.
    + intros (pre & mid & post & E & Hm & Hs & _ & Hp). destruct pre; [|done]. rewrite (Hs eq_refl). cbn.
      assert (prefix_fold nick [] = Some post) as -> by (apply prefix_fold_spec; by exists mid). by destruct post.
  - rewrite orb_true_iff, IH. split.
    + intros [[Hs Hp]%andb_true_iff|(pre & mid & post & E & Hm & H1 & H2 & H3)].
      * destruct (prefix_fold nick (r :: rs)) as [post|] eqn:E; [|done].
        apply prefix_fold_spec in E as (mid & E & Hm). exists [], mid, post. split_and!; try done. by destruct post.
      * exists (r :: pre), mid, post. subst rs. split_and!; try done. intros _. destruct pre as [|x pre]; [simpl; by apply H1|].
        cbn [last]. by apply H2.
    + intros (pre & mid & post & E & Hm & H1 & H2 & H3). destruct pre as [|x pre].
      * left. rewrite (H1 eq_refl). cbn. assert (prefix_fold nick (r :: rs) = Some post) as -> by (apply prefix_fold_spec; by exists mid).
        by destruct post.
      * right. injection E as -> ->. exists pre, mid, post. split_and!; try done.
        -- intros ->. by apply H2.
        -- intros Hn. destruct pre as [|y pre]; [done|]. by apply (H2 ltac:(done)).
Qed.

(** A mention is a whole word: a message mentions the user exactly when, after
    stripping and folding, the nick stands in it up to case with a character that no
    nick contains, or the end of the text, on either side. *)
Theorem mention_is_word text nick :
  nick <> [] ->
  mentionsMe text nick = true <->
  exists pre mid post, runes (foldNick (stripCodes text)) = pre ++ mid ++ post /\
    Forall2 (fun n r => rune_fold_eq n r = true) (runes (foldNick nick)) mid /\ at_edge (last pre) /\ at_edge (head post).
Proof.
  intros Hn. unfold mentionsMe. rewrite bool_decide_eq_false_2 by done. rewrite mention_at_spec.
  split; intros (pre & mid & post & E & Hm & Hrest).
  - exists pre, mid, post. destruct Hrest as (_ & H2 & H3). split_and!; try done. destruct pre; [done|]. by apply H2.
  - exists pre, mid, post. destruct Hrest as [H1 H2]. by split_and!.
Qed.
End highlight.

Lemma mention_is_word_witness :
  @mentionsMe ascii_unicode ([x02] ++ §"hi Bo" ++ [x03; x30; x34] ++ §"b[!") §"bob{" = true.
Proof.
  apply (@mention_is_word ascii_unicode); [discriminate|].
  exists (runes §"hi "), (runes §"bob{"), (runes §"!"). split; [vm_compute; reflexivity|]. split; [|split; vm_compute; reflexivity].
  repeat constructor.
Defined.

(** ** The rate-limited error log: internal/hub/loglimit.go

    [last] is [None] for the zero time. *)

Definition storeErrLogEvery : Z := 10 * Second.

Record logLimiter := MkLimiter { last : option Z; suppressed : Z }.
Definition newLimiter : logLimiter := MkLimiter None 0.

Definition allow (l : logLimiter) (now : Z) : bool * Z * logLimiter :=
  if match last l with Some t => sat64 (now - t) <? storeErrLogEvery | None => false end
  then (false, 0, MkLimiter (last l) (suppressed l + 1))
  else (true, suppressed l, MkLimiter (Some now) 0).

(** What [printf] writes: nothing, the line, or the line with a count. *)
Inductive output := Silent | Line | LineSuppressed (n : Z).

Definition printf (l : logLimiter) (now : Z) : output * logLimiter :=
  let '(ok, n, l) := allow l now in
  (if negb ok then Silent else if 0 <? n then LineSuppressed n else Line, l).

(** The outputs of calls at the given times. *)
Fixpoint calls (l : logLimiter) (times : list Z) : list output * logLimiter :=
  match times with
  | [] => ([], l)
  | t :: times => let '(o, l) := printf l t in let '(os, l) := calls l times in (o :: os, l)
  end.

Definition reported (o : output) : Z := match o with Silent => 0 | Line => 1 | LineSuppressed n => n + 1 end.
Definition written (o : output) : bool := match o with Silent => false | _ => true end.

Definition total (os : list output) : Z := foldr (fun o a => reported o + a) 0 os.

Lemma printf_counts l t o l' : 0 <= suppressed l -> printf l t = (o, l') -> 0 <= suppressed l' /\ suppressed l + 1 = reported o + suppressed l'.
Proof.
  unfold printf, allow. intros Hs. destruct (match last l with Some _ => _ | None => _ end); cbn; intros [= <- <-]; cbn; [lia|].
  destruct (Z.ltb_spec 0 (suppressed l)); cbn; lia.
Qed.

Lemma calls_counts l times os l' :
  0 <= suppressed l -> calls l times = (os, l') -> 0 <= suppressed l' /\ suppressed l + len times = total os + suppressed l'.
Proof.
  revert l os. induction times as [|t times IH]; intros l os Hs; simpl; [intros [= <- <-]; cbn; split; [done|]; change (len []) with 0; lia|].
  destruct (printf l t) as [o l1] eqn:Ep. destruct (calls l1 times) as [os1 l2] eqn:Ec. intros [= <- <-].
  apply printf_counts in Ep as [H1 H2]; [|done]. apply IH in Ec as [H3 H4]; [|done]. rewrite len_cons. change (total (o :: os1)) with (reported o + total os1). lia.
Qed.

(** Lines written at times in the window. *)
Definition lines (os : list output) : Z := len (List.filter written os).

(** Once a line is written, none follows within the interval. *)
Lemma calls_quiet l t0 times os l' :
  last l = Some t0 -> Forall (fun t => t0 <= t < t0 + storeErrLogEvery) times -> calls l times = (os, l') -> lines os = 0.
Proof.
  revert l os. induction times as [|t times IH]; intros l os Hl Hw; simpl; [by intros [= <- <-]|].
  apply Forall_cons in Hw as [Ht Hw]. unfold printf, allow. rewrite Hl.
  assert (storeErrLogEvery = 10000000000) as Hse by reflexivity.
  rewrite (proj2 (Z.ltb_lt _ _)) by (unfold sat64, minInt64, maxInt64; lia). cbn.
  destruct (calls (MkLimiter (Some t0) (suppressed l + 1)) times) as [os1 l2] eqn:Ec. intros [= <- <-].
  unfold lines. cbn. by eapply IH; [|exact Hw|exact Ec].
Qed.

(** The log limiter: over any calls the lines written account for every call,
    each counting the ones suppressed before it, and however many calls fall within
    one interval at most one of them writes. *)
Theorem log_limited times os l' t0 :
  calls newLimiter times = (os, l') ->
  len times = total os + suppressed l' /\
  (Forall (fun t => t0 <= t < t0 + storeErrLogEvery) times -> Sorted Z.le times -> lines os <= 1).
Proof.
  intros Hc. split.
  - pose proof (calls_counts newLimiter times os l' ltac:(done) Hc) as [_ E]. cbn in E. lia.
  - intros Hw Hs. destruct times as [|t times]; [injection Hc as <- _; by vm_compute|].
    cbn in Hc. destruct (calls (MkLimiter (Some t) 0) times) as [os1 l2] eqn:Ec. injection Hc as <- _.
    apply Forall_cons in Hw as [Ht Hw]. apply Sorted_StronglySorted in Hs; [|intros ? ? ?; lia].
    apply StronglySorted_inv in Hs as [_ Hs]. unfold lines. cbn. rewrite len_cons. 
    enough (lines os1 = 0) by (unfold lines in *; lia).
    apply (calls_quiet (MkLimiter (Some t) 0) t times os1 l2); [done| |exact Ec]. rewrite Forall_forall in *. intros x Hx. specialize (Hw x Hx). specialize (Hs x Hx). cbn in Hs. lia.
Qed.

Lemma log_limited_witness :
  len [0; 1; 2] = total [Line; Silent; Silent] + 2 /\ lines [Line; Silent; Silent] <= 1.
Proof.
  destruct (log_limited [0; 1; 2] [Line; Silent; Silent] (MkLimiter (Some 0) 2) 0) as [H1 H2].
  - reflexivity.
  - split; [exact H1|]. apply H2; [repeat (apply Forall_cons; split; [vm_compute; split; congruence|]); apply Forall_nil; exact I|].
    repeat constructor; vm_compute; congruence.
Defined.
