(* ===== verification/Conn.v ===== *)
(** * The connection as the hub sees it: internal/hub/hub.go, internal/irc/manager.go

    [Conn] is the interface the hub consumes, as far as its answers depend on the
    connection's state: our nick, the channel test, the case mapping, the STATUSMSG
    prefixes, the capabilities, the history page size and the key of our last JOIN.
    [manager_conn] is the manager's implementation of it, and the history requests
    the hub makes through it are here. *)

From S2P Require Import Prelude GoStrings GoUtf8 GoNet GoTime IrcMsg ISupport Roster Sasl Handshake Outbound CapNotify.

Record Conn := MkConn {
  connNick : gostring;
  connIsChannel : gostring -> bool;
  connFold : gostring -> gostring;
  connStatusPrefixes : gostring;
  connCapEnabled : gostring -> bool;
  connHistoryPageSize : Z;
  connChannelKey : gostring -> gostring
}.

(** What the hub relies on: folding is idempotent and does not lengthen a name
    into or out of the empty one. *)
Class ConnLaws (c : Conn) : Prop := {
  conn_fold_idem s : connFold c (connFold c s) = connFold c s;
  conn_fold_nil s : connFold c s = [] <-> s = []
}.

Definition StatusPrefixes (isup : isupport) : gostring := default [] (Raw isup §"STATUSMSG").

Definition HistoryPageSize (isup : isupport) : Z :=
  match Raw isup §"CHATHISTORY" with
  | Some v => match Atoi v with
              | (n, true) => if (n >? 0) && (n <? 100) then n else 100
              | (_, false) => 100
              end
  | None => 100
  end.

(** The manager's answers. *)
Definition manager_conn (isup : isupport) (nick : gostring) (caps : Caps) (s : Sender) : Conn := {|
  connNick := nick;
  connIsChannel := IsChannel isup;
  connFold := Fold isup;
  connStatusPrefixes := StatusPrefixes isup;
  connCapEnabled := fun name => CapEnabled name caps;
  connHistoryPageSize := HistoryPageSize isup;
  connChannelKey := fun ch => ChannelKey isup ch s
|}.

#[global] Instance manager_conn_laws isup nick caps s : ConnLaws (manager_conn isup nick caps s).
Proof.
  split; cbn; [apply Fold_idem|]. intros t. pose proof (Fold_length isup t) as Hl.
  split; intros E; [rewrite E in Hl; by destruct t|by rewrite E in *; apply nil_length_inv].
Qed.

Section history.
Context `{Unicode, IrcV4}.

(** The resume point of a CHATHISTORY request: the msgid when the server takes
    msgids and the line fits, the instant otherwise. *)
Definition history_selector (isup : isupport) (target : gostring) (sinceMs : Z) (msgid : gostring) : gostring :=
  let byTime := §"timestamp=" ++ formatMilli sinceMs in
  if msgid == [] then byTime
  else
    let allowed := match Raw isup §"MSGREFTYPES" with None => true | Some refs => mechListed refs §"msgid" end in
    let cand := newMsg §"CHATHISTORY" [§"AFTER"; target; §"msgid=" ++ msgid; Itoa (HistoryPageSize isup)] in
    if allowed && bool_decide (checkLineLen cand (lineLen isup) = None) then §"msgid=" ++ msgid else byTime.

(** The first result is whether a full queue dropped the request. *)
Definition RequestChatHistory (isup : isupport) (prefix : Z) (caps : Caps) (target : gostring) (sinceMs : Z) (msgid : gostring) (s : Sender)
    : bool * Sender :=
  if negb (CapEnabled §"draft/chathistory" caps) then (false, s)
  else
    let m := newMsg §"CHATHISTORY" [§"AFTER"; target; history_selector isup target sinceMs msgid; Itoa (HistoryPageSize isup)] in
    let '(err, s) := Send isup prefix m s in (bool_decide (err = Some ErrSendQueueFull), s).

Lemma page_size_range isup : 1 <= HistoryPageSize isup <= 100.
Proof.
  unfold HistoryPageSize. destruct (Raw _ _) as [v|]; [|lia]. destruct (Atoi v) as [n []]; [|lia].
  destruct (Z.gtb_spec n 0), (Z.ltb_spec n 100); cbn [andb]; lia.
Qed.

(** The selector names the resume point: the msgid itself, or an instant that reads
    back as the millisecond asked for. *)
Lemma selector_exact isup target sinceMs msgid :
  -62167219200000 <= sinceMs < 253402300800000 ->
  (msgid <> [] /\ history_selector isup target sinceMs msgid = §"msgid=" ++ msgid) \/
  (exists v, history_selector isup target sinceMs msgid = §"timestamp=" ++ v /\ parseRFC3339 v = Some (sinceMs * 1000000)).
Proof.
  intros Hs. unfold history_selector.
  assert (exists v, §"timestamp=" ++ formatMilli sinceMs = §"timestamp=" ++ v /\ parseRFC3339 v = Some (sinceMs * 1000000)) as Ht
    by (exists (formatMilli sinceMs); split; [done|by apply parse_format]).
  case_bool_decide; [by right|]. cbv zeta. destruct (_ && _); [by left|by right].
Qed.
End history.
