(* ===== verification/StoreQuery.v ===== *)
(** * Lookups the hub makes in the store: internal/store/store.go, push.go, monitor.go

    Finding buffers by folded name, their state, the rows of one network, the
    remaining wrappers of append, and the monitored nicks. *)

From S2P Require Import Prelude GoStrings GoUtf8 Ring Store.

Definition AppendFolded := fun lim now network target f m =>
  append lim now network target m (MkOpts true (Some f) None true).
Definition AppendFoldedGuarded := fun lim now network target f g m =>
  append lim now network target m (MkOpts true (Some f) (Some g) true).

Definition FindBuffer (network target : gostring) (f : gostring -> gostring) (st : Store) : option gostring := fold_scan network target f st.
Definition CanonicalBuffer (network target : gostring) (f : gostring -> gostring) (st : Store) : gostring := canonicalLocked network target (Some f) st.

(** Whether the buffer is archived, [None] when there is none of that name. *)
Definition BufferState (lim : limits) (network target : gostring) (st : Store) : option bool * Store :=
  match bufferID lim network target false st with
  | (None, st) => (None, st)
  | (Some id, st) => (archived <$> db st !! id, st)
  end.

Definition MessageRedacted (lim : limits) (network target msgid : gostring) (st : Store) : bool * Store :=
  if msgid == [] then (false, st)
  else
    match bufferID lim network target false st with
    | (None, st) => (false, st)
    | (Some id, st) =>
        match db st !! id with
        | None => (false, st)
        | Some b => (match head (List.filter (fun m => (MsgID m != []) && (MsgID m == ClampMsgID msgid)) (table b)) with
                     | Some m => Redacted m
                     | None => false
                     end, st)
        end
    end.

(** The newest timestamp of a buffer in milliseconds, 0 without rows. *)
Definition last_ts (b : Buffer) : Z := match table b with [] => 0 | m :: l => foldl (fun t x => Z.max t (UnixMilli (Time x))) (UnixMilli (Time m)) l end.

(** ORDER BY name, of the visible buffers of the network. *)
Definition name_le (a b : gostring * Z) : Prop := str_le a.1 b.1.
#[global] Instance name_le_dec a b : Decision (name_le a b).
Proof. unfold name_le. apply _. Defined.

Definition NetworkBuffers (network : gostring) (st : Store) : list (gostring * Z) :=
  merge_sort name_le
    ((fun e : Z * Buffer => (bName e.2, last_ts e.2)) <$>
      List.filter (fun e => (bNetwork e.2 == network) && negb (archived e.2)) (map_to_list (db st))).

(** ** The monitored nicks *)

Abbreviation monitors := (gmap gostring (gset gostring)).

Definition Monitors (network : gostring) (t : monitors) : list gostring := sort_Strings (elements (default ∅ (t !! network))).
Definition AddMonitor (network nick : gostring) (t : monitors) : monitors := <[network := {[nick]} ∪ default ∅ (t !! network)]> t.
Definition RemoveMonitor (network nick : gostring) (t : monitors) : monitors := alter (fun s => s ∖ {[nick]}) network t.
