(* ===== verification/HubRoute.v ===== *)
(** * Where a message belongs: internal/hub/hub.go

    How the hub files a server message: the buffer of live and of replayed
    messages, the stored form with its timestamp and search text, what a message
    says about archived buffers and member lists.  The state the hub keeps is in
    [Hub]. *)

From S2P Require Import Prelude GoStrings GoUtf8 GoTime Ring Store IrcMsg ServeLoop Conn.

(** ** Events *)

(** [irc.Event] for a message: [evTime] is the local receipt time, in nanoseconds. *)
Record Event := MkEvent {
  evNetwork : gostring;
  evMsg : IrcMsg.Message;
  evTime : Z;
  evAffected : list gostring;
  evGen : Z
}.

Definition tag (m : IrcMsg.Message) (k : gostring) : gostring := default [] (Tags m !! k).
Definition sender (m : IrcMsg.Message) : gostring := match mPrefix m with Some p => pName p | None => [] end.

Definition serverBufferTarget : gostring := §"*".
Definition isServerBuffer (target : gostring) : bool := target == serverBufferTarget.

Section route.
Context `{IrcV4}.
(** [queryOpen] asks the store, whose state is [S], whether a query is open. *)
Context {S : Type} (queryOpen : gostring -> S -> bool * S).

(** ** The buffer of a live message *)

Definition stripStatusPrefix (target statusPrefixes : gostring) (isChan : gostring -> bool) : gostring :=
  match target with
  | c :: rest => if negb (rest == []) && ContainsByte statusPrefixes c && isChan rest then rest else target
  | [] => target
  end.

Definition ctcpDelim : gostring := [x01].
Definition actionPrefix : gostring := x01 :: §"ACTION ".

(** CTCP other than ACTION is no conversation. *)
Definition ctcp_chatter (m : IrcMsg.Message) : bool :=
  HasPrefix (Trailing m) ctcpDelim && negb (HasPrefix (Trailing m) (x01 :: §"ACTION")).

Definition noticeTarget (m : IrcMsg.Message) (t ourNick : gostring) (fold : gostring -> gostring) (s : S) : option gostring * S :=
  let own := bool_decide (is_Some (mPrefix m)) && (ourNick != []) && (fold (sender m) == fold ourNick) in
  if own then
    (if (t != []) && (fold t != fold ourNick) then Some t else None, s)
  else if (t == serverBufferTarget) || (ourNick == []) || (fold t == fold ourNick) then
    if bool_decide (is_Some (mPrefix m)) && (sender m != []) then
      let '(isOpen, s) := queryOpen (sender m) s in (Some (if isOpen : bool then sender m else serverBufferTarget), s)
    else (Some serverBufferTarget, s)
  else (None, s).

Definition directTarget (m : IrcMsg.Message) (ourNick : gostring) (isChan : gostring -> bool) (fold : gostring -> gostring)
    (statusPrefixes : gostring) (s : S) : option gostring * S :=
  if ctcp_chatter m then (None, s)
  else
    let t := stripStatusPrefix (Param m 0) statusPrefixes isChan in
    if isChan t then (Some t, s)
    else if Command m == §"NOTICE" then noticeTarget m t ourNick fold s
    else if bool_decide (mPrefix m = None) || (sender m == []) || (ourNick == []) then (None, s)
    else if fold t == fold ourNick then (Some (sender m), s)
    else if (fold (sender m) == fold ourNick) && (t != []) then (Some t, s)
    else (None, s).

Definition persistTarget (m : IrcMsg.Message) (ourNick : gostring) (isChan : gostring -> bool) (fold : gostring -> gostring)
    (statusPrefixes : gostring) (s : S) : option gostring * S :=
  if (Command m == §"PRIVMSG") || (Command m == §"NOTICE") then directTarget m ourNick isChan fold statusPrefixes s
  else if (Command m == §"JOIN") || (Command m == §"PART") || (Command m == §"TOPIC") || (Command m == §"KICK") || (Command m == §"MODE") then
    (if isChan (Param m 0) then Some (Param m 0) else None, s)
  else (None, s).

(** ** The buffer of a replayed message *)

Definition replayTarget (m : IrcMsg.Message) (batchTarget : gostring) (c : Conn) : option gostring :=
  if ctcp_chatter m then None
  else
    let t := stripStatusPrefix batchTarget (connStatusPrefixes c) (connIsChannel c) in
    if t == [] then None else Some t.

(** [batch] is the target of the open batch a replayed message belongs to. *)
Definition persistBuffer (m : IrcMsg.Message) (c : Conn) (replay : bool) (batch : option gostring) (s : S) : option gostring * S :=
  if replay && (default [] batch != []) && ((Command m == §"PRIVMSG") || (Command m == §"NOTICE"))
  then (replayTarget m (default [] batch) c, s)
  else persistTarget m (connNick c) (connIsChannel c) (connFold c) (connStatusPrefixes c) s.

Definition redactionBuffer (m : IrcMsg.Message) (c : Conn) (target : gostring) (replay : bool) (batch : option gostring) : gostring * bool :=
  if replay && (default [] batch != []) then (default [] batch, false)
  else
    let addressedToUs := negb (connIsChannel c target) && bool_decide (is_Some (mPrefix m)) && (connFold c target == connFold c (connNick c)) in
    if addressedToUs then (sender m, true) else (target, false).

(** ** The stored form *)

Definition serverTimeSkew : Z := 5 * Minute.

(** The [time] tag when it parses and is no more than the skew past the receipt
    time. *)
Definition messageTime (now : Z) (ev : Event) : Z :=
  match Tags (evMsg ev) !! §"time" with
  | Some v =>
      match parseRFC3339 v with
      | Some t =>
          let ref := if evTime ev =? zeroTime then now else evTime ev in
          if t >? ref + serverTimeSkew then evTime ev else t
      | None => evTime ev
      end
  | None => evTime ev
  end.

Definition ctcpAction (body : gostring) : option gostring :=
  if HasPrefix body actionPrefix then Some (TrimSuffix (TrimPrefix body actionPrefix) ctcpDelim) else None.

Definition searchText (m : IrcMsg.Message) : gostring :=
  if (Command m == §"PRIVMSG") || (Command m == §"NOTICE") then
    let body := Trailing m in
    match ctcpAction body with
    | Some a => a
    | None => if HasPrefix body ctcpDelim then [] else body
    end
  else [].

Definition storeMessage (now : Z) (ev : Event) : Ring.Message :=
  let m := evMsg ev in
  MkMsg 0 [] [] (messageTime now ev) (tag m §"msgid") (sender m) (Command m) (MsgString m) (searchText m) false [].

(** ** What a message says of archives and member lists *)

Definition unarchivePolicy (command : gostring) (own replay : bool) : bool :=
  if command == §"JOIN" then own && negb replay
  else if (command == §"PART") || (command == §"QUIT") || (command == §"NICK") || (command == §"MODE") || (command == §"KICK") then false
  else negb replay.

(** [Some []] is a hint for the whole network. *)
Definition membersHint (m : IrcMsg.Message) : option gostring :=
  let c := Command m in
  if (c == §"JOIN") || (c == §"PART") || (c == §"KICK") || (c == §"TOPIC") || (c == §"MODE") then Some (Param m 0)
  else if (c == §"366") || (c == §"315") then Some (Param m 1)
  else if (c == §"QUIT") || (c == §"NICK") || (c == §"AWAY") || (c == §"ACCOUNT") || (c == §"CHGHOST") then Some []
  else None.

(** Our own line, by the current nick. *)
Definition own_line (c : Conn) (m : IrcMsg.Message) : bool :=
  bool_decide (is_Some (mPrefix m)) && (connNick c != []) && (connFold c (sender m) == connFold c (connNick c)).

(** [autojoinChange]: the channels, and whether they are added. *)
Definition autojoinChange (c : Conn) (m : IrcMsg.Message) : gostring * bool :=
  if (Command m == §"JOIN") || (Command m == §"PART") then
    (if own_line c m then (Param m 0, Command m == §"JOIN") else ([], false))
  else if Command m == §"470" then
    (if (connNick c == []) || (connFold c (Param m 0) != connFold c (connNick c)) then ([], false) else (Param m 1, false))
  else ([], false).
End route.
