(* ===== verification/HubClose.v ===== *)
(** * Closed buffers stay closed: internal/hub/hub.go

    The hub remembers for ten seconds which buffers were closed from the UI, so that
    lines already in flight do not bring them back.  The table is bounded by entries
    and by the bytes of its keys. *)

From S2P Require Import Prelude.

Definition closeGraceMs : Z := 10000.
Definition maxRecentCloses : Z := 1024.
Definition maxRecentCloseBytes : Z := Z.shiftl 1 20.

(** [recentClose] and [recentCloseBytes] of [Hub]; times in milliseconds. *)
Record Closes := MkCloses { recentClose : gmap gostring Z; recentCloseBytes : Z }.
Definition noCloses : Closes := MkCloses ∅ 0.

Definition close_key (network foldedBuffer : gostring) : gostring := network ++ [x00] ++ foldedBuffer.

Definition deleteRecentCloseLocked (key : gostring) (c : Closes) : Closes :=
  match recentClose c !! key with
  | Some _ => MkCloses (delete key (recentClose c)) (recentCloseBytes c - len key)
  | None => c
  end.

Section marks.
(** The order in which Go ranges over the map. *)
Variable iter : gmap gostring Z -> list (gostring * Z).
Hypothesis iter_perm : forall m, iter m ≡ₚ map_to_list m.

(** One step of the scan for the oldest entry. *)
Definition older_close (best : option (gostring * Z)) (e : gostring * Z) : option (gostring * Z) :=
  match best with
  | None => Some e
  | Some (_, oldest) => if e.2 <? oldest then Some e else best
  end.

(** Each round of the eviction loop removes an entry. *)
Fixpoint evict_closes (fuel : nat) (c : Closes) : Closes :=
  match fuel with
  | O => c
  | S k =>
      if (Z.of_nat (size (recentClose c)) >? maxRecentCloses) || (recentCloseBytes c >? maxRecentCloseBytes) then
        match foldl older_close None (iter (recentClose c)) with
        | None => c
        | Some (key, _) => evict_closes k (deleteRecentCloseLocked key c)
        end
      else c
  end.

Definition expire_close (nowMs : Z) (c : Closes) (e : gostring * Z) : Closes :=
  if nowMs - e.2 >? closeGraceMs then deleteRecentCloseLocked e.1 c else c.

Definition markClosed (network foldedBuffer : gostring) (nowMs : Z) (c : Closes) : Closes :=
  let c := foldl (expire_close nowMs) c (iter (recentClose c)) in
  let key := close_key network foldedBuffer in
  let bytes := match recentClose c !! key with Some _ => recentCloseBytes c | None => recentCloseBytes c + len key end in
  let c := MkCloses (<[key := nowMs]> (recentClose c)) bytes in
  evict_closes (S (size (recentClose c))) c.

Definition unmarkClosed (network foldedBuffer : gostring) (c : Closes) : Closes :=
  deleteRecentCloseLocked (close_key network foldedBuffer) c.

(** An expired entry is dropped on the way. *)
Definition recentlyClosed (network foldedBuffer : gostring) (nowMs : Z) (c : Closes) : bool * Closes :=
  match recentClose c !! close_key network foldedBuffer with
  | Some t => if nowMs - t >? closeGraceMs then (false, deleteRecentCloseLocked (close_key network foldedBuffer) c) else (true, c)
  | None => (false, c)
  end.

(** ** The accounting *)

Lemma map_sum_subset (f : gostring -> Z -> Z) (m1 m2 : gmap gostring Z) :
  (forall k x, 0 <= f k x) -> m1 ⊆ m2 -> map_sum f m1 <= map_sum f m2.
Proof.
  intros Hf. revert m2. induction m1 as [|k x m1 Hk _ IH] using map_first_key_ind; intros m2 Hsub.
  - rewrite map_sum_empty. apply map_sum_nonneg. intros. apply Hf.
  - assert (m2 !! k = Some x) as H2 by (eapply lookup_weaken; [apply lookup_insert_eq|exact Hsub]).
    rewrite map_sum_insert_None, (map_sum_delete f m2 k x H2) by done. apply Zplus_le_compat_l, IH.
    apply map_subseteq_spec. intros i y Hi. assert (i <> k) by congruence. rewrite lookup_delete_ne by done.
    eapply lookup_weaken; [|exact Hsub]. by rewrite lookup_insert_ne.
Qed.

Definition key_bytes (k : gostring) (_ : Z) : Z := len k.

(** The byte count is that of the keys; [bounded_closes] is the bound on both. *)
Definition closes_ok (c : Closes) : Prop := recentCloseBytes c = map_sum key_bytes (recentClose c).
Definition closes_bounded (c : Closes) : Prop :=
  Z.of_nat (size (recentClose c)) <= maxRecentCloses /\ recentCloseBytes c <= maxRecentCloseBytes.

Lemma delete_close_ok key c : closes_ok c -> closes_ok (deleteRecentCloseLocked key c).
Proof.
  unfold closes_ok, deleteRecentCloseLocked. intros Hc. destruct (recentClose c !! key) as [t|] eqn:E; [|done]. cbn.
  rewrite (map_sum_delete key_bytes _ _ _ E) in Hc. unfold key_bytes in *. lia.
Qed.

Lemma delete_close_size key c :
  (size (recentClose (deleteRecentCloseLocked key c)) <= size (recentClose c))%nat /\
  (is_Some (recentClose c !! key) -> S (size (recentClose (deleteRecentCloseLocked key c))) = size (recentClose c)).
Proof.
  unfold deleteRecentCloseLocked. destruct (recentClose c !! key) as [t|] eqn:E; cbn; [|split; [done|by intros [? ?]]].
  assert (size (recentClose c) <> 0%nat) by (intros Hz; apply map_size_empty_iff in Hz; rewrite Hz, lookup_empty in E; done).
  rewrite map_size_delete_Some by eauto. split; [|intros _]; lia.
Qed.

Lemma delete_close_lookup key k c :
  recentClose (deleteRecentCloseLocked key c) !! k = if decide (k = key) then None else recentClose c !! k.
Proof.
  unfold deleteRecentCloseLocked. destruct (recentClose c !! key) as [t|] eqn:E; cbn; destruct (decide (k = key)) as [->|]; try done.
  - by rewrite lookup_delete_eq.
  - by rewrite lookup_delete_ne.
Qed.

Lemma oldest_found l best : best <> None \/ l <> [] -> exists e, foldl older_close best l = Some e.
Proof.
  revert best. induction l as [|x l IH]; intros best Hb; cbn [foldl]; [destruct best as [e|]; [by exists e|by destruct Hb]|].
  apply IH. left. unfold older_close. destruct best as [[k t]|]; [by destruct (_ <? _)|done].
Qed.

Lemma oldest_member l best e : foldl older_close best l = Some e -> best = Some e \/ e ∈ l.
Proof.
  revert best. induction l as [|x l IH]; intros best; cbn [foldl]; [by left|]. intros E.
  destruct (IH _ E) as [E'|?]; [|by right; right]. unfold older_close in E'.
  destruct best as [[k t]|]; [destruct (x.2 <? t)|]; injection E' as <-; [right; left|by left|right; left].
Qed.

Lemma evict_closes_spec fuel c :
  closes_ok c -> (size (recentClose c) < fuel)%nat ->
  closes_ok (evict_closes fuel c) /\ closes_bounded (evict_closes fuel c) /\
  (closes_bounded c -> evict_closes fuel c = c).
Proof.
  revert c. induction fuel as [|k IH]; intros c Hok Hf; [lia|]. cbn [evict_closes].
  destruct (_ || _) eqn:E; [|split; [done|]; unfold closes_bounded; split; [lia|done]].
  assert (closes_bounded c -> False) as Hnb by (unfold closes_bounded; lia).
  assert (iter (recentClose c) <> []) as Hne.
  { intros Hn. pose proof (iter_perm (recentClose c)) as Hp. rewrite Hn in Hp. apply Permutation_nil_l in Hp.
    symmetry in Hp. apply map_to_list_empty_iff in Hp. apply Hnb. unfold closes_bounded. rewrite Hok, Hp, map_sum_empty. by vm_compute. }
  destruct (oldest_found _ None (or_intror Hne)) as [[key t] Eo]. rewrite Eo.
  apply oldest_member in Eo as [?|Ein]; [done|]. rewrite iter_perm in Ein. apply elem_of_map_to_list in Ein.
  destruct (delete_close_size key c) as [_ Hs]. specialize (Hs (mk_is_Some _ _ Ein)).
  destruct (IH _ (delete_close_ok key c Hok)) as (H1 & H2 & _); [lia|]. split; [done|]. split; [done|]. intros Hb. by destruct Hnb.
Qed.

Lemma expire_spec now l c :
  closes_ok c ->
  let c' := foldl (expire_close now) c l in
  closes_ok c' /\ (size (recentClose c') <= size (recentClose c))%nat /\
  (forall k t, recentClose c' !! k = Some t -> recentClose c !! k = Some t) /\
  (forall k t, recentClose c !! k = Some t -> (forall e, e ∈ l -> e.1 = k -> now - e.2 <= closeGraceMs) -> recentClose c' !! k = Some t).
Proof.
  revert c. induction l as [|x l IH]; intros c Hok; cbn [foldl]; [done|].
  assert (closes_ok (expire_close now c x) /\ (size (recentClose (expire_close now c x)) <= size (recentClose c))%nat) as [H1 H2].
  { unfold expire_close. destruct (_ >? _); [|done]. split; [by apply delete_close_ok|apply delete_close_size]. }
  destruct (IH _ H1) as (J1 & J2 & J3 & J4). cbv zeta. split; [done|]. split; [lia|]. split.
  - intros k t Hk. apply J3 in Hk. unfold expire_close in Hk. destruct (_ >? _); [|done]. rewrite delete_close_lookup in Hk.
    by destruct (decide (k = x.1)).
  - intros k t Hk Hl. apply J4; [|intros e He; apply Hl; by right]. unfold expire_close.
    destruct (Z.gtb_spec (now - x.2) closeGraceMs); [|done]. rewrite delete_close_lookup.
    destruct (decide (k = x.1)) as [->|]; [|done]. specialize (Hl x ltac:(left) eq_refl). lia.
Qed.

(** ** Runs *)

Inductive closeOp :=
  | OpMark (network foldedBuffer : gostring) (now : Z)
  | OpUnmark (network foldedBuffer : gostring)
  | OpAsk (network foldedBuffer : gostring) (now : Z).

Definition close_apply (c : Closes) (o : closeOp) : Closes :=
  match o with
  | OpMark n b t => markClosed n b t c
  | OpUnmark n b => unmarkClosed n b c
  | OpAsk n b t => (recentlyClosed n b t c).2
  end.

Definition marks (ops : list closeOp) : list gostring :=
  omap (fun o => match o with OpMark n b _ => Some (close_key n b) | _ => None end) ops.

(** The table while [room] holds no entry back. *)
Definition room (c : Closes) (ks : list gostring) : Prop :=
  Z.of_nat (size (recentClose c)) + Z.of_nat (length ks) <= maxRecentCloses /\
  recentCloseBytes c + foldr (fun k n => len k + n) 0 ks <= maxRecentCloseBytes.

Lemma mark_spec n b t c :
  closes_ok c ->
  let c' := markClosed n b t c in
  closes_ok c' /\ closes_bounded c' /\
  (forall ks, room c (close_key n b :: ks) ->
    room c' ks /\ recentClose c' !! close_key n b = Some t /\
    (forall k u, k <> close_key n b -> recentClose c !! k = Some u -> t - u <= closeGraceMs -> recentClose c' !! k = Some u)).
Proof.
  intros Hok. cbv zeta. unfold markClosed. set (c1 := foldl (expire_close t) c (iter (recentClose c))). set (key := close_key n b).
  destruct (expire_spec t (iter (recentClose c)) c Hok) as (H1 & H2 & H3 & H4). fold c1 in H1, H2, H3, H4.
  set (bytes := match recentClose c1 !! key with Some _ => _ | None => _ end).
  set (c2 := MkCloses (<[key := t]> (recentClose c1)) bytes).
  assert (closes_ok c2) as Hok2.
  { unfold closes_ok in *. subst c2 bytes. cbn. destruct (recentClose c1 !! key) as [u|] eqn:E.
    - rewrite (map_sum_replace _ _ _ _ _ E). assert (key_bytes key t = key_bytes key u) by done. lia.
    - rewrite map_sum_insert_None by done. assert (key_bytes key t = len key) by done. lia. }
  destruct (evict_closes_spec (S (size (recentClose c2))) c2 Hok2) as (E1 & E2 & E3); [lia|].
  split; [done|]. split; [done|]. intros ks [R1 R2]. cbn [length foldr] in R1, R2. fold key in R1, R2.
  assert (recentCloseBytes c1 <= recentCloseBytes c) as Hb.
  { rewrite H1, Hok. apply map_sum_subset; [intros k u; apply len_nonneg|apply map_subseteq_spec; exact H3]. }
  assert (size (recentClose c2) <= S (size (recentClose c1)))%nat as Hs2 by (subst c2; cbn; rewrite map_size_insert; destruct (recentClose c1 !! key); cbn; lia).
  assert (recentCloseBytes c2 <= recentCloseBytes c1 + len key) as Hb2.
  { subst c2 bytes. cbn. destruct (recentClose c1 !! key); pose proof (len_nonneg key); lia. }
  rewrite E3 by (unfold closes_bounded; assert (0 <= foldr (fun k n => len k + n) 0 ks) by (clear; induction ks as [|k ks IH]; cbn; [done|pose proof (len_nonneg k); lia]); lia).
  split; [split; lia|]. split; [subst c2; cbn; by rewrite lookup_insert_eq|].
  intros k u Hk Hu Hg. subst c2. cbn. rewrite lookup_insert_ne by done. apply H4; [done|]. intros e He <-.
  rewrite iter_perm in He. destruct e as [k u']. apply elem_of_map_to_list in He. cbn in *. rewrite Hu in He. injection He as <-. done.
Qed.

Lemma delete_close_room key c ks : closes_ok c -> room c ks -> room (deleteRecentCloseLocked key c) ks.
Proof.
  intros Hok [R1 R2]. destruct (delete_close_size key c) as [Hs _]. split; [lia|].
  unfold deleteRecentCloseLocked. destruct (recentClose c !! key); [|done]. cbn. pose proof (len_nonneg key). lia.
Qed.

Lemma close_apply_spec c o ks :
  closes_ok c -> closes_bounded c ->
  closes_ok (close_apply c o) /\ closes_bounded (close_apply c o) /\ (room c (marks [o] ++ ks) -> room (close_apply c o) ks).
Proof.
  intros Hok [B1 B2].
  assert (forall key, closes_bounded (deleteRecentCloseLocked key c)) as Hd.
  { intros key. destruct (delete_close_size key c) as [Hs _]. split; [lia|]. unfold deleteRecentCloseLocked.
    destruct (recentClose c !! key); [|done]. cbn. pose proof (len_nonneg key). lia. }
  destruct o as [n b t|n b|n b t]; cbn [close_apply marks omap list_omap app].
  - destruct (mark_spec n b t c Hok) as (H1 & H2 & H3). split; [done|]. split; [done|]. intros Hr. by apply H3.
  - split; [by apply delete_close_ok|]. split; [apply Hd|]. by apply delete_close_room.
  - unfold recentlyClosed. destruct (recentClose c !! _) as [u|]; [destruct (_ >? _)|]; cbn [snd]; try done.
    split; [by apply delete_close_ok|]. split; [apply Hd|]. by apply delete_close_room.
Qed.

Lemma close_run_spec ops c ks :
  closes_ok c -> closes_bounded c ->
  let c' := foldl close_apply c ops in
  closes_ok c' /\ closes_bounded c' /\ (room c (marks ops ++ ks) -> room c' ks).
Proof.
  revert c. induction ops as [|o ops IH]; intros c Hok Hb; cbn [foldl]; [done|].
  destruct (close_apply_spec c o (marks ops ++ ks) Hok Hb) as (H1 & H2 & H3). destruct (IH _ H1 H2) as (J1 & J2 & J3).
  split; [done|]. split; [done|]. intros Hr. apply J3, H3.
  replace (marks (o :: ops)) with (marks [o] ++ marks ops) in Hr by by destruct o. by rewrite app_assoc.
Qed.

(** What leaves the entry of [key], made at [t], alone: nothing that names it, and
    no mark late enough to expire it. *)
Definition spares (key : gostring) (t : Z) (o : closeOp) : Prop :=
  match o with
  | OpMark n b u => close_key n b <> key /\ u - t <= closeGraceMs
  | OpUnmark n b => close_key n b <> key
  | OpAsk n b u => close_key n b <> key \/ u - t <= closeGraceMs
  end.

Lemma spared key t ops c :
  closes_ok c -> closes_bounded c -> room c (marks ops) -> Forall (spares key t) ops -> recentClose c !! key = Some t ->
  recentClose (foldl close_apply c ops) !! key = Some t.
Proof.
  revert c. induction ops as [|o ops IH]; intros c Hok Hb Hr Hs Hk; cbn [foldl]; [done|]. apply Forall_cons in Hs as [Ho Hs].
  replace (marks (o :: ops)) with (marks [o] ++ marks ops) in Hr by by destruct o.
  destruct (close_apply_spec c o (marks ops) Hok Hb) as (H1 & H2 & H3). apply IH; [done|done|by apply H3|done|].
  destruct o as [n b u|n b|n b u]; cbn [close_apply spares marks omap list_omap app] in *.
  - destruct (mark_spec n b u c Hok) as (_ & _ & M). apply (M (marks ops)); [exact Hr|naive_solver..].
  - unfold unmarkClosed. rewrite delete_close_lookup. by destruct (decide (key = close_key n b)); [subst; done|].
  - unfold recentlyClosed. destruct (recentClose c !! close_key n b) as [v|] eqn:E; [|done]. destruct (Z.gtb_spec (u - v) closeGraceMs); [|done].
    cbn [snd]. rewrite delete_close_lookup. destruct (decide (key = close_key n b)) as [->|]; [|done]. rewrite Hk in E. injection E as ->.
    destruct Ho; [done|lia].
Qed.

(** The table of closed buffers: its byte count is exact and its bounds hold after
    any sequence of operations, and while the closes fit them, a buffer closed at
    [t] reads as closed for the whole grace period unless it is reopened. *)
Theorem close_grace_holds before n b t after now :
  let c := foldl close_apply noCloses (before ++ OpMark n b t :: after) in
  closes_ok c /\ closes_bounded c /\
  (room noCloses (marks (before ++ OpMark n b t :: after)) -> Forall (spares (close_key n b) t) after ->
   now - t <= closeGraceMs -> (recentlyClosed n b now c).1 = true).
Proof.
  assert (closes_ok noCloses /\ closes_bounded noCloses) as [H0 B0] by by vm_compute.
  cbv zeta. destruct (close_run_spec (before ++ OpMark n b t :: after) noCloses [] H0 B0) as (H1 & H2 & _).
  split; [done|]. split; [done|]. clear H1 H2. intros Hr Hs Hn. rewrite foldl_app. cbn [foldl close_apply].
  destruct (close_run_spec before noCloses (marks (OpMark n b t :: after)) H0 B0) as (J1 & J2 & J3).
  set (c1 := foldl close_apply noCloses before) in *. unfold marks in Hr. rewrite omap_app in Hr. specialize (J3 Hr).
  destruct (mark_spec n b t c1 J1) as (M1 & M2 & M3). destruct (M3 _ J3) as (R & Hk & _).
  unfold recentlyClosed. rewrite (spared _ _ _ _ M1 M2 R Hs Hk). destruct (Z.gtb_spec (now - t) closeGraceMs); [lia|done].
Qed.
End marks.
