(* ===== verification/HubInfo.v ===== *)
(** * Replies shown but not stored: internal/hub/hub.go

    The gate of requested MOTDs, the server_info lines and the WHOIS cards. *)

From S2P Require Import Prelude GoStrings GoUtf8 Store IrcMsg HubRoute.

Definition maxServerInfoBytes : Z := 2048.
Definition clampServerInfo (s : gostring) : gostring := clampUTF8 s maxServerInfoBytes.
(** The copy into a fresh allocation is the same string. *)
Definition clampDetach (s : gostring) : gostring := clampServerInfo s.

Lemma clampUTF8_len s mx : 0 <= mx -> len (clampUTF8 s mx) <= mx.
Proof.
  intros Hm. unfold clampUTF8. destruct (Z.leb_spec (len s) mx); [done|]. etrans; [apply trim_partial_len|]. by apply len_slice_to_le.
Qed.

(** ** The MOTD gate *)

Definition maxPendingMOTD : Z := 8.

(** [motdWanted]: per network, the targets of the outstanding requests. *)
Abbreviation motds := (gmap gostring (list gostring)).

Definition motd_queue (network : gostring) (m : motds) : list gostring := default [] (m !! network).
Definition set_motd (network : gostring) (q : list gostring) (m : motds) : motds :=
  if q == [] then delete network m else <[network := q]> m.

Definition expectMOTD (network target : gostring) (m : motds) : motds :=
  let q := motd_queue network m ++ [target] in
  <[network := if len q >? maxPendingMOTD then slice_from q (len q - maxPendingMOTD) else q]> m.

(** The first element satisfying [p], removed. *)
Fixpoint remove_first (p : gostring -> bool) (q : list gostring) : list gostring :=
  match q with
  | [] => []
  | x :: q => if p x then q else x :: remove_first p q
  end.

Definition retractMOTD (network target : gostring) (m : motds) : motds :=
  set_motd network (reverse (remove_first (fun x => x == target) (reverse (motd_queue network m)))) m.

Definition clearMOTD (network : gostring) (m : motds) : motds := delete network m.

Section info.
Context `{Unicode, IrcV4}.

Definition consumeMOTDTarget (network target : gostring) (m : motds) : motds :=
  if target == [] then m
  else set_motd network (remove_first (fun x => (x != []) && EqualFold x target) (motd_queue network m)) m.

Definition ends_motd (cmd : gostring) : bool := (cmd == §"376") || (cmd == §"422").

Definition motdExpected (network cmd : gostring) (m : motds) : bool * motds :=
  let q := motd_queue network m in
  (negb (q == []),
   if ends_motd cmd then (if len q >? 1 then <[network := drop 1 q]> m else delete network m) else m).

(** ** server_info lines *)

Definition serverInfoNumerics : list gostring :=
  [§"301"; §"305"; §"306"; §"307"; §"314"; §"369"; §"352"; §"321"; §"322"; §"323"; §"324"; §"329"; §"367"; §"368"; §"341"].

Definition serverInfo (network : gostring) (msg : IrcMsg.Message) (m : motds) : option gostring * motds :=
  let cmd := Command msg in
  match Atoi cmd with
  | (_, false) => (None, m)
  | (n, true) =>
      let '(shown, m) :=
        if (cmd == §"375") || (cmd == §"372") || (cmd == §"376") || (cmd == §"422") then motdExpected network cmd m
        else if cmd == §"402" then (true, match Params msg with _ :: s :: _ => consumeMOTDTarget network s m | _ => m end)
        else (bool_decide (cmd ∈ serverInfoNumerics) || ((400 <=? n) && (n <? 600)), m) in
      if negb shown then (None, m)
      else
        let params := match Params msg with _ :: (_ :: _) as rest => rest | ps => ps end in
        let txt := TrimSpace (Join params §" ") in
        (if txt == [] then None else Some (clampServerInfo txt), m)
  end.

(** ** WHOIS cards *)

Definition maxOpenWhois : Z := 64.

Record WhoisData := MkWhois {
  wNick : gostring; wUser : gostring; wHost : gostring; wRealname : gostring; wServer : gostring; wChannels : gostring;
  wAccount : gostring; wActual : gostring; wAway : gostring;
  wOperator : bool; wBot : bool; wSecure : bool; wIdle : Z; wSignon : Z
}.

Definition newWhois (nick : gostring) : WhoisData := MkWhois nick [] [] [] [] [] [] [] [] false false false 0 0.

Definition atoiOr0 (s : gostring) : Z := match Atoi s with (n, true) => n | (_, false) => 0 end.

Definition midParams (m : IrcMsg.Message) (from : nat) : list gostring := drop from (take (length (Params m) - 1) (Params m)).

Definition set_away (a : gostring) (w : WhoisData) : WhoisData :=
  MkWhois (wNick w) (wUser w) (wHost w) (wRealname w) (wServer w) (wChannels w) (wAccount w) (wActual w) a
    (wOperator w) (wBot w) (wSecure w) (wIdle w) (wSignon w).
Definition set_actual (a : gostring) (w : WhoisData) : WhoisData :=
  MkWhois (wNick w) (wUser w) (wHost w) (wRealname w) (wServer w) (wChannels w) (wAccount w) a (wAway w)
    (wOperator w) (wBot w) (wSecure w) (wIdle w) (wSignon w).

Definition applyWhois (w : WhoisData) (m : IrcMsg.Message) : WhoisData :=
  let '(MkWhois nick user host real server chans account actual away oper bot secure idle signon) := w in
  let c := Command m in
  if c == §"311" then MkWhois nick (clampDetach (Param m 2)) (clampDetach (Param m 3)) (clampDetach (Trailing m)) server chans account actual away oper bot secure idle signon
  else if c == §"312" then MkWhois nick user host real (clampDetach (Param m 2)) chans account actual away oper bot secure idle signon
  else if c == §"313" then MkWhois nick user host real server chans account actual away true bot secure idle signon
  else if c == §"317" then MkWhois nick user host real server chans account actual away oper bot secure (atoiOr0 (Param m 2)) (atoiOr0 (Param m 3))
  else if c == §"319" then MkWhois nick user host real server (clampDetach (TrimSpace (chans ++ §" " ++ Trailing m))) account actual away oper bot secure idle signon
  else if c == §"330" then MkWhois nick user host real server chans (clampDetach (Param m 2)) actual away oper bot secure idle signon
  else if c == §"335" then MkWhois nick user host real server chans account actual away oper true secure idle signon
  else if c == §"338" then
    let mid := Join (midParams m 2) §" " in
    if (mid != []) && (actual == []) then set_actual (clampDetach mid) w else w
  else if c == §"378" then
    if actual == [] then set_actual (clampDetach (TrimPrefix (Trailing m) §"is connecting from ")) w else w
  else if c == §"671" then MkWhois nick user host real server chans account actual away oper bot true idle signon
  else w.

Definition clampWhois (w : WhoisData) : WhoisData :=
  MkWhois (clampDetach (wNick w)) (clampDetach (wUser w)) (clampDetach (wHost w)) (clampDetach (wRealname w)) (clampDetach (wServer w))
    (clampDetach (wChannels w)) (clampDetach (wAccount w)) (clampDetach (wActual w)) (clampDetach (wAway w))
    (wOperator w) (wBot w) (wSecure w) (wIdle w) (wSignon w).

Definition whois_numerics : list gostring :=
  [§"311"; §"312"; §"313"; §"317"; §"319"; §"330"; §"335"; §"338"; §"378"; §"379"; §"671"].

(** Whether the message was consumed, and the card to send. *)
Definition accumulateWhois (fold : gostring -> gostring) (m : IrcMsg.Message) (whois : gmap gostring WhoisData)
    : bool * option WhoisData * gmap gostring WhoisData :=
  if bool_decide (Command m ∈ whois_numerics) then
    let nick := clampDetach (Param m 1) in
    if nick == [] then (true, None, whois)
    else
      let key := fold nick in
      match whois !! key with
      | Some w => (true, None, <[key := applyWhois w m]> whois)
      | None =>
          if maxOpenWhois <=? Z.of_nat (size whois) then (true, None, whois)
          else (true, None, <[key := applyWhois (newWhois nick) m]> whois)
      end
  else if Command m == §"301" then
    let key := fold (clampServerInfo (Param m 1)) in
    match whois !! key with
    | Some w => (true, None, <[key := set_away (clampDetach (Trailing m)) w]> whois)
    | None => (false, None, whois)
    end
  else if Command m == §"318" then
    let key := fold (clampServerInfo (Param m 1)) in
    match whois !! key with
    | Some w => (true, Some (clampWhois w), delete key whois)
    | None => (true, None, whois)
    end
  else (false, None, whois).
End info.
