(* ===== verification/Hub.v ===== *)
(** * The hub's event loop: internal/hub/hub.go

    [Run] consumes the events of one network: it persists and publishes messages,
    applies redactions and read markers, follows chathistory replays and asks for
    their next pages, and synchronises once a connection has registered.  [Hub] is
    what every network shares, [Loop] the local variables of one [Run].  Everything
    the loop tells the browsers, the connection and the push scheduler is an [act].

    SQL statements are taken to succeed, as in [Store]; a canceled context, which
    ends the loop, is not modelled. *)

From S2P Require Import Prelude GoStrings GoUtf8 GoTime Ring Store StoreQuery IrcMsg ServeLoop Conn HubRoute HubClose HubInfo.

(** ** What comes out *)

(** The broadcast envelopes; their network is the one of the event. *)
Inductive envelope :=
  | EnvEvent (m : Ring.Message)
  | EnvState (state err : gostring)
  | EnvServerInfo (text : gostring)
  | EnvMembersChanged (buffer : gostring)
  | EnvPresence (nick : gostring) (online : bool)
  | EnvWhois (w : WhoisData)
  | EnvHistoryChanged (buffer : gostring)
  | EnvReadMarker (buffer : gostring) (ms : Z)
  | EnvTyping (buffer nick state : gostring)
  | EnvRedact (buffer msgid byNick reason : gostring)
  | EnvMonitorsChanged.

Record pushCandidate := MkCandidate {
  pcBuffer : gostring; pcSender : gostring; pcText : gostring; pcNick : gostring; pcTS : Z; pcMsgID : gostring; pcChannelLike : bool
}.

Inductive act :=
  | Broadcast (e : envelope)
  | RequestHistory (target : gostring) (sinceMs : Z) (msgid : gostring)
  | ConnSend (m : IrcMsg.Message)
  | ReconcileMonitored (desired : list gostring)
  | MonitorRejected (nicks : list gostring) (limit gen : Z) (desired : list gostring)
  | UpdateAutojoin (chans : list gostring) (keys : gmap gostring gostring) (add : bool)
  | PushCandidate (c : pushCandidate)
  | MarkerAdvance (buffer : gostring) (ms : Z)
  | PushCancel (buffer msgid : gostring).

(** ** State *)

Record Hub := MkHub {
  hStore : Store;
  hMonitors : monitors;
  hCloses : Closes;
  hMotd : motds;
  hPresence : gmap gostring (gmap gostring bool);
  hStates : gmap gostring gostring;
  hPushSubs : Z
}.

Definition with_store (st : Store) (h : Hub) : Hub := MkHub st (hMonitors h) (hCloses h) (hMotd h) (hPresence h) (hStates h) (hPushSubs h).
Definition with_closes (c : Closes) (h : Hub) : Hub := MkHub (hStore h) (hMonitors h) c (hMotd h) (hPresence h) (hStates h) (hPushSubs h).
Definition with_motd (m : motds) (h : Hub) : Hub := MkHub (hStore h) (hMonitors h) (hCloses h) m (hPresence h) (hStates h) (hPushSubs h).
Definition with_presence (p : gmap gostring (gmap gostring bool)) (h : Hub) : Hub :=
  MkHub (hStore h) (hMonitors h) (hCloses h) (hMotd h) p (hStates h) (hPushSubs h).
Definition with_states (s : gmap gostring gostring) (h : Hub) : Hub :=
  MkHub (hStore h) (hMonitors h) (hCloses h) (hMotd h) (hPresence h) s (hPushSubs h).

Record histBatch := MkBatch { hbTarget : gostring; hbCount : Z; hbLastTS : Z; hbLastID : gostring; hbStarTouched : bool }.
Definition touch_star (b : histBatch) : histBatch := MkBatch (hbTarget b) (hbCount b) (hbLastTS b) (hbLastID b) true.

Record regSync := MkReg { rgRegistered : bool; rgBurstEnded : bool; rgSynced : bool }.

Record Loop := MkLoop {
  histBatches : gmap gostring histBatch;
  backfillPages : gmap gostring Z;
  whois : gmap gostring WhoisData;
  reg : regSync
}.
Definition newLoop : Loop := MkLoop ∅ ∅ ∅ (MkReg false false false).
Definition with_hist (b : gmap gostring histBatch) (l : Loop) : Loop := MkLoop b (backfillPages l) (whois l) (reg l).
Definition with_pages (p : gmap gostring Z) (l : Loop) : Loop := MkLoop (histBatches l) p (whois l) (reg l).
Definition with_whois (w : gmap gostring WhoisData) (l : Loop) : Loop := MkLoop (histBatches l) (backfillPages l) w (reg l).
Definition with_reg (r : regSync) (l : Loop) : Loop := MkLoop (histBatches l) (backfillPages l) (whois l) r.

Definition maxBackfillTargets : Z := 4096.
Definition maxBackfillPages : Z := 10.
Definition ownDedupWindow : Z := 10 * Minute.
Definition maxPersistedChannelLen : Z := 200.
Definition maxChannelKeyLen : Z := 64.
Definition maxMembershipFanout : Z := 128.

(** netconf.ValidChannelKey *)
Definition ValidChannelKey (key : gostring) : bool :=
  (key != []) && (len key <=? maxChannelKeyLen) && negb (ContainsAny key [x20; x2c; x0d; x0a; x00]).

Section hub.
Context `{Unicode, IrcV4, Sha256}.
Variable lim : limits.

(** The hub's own copy of the batch key. *)
Definition hubBatchRef (s : gostring) : gostring :=
  if len s <=? maxBatchRefBytes then s else x00 :: sha256_hex s.

(** ** Presence and monitors *)

Definition byFold (fold : gostring -> gostring) (configured : list gostring) : gmap gostring gostring :=
  foldl (fun m nk => <[fold nk := nk]> m) ∅ configured.

Definition set_presence (network key : gostring) (online : bool) (h : Hub) : Hub :=
  with_presence (<[network := <[key := online]> (default ∅ (hPresence h !! network))]> (hPresence h)) h.

Fixpoint presence_loop (c : Conn) (network : gostring) (names : gmap gostring gostring) (online : bool) (targets : list gostring) (h : Hub)
    : list act * Hub :=
  match targets with
  | [] => ([], h)
  | target :: rest =>
      let nick := (Cut (TrimSpace target) x21).1.1 in
      match names !! connFold c nick with
      | Some key =>
          if nick == [] then presence_loop c network names online rest h
          else let '(acts, h) := presence_loop c network names online rest (set_presence network key online h) in
               (Broadcast (EnvPresence key online) :: acts, h)
      | None => presence_loop c network names online rest h
      end
  end.

Definition updatePresence (c : Conn) (network : gostring) (m : IrcMsg.Message) (online : bool) (h : Hub) : list act * Hub :=
  presence_loop c network (byFold (connFold c) (Monitors network (hMonitors h))) online (Split (Trailing m) x2c) h.

Definition clearPresence (network : gostring) (h : Hub) : Hub := with_presence (delete network (hPresence h)) h.

Definition startMonitor (network : gostring) (h : Hub) : list act := [ReconcileMonitored (Monitors network (hMonitors h))].

(** ** History *)

(** The newest stored message of a buffer, (0, none) without one. *)
Definition lastStored (network target : gostring) (h : Hub) : Z * gostring * Hub :=
  let '(msgs, st) := Latest lim network target 1 (hStore h) in
  match msgs with
  | [] => (0, [], with_store st h)
  | m :: _ => (UnixMilli (Time m), MsgID m, with_store st h)
  end.

Fixpoint backfill_loop (c : Conn) (network : gostring) (infos : list (gostring * Z)) (h : Hub) : list act * Hub :=
  match infos with
  | [] => ([], h)
  | (target, lastTS) :: rest =>
      if connIsChannel c target || isServerBuffer target then backfill_loop c network rest h
      else
        let '(asks, h) :=
          if lastTS >? 0 then let '(_, msgid, h) := lastStored network target h in ([RequestHistory target lastTS msgid], h) else ([], h) in
        let marks := if connCapEnabled c §"draft/read-marker" then [ConnSend (newMsg §"MARKREAD" [target])] else [] in
        let '(acts, h) := backfill_loop c network rest h in
        (asks ++ marks ++ acts, h)
  end.

Definition backfill (c : Conn) (network : gostring) (h : Hub) : list act * Hub :=
  backfill_loop c network (NetworkBuffers network (hStore h)) h.

Definition maybeStartSync (c : Conn) (network : gostring) (h : Hub) (l : Loop) : list act * Hub * Loop :=
  let r := reg l in
  if rgSynced r || negb (rgRegistered r) || negb (rgBurstEnded r) then ([], h, l)
  else
    let '(acts, h) := backfill c network h in
    (acts ++ startMonitor network h, h, with_reg (MkReg (rgRegistered r) (rgBurstEnded r) true) l).

Definition openHistoryBatch (m : IrcMsg.Message) (ref : gostring) (batches : gmap gostring histBatch) : gmap gostring histBatch :=
  let key := hubBatchRef ref in
  if key == [] then batches
  else if maxOpenHistBatches <=? Z.of_nat (size batches) then batches
  else <[key := MkBatch (clampDetach (Param m 2)) 0 0 [] false]> batches.

Definition closeHistoryBatch (c : Conn) (network id : gostring) (h : Hub) (l : Loop) : list act * Hub * Loop :=
  match histBatches l !! id with
  | None => ([], h, l)
  | Some b =>
      let l := with_hist (delete id (histBatches l)) l in
      let key := connFold c (hbTarget b) in
      let pages := backfillPages l in
      let n := default 0 (pages !! key) in
      let '(ask, l) :=
        if bool_decide (pages !! key = None) && (maxBackfillTargets <=? Z.of_nat (size pages)) then ([], l)
        else if (connHistoryPageSize c <=? hbCount b) && (hbLastTS b >? 0) && (n <? maxBackfillPages)
        then ([RequestHistory (hbTarget b) (hbLastTS b) (hbLastID b)], with_pages (<[key := n + 1]> pages) l)
        else ([], l) in
      let hint := Broadcast (EnvHistoryChanged (CanonicalBuffer network (hbTarget b) (connFold c) (hStore h))) in
      (ask ++ hint :: (if hbStarTouched b then [Broadcast (EnvHistoryChanged serverBufferTarget)] else []), h, l)
  end.

Definition trackHistoryBatch (c : Conn) (network : gostring) (m : IrcMsg.Message) (h : Hub) (l : Loop) : list act * Hub * Loop :=
  match Params m with
  | [] => ([], h, l)
  | ref :: _ =>
      if HasPrefix ref §"+" && (Param m 1 == §"chathistory") then ([], h, with_hist (openHistoryBatch m (drop 1 ref) (histBatches l)) l)
      else if HasPrefix ref §"-" then closeHistoryBatch c network (hubBatchRef (drop 1 ref)) h l
      else ([], h, l)
  end.

Definition historyReplay (m : IrcMsg.Message) (batches : gmap gostring histBatch) : bool :=
  let ref := hubBatchRef (tag m §"batch") in
  (ref != []) && bool_decide (is_Some (batches !! ref)).

Definition noteReplayed (now : Z) (ev : Event) (b : histBatch) : histBatch :=
  let t := messageTime now ev in
  MkBatch (hbTarget b) (hbCount b + 1) (if t =? zeroTime then hbLastTS b else UnixMilli t)
    (clampDetach (tag (evMsg ev) §"msgid")) (hbStarTouched b).

(** ** Control messages *)

(** [None]: not consumed. *)
Definition handleControlNumeric (c : Conn) (ev : Event) (h : Hub) : option (list act * Hub) :=
  let m := evMsg ev in
  let cmd := Command m in
  if (cmd == §"FAIL") || (cmd == §"WARN") || (cmd == §"NOTE") then
    let txt := TrimSpace (Join (Params m) §" ") in
    Some (if txt == [] then [] else [Broadcast (EnvServerInfo (clampServerInfo (ToLower cmd ++ §": " ++ txt)))], h)
  else if cmd == §"730" then Some (updatePresence c (evNetwork ev) m true h)
  else if cmd == §"731" then Some (updatePresence c (evNetwork ev) m false h)
  else if cmd == §"734" then
    Some (match Params m with
          | _ :: limit :: nicks :: _ =>
              [MonitorRejected (Split nicks x2c) (Atoi limit).1 (evGen ev) (Monitors (evNetwork ev) (hMonitors h))]
          | _ => []
          end, h)
  else if (cmd == §"732") || (cmd == §"733") then Some ([], h)
  else None.

(** A channel of a JOIN or PART that can be persisted. *)
Definition persistable (c : Conn) (add : bool) (ch : gostring) : bool :=
  (ch != []) && connIsChannel c ch && (len ch <=? maxPersistedChannelLen)
  && negb (add && (ContainsAny ch [x20; x0d; x0a; x00] || negb (ValidString ch))).

(** [netOpsFree] is whether the lock on network operations could be taken. *)
Definition persistAutojoin (c : Conn) (netOpsFree : bool) (m : IrcMsg.Message) : list act :=
  let '(l, add) := autojoinChange c m in
  if (l == []) || negb netOpsFree then []
  else
    let chans := List.filter (persistable c add) (Split l x2c) in
    let keys := if add then foldl (fun k ch => let key := connChannelKey c ch in
                                               if ValidChannelKey key then <[ch := key]> k else k) ∅ chans else ∅ in
    if chans == [] then [] else [UpdateAutojoin chans keys add].

Definition liveHints (c : Conn) (netOpsFree : bool) (ev : Event) (h : Hub) : list act * Hub :=
  let m := evMsg ev in
  let members :=
    match membersHint m with
    | Some hint => [Broadcast (EnvMembersChanged (if hint == [] then [] else CanonicalBuffer (evNetwork ev) hint (connFold c) (hStore h)))]
    | None => []
    end in
  let invite :=
    if (Command m == §"INVITE") && bool_decide (is_Some (mPrefix m)) && (2 <=? len (Params m)) then
      let who := if connFold c (Param m 0) == connFold c (connNick c) then §"you" else Param m 0 in
      [Broadcast (EnvServerInfo (clampServerInfo (sender m ++ §" invited " ++ who ++ §" to " ++ Param m 1)))]
    else [] in
  let '(ask, h) :=
    if (Command m == §"JOIN") && own_line c m then
      let canon := CanonicalBuffer (evNetwork ev) (Param m 0) (connFold c) (hStore h) in
      let '(ts, msgid, h) := lastStored (evNetwork ev) canon h in
      (if ts >? 0 then [RequestHistory (Param m 0) ts msgid] else [], h)
    else ([], h) in
  (members ++ invite ++ ask ++ persistAutojoin c netOpsFree m, h).

(** The second result: whether the message was consumed. *)
Definition liveControlConsumed (c : Conn) (netOpsFree : bool) (ev : Event) (h : Hub) (l : Loop) : list act * bool * Hub * Loop :=
  match handleControlNumeric c ev h with
  | Some (acts, h) => (acts, true, h, l)
  | None =>
      let '(consumed, card, w) := accumulateWhois (connFold c) (evMsg ev) (whois l) in
      let l := with_whois w l in
      if (consumed : bool) then (match card with Some w => [Broadcast (EnvWhois w)] | None => [] end, true, h, l)
      else
        let forward := if Command (evMsg ev) == §"470" then persistAutojoin c netOpsFree (evMsg ev) else [] in
        let '(info, motd) := serverInfo (evNetwork ev) (evMsg ev) (hMotd h) in
        let h := with_motd motd h in
        match info with
        | Some text => (forward ++ [Broadcast (EnvServerInfo text)], true, h, l)
        | None => let '(acts, h) := liveHints c netOpsFree ev h in (forward ++ acts, false, h, l)
        end
  end.

(** ** Typing, markers, redactions *)

Definition relayTyping (c : Conn) (ev : Event) (h : Hub) : list act :=
  let m := evMsg ev in
  let state := tag m §"+typing" in
  if negb ((state == §"active") || (state == §"paused") || (state == §"done")) then []
  else if (sender m == []) || (connNick c == []) || (connFold c (sender m) == connFold c (connNick c)) then []
  else
    let buffer := stripStatusPrefix (Param m 0) (connStatusPrefixes c) (connIsChannel c) in
    let shown :=
      if connIsChannel c buffer then Some buffer
      else if connFold c buffer != connFold c (connNick c) then None else Some (sender m) in
    match shown with
    | None => []
    | Some b => [Broadcast (EnvTyping (CanonicalBuffer (evNetwork ev) b (connFold c) (hStore h)) (sender m) state)]
    end.

(** The zero time reads as no marker. *)
Definition markerMillis (t : option Z) : Z := match t with Some ms => if ms =? UnixMilli zeroTime then 0 else ms | None => 0 end.
Definition notifyMarkerAdvance (buffer : gostring) (t : option Z) : list act :=
  match t with Some ms => if ms =? UnixMilli zeroTime then [] else [MarkerAdvance buffer ms] | None => [] end.

Definition applyUpstreamMarker (c : Conn) (now : Z) (ev : Event) (h : Hub) : list act * Hub :=
  let m := evMsg ev in
  match CutPrefix (Param m 1) §"timestamp=" with
  | None => ([], h)
  | Some v =>
      if Param m 0 == [] then ([], h)
      else match parseRFC3339 v with
      | None => ([], h)
      | Some t =>
          let target := CanonicalBuffer (evNetwork ev) (Param m 0) (connFold c) (hStore h) in
          let st := SetReadMarker lim (UnixMilli now) (evNetwork ev) target (UnixMilli t) (hStore h) in
          let '(authoritative, st) := ReadMarker lim (evNetwork ev) target st in
          (Broadcast (EnvReadMarker target (markerMillis authoritative)) :: notifyMarkerAdvance target authoritative, with_store st h)
      end
  end.

(** Whether a row was scrubbed, the buffer it was in, and whether a replay touched
    the server buffer. *)
Definition scrubRedaction (network buffer msgid reason : gostring) (retryStar : bool) (h : Hub) : bool * gostring * bool * Hub :=
  let '(ok, st) := SetRedacted lim network buffer msgid reason (hStore h) in
  if ok || negb retryStar then (ok, buffer, false, with_store st h)
  else let '(ok, st) := SetRedacted lim network serverBufferTarget msgid reason st in (ok, serverBufferTarget, ok, with_store st h).

(** [batch] is the key of the open batch with its record. *)
Definition applyRedaction (c : Conn) (ev : Event) (replay : bool) (batch : option (gostring * histBatch)) (h : Hub) (l : Loop)
    : list act * Hub * Loop :=
  let m := evMsg ev in
  let target := Param m 0 in
  let msgid := Param m 1 in
  if (target == []) || (msgid == []) then ([], h, l)
  else
    let reason := if len (Params m) >? 2 then Trailing m else [] in
    let '(buffer, addressedToUs) := redactionBuffer m c target replay (hbTarget ∘ snd <$> batch) in
    let buffer := CanonicalBuffer (evNetwork ev) buffer (connFold c) (hStore h) in
    let retryStar := addressedToUs || (replay && negb (connIsChannel c target)) in
    let '(ok, buffer, star, h) := scrubRedaction (evNetwork ev) buffer msgid reason retryStar h in
    let l := match batch with
             | Some (key, b) => if replay && star then with_hist (<[key := touch_star b]> (histBatches l)) l else l
             | None => l
             end in
    let cancel := if ok then [PushCancel buffer (ClampMsgID msgid)] else [] in
    if negb ok || replay then (cancel, h, l)
    else (cancel ++ [Broadcast (EnvRedact buffer (ClampMsgID msgid) (clampServerInfo (sender m)) (clampServerInfo reason))], h, l).

(** ** Persisting *)

(** The row as a client sees it. *)
Definition eventData (m : Ring.Message) : Ring.Message :=
  MkMsg (ID m) (Network m) (Target m) (UnixMilli (Time m)) (MsgID m) (Sender m) (MCommand m)
    (if Redacted m then [] else Raw m) [] (Redacted m) (RedactReason m).

Definition queryOpen (c : Conn) (network nick : gostring) (st : Store) : bool * Store :=
  match FindBuffer network nick (connFold c) st with
  | None => (false, st)
  | Some name =>
      if connIsChannel c name then (false, st)
      else let '(state, st) := BufferState lim network name st in (bool_decide (state = Some false), st)
  end.

Definition adoptReplayedOwn (c : Conn) (now : Z) (ev : Event) (target : gostring) (st : Store) : Store :=
  let m := evMsg ev in
  let mid := tag m §"msgid" in
  if negb ((Command m == §"PRIVMSG") || (Command m == §"NOTICE")) || bool_decide (mPrefix m = None) || (mid == []) then st
  else
    let since := UnixMilli (messageTime now ev - ownDedupWindow) in
    (AdoptOwnMsgID lim (MkOwn (evNetwork ev) target (sender m) (searchText m) mid since) (Some (connFold c)) st).2.

(** Whether append will find a buffer, as its guard is told. *)
Definition append_finds (network target : gostring) (f : gostring -> gostring) (st : Store) : bool :=
  bool_decide (is_Some (bufferID lim network (canonicalLocked network (clampUTF8 target maxStoredFieldBytes) (Some f) st) false st).1).

(** Append under a guard that asks the table of closed buffers when [asks] says so:
    an answer of "expired" drops the entry. *)
Definition guardedAppend (c : Conn) (now : Z) (network target : gostring) (guard : bool -> bool -> bool) (asks : bool -> bool)
    (unarch : bool) (m : Ring.Message) (h : Hub) : option (Ring.Message * bool) * Hub :=
  let '(closed, closes) := recentlyClosed network (connFold c target) (UnixMilli now) (hCloses h) in
  let asked := negb (network == []) && negb (target == []) && asks (append_finds network target (connFold c) (hStore h)) in
  let '(res, st) := AppendFoldedGuardedArchive lim now network target (connFold c) (guard closed) unarch m (hStore h) in
  (res, with_closes (if asked then closes else hCloses h) (with_store st h)).

Definition maybePushCandidate (c : Conn) (stored : Ring.Message) (replay own : bool) (h : Hub) : list act :=
  if replay || own || (Text stored == []) || (hPushSubs h =? 0) then []
  else [PushCandidate (MkCandidate (Target stored) (Sender stored) (Text stored) (connNick c) (UnixMilli (Time stored)) (MsgID stored)
                         (connIsChannel c (Target stored) || isServerBuffer (Target stored)))].

(** Before the append of [persistEvent]: our own live JOIN reopens the buffer, and
    the replay of a message of ours claims its placeholder. *)
Definition prepareAppend (c : Conn) (now : Z) (ev : Event) (replay : bool) (target : gostring) (h : Hub) : Hub :=
  let m := evMsg ev in
  let h := if own_line c m && negb replay && (Command m == §"JOIN")
           then with_closes (unmarkClosed (evNetwork ev) (connFold c target) (hCloses h)) h else h in
  if replay && negb (connCapEnabled c §"echo-message") && ((Command m == §"PRIVMSG") || (Command m == §"NOTICE"))
  then with_store (adoptReplayedOwn c now ev target (hStore h)) h else h.

Definition persistEvent (c : Conn) (now : Z) (ev : Event) (replay : bool) (batch : option (gostring * histBatch)) (h : Hub) (l : Loop)
    : list act * Hub * Loop :=
  let m := evMsg ev in
  let network := evNetwork ev in
  let '(target, st) := persistBuffer (queryOpen c network) m c replay (hbTarget ∘ snd <$> batch) (hStore h) in
  let h := with_store st h in
  match target with
  | None => ([], h, l)
  | Some target =>
      let own := own_line c m in
      let selfPart := own && (Command m == §"PART") in
      let h := prepareAppend c now ev replay target h in
      let guard closed exists_ := if selfPart then negb exists_ || closed else (replay || connIsChannel c target) && closed in
      let asks exists_ := if selfPart then exists_ else replay || connIsChannel c target in
      let '(res, h) := guardedAppend c now network target guard asks (unarchivePolicy (Command m) own replay) (storeMessage now ev) h in
      match res with
      | None => ([], h, l)
      | Some (stored, stillArchived) =>
          if (ID stored =? 0) || stillArchived then ([], h, l)
          else
            let push := maybePushCandidate c stored replay own h in
            if negb replay then (Broadcast (EnvEvent (eventData stored)) :: push, h, l)
            else (push, h, match batch with
                           | Some (key, b) => if isServerBuffer target then with_hist (<[key := touch_star b]> (histBatches l)) l else l
                           | None => l
                           end)
      end
  end.

Definition membershipTargets (c : Conn) (ev : Event) (replay : bool) (batch : option (gostring * histBatch)) (h : Hub) : list gostring :=
  if replay then match batch with Some (_, b) => if hbTarget b == [] then [] else [hbTarget b] | None => [] end
  else
    let shared := if len (evAffected ev) >? maxMembershipFanout then slice_to (evAffected ev) maxMembershipFanout else evAffected ev in
    match mPrefix (evMsg ev) with
    | Some p => match FindBuffer (evNetwork ev) (pName p) (connFold c) (hStore h) with Some name => shared ++ [name] | None => shared end
    | None => shared
    end.

Definition persistMembershipLine (c : Conn) (now : Z) (ev : Event) (replay : bool) (target : gostring) (h : Hub) : list act * Hub :=
  let '(res, h) := guardedAppend c now (evNetwork ev) target (fun closed _ => closed) (fun _ => true) false (storeMessage now ev) h in
  match res with
  | Some (stored, stillArchived) =>
      (if (ID stored =? 0) || replay || stillArchived then [] else [Broadcast (EnvEvent (eventData stored))], h)
  | None => ([], h)
  end.

Fixpoint membership_loop (c : Conn) (now : Z) (ev : Event) (replay : bool) (targets : list gostring) (h : Hub) : list act * Hub :=
  match targets with
  | [] => ([], h)
  | t :: rest =>
      let '(a1, h) := persistMembershipLine c now ev replay t h in
      let '(a2, h) := membership_loop c now ev replay rest h in
      (a1 ++ a2, h)
  end.

Definition persistMembership (c : Conn) (now : Z) (ev : Event) (replay : bool) (batch : option (gostring * histBatch)) (h : Hub) : list act * Hub :=
  membership_loop c now ev replay (membershipTargets c ev replay batch h) h.

(** ** One message *)

(** What is done with a message that is neither a batch delimiter nor consumed. *)
Definition routeMessage (c : Conn) (now : Z) (ev : Event) (replay : bool) (batch : option (gostring * histBatch)) (h : Hub) (l : Loop)
    : list act * Hub * Loop :=
  let cmd := Command (evMsg ev) in
  if cmd == §"TAGMSG" then (if replay then [] else relayTyping c ev h, h, l)
  else if cmd == §"MARKREAD" then (if replay then ([], h, l) else let '(acts, h) := applyUpstreamMarker c now ev h in (acts, h, l))
  else if cmd == §"REDACT" then applyRedaction c ev replay batch h l
  else if (cmd == §"QUIT") || (cmd == §"NICK") then let '(acts, h) := persistMembership c now ev replay batch h in (acts, h, l)
  else persistEvent c now ev replay batch h l.

Definition onMessage (c : Conn) (now : Z) (netOpsFree : bool) (ev : Event) (h : Hub) (l : Loop) : list act * Hub * Loop :=
  let m := evMsg ev in
  if Command m == §"BATCH" then trackHistoryBatch c (evNetwork ev) m h l
  else
    let ref := hubBatchRef (tag m §"batch") in
    if historyReplay m (histBatches l) then
      match histBatches l !! ref with
      | None => ([], h, l)
      | Some b =>
          let b := noteReplayed now ev b in
          routeMessage c now ev true (Some (ref, b)) h (with_hist (<[ref := b]> (histBatches l)) l)
      end
    else
      let '(acts, consumed, h, l) := liveControlConsumed c netOpsFree ev h l in
      if (consumed : bool) then (acts, h, l)
      else let '(acts', h, l) := routeMessage c now ev false None h l in (acts ++ acts', h, l).

(** ** The loop *)

Inductive connState := StateDisconnected | StateConnecting | StateRegistered.
#[local] Instance connState_eq_dec : EqDecision connState.
Proof. solve_decision. Defined.

Definition state_string (s : connState) : gostring :=
  match s with StateDisconnected => §"disconnected" | StateConnecting => §"connecting" | StateRegistered => §"registered" end.

Inductive hubEvent :=
  | EventState (network : gostring) (state : connState) (err : gostring)
  | EventMessage (ev : Event).

Definition onState (c : Conn) (network : gostring) (state : connState) (err : gostring) (h : Hub) (l : Loop) : list act * Hub * Loop :=
  let h := with_states (<[network := state_string state]> (hStates h)) h in
  let told := Broadcast (EnvState (state_string state) (clampServerInfo err)) in
  match state with
  | StateRegistered =>
      let r := reg l in
      let '(acts, h, l) := maybeStartSync c network h (with_reg (MkReg true (rgBurstEnded r) (rgSynced r)) l) in
      (told :: acts, h, l)
  | StateDisconnected => ([told], with_motd (clearMOTD network (hMotd h)) (clearPresence network h), l)
  | StateConnecting => ([told], h, l)
  end.

(** One round of [Run]: [now] is the clock, [c] the connection at that moment. *)
Definition hubStep (c : Conn) (now : Z) (netOpsFree : bool) (e : hubEvent) (h : Hub) (l : Loop) : list act * Hub * Loop :=
  match e with
  | EventState network state err =>
      let '(h, l) :=
        match state with
        | StateConnecting => (with_motd (clearMOTD network (hMotd h)) (clearPresence network h), newLoop)
        | _ => (h, l)
        end in
      onState c network state err h l
  | EventMessage ev =>
      let cmd := Command (evMsg ev) in
      let '(acts, h, l) :=
        if negb (historyReplay (evMsg ev) (histBatches l)) && negb (rgBurstEnded (reg l)) && ends_motd cmd then
          maybeStartSync c (evNetwork ev) h (with_reg (MkReg (rgRegistered (reg l)) true (rgSynced (reg l))) l)
        else ([], h, l) in
      let '(acts', h, l) := onMessage c now netOpsFree ev h l in
      (acts ++ acts', h, l)
  end.

Record input := MkInput { iConn : Conn; iNow : Z; iFree : bool; iEvent : hubEvent }.

Fixpoint hubRun (ins : list input) (h : Hub) (l : Loop) : list act * Hub * Loop :=
  match ins with
  | [] => ([], h, l)
  | i :: rest =>
      let '(a1, h, l) := hubStep (iConn i) (iNow i) (iFree i) (iEvent i) h l in
      let '(a2, h, l) := hubRun rest h l in
      (a1 ++ a2, h, l)
  end.
End hub.
