(* ===== verification/HubStore.v ===== *)
(** * What the hub does to the store

    Every store operation the hub uses keeps the store's invariants and loses no
    row; only a live line can make an archived buffer visible again. *)

From S2P Require Import Prelude GoStrings GoUtf8 Ring RingProofs Store StoreProofs StoreSpec StoreQuery.

Section order.
Variable lim : limits.

(** Buffers stay under their names with their rows; under [hide], archived ones
    stay archived. *)
Definition grows (hide : bool) (st st' : Store) : Prop :=
  forall id b, db st !! id = Some b -> exists b', db st' !! id = Some b' /\ key b' = key b /\
    (ID <$> table b) ⊆ (ID <$> table b') /\ (hide = true -> archived b = true -> archived b' = true).

Definition evolves (hide : bool) (st st' : Store) : Prop :=
  store_ok lim st -> store_ok lim st' /\ (budget_ok lim st -> budget_ok lim st') /\ grows hide st st'.

Lemma grows_db hide st st' : db st' = db st -> grows hide st st'.
Proof. intros E id b Hb. exists b. rewrite E. done. Qed.

Lemma evolves_refl hide st : evolves hide st st.
Proof. intros Hst. split; [done|]. split; [done|]. by apply grows_db. Qed.

Lemma grows_trans hide st1 st2 st3 : grows hide st1 st2 -> grows hide st2 st3 -> grows hide st1 st3.
Proof.
  intros G2 G3 id b Hb. destruct (G2 id b Hb) as (b2 & Hb2 & K2 & R2 & A2). destruct (G3 id b2 Hb2) as (b3 & Hb3 & K3 & R3 & A3).
  exists b3. split; [done|]. split; [congruence|]. split; [set_solver|auto].
Qed.

Lemma grows_weaken hide st st' : grows true st st' -> grows hide st st'.
Proof. intros G id b Hb. destruct (G id b Hb) as (b' & ? & ? & ? & ?). exists b'. split_and!; auto. Qed.

Lemma evolves_trans hide st1 st2 st3 : evolves hide st1 st2 -> evolves hide st2 st3 -> evolves hide st1 st3.
Proof.
  intros H12 H23 H1. destruct (H12 H1) as (H2 & B2 & G2). destruct (H23 H2) as (H3 & B3 & G3). split; [done|]. split; [auto|].
  by eapply grows_trans.
Qed.

Lemma evolves_weaken hide st st' : evolves true st st' -> evolves hide st st'.
Proof.
  intros H Hst. destruct (H Hst) as (H1 & H2 & G). split; [done|]. split; [done|]. by apply grows_weaken.
Qed.

Lemma grows_insert hide st st' id b b' :
  db st !! id = Some b -> key b' = key b -> (ID <$> table b) ⊆ (ID <$> table b') -> (hide = true -> archived b = true -> archived b' = true) ->
  db st' = <[id := b']> (db st) -> grows hide st st'.
Proof.
  intros Hb Hk Hr Ha E j c Hc. rewrite E. destruct (decide (j = id)) as [->|Hne].
  - rewrite lookup_insert_eq. rewrite Hb in Hc. injection Hc as <-. by exists b'.
  - rewrite lookup_insert_ne by done. by exists c.
Qed.

End order.

Section evolve.
Context (lim : limits) (Hsize : 1 <= ringSize lim) (Hbudget : 0 <= maxRingBytes lim).
Abbreviation evolves := (evolves lim).

Lemma bufferID_evolves hide network target st : evolves hide st (bufferID lim network target false st).2.
Proof.
  intros Hst. pose proof (bufferID_ok lim Hsize network target false st Hst) as H.
  destruct (bufferID lim network target false st) as [[id|] st1]; [|destruct H as [-> _]; by apply (evolves_refl lim)].
  destruct H as (Hst1 & b & _ & [(E & E1 & E2)|[? _]]); [|done]. split; [done|]. split; [by apply budget_ext|by apply grows_db].
Qed.

Lemma ids_map (f : Message -> Message) (d : list Message) : (forall m, ID (f m) = ID m) -> (ID <$> (f <$> d)) = (ID <$> d).
Proof. intros Hf. rewrite <- list_fmap_compose. apply list_fmap_ext. intros i m _. apply Hf. Qed.

(** At most the rows of one buffer are rewritten in place. *)
Definition rewrites (st st' : Store) : Prop :=
  db st' = db st \/
  exists id b (f : Message -> Message), db st !! id = Some b /\ (forall m, ID (f m) = ID m) /\ db st' = <[id := set_table (f <$> table b) b]> (db st).

Lemma rewrites_grows hide st st' : rewrites st st' -> grows hide st st' /\ grows hide st' st.
Proof.
  intros [E|(id & b & f & Hb & Hf & E)]; [split; by apply grows_db|]. split.
  - eapply (grows_insert hide st st' id b); [done| | | |exact E]; try done. cbn. by rewrite ids_map.
  - eapply (grows_insert hide st' st id (set_table (f <$> table b) b) b); [by rewrite E, lookup_insert_eq|done| |done|].
    + cbn. by rewrite ids_map.
    + by rewrite E, insert_insert_eq, insert_id.
Qed.

Lemma redact_rewrites network target msgid reason st : store_ok lim st -> rewrites st (SetRedacted lim network target msgid reason st).2.
Proof.
  intros Hst. unfold SetRedacted. destruct_if as Ee; [by left|]. cbv zeta. pose proof (bufferID_db lim Hsize network target st Hst) as H.
  destruct (bufferID lim network target false st) as [[id|] st1]; [|by left; destruct H as (_ & ? & _)].
  destruct H as (_ & Edb & _). destruct (db st1 !! id) as [b|] eqn:Hb; [|by left].
  destruct (redactable _ _) as [m0|]; [|by left]. cbn [snd]. right. exists id, b. eexists. split; [by rewrite <- Edb|].
  split; cycle 1; [rewrite <- Edb; destruct (rings _ !! id); [by rewrite db_settle, db_update_ring|done]|].
  intros m. cbv beta. by destruct (_ =? _).
Qed.

Lemma adopt_rewrites msg f st : store_ok lim st -> rewrites st (AdoptOwnMsgID lim msg f st).2.
Proof.
  intros Hst. unfold AdoptOwnMsgID. destruct_if as Ee; [by left|]. cbv zeta.
  set (t := match f with None => _ | Some _ => _ end). pose proof (bufferID_db lim Hsize (oNetwork msg) t st Hst) as H.
  destruct (bufferID lim (oNetwork msg) t false st) as [[id|] st1]; [|by left; destruct H as (_ & ? & _)].
  destruct H as (_ & Edb & _). destruct (db st1 !! id) as [b|] eqn:Hb; [|by left].
  destruct (existsb _ _); [by left|]. destruct (head _) as [m0|]; [|by left]. cbn [snd]. right. exists id, b. eexists. split; [by rewrite <- Edb|].
  split; cycle 1; [rewrite <- Edb; destruct (rings _ !! id); [by rewrite db_settle, db_update_ring|done]|].
  intros m. cbv beta. by destruct (_ =? _).
Qed.

Lemma redact_evolves hide network target msgid reason st : evolves hide st (SetRedacted lim network target msgid reason st).2.
Proof.
  intros Hst. destruct (redacted_ok lim Hsize Hbudget network target msgid reason st Hst) as [H1 H2]. split; [done|]. split; [done|].
  exact (proj1 (rewrites_grows hide _ _ (redact_rewrites network target msgid reason st Hst))).
Qed.

Lemma adopt_evolves hide msg f st : evolves hide st (AdoptOwnMsgID lim msg f st).2.
Proof.
  intros Hst. destruct (adopted_ok lim Hsize Hbudget msg f st Hst) as [H1 H2]. split; [done|]. split; [done|].
  exact (proj1 (rewrites_grows hide _ _ (adopt_rewrites msg f st Hst))).
Qed.

Lemma marker_grows hide now network target t st :
  store_ok lim st -> let st' := SetReadMarker lim now network target t st in grows hide st st' /\ grows hide st' st.
Proof.
  intros Hst. unfold SetReadMarker. pose proof (bufferID_db lim Hsize network target st Hst) as H.
  destruct (bufferID lim network target false st) as [[id|] st1]; [|by split; apply grows_db; destruct H as (_ & ? & _)].
  destruct H as (_ & Edb & _). split; intros j b; cbn; destruct (decide (j = id)) as [->|Hne].
  - intros Hb. rewrite lookup_alter_eq, Edb, Hb. eexists. done.
  - intros Hb. rewrite lookup_alter_ne, Edb by done. by exists b.
  - rewrite lookup_alter_eq, Edb. intros (b0 & Hb & ->)%fmap_Some. by exists b0.
  - rewrite lookup_alter_ne, Edb by done. by exists b.
Qed.

Lemma marker_evolves hide now network target t st : evolves hide st (SetReadMarker lim now network target t st).
Proof.
  intros Hst. destruct (marker_ok lim Hsize now network target t st Hst) as [H1 H2]. split; [done|]. split; [done|].
  by apply marker_grows.
Qed.

Lemma latest_evolves hide network target limit st : evolves hide st (Latest lim network target limit st).2.
Proof.
  intros Hst. unfold Latest. rewrite before_ok by done.
  destruct (lookup_ring_ok lim Hsize Hbudget network target st Hst) as (H1 & H2 & H3). split; [done|]. split; [done|]. by apply grows_db.
Qed.

Lemma append_evolves hide now network target m opts st :
  fresh_msg m -> (hide = true -> unarchive opts = false) -> evolves hide st (append lim now network target m opts st).2.
Proof.
  intros Hm Hu Hst. destruct (append_ok lim Hsize Hbudget now network target m opts st Hst Hm) as [H1 H2]. split; [done|]. split; [done|].
  pose proof (append_cases lim Hsize Hbudget now network target m opts st Hst) as H.
  destruct (append lim now network target m opts st) as [[[msg still]|] st']; [|destruct H as [_ ->]; by apply grows_db].
  destruct (ID msg =? 0); [by apply grows_db|]. destruct H as [(id & b & Hb & _ & _ & _ & _ & -> & E) _]. cbn [snd].
  intros j c Hc. rewrite E. destruct (decide (j = id)) as [->|Hne].
  - rewrite lookup_insert_eq. destruct Hb as [Hb|(Hn & _)]; [|congruence]. rewrite Hb in Hc. injection Hc as ->. eexists. split; [done|].
    split; [done|]. split; [|intros Hh ->; cbn; by rewrite (Hu Hh)]. cbn. rewrite (Permutation_map ID (table_insert_perm _ _)).
    intros x Hx. by right.
  - rewrite lookup_insert_ne by done. by exists c.
Qed.

(** The id of the next row is the least above every row. *)
Lemma next_msg_above st id b x : db st !! id = Some b -> x ∈ ID <$> table b -> x < next_msg_id st.
Proof.
  intros Hb Hx. apply list_elem_of_fmap in Hx as (m & -> & Hm).
  pose proof (map_bound (fun _ b => max_id (table b)) (db st) id b Hb) as H. cbv beta in H.
  pose proof (max_id_bound _ _ Hm). unfold next_msg_id. lia.
Qed.

Lemma max_id_le l n : 0 <= n -> (forall x, x ∈ ID <$> l -> x <= n) -> max_id l <= n.
Proof.
  intros Hn. unfold max_id. induction l as [|m l IH]; intros H; cbn; [done|].
  assert (ID m <= n) by (apply H; left). specialize (IH ltac:(intros x Hx; apply H; by right)). unfold max_id in *. lia.
Qed.

Lemma next_msg_le st n : 1 <= n -> (forall id b x, db st !! id = Some b -> x ∈ ID <$> table b -> x < n) -> next_msg_id st <= n.
Proof.
  intros Hn. unfold next_msg_id. generalize (db st). clear st. intros d. revert d.
  apply (map_fold_weak_ind (fun r d => (forall id b x, d !! id = Some b -> x ∈ ID <$> table b -> x < n) -> 1 + r <= n)); [lia|].
  intros i b d r Hi IH H. assert (max_id (table b) <= n - 1).
  { apply max_id_le; [lia|]. intros x Hx. assert (x < n); [|lia]. apply (H i b); [apply lookup_insert_eq|done]. }
  assert (1 + r <= n); [|lia]. apply IH. intros id c x Hc. apply (H id c). rewrite lookup_insert_ne; [done|]. intros ->. congruence.
Qed.

Lemma next_msg_grows hide st st' : grows hide st st' -> next_msg_id st <= next_msg_id st'.
Proof.
  intros G. apply next_msg_le; [pose proof (next_msg_pos st'); lia|]. intros id b x Hb Hx.
  destruct (G id b Hb) as (b' & Hb' & _ & Hr & _). eapply (next_msg_above st' id b' x Hb'), Hr, Hx.
Qed.
End evolve.
