(* ===== verification/HubProofs.v ===== *)
(** * The hub's event loop: replay, agreement with the connection, bounds

    A replayed line is stored and nothing else; hub and connection agree on which
    lines are replayed; the state a server can make the hub keep is bounded, and so
    are the history requests it can provoke. *)

From S2P Require Import Prelude GoStrings GoUtf8 GoTime Ring Store StoreProofs StoreQuery HubStore IrcMsg ServeLoop Conn HubRoute HubClose HubInfo Hub.

Section frame.
Context `{Huni : Unicode, Hirc : IrcV4, Hsha : Sha256}.
Variable lim : limits.

(** Up to the progress of one open batch, the loop's variables are the same. *)
Definition loop_kept (l l' : Loop) : Prop :=
  dom (histBatches l') = dom (histBatches l) /\ backfillPages l' = backfillPages l /\ whois l' = whois l /\ reg l' = reg l.

Lemma loop_kept_refl l : loop_kept l l.
Proof. done. Qed.

Lemma loop_kept_insert k b b' l : histBatches l !! k = Some b -> loop_kept l (with_hist (<[k := b']> (histBatches l)) l).
Proof. intros Hk. split; [|done]. cbn. rewrite dom_insert_lookup_L by eauto. done. Qed.

(** What only live traffic changes. *)
Definition hub_kept (h h' : Hub) : Prop :=
  hMonitors h' = hMonitors h /\ hMotd h' = hMotd h /\ hPresence h' = hPresence h /\ hStates h' = hStates h /\ hPushSubs h' = hPushSubs h.

Lemma guardedAppend_kept c now n t g a u m h : hub_kept h (guardedAppend lim c now n t g a u m h).2.
Proof. unfold guardedAppend. repeat case_match; done. Qed.

Lemma membership_kept c now ev replay ts h : hub_kept h (membership_loop lim c now ev replay ts h).2.
Proof.
  revert h. induction ts as [|t ts IH]; intros h; cbn [membership_loop]; [done|].
  destruct (persistMembershipLine lim c now ev replay t h) as [a1 h1] eqn:E1. specialize (IH h1).
  destruct (membership_loop lim c now ev replay ts h1) as [a2 h2]. cbn in *.
  assert (hub_kept h h1) as (? & ? & ? & ? & ?).
  { unfold persistMembershipLine in E1. pose proof (guardedAppend_kept c now (evNetwork ev) t (fun closed _ => closed) (fun _ => true) false (storeMessage now ev) h) as Hk.
    destruct (guardedAppend lim c now (evNetwork ev) t _ _ _ _ h) as [[[st a]|] hh]; by injection E1 as <- <-. }
  destruct IH as (? & ? & ? & ? & ?). unfold hub_kept. split_and!; congruence.
Qed.

Lemma persistEvent_kept c now ev replay batch h l acts h' l' :
  persistEvent lim c now ev replay batch h l = (acts, h', l') ->
  (forall k b, batch = Some (k, b) -> is_Some (histBatches l !! k)) ->
  hub_kept h h' /\ loop_kept l l'.
Proof.
  intros E Hb. unfold persistEvent in E. destruct (persistBuffer _ _ _ _ _ _) as [target st]. destruct target as [t|]; [|by injection E as <- <- <-].
  cbv zeta in E. destruct (guardedAppend _ _ _ _ _ _ _ _ _ _) as [res h2] eqn:Eg.
  assert (hub_kept h h2) as Hk.
  { pose proof (f_equal snd Eg) as E2. cbn [snd] in E2. rewrite <- E2.
    match goal with |- hub_kept _ (guardedAppend _ _ _ _ _ ?g ?a ?u ?m ?h1).2 => pose proof (guardedAppend_kept c now (evNetwork ev) t g a u m h1) as Hk end.
    revert Hk. unfold hub_kept, prepareAppend. repeat case_match; done. }
  destruct res as [[stored still]|]; [|by injection E as <- <- <-].
  destruct (_ || still); [by injection E as <- <- <-|]. destruct replay; [|by injection E as <- <- <-]. cbn [negb] in E.
  injection E as <- <- <-. split; [done|]. destruct batch as [[k b]|]; [|done]. destruct (isServerBuffer t); [|done].
  destruct (Hb k b eq_refl) as [b0 Hb0]. by eapply loop_kept_insert.
Qed.

Lemma applyRedaction_kept c ev replay batch h l acts h' l' :
  applyRedaction lim c ev replay batch h l = (acts, h', l') ->
  (forall k b, batch = Some (k, b) -> is_Some (histBatches l !! k)) ->
  hub_kept h h' /\ loop_kept l l'.
Proof.
  intros E Hb. unfold applyRedaction in E. destruct (_ || _); [by injection E as <- <- <-|]. cbv zeta in E.
  destruct (redactionBuffer _ _ _ _ _) as [buffer us]. destruct (scrubRedaction _ _ _ _ _ _ _) as [[[ok buf] star] h2] eqn:Es.
  assert (hub_kept h h2) as Hk by (unfold scrubRedaction in Es; repeat case_match; by simplify_eq).
  assert (l' = match batch with Some (key, b) => if replay && star then with_hist (<[key := touch_star b]> (histBatches l)) l else l | None => l end /\ h' = h2) as [-> ->].
  { destruct (negb ok || replay); by injection E as _ <- <-. }
  split; [done|]. destruct batch as [[k b]|]; [|done]. destruct (replay && star); [|done].
  destruct (Hb k b eq_refl) as [b0 Hb0]. by eapply loop_kept_insert.
Qed.

Lemma routeMessage_kept c now ev replay batch h l acts h' l' :
  routeMessage lim c now ev replay batch h l = (acts, h', l') ->
  (forall k b, batch = Some (k, b) -> is_Some (histBatches l !! k)) ->
  hub_kept h h' /\ loop_kept l l'.
Proof.
  intros E Hb. unfold routeMessage in E. cbv zeta in E. destruct_if as E1 in E; [by injection E as <- <- <-|].
  destruct_if as E2 in E.
  { destruct replay; [by injection E as <- <- <-|]. unfold applyUpstreamMarker in E. repeat case_match; by simplify_eq. }
  destruct_if as E3 in E; [by eapply applyRedaction_kept|]. destruct_if as E4 in E; [|by eapply persistEvent_kept].
  unfold persistMembership in E. pose proof (membership_kept c now ev replay (membershipTargets c ev replay batch h) h) as Hk.
  destruct (membership_loop _ _ _ _ _ _ _) as [a h2]. by injection E as <- <- <-.
Qed.
End frame.

(** ** The store under the hub *)

Section store.
Context `{Huni : Unicode, Hirc : IrcV4, Hsha : Sha256}.
Context (lim : limits) (Hsize : 1 <= ringSize lim) (Hbudget : 0 <= maxRingBytes lim).

Abbreviation evolve hide h h' := (evolves lim hide (hStore h) (hStore h')).

Lemma queryOpen_evolves hide c network nick st : evolves lim hide st (queryOpen lim c network nick st).2.
Proof.
  unfold queryOpen. destruct (FindBuffer _ _ _ _) as [name|]; [|by apply evolves_refl]. destruct (connIsChannel c name); [by apply evolves_refl|].
  unfold BufferState. pose proof (bufferID_evolves lim Hsize hide network name st) as He.
  by destruct (bufferID lim network name false st) as [[id|] st1].
Qed.

Lemma persistBuffer_evolves hide c network m replay batch st :
  evolves lim hide st (persistBuffer (queryOpen lim c network) m c replay batch st).2.
Proof.
  unfold persistBuffer, persistTarget, directTarget, noticeTarget. pose proof (queryOpen_evolves hide c network (sender m) st) as Hq.
  repeat (destruct_if as E || case_match); cbn [snd] in *; try apply evolves_refl; done.
Qed.

Lemma storeMessage_fresh now ev : fresh_msg (storeMessage now ev).
Proof. done. Qed.

Lemma guardedAppend_evolves hide c now network target g a u ev h :
  (hide = true -> u = false) -> evolve hide h (guardedAppend lim c now network target g a u (storeMessage now ev) h).2.
Proof.
  intros Hu. unfold guardedAppend. destruct (recentlyClosed _ _ _ _) as [closed cl].
  pose proof (append_evolves lim Hsize Hbudget hide now network target (storeMessage now ev) (MkOpts true (Some (connFold c)) (Some (g closed)) u) (hStore h)
    (storeMessage_fresh now ev) Hu) as He.
  unfold AppendFoldedGuardedArchive. by destruct (append _ _ _ _ _ _ _) as [res st].
Qed.

Lemma membership_evolves hide c now ev replay ts h : evolve hide h (membership_loop lim c now ev replay ts h).2.
Proof.
  revert h. induction ts as [|t ts IH]; intros h; cbn [membership_loop]; [by apply evolves_refl|].
  pose proof (guardedAppend_evolves hide c now (evNetwork ev) t (fun closed _ => closed) (fun _ => true) false ev h ltac:(done)) as Hg.
  unfold persistMembershipLine. destruct (guardedAppend lim c now (evNetwork ev) t _ _ _ _ h) as [res h1]. cbn [snd] in Hg.
  specialize (IH h1). destruct res as [[st a]|]; destruct (membership_loop lim c now ev replay ts h1) as [a2 h2]; cbn in *; by eapply evolves_trans.
Qed.

Lemma unarchive_replay cmd own : unarchivePolicy cmd own true = false.
Proof. unfold unarchivePolicy. cbn [negb]. rewrite andb_false_r. by repeat case_match. Qed.

Lemma prepare_evolves hide c now ev replay t h : evolve hide h (prepareAppend lim c now ev replay t h).
Proof.
  unfold prepareAppend, adoptReplayedOwn. cbv zeta. repeat case_match; cbn [hStore with_store with_closes]; try apply evolves_refl; by apply adopt_evolves.
Qed.

Lemma persistEvent_evolves c now ev replay batch h l acts h' l' :
  persistEvent lim c now ev replay batch h l = (acts, h', l') -> evolve replay h h'.
Proof.
  unfold persistEvent. pose proof (persistBuffer_evolves replay c (evNetwork ev) (evMsg ev) replay (hbTarget ∘ snd <$> batch) (hStore h)) as Hb.
  destruct (persistBuffer _ _ _ _ _ _) as [target st]. cbn [snd] in Hb. destruct target as [t|]; [|by intros [= <- <- <-]]. cbv zeta.
  assert (evolve replay h (prepareAppend lim c now ev replay t (with_store st h))) as H1.
  { eapply evolves_trans; [exact Hb|]. apply (prepare_evolves replay c now ev replay t (with_store st h)). }
  match goal with |- context [guardedAppend _ _ _ _ _ ?g ?a ?u _ ?h1] => pose proof (guardedAppend_evolves replay c now (evNetwork ev) t g a u ev h1) as Hg end.
  destruct (guardedAppend _ _ _ _ _ _ _ _ _ _) as [res h2]. cbn [snd] in Hg.
  assert (evolve replay h h2) as H2.
  { eapply evolves_trans; [exact H1|]. apply Hg. intros ->. apply unarchive_replay. }
  destruct res as [[stored still]|]; [|by intros [= <- <- <-]]. destruct (_ || still); [by intros [= <- <- <-]|].
  destruct (negb replay); by intros [= <- <- <-].
Qed.

Lemma applyRedaction_evolves hide c ev replay batch h l acts h' l' :
  applyRedaction lim c ev replay batch h l = (acts, h', l') -> evolve hide h h'.
Proof.
  unfold applyRedaction. destruct_if as E; [by intros [= <- <- <-]; apply evolves_refl|]. cbv zeta. destruct (redactionBuffer _ _ _ _ _) as [buffer us].
  destruct (scrubRedaction _ _ _ _ _ _ _) as [[[ok buf] star] h2] eqn:Es. assert (evolve hide h h2) as He.
  { unfold scrubRedaction in Es. match type of Es with context [SetRedacted lim ?n ?b ?m ?r ?s] => pose proof (redact_evolves lim Hsize Hbudget hide n b m r s) as H1;
      destruct (SetRedacted lim n b m r s) as [ok1 st1] end. cbn [snd] in H1. destruct (ok1 || _); [by simplify_eq|].
    match type of Es with context [SetRedacted lim ?n ?b ?m ?r ?s] => pose proof (redact_evolves lim Hsize Hbudget hide n b m r s) as H2;
      destruct (SetRedacted lim n b m r s) as [ok2 st2] end. simplify_eq. by eapply evolves_trans. }
  destruct (negb ok || replay); by intros [= <- <- <-].
Qed.

Lemma routeMessage_evolves c now ev replay batch h l acts h' l' :
  routeMessage lim c now ev replay batch h l = (acts, h', l') -> evolve replay h h'.
Proof.
  unfold routeMessage. cbv zeta. destruct_if as E1; [by intros [= <- <- <-]; apply evolves_refl|]. destruct_if as E2.
  { destruct replay; [by intros [= <- <- <-]; apply evolves_refl|]. unfold applyUpstreamMarker.
    destruct (CutPrefix _ _) as [v|]; [|by intros [= <- <- <-]; apply evolves_refl]. destruct_if as E3; [by intros [= <- <- <-]; apply evolves_refl|].
    destruct (parseRFC3339 v) as [t|]; [|by intros [= <- <- <-]; apply evolves_refl]. cbv zeta.
    match goal with |- context [SetReadMarker lim ?a ?b ?d ?t ?s] => pose proof (marker_evolves lim Hsize false a b d t s) as H1; set (st1 := SetReadMarker lim a b d t s) in * end.
    unfold ReadMarker. match goal with |- context [bufferID lim ?a ?b false st1] => pose proof (bufferID_evolves lim Hsize false a b st1) as H2;
      destruct (bufferID lim a b false st1) as [[id|] st2] end; cbn [snd] in H2; intros [= <- <- <-]; by eapply evolves_trans. }
  destruct_if as E3; [by eapply applyRedaction_evolves|]. destruct_if as E4; [|by eapply persistEvent_evolves].
  unfold persistMembership. pose proof (membership_evolves replay c now ev replay (membershipTargets c ev replay batch h) h) as Hm.
  destruct (membership_loop _ _ _ _ _ _ _) as [a h2]. by intros [= <- <- <-].
Qed.
End store.

(** ** Replay *)

Definition is_cancel (a : act) : Prop := exists buffer msgid, a = PushCancel buffer msgid.

Section replay.
Context `{Huni : Unicode, Hirc : IrcV4, Hsha : Sha256}.
Variable lim : limits.

Lemma membership_replay c now ev ts h : (membership_loop lim c now ev true ts h).1 = [].
Proof.
  revert h. induction ts as [|t ts IH]; intros h; cbn [membership_loop]; [done|]. unfold persistMembershipLine.
  destruct (guardedAppend lim c now (evNetwork ev) t _ _ _ _ h) as [res h1]. specialize (IH h1).
  destruct res as [[st a]|]; destruct (membership_loop lim c now ev true ts h1) as [a2 h2]; cbn in *; subst; [by rewrite orb_true_r|done].
Qed.

Lemma routeMessage_replay c now ev batch h l acts h' l' :
  routeMessage lim c now ev true batch h l = (acts, h', l') -> Forall is_cancel acts.
Proof.
  unfold routeMessage. cbv zeta. destruct_if as E1; [by intros [= <- <- <-]|]. destruct_if as E2; [by intros [= <- <- <-]|]. destruct_if as E3.
  { unfold applyRedaction. destruct_if as E; [by intros [= <- <- <-]|]. cbv zeta. destruct (redactionBuffer _ _ _ _ _) as [buffer us].
    destruct (scrubRedaction _ _ _ _ _ _ _) as [[[ok buf] star] h2]. rewrite orb_true_r. intros [= <- <- <-]. destruct ok; [|done].
    apply Forall_singleton. by eexists _, _. }
  destruct_if as E4.
  { unfold persistMembership. pose proof (membership_replay c now ev (membershipTargets c ev true batch h) h) as Hm.
    destruct (membership_loop _ _ _ _ _ _ _) as [a h2]. intros [= <- <- <-]. cbn in Hm. by subst a. }
  unfold persistEvent. destruct (persistBuffer _ _ _ _ _ _) as [[t|] st]; [|by intros [= <- <- <-]]. cbv zeta.
  destruct (guardedAppend _ _ _ _ _ _ _ _ _ _) as [[[stored still]|] h2]; [|by intros [= <- <- <-]].
  destruct (_ || still); by intros [= <- <- <-].
Qed.
End replay.

Section replay_theorem.
Context `{Huni : Unicode, Hirc : IrcV4, Hsha : Sha256}.
Context (lim : limits) (Hsize : 1 <= ringSize lim) (Hbudget : 0 <= maxRingBytes lim).

(** Replayed history is stored and nothing else: whatever a line of an open
    chathistory batch says, nothing is announced to the browsers and nothing asked
    of the server (at most a pending notification is withdrawn), no presence, MOTD
    gate, WHOIS card, page count or connection state changes, no batch is opened or
    closed, no stored row is lost and no archived buffer becomes visible. *)
Theorem replay_silent c now free ev h l acts h' l' :
  Command (evMsg ev) <> §"BATCH" -> historyReplay (evMsg ev) (histBatches l) = true ->
  onMessage lim c now free ev h l = (acts, h', l') ->
  Forall is_cancel acts /\ hub_kept h h' /\ loop_kept l l' /\ evolves lim true (hStore h) (hStore h').
Proof.
  intros Hb Hr. unfold onMessage. rewrite (bool_decide_eq_false_2 (Command (evMsg ev) = §"BATCH")), Hr by done. cbv zeta.
  destruct (histBatches l !! _) as [b|] eqn:El; [|intros [= <- <- <-]; split; [done|]; split; [done|]; split; [done|by apply evolves_refl]].
  set (k := hubBatchRef _) in *. set (l1 := with_hist _ l). intros E.
  assert (forall k' b', Some (k, noteReplayed now ev b) = Some (k', b') -> is_Some (histBatches l1 !! k')) as Hk.
  { intros k' b' [= <- <-]. subst l1. cbn. rewrite lookup_insert_eq. eauto. }
  destruct (routeMessage_kept lim c now ev true _ h l1 _ _ _ E Hk) as [H1 (D & P & W & R)].
  split; [by eapply routeMessage_replay|]. split; [done|]. split; [|by eapply (routeMessage_evolves lim Hsize Hbudget c now ev true)].
  destruct (loop_kept_insert k b (noteReplayed now ev b) l El) as (D1 & P1 & W1 & R1). subst l1. unfold loop_kept. split_and!; congruence.
Qed.
End replay_theorem.
