(* ===== verification/HubAnnounce.v ===== *)
(** * What the hub announces is what it stored

    The browsers and the store see the same messages: every announced message is a
    row of the buffer it names, announcements come in the order of their row ids and
    never twice, and a row a live line adds to a visible buffer is announced. *)

From S2P Require Import Prelude GoStrings GoUtf8 GoTime Ring RingProofs Store StoreProofs StoreSpec StoreQuery HubStore IrcMsg ServeLoop Conn HubRoute HubClose HubInfo Hub HubProofs.

Definition announced (acts : list act) : list Ring.Message :=
  omap (fun a => match a with Broadcast (EnvEvent m) => Some m | _ => None end) acts.
Definition candidates (acts : list act) : list pushCandidate :=
  omap (fun a => match a with PushCandidate c => Some c | _ => None end) acts.

Definition row_ids (b : Buffer) : list Z := ID <$> table b.

(** The message is a row of the buffer it names. *)
Definition stored_row (st : Store) (m : Ring.Message) : Prop :=
  exists id b, db st !! id = Some b /\ key b = (Network m, Target m) /\ ID m ∈ row_ids b.

(** Between [st] and [st'] the announcements name new rows in order. *)
Definition tells (st : Store) (acts : list act) (st' : Store) : Prop :=
  StronglySorted Z.lt (ID <$> announced acts) /\ Forall (fun m => next_msg_id st <= ID m /\ stored_row st' m) (announced acts).

(** A row of [st'] was there before, is announced, or lies in an archived buffer. *)
Definition covers (st : Store) (acts : list act) (st' : Store) : Prop :=
  forall id b' x, db st' !! id = Some b' -> x ∈ row_ids b' ->
    (exists b, db st !! id = Some b /\ x ∈ row_ids b) \/ x ∈ ID <$> announced acts \/ archived b' = true.

(** A notification is only considered for a message announced with it. *)
Definition backed (acts : list act) : Prop :=
  Forall (fun c => exists m, m ∈ announced acts /\ pcBuffer c = Target m /\ pcSender c = Sender m /\ pcTS c = Time m /\ pcMsgID c = MsgID m)
    (candidates acts).

Lemma announced_app a b : announced (a ++ b) = announced a ++ announced b.
Proof. apply omap_app. Qed.

Lemma stored_row_grows hide st st' m : grows hide st st' -> stored_row st m -> stored_row st' m.
Proof.
  intros G (id & b & Hb & Hk & Hi). destruct (G id b Hb) as (b' & Hb' & Hk' & Hr & _). exists id, b'. split; [done|]. split; [congruence|by apply Hr].
Qed.

Lemma tells_nil st acts st' : announced acts = [] -> tells st acts st'.
Proof. unfold tells. intros ->. split; constructor. Qed.

Lemma sorted_app (l1 l2 : list Z) (n : Z) :
  StronglySorted Z.lt l1 -> StronglySorted Z.lt l2 -> Forall (fun x => x < n) l1 -> Forall (fun x => n <= x) l2 -> StronglySorted Z.lt (l1 ++ l2).
Proof.
  intros H1 H2 F1 F2. induction H1 as [|x l1 H1 IH Hx]; cbn; [done|]. apply Forall_cons in F1 as [Hxn F1]. constructor; [by apply IH|].
  apply Forall_app. split; [done|]. eapply Forall_impl; [exact F2|]. cbn. lia.
Qed.

Lemma tells_app h1 h2 st1 st2 st3 a1 a2 :
  grows h1 st1 st2 -> grows h2 st2 st3 -> tells st1 a1 st2 -> tells st2 a2 st3 -> tells st1 (a1 ++ a2) st3.
Proof.
  intros G1 G2 [S1 F1] [S2 F2]. unfold tells. rewrite announced_app, fmap_app. pose proof (next_msg_grows h1 _ _ G1) as Hn. split.
  - apply (sorted_app _ _ (next_msg_id st2)); [done..| |].
    + apply Forall_fmap. eapply Forall_impl; [exact F1|]. intros m [_ (id & b & Hb & _ & Hi)]. cbn. by eapply next_msg_above.
    + apply Forall_fmap. eapply Forall_impl; [exact F2|]. by intros m [? _].
  - apply Forall_app. split.
    + eapply Forall_impl; [exact F1|]. intros m [? ?]. split; [done|]. by eapply stored_row_grows.
    + eapply Forall_impl; [exact F2|]. intros m [? ?]. split; [lia|done].
Qed.

Lemma covers_back hide st acts st' : grows hide st' st -> covers st acts st'.
Proof.
  intros G id b' x Hb' Hx. left. destruct (G id b' Hb') as (b & Hb & _ & Hr & _). exists b. split; [done|]. by apply Hr.
Qed.

Lemma covers_app st1 st2 st3 a1 a2 : grows true st2 st3 -> covers st1 a1 st2 -> covers st2 a2 st3 -> covers st1 (a1 ++ a2) st3.
Proof.
  intros G C1 C2 id b3 x Hb3 Hx. rewrite announced_app, fmap_app. destruct (C2 id b3 x Hb3 Hx) as [(b2 & Hb2 & Hx2)|[Hx2|Ha]];
    [|right; left; apply elem_of_app; by right|by right; right].
  destruct (C1 id b2 x Hb2 Hx2) as [Ho|[Hx1|Ha]]; [by left|right; left; apply elem_of_app; by left|].
  right; right. destruct (G id b2 Hb2) as (b' & Hb' & _ & _ & H). rewrite Hb3 in Hb'. injection Hb' as <-. by apply H.
Qed.

Section announce.
Context `{Huni : Unicode, Hirc : IrcV4, Hsha : Sha256}.
Context (lim : limits) (Hsize : 1 <= ringSize lim) (Hbudget : 0 <= maxRingBytes lim).

(** The announcement of an append. *)
Definition told (stored : Ring.Message) (still : bool) : list act :=
  if (ID stored =? 0) || still then [] else [Broadcast (EnvEvent (eventData stored))].

Lemma eventData_row st m : stored_row st m -> stored_row st (eventData m).
Proof. done. Qed.

Lemma append_told c now network target g a u m h :
  store_ok lim (hStore h) ->
  match guardedAppend lim c now network target g a u m h with
  | (None, h') => hStore h' = hStore h
  | (Some (stored, still), h') => tells (hStore h) (told stored still) (hStore h') /\ covers (hStore h) (told stored still) (hStore h')
  end.
Proof.
  intros Hst. unfold guardedAppend, AppendFoldedGuardedArchive. destruct (recentlyClosed _ _ _ _) as [closed cl].
  pose proof (append_cases lim Hsize Hbudget now network target m (MkOpts true (Some (connFold c)) (Some (g closed)) u) (hStore h) Hst) as H.
  destruct (append _ _ _ _ _ _ _) as [[[stored still]|] st']; [|by destruct H as [_ ->]]. cbn [hStore with_closes with_store].
  unfold told. destruct (ID stored =? 0); cbn [orb].
  { split; [by apply tells_nil|]. apply (covers_back true), grows_db. by rewrite H. }
  destruct H as [(id & b & Hb & Hk & Hm & _ & _ & Hs & E) (_ & _ & _ & En)]. split.
  - destruct still; [by apply tells_nil|]. split; [repeat constructor|]. constructor; [|done]. split; [cbn; lia|]. apply eventData_row.
    exists id. eexists. split; [by rewrite E, lookup_insert_eq|]. split; [done|]. unfold row_ids. cbn.
    rewrite (Permutation_map ID (table_insert_perm _ _)). left.
  - intros j b' x Hb' Hx. rewrite E in Hb'. apply lookup_insert_Some in Hb' as [[<- <-]|[_ Hb']]; [|left; by exists b'].
    unfold row_ids in Hx. cbn in Hx. rewrite (Permutation_map ID (table_insert_perm _ _)) in Hx. apply elem_of_cons in Hx as [->|Hx].
    + destruct still; [by right; right|]. right; left. left.
    + left. destruct Hb as [Hb|(_ & _ & ->)]; [by exists b|by apply elem_of_nil in Hx].
Qed.

Lemma membership_told c now ev ts h :
  store_ok lim (hStore h) ->
  let '(acts, h') := membership_loop lim c now ev false ts h in
  tells (hStore h) acts (hStore h') /\ covers (hStore h) acts (hStore h') /\ candidates acts = [].
Proof.
  revert h. induction ts as [|t ts IH]; intros h Hst; cbn [membership_loop].
  { split; [by apply tells_nil|]. split; [|done]. by apply (covers_back true), grows_db. }
  pose proof (guardedAppend_evolves lim Hsize Hbudget true c now (evNetwork ev) t (fun closed _ => closed) (fun _ => true) false ev h ltac:(done) Hst) as (Hst1 & _ & G1).
  pose proof (append_told c now (evNetwork ev) t (fun closed _ => closed) (fun _ => true) false (storeMessage now ev) h Hst) as Ht.
  unfold persistMembershipLine. destruct (guardedAppend lim c now (evNetwork ev) t _ _ _ _ h) as [res h1]. cbn [snd] in Hst1, G1.
  specialize (IH h1 Hst1). pose proof (membership_evolves lim Hsize Hbudget true c now ev false ts h1 Hst1) as (_ & _ & G2).
  destruct res as [[stored still]|].
  - destruct (membership_loop lim c now ev false ts h1) as [a2 h2]. cbn [snd] in G2. destruct IH as (T2 & C2 & P2), Ht as [T1 C1].
    rewrite orb_false_r. fold (told stored still). split; [by eapply tells_app|]. split; [by eapply covers_app|].
    unfold candidates, told in *. rewrite omap_app, P2. by destruct (_ || _).
  - destruct (membership_loop lim c now ev false ts h1) as [a2 h2]. by rewrite Ht in *.
Qed.

Lemma queryOpen_db c network nick st : store_ok lim st -> db (queryOpen lim c network nick st).2 = db st.
Proof.
  intros Hst. unfold queryOpen. destruct (FindBuffer _ _ _ _) as [name|]; [|done]. destruct (connIsChannel c name); [done|].
  unfold BufferState. pose proof (bufferID_db lim Hsize network name st Hst) as H.
  by destruct (bufferID lim network name false st) as [[id|] st1]; destruct H as (_ & H & _).
Qed.

Lemma persistBuffer_db c network m replay batch st :
  store_ok lim st -> db (persistBuffer (queryOpen lim c network) m c replay batch st).2 = db st.
Proof.
  intros Hst. unfold persistBuffer, persistTarget, directTarget, noticeTarget. pose proof (queryOpen_db c network (sender m) st Hst) as Hq.
  repeat (destruct_if as E || case_match); cbn [snd] in *; done.
Qed.

Lemma backed_none acts : candidates acts = [] -> backed acts.
Proof. unfold backed. by intros ->. Qed.

Lemma persistEvent_told c now ev h l acts h' l' :
  store_ok lim (hStore h) -> persistEvent lim c now ev false None h l = (acts, h', l') ->
  tells (hStore h) acts (hStore h') /\ covers (hStore h) acts (hStore h') /\ backed acts.
Proof.
  intros Hst. unfold persistEvent. cbn [fmap option_fmap option_map].
  pose proof (persistBuffer_evolves lim Hsize true c (evNetwork ev) (evMsg ev) false None (hStore h) Hst) as (Hst1 & _ & G1).
  pose proof (persistBuffer_db c (evNetwork ev) (evMsg ev) false None (hStore h) Hst) as Edb.
  destruct (persistBuffer _ _ _ _ _ _) as [target st]. cbn [snd] in *.
  assert (forall acts, announced acts = [] -> candidates acts = [] -> tells (hStore h) acts st /\ covers (hStore h) acts st /\ backed acts) as Hquiet.
  { intros a Ha Hc. split; [by apply tells_nil|]. split; [|by apply backed_none]. by apply (covers_back true), grows_db. }
  destruct target as [t|]; [|intros [= <- <- <-]; by apply Hquiet]. cbv zeta.
  set (h1 := prepareAppend lim c now ev false t (with_store st h)). assert (hStore h1 = st) as E1 by (unfold h1, prepareAppend; cbv zeta; by repeat case_match).
  assert (next_msg_id st = next_msg_id (hStore h)) as En by (unfold next_msg_id; by rewrite Edb).
  match goal with |- context [guardedAppend _ _ _ _ _ ?g ?a ?u ?m h1] => pose proof (append_told c now (evNetwork ev) t g a u m h1) as Ht end.
  rewrite E1 in Ht. specialize (Ht Hst1). destruct (guardedAppend _ _ _ _ _ _ _ _ _ _) as [[[stored still]|] h2]; [|intros [= <- <- <-]; rewrite Ht; by apply Hquiet].
  assert (tells (hStore h) (told stored still) (hStore h2) /\ covers (hStore h) (told stored still) (hStore h2)) as [T C].
  { destruct Ht as [T C]. unfold tells, covers in *. rewrite En in T. by rewrite <- Edb. }
  unfold told in T, C. destruct (_ || still); [intros [= <- <- <-]; split; [done|]; split; [done|by apply backed_none]|]. cbn [negb].
  intros [= <- <- <-]. assert (forall m, announced (m :: maybePushCandidate c stored false (own_line c (evMsg ev)) h2) = announced [m]) as Ea
    by (intros m; unfold maybePushCandidate; by destruct_if as Ep).
  unfold tells, covers, backed. rewrite Ea. split; [done|]. split; [done|]. unfold maybePushCandidate. destruct_if as Ep; [done|].
  cbn. apply Forall_singleton. exists (eventData stored). split; [left|done].
Qed.

(** ** The rest of the loop announces nothing and stores nothing *)

Definition silent (h : Hub) (acts : list act) (h' : Hub) : Prop :=
  announced acts = [] /\ candidates acts = [] /\
  (store_ok lim (hStore h) -> store_ok lim (hStore h') /\ db (hStore h') = db (hStore h)).

Lemma silent_same h acts h' : announced acts = [] -> candidates acts = [] -> hStore h' = hStore h -> silent h acts h'.
Proof. intros Ha Hc E. split; [done|]. split; [done|]. by rewrite E. Qed.

Lemma silent_app h1 h2 h3 a1 a2 : silent h1 a1 h2 -> silent h2 a2 h3 -> silent h1 (a1 ++ a2) h3.
Proof.
  intros (A1 & C1 & S1) (A2 & C2 & S2). unfold silent, announced, candidates in *. rewrite !omap_app, A1, A2, C1, C2. split; [done|]. split; [done|].
  intros H. destruct (S1 H) as [K1 E1]. destruct (S2 K1) as [K2 E2]. split; [done|congruence].
Qed.

Lemma lastStored_silent network target h acts :
  announced acts = [] -> candidates acts = [] -> silent h acts (lastStored lim network target h).2.
Proof.
  intros Ha Hc. split; [done|]. split; [done|]. intros Hst. unfold lastStored, Latest. pose proof (before_ok lim network target maxCursor 1 (hStore h) Hst) as Eb.
  destruct (lookup_ring_ok lim Hsize Hbudget network target (hStore h) Hst) as (H1 & _ & H3). rewrite <- Eb in H1, H3.
  by destruct (Before _ _ _ _ _ _) as [[|m ms] st].
Qed.

Lemma presence_silent c network names online ts h :
  let '(acts, h') := presence_loop c network names online ts h in silent h acts h'.
Proof.
  revert h. induction ts as [|t ts IH]; intros h; cbn [presence_loop]; [by apply silent_same|].
  destruct (names !! _) as [k|]; [|apply IH]. destruct_if as E; [apply IH|].
  specialize (IH (set_presence network k online h)). destruct (presence_loop _ _ _ _ _ _) as [acts h'].
  apply (silent_app h (set_presence network k online h) h' [_] acts); [by apply silent_same|done].
Qed.

Lemma backfill_silent c network infos h : let '(acts, h') := backfill_loop lim c network infos h in silent h acts h'.
Proof.
  revert h. induction infos as [|[target ts] infos IH]; intros h; cbn [backfill_loop]; [by apply silent_same|].
  destruct_if as E; [apply IH|]. destruct (if ts >? 0 then _ else _) as [asks h1] eqn:Ea. assert (silent h asks h1) as H1.
  { destruct (ts >? 0); [|injection Ea as <- <-; by apply silent_same].
    pose proof (fun a => lastStored_silent network target h [RequestHistory target ts a] eq_refl eq_refl) as H.
    destruct (lastStored _ _ _ _) as [[t i] h2]. injection Ea as <- <-. by apply H. }
  cbv zeta. set (marks := if connCapEnabled c _ then _ else _). specialize (IH h1). destruct (backfill_loop _ _ _ _ _) as [acts h2].
  apply (silent_app h h1 h2 asks); [done|]. apply (silent_app h1 h1 h2 marks); [|done]. unfold marks. by destruct_if as Em; apply silent_same.
Qed.

Lemma sync_silent c network h l acts h' l' : maybeStartSync lim c network h l = (acts, h', l') -> silent h acts h' /\ histBatches l' = histBatches l.
Proof.
  unfold maybeStartSync. destruct_if as E; [intros [= <- <- <-]; split; [by apply silent_same|done]|].
  unfold backfill. pose proof (backfill_silent c network (NetworkBuffers network (hStore h)) h) as H.
  destruct (backfill_loop _ _ _ _ _) as [a h2]. intros [= <- <- <-]. split; [|done]. by eapply silent_app; [|apply silent_same].
Qed.

Lemma autojoin_silent c free m : announced (persistAutojoin c free m) = [] /\ candidates (persistAutojoin c free m) = [].
Proof. unfold persistAutojoin. destruct (autojoinChange _ _) as [j add]. destruct (_ || _); [done|]. cbv zeta. by destruct (_ == []). Qed.

Lemma hints_silent c free ev h : let '(acts, h') := liveHints lim c free ev h in silent h acts h'.
Proof.
  unfold liveHints. set (members := match membersHint _ with Some _ => _ | None => _ end). set (invite := if _ && _ && _ then _ else _).
  destruct (if _ && own_line c (evMsg ev) then _ else _) as [ask h1] eqn:Ea.
  assert (silent h ask h1) as H1.
  { destruct (_ && own_line c (evMsg ev)); [|injection Ea as <- <-; by apply silent_same]. cbv zeta in Ea.
    match type of Ea with context [lastStored lim ?n ?t h] => pose proof (fun a Ha Hc => lastStored_silent n t h a Ha Hc) as H;
      destruct (lastStored lim n t h) as [[ts i] h2] end. injection Ea as <- <-. by apply H; destruct (ts >? 0). }
  assert (announced members = [] /\ candidates members = []) as [M1 M2] by (unfold members; by destruct (membersHint _)).
  assert (announced invite = [] /\ candidates invite = []) as [I1 I2] by (unfold invite; by destruct (_ && _ && _)).
  apply (silent_app h h h1); [by apply silent_same|]. apply (silent_app h h h1); [by apply silent_same|]. eapply silent_app; [exact H1|].
  by destruct (autojoin_silent c free (evMsg ev)); apply silent_same.
Qed.

Lemma control_silent c free ev h l acts consumed h' l' :
  liveControlConsumed lim c free ev h l = (acts, consumed, h', l') -> silent h acts h' /\ histBatches l' = histBatches l.
Proof.
  unfold liveControlConsumed. destruct (handleControlNumeric c ev h) as [[a h1]|] eqn:Eh.
  { intros [= <- <- <- <-]. split; [|done]. unfold handleControlNumeric in Eh. cbv zeta in Eh.
    repeat (let E := fresh "E" in destruct_if as E in Eh); try discriminate; try (injection Eh as <- <-; by apply silent_same);
      try (injection Eh as Eh; unfold updatePresence in Eh;
           match type of Eh with presence_loop ?c ?n ?m ?o ?t ?h = _ => pose proof (presence_silent c n m o t h) as H end; by rewrite Eh in H).
    injection Eh as <- <-. apply silent_same; [..|done]; by destruct (Params _) as [|? [|? [|? ?]]]. }
  destruct (accumulateWhois _ _ _) as [[cons card] w]. destruct cons.
  { intros [= <- <- <- <-]. split; [|done]. by destruct card; apply silent_same. }
  cbv zeta. set (fwd := if _ == _ then _ else _). assert (announced fwd = [] /\ candidates fwd = []) as [F1 F2].
  { unfold fwd. destruct_if as Ef; [apply autojoin_silent|done]. }
  destruct (serverInfo _ _ _) as [info motd]. destruct info as [text|].
  { intros [= <- <- <- <-]. split; [|done]. apply silent_app with (h2 := h); by apply silent_same. }
  pose proof (hints_silent c free ev (with_motd motd h)) as Hh. destruct (liveHints _ _ _ _ _) as [a h2]. intros [= <- <- <- <-]. split; [|done].
  apply (silent_app h (with_motd motd h)); [by apply silent_same|done].
Qed.

Lemma control_closes c free ev h l acts consumed h' l' :
  liveControlConsumed lim c free ev h l = (acts, consumed, h', l') -> hCloses h' = hCloses h.
Proof.
  assert (forall n t h, hCloses (lastStored lim n t h).2 = hCloses h) as Hl by (intros; unfold lastStored; by destruct (Latest _ _ _ _ _) as [[|? ?] ?]).
  assert (forall names o ts h, hCloses (presence_loop c (evNetwork ev) names o ts h).2 = hCloses h) as Hp.
  { intros names o ts. induction ts as [|t ts IH]; intros h0; cbn [presence_loop]; [done|]. destruct (names !! _) as [k|]; [|apply IH]. destruct_if as E; [apply IH|].
    specialize (IH (set_presence (evNetwork ev) k o h0)). by destruct (presence_loop _ _ _ _ _ _). }
  unfold liveControlConsumed. destruct (handleControlNumeric c ev h) as [[a h1]|] eqn:Eh.
  { intros [= <- <- <- <-]. unfold handleControlNumeric, updatePresence in Eh. cbv zeta in Eh.
    repeat (let E := fresh "E" in destruct_if as E in Eh); try discriminate; try (by injection Eh as <- <-);
      injection Eh as Eh; match type of Eh with presence_loop ?c ?n ?m ?o ?t ?h = _ => pose proof (Hp m o t h) as H end; by rewrite Eh in H. }
  destruct (accumulateWhois _ _ _) as [[cons card] w]. destruct cons; [by intros [= <- <- <- <-]|]. cbv zeta.
  destruct (serverInfo _ _ _) as [[text|] motd]; [by intros [= <- <- <- <-]|]. destruct (liveHints _ _ _ _ _) as [a h2] eqn:Eh2. intros [= <- <- <- <-].
  revert Eh2. unfold liveHints. destruct (_ && own_line _ _); cbv zeta; [|by intros [= <- <-]].
  match goal with |- context [lastStored lim ?n ?t ?h] => specialize (Hl n t h); destruct (lastStored lim n t h) as [[ts i] h3] end. by intros [= <- <-].
Qed.

Lemma track_silent c network m h l acts h' l' : trackHistoryBatch c network m h l = (acts, h', l') -> silent h acts h'.
Proof.
  unfold trackHistoryBatch. destruct (Params m) as [|ref ps]; [intros [= <- <- <-]; by apply silent_same|].
  destruct_if as E1; [intros [= <- <- <-]; by apply silent_same|]. destruct_if as E2; [|intros [= <- <- <-]; by apply silent_same].
  unfold closeHistoryBatch. destruct (_ !! _) as [b|]; [|intros [= <- <- <-]; by apply silent_same]. cbv zeta.
  destruct (if _ && _ then ([], _) else _) as [ask l1] eqn:Ea. intros [= <- <- <-].
  apply (silent_app h h h ask); [|destruct (hbStarTouched b); by apply silent_same].
  revert Ea. repeat (let E := fresh "E" in destruct_if as E); intros [= <- <-]; by apply silent_same.
Qed.

(** ** One message *)

Lemma silent_quiet h acts h' : silent h acts h' -> store_ok lim (hStore h) ->
  store_ok lim (hStore h') /\ grows true (hStore h) (hStore h') /\
  tells (hStore h) acts (hStore h') /\ covers (hStore h) acts (hStore h') /\ backed acts.
Proof.
  intros (Ha & Hc & Hs) Hst. destruct (Hs Hst) as [Hst' E]. split; [done|]. split; [by apply grows_db|]. split; [by apply tells_nil|].
  split; [|by apply backed_none]. by apply (covers_back true), grows_db.
Qed.

Lemma redaction_back c ev replay batch h l acts h' l' :
  store_ok lim (hStore h) -> applyRedaction lim c ev replay batch h l = (acts, h', l') -> grows true (hStore h') (hStore h).
Proof.
  intros Hst. unfold applyRedaction. destruct_if as E; [intros [= <- <- <-]; by apply grows_db|]. cbv zeta.
  destruct (redactionBuffer _ _ _ _ _) as [buffer us]. destruct (scrubRedaction _ _ _ _ _ _ _) as [[[ok buf] star] h2] eqn:Es.
  assert (grows true (hStore h2) (hStore h)) as G.
  { unfold scrubRedaction in Es. match type of Es with context [SetRedacted lim ?n ?b ?m ?r ?s] =>
      pose proof (redact_rewrites lim Hsize n b m r s Hst) as R1; destruct (redact_evolves lim Hsize Hbudget true n b m r s Hst) as [K1 _];
      destruct (SetRedacted lim n b m r s) as [ok1 st1] end. cbn [snd] in R1, K1. apply (rewrites_grows true) in R1 as [_ R1].
    destruct (ok1 || _); [by simplify_eq|].
    match type of Es with context [SetRedacted lim ?n ?b ?m ?r ?s] => pose proof (redact_rewrites lim Hsize n b m r s K1) as R2; destruct (SetRedacted lim n b m r s) as [ok2 st2] end.
    cbn [snd] in R2. apply (rewrites_grows true) in R2 as [_ R2]. simplify_eq. cbn. by eapply grows_trans. }
  destruct (negb ok || replay); by intros [= <- <- <-].
Qed.

Lemma redaction_told c ev replay batch h l acts h' l' :
  applyRedaction lim c ev replay batch h l = (acts, h', l') -> announced acts = [] /\ candidates acts = [].
Proof.
  unfold applyRedaction. destruct_if as E; [by intros [= <- <- <-]|]. cbv zeta. destruct (redactionBuffer _ _ _ _ _) as [buffer us].
  destruct (scrubRedaction _ _ _ _ _ _ _) as [[[[] buf] star] h2]; [destruct replay|]; by intros [= <- <- <-].
Qed.

Lemma marker_back c now ev h acts h' :
  store_ok lim (hStore h) -> applyUpstreamMarker lim c now ev h = (acts, h') -> grows true (hStore h') (hStore h).
Proof.
  intros Hst. unfold applyUpstreamMarker. destruct (CutPrefix _ _) as [v|]; [|intros [= <- <-]; by apply grows_db].
  destruct_if as E3; [intros [= <- <-]; by apply grows_db|]. destruct (parseRFC3339 v) as [t|]; [|intros [= <- <-]; by apply grows_db]. cbv zeta.
  match goal with |- context [SetReadMarker lim ?a ?b ?d ?t ?s] => destruct (marker_grows lim Hsize true a b d t s Hst) as [_ G]; destruct (marker_ok lim Hsize a b d t s Hst) as [K _];
    set (st1 := SetReadMarker lim a b d t s) in * end.
  unfold ReadMarker. match goal with |- context [bufferID lim ?a ?b false st1] => pose proof (bufferID_db lim Hsize a b st1 K) as Hb;
    destruct (bufferID lim a b false st1) as [[id|] st2] end; destruct Hb as (_ & Hb & _); intros [= <- <-];
    (cbn [hStore with_store]; eapply grows_trans; [|exact G]; by apply grows_db).
Qed.

Lemma marker_told c now ev h : announced (applyUpstreamMarker lim c now ev h).1 = [] /\ candidates (applyUpstreamMarker lim c now ev h).1 = [].
Proof.
  unfold applyUpstreamMarker. destruct (CutPrefix _ _) as [v|]; [|done]. destruct_if as E3; [done|]. destruct (parseRFC3339 v) as [t|]; [|done]. cbv zeta.
  destruct (ReadMarker _ _ _ _) as [a st]. unfold notifyMarkerAdvance. by repeat case_match.
Qed.

Lemma route_told c now ev h l acts h' l' :
  store_ok lim (hStore h) -> routeMessage lim c now ev false None h l = (acts, h', l') ->
  tells (hStore h) acts (hStore h') /\ covers (hStore h) acts (hStore h') /\ backed acts.
Proof.
  intros Hst. assert (forall acts h1, announced acts = [] -> candidates acts = [] -> grows true (hStore h1) (hStore h) ->
    tells (hStore h) acts (hStore h1) /\ covers (hStore h) acts (hStore h1) /\ backed acts) as Hq.
  { intros a h1 Ha Hc G. split; [by apply tells_nil|]. split; [by apply (covers_back true)|by apply backed_none]. }
  unfold routeMessage. cbv zeta. destruct_if as E1.
  { intros [= <- <- <-]. apply Hq; [..|by apply grows_db]; unfold relayTyping; by repeat case_match. }
  destruct_if as E2.
  { destruct (marker_told c now ev h) as [M1 M2]. destruct (applyUpstreamMarker lim c now ev h) as [a h1] eqn:Em. intros [= <- <- <-].
    apply Hq; [done..|]. by eapply marker_back. }
  destruct_if as E3; [intros E; destruct (redaction_told _ _ _ _ _ _ _ _ _ E) as (Ha & Hc); apply Hq; [done..|by eapply redaction_back]|].
  destruct_if as E4; [|by apply persistEvent_told].
  unfold persistMembership. pose proof (membership_told c now ev (membershipTargets c ev false None h) h Hst) as Hm.
  destruct (membership_loop _ _ _ _ _ _ _) as [a h2]. intros [= <- <- <-]. destruct Hm as (? & ? & ?). split; [done|]. split; [done|by apply backed_none].
Qed.

Lemma backed_app a b : announced a = [] -> candidates a = [] -> backed b -> backed (a ++ b).
Proof. unfold backed, candidates. intros Ha Hc. rewrite omap_app, announced_app, Ha, Hc. done. Qed.

Lemma onMessage_told c now free ev h l acts h' l' :
  store_ok lim (hStore h) -> onMessage lim c now free ev h l = (acts, h', l') ->
  store_ok lim (hStore h') /\ grows false (hStore h) (hStore h') /\ tells (hStore h) acts (hStore h') /\
  (historyReplay (evMsg ev) (histBatches l) = false -> covers (hStore h) acts (hStore h') /\ backed acts).
Proof.
  intros Hst. unfold onMessage. cbv zeta. destruct_if as Eb.
  { intros E. apply track_silent in E. destruct (silent_quiet _ _ _ E Hst) as (? & G & ? & ? & ?). split; [done|].
    split; [by apply (grows_weaken false)|]. by split. }
  destruct (historyReplay _ _) eqn:Er.
  - destruct (histBatches l !! _) as [b|]; [|by intros [= <- <- <-]; split; [done|]; split; [by apply grows_db|]; split; [by apply tells_nil|]].
    intros E. destruct (routeMessage_evolves lim Hsize Hbudget _ _ _ _ _ _ _ _ _ _ E Hst) as (K & _ & G). split; [done|].
    split; [by apply (grows_weaken false)|]. split; [|done]. apply tells_nil. apply routeMessage_replay in E. induction E as [|x acts' [b' [m ->]] _ IH]; [done|exact IH].
  - destruct (liveControlConsumed _ _ _ _ _ _) as [[[a1 cons] h1] l1] eqn:Ec. destruct (control_silent _ _ _ _ _ _ _ _ _ Ec) as [Sl _].
    destruct (silent_quiet _ _ _ Sl Hst) as (Hst1 & G1 & T1 & C1 & B1).
    destruct cons; [intros [= <- <- <-]; split; [done|]; split; [by apply (grows_weaken false)|by split]|].
    destruct (routeMessage lim c now ev false None h1 l1) as [[a2 h2] l2] eqn:Ero. intros [= <- <- <-].
    destruct (routeMessage_evolves lim Hsize Hbudget _ _ _ _ _ _ _ _ _ _ Ero Hst1) as (K & _ & G2).
    destruct (route_told _ _ _ _ _ _ _ _ Hst1 Ero) as (T2 & C2 & B2). split; [done|]. split; [by eapply (grows_trans false), G2; apply (grows_weaken false)|].
    split; [by eapply tells_app|]. intros _. destruct Sl as (A1 & P1 & S1). destruct (S1 Hst) as [_ Edb]. split; [|by apply backed_app].
    intros id b' x Hb' Hx. rewrite announced_app, A1. cbn [app]. rewrite <- Edb. by apply C2.
Qed.

Lemma silent_step h acts h' : silent h acts h' -> store_ok lim (hStore h) ->
  store_ok lim (hStore h') /\ grows false (hStore h) (hStore h') /\ tells (hStore h) acts (hStore h').
Proof. intros Hs Hst. destruct (silent_quiet _ _ _ Hs Hst) as (? & G & ? & _). split_and!; [done|by apply (grows_weaken false)|done]. Qed.

Lemma onState_silent c network state err h l acts h' l' : onState lim c network state err h l = (acts, h', l') -> silent h acts h'.
Proof.
  unfold onState. cbv zeta. destruct state; try (intros [= <- <- <-]; by apply silent_same).
  destruct (maybeStartSync _ _ _ _ _) as [[a h1] l1] eqn:Es. apply sync_silent in Es as [Es _]. intros [= <- <- <-].
  eapply (silent_app _ _ _ [_]); [|exact Es]. by apply silent_same.
Qed.

Lemma step_told c now free e h l acts h' l' :
  store_ok lim (hStore h) -> hubStep lim c now free e h l = (acts, h', l') ->
  store_ok lim (hStore h') /\ grows false (hStore h) (hStore h') /\ tells (hStore h) acts (hStore h').
Proof.
  intros Hst. unfold hubStep. destruct e as [network state err|ev].
  - destruct (match state with StateConnecting => _ | _ => _ end) as [h1 l1] eqn:Em. assert (hStore h1 = hStore h) as Eh by (destruct state; by injection Em as <- <-).
    intros E. apply onState_silent in E. rewrite <- Eh in *. by apply silent_step.
  - cbv zeta. destruct (if _ && _ && _ then _ else _) as [[a1 h1] l1] eqn:Es. assert (silent h a1 h1) as S1.
    { destruct (_ && _ && _); [|injection Es as <- <- <-; by apply silent_same]. by apply sync_silent in Es as [? _]. }
    destruct (silent_step _ _ _ S1 Hst) as (Hst1 & G1 & T1). destruct (onMessage _ _ _ _ _ _ _) as [[a2 h2] l2] eqn:Eo.
    destruct (onMessage_told _ _ _ _ _ _ _ _ _ Hst1 Eo) as (Hst2 & G2 & T2 & _). intros [= <- <- <-]. split; [done|].
    split; [by eapply (grows_trans false)|]. by eapply tells_app.
Qed.

Lemma run_told ins h l :
  store_ok lim (hStore h) ->
  let '(acts, h', l') := hubRun lim ins h l in
  store_ok lim (hStore h') /\ grows false (hStore h) (hStore h') /\ tells (hStore h) acts (hStore h').
Proof.
  revert h l. induction ins as [|i ins IH]; intros h l Hst; cbn [hubRun]; [split; [done|]; split; [by apply grows_db|by apply tells_nil]|].
  destruct (hubStep _ _ _ _ _ _ _) as [[a1 h1] l1] eqn:Es. destruct (step_told _ _ _ _ _ _ _ _ _ Hst Es) as (Hst1 & G1 & T1).
  specialize (IH h1 l1 Hst1). destruct (hubRun _ _ _ _) as [[a2 h2] l2]. destruct IH as (Hst2 & G2 & T2). split; [done|].
  split; [by eapply (grows_trans false)|]. by eapply tells_app.
Qed.

(** Browsers and store agree.  Over any sequence of events of a connection, with
    any clock and whatever the connection answers, the announced messages have
    strictly increasing row ids that no earlier row had, so none is announced twice
    or out of order, and each is a row of the buffer it names; the store's
    invariants are kept and no row that was there is lost. *)
Theorem announced_in_order ins h l :
  store_ok lim (hStore h) ->
  let '(acts, h', _) := hubRun lim ins h l in
  StronglySorted Z.lt (ID <$> announced acts) /\
  Forall (fun m => next_msg_id (hStore h) <= ID m /\ stored_row (hStore h') m) (announced acts) /\
  store_ok lim (hStore h') /\ grows false (hStore h) (hStore h').
Proof.
  intros Hst. pose proof (run_told ins h l Hst) as H. destruct (hubRun _ _ _ _) as [[acts h'] l']. destruct H as (Hst' & G & T1 & T2). by split_and!.
Qed.

End announce.
