(* ===== verification/HubLayers.v ===== *)
(** * Connection and hub agree on what is replayed

    Manager and hub each keep their own table of open chathistory batches: the
    manager's decides whether a line may change the connection, the hub's whether it
    may be announced.  The hub sees the lines the manager hands on, after multiline
    reconstruction, and the two tables have the same keys throughout. *)

From S2P Require Import Prelude GoStrings GoUtf8 GoNet GoTime Ring RingProofs Store StoreProofs StoreQuery HubStore IrcMsg ISupport Roster Pacing Sts StsStore StsManager Config Handshake Outbound Multiline JoinIntent CapNotify ServeLoop Conn HubRoute HubClose HubInfo Hub HubProofs HubAnnounce.

(** ** Reconstructed messages are no batch delimiters *)

Definition speaks (a : mlAccum) : Prop := aCommand a <> §"BATCH".
Definition ml_speaks (ml : multiline) : Prop := map_Forall (fun _ a => speaks a) ml.

Lemma feed_speaks `{Hirc : IrcV4} m ml emit consumed ml' :
  ml_speaks ml -> feed m ml = inr (emit, consumed, ml') -> ml_speaks ml' /\ (forall e, emit = Some e -> Command e <> §"BATCH").
Proof.
  intros Hf. unfold feed. destruct_if as E1.
  - destruct_if as E2; [done|]. intros [= <- <- <-]. split; [|done]. by apply map_Forall_insert_2.
  - destruct_if as E2.
    + cbv zeta. destruct (ml !! _) as [acc|] eqn:El; intros [= <- <- <-]; [|done]. split; [by apply map_Forall_delete|].
      intros e. unfold build. destruct_if as E3; [done|]. intros [= <-]. by eapply Hf.
    + cbv zeta. set (ref := default [] (Tags m !! §"batch")).
      destruct (if ref != [] then ml !! ref else None) as [acc|] eqn:El; [|by intros [= <- <- <-]].
      destruct (add m acc) as [e|acc'] eqn:Ea; [done|]. intros [= <- <- <-]. split; [|done]. apply map_Forall_insert_2; [|done].
      assert (ml !! ref = Some acc) as Hr by by destruct (ref != []). specialize (Hf ref acc Hr). revert Ea. unfold add. destruct_if as E3; [by intros [= <-]|].
      cbv zeta. destruct_if as E4; [done|]. destruct_if as E5; [done|]. destruct (aFirst acc); intros [= <-]; [|done]. unfold speaks. cbn. intros Hc. rewrite Hc in E3. done.
Qed.

(** ** The hub's table *)

Section hub_side.
Context `{Huni : Unicode, Hirc : IrcV4, Hsha : Sha256}.
Context (lim : limits) (Hsize : 1 <= ringSize lim) (Hbudget : 0 <= maxRingBytes lim).

Abbreviation open l := (dom (D := gset gostring) (histBatches l)).

Lemma onMessage_open c now free ev h l acts h' l' :
  Command (evMsg ev) <> §"BATCH" -> onMessage lim c now free ev h l = (acts, h', l') -> open l' = open l.
Proof.
  intros Hb. unfold onMessage. rewrite (bool_decide_eq_false_2 (Command (evMsg ev) = §"BATCH")) by done. cbv zeta. destruct (historyReplay _ _).
  - destruct (histBatches l !! _) as [b|] eqn:El; [|by intros [= <- <- <-]]. set (k := hubBatchRef _) in *. set (l1 := with_hist _ l). intros E.
    assert (forall k' b', Some (k, noteReplayed now ev b) = Some (k', b') -> is_Some (histBatches l1 !! k')) as Hk.
    { intros k' b' [= <- <-]. subst l1. cbn. rewrite lookup_insert_eq. eauto. }
    destruct (routeMessage_kept lim c now ev true _ h l1 _ _ _ E Hk) as [_ (D & _)]. rewrite D. subst l1. cbn. by rewrite dom_insert_lookup_L by eauto.
  - destruct (liveControlConsumed _ _ _ _ _ _) as [[[a1 cons] h1] l1] eqn:Ec. destruct (control_silent lim Hsize Hbudget _ _ _ _ _ _ _ _ _ Ec) as [_ E1].
    destruct cons; [intros [= <- <- <-]; by rewrite E1|]. destruct (routeMessage _ _ _ _ _ _ _ _) as [[a2 h2] l2] eqn:Er. intros [= <- <- <-].
    destruct (routeMessage_kept lim _ _ _ _ _ _ _ _ _ _ Er ltac:(done)) as [_ (D & _)]. by rewrite D, E1.
Qed.

(** A delimiter the manager accepted does to the hub's table what it did to the
    manager's. *)
Lemma track_agree c now free ev h l hist acts h' l' :
  Command (evMsg ev) = §"BATCH" -> trackChathistoryBatch (evMsg ev) (open l) = Some hist ->
  onMessage lim c now free ev h l = (acts, h', l') -> open l' = hist.
Proof.
  intros Hb. unfold onMessage, trackChathistoryBatch, trackHistoryBatch. rewrite (bool_decide_eq_true_2 (Command (evMsg ev) = §"BATCH")) by done. cbn [negb].
  destruct (Params (evMsg ev)) as [|ref ps]; [intros [= <-]; by intros [= <- <- <-]|].
  change (slice_from ref 1) with (drop 1 ref). change (clampBatchRef (drop 1 ref)) with (hubBatchRef (drop 1 ref)).
  destruct_if as E1.
  - destruct_if as E2; [done|]. intros [= <-] [= <- <- <-]. unfold openHistoryBatch. cbn [histBatches with_hist].
    destruct (hubBatchRef (drop 1 ref) == []); [done|]. rewrite <- size_dom, E2. cbn. by rewrite dom_insert_L.
  - destruct_if as E2; [|intros [= <-]; by intros [= <- <- <-]]. intros [= <-]. unfold closeHistoryBatch. set (k := hubBatchRef _).
    destruct (histBatches l !! k) as [b|] eqn:El.
    + cbv zeta. destruct (if _ && _ then ([], _) else _) as [ask l1] eqn:Ea. intros [= <- <- <-].
      assert (histBatches l1 = delete k (histBatches l)) as -> by (revert Ea; repeat (let E := fresh "E" in destruct_if as E); by intros [= <- <-]). apply dom_delete_L.
    + intros [= <- <- <-]. apply not_elem_of_dom in El. set_solver.
Qed.

Lemma sync_open c network h l acts h' l' : maybeStartSync lim c network h l = (acts, h', l') -> open l' = open l.
Proof. intros E. destruct (sync_silent lim Hsize Hbudget _ _ _ _ _ _ _ E) as [_ ->]. done. Qed.

Lemma replay_agree (m : IrcMsg.Message) (batches : gmap gostring histBatch) : historyReplay m batches = isPlayback m (dom (D := gset gostring) batches).
Proof.
  unfold historyReplay, isPlayback, tag. set (ref := default [] _). change (clampBatchRef ref) with (hubBatchRef ref).
  assert ((hubBatchRef ref != []) = (ref != [])) as ->.
  { unfold hubBatchRef. destruct (Z.leb_spec (len ref) maxBatchRefBytes); [done|]. assert (ref <> []) as Hne by (intros ->; by vm_compute in H).
    by rewrite (bool_decide_eq_false_2 (ref = [])). }
  f_equal. by apply bool_decide_ext; rewrite elem_of_dom.
Qed.
End hub_side.

(** ** Both together *)

Section agree.
Context `{Huni : Unicode, Hip : NetIP, Hirc : IrcV4, Hsha : Sha256, Hlim : RosterLimits} `{Hops : StsStoreOps T}.
Variables (cfg : Config) (persisted secure : bool) (addr : gostring).
Context (lim : limits) (Hsize : 1 <= ringSize lim) (Hbudget : 0 <= maxRingBytes lim).

Abbreviation open l := (dom (D := gset gostring) (histBatches l)).

(** The hub's inputs are the messages the manager handed on, in order. *)
Definition handed (ins : list input) (evs : list (IrcMsg.Message * list gostring)) : Prop :=
  Forall2 (fun i e => exists ev, iEvent i = EventMessage ev /\ evMsg ev = e.1 /\ evAffected ev = e.2) ins evs.

Lemma step_open i ev h l acts h' l' :
  iEvent i = EventMessage ev -> Command (evMsg ev) <> §"BATCH" ->
  hubStep lim (iConn i) (iNow i) (iFree i) (iEvent i) h l = (acts, h', l') -> open l' = open l.
Proof.
  intros -> Hb. unfold hubStep. cbv zeta. destruct (if _ && _ && _ then _ else _) as [[a1 h1] l1] eqn:Es.
  assert (open l1 = open l) as E1 by (destruct (_ && _ && _); [by apply (sync_open lim Hsize Hbudget) in Es; rewrite Es|by injection Es as <- <- <-]).
  destruct (onMessage _ _ _ _ _ _ _) as [[a2 h2] l2] eqn:Eo. intros [= <- <- <-]. rewrite <- E1. by apply (onMessage_open lim Hsize Hbudget) in Eo.
Qed.

Lemma step_batch i ev hist h l acts h' l' :
  iEvent i = EventMessage ev -> Command (evMsg ev) = §"BATCH" -> trackChathistoryBatch (evMsg ev) (open l) = Some hist ->
  hubStep lim (iConn i) (iNow i) (iFree i) (iEvent i) h l = (acts, h', l') -> open l' = hist.
Proof.
  intros -> Hb Ht. unfold hubStep. cbv zeta. rewrite Hb. unfold ends_motd. rewrite andb_false_r.
  destruct (onMessage _ _ _ _ _ _ _) as [[a2 h2] l2] eqn:Eo. intros [= <- <- <-]. by eapply track_agree.
Qed.

Lemma run_app ins1 ins2 h l :
  hubRun lim (ins1 ++ ins2) h l =
  let '(a1, h1, l1) := hubRun lim ins1 h l in let '(a2, h2, l2) := hubRun lim ins2 h1 l1 in (a1 ++ a2, h2, l2).
Proof.
  revert h l. induction ins1 as [|i ins1 IH]; intros h l; cbn [app hubRun]; [by destruct (hubRun lim ins2 h l) as [[? ?] ?]|].
  destruct (hubStep _ _ _ _ _ _ _) as [[a0 h0] l0]. rewrite IH. destruct (hubRun lim ins1 h0 l0) as [[a1 h1] l1].
  destruct (hubRun lim ins2 h1 l1) as [[a2 h2] l2]. by rewrite app_assoc.
Qed.

Lemma service_batches x m (s : Live T) r o s' :
  serviceLine cfg persisted secure addr x m s = (r, o, s') -> oEvents o = [] /\ lHist s' = lHist s /\ lMl s' = lMl s.
Proof.
  unfold serviceLine. destruct_if as E1; [|by intros [= <- <- <-]]. destruct (handleCapNotify _ _ _) as [req c].
  destruct (capNotifySTS _ _ _ _ _ _ _ _ _) as [[t st] [port|]]; by intros [= <- <- <-].
Qed.

Lemma live_batches x m (s : Live T) res who s' :
  onLiveLine x m s = (res, who, s') -> lHist s' = lHist s /\ lMl s' = lMl s.
Proof.
  unfold onLiveLine. destruct (autoReply x m s) as [w s1] eqn:Ea. assert (lHist s1 = lHist s /\ lMl s1 = lMl s) as [E1 E2].
  { revert Ea. unfold autoReply. cbv zeta. destruct_if as E; [destruct (maybeWHOX _ _ _)|]; by intros [= <- <-]. }
  destruct (own_nick m s1); [by intros [= <- <- <-]|]. cbv zeta. destruct (trackJoinIntent _ _ _ _ _) as [err i].
  destruct err; intros [= <- <- <-]; by rewrite <- E1, <- E2.
Qed.

Lemma track_other m hist : Command m <> §"BATCH" -> trackChathistoryBatch m hist = Some hist.
Proof. intros Hb. unfold trackChathistoryBatch. destruct (Params m); [done|]. by rewrite (bool_decide_eq_false_2 (Command m = §"BATCH")). Qed.

Lemma run_one i h l : hubRun lim [i] h l = let '(a, h, l) := hubStep lim (iConn i) (iNow i) (iFree i) (iEvent i) h l in (a ++ [], h, l).
Proof. cbn [hubRun]. by destruct (hubStep _ _ _ _ _ _ _) as [[? ?] ?]. Qed.

Lemma line_agree x m (s : Live T) o s' ins h l acts h' l' :
  open l = lHist s -> ml_speaks (lMl s) ->
  processLine cfg persisted secure addr x m s = (None, o, s') -> handed ins (oEvents o) ->
  hubRun lim ins h l = (acts, h', l') -> open l' = lHist s' /\ ml_speaks (lMl s').
Proof.
  intros Hd Hm. unfold processLine. destruct (serviceLine cfg persisted secure addr x m s) as [[r o0] s0] eqn:Es.
  destruct (service_batches _ _ _ _ _ _ Es) as (Eo & Eh & Em). destruct r as [e|[]]; [done|]. rewrite <- Em in Hm. rewrite <- Eh in Hd.
  destruct (feed m (lMl s0)) as [e|[[emit consumed] ml]] eqn:Ef; [done|]. destruct (feed_speaks _ _ _ _ _ Hm Ef) as [Hm' He]. cbv zeta.
  destruct consumed.
  { intros [= <- <-]. cbn [oEvents out_app lHist lMl with_batches]. rewrite Eo. cbn [app]. intros Hi Hr. split; [|done]. destruct emit as [e|].
    - apply Forall2_cons_inv_r in Hi as (i & ins' & (ev & Ei & Eev & _) & Hn & ->). apply Forall2_nil_inv_r in Hn as ->. rewrite run_one in Hr.
      destruct (hubStep _ _ _ _ _ _ _) as [[a1 h1] l1] eqn:Est. injection Hr as <- <- <-. rewrite <- Hd. eapply step_open; [exact Ei| |exact Est]. rewrite Eev. by apply He.
    - apply Forall2_nil_inv_r in Hi as ->. injection Hr as <- <- <-. done. }
  assert (emit = None) as ->.
  { revert Ef. unfold feed. destruct_if as F1; [by destruct_if as F2|]. destruct_if as F3; cbv zeta; [by destruct (lMl s0 !! _); intros [= <- <-]|].
    destruct (if _ != _ then _ else None); [destruct (add _ _)|]; intros [=]; done. }
  destruct (trackChathistoryBatch m (lHist (with_batches ml (lHist s0) s0))) as [hist|] eqn:Et; [|done]. cbn [lHist lMl with_batches] in *.
  assert (forall aff, handed ins [(m, aff)] -> hubRun lim ins h l = (acts, h', l') -> open l' = hist) as Hone.
  { intros aff Hi Hr. apply Forall2_cons_inv_r in Hi as (i & ins' & (ev & Ei & Eev & _) & Hn & ->). apply Forall2_nil_inv_r in Hn as ->. rewrite run_one in Hr.
    destruct (hubStep _ _ _ _ _ _ _) as [[a1 h1] l1] eqn:Est. injection Hr as <- <- <-. cbn in Eev. rewrite <- Hd, <- Eev in Et.
    destruct (decide (Command (evMsg ev) = §"BATCH")) as [Hb|Hb]; [by eapply step_batch|]. rewrite track_other in Et by done. injection Et as <-. by eapply step_open. }
  destruct (isPlayback m hist).
  - intros [= <- <-]. cbn [oEvents out_app]. rewrite Eo. cbn [app]. intros Hi Hr. split; [|done]. by eapply Hone.
  - set (s2 := with_isup _ _ _). destruct (onLiveLine x m s2) as [[res who] s3] eqn:El. apply live_batches in El as [L1 L2].
    destruct res as [e|a]; [done|]. intros [= <- <-]. cbn [oEvents out_app]. rewrite Eo. cbn [app]. intros Hi Hr. rewrite L1, L2. split; [|done]. by eapply Hone.
Qed.

End agree.
