(* ===== verification/HubBounds.v ===== *)
(** * What a server can make the hub keep, and ask for

    The variables of the event loop are bounded whatever arrives, and so is the
    number of history pages one connection can make the hub request. *)

From S2P Require Import Prelude GoStrings GoUtf8 GoTime Ring RingProofs Store StoreProofs StoreQuery HubStore IrcMsg Multiline ServeLoop Conn HubRoute HubClose HubInfo Hub HubProofs HubAnnounce.

(** ** WHOIS cards *)

Definition short (s : gostring) : Prop := len s <= maxServerInfoBytes.

Definition whois_ok (w : WhoisData) : Prop :=
  Forall short [wNick w; wUser w; wHost w; wRealname w; wServer w; wChannels w; wAccount w; wActual w; wAway w].

Lemma clampDetach_short s : short (clampDetach s).
Proof. apply clampUTF8_len. by vm_compute. Qed.
#[local] Hint Resolve clampDetach_short : core.

Section whois.
Context `{Huni : Unicode, Hirc : IrcV4}.

Lemma applyWhois_ok w m : whois_ok w -> whois_ok (applyWhois w m).
Proof.
  destruct w as [nick user host real server chans account actual away oper bot secure idle signon]. unfold whois_ok, applyWhois. cbn. intros Hw.
  repeat (apply Forall_cons in Hw as [? Hw]). repeat case_match; repeat (constructor; cbn; auto).
Qed.

Definition cards_ok (ws : gmap gostring WhoisData) : Prop := Z.of_nat (size ws) <= maxOpenWhois /\ map_Forall (fun _ w => whois_ok w) ws.

Lemma cards_update ws k w w' : cards_ok ws -> ws !! k = Some w -> whois_ok w' -> cards_ok (<[k := w']> ws).
Proof. intros [Hs Hf] Hk Hw. split; [by rewrite map_size_insert_Some by by eexists|by apply map_Forall_insert_2]. Qed.

Lemma accumulate_ok fold m ws : cards_ok ws ->
  let '(_, card, ws') := accumulateWhois fold m ws in cards_ok ws' /\ (forall w, card = Some w -> whois_ok w).
Proof.
  intros Hok. unfold accumulateWhois. cbv zeta. destruct_if as E1.
  - destruct_if as E2; [done|]. destruct (ws !! _) as [w|] eqn:Ew.
    + split; [|done]. eapply cards_update; [done|exact Ew|]. apply applyWhois_ok. by eapply Hok.
    + destruct (Z.leb_spec maxOpenWhois (Z.of_nat (size ws))); [done|]. destruct Hok as [Hs Hf]. split; [|done]. split.
      * rewrite map_size_insert_None by done. lia.
      * apply map_Forall_insert_2; [|done]. apply applyWhois_ok. by repeat (constructor; cbn; auto).
  - destruct_if as E3.
    + destruct (ws !! _) as [w|] eqn:Ew; [|done]. split; [|done]. eapply cards_update; [done|exact Ew|].
      pose proof (proj2 Hok _ _ Ew) as Hw. unfold whois_ok in *. repeat (apply Forall_cons in Hw as [? Hw]). by repeat (constructor; cbn; auto).
    + destruct_if as E4; [|done]. destruct (ws !! _) as [w|] eqn:Ew; [|done]. destruct Hok as [Hs Hf]. split.
      * split; [rewrite map_size_delete_Some by eauto; lia|by apply map_Forall_delete].
      * intros w' [= <-]. by repeat (constructor; cbn; auto).
Qed.
End whois.

(** ** The loop *)

Section bounds.
Context `{Huni : Unicode, Hirc : IrcV4, Hsha : Sha256, Hsl : !Sha256Laws}.
Context (lim : limits) (Hsize : 1 <= ringSize lim) (Hbudget : 0 <= maxRingBytes lim).

Definition batch_ok (k : gostring) (b : histBatch) : Prop := len k <= maxBatchRefBytes /\ short (hbTarget b) /\ short (hbLastID b).

Record loop_ok (l : Loop) : Prop := {
  lo_open : Z.of_nat (size (histBatches l)) <= maxOpenHistBatches;
  lo_batches : map_Forall batch_ok (histBatches l);
  lo_targets : Z.of_nat (size (backfillPages l)) <= maxBackfillTargets;
  lo_pages : map_Forall (fun _ n => 0 <= n <= maxBackfillPages) (backfillPages l);
  lo_whois : cards_ok (whois l)
}.

Lemma newLoop_ok : loop_ok newLoop.
Proof. by split; vm_compute. Qed.

Lemma hubBatchRef_len ref : len (hubBatchRef ref) <= maxBatchRefBytes.
Proof. apply (clampBatchRef_len ref). Qed.

Lemma batch_update l k b b' : loop_ok l -> histBatches l !! k = Some b -> short (hbTarget b') -> short (hbLastID b') -> loop_ok (with_hist (<[k := b']> (histBatches l)) l).
Proof.
  intros [H1 H2 H3 H4 H5] Hk Ht Hi. split; cbn; try done; [by rewrite map_size_insert_Some by by eexists|].
  apply map_Forall_insert_2; [|done]. split; [|done]. apply (H2 k b Hk).
Qed.

(** What routing does to the loop: nothing, or a note in the batch of the line. *)
Lemma route_loop c now ev replay batch h l acts h' l' :
  routeMessage lim c now ev replay batch h l = (acts, h', l') ->
  l' = l \/ exists k b, batch = Some (k, b) /\ l' = with_hist (<[k := touch_star b]> (histBatches l)) l.
Proof.
  unfold routeMessage. cbv zeta. destruct_if as E1; [intros [= <- <- <-]; by left|]. destruct_if as E2.
  { destruct replay; [intros [= <- <- <-]; by left|]. destruct (applyUpstreamMarker _ _ _ _ _). intros [= <- <- <-]. by left. }
  destruct_if as E3.
  { unfold applyRedaction. destruct_if as E; [intros [= <- <- <-]; by left|]. cbv zeta. destruct (redactionBuffer _ _ _ _ _) as [buffer us].
    destruct (scrubRedaction _ _ _ _ _ _ _) as [[[ok buf] star] h2]. intros Hr.
    assert (l' = match batch with Some (key, b) => if replay && star then with_hist (<[key := touch_star b]> (histBatches l)) l else l | None => l end) as ->.
    { destruct (negb ok || replay); by injection Hr as _ _ <-. }
    destruct batch as [[k b]|]; [|by left]. destruct (replay && star); [|by left]. right. by exists k, b. }
  destruct_if as E4; [destruct (persistMembership _ _ _ _ _ _ _); intros [= <- <- <-]; by left|].
  unfold persistEvent. destruct (persistBuffer _ _ _ _ _ _) as [[t|] st]; [|intros [= <- <- <-]; by left]. cbv zeta.
  destruct (guardedAppend _ _ _ _ _ _ _ _ _ _) as [[[stored still]|] h2]; [|intros [= <- <- <-]; by left].
  destruct (_ || still); [intros [= <- <- <-]; by left|]. destruct (negb replay); [intros [= <- <- <-]; by left|]. intros [= <- <- <-].
  destruct batch as [[k b]|]; [|by left]. destruct (isServerBuffer t); [|by left]. right. by exists k, b.
Qed.

(** ** Paging *)

Definition is_request (a : act) : bool := match a with RequestHistory _ _ _ => true | _ => false end.
Definition requests (acts : list act) : Z := len (List.filter is_request acts).
Definition pages_asked (l : Loop) : Z := map_sum (fun _ n => n) (backfillPages l).

Lemma pages_bound l : loop_ok l -> pages_asked l <= maxBackfillTargets * maxBackfillPages.
Proof.
  intros [_ _ Ht Hp _]. unfold pages_asked. etrans; [apply (map_sum_le _ (fun _ _ => maxBackfillPages))|].
  - intros k n Hn. by apply (Hp k n Hn).
  - rewrite map_sum_const. unfold maxBackfillPages, maxBackfillTargets in *. lia.
Qed.

(** Each page the end of a batch asks for is counted. *)
Lemma track_counted c network m h l acts h' l' :
  loop_ok l -> trackHistoryBatch c network m h l = (acts, h', l') -> loop_ok l' /\ pages_asked l' = pages_asked l + requests acts.
Proof.
  intros Hl. assert (requests [] = 0) as R0 by done. unfold trackHistoryBatch. destruct (Params m) as [|ref ps]; [intros [= <- <- <-]; split; [done|lia]|].
  destruct_if as E1.
  { intros [= <- <- <-]. split; [|cbn; unfold pages_asked; cbn; lia]. unfold openHistoryBatch. cbv zeta. destruct_if as E2; [by destruct l|].
    destruct (Z.leb_spec maxOpenHistBatches (Z.of_nat (size (histBatches l)))); [by destruct l|]. destruct Hl as [H1 H2 H3 H4 H5].
    split; cbn; try done; [match goal with |- context [size (<[?k := ?b]> ?m)] => pose proof (map_size_insert_le m k b) end; lia|].
    apply map_Forall_insert_2; [|done]. split; [apply hubBatchRef_len|]. split; cbn; [auto|by vm_compute]. }
  destruct_if as E2; [|intros [= <- <- <-]; split; [done|lia]]. unfold closeHistoryBatch. set (k := hubBatchRef _).
  destruct (histBatches l !! k) as [b|] eqn:El; [|intros [= <- <- <-]; split; [done|lia]]. cbv zeta. set (l1 := with_hist _ l).
  assert (loop_ok l1) as Hl1.
  { destruct Hl as [H1 H2 H3 H4 H5]. split; cbn; try done; [rewrite map_size_delete_Some by eauto; lia|by apply map_Forall_delete]. }
  set (hint := Broadcast (EnvHistoryChanged _)). set (star := if hbStarTouched b then _ else _). assert (requests (hint :: star) = 0) as Rh by (unfold star; by destruct (hbStarTouched b)).
  assert (forall t ts i, requests (RequestHistory t ts i :: hint :: star) = 1) as Ra.
  { intros t ts i. revert Rh. unfold requests. cbn [List.filter is_request]. rewrite len_cons. lia. }
  set (fk := connFold c (hbTarget b)). destruct_if as E3; [intros [= <- <- <-]; split; [done|]; cbn [app]; rewrite Rh; unfold pages_asked; cbn; lia|].
  destruct_if as E4; [|intros [= <- <- <-]; split; [done|]; cbn [app]; rewrite Rh; unfold pages_asked; cbn; lia].
  intros [= <- <- <-]. rewrite Ra. destruct Hl1 as [H1 H2 H3 H4 H5]. cbn [backfillPages with_pages l1 with_hist] in *. split.
  - split; cbn; try done.
    + destruct (backfillPages l !! fk) as [n|] eqn:En; [by rewrite map_size_insert_Some by by eexists|]. rewrite map_size_insert_None by done. cbn in E3. lia.
    + apply map_Forall_insert_2; [|done]. destruct (backfillPages l !! fk) as [n|] eqn:En; cbn in *; [pose proof (H4 fk n En); cbn in *|]; unfold maxBackfillPages in *; lia.
  - unfold pages_asked. cbn. destruct (backfillPages l !! fk) as [n|] eqn:En; cbn.
    + rewrite (map_sum_replace _ _ _ _ n) by done. lia.
    + rewrite map_sum_insert_None by done. lia.
Qed.

Lemma with_reg_ok r l : loop_ok l -> loop_ok (with_reg r l).
Proof. intros []. by split. Qed.

Lemma onMessage_loop c now free ev h l acts h' l' :
  loop_ok l -> Command (evMsg ev) <> §"BATCH" -> onMessage lim c now free ev h l = (acts, h', l') -> loop_ok l' /\ backfillPages l' = backfillPages l.
Proof.
  intros Hl Hb. unfold onMessage. rewrite (bool_decide_eq_false_2 (Command (evMsg ev) = §"BATCH")) by done. cbv zeta. destruct (historyReplay _ _).
  - destruct (histBatches l !! _) as [b|] eqn:El; [|by intros [= <- <- <-]]. set (k := hubBatchRef _) in *. set (b1 := noteReplayed now ev b). intros E.
    destruct (lo_batches l Hl k b El) as (Hk & Ht & _). assert (short (hbTarget b1) /\ short (hbLastID b1)) as [Ht1 Hi1] by (cbn; auto).
    pose proof (batch_update l k b b1 Hl El Ht1 Hi1) as Hl1.
    destruct (route_loop _ _ _ _ _ _ _ _ _ _ E) as [->|(k' & b' & [= <- <-] & ->)]; [done|]. split; [|done].
    apply (batch_update _ k b1); [done|cbn; apply lookup_insert_eq|done|done].
  - destruct (liveControlConsumed _ _ _ _ _ _) as [[[a1 cons] h1] l1] eqn:Ec. assert (loop_ok l1 /\ backfillPages l1 = backfillPages l) as [Hl1 Ep].
    { revert Ec. unfold liveControlConsumed. destruct (handleControlNumeric c ev h) as [[a h0]|]; [by intros [= <- <- <- <-]|].
      pose proof (accumulate_ok (connFold c) (evMsg ev) (whois l) (lo_whois l Hl)) as Hw. destruct (accumulateWhois _ _ _) as [[co card] w]. destruct Hw as [Hw _].
      assert (loop_ok (with_whois w l)) as Hlw by (destruct Hl; by split). destruct co; [by intros [= <- <- <- <-]|]. cbv zeta.
      destruct (serverInfo _ _ _) as [[text|] motd]; [by intros [= <- <- <- <-]|]. destruct (liveHints _ _ _ _ _). by intros [= <- <- <- <-]. }
    destruct cons; [by intros [= <- <- <-]|]. destruct (routeMessage _ _ _ _ _ _ _ _) as [[a2 h2] l2] eqn:Er. intros [= <- <- <-].
    destruct (route_loop _ _ _ _ _ _ _ _ _ _ Er) as [->|(k' & b' & [=] & _)]. done.
Qed.

(** The events of one connection: it is not torn down and set up again. *)
Definition same_connection (i : input) : Prop := match iEvent i with EventState _ StateConnecting _ => False | _ => True end.
Definition is_delimiter (e : hubEvent) : bool := match e with EventMessage ev => Command (evMsg ev) == §"BATCH" | _ => false end.

Lemma sync_loop c network h l acts h' l' :
  maybeStartSync lim c network h l = (acts, h', l') -> exists r, l' = with_reg r l.
Proof.
  unfold maybeStartSync. destruct_if as E; [intros [= <- <- <-]; exists (reg l); by destruct l|].
  destruct (backfill _ _ _ _). intros [= <- <- <-]. by eexists.
Qed.

Lemma step_loop i h l acts h' l' :
  loop_ok l -> hubStep lim (iConn i) (iNow i) (iFree i) (iEvent i) h l = (acts, h', l') ->
  loop_ok l' /\ (same_connection i -> pages_asked l' = pages_asked l + (if is_delimiter (iEvent i) then requests acts else 0)).
Proof.
  intros Hl. unfold hubStep, same_connection. destruct (iEvent i) as [network state err|ev]; cbn [is_delimiter].
  - destruct state; unfold onState; cbv zeta.
    + intros [= <- <- <-]. split; [done|]. lia.
    + intros [= <- <- <-]. split; [apply newLoop_ok|done].
    + destruct (maybeStartSync _ _ _ _ _) as [[a h1] l1] eqn:Es. apply sync_loop in Es as [r ->]. intros [= <- <- <-].
      split; [by repeat apply with_reg_ok|]. intros _. unfold pages_asked. cbn. lia.
  - cbv zeta. destruct (if _ && _ && _ then _ else _) as [[a1 h1] l1] eqn:Es. assert (exists r, l1 = with_reg r l /\ (Command (evMsg ev) = §"BATCH" -> a1 = [])) as (r & -> & Ha).
    { destruct (_ && _ && _) eqn:Eb; [|injection Es as <- <- <-; exists (reg l); by destruct l]. apply sync_loop in Es as [r ->]. exists r. split; [done|].
      intros Hc. rewrite Hc in Eb. unfold ends_motd in Eb. by rewrite andb_false_r in Eb. }
    destruct (onMessage _ _ _ _ _ _ _) as [[a2 h2] l2] eqn:Eo. intros [= <- <- <-]. pose proof (with_reg_ok r l Hl) as Hl1.
    destruct (decide (Command (evMsg ev) = §"BATCH")) as [Hb|Hb].
    + rewrite Ha, (bool_decide_eq_true_2 (Command (evMsg ev) = §"BATCH")) by done. cbn [app]. unfold onMessage in Eo.
      rewrite (bool_decide_eq_true_2 (Command (evMsg ev) = §"BATCH")) in Eo by done. destruct (track_counted _ _ _ _ _ _ _ _ Hl1 Eo) as [Hl2 Hp]. by split.
    + rewrite (bool_decide_eq_false_2 (Command (evMsg ev) = §"BATCH")) by done. destruct (onMessage_loop _ _ _ _ _ _ _ _ _ Hl1 Hb Eo) as [Hl2 Hp].
      split; [done|]. intros _. unfold pages_asked. rewrite Hp. cbn. lia.
Qed.

(** The history pages asked for because a batch ended. *)
Fixpoint paged (ins : list input) (h : Hub) (l : Loop) : Z :=
  match ins with
  | [] => 0
  | i :: rest =>
      let '(acts, h', l') := hubStep lim (iConn i) (iNow i) (iFree i) (iEvent i) h l in
      (if is_delimiter (iEvent i) then requests acts else 0) + paged rest h' l'
  end.

Lemma run_loop ins h l :
  loop_ok l ->
  let '(_, _, l') := hubRun lim ins h l in
  loop_ok l' /\ (Forall same_connection ins -> pages_asked l' = pages_asked l + paged ins h l).
Proof.
  revert h l. induction ins as [|i ins IH]; intros h l Hl; cbn [hubRun paged]; [split; [done|lia]|].
  destruct (hubStep _ _ _ _ _ _ _) as [[a1 h1] l1] eqn:Es. destruct (step_loop _ _ _ _ _ _ Hl Es) as [Hl1 Hp].
  specialize (IH h1 l1 Hl1). destruct (hubRun _ _ _ _) as [[a2 h2] l2]. destruct IH as [Hl2 Hp2]. split; [done|].
  intros Hs. apply Forall_cons in Hs as [Hi Hs]. rewrite Hp2, Hp by done. lia.
Qed.

(** A server cannot make the hub grow or ask without end.  Whatever events
    arrive, the loop keeps at most 256 open batches under references of at most 512
    bytes, at most 4096 paging counters of at most 10, and at most 64 WHOIS cards of
    fields of at most 2048 bytes; and within one connection, the pages of history
    requested because a batch ended are at most 40960, however many batches end. *)
Theorem hub_loop_bounded ins h :
  let '(_, _, l) := hubRun lim ins h newLoop in
  loop_ok l /\ (Forall same_connection ins -> paged ins h newLoop <= maxBackfillTargets * maxBackfillPages).
Proof.
  pose proof (run_loop ins h newLoop newLoop_ok) as H. destruct (hubRun _ _ _ _) as [[acts h'] l']. destruct H as [Hl Hp].
  split; [done|]. intros Hs. pose proof (pages_bound l' Hl) as Hb. rewrite Hp in Hb by done. unfold pages_asked in Hb at 1. cbn in Hb.
  rewrite map_sum_empty in Hb. lia.
Qed.
End bounds.
