(* ===== verification/HubClosed.v ===== *)
(** * A closed channel stays closed

    While the table of closed buffers remembers a channel, no line other than our
    own live JOIN brings it back: no row, no buffer and no announcement. *)

From S2P Require Import Prelude GoStrings GoUtf8 GoTime Ring RingProofs Store StoreProofs StoreSpec StoreQuery HubStore IrcMsg ServeLoop Conn HubRoute HubClose HubInfo Hub HubProofs HubAnnounce.

(** No row was added under the folded name. *)
Definition undisturbed (f : gostring -> gostring) (network fb : gostring) (st st' : Store) : Prop :=
  forall id b', db st' !! id = Some b' -> bNetwork b' = network -> f (bName b') = fb ->
    exists b, db st !! id = Some b /\ key b = key b' /\ row_ids b' ⊆ row_ids b.

Lemma undisturbed_back f n fb st st' : grows true st' st -> undisturbed f n fb st st'.
Proof. intros G id b' Hb _ _. destruct (G id b' Hb) as (b & ? & ? & ? & _). by exists b. Qed.

Lemma undisturbed_trans f n fb st1 st2 st3 : undisturbed f n fb st1 st2 -> undisturbed f n fb st2 st3 -> undisturbed f n fb st1 st3.
Proof.
  intros H1 H2 id b3 Hb3 Hn Hf. destruct (H2 id b3 Hb3 Hn Hf) as (b2 & Hb2 & K2 & R2). unfold key in K2. injection K2 as Kn Kb.
  destruct (H1 id b2 Hb2 ltac:(congruence) ltac:(congruence)) as (b1 & Hb1 & K1 & R1). exists b1. split; [done|]. split; [unfold key in *; congruence|set_solver].
Qed.

(** ** The table while a line is handled *)

Definition is_closed (network fb : gostring) (now : Z) (c : Closes) : Prop := (recentlyClosed network fb now c).1 = true.

Lemma close_key_inj n a b : close_key n a = close_key n b -> a = b.
Proof. unfold close_key. intros E. apply app_inv_head in E. by injection E. Qed.

Lemma is_closed_other n fb x now c : x <> fb -> is_closed n fb now c -> is_closed n fb now (unmarkClosed n x c).
Proof.
  intros Hne. unfold is_closed, recentlyClosed, unmarkClosed. rewrite delete_close_lookup.
  destruct (decide (close_key n fb = close_key n x)) as [E|_]; [by apply close_key_inj in E|].
  destruct (recentClose c !! close_key n fb); [|done]. by destruct (_ >? _).
Qed.

Lemma is_closed_asked n fb x now c : is_closed n fb now c -> is_closed n fb now (recentlyClosed n x now c).2.
Proof.
  intros Hc. destruct (decide (x = fb)) as [->|Hne].
  - unfold is_closed, recentlyClosed in Hc |- *. destruct (recentClose c !! close_key n fb) as [t|] eqn:E; [|done].
    destruct (now - t >? closeGraceMs) eqn:Et; [done|]. cbn [snd]. by rewrite E, Et.
  - unfold recentlyClosed at 1. destruct (recentClose c !! close_key n x) as [t|]; [|done]. destruct (_ >? _); [|done]. by apply is_closed_other.
Qed.

(** ** One append *)

Lemma canonical_fold network target f st : f (canonicalLocked network target (Some f) st) = f target.
Proof.
  unfold canonicalLocked. destruct (cache st !! _); [done|]. unfold fold_scan.
  pose proof (head_filter (fun e : Z * Buffer => (bNetwork e.2 == network) && (f (bName e.2) == f target)) (map_to_list (db st))) as H.
  destruct (head _) as [e|]; [|done]. destruct H as [_ H]. apply andb_true_iff in H as [_ H]. by apply bool_decide_eq_true in H.
Qed.

Definition fits (t : gostring) : Prop := len t <= maxStoredFieldBytes.

Section closed.
Context `{Huni : Unicode, Hirc : IrcV4, Hsha : Sha256}.
Context (lim : limits) (Hsize : 1 <= ringSize lim) (Hbudget : 0 <= maxRingBytes lim).
Context (c : Conn) (network fb : gostring) (now : Z).

Abbreviation calm h h' := (undisturbed (connFold c) network fb (hStore h) (hStore h')).
Abbreviation shut h := (is_closed network fb (UnixMilli now) (hCloses h)).

Lemma guarded_calm target g a u m h :
  store_ok lim (hStore h) -> shut h -> fits target -> (connFold c target = fb -> forall e, g true e = true) ->
  let h' := (guardedAppend lim c now network target g a u m h).2 in calm h h' /\ shut h'.
Proof.
  intros Hst Hc Hfit Hg. unfold guardedAppend, AppendFoldedGuardedArchive.
  pose proof (is_closed_asked network fb (connFold c target) (UnixMilli now) (hCloses h) Hc) as Hc'.
  destruct (recentlyClosed network (connFold c target) (UnixMilli now) (hCloses h)) as [closed cl] eqn:Er. cbn [snd] in Hc'.
  pose proof (append_cases lim Hsize Hbudget now network target m (MkOpts true (Some (connFold c)) (Some (g closed)) u) (hStore h) Hst) as H.
  destruct (append _ _ _ _ _ _ _) as [[[stored still]|] st']; cbn [snd hStore hCloses with_closes with_store].
  2: { destruct H as [_ ->]. split; [by apply undisturbed_back, grows_db|by destruct_if as E]. }
  split; [|by destruct_if as E]. destruct (ID stored =? 0); [by apply undisturbed_back, grows_db; rewrite H|].
  destruct H as [(id & b & Hb & Hk & _ & _ & _ & _ & E) (En & Et & Ev & _)]. intros j b' Hb' Hn Hf. rewrite E in Hb'.
  apply lookup_insert_Some in Hb' as [[<- <-]|[_ Hb']]; [|by exists b']. exfalso. cbn in Hf. unfold key in Hk. injection Hk as _ Kb. rewrite Kb, Et in Hf.
  unfold resolved_name in Hf. cbn [fold] in Hf. rewrite canonical_fold in Hf. unfold clampUTF8 in Hf.
  destruct (Z.leb_spec (len target) maxStoredFieldBytes); [|unfold fits in Hfit; lia]. rewrite Hf in Er. unfold is_closed in Hc. rewrite Er in Hc. cbn in Hc. subst closed.
  unfold vetoed in Ev. cbn [guardCreate] in Ev. by rewrite (Hg Hf) in Ev.
Qed.

Lemma membership_calm ev replay ts h :
  evNetwork ev = network -> store_ok lim (hStore h) -> shut h -> Forall fits ts -> let h' := (membership_loop lim c now ev replay ts h).2 in calm h h'.
Proof.
  intros En. revert h. induction ts as [|t ts IH]; intros h Hst Hc Hf; cbn [membership_loop]; [by apply undisturbed_back, grows_db|].
  apply Forall_cons in Hf as [Ht Hf].
  destruct (guarded_calm t (fun closed _ => closed) (fun _ => true) false (storeMessage now ev) h Hst Hc Ht ltac:(done)) as [C1 S1].
  pose proof (guardedAppend_evolves lim Hsize Hbudget true c now network t (fun closed _ => closed) (fun _ => true) false ev h ltac:(done) Hst) as (Hst1 & _ & _).
  unfold persistMembershipLine. rewrite En. destruct (guardedAppend lim c now network t _ _ _ _ h) as [res h1]. cbn [snd] in *.
  specialize (IH h1 Hst1 S1 Hf). destruct res as [[st' a]|]; destruct (membership_loop lim c now ev replay ts h1) as [a2 h2]; cbn in *; by eapply undisturbed_trans.
Qed.

(** ** One line *)

(** The names a line can be stored under are no longer than stored names are. *)
Definition line_fits (ev : Event) : Prop := fits (Param (evMsg ev) 0) /\ fits (sender (evMsg ev)) /\ Forall fits (evAffected ev).
Definition names_fit (st : Store) : Prop := forall id b, db st !! id = Some b -> fits (bName b).

Lemma strip_fits t p isChan : fits t -> fits (stripStatusPrefix t p isChan).
Proof. unfold stripStatusPrefix. destruct t as [|x rest]; [done|]. destruct_if as E; [|done]. unfold fits. rewrite len_cons. lia. Qed.

Lemma persistBuffer_fits ev replay batch st t :
  line_fits ev -> (forall b, batch = Some b -> fits b) ->
  (persistBuffer (queryOpen lim c (evNetwork ev)) (evMsg ev) c replay batch st).1 = Some t -> fits t.
Proof.
  intros (H0 & Hs & _) Hb. assert (fits serverBufferTarget) as Hstar by by vm_compute. pose proof (strip_fits _ (connStatusPrefixes c) (connIsChannel c) H0) as Hst.
  unfold persistBuffer, persistTarget, directTarget, noticeTarget, replayTarget. cbv zeta. destruct (queryOpen lim c (evNetwork ev) (sender (evMsg ev)) st) as [op st'].
  repeat (let E := fresh "E" in destruct_if as E); cbn [fst]; intros [= <-]; try done.
  all: destruct batch as [b|]; cbn [default]; try done; apply strip_fits; by apply Hb.
Qed.

Lemma closed_guard target replay own cmd :
  (forall t, connFold c t = fb -> connIsChannel c t = true) -> connFold c target = fb ->
  forall e, (if own && (cmd == §"PART") then negb e || true else (replay || connIsChannel c target) && true) = true.
Proof. intros Hch Hf e. destruct (_ && _); [by destruct e|]. rewrite (Hch _ Hf). by destruct replay. Qed.

Lemma persistEvent_calm ev replay batch h l acts h' l' :
  evNetwork ev = network -> store_ok lim (hStore h) -> shut h -> line_fits ev -> (forall k b, batch = Some (k, b) -> fits (hbTarget b)) ->
  (forall t, connFold c t = fb -> connIsChannel c t = true) ->
  (own_line c (evMsg ev) = true -> replay = false -> Command (evMsg ev) = §"JOIN" -> connFold c (Param (evMsg ev) 0) <> fb) ->
  persistEvent lim c now ev replay batch h l = (acts, h', l') -> calm h h'.
Proof.
  intros En Hst Hc Hfit Hbf Hch Hown. unfold persistEvent.
  pose proof (persistBuffer_evolves lim Hsize true c (evNetwork ev) (evMsg ev) replay (hbTarget ∘ snd <$> batch) (hStore h) Hst) as (Hst1 & _ & _).
  pose proof (persistBuffer_fits ev replay (hbTarget ∘ snd <$> batch) (hStore h)) as Hpf.
  pose proof (persistBuffer_db lim Hsize c (evNetwork ev) (evMsg ev) replay (hbTarget ∘ snd <$> batch) (hStore h) Hst) as Edb.
  assert (Command (evMsg ev) = §"JOIN" -> forall t, (persistBuffer (queryOpen lim c (evNetwork ev)) (evMsg ev) c replay (hbTarget ∘ snd <$> batch) (hStore h)).1 = Some t -> t = Param (evMsg ev) 0) as Hj.
  { intros Ej t. unfold persistBuffer, persistTarget. rewrite !Ej. go_switch. cbn [orb]. rewrite andb_false_r. destruct (connIsChannel c _); by intros [= <-]. }
  destruct (persistBuffer _ _ _ _ _ _) as [target st]. cbn [fst snd] in *.
  assert (calm h (with_store st h)) as C0 by by apply undisturbed_back, grows_db.
  destruct target as [t|]; [|by intros [= <- <- <-]]. assert (fits t) as Ht.
  { apply Hpf; [done| |done]. intros b Hb. destruct batch as [[k b0]|]; [|done]. injection Hb as <-. by eapply Hbf. }
  cbv zeta. set (h1 := prepareAppend lim c now ev replay t (with_store st h)).
  assert (calm h h1 /\ store_ok lim (hStore h1) /\ shut h1) as (C1 & K1 & S1).
  { destruct (prepare_evolves lim Hsize Hbudget true c now ev replay t (with_store st h) Hst1) as (K & _ & _). split; [|split; [done|]].
    - eapply undisturbed_trans; [exact C0|]. unfold h1, prepareAppend, adoptReplayedOwn. cbv zeta.
      repeat (let E := fresh "E" in destruct_if as E); cbn [hStore with_store with_closes]; try (by apply undisturbed_back, grows_db);
      match goal with |- context [AdoptOwnMsgID lim ?a ?b ?s] => exact (undisturbed_back _ _ _ _ _ (proj2 (rewrites_grows true _ _ (adopt_rewrites lim Hsize a b s Hst1)))) end.
    - unfold h1, prepareAppend. cbv zeta. destruct (own_line c (evMsg ev) && negb replay && (Command (evMsg ev) == §"JOIN")) eqn:Eo.
      + apply andb_true_iff in Eo as [Eo Ej]. apply andb_true_iff in Eo as [Eo Er]. apply negb_true_iff in Er. apply bool_decide_eq_true in Ej.
        assert (shut (with_closes (unmarkClosed (evNetwork ev) (connFold c t) (hCloses (with_store st h))) (with_store st h))) as Hs.
        { rewrite En. apply is_closed_other; [|done]. rewrite (Hj Ej t eq_refl). by apply Hown. }
        by destruct_if as E.
      + by destruct_if as E. }
  match goal with |- context [guardedAppend _ _ _ _ _ ?g ?a ?u ?m h1] => destruct (guarded_calm t g a u m h1 K1 S1 Ht) as [C2 _] end.
  { intros Hf e. by apply closed_guard. }
  rewrite En. destruct (guardedAppend _ _ _ _ _ _ _ _ _ _) as [res h2]. cbn [snd] in C2. assert (calm h h2) as C3 by by eapply undisturbed_trans.
  destruct res as [[stored still]|]; [|by intros [= <- <- <-]]. destruct (_ || still); [by intros [= <- <- <-]|]. destruct (negb replay); by intros [= <- <- <-].
Qed.

Lemma members_fit ev replay batch h :
  line_fits ev -> names_fit (hStore h) -> (forall k b, batch = Some (k, b) -> fits (hbTarget b)) -> Forall fits (membershipTargets c ev replay batch h).
Proof.
  intros (_ & _ & Ha) Hn Hb. unfold membershipTargets. destruct replay.
  - destruct batch as [[k b]|]; [|done]. destruct_if as E; [done|]. apply Forall_singleton. by eapply Hb.
  - cbv zeta. set (shared := if _ >? _ then _ else _). assert (Forall fits shared) as Hs by (unfold shared; destruct_if as E; [by apply Forall_take|done]).
    destruct (mPrefix _) as [p|]; [|done]. destruct (FindBuffer _ _ _ _) as [name|] eqn:Ef; [|done]. apply Forall_app. split; [done|]. apply Forall_singleton.
    unfold FindBuffer, fold_scan in Ef. apply fmap_Some in Ef as ([id b] & Eh & ->).
    match type of Eh with head (List.filter ?p ?l) = _ => pose proof (head_filter p l) as H; rewrite Eh in H end.
    destruct H as [Hin _]. apply elem_of_map_to_list in Hin. by eapply Hn.
Qed.

Lemma route_calm ev replay batch h l acts h' l' :
  evNetwork ev = network -> store_ok lim (hStore h) -> shut h -> line_fits ev -> names_fit (hStore h) -> (forall k b, batch = Some (k, b) -> fits (hbTarget b)) ->
  (forall t, connFold c t = fb -> connIsChannel c t = true) ->
  (own_line c (evMsg ev) = true -> replay = false -> Command (evMsg ev) = §"JOIN" -> connFold c (Param (evMsg ev) 0) <> fb) ->
  routeMessage lim c now ev replay batch h l = (acts, h', l') -> calm h h'.
Proof.
  intros En Hst Hc Hfit Hn Hbf Hch Hown. unfold routeMessage. cbv zeta.
  assert (forall h1 : Hub, hStore h1 = hStore h -> calm h h1) as Hsame by (intros h1 E; apply undisturbed_back, grows_db; by rewrite E).
  destruct_if as E1; [intros [= <- <- <-]; by apply Hsame|]. destruct_if as E2.
  { destruct replay; [intros [= <- <- <-]; by apply Hsame|]. destruct (applyUpstreamMarker lim c now ev h) as [a h1] eqn:Em. intros [= <- <- <-].
    apply undisturbed_back. by eapply marker_back. }
  destruct_if as E3; [intros E; apply undisturbed_back; by eapply redaction_back|]. destruct_if as E4; [|by eapply persistEvent_calm].
  unfold persistMembership. pose proof (membership_calm ev replay (membershipTargets c ev replay batch h) h En Hst Hc) as Hm.
  destruct (membership_loop _ _ _ _ _ _ _) as [a h2]. intros [= <- <- <-]. by apply Hm, members_fit.
Qed.

(** A channel closed in the UI stays closed.  While the table of closes remembers
    it, a line, live or replayed, adds no row to a buffer whose name folds to the
    channel's, creates no such buffer and announces nothing for it, unless it is our
    own live JOIN of that channel; lines of other channels and people are unaffected.
    The names in the line are taken to be no longer than stored names. *)
Theorem closed_stays_closed free ev h l acts h' l' :
  store_ok lim (hStore h) -> names_fit (hStore h) -> shut h -> evNetwork ev = network -> line_fits ev ->
  map_Forall (fun _ b => fits (hbTarget b)) (histBatches l) ->
  (forall t, connFold c t = fb -> connIsChannel c t = true) ->
  (own_line c (evMsg ev) = true -> historyReplay (evMsg ev) (histBatches l) = false -> Command (evMsg ev) = §"JOIN" -> connFold c (Param (evMsg ev) 0) <> fb) ->
  onMessage lim c now free ev h l = (acts, h', l') ->
  calm h h' /\ Forall (fun m => Network m = network -> connFold c (Target m) <> fb) (announced acts).
Proof.
  intros Hst Hn Hc En Hfit Hb Hch Hown E.
  destruct (onMessage_told lim Hsize Hbudget _ _ _ _ _ _ _ _ _ Hst E) as (_ & _ & [_ T] & _).
  assert (calm h h') as C.
  { clear T. revert E. unfold onMessage. cbv zeta. destruct_if as Eb.
    { intros E. apply (track_silent lim) in E as (_ & _ & Hs). destruct (Hs Hst) as [_ Ed]. by apply undisturbed_back, grows_db. }
    destruct (historyReplay _ _) eqn:Er.
    - destruct (histBatches l !! _) as [b|] eqn:El; [|intros [= <- <- <-]; by apply undisturbed_back, grows_db]. apply route_calm; try done.
      intros k b' [= <- <-]. by apply (Hb _ _ El).
    - destruct (liveControlConsumed _ _ _ _ _ _) as [[[a1 cons] h1] l1] eqn:Ec. pose proof (control_closes _ _ _ _ _ _ _ _ _ _ Ec) as Ecl.
      destruct (control_silent lim Hsize Hbudget _ _ _ _ _ _ _ _ _ Ec) as [(_ & _ & Hs) _]. destruct (Hs Hst) as [Hst1 Ed].
      assert (calm h h1) as C1 by by apply undisturbed_back, grows_db. destruct cons; [by intros [= <- <- <-]|].
      destruct (routeMessage lim c now ev false None h1 l1) as [[a2 h2] l2] eqn:Ero. intros [= <- <- <-]. eapply undisturbed_trans; [exact C1|].
      apply (route_calm ev false None h1 l1 a2 h2 l2); try done; [by rewrite Ecl|intros id b; rewrite Ed; apply Hn]. }
  split; [done|]. eapply Forall_impl; [exact T|]. intros m [Hid (id & b' & Hb' & Hk & Hi)] Hnet Hf. unfold key in Hk. injection Hk as K1 K2.
  destruct (C id b' Hb' ltac:(congruence) ltac:(congruence)) as (b & Hb0 & _ & Hr). pose proof (next_msg_above (hStore h) id b _ Hb0 (Hr _ Hi)). lia.
Qed.
End closed.
