(* ===== verification/HubQueue.v ===== *)
(** * The outbound queues of browser sessions: internal/hub/session.go, hub.go

    Broadcasts and replies are queued per session under two byte budgets, one per
    session and one for the hub; a session that cannot keep up is disconnected.  The
    operations run in goroutines, so they are programs of atomic instructions: each
    is one access to a shared counter, one critical section entry or one operation on
    the channel, and [step] interleaves any number of programs in any order. *)

From S2P Require Import Prelude.

Definition sessionBuffer : Z := 64.
Definition defaultSessionQueueBytes : Z := Z.shiftl 2 20.
Definition defaultHubQueueBytes : Z := Z.shiftl 8 20.
Definition maxHubSessions : Z := 64.

(** The state of [Session.once]. *)
Inductive once := Fresh | Running | Finished.

(** [qLocked] is [queueMu]; [qOut] the frames in the channel. *)
Record Session := MkSession { queuedBytes : Z; qOut : list gostring; closed : bool; onceDo : once; qLocked : bool }.
Definition newSession : Session := MkSession 0 [] false Fresh false.

(** Sessions are named by numbers; [sessions] are those registered, [hubLocked] is
    the hub's mutex. *)
Record Queues := MkQueues { sess : gmap Z Session; hubQueued : Z; sessions : gset Z; hubLocked : bool }.

Definition get (q : Queues) (s : Z) : Session := default newSession (sess q !! s).
Definition put (s : Z) (x : Session) (q : Queues) : Queues := MkQueues (<[s := x]> (sess q)) (hubQueued q) (sessions q) (hubLocked q).
Definition add_bytes (s n : Z) (q : Queues) : Queues :=
  let x := get q s in put s (MkSession (queuedBytes x + n) (qOut x) (closed x) (onceDo x) (qLocked x)) q.
Definition set_out (s : Z) (l : list gostring) (q : Queues) : Queues :=
  let x := get q s in put s (MkSession (queuedBytes x) l (closed x) (onceDo x) (qLocked x)) q.
Definition set_locked (s : Z) (b : bool) (q : Queues) : Queues :=
  let x := get q s in put s (MkSession (queuedBytes x) (qOut x) (closed x) (onceDo x) b) q.
Definition set_once (s : Z) (o : once) (q : Queues) : Queues :=
  let x := get q s in put s (MkSession (queuedBytes x) (qOut x) (closed x) o (qLocked x)) q.
Definition set_closed (s : Z) (q : Queues) : Queues :=
  let x := get q s in put s (MkSession (queuedBytes x) (qOut x) true (onceDo x) true) q.
Definition add_hub (n : Z) (q : Queues) : Queues := MkQueues (sess q) (hubQueued q + n) (sessions q) (hubLocked q).
Definition set_sessions (ss : gset Z) (q : Queues) : Queues := MkQueues (sess q) (hubQueued q) ss (hubLocked q).
Definition set_mu (b : bool) (q : Queues) : Queues := MkQueues (sess q) (hubQueued q) (sessions q) b.

(** [reserveBytes], one successful compare-and-swap: the new value of the counter. *)
Definition reserveBytes (counter n limit : Z) : option Z :=
  if (n <=? 0) || (n >? limit) then None else if counter >? limit - n then None else Some (counter + n).

(** What a program does when the hub's budget refuses its frame: [push] takes the
    hub's lock and tries again, [pushLocked] first evicts the slowest session and
    then gives up its own. *)
Inductive refusal := TakeLock | Evict | GiveUp.

Inductive instr :=
  | LockHub | UnlockHub
  | PushFrame (s : Z) (frame : gostring) (r : refusal)        (* reserve in the session *)
  | ReserveHub (s : Z) (frame : gostring) (r : refusal)
  | UndoReserve (s : Z) (frame : gostring) (r : refusal)
  | Enqueue (s : Z) (frame : gostring)
  | Release (s : Z) (frame : gostring)                        (* the session's counter *)
  | ReleaseHub (frame : gostring)
  | UnlockQueue (s : Z)
  | Disconnect (s : Z)
  | Teardown (s : Z)                                          (* take the lock, mark closed *)
  | Drain (s : Z)
  | Slowest (s : Z) (frame : gostring) (rest : list Z) (slowest : option Z) (most : Z)
  | Broadcast (except : option Z) (frame : gostring)
  | Register (s : Z)
  | Unregister (s : Z)
  | Receive (s : Z).

Section programs.
Variables (sessionLimit hubLimit : Z).
(** The order in which Go ranges over the sessions. *)
Variable iter : gset Z -> list Z.

Definition refused (s : Z) (frame : gostring) (r : refusal) (q : Queues) : list instr :=
  match r with
  | TakeLock => [LockHub; PushFrame s frame Evict; UnlockHub]
  | Evict => [Slowest s frame (iter (sessions q)) None 0]
  | GiveUp => [Disconnect s]
  end.

(** One instruction: what remains to be done in its place, and the new state;
    [None] while it is blocked. *)
Definition exec (i : instr) (q : Queues) : option (list instr * Queues) :=
  match i with
  | LockHub => if hubLocked q then None else Some ([], set_mu true q)
  | UnlockHub => Some ([], set_mu false q)
  | PushFrame s f r =>
      match reserveBytes (queuedBytes (get q s)) (len f) sessionLimit with
      | Some _ => Some ([ReserveHub s f r], add_bytes s (len f) q)
      | None => Some ([Disconnect s], q)
      end
  | ReserveHub s f r =>
      match reserveBytes (hubQueued q) (len f) hubLimit with
      | Some _ => Some ([Enqueue s f], add_hub (len f) q)
      | None => Some ([UndoReserve s f r], q)
      end
  | UndoReserve s f r => Some (refused s f r q, add_bytes s (- len f) q)
  | Enqueue s f =>
      if qLocked (get q s) then None
      else if closed (get q s) then Some ([Release s f], q)
      else if len (qOut (get q s)) <? sessionBuffer then Some ([], set_out s (qOut (get q s) ++ [f]) q)
      else Some ([Release s f; UnlockQueue s; Disconnect s], set_locked s true q)
  | Release s f => Some ([ReleaseHub f], add_bytes s (- len f) q)
  | ReleaseHub f => Some ([], add_hub (- len f) q)
  | UnlockQueue s => Some ([], set_locked s false q)
  | Disconnect s =>
      match onceDo (get q s) with
      | Fresh => Some ([Teardown s], set_once s Running q)
      | Running => None
      | Finished => Some ([], q)
      end
  | Teardown s => if qLocked (get q s) then None else Some ([Drain s], set_closed s q)
  | Drain s =>
      match qOut (get q s) with
      | f :: rest => Some ([Release s f; Drain s], set_out s rest q)
      | [] => Some ([], set_once s Finished (set_locked s false q))
      end
  | Slowest s f rest best most =>
      match rest with
      | x :: rest => Some ([if queuedBytes (get q x) >? most then Slowest s f rest (Some x) (queuedBytes (get q x)) else Slowest s f rest best most], q)
      | [] => Some (match best with
                    | Some v => if decide (v = s) then [Disconnect s] else [Disconnect v; PushFrame s f GiveUp]
                    | None => [Disconnect s]
                    end, q)
      end
  | Broadcast except f => Some ((fun s => PushFrame s f Evict) <$> List.filter (fun s => bool_decide (Some s <> except)) (iter (sessions q)), q)
  | Register s => Some ([], if Z.of_nat (size (sessions q)) <? maxHubSessions then set_sessions ({[s]} ∪ sessions q) q else q)
  | Unregister s => Some ([], set_sessions (sessions q ∖ {[s]}) q)
  | Receive s => match qOut (get q s) with f :: rest => Some ([Release s f], set_out s rest q) | [] => None end
  end.

(** ** The operations *)

Definition push (s : Z) (frame : gostring) : list instr := [PushFrame s frame TakeLock].
Definition broadcast (frame : gostring) : list instr := [LockHub; Broadcast None frame; UnlockHub].
Definition broadcastExcept (except : Z) (frame : gostring) : list instr := [LockHub; Broadcast (Some except) frame; UnlockHub].
Definition NewSession (s : Z) : list instr := [LockHub; Register s; UnlockHub].
Definition Close (s : Z) : list instr := [LockHub; Unregister s; UnlockHub; Disconnect s].
(** The write pump: receive a frame, write it, release it. *)
Definition pump (s : Z) : list instr := [Receive s].

Inductive operation : list instr -> Prop :=
  | OpPush s f : operation (push s f)
  | OpBroadcast f : operation (broadcast f)
  | OpExcept s f : operation (broadcastExcept s f)
  | OpNew s : operation (NewSession s)
  | OpClose s : operation (Close s)
  | OpPump s : operation (pump s).

(** Running goroutines and the shared state. *)
Inductive step : list (list instr) * Queues -> list (list instr) * Queues -> Prop :=
  | StepSpawn p ts q : operation p -> step (ts, q) (p :: ts, q)
  | StepExec ts1 ts2 i rest l q q' : exec i q = Some (l, q') -> step (ts1 ++ (i :: rest) :: ts2, q) (ts1 ++ (l ++ rest) :: ts2, q').

Definition start : list (list instr) * Queues := ([], MkQueues ∅ 0 ∅ false).
Definition reachable : list (list instr) * Queues -> Prop := rtc step start.

(** ** What is reserved *)

Definition frames_bytes (l : list gostring) : Z := foldr (fun f n => len f + n) 0 l.

(** The bytes an instruction still has to give back, to a session and to the hub. *)
Definition owed (s : Z) (i : instr) : Z :=
  match i with
  | ReserveHub t f _ | UndoReserve t f _ | Enqueue t f | Release t f => if decide (t = s) then len f else 0
  | _ => 0
  end.
Definition owed_hub (i : instr) : Z :=
  match i with Enqueue _ f | Release _ f | ReleaseHub f => len f | _ => 0 end.

Definition in_flight (g : instr -> Z) (ts : list (list instr)) : Z := foldr (fun t n => foldr (fun i m => g i + m) 0 t + n) 0 ts.

Record queues_ok (ts : list (list instr)) (q : Queues) : Prop := {
  qk_session s : queuedBytes (get q s) = frames_bytes (qOut (get q s)) + in_flight (owed s) ts;
  qk_hub : hubQueued q = map_sum (fun _ x => frames_bytes (qOut x)) (sess q) + in_flight owed_hub ts;
  qk_limit s : queuedBytes (get q s) <= sessionLimit;
  qk_hub_limit : hubQueued q <= hubLimit;
  qk_length s : len (qOut (get q s)) <= sessionBuffer;
  qk_sessions : Z.of_nat (size (sessions q)) <= maxHubSessions;
  qk_draining s t : t ∈ ts -> Drain s ∈ t -> closed (get q s) = true;
  qk_finished s : onceDo (get q s) = Finished -> closed (get q s) = true /\ qOut (get q s) = []
}.

Definition program (g : instr -> Z) (t : list instr) : Z := foldr (fun i m => g i + m) 0 t.

Lemma program_app g a b : program g (a ++ b) = program g a + program g b.
Proof. induction a as [|i a IH]; cbn; [done|]. unfold program in *. lia. Qed.

Lemma flight_cons g t ts : in_flight g (t :: ts) = program g t + in_flight g ts.
Proof. done. Qed.

Lemma flight_app g a b : in_flight g (a ++ b) = in_flight g a + in_flight g b.
Proof. induction a as [|t a IH]; cbn; [done|]. unfold in_flight in *. lia. Qed.

Lemma flight_done g ts : Forall (fun t => t = []) ts -> in_flight g ts = 0.
Proof. induction 1 as [|t ts -> _ IH]; [done|]. by rewrite flight_cons. Qed.

Lemma program_nonneg g t : (forall i, 0 <= g i) -> 0 <= program g t.
Proof. intros Hg. induction t as [|i t IH]; cbn; [done|]. specialize (Hg i). unfold program in *. lia. Qed.
Lemma flight_nonneg g ts : (forall i, 0 <= g i) -> 0 <= in_flight g ts.
Proof. intros Hg. induction ts as [|t ts IH]; [done|]. rewrite flight_cons. pose proof (program_nonneg g t Hg). lia. Qed.
Lemma owed_nonneg s i : 0 <= owed s i.
Proof. destruct i; cbn; try done; destruct (decide _); pose proof (len_nonneg frame); lia. Qed.
Lemma owed_hub_nonneg i : 0 <= owed_hub i.
Proof. destruct i; cbn; try done; apply len_nonneg. Qed.

Lemma frames_app a b : frames_bytes (a ++ b) = frames_bytes a + frames_bytes b.
Proof. induction a as [|f a IH]; cbn; [done|]. unfold frames_bytes in *. lia. Qed.
Lemma frames_nonneg l : 0 <= frames_bytes l.
Proof. induction l as [|f l IH]; cbn; [done|]. pose proof (len_nonneg f). unfold frames_bytes in *. lia. Qed.

Lemma frames_cons f l : frames_bytes (f :: l) = len f + frames_bytes l.
Proof. done. Qed.
#[local] Arguments frames_bytes : simpl never.

Definition queued (q : Queues) : Z := map_sum (fun _ x => frames_bytes (qOut x)) (sess q).

Lemma session_get_put s x q t : get (put s x q) t = if decide (t = s) then x else get q t.
Proof. unfold get, put. cbn. destruct (decide (t = s)) as [->|Hne]; [by rewrite lookup_insert_eq|by rewrite lookup_insert_ne]. Qed.

Lemma queued_put s x q : queued (put s x q) = queued q + frames_bytes (qOut x) - frames_bytes (qOut (get q s)).
Proof.
  unfold queued, put, get. cbn. destruct (sess q !! s) as [y|] eqn:E; cbn.
  - by rewrite (map_sum_replace _ _ _ _ y).
  - rewrite map_sum_insert_None by done. change (frames_bytes []) with 0; lia.
Qed.

(** What one instruction changes, in terms of what it leaves to be given back. *)
Record exec_ok (i : instr) (l : list instr) (q q' : Queues) : Prop := {
  ek_session s : queuedBytes (get q' s) - frames_bytes (qOut (get q' s)) =
    queuedBytes (get q s) - frames_bytes (qOut (get q s)) + program (owed s) l - owed s i;
  ek_hub : hubQueued q' - queued q' = hubQueued q - queued q + program owed_hub l - owed_hub i;
  ek_limit s : queuedBytes (get q' s) <= Z.max sessionLimit (queuedBytes (get q s));
  ek_hub_limit : hubQueued q' <= Z.max hubLimit (hubQueued q);
  ek_length s : len (qOut (get q' s)) <= Z.max sessionBuffer (len (qOut (get q s)));
  ek_sessions : Z.of_nat (size (sessions q')) <= Z.max maxHubSessions (Z.of_nat (size (sessions q)));
  ek_closed s : closed (get q s) = true -> closed (get q' s) = true;
  ek_draining s : Drain s ∈ l -> i = Drain s \/ closed (get q' s) = true;
  ek_finished s : (i = Drain s -> closed (get q s) = true) -> (onceDo (get q s) = Finished -> closed (get q s) = true /\ qOut (get q s) = []) ->
    onceDo (get q' s) = Finished -> closed (get q' s) = true /\ qOut (get q' s) = []
}.

Lemma reserve_ok c n limit v : reserveBytes c n limit = Some v -> 0 < n /\ c + n <= limit.
Proof. unfold reserveBytes. destruct_if as E1; [done|]. destruct_if as E2; [done|]. lia. Qed.

Ltac queue_cases :=
  repeat match goal with
  | |- context [decide (?a = ?b)] => destruct (decide (a = b)) as [->|]
  | H : context [decide (?a = ?b)] |- _ => destruct (decide (a = b)) as [->|]
  end.

(** The fields of a changed state. *)
Ltac queue_fields :=
  intros; cbn [hubQueued add_hub set_sessions set_mu sessions program foldr owed owed_hub] in *;
  rewrite ?session_get_put, ?queued_put in *; queue_cases; cbn [queuedBytes qOut closed onceDo qLocked] in *; try done.

Lemma program_inert g (l : list instr) : (forall i, i ∈ l -> g i = 0) -> program g l = 0.
Proof.
  induction l as [|i l IH]; intros H; cbn; [done|]. rewrite (H i) by left. unfold program in IH. rewrite IH; [done|]. intros j Hj. apply H. by right.
Qed.

(** Instructions that leave the sessions alone and have nothing to give back. *)
Lemma exec_ok_inert i l q q' :
  (forall s, owed s i = 0) -> owed_hub i = 0 -> (forall j, j ∈ l -> (forall s, owed s j = 0) /\ owed_hub j = 0 /\ forall s, j <> Drain s) ->
  sess q' = sess q -> hubQueued q' = hubQueued q -> Z.of_nat (size (sessions q')) <= Z.max maxHubSessions (Z.of_nat (size (sessions q))) -> exec_ok i l q q'.
Proof.
  intros Hi Hh Hl Es Eh Hn. assert (forall s, get q' s = get q s) as Eg by (intros s; unfold get; by rewrite Es).
  split; intros; rewrite ?Eg in *; try done; try lia.
  - rewrite Hi, program_inert; [lia|]. intros j Hj. by apply Hl.
  - unfold queued. rewrite Es, Eh, Hh, program_inert; [lia|]. intros j Hj. by apply Hl.
  - destruct (Hl _ H) as (_ & _ & Hd). by destruct (Hd s).
  - auto.
Qed.

Lemma refused_inert s f r q j : j ∈ refused s f r q -> (forall t, owed t j = 0) /\ owed_hub j = 0 /\ forall t, j <> Drain t.
Proof.
  destruct r; cbn; rewrite ?elem_of_cons, elem_of_nil; intros Hj; repeat destruct Hj as [->|Hj]; done.
Qed.

(** A change of one session. *)
Lemma exec_ok_put i l q s x :
  queuedBytes x - frames_bytes (qOut x) = queuedBytes (get q s) - frames_bytes (qOut (get q s)) + program (owed s) l - owed s i ->
  (forall t, t <> s -> program (owed t) l = owed t i) ->
  program owed_hub l - owed_hub i = frames_bytes (qOut (get q s)) - frames_bytes (qOut x) ->
  queuedBytes x <= Z.max sessionLimit (queuedBytes (get q s)) -> len (qOut x) <= Z.max sessionBuffer (len (qOut (get q s))) ->
  (closed (get q s) = true -> closed x = true) -> (forall t, Drain t ∈ l -> i = Drain t \/ (t = s /\ closed x = true)) ->
  ((i = Drain s -> closed (get q s) = true) -> (onceDo (get q s) = Finished -> closed (get q s) = true /\ qOut (get q s) = []) ->
   onceDo x = Finished -> closed x = true /\ qOut x = []) ->
  exec_ok i l q (put s x q).
Proof.
  intros H1 H2 H3 H4 H5 H6 H7 H8. split; try (intros t; rewrite session_get_put; destruct (decide (t = s)) as [->|Hne]); try done; try lia; cbn; try lia.
  - rewrite (H2 t Hne). lia.
  - fold (put s x q). rewrite queued_put. cbn. lia.
  - intros Hd. destruct (H7 s Hd) as [?|[_ ?]]; auto.
  - intros Hd. destruct (H7 t Hd) as [?|[? _]]; [by left|done].
Qed.

Lemma exec_sound i q l q' : exec i q = Some (l, q') -> exec_ok i l q q'.
Proof.
  destruct i as [| |s f r|s f r|s f r|s f|s f|f|s|s|s|s|s f rest best most|except f|s|s|s]; cbn [exec]; intros E.
  - destruct (hubLocked q); [done|]. injection E as <- <-. apply exec_ok_inert; cbn; try done; [by intros j Hj%elem_of_nil|lia].
  - injection E as <- <-. apply exec_ok_inert; cbn; try done; [by intros j Hj%elem_of_nil|lia].
  - destruct (reserveBytes _ _ _) eqn:Er; injection E as <- <-.
    + apply reserve_ok in Er as [Hn Hr]. apply exec_ok_put; cbn; try done; try lia; [rewrite decide_True by done; lia|intros t Ht; by rewrite decide_False|].
      intros t Hd%list_elem_of_singleton. done.
    + apply exec_ok_inert; cbn; try done; [by intros j ->%list_elem_of_singleton|lia].
  - destruct (reserveBytes _ _ _) eqn:Er; injection E as <- <-.
    + apply reserve_ok in Er as [Hn Hr]. split; intros; cbn in *; try done; try lia; [unfold get; cbn; lia|unfold queued; cbn; lia|apply Z.le_max_r..| |].
      * by apply list_elem_of_singleton in H.
      * auto.
    + pose proof (len_nonneg f). split; intros; cbn in *; try done; try lia; [|auto]. by apply list_elem_of_singleton in H0.
  - injection E as <- <-. pose proof (len_nonneg f). apply exec_ok_put; cbn; try done; try lia.
    + rewrite decide_True, program_inert; [lia| |done]. intros j Hj. by apply (refused_inert s f r q).
    + intros t Ht. rewrite decide_False, program_inert; [done| |done]. intros j Hj. by apply (refused_inert s f r q).
    + rewrite program_inert; [lia|]. intros j Hj. by apply (refused_inert s f r q).
    + intros t Hd. apply refused_inert in Hd as (_ & _ & Hd). by destruct (Hd t).
  - destruct (qLocked (get q s)); [done|]. destruct (closed (get q s)) eqn:Ec.
    { injection E as <- <-. split; intros; cbn in *; try done; try lia; [|auto]. by apply list_elem_of_singleton in H. }
    destruct (Z.ltb_spec (len (qOut (get q s))) sessionBuffer); injection E as <- <-.
    + apply exec_ok_put; cbn; try done; rewrite ?frames_app, ?frames_cons; cbn; try rewrite decide_True by done; change (frames_bytes []) with 0; try lia.
      * intros t Ht. by rewrite decide_False.
      * rewrite len_app. cbn. unfold len in *. cbn. lia.
      * by intros t Hd%elem_of_nil.
      * intros _ Hf Hx. destruct (Hf Hx). congruence.
    + apply exec_ok_put; cbn; try done; try lia.
      * intros t Hd. rewrite !elem_of_cons, elem_of_nil in Hd. by repeat destruct Hd as [Hd|Hd].
  - injection E as <- <-. pose proof (len_nonneg f). apply exec_ok_put; cbn; try done; try lia; [rewrite decide_True by done; lia|intros t Ht; by rewrite decide_False|].
    by intros t Hd%list_elem_of_singleton.
  - injection E as <- <-. pose proof (len_nonneg f). split; intros; cbn in *; try done; try lia; [unfold get; cbn; lia|unfold queued; cbn; lia|apply Z.le_max_r..| |].
    + by apply elem_of_nil in H0.
    + auto.
  - injection E as <- <-. apply exec_ok_put; cbn; try done; try lia. by intros t Hd%elem_of_nil.
  - destruct (onceDo (get q s)) eqn:Eo; [| |]; [|done|]; injection E as <- <-.
    + apply exec_ok_put; cbn; try done; try lia. by intros t Hd%list_elem_of_singleton.
    + apply exec_ok_inert; cbn; try done; [by intros j Hj%elem_of_nil|lia].
  - destruct (qLocked (get q s)); [done|]. injection E as <- <-. apply exec_ok_put; cbn; try done; try lia.
    + intros t Hd%list_elem_of_singleton. injection Hd as ->. by right.
    + intros _ Hf Hx. split; [done|]. by apply Hf.
  - destruct (qOut (get q s)) as [|f rest] eqn:Eo; injection E as <- <-.
    + replace (set_once s Finished (set_locked s false q)) with
        (put s (MkSession (queuedBytes (get q s)) [] (closed (get q s)) Finished false) q).
      2: { unfold set_once, set_locked. rewrite session_get_put, decide_True by done. cbn. unfold put. cbn. by rewrite insert_insert_eq, Eo. }
      apply exec_ok_put; cbn; rewrite ?Eo; try done; try lia; [by intros t Hd%elem_of_nil|auto].
    + pose proof (len_nonneg f). apply exec_ok_put; rewrite ?Eo; cbn; rewrite ?frames_cons; try done; try lia; [rewrite decide_True by done; lia|intros t Ht; by rewrite decide_False|..].
      * unfold len in *. cbn. lia.
      * intros t Hd. rewrite !elem_of_cons, elem_of_nil in Hd. destruct Hd as [Hd|[Hd|Hd]]; [done| |done]. injection Hd as ->. by left.
      * intros _ Hf Hx. by destruct (Hf Hx).
  - destruct rest as [|x rest]; injection E as <- <-.
    + apply exec_ok_inert; cbn; try done; [|lia]. intros j. destruct best as [v|]; [destruct (decide (v = s))|]; rewrite ?elem_of_cons, ?elem_of_nil; intros Hj; repeat destruct Hj as [->|Hj]; done.
    + apply exec_ok_inert; cbn; try done; [|lia]. intros j ->%list_elem_of_singleton. by destruct (_ >? _).
  - injection E as <- <-. apply exec_ok_inert; cbn; try done; [|lia]. intros j (t & -> & _)%list_elem_of_fmap. done.
  - injection E as <- <-. apply exec_ok_inert; cbn; try done; try (by destruct (_ <? _)); [by intros j Hj%elem_of_nil|].
    destruct (Z.ltb_spec (Z.of_nat (size (sessions q))) maxHubSessions); [|lia]. cbn.
    destruct (decide (s ∈ sessions q)); [replace ({[s]} ∪ sessions q) with (sessions q) by set_solver; lia|]. rewrite size_union, size_singleton by set_solver. lia.
  - injection E as <- <-. apply exec_ok_inert; cbn; try done; [by intros j Hj%elem_of_nil|].
    pose proof (subseteq_size (sessions q ∖ {[s]}) (sessions q) ltac:(set_solver)). lia.
  - destruct (qOut (get q s)) as [|f rest] eqn:Eo; [done|]. injection E as <- <-. pose proof (len_nonneg f).
    apply exec_ok_put; rewrite ?Eo; cbn; rewrite ?frames_cons; try done; try lia; [rewrite decide_True by done; lia|intros t Ht; by rewrite decide_False|..].
    + unfold len in *. cbn. lia.
    + by intros t Hd%list_elem_of_singleton.
    + intros _ Hf Hx. by destruct (Hf Hx).
Qed.

(** ** Any interleaving *)

Lemma start_ok : 0 <= sessionLimit -> 0 <= hubLimit -> queues_ok start.1 start.2.
Proof. intros Hs Hh. split; cbn; try done. by intros s t Ht%elem_of_nil. Qed.

Lemma operation_inert p i : operation p -> i ∈ p -> (forall s, owed s i = 0) /\ owed_hub i = 0 /\ forall s, i <> Drain s.
Proof.
  intros Hp Hin. destruct Hp; unfold push, broadcast, broadcastExcept, NewSession, Close, pump in Hin;
    rewrite ?elem_of_cons, ?elem_of_nil in Hin; repeat destruct Hin as [->|Hin]; done.
Qed.

Lemma spawn_ok p ts q : operation p -> queues_ok ts q -> queues_ok (p :: ts) q.
Proof.
  intros Hp [K1 K2 K3 K4 K5 K6 K7 K8]. split; try done.
  - intros s. rewrite flight_cons, K1, program_inert; [lia|]. intros i Hi. by apply (operation_inert p).
  - rewrite flight_cons, K2, program_inert; [lia|]. intros i Hi. by apply (operation_inert p).
  - intros s t [->|Ht]%elem_of_cons Hd; [|by eapply K7]. apply (operation_inert p) in Hd as (_ & _ & Hd); [|done]. by destruct (Hd s).
Qed.

Lemma exec_queues_ok ts1 ts2 i rest l q q' :
  queues_ok (ts1 ++ (i :: rest) :: ts2) q -> exec i q = Some (l, q') -> queues_ok (ts1 ++ (l ++ rest) :: ts2) q'.
Proof.
  intros [K1 K2 K3 K4 K5 K6 K7 K8] E. destruct (exec_sound _ _ _ _ E) as [E1 E2 E3 E4 E5 E6 E7 E8 E9].
  assert (forall g, in_flight g (ts1 ++ (l ++ rest) :: ts2) = in_flight g (ts1 ++ (i :: rest) :: ts2) + program g l - g i) as Hf.
  { intros g. rewrite !flight_app, !flight_cons, program_app. cbn. unfold program. lia. }
  split.
  - intros s. rewrite Hf. specialize (K1 s). specialize (E1 s). lia.
  - rewrite Hf. fold (queued q'). fold (queued q) in K2. lia.
  - intros s. specialize (K3 s). specialize (E3 s). lia.
  - lia.
  - intros s. specialize (K5 s). specialize (E5 s). lia.
  - lia.
  - intros s t Ht Hd. apply elem_of_app in Ht as [Ht|[->|Ht]%elem_of_cons].
    + apply E7, (K7 s t); [apply elem_of_app; by left|done].
    + apply elem_of_app in Hd as [Hd|Hd]; [destruct (E8 s Hd) as [->|?]; [|done]|]; apply E7, (K7 s _ ltac:(apply elem_of_app; right; left)); [left|by right].
    + apply E7, (K7 s t); [apply elem_of_app; right; by right|done].
  - intros s. apply E9; [|apply K8]. intros ->. apply (K7 s _ ltac:(apply elem_of_app; right; left)). left.
Qed.

Lemma reachable_queues_ok c : 0 <= sessionLimit -> 0 <= hubLimit -> reachable c -> queues_ok c.1 c.2.
Proof.
  intros Hs Hh. unfold reachable. apply (rtc_ind_r (fun c => queues_ok c.1 c.2) start); [by apply start_ok|]. intros c1 c2 _ Hst IH.
  destruct Hst as [p ts q Hp|ts1 ts2 i rest l q q' E]; cbn in *; [by apply spawn_ok|by eapply exec_queues_ok].
Qed.

(** C27. The outbound queues are accounted for exactly and bounded, whatever the
    interleaving of broadcasts, replies, write pumps, evictions and closes: at every
    moment a session's counter is the bytes of the frames in its queue plus those
    some goroutine still has to queue or release, the hub's counter is their total,
    neither exceeds its budget or goes negative, and no queue has more than 64 frames
    or the hub more than 64 sessions.  When no goroutine is inside an operation, the
    counters are those of the queues alone, and a session whose teardown has finished
    holds nothing. *)
Theorem queue_bytes_exact ts q :
  0 <= sessionLimit -> 0 <= hubLimit -> reachable (ts, q) ->
  (forall s, queuedBytes (get q s) = frames_bytes (qOut (get q s)) + in_flight (owed s) ts /\
             0 <= queuedBytes (get q s) <= sessionLimit /\ len (qOut (get q s)) <= sessionBuffer) /\
  hubQueued q = queued q + in_flight owed_hub ts /\ 0 <= hubQueued q <= hubLimit /\
  Z.of_nat (size (sessions q)) <= maxHubSessions /\
  (Forall (fun t => t = []) ts -> hubQueued q = queued q /\ forall s, queuedBytes (get q s) = frames_bytes (qOut (get q s)) /\
     (onceDo (get q s) = Finished -> closed (get q s) = true /\ queuedBytes (get q s) = 0)).
Proof.
  intros Hs Hh Hr. destruct (reachable_queues_ok _ Hs Hh Hr) as [K1 K2 K3 K4 K5 K6 K7 K8]. cbn [fst snd] in *. fold (queued q) in K2.
  assert (0 <= queued q) as Hq by (apply map_sum_nonneg; intros; apply frames_nonneg).
  pose proof (flight_nonneg owed_hub ts owed_hub_nonneg). split; [|split; [done|split; [lia|split; [done|]]]].
  - intros s. pose proof (flight_nonneg (owed s) ts (owed_nonneg s)). pose proof (frames_nonneg (qOut (get q s))). specialize (K1 s). specialize (K3 s). split; [done|]. split; [lia|done].
  - intros Hn. pose proof (fun g => flight_done g ts Hn) as H0.
    rewrite K2, H0. split; [lia|]. intros s. rewrite (K1 s), H0. split; [lia|]. intros Hf. destruct (K8 s Hf) as [? E]. split; [done|]. by rewrite E.
Qed.
End programs.

(** * Who pays for an exhausted budget

    When the hub's byte budget refuses a frame, [pushLocked] evicts the session with
    the most queued bytes and tries again: run to its end, it disconnects that
    session, empties its queue, and delivers the frame to the session that merely
    asked next. *)


#[local] Arguments frames_bytes : simpl never.

Section evict.
Variables (sessionLimit hubLimit : Z) (iter : gset Z -> list Z).
Hypothesis iter_elements : forall ss x, x ∈ iter ss <-> x ∈ ss.

(** A program running on its own. *)
Inductive alone : list instr * Queues -> list instr * Queues -> Prop :=
  | Alone i rest l q q' : exec sessionLimit hubLimit iter i q = Some (l, q') -> alone (i :: rest, q) (l ++ rest, q').

Lemma alone_step i rest l q q' c : exec sessionLimit hubLimit iter i q = Some (l, q') -> rtc alone (l ++ rest, q') c -> rtc alone (i :: rest, q) c.
Proof. intros E H. eapply rtc_l; [by apply Alone|done]. Qed.

(** The scan for the largest backlog. *)
Definition worse (q : Queues) (b : option Z * Z) (x : Z) : option Z * Z := if queuedBytes (get q x) >? b.2 then (Some x, queuedBytes (get q x)) else b.

Lemma scan_runs s f l b q rest :
  let r := foldl (worse q) b l in
  rtc alone (Slowest s f l b.1 b.2 :: rest, q) (Slowest s f [] r.1 r.2 :: rest, q).
Proof.
  revert b. induction l as [|x l IH]; intros b; cbn [foldl]; [done|]. eapply alone_step; [done|]. cbn [app].
  specialize (IH (worse q b x)). revert IH. generalize (foldl (worse q) (worse q b x) l). intros r IH. unfold worse in IH.
  by destruct (queuedBytes (get q x) >? b.2).
Qed.

Lemma scan_finds q v l b :
  (v ∈ l \/ b = (Some v, queuedBytes (get q v))) -> (forall x, x ∈ l -> x = v \/ queuedBytes (get q x) < queuedBytes (get q v)) ->
  (b.2 < queuedBytes (get q v) \/ b = (Some v, queuedBytes (get q v))) -> foldl (worse q) b l = (Some v, queuedBytes (get q v)).
Proof.
  revert b. induction l as [|x l IH]; intros b Hin Hmax Hb; cbn [foldl].
  { destruct Hin as [Hin%elem_of_nil|]; done. }
  assert (forall y, y ∈ l -> y = v \/ queuedBytes (get q y) < queuedBytes (get q v)) as Hl by (intros y Hy; apply Hmax; by right).
  destruct (Hmax x ltac:(left)) as [->|Hx].
  - assert (worse q b v = (Some v, queuedBytes (get q v))) as ->; [|apply IH; auto]. unfold worse.
    destruct Hb as [Hb| ->]; [|cbn; by rewrite Z.gtb_ltb, Z.ltb_irrefl]. destruct (Z.gtb_spec (queuedBytes (get q v)) b.2); [done|lia].
  - assert (x <> v) by (intros ->; lia). apply IH; [|done|].
    + destruct Hin as [[->|Hin]%elem_of_cons| ->]; [done|by left|]. right. unfold worse. cbn. destruct (Z.gtb_spec (queuedBytes (get q x)) (queuedBytes (get q v))); [lia|done].
    + unfold worse. destruct (Z.gtb_spec (queuedBytes (get q x)) b.2); cbn; [left; lia|]. destruct Hb as [?| ->]; auto.
Qed.

(** Nothing but the bytes of [v] and of the hub changes while [v] is drained. *)
Definition drained (v : Z) (q q' : Queues) : Prop :=
  qOut (get q' v) = [] /\ closed (get q' v) = closed (get q v) /\ queuedBytes (get q' v) = queuedBytes (get q v) - frames_bytes (qOut (get q v)) /\
  hubQueued q' = hubQueued q - frames_bytes (qOut (get q v)) /\ (forall x, x <> v -> get q' x = get q x) /\ sessions q' = sessions q.

Lemma get_put_eq s x q : get (put s x q) s = x.
Proof. by rewrite session_get_put, decide_True. Qed.
Lemma session_get_put_ne s x q t : t <> s -> get (put s x q) t = get q t.
Proof. intros. by rewrite session_get_put, decide_False. Qed.

Lemma drain_runs v rest q : exists q', rtc alone (Drain v :: rest, q) (rest, q') /\ drained v q q'.
Proof.
  remember (qOut (get q v)) as l eqn:El. revert q El. induction l as [|f l IH]; intros q El.
  - exists (set_once v Finished (set_locked v false q)). split.
    { eapply alone_step; [cbn; by rewrite <- El|]. done. }
    unfold drained, set_once, set_locked. rewrite !get_put_eq. cbn. rewrite <- El. change (frames_bytes []) with 0. split_and!; try done; try lia.
    intros x Hx. by rewrite !session_get_put_ne.
  - set (q1 := add_hub (- len f) (add_bytes v (- len f) (set_out v l q))).
    assert (get q1 v = MkSession (queuedBytes (get q v) - len f) l (closed (get q v)) (onceDo (get q v)) (qLocked (get q v))) as E1.
    { unfold q1. change (get (add_hub (- len f) ?x) v) with (get x v). unfold add_bytes, set_out. by rewrite !get_put_eq. }
    assert (forall x, x <> v -> get q1 x = get q x) as E2.
    { intros x Hx. unfold q1. change (get (add_hub (- len f) ?y) x) with (get y x). unfold add_bytes, set_out. by rewrite !session_get_put_ne. }
    destruct (IH q1) as (q' & Hr & D1 & D2 & D3 & D4 & D5 & D6); [by rewrite E1|]. exists q'. split.
    + eapply alone_step; [cbn; by rewrite <- El|]. cbn [app]. eapply alone_step; [done|]. cbn [app]. eapply alone_step; [done|]. exact Hr.
    + rewrite E1 in *. cbn in *. unfold drained. rewrite <- El. change (frames_bytes (f :: l)) with (len f + frames_bytes l). split_and!; try done.
      * rewrite D3. cbn. lia.
      * rewrite D4. cbn. lia.
      * intros x Hx. by rewrite D5, E2.
Qed.

(** [v] holds strictly more than any other session. *)
Definition slowest (v : Z) (q : Queues) : Prop :=
  v ∈ sessions q /\ 0 < queuedBytes (get q v) /\ forall x, x ∈ sessions q -> x = v \/ queuedBytes (get q x) < queuedBytes (get q v).

Definition room (limit counter n : Z) : Prop := 0 < n /\ counter + n <= limit.

Lemma reserve_room c n limit : room limit c n -> 0 <= c -> reserveBytes c n limit = Some (c + n).
Proof. intros [Hn Hr] Hc. unfold reserveBytes. destruct (Z.leb_spec n 0), (Z.gtb_spec n limit); cbn; try lia. destruct (Z.gtb_spec c (limit - n)); [lia|done]. Qed.

Lemma reserve_refused c n limit : limit < c + n -> reserveBytes c n limit = None.
Proof. intros Hr. unfold reserveBytes. destruct_if as E; [done|]. destruct (Z.gtb_spec c (limit - n)); [done|lia]. Qed.

(** A session with room takes the frame. *)
Lemma push_runs s f r q :
  room sessionLimit (queuedBytes (get q s)) (len f) -> 0 <= queuedBytes (get q s) -> room hubLimit (hubQueued q) (len f) -> 0 <= hubQueued q ->
  qLocked (get q s) = false -> closed (get q s) = false -> len (qOut (get q s)) < sessionBuffer ->
  exists q', rtc alone ([PushFrame s f r], q) ([], q') /\ qOut (get q' s) = qOut (get q s) ++ [f] /\ closed (get q' s) = false /\
    forall x, x <> s -> get q' x = get q x.
Proof.
  intros R1 P1 R2 P2 Hl Hc Hn. set (q1 := add_bytes s (len f) q). set (q2 := add_hub (len f) q1).
  assert (get q2 s = MkSession (queuedBytes (get q s) + len f) (qOut (get q s)) (closed (get q s)) (onceDo (get q s)) (qLocked (get q s))) as E2.
  { unfold q2, q1. change (get (add_hub (len f) ?x) s) with (get x s). unfold add_bytes. by rewrite get_put_eq. }
  exists (set_out s (qOut (get q s) ++ [f]) q2). split.
  - eapply alone_step; [cbn; by rewrite reserve_room|]. cbn [app]. eapply alone_step; [cbn; by rewrite reserve_room|]. cbn [app].
    change (add_hub (len f) (add_bytes s (len f) q)) with q2. eapply (alone_step _ _ []); [|apply rtc_refl]. cbn [exec]. rewrite E2. cbn. rewrite Hl, Hc.
    destruct (Z.ltb_spec (len (qOut (get q s))) sessionBuffer); [|lia]. done.
  - unfold set_out. rewrite get_put_eq, E2. cbn. split_and!; [done..|]. intros x Hx. rewrite session_get_put_ne by done. unfold q2, q1.
    change (get (add_hub (len f) ?y) x) with (get y x). unfold add_bytes. by rewrite session_get_put_ne.
Qed.

(** The slow consumer pays.  When the hub's budget refuses a frame for a session
    that has room of its own, [pushLocked] runs to its end having disconnected the
    session with the largest backlog and emptied its queue, and, the space freed
    sufficing, the frame is at the end of the queue of the session it was for, which
    stays connected; no other session is touched. *)
Theorem slow_consumer_pays s v f q :
  queues_ok sessionLimit hubLimit [] q -> slowest v q -> s <> v ->
  room sessionLimit (queuedBytes (get q s)) (len f) -> hubLimit < hubQueued q + len f ->
  room hubLimit (hubQueued q - queuedBytes (get q v)) (len f) ->
  qLocked (get q s) = false -> qLocked (get q v) = false -> onceDo (get q v) = Fresh -> closed (get q s) = false -> len (qOut (get q s)) < sessionBuffer ->
  exists q', rtc alone ([PushFrame s f Evict], q) ([], q') /\
    qOut (get q' s) = qOut (get q s) ++ [f] /\ closed (get q' s) = false /\
    closed (get q' v) = true /\ qOut (get q' v) = [] /\ queuedBytes (get q' v) = 0 /\
    forall x, x <> s -> x <> v -> get q' x = get q x.
Proof.
  intros [K1 K2 K3 K4 K5 K6 K7 K8] (Hv & Hp & Hmax) Hsv R1 Hfull R2 Ls Lv Ov Cs Ns.
  assert (forall x, queuedBytes (get q x) = frames_bytes (qOut (get q x))) as Kx by (intros x; pose proof (K1 x) as E; change (in_flight (owed x) []) with 0 in E; lia).
  assert (forall x, 0 <= queuedBytes (get q x)) as Kp by (intros x; rewrite Kx; apply frames_nonneg).
  assert (queuedBytes (get q v) <= hubQueued q) as Kh.
  { rewrite K2, Kx. change (in_flight owed_hub []) with 0. unfold get. destruct (sess q !! v) as [y|] eqn:E; cbn.
    - pose proof (map_sum_member (fun _ x => frames_bytes (qOut x)) (sess q) v y ltac:(intros; apply frames_nonneg) E). cbn in *. lia.
    - assert (0 <= map_sum (fun _ x => frames_bytes (qOut x)) (sess q)) by (apply map_sum_nonneg; intros; apply frames_nonneg). change (frames_bytes []) with 0. lia. }
  set (q1 := add_bytes s (- len f) (add_bytes s (len f) q)).
  assert (forall x, get q1 x = get q x) as E1.
  { intros x. unfold q1, add_bytes. rewrite !session_get_put. destruct (decide (x = s)) as [->|]; [|done]. rewrite decide_True by done. cbn. destruct (get q s); cbn. f_equal; lia. }
  assert (foldl (worse q1) (None, 0) (iter (sessions q)) = (Some v, queuedBytes (get q v))) as Ew.
  { replace (queuedBytes (get q v)) with (queuedBytes (get q1 v)) by by rewrite E1. apply scan_finds.
    - left. by apply iter_elements.
    - intros x Hx. rewrite !E1. by apply Hmax, iter_elements.
    - left. by rewrite E1. }
  set (q2 := set_closed v (set_once v Running q1)).
  assert (get q2 v = MkSession (queuedBytes (get q v)) (qOut (get q v)) true Running true) as E2 by (unfold q2, set_closed, set_once; rewrite !get_put_eq, E1; done).
  assert (forall x, x <> v -> get q2 x = get q x) as E2' by (intros x Hx; unfold q2, set_closed, set_once; rewrite !session_get_put_ne by done; apply E1).
  assert (qLocked (get (set_once v Running q1) v) = false) as El by (unfold set_once; by rewrite get_put_eq, E1).
  destruct (drain_runs v [PushFrame s f GiveUp] q2) as (q3 & Hd & D1 & D2 & D3 & D4 & D5 & D6). rewrite E2 in D2, D3, D4. cbn in D2, D3, D4.
  assert (get q3 s = get q s) as E3 by (rewrite D5, E2' by done; done).
  destruct (push_runs s f GiveUp q3) as (q' & Hr & P1 & P2 & P3); rewrite ?E3; try done; try (rewrite D4, <- Kx; destruct R2; split; lia).
  - rewrite D4, <- Kx. lia.
  - exists q'. split.
    + eapply alone_step; [cbn; by rewrite reserve_room|]. cbn [app]. eapply alone_step; [cbn; by rewrite reserve_refused|]. cbn [app].
      eapply alone_step; [done|]. cbn [refused app]. fold q1. change (sessions (add_bytes s (len f) q)) with (sessions q).
      etrans; [apply (scan_runs s f (iter (sessions q)) (None, 0) q1 [])|]. rewrite Ew. cbn [fst snd]. eapply alone_step; [cbn; by rewrite decide_False by done|]. cbn [app].
      eapply alone_step; [cbn; by rewrite E1, Ov|]. cbn [app]. eapply alone_step; [cbn [exec]; by rewrite El|]. cbn [app]. fold q2.
      etrans; [exact Hd|exact Hr].
    + rewrite E3 in P1. split_and!; try done.
      * by rewrite P3 by done.
      * by rewrite P3 by done.
      * rewrite P3, D3, Kx by done. lia.
      * intros x Hx Hxv. by rewrite P3, D5, E2'.
Qed.
End evict.
