(* ===== verification/HubCommand.v ===== *)
(** * Requests of the browsers: internal/hub/session.go

    The requests that reach a connection or the store: sending messages, commands,
    typing, redactions, the buddy list and read markers.  A request is its decoded
    JSON ([None] when it does not decode); its outcome is the replies to the session,
    the broadcasts, and the new state. *)

From S2P Require Import Prelude GoStrings GoUtf8 GoNet GoTime Ring Store StoreQuery IrcMsg ISupport Roster Handshake Outbound Monitor Multiline CapNotify ServeLoop Conn HubRoute HubClose HubInfo Hub.

(** A live connection as the handlers use it: [lkPrefix] is the length of our own
    source, [lkSeq] the counter of multiline batches. *)
Record Link := MkLink { lkIsup : isupport; lkNick : gostring; lkCaps : Caps; lkPrefix : Z; lkSeq : Z; lkSender : Sender }.
Definition link_conn (l : Link) : Conn := manager_conn (lkIsup l) (lkNick l) (lkCaps l) (lkSender l).
Definition with_sender (s : Sender) (l : Link) : Link := MkLink (lkIsup l) (lkNick l) (lkCaps l) (lkPrefix l) (lkSeq l) s.
Definition next_seq (l : Link) : Link := MkLink (lkIsup l) (lkNick l) (lkCaps l) (lkPrefix l) ((lkSeq l + 1) mod 2 ^ 64) (lkSender l).

(** The hub, its live networks and the configured ones. *)
Record Desk := MkDesk { dkHub : Hub; dkLinks : gmap gostring Link; dkConfigured : gset gostring }.
Definition with_hub (h : Hub) (d : Desk) : Desk := MkDesk h (dkLinks d) (dkConfigured d).
Definition with_link (network : gostring) (l : Link) (d : Desk) : Desk := MkDesk (dkHub d) (<[network := l]> (dkLinks d)) (dkConfigured d).

Inductive reply :=
  | ROk
  | RError (code text : gostring)
  | RSendFailed (e : sendErr)
  | RMultilineFailed (e : sendMlErr)
  | RMonitors (entries : list (gostring * bool))
  | RMarker (buffer : gostring) (ms : Z).

Definition outcome : Type := list reply * list act * Desk.
Definition fails (code text : gostring) (d : Desk) : outcome := ([RError code text], [], d).
Definition no_network (d : Desk) : outcome := fails §"unknown_network" §"network is not connected" d.

(** ** Splitting a draft *)

Definition lf_lines (text : gostring) : list gostring := Split (ReplaceAll text [x0d; x0a] [x0a]) x0a.

(** Trailing empty lines are dropped. *)
Fixpoint drop_empty (l : list gostring) : list gostring := match l with [] :: l => drop_empty l | _ => l end.
Definition multilineLines (text : gostring) : list gostring := reverse (drop_empty (reverse (lf_lines text))).

Definition nonEmptyLines (text : gostring) : list gostring := List.filter (fun l => l != []) (lf_lines text).

Definition fallbackLines (text : gostring) : list gostring :=
  if negb (HasPrefix text actionPrefix) || negb (HasSuffix text ctcpDelim) then nonEmptyLines text
  else (fun l => actionPrefix ++ l ++ ctcpDelim) <$> nonEmptyLines (TrimSuffix (TrimPrefix text actionPrefix) ctcpDelim).

Record SendData := MkSend { sdNetwork : gostring; sdTarget : gostring; sdText : gostring }.
Record CommandData := MkCommand { cdNetwork : gostring; cdCommand : gostring; cdParams : list gostring }.
Record TypingData := MkTyping { tdNetwork : gostring; tdBuffer : gostring; tdState : gostring }.
Record RedactReq := MkRedact { rdNetwork : gostring; rdBuffer : gostring; rdMsgID : gostring; rdReason : gostring }.
Record MonitorReq := MkMonitorReq { mrNetwork : gostring; mrNick : gostring }.
Record SetMarkerData := MkSetMarker { smNetwork : gostring; smBuffer : gostring; smTime : Z }.

(** The commands a browser may issue, with their parameter counts. *)
Definition commandSpec : list (gostring * (Z * Z)) :=
  [(§"JOIN", (1, 2)); (§"PART", (1, 2)); (§"NICK", (1, 1)); (§"TOPIC", (1, 2)); (§"WHOIS", (1, 2)); (§"WHOWAS", (1, 2)); (§"WHO", (1, 2));
   (§"LIST", (0, 2)); (§"MODE", (1, 6)); (§"KICK", (2, 3)); (§"INVITE", (2, 2)); (§"AWAY", (0, 1)); (§"NOTICE", (2, 2)); (§"MOTD", (0, 1))].
Definition command_spec (cmd : gostring) : option (Z * Z) := snd <$> find (fun e => e.1 == cmd) commandSpec.

(** The last parameter alone may have spaces or lead with a colon. *)
Fixpoint validCommandParams (params : list gostring) : bool :=
  match params with
  | [] => true
  | p :: rest =>
      if (p == []) || ContainsAny p [x0d; x0a; x00] then false
      else if negb (rest == []) && (ContainsByte p x20 || HasPrefix p §":") then false
      else validCommandParams rest
  end.

(** Lowercases A to Z only. *)
Definition asciiFold (s : gostring) : gostring := (fun c => if (65 <=? b2z c) && (b2z c <=? 90) then z2b (b2z c + 32) else c) <$> s.

Definition maxMonitorsPerNetwork : Z := 1024.
Definition removePresence (network nick : gostring) (h : Hub) : Hub := with_presence (alter (delete nick) network (hPresence h)) h.
Definition monitorList (network : gostring) (h : Hub) : list (gostring * bool) :=
  (fun nick => (nick, default false (default ∅ (hPresence h !! network) !! nick))) <$> Monitors network (hMonitors h).

Section requests.
Context `{Unicode, IrcV4}.
Variables (lim : limits) (now : Z).

Definition link_send (m : IrcMsg.Message) (l : Link) : option sendErr * Link :=
  let '(err, s) := Send (lkIsup l) (lkPrefix l) m (lkSender l) in (err, with_sender s l).

Definition knownNetwork (network : gostring) (d : Desk) : bool :=
  bool_decide (is_Some (dkLinks d !! network)) || bool_decide (network ∈ dkConfigured d).

(** ** Sending *)

Definition own_message (nick target text : gostring) : Ring.Message :=
  let m := newMsg §"PRIVMSG" [target; text] in MkMsg 0 [] [] now [] nick §"PRIVMSG" (MsgString m) (searchText m) false [].

Definition persistOwn (l : Link) (network target text : gostring) (d : Desk) : list act * Desk :=
  if negb (knownNetwork network d) then ([], d)
  else
    let c := link_conn l in
    let buffer := stripStatusPrefix target (connStatusPrefixes c) (connIsChannel c) in
    let message := own_message (connNick c) target text in
    let h := dkHub d in
    let '(res, h) :=
      if connIsChannel c buffer then guardedAppend lim c now network buffer (fun closed _ => closed) (fun _ => true) true message h
      else
        let h := with_closes (unmarkClosed network (connFold c buffer) (hCloses h)) h in
        let '(res, st) := AppendFolded lim now network buffer (connFold c) message (hStore h) in (res, with_store st h) in
    match res with
    | Some (stored, _) => (if ID stored =? 0 then [] else [Broadcast (EnvEvent (eventData stored))], with_hub h d)
    | None => ([], with_hub h d)
    end.

Fixpoint persist_lines (l : Link) (network target : gostring) (lines : list gostring) (d : Desk) : list act * Desk :=
  match lines with
  | [] => ([], d)
  | line :: rest =>
      let '(a1, d) := persistOwn l network target line d in
      let '(a2, d) := persist_lines l network target rest d in
      (a1 ++ a2, d)
  end.

(** [None]: not handled here. *)
Definition trySendMultiline (l : Link) (sd : SendData) (echo : bool) (d : Desk) : option outcome :=
  let full := multilineLines (sdText sd) in
  if (len full <=? 1) || negb (CapEnabled §"draft/multiline" (lkCaps l)) then None
  else
    let value := CapValue §"draft/multiline" (lkCaps l) in
    let l1 := if bool_decide (validateMultiline (sdTarget sd) full (parseMultilineLimits value) (lineLen (lkIsup l)) (lkPrefix l) = None) then next_seq l else l in
    let '(err, s) := SendMultiline (lkIsup l) (lkPrefix l) value (lkSeq (next_seq l)) (sdTarget sd) full (lkSender l) in
    let d := with_link (sdNetwork sd) (with_sender s l1) d in
    match err with
    | Some e => Some ([RMultilineFailed e], [], d)
    | None =>
        if echo then Some ([ROk], [], d)
        else let '(acts, d) := persistOwn l (sdNetwork sd) (sdTarget sd) (Join full [x0a]) d in Some ([ROk], acts, d)
    end.

Definition handleSend (req : option SendData) (d : Desk) : outcome :=
  match req with
  | None => fails §"bad_request" §"malformed send data" d
  | Some sd =>
      if (sdNetwork sd == []) || (sdTarget sd == []) || (TrimSpace (sdText sd) == []) then fails §"bad_request" §"send needs network, target and text" d
      else if isServerBuffer (sdTarget sd) then fails §"bad_request" §"the server buffer is read-only" d
      else match dkLinks d !! sdNetwork sd with
      | None => no_network d
      | Some l =>
          let echo := CapEnabled §"echo-message" (lkCaps l) in
          match trySendMultiline l sd echo d with
          | Some r => r
          | None =>
              let lines := fallbackLines (sdText sd) in
              let '(err, s) := sendAll (lkIsup l) (lkPrefix l) ((fun line => newMsg §"PRIVMSG" [sdTarget sd; line]) <$> lines) (lkSender l) in
              let d := with_link (sdNetwork sd) (with_sender s l) d in
              match err with
              | Some e => ([RSendFailed e], [], d)
              | None => if echo then ([ROk], [], d)
                        else let '(acts, d) := persist_lines l (sdNetwork sd) (sdTarget sd) lines d in ([ROk], acts, d)
              end
          end
      end
  end.

(** ** Typing, redactions, commands *)

(** [seq] is the request's sequence number, 0 when no answer is wanted. *)
Definition handleTyping (seq : Z) (req : option TypingData) (d : Desk) : outcome :=
  match req with
  | None => ([], [], d)
  | Some t =>
      let ok := (tdNetwork t != []) && (tdBuffer t != []) && negb (isServerBuffer (tdBuffer t))
                && ((tdState t == §"active") || (tdState t == §"paused") || (tdState t == §"done")) in
      let d :=
        match dkLinks d !! tdNetwork t with
        | Some l => if ok && CapEnabled §"message-tags" (lkCaps l)
                    then with_link (tdNetwork t) (link_send (MkMessage {[ §"+typing" := tdState t ]} None §"TAGMSG" [tdBuffer t]) l).2 d else d
        | None => d
        end in
      (if seq =? 0 then [] else [ROk], [], d)
  end.

Definition handleRedact (req : option RedactReq) (d : Desk) : outcome :=
  match req with
  | None => fails §"bad_request" §"malformed redact data" d
  | Some r =>
      if (rdNetwork r == []) || (rdBuffer r == []) || (rdMsgID r == []) then fails §"bad_request" §"redact needs network, buffer and msgid" d
      else match dkLinks d !! rdNetwork r with
      | None => no_network d
      | Some l =>
          if negb (CapEnabled §"draft/message-redaction" (lkCaps l)) then fails §"unsupported" §"server does not support message redaction" d
          else
            let '(err, l) := link_send (newMsg §"REDACT" ([rdBuffer r; rdMsgID r] ++ (if rdReason r != [] then [rdReason r] else []))) l in
            let d := with_link (rdNetwork r) l d in
            match err with Some e => ([RSendFailed e], [], d) | None => ([ROk], [], d) end
      end
  end.

(** A /motd opens its gate before it is sent, and takes that back if the send fails. *)
Definition handleCommand (req : option CommandData) (d : Desk) : outcome :=
  match req with
  | None => fails §"bad_request" §"malformed command data" d
  | Some q =>
      let cmd := ToUpper (cdCommand q) in
      match command_spec cmd with
      | None => fails §"bad_request" (§"command not allowed: " ++ cdCommand q) d
      | Some (mn, mx) =>
          if (len (cdParams q) <? mn) || (len (cdParams q) >? mx) then fails §"bad_request" §"wrong number of parameters" d
          else if negb (validCommandParams (cdParams q)) then fails §"bad_request" §"invalid parameter" d
          else match dkLinks d !! cdNetwork q with
          | None => no_network d
          | Some l =>
              let motdTarget := default [] (head (cdParams q)) in
              let h := dkHub d in
              let h1 := if cmd == §"MOTD" then with_motd (expectMOTD (cdNetwork q) motdTarget (hMotd h)) h else h in
              let '(err, l) := link_send (newMsg cmd (cdParams q)) l in
              let d := with_link (cdNetwork q) l d in
              match err with
              | Some e => ([RSendFailed e], [], with_hub (if cmd == §"MOTD" then with_motd (retractMOTD (cdNetwork q) motdTarget (hMotd h1)) h1 else h1) d)
              | None => ([ROk], [], with_hub h1 d)
              end
          end
      end
  end.

(** ** The buddy list *)

Definition monitorFold (l : option Link) : gostring -> gostring := match l with None => asciiFold | Some l => connFold (link_conn l) end.

(** The reply that ends the request, or [None] when the nick can be added. *)
Fixpoint monitor_conflict (fold : gostring -> gostring) (nick : gostring) (existing : list gostring) : option reply :=
  match existing with
  | [] => None
  | nk :: rest =>
      if nk == nick then Some ROk
      else if fold nk == fold nick then Some (RError §"bad_request" (§"already monitored as " ++ nk))
      else monitor_conflict fold nick rest
  end.

Definition addMonitorLocked (r : MonitorReq) (fold : gostring -> gostring) (h : Hub) : reply + Hub :=
  let existing := Monitors (mrNetwork r) (hMonitors h) in
  match monitor_conflict fold (mrNick r) existing with
  | Some e => inl e
  | None =>
      if maxMonitorsPerNetwork <=? len existing then inl (RError §"bad_request" §"monitor list is full")
      else inr (MkHub (hStore h) (AddMonitor (mrNetwork r) (mrNick r) (hMonitors h)) (hCloses h) (hMotd h) (hPresence h) (hStates h) (hPushSubs h))
  end.

(** The stored spelling: an exact match wins, else the last one that folds alike. *)
Fixpoint stored_nick (fold : gostring -> gostring) (nick best : gostring) (l : list gostring) : gostring :=
  match l with
  | [] => best
  | nk :: rest => if nk == nick then nk else stored_nick fold nick (if fold nk == fold nick then nk else best) rest
  end.

Definition removeMonitorLocked (r : MonitorReq) (fold : gostring -> gostring) (h : Hub) : gostring * Hub :=
  let nick := stored_nick fold (mrNick r) (mrNick r) (Monitors (mrNetwork r) (hMonitors h)) in
  (nick, removePresence (mrNetwork r) nick
           (MkHub (hStore h) (RemoveMonitor (mrNetwork r) nick (hMonitors h)) (hCloses h) (hMotd h) (hPresence h) (hStates h) (hPushSubs h))).

Definition parseMonitorReq (req : option MonitorReq) (add : bool) : gostring + MonitorReq :=
  match req with
  | None => inl §"malformed monitor data"
  | Some r =>
      if (mrNetwork r == []) || (mrNick r == []) then inl §"monitor needs a network and a nick"
      else if add && negb (ValidMonitorTarget (mrNick r)) then inl §"monitor needs a network and a valid nick"
      else inr r
  end.

Definition handleMonitor (req : option MonitorReq) (add : bool) (d : Desk) : outcome :=
  match parseMonitorReq req add with
  | inl e => fails §"bad_request" e d
  | inr r =>
      if negb (knownNetwork (mrNetwork r) d) then fails §"bad_request" §"unknown network" d
      else
        let link := dkLinks d !! mrNetwork r in
        let fold := monitorFold link in
        match (if add then match addMonitorLocked r fold (dkHub d) with inl e => inl e | inr h => inr (mrNick r, h) end
               else inr (removeMonitorLocked r fold (dkHub d))) with
        | inl e => ([e], [], d)
        | inr (nick, h) =>
            let acts :=
              match link with
              | Some _ => ReconcileMonitored (Monitors (mrNetwork r) (hMonitors h)) :: (if add then [] else [Broadcast (EnvPresence nick false)])
              | None => []
              end in
            ([ROk], acts ++ [Broadcast EnvMonitorsChanged], with_hub h d)
        end
  end.

Definition handleGetMonitors (req : option gostring) (d : Desk) : outcome :=
  match req with
  | None | Some [] => fails §"bad_request" §"get_monitors needs a network" d
  | Some network => ([RMonitors (monitorList network (dkHub d))], [], d)
  end.

(** ** Read markers *)

Definition handleSetMarker (req : option SetMarkerData) (d : Desk) : outcome :=
  match req with
  | None => fails §"bad_request" §"malformed set_read_marker data" d
  | Some r =>
      if (smNetwork r == []) || (smBuffer r == []) || (smTime r <=? 0) then fails §"bad_request" §"set_read_marker needs network, buffer and time" d
      else
        let st := SetReadMarker lim (UnixMilli now) (smNetwork r) (smBuffer r) (smTime r) (hStore (dkHub d)) in
        let '(t, st) := ReadMarker lim (smNetwork r) (smBuffer r) st in
        let d := with_hub (with_store st (dkHub d)) d in
        let d :=
          match dkLinks d !! smNetwork r, t with
          | Some l, Some ms =>
              if CapEnabled §"draft/read-marker" (lkCaps l) && negb (ms =? UnixMilli zeroTime) && negb (isServerBuffer (smBuffer r))
              then with_link (smNetwork r) (link_send (newMsg §"MARKREAD" [smBuffer r; §"timestamp=" ++ formatMilli ms]) l).2 d else d
          | _, _ => d
          end in
        ([RMarker (smBuffer r) (markerMillis t)],
         Broadcast (EnvReadMarker (smBuffer r) (markerMillis t)) :: notifyMarkerAdvance (smBuffer r) t, d)
  end.
End requests.

(** * What a browser can make the connection send, and the buddy list *)


(** ** The requests and their dispatch *)

Inductive request :=
  | ReqSend (r : option SendData)
  | ReqCommand (r : option CommandData)
  | ReqTyping (seq : Z) (r : option TypingData)
  | ReqRedact (r : option RedactReq)
  | ReqMonitor (r : option MonitorReq) (add : bool)
  | ReqGetMonitors (r : option gostring)
  | ReqSetMarker (r : option SetMarkerData).

(** The lines a browser may cause: messages not addressed to the server buffer,
    typing and read markers likewise, redactions, the delimiters of a multiline
    batch, and the listed commands with as many parameters as listed, each free of
    line breaks and all but the last free of spaces and leading colons. *)
Definition browser_line (m : IrcMsg.Message) : Prop :=
  (Command m ∈ [§"PRIVMSG"; §"TAGMSG"; §"MARKREAD"] /\ head (Params m) <> Some serverBufferTarget) \/
  Command m ∈ [§"BATCH"; §"REDACT"] \/
  exists mn mx, command_spec (Command m) = Some (mn, mx) /\ mn <= len (Params m) <= mx /\ validCommandParams (Params m) = true.

Definition is_failure (r : reply) : bool := match r with RError _ _ | RSendFailed _ | RMultilineFailed _ => true | _ => false end.

Section confined.
Context `{Huni : Unicode, Hirc : IrcV4}.
Variables (lim : limits) (now : Z).

Definition handle (q : request) (d : Desk) : outcome :=
  match q with
  | ReqSend r => handleSend lim now r d
  | ReqCommand r => handleCommand r d
  | ReqTyping seq r => handleTyping seq r d
  | ReqRedact r => handleRedact r d
  | ReqMonitor r add => handleMonitor r add d
  | ReqGetMonitors r => handleGetMonitors r d
  | ReqSetMarker r => handleSetMarker lim now r d
  end.

(** The queue grew by lines a browser may cause, each of which passes the checks of
    the outbound path, and not at all when the request failed. *)
Definition grew (replies : list reply) (l l' : Link) : Prop :=
  lkIsup l' = lkIsup l /\ lkPrefix l' = lkPrefix l /\ exists new, out (lkSender l') = out (lkSender l) ++ new /\ Forall browser_line new /\
    Forall (fun m => check_out (lkIsup l) (lkPrefix l) m = None) new /\ (existsb is_failure replies = true -> new = []).

Definition links_grew (replies : list reply) (d d' : Desk) : Prop :=
  forall n, match dkLinks d !! n, dkLinks d' !! n with Some l, Some l' => grew replies l l' | None, None => True | _, _ => False end.

Lemma grew_refl replies l : grew replies l l.
Proof. split; [done|]. split; [done|]. exists []. by rewrite app_nil_r. Qed.

Lemma links_same replies d d' : dkLinks d' = dkLinks d -> links_grew replies d d'.
Proof. intros E n. rewrite E. destruct (dkLinks d !! n); [apply grew_refl|done]. Qed.

Lemma links_put replies n l l' d d' :
  dkLinks d !! n = Some l -> grew replies l l' -> dkLinks d' = <[n := l']> (dkLinks d) -> links_grew replies d d'.
Proof.
  intros Hl Hg E k. rewrite E. destruct (decide (k = n)) as [->|Hne]; [by rewrite Hl, lookup_insert_eq|].
  rewrite lookup_insert_ne by done. destruct (dkLinks d !! k); [apply grew_refl|done].
Qed.

(** All or none: what [sendAll] leaves. *)
Lemma sendAll_grew replies l msgs err s :
  Forall browser_line msgs -> sendAll (lkIsup l) (lkPrefix l) msgs (lkSender l) = (err, s) ->
  (err = None -> existsb is_failure replies = false) -> grew replies l (with_sender s l).
Proof.
  intros Hm E Hf. pose proof (sendAll_cases (lkIsup l) (lkPrefix l) msgs (lkSender l)) as H. rewrite E in H. destruct err as [e|].
  - subst s. destruct l. apply grew_refl.
  - destruct H as (_ & Ho & _ & _ & Hc). split; [done|]. split; [done|]. exists msgs. split_and!; try done. rewrite Hf by done. done.
Qed.

Lemma link_send_grew replies l m err l' :
  browser_line m -> link_send m l = (err, l') -> (err = None -> existsb is_failure replies = false) -> grew replies l l'.
Proof.
  intros Hm. unfold link_send, Send. destruct (sendAll _ _ _ _) as [e s] eqn:E. intros [= -> <-]. by eapply sendAll_grew; [constructor|..].
Qed.

Lemma persistOwn_links l n t x d : dkLinks (persistOwn lim now l n t x d).2 = dkLinks d.
Proof.
  unfold persistOwn. destruct (negb _); [done|]. cbv zeta. destruct (if connIsChannel _ _ then _ else _) as [res h]. by destruct res as [[st a]|].
Qed.

Lemma persist_lines_links l n t lines d : dkLinks (persist_lines lim now l n t lines d).2 = dkLinks d.
Proof.
  revert d. induction lines as [|x lines IH]; intros d; cbn [persist_lines]; [done|]. pose proof (persistOwn_links l n t x d) as E.
  destruct (persistOwn _ _ _ _ _ _ _) as [a1 d1]. cbn in E. specialize (IH d1). destruct (persist_lines _ _ _ _ _ _ _) as [a2 d2]. cbn in *. congruence.
Qed.

Lemma batch_lines ref target lines : target <> serverBufferTarget -> Forall browser_line (buildMultilineBatch ref target lines).
Proof.
  intros Ht. unfold buildMultilineBatch. constructor; [right; left; cbn; left|]. apply Forall_app. split; [|constructor; [right; left; cbn; left|done]].
  apply Forall_fmap, Forall_forall. intros x _. left. split; [cbn; left|intros E; apply Ht, (inj Some _ _ E)].
Qed.

Lemma multiline_grew l sd echo d r :
  dkLinks d !! sdNetwork sd = Some l -> sdTarget sd <> serverBufferTarget -> trySendMultiline lim now l sd echo d = Some r ->
  links_grew r.1.1 d r.2.
Proof.
  intros Hl Ht. unfold trySendMultiline. destruct_if as E1; [done|]. cbv zeta. set (l1 := if bool_decide _ then _ else _). unfold SendMultiline.
  assert (lkIsup l1 = lkIsup l /\ lkPrefix l1 = lkPrefix l /\ lkSender l1 = lkSender l) as (I1 & I2 & I3) by (unfold l1; by destruct (bool_decide _)).
  assert (forall replies, grew replies l (with_sender (lkSender l) l1)) as Hsame.
  { intros replies. split; [done|]. split; [done|]. exists []. by rewrite app_nil_r. }
  destruct (validateMultiline _ _ _ _ _) as [ve|].
  { intros [= <-]. cbn [fst snd]. eapply links_put; [exact Hl| |done]. by apply Hsame. }
  destruct (_ >? outCap).
  { intros [= <-]. cbn [fst snd]. eapply links_put; [exact Hl| |done]. by apply Hsame. }
  destruct (sendAll _ _ _ _) as [[e|] s] eqn:Es.
  { intros [= <-]. cbn [fst snd]. eapply links_put; [exact Hl| |done].
    pose proof (sendAll_cases (lkIsup l) (lkPrefix l) (buildMultilineBatch (§"ml" ++ Itoa (lkSeq (next_seq l))) (sdTarget sd) (multilineLines (sdText sd))) (lkSender l)) as H.
    rewrite Es in H. subst s. apply Hsame. }
  assert (grew [ROk] l (with_sender s l1)) as Hok.
  { destruct (sendAll_grew [ROk] l _ None s (batch_lines _ _ _ Ht) Es ltac:(done)) as (_ & _ & Hn). split; [done|]. by split. }
  destruct echo; [intros [= <-]; cbn [fst snd]; by eapply links_put|].
  match goal with |- context [persistOwn lim now ?a ?b ?c ?x ?y] => pose proof (persistOwn_links a b c x y) as Ep; destruct (persistOwn lim now a b c x y) as [acts d'] end.
  intros [= <-]. cbn [fst snd] in *. by eapply links_put.
Qed.

Lemma send_grew r d : let '(replies, _, d') := handleSend lim now r d in links_grew replies d d'.
Proof.
  unfold handleSend. destruct r as [sd|]; [|by apply links_same]. destruct_if as E1; [by apply links_same|]. destruct_if as E2; [by apply links_same|].
  assert (sdTarget sd <> serverBufferTarget) as Ht by by apply bool_decide_eq_false in E2.
  destruct (dkLinks d !! sdNetwork sd) as [l|] eqn:El; [|by apply links_same]. cbv zeta.
  destruct (trySendMultiline _ _ _ _ _ _) as [r|] eqn:Et; [apply multiline_grew in Et; [|done..]; by destruct r as [[? ?] ?]|].
  destruct (sendAll _ _ _ _) as [[e|] s] eqn:Es.
  - eapply links_put; [exact El| |done]. eapply sendAll_grew; [|exact Es|done]. apply Forall_fmap, Forall_forall. intros x _. left. split; [left|intros E; apply Ht, (inj Some _ _ E)].
  - assert (grew [ROk] l (with_sender s l)) as Hg.
    { eapply sendAll_grew; [|exact Es|done]. apply Forall_fmap, Forall_forall. intros x _. left. split; [left|intros E; apply Ht, (inj Some _ _ E)]. }
    destruct (CapEnabled _ _); [by eapply links_put|].
    match goal with |- context [persist_lines lim now ?a ?b ?c ?x ?y] => pose proof (persist_lines_links a b c x y) as Ep; destruct (persist_lines lim now a b c x y) as [acts d'] end.
    by eapply links_put.
Qed.

Lemma command_grew r d : let '(replies, _, d') := handleCommand r d in links_grew replies d d'.
Proof.
  unfold handleCommand. destruct r as [q|]; [|by apply links_same]. cbv zeta. set (cmd := ToUpper (cdCommand q)).
  destruct (command_spec cmd) as [[mn mx]|] eqn:Ec; [|by apply links_same]. destruct_if as E1; [by apply links_same|]. destruct_if as E2; [by apply links_same|].
  destruct (dkLinks d !! cdNetwork q) as [l|] eqn:El; [|by apply links_same].
  assert (browser_line (newMsg cmd (cdParams q))) as Hb.
  { right; right. exists mn, mx. split; [done|]. cbn. split; [lia|]. by destruct (validCommandParams _). }
  destruct (link_send _ l) as [[e|] l'] eqn:Es; eapply links_put; try done; by eapply link_send_grew.
Qed.

Lemma typing_grew seq r d : let '(replies, _, d') := handleTyping seq r d in links_grew replies d d'.
Proof.
  unfold handleTyping. destruct r as [t|]; [|by apply links_same]. cbv zeta. destruct (dkLinks d !! tdNetwork t) as [l|] eqn:El; [|by apply links_same].
  destruct (_ && CapEnabled _ _) eqn:E1; [|by apply links_same]. destruct (link_send _ l) as [err l'] eqn:Es. eapply links_put; [exact El| |done].
  eapply link_send_grew; [|exact Es|by destruct (seq =? 0)]. left. split; [right; left|]. cbn. intros E. apply (inj Some) in E. rewrite E in E1.
  do 2 (apply andb_true_iff in E1 as [E1 _]). apply andb_true_iff in E1 as [_ E1]. by vm_compute in E1.
Qed.

Lemma redact_grew r d : let '(replies, _, d') := handleRedact r d in links_grew replies d d'.
Proof.
  unfold handleRedact. destruct r as [q|]; [|by apply links_same]. destruct_if as E1; [by apply links_same|].
  destruct (dkLinks d !! rdNetwork q) as [l|] eqn:El; [|by apply links_same]. destruct_if as E2; [by apply links_same|].
  destruct (link_send _ l) as [[e|] l'] eqn:Es; (eapply links_put; [exact El| |done]); (eapply link_send_grew; [|exact Es|done]); right; left; right; left.
Qed.

Lemma marker_grew r d : let '(replies, _, d') := handleSetMarker lim now r d in links_grew replies d d'.
Proof.
  unfold handleSetMarker. destruct r as [q|]; [|by apply links_same]. destruct_if as E1; [by apply links_same|]. cbv zeta.
  destruct (ReadMarker _ _ _ _) as [t st]. cbn [dkLinks with_hub]. destruct (dkLinks d !! smNetwork q) as [l|] eqn:El; [|by apply links_same].
  destruct t as [ms|]; [|by apply links_same]. destruct_if as E2; [|by apply links_same]. destruct (link_send _ l) as [err l'] eqn:Es.
  eapply links_put; [exact El| |done]. eapply link_send_grew; [|exact Es|done]. left. split; [right; right; left|]. cbn. intros E. apply (inj Some) in E.
  apply andb_true_iff in E2 as [_ E2]. rewrite E in E2. by vm_compute in E2.
Qed.

End confined.

(** ** The buddy list *)

Section buddies.
Context `{Huni : Unicode, Hirc : IrcV4}.

(** At most 1024 nicks, each fit for a MONITOR line, no two of which fold alike. *)
Definition buddies_ok (fold : gostring -> gostring) (s : gset gostring) : Prop :=
  Z.of_nat (size s) <= maxMonitorsPerNetwork /\ (forall n, n ∈ s -> ValidMonitorTarget n = true) /\
  (forall a b, a ∈ s -> b ∈ s -> fold a = fold b -> a = b).

Definition buddies (network : gostring) (d : Desk) : gset gostring := default ∅ (hMonitors (dkHub d) !! network).

Lemma monitors_elements network t n : n ∈ Monitors network t <-> n ∈ default ∅ (t !! network).
Proof. unfold Monitors, sort_Strings. rewrite merge_sort_Permutation. apply elem_of_elements. Qed.

Lemma monitors_len network t : len (Monitors network t) = Z.of_nat (size (default ∅ (t !! network))).
Proof. unfold Monitors, sort_Strings, len. rewrite merge_sort_Permutation. done. Qed.

Lemma conflict_none fold nick l : monitor_conflict fold nick l = None -> forall n, n ∈ l -> fold n <> fold nick.
Proof.
  induction l as [|x l IH]; cbn; [by intros _ n Hn%elem_of_nil|]. destruct_if as E1; [done|]. destruct_if as E2; [done|]. intros H n [->|Hn]%elem_of_cons; [|by apply IH].
  by apply bool_decide_eq_false in E2.
Qed.

Lemma monitor_step r add d replies acts d' n :
  handleMonitor r add d = (replies, acts, d') -> dkLinks d' = dkLinks d /\
  (buddies_ok (monitorFold (dkLinks d !! n)) (buddies n d) -> buddies_ok (monitorFold (dkLinks d !! n)) (buddies n d')).
Proof.
  unfold handleMonitor. destruct (parseMonitorReq r add) as [e|q] eqn:Ep; [by intros [= <- <- <-]|]. destruct (negb _); [by intros [= <- <- <-]|]. cbv zeta.
  destruct add.
  - unfold addMonitorLocked. cbv zeta. destruct (monitor_conflict _ _ _) as [e|] eqn:Ec; [by intros [= <- <- <-]|].
    destruct (Z.leb_spec maxMonitorsPerNetwork (len (Monitors (mrNetwork q) (hMonitors (dkHub d))))); [by intros [= <- <- <-]|].
    intros [= <- <- <-]. split; [done|]. unfold buddies. cbn. unfold AddMonitor. destruct (decide (n = mrNetwork q)) as [->|Hne]; [|by rewrite lookup_insert_ne].
    rewrite lookup_insert_eq. cbn. rewrite monitors_len in H. pose proof (conflict_none _ _ _ Ec) as Hc. set (s := default ∅ (hMonitors (dkHub d) !! mrNetwork q)) in *.
    assert (forall x, x ∈ s -> monitorFold (dkLinks d !! mrNetwork q) x <> monitorFold (dkLinks d !! mrNetwork q) (mrNick q)) as Hf by (intros x Hx; apply Hc; by apply monitors_elements).
    intros (B1 & B2 & B3). split_and!.
    + rewrite size_union, size_singleton; [lia|]. intros x Hx%elem_of_singleton Hs. subst x. by apply (Hf _ Hs).
    + intros x [->%elem_of_singleton|Hx]%elem_of_union; [|by apply B2]. unfold parseMonitorReq in Ep. destruct r as [q'|]; [|done]. destruct_if as E1 in Ep; [done|].
      destruct_if as E2 in Ep; [done|]. injection Ep as ->. by destruct (ValidMonitorTarget _).
    + intros a b [->%elem_of_singleton|Ha]%elem_of_union [->%elem_of_singleton|Hb]%elem_of_union E; [done|by destruct (Hf b Hb)|by destruct (Hf a Ha)|by apply B3].
  - cbn [removeMonitorLocked]. intros [= <- <- <-]. split; [done|]. unfold buddies. cbn. unfold RemoveMonitor. destruct (decide (n = mrNetwork q)) as [->|Hne]; [|by rewrite lookup_alter_ne].
    rewrite lookup_alter_eq. destruct (hMonitors (dkHub d) !! mrNetwork q) as [s|]; [|done]. cbn. intros (B1 & B2 & B3). set (x := stored_nick _ _ _ _). split_and!.
    + pose proof (subseteq_size (s ∖ {[x]}) s ltac:(set_solver)). lia.
    + intros y [Hy _]%elem_of_difference. by apply B2.
    + intros a b [Ha _]%elem_of_difference [Hb _]%elem_of_difference. by apply B3.
Qed.

(** The persisted buddy list stays one the connection can install: from an empty
    list, any sequence of additions and removals, refused ones included, leaves at
    most 1024 nicks per network, each fit for a MONITOR line, and no two that are the
    same nick under the network's case mapping. *)
Theorem buddy_list_sound reqs d n :
  buddies n d = ∅ ->
  let d' := foldl (fun d (q : option MonitorReq * bool) => (handleMonitor q.1 q.2 d).2) d reqs in
  buddies_ok (monitorFold (dkLinks d' !! n)) (buddies n d').
Proof.
  intros He. assert (buddies_ok (monitorFold (dkLinks d !! n)) (buddies n d)) as Hok.
  { rewrite He. split; [by vm_compute|]. split; intros a; [intros Ha|intros b Ha]; by apply elem_of_empty in Ha. }
  clear He. cbv zeta. revert d Hok. induction reqs as [|[r add] reqs IH]; intros d Hok; cbn [foldl]; [done|]. apply IH. cbn [fst snd].
  destruct (handleMonitor r add d) as [[replies acts] d'] eqn:E. cbn [snd]. destruct (monitor_step _ _ _ _ _ _ n E) as [El Hs]. rewrite El. by apply Hs.
Qed.
End buddies.
