(* ===== verification/HubOwn.v ===== *)
(** * Our own messages are kept once

    Without echo-message the hub stores what we send itself, without a msgid; when
    the server later replays the message with its msgid, the row is adopted instead
    of a second one being stored. *)

From S2P Require Import Prelude GoStrings GoUtf8 GoNet GoTime Ring RingProofs Store StoreProofs StoreSpec StoreQuery HubStore IrcMsg ISupport Roster Handshake Outbound Multiline CapNotify ServeLoop Conn HubRoute HubClose HubInfo Hub HubProofs HubAnnounce HubClosed HubCommand.

Section store.
Context (lim : limits) (Hsize : 1 <= ringSize lim) (Hbudget : 0 <= maxRingBytes lim).

(** With one buffer per folded name, every spelling resolves to it. *)
Lemma canonical_unique f network target st id b :
  store_ok lim st -> no_split f st -> db st !! id = Some b -> bNetwork b = network -> f (bName b) = f target ->
  canonicalLocked network target (Some f) st = bName b.
Proof.
  intros Hst Hns Hb Hn Hf. unfold canonicalLocked. destruct (cache st !! (network, target)) as [j|] eqn:Ec.
  { destruct (ok_cache lim st Hst _ _ Ec) as (c & Hc & Hk). unfold key in Hk. injection Hk as K1 K2.
    assert (j = id) as -> by (apply (Hns j id c b Hc Hb); congruence). rewrite Hb in Hc. injection Hc as <-. done. }
  unfold fold_scan. pose proof (head_filter (fun e : Z * Buffer => (bNetwork e.2 == network) && (f (bName e.2) == f target)) (map_to_list (db st))) as H.
  destruct (head _) as [[j c]|]; cbn.
  - destruct H as [Hin Hp]. apply elem_of_map_to_list in Hin. apply andb_true_iff in Hp as [P1 P2]. apply bool_decide_eq_true in P1, P2. cbn in *.
    assert (j = id) as -> by (apply (Hns j id c b Hin Hb); congruence). by simplify_eq.
  - exfalso. pose proof (H (id, b) ltac:(by apply elem_of_map_to_list)) as Hp. cbn in Hp. rewrite !bool_decide_eq_true_2 in Hp by done. done.
Qed.

Lemma bufferID_finds network st id b :
  store_ok lim st -> db st !! id = Some b -> bNetwork b = network ->
  exists st', bufferID lim network (bName b) false st = (Some id, st') /\ db st' = db st.
Proof.
  intros Hst Hb Hn. pose proof (bufferID_ok lim Hsize network (bName b) false st Hst) as H.
  destruct (bufferID lim network (bName b) false st) as [[j|] st']; [|destruct H as [_ Ha]; by destruct (Ha id b Hb); unfold key; rewrite Hn].
  destruct H as (_ & c & (Hc & Hk & _) & [(E & _)|[? _]]); [|done]. exists st'. split; [|done]. f_equal. f_equal. rewrite E in Hc.
  apply (ok_names lim st Hst j id c b Hc Hb). unfold key in *. congruence.
Qed.

Lemma clamp_fits s : fits s -> clampUTF8 s maxStoredFieldBytes = s.
Proof. unfold fits, clampUTF8. intros Hf. destruct (Z.leb_spec (len s) maxStoredFieldBytes); [done|lia]. Qed.

Definition has_id (msgid : gostring) (d : list Ring.Message) : bool := existsb (fun m => MsgID m == msgid) d.

(** Adoption leaves the rows as they are, one of them with the msgid. *)
Lemma adopt_claims f st id b own :
  store_ok lim st -> no_split f st -> db st !! id = Some b -> bNetwork b = oNetwork own -> f (bName b) = f (oTarget own) ->
  oMsgID own <> [] -> oText own <> [] -> oSender own <> [] ->
  existsb (placeholder (oSender own) (clampUTF8 (oText own) maxStoredMessageBytes) (SinceMs own)) (table b) = true ->
  exists b', db (AdoptOwnMsgID lim own (Some f) st).2 !! id = Some b' /\ key b' = key b /\ has_id (clampUTF8 (oMsgID own) maxStoredFieldBytes) (table b') = true.
Proof.
  intros Hst Hns Hb Hn Hf Hm Ht Hs Hp. unfold AdoptOwnMsgID. rewrite !bool_decide_eq_false_2 by done. cbn [orb]. cbv zeta.
  rewrite (canonical_unique f (oNetwork own) (oTarget own) st id b) by done.
  destruct (bufferID_finds (oNetwork own) st id b Hst Hb Hn) as (st1 & -> & Edb). rewrite Edb, Hb. fold (has_id (clampUTF8 (oMsgID own) maxStoredFieldBytes) (table b)).
  destruct (has_id _ (table b)) eqn:Eh; [exists b; cbn [snd]; by rewrite Edb|].
  match goal with |- context [head (List.filter ?p ?l)] => pose proof (head_filter p l) as H; destruct (head (List.filter p l)) as [m0|] end.
  2: { apply existsb_exists in Hp as (x & Hx & Hpx). rewrite H in Hpx; [done|by apply list_elem_of_In]. }
  destruct H as [Hin _]. cbn [snd]. match goal with |- context [<[id := ?x]> (db st)] => set (bb := x) end. exists bb. split.
  { destruct (rings _ !! id); [rewrite db_settle, db_update_ring|]; cbn; apply lookup_insert_eq. }
  split; [done|]. unfold has_id, bb. cbn. apply existsb_exists. exists (set_msgid (clampUTF8 (oMsgID own) maxStoredFieldBytes) m0).
  split; [|by rewrite bool_decide_eq_true_2]. apply list_elem_of_In, list_elem_of_fmap. exists m0. by rewrite Z.eqb_refl.
Qed.

(** A message whose msgid is in the buffer is not stored again. *)
Lemma append_duplicate now c network target g u m st id b :
  store_ok lim st -> no_split (connFold c) st -> db st !! id = Some b -> bNetwork b = network -> connFold c (bName b) = connFold c target -> fits target ->
  fresh_msg m -> MsgID m <> [] -> fits (MsgID m) -> has_id (MsgID m) (table b) = true ->
  db (append lim now network target m (MkOpts true (Some (connFold c)) g u) st).2 = db st.
Proof.
  intros Hst Hns Hb Hn Hf Hfit Hfr Hm Hmf Hid.
  pose proof (append_ok lim Hsize Hbudget now network target m (MkOpts true (Some (connFold c)) g u) st Hst Hfr) as [Hst' _].
  pose proof (append_cases lim Hsize Hbudget now network target m (MkOpts true (Some (connFold c)) g u) st Hst) as H.
  destruct (append _ _ _ _ _ _ _) as [[[msg still]|] st']; [|by destruct H as [_ ->]]. destruct (ID msg =? 0); [done|].
  destruct H as [(j & b1 & Hb1 & Hk & Em & Hd & _ & _ & Edb) (En & Et & _)]. exfalso. cbn [snd] in Hst'. unfold resolved_name in Et. cbn [fold] in Et.
  rewrite clamp_fits, (canonical_unique (connFold c) network target st id b) in Et by done. rewrite En, Et in Hk.
  assert (b1 = b) as ->.
  { destruct Hb1 as [Hb1|(Hb1 & _ & _)].
    - assert (j = id) as -> by (apply (ok_names lim st Hst j id b1 b Hb1 Hb); unfold key in *; congruence). congruence.
    - exfalso. assert (j <> id) as Hne by (intros ->; congruence). apply Hne. eapply (ok_names lim st' Hst' j id _ b); [by rewrite Edb, lookup_insert_eq| |].
      + by rewrite Edb, lookup_insert_ne by done.
      + unfold key in Hk |- *. cbn. congruence. }
  unfold duplicate in Hd. rewrite Em in Hd. cbn in Hd. rewrite clamp_fits in Hd by done. rewrite bool_decide_eq_false_2 in Hd by done. cbn in Hd.
  unfold has_id in Hid. by rewrite Hid in Hd.
Qed.
End store.

Section own.
Context `{Huni : Unicode, Hirc : IrcV4, Hsha : Sha256}.
Context (lim : limits) (Hsize : 1 <= ringSize lim) (Hbudget : 0 <= maxRingBytes lim).

(** The row a sent message leaves: no msgid, our nick, the text as search sees it. *)
Lemma append_placeholder c now network target g m st msg still st' :
  store_ok lim st -> no_split (connFold c) st -> fits target -> MsgID m = [] ->
  append lim now network target m (MkOpts true (Some (connFold c)) g true) st = (Some (msg, still), st') -> ID msg <> 0 ->
  exists id b row, db st' !! id = Some b /\ bNetwork b = network /\ connFold c (bName b) = connFold c target /\ row ∈ table b /\ ID row = ID msg /\
    MsgID row = [] /\ Ring.Sender row = clampUTF8 (Ring.Sender m) maxStoredFieldBytes /\ Text row = clampUTF8 (Text m) maxStoredMessageBytes /\
    Time row = (if Time m =? zeroTime then now else Time m).
Proof.
  intros Hst Hns Hfit Hm E Hid. pose proof (append_cases lim Hsize Hbudget now network target m (MkOpts true (Some (connFold c)) g true) st Hst) as H.
  rewrite E in H. destruct (Z.eqb_spec (ID msg) 0); [done|]. destruct H as [(id & b & Hb & Hk & Em & _ & _ & _ & Edb) (En & Et & _)].
  exists id. eexists. exists (stored msg). split; [by rewrite Edb, lookup_insert_eq|]. unfold key in Hk. injection Hk as K1 K2. cbn.
  rewrite K1, K2, En, Et. unfold resolved_name. cbn [fold]. rewrite canonical_fold, clamp_fits by done. split; [done|]. split; [done|]. split.
  - rewrite table_insert_perm. left.
  - rewrite Em. cbn. rewrite Hm. split_and!; done.
Qed.

Lemma persistOwn_row l network target text now d m d' :
  let c := link_conn l in let buffer := stripStatusPrefix target (connStatusPrefixes c) (connIsChannel c) in
  store_ok lim (hStore (dkHub d)) -> no_split (connFold c) (hStore (dkHub d)) -> fits buffer ->
  persistOwn lim now l network target text d = ([Broadcast (EnvEvent m)], d') ->
  store_ok lim (hStore (dkHub d')) /\ no_split (connFold c) (hStore (dkHub d')) /\
  exists id b row, db (hStore (dkHub d')) !! id = Some b /\ bNetwork b = network /\ connFold c (bName b) = connFold c buffer /\ row ∈ table b /\ ID row = ID m /\
    MsgID row = [] /\ Ring.Sender row = clampUTF8 (lkNick l) maxStoredFieldBytes /\
    Text row = clampUTF8 (searchText (newMsg §"PRIVMSG" [target; text])) maxStoredMessageBytes /\ Time row = now.
Proof.
  intros c buffer Hst Hns Hfit. unfold persistOwn. destruct (negb _); [done|]. cbv zeta. fold c. fold buffer.
  set (msg := own_message now (connNick c) target text). destruct (if connIsChannel c buffer then _ else _) as [res h] eqn:Er.
  assert (exists g, append lim now network buffer msg (MkOpts true (Some (connFold c)) g true) (hStore (dkHub d)) = (res, hStore h)) as [g Ea].
  { destruct (connIsChannel c buffer).
    - revert Er. unfold guardedAppend, AppendFoldedGuardedArchive. destruct (recentlyClosed _ _ _ _) as [closed cl]. destruct (append _ _ _ _ _ _ _) as [r s] eqn:Ea.
      intros [= <- <-]. by eexists.
    - revert Er. unfold AppendFolded. cbn [hStore with_closes]. destruct (append _ _ _ _ _ _ _) as [r s] eqn:Ea. intros [= <- <-]. by eexists. }
  pose proof (append_ok lim Hsize Hbudget now network buffer msg (MkOpts true (Some (connFold c)) g true) (hStore (dkHub d)) Hst ltac:(done)) as [Hst' _].
  pose proof (append_no_split lim Hsize Hbudget (connFold c) now network buffer msg (MkOpts true (Some (connFold c)) g true) (hStore (dkHub d)) Hst ltac:(done) Hns) as Hns'.
  rewrite Ea in Hst', Hns'. cbn [snd] in Hst', Hns'.
  destruct res as [[st still]|]; [|by intros [=]]. destruct (Z.eqb_spec (ID st) 0) as [|Hne]; [by intros [=]|]. intros [= <- <-]. split; [done|]. split; [done|].
  destruct (append_placeholder c now network buffer g msg _ _ _ _ Hst Hns Hfit eq_refl Ea Hne) as (id & b & row & R1 & R2 & R3 & R4 & R5 & R6 & R7 & R8 & R9).
  exists id, b, row. split_and!; try done. rewrite R9. cbn. by destruct (now =? zeroTime).
Qed.

Lemma text_no_chatter m : Command m = §"PRIVMSG" -> searchText m <> [] -> ctcp_chatter m = false.
Proof.
  intros Hc. unfold searchText, ctcp_chatter, ctcpAction. rewrite Hc. go_switch. cbn [orb]. intros Ht. destruct (HasPrefix (Trailing m) ctcpDelim) eqn:E1; [|done]. cbn [andb].
  destruct (HasPrefix (Trailing m) actionPrefix) eqn:E2; [|done]. cbn. apply negb_false_iff.
  clear -E2. destruct (Trailing m) as [|c0 s]; [done|]. unfold actionPrefix in E2. cbn in E2 |- *.
  repeat (destruct s as [|? s]; cbn in *; [by rewrite ?andb_false_r in E2|]). repeat (apply andb_true_iff in E2 as [-> E2]; cbn). done.
Qed.

(** A replayed message of ours whose row is waiting for it stores nothing new. *)
Lemma replay_claims c now free ev h l bt id b row acts h' l' :
  let t := stripStatusPrefix (hbTarget bt) (connStatusPrefixes c) (connIsChannel c) in
  store_ok lim (hStore h) -> no_split (connFold c) (hStore h) ->
  db (hStore h) !! id = Some b -> bNetwork b = evNetwork ev -> connFold c (bName b) = connFold c t -> t <> [] -> fits t -> hbTarget bt <> [] ->
  row ∈ table b ->
  placeholder (sender (evMsg ev)) (clampUTF8 (searchText (evMsg ev)) maxStoredMessageBytes) (UnixMilli (messageTime now ev - ownDedupWindow)) row = true ->
  Command (evMsg ev) = §"PRIVMSG" -> is_Some (mPrefix (evMsg ev)) -> sender (evMsg ev) <> [] -> searchText (evMsg ev) <> [] ->
  tag (evMsg ev) §"msgid" <> [] -> fits (tag (evMsg ev) §"msgid") -> connCapEnabled c §"echo-message" = false ->
  historyReplay (evMsg ev) (histBatches l) = true -> histBatches l !! hubBatchRef (tag (evMsg ev) §"batch") = Some bt ->
  onMessage lim c now free ev h l = (acts, h', l') ->
  grows true (hStore h') (hStore h) /\
  exists b', db (hStore h') !! id = Some b' /\ key b' = key b /\ has_id (tag (evMsg ev) §"msgid") (table b') = true.
Proof.
  intros t Hst Hns Hb Hn Hf Htne Htf Hbt Hrow Hp Hc Hpre Hs Htx Hm Hmf He Hr Hl. unfold onMessage. rewrite Hc. go_switch. cbv zeta. rewrite Hr, Hl.
  unfold routeMessage. cbv zeta. rewrite Hc. go_switch. cbn [orb]. unfold persistEvent. cbn [fmap option_fmap option_map snd].
  unfold persistBuffer. rewrite !Hc. go_switch. cbn [orb andb compose hbTarget noteReplayed default]. change (hbTarget (noteReplayed now ev bt)) with (hbTarget bt).
  rewrite (bool_decide_eq_false_2 (hbTarget bt = [])) by done. cbn [negb andb]. unfold replayTarget. rewrite text_no_chatter by done. fold t.
  rewrite (bool_decide_eq_false_2 (t = [])) by done. cbv iota. rewrite ?Hc. unfold prepareAppend. rewrite !Hc, He. go_switch. cbn [negb andb orb]. rewrite andb_false_r. cbn [andb].
  set (own := MkOwn (evNetwork ev) t (sender (evMsg ev)) (searchText (evMsg ev)) (tag (evMsg ev) §"msgid") (UnixMilli (messageTime now ev - ownDedupWindow))).
  assert (forall h0, adoptReplayedOwn lim c now ev t (hStore (with_store (hStore h0) h0)) = (AdoptOwnMsgID lim own (Some (connFold c)) (hStore h0)).2) as Ea.
  { intros h0. unfold adoptReplayedOwn. rewrite !Hc. go_switch. cbn [orb negb]. rewrite (bool_decide_eq_false_2 (mPrefix (evMsg ev) = None)), (bool_decide_eq_false_2 (tag (evMsg ev) _ = [])); [done|done|].
    intros E. destruct Hpre as [x E']. congruence. }
  rewrite Ea. set (st1 := (AdoptOwnMsgID lim own (Some (connFold c)) (hStore h)).2).
  destruct (adopt_evolves lim Hsize Hbudget true own (Some (connFold c)) (hStore h) Hst) as (K1 & _ & _). fold st1 in K1.
  pose proof (proj2 (rewrites_grows true _ _ (adopt_rewrites lim Hsize own (Some (connFold c)) (hStore h) Hst))) as Gb. fold st1 in Gb.
  assert (no_split (connFold c) st1) as Hns1 by (apply (no_split_sub _ (hStore h)), Hns; by apply adopt_names).
  destruct (adopt_claims lim Hsize (connFold c) (hStore h) id b own) as (b1 & Hb1 & Hk1 & Hid1); try done.
  { apply existsb_exists. exists row. split; [by apply list_elem_of_In|done]. }
  fold st1 in Hb1. cbn [oMsgID own] in Hid1. rewrite clamp_fits in Hid1 by done. unfold key in Hk1. injection Hk1 as Kn Kb.
  unfold guardedAppend, AppendFoldedGuardedArchive. cbn [hStore with_store hCloses]. destruct (recentlyClosed _ _ _ _) as [closed cl].
  match goal with |- context [append lim now ?n ?x ?m (MkOpts _ _ ?g ?u) st1] => pose proof (append_duplicate lim Hsize Hbudget now c n x g u m st1 id b1) as Hd; destruct (append lim now n x m (MkOpts true (Some (connFold c)) g u) st1) as [res st2] end.
  cbn [snd] in Hd. assert (db st2 = db st1) as Ed by (apply Hd; try done; try congruence; change (connFold c (bName b1) = connFold c t); congruence).
  assert (forall h2 : Hub, hStore h2 = st2 -> grows true (hStore h2) (hStore h) /\ exists b', db (hStore h2) !! id = Some b' /\ key b' = key b /\ has_id (tag (evMsg ev) §"msgid") (table b') = true) as Hend.
  { intros h2 ->. split; [eapply grows_trans; [|exact Gb]; by apply grows_db|]. exists b1. rewrite Ed. split; [done|]. split; [unfold key; congruence|done]. }
  destruct res as [[sm still]|]; [|intros [= <- <- <-]; by apply Hend]. destruct (_ || still); [intros [= <- <- <-]; by apply Hend|].
  cbn [negb]. intros [= <- <- <-]. by apply Hend.
Qed.

(** What we send is kept once.  A message sent where the server does not echo is
    stored without a msgid and announced; when the server later replays it from
    history with its msgid, in any spelling of the buffer and at a time it could have
    been sent, no row is added and the buffer's row carries the msgid. *)
Theorem own_message_kept_once l network target text now d m d' c now' free ev lp bt acts h' l' :
  let own := link_conn l in
  let buffer := stripStatusPrefix target (connStatusPrefixes own) (connIsChannel own) in
  let t := stripStatusPrefix (hbTarget bt) (connStatusPrefixes c) (connIsChannel c) in
  store_ok lim (hStore (dkHub d)) -> no_split (connFold own) (hStore (dkHub d)) -> fits buffer -> fits (lkNick l) ->
  persistOwn lim now l network target text d = ([Broadcast (EnvEvent m)], d') ->
  connFold c = connFold own -> connCapEnabled c §"echo-message" = false ->
  evNetwork ev = network -> Command (evMsg ev) = §"PRIVMSG" -> is_Some (mPrefix (evMsg ev)) -> sender (evMsg ev) = lkNick l -> lkNick l <> [] ->
  searchText (evMsg ev) = searchText (newMsg §"PRIVMSG" [target; text]) -> searchText (evMsg ev) <> [] ->
  tag (evMsg ev) §"msgid" <> [] -> fits (tag (evMsg ev) §"msgid") -> UnixMilli (messageTime now' ev - ownDedupWindow) <= UnixMilli now ->
  historyReplay (evMsg ev) (histBatches lp) = true -> histBatches lp !! hubBatchRef (tag (evMsg ev) §"batch") = Some bt ->
  connFold c t = connFold own buffer -> t <> [] -> fits t -> hbTarget bt <> [] ->
  onMessage lim c now' free ev (dkHub d') lp = (acts, h', l') ->
  grows true (hStore h') (hStore (dkHub d')) /\
  exists id b, db (hStore h') !! id = Some b /\ bNetwork b = network /\ ID m ∈ row_ids b /\ has_id (tag (evMsg ev) §"msgid") (table b) = true.
Proof.
  intros own buffer t Hst Hns Hfit Hnf Ep Hcf He Hnet Hc Hpre Hs Hne Htx Htn Hm Hmf Hw Hr Hl Ht Htne Htf Hbt Eo.
  destruct (persistOwn_row l network target text now d m d' Hst Hns Hfit Ep) as (Hst' & Hns' & id & b & row & R1 & R2 & R3 & R4 & R5 & R6 & R7 & R8 & R9).
  fold own in Hns', R3. rewrite <- Hcf in Hns', R3. fold buffer in R3. destruct (replay_claims c now' free ev (dkHub d') lp bt id b row acts h' l') as (G & b' & Hb' & Hk & Hi); try done.
  - by rewrite R2.
  - rewrite R3. unfold t in Ht. by rewrite Ht, Hcf.
  - unfold placeholder. rewrite R6, R7, R8, R9, Hs, Htx, clamp_fits by done. rewrite !bool_decide_eq_true_2 by done. cbn [andb]. by apply Z.leb_le.
  - by rewrite Hs.
  - split; [done|]. exists id, b'. split; [done|]. unfold key in Hk. injection Hk as K1 K2. split; [congruence|]. split; [|done].
    assert (grows true (hStore (dkHub d')) (hStore h')) as G'.
    { unfold onMessage in Eo. rewrite Hc in Eo. revert Eo. go_switch. cbv zeta. rewrite Hr, Hl. intros Eo. by destruct (routeMessage_evolves lim Hsize Hbudget _ _ _ _ _ _ _ _ _ _ Eo Hst') as (_ & _ & ?). }
    destruct (G' id b R1) as (b2 & Hb2 & _ & Hrows & _). rewrite Hb' in Hb2. injection Hb2 as <-. apply Hrows. rewrite <- R5. by apply list_elem_of_fmap_2.
Qed.
End own.
