(* ===== verification/HubHistory.v ===== *)
(** * History pages: internal/hub/session.go

    A get_history request fetches a page of the store and sends as much of it as
    fits an encoded size limit, keeping the part next to the request's anchor.  A
    client that pages back through a buffer sees every message once and reaches its
    beginning. *)

From S2P Require Import Prelude GoStrings GoUtf8 GoNet GoJson Ring RingProofs Store StoreProofs StoreSpec Search HubRoute Hub.

Definition maxHistoryPayloadBytes : Z := Z.shiftl 512 10.
Definition maxHistoryMessages : Z := 64.

(** ** Encoding *)

Definition event_json (e : Message) : gostring :=
  jsonObject ([json_field §"network" (jsonString (Network e)); json_field §"buffer" (jsonString (Target e));
               json_field §"id" (Itoa (ID e)); json_field §"time" (Itoa (Time e))]
    ++ json_omit (MsgID e == []) (json_field §"msgid" (jsonString (MsgID e)))
    ++ [json_field §"sender" (jsonString (Sender e)); json_field §"command" (jsonString (MCommand e)); json_field §"raw" (jsonString (Raw e))]
    ++ json_omit (negb (Redacted e)) (json_field §"redacted" (jsonBool (Redacted e)))
    ++ json_omit (RedactReason e == []) (json_field §"redact_reason" (jsonString (RedactReason e)))).

Record HistoryData := MkHistory { hdNetwork : gostring; hdBuffer : gostring; hdMessages : list Message; hdMore : bool }.

Definition history_json (p : HistoryData) : gostring :=
  jsonObject [json_field §"network" (jsonString (hdNetwork p)); json_field §"buffer" (jsonString (hdBuffer p));
              json_field §"messages" (jsonArray (event_json <$> hdMessages p)); json_field §"has_more" (jsonBool (hdMore p))].

(** ** The page builder *)

Inductive historyDirection := historyBackward | historyForward | historyAround.

(** The bytes admitted so far and the messages of the page, in the order added. *)
Record builder := MkBuilder { bUsed : Z; bPage : list Message }.

Definition newBuilder (network buffer : gostring) : builder := MkBuilder (len (history_json (MkHistory network buffer [] false))) [].

Definition add (e : Message) (b : builder) : option builder :=
  let extra := len (event_json e) + (if len (bPage b) >? 0 then 1 else 0) in
  if bUsed b + extra >? maxHistoryPayloadBytes then None else Some (MkBuilder (bUsed b + extra) (bPage b ++ [e])).

(** Add until one does not fit. *)
Fixpoint add_all (l : list Message) (b : builder) : builder :=
  match l with
  | [] => b
  | e :: l => match add e b with Some b => add_all l b | None => b end
  end.

Definition selectBackward (events : list Message) (b : builder) : list Message := reverse (bPage (add_all (reverse events) b)).
Definition selectForward (events : list Message) (b : builder) : list Message := bPage (add_all events b).

(** The first event at or after the anchor, else the first. *)
Definition at_or_after (c : Cursor) (e : Message) : bool := (Time e >? TS c) || ((Time e =? TS c) && (CID c <=? ID e)).
Definition aroundPivot (around : option Cursor) (events : list Message) : Z :=
  match around with
  | None => 0
  | Some c => match list_find (fun e => at_or_after c e = true) events with Some (i, _) => Z.of_nat i | None => 0 end
  end.

(** The loop of [expandAround]: each round adds on the left and on the right. *)
Fixpoint expand (fuel : nat) (events : list Message) (lo hi : Z) (b : builder) (selected : list bool) : list bool :=
  match fuel with
  | O => selected
  | S k =>
      if negb ((0 <=? lo) || (hi <? len events)) then selected
      else
        let l := if 0 <=? lo then
                   match events !! Z.to_nat lo with
                   | Some e => match add e b with Some b => Some (lo - 1, b, <[Z.to_nat lo := true]> selected) | None => None end
                   | None => None
                   end
                 else Some (lo, b, selected) in
        match l with
        | None => selected
        | Some (lo, b, selected) =>
            if hi <? len events then
              match events !! Z.to_nat hi with
              | Some e => match add e b with Some b => expand k events lo (hi + 1) b (<[Z.to_nat hi := true]> selected) | None => selected end
              | None => selected
              end
            else expand k events lo hi b selected
        end
  end.
Definition expandAround (pivot : Z) (events : list Message) (b : builder) : list bool :=
  expand (S (length events)) events pivot (pivot + 1) b (replicate (length events) false).

Definition selectAround (around : option Cursor) (events : list Message) (b : builder) : list Message :=
  snd <$> List.filter fst (zip (expandAround (aroundPivot around events) events b) events).

Definition boundedHistoryPage (network buffer : gostring) (msgs : list Message) (limit : Z) (dir : historyDirection) (around : option Cursor) : HistoryData :=
  let countMore := len msgs >? limit in
  let msgs := if countMore then match dir with historyBackward => slice_from msgs (len msgs - limit) | _ => slice_to msgs limit end else msgs in
  let events := eventData <$> msgs in
  let b := newBuilder network buffer in
  let page := match dir with
              | historyBackward => selectBackward events b
              | historyAround => selectAround around events b
              | historyForward => selectForward events b
              end in
  MkHistory network buffer page (countMore || (len page <? len msgs)).

(** ** The request *)

Record HistoryReq := MkHistoryReq {
  hqNetwork : gostring; hqBuffer : gostring; hqLimit : Z; hqBefore : option Cursor; hqAfter : option Cursor; hqAround : option Cursor;
  hqBeforeMsgID : gostring; hqAfterMsgID : gostring
}.

Inductive history_reply := HistoryError (code text : gostring) | HistoryPage (p : HistoryData).

Definition page_limit (n : Z) : Z := if (n <=? 0) || (n >? maxHistoryMessages) then maxHistoryMessages else n.

Section request.
Variable lim : limits.

(** The rows fetched, with one more than the page takes; [None]: no such msgid. *)
Definition fetch (d : HistoryReq) (limit : Z) (st : Store) : option (list Message) * historyDirection * Store :=
  let n := hqNetwork d in
  let b := hqBuffer d in
  match hqBefore d, hqAfter d, hqAround d with
  | Some c, _, _ => let '(ms, st) := Before lim n b c limit st in (Some ms, historyBackward, st)
  | None, Some c, _ => let '(ms, st) := After lim n b c limit st in (Some ms, historyForward, st)
  | None, None, Some c => let '(ms, st) := Around lim n b c limit st in (Some ms, historyAround, st)
  | None, None, None =>
      if hqBeforeMsgID d != [] then
        match CursorForMsgID lim n b (hqBeforeMsgID d) st with
        | (Some c, st) => let '(ms, st) := Before lim n b c limit st in (Some ms, historyBackward, st)
        | (None, st) => (None, historyBackward, st)
        end
      else if hqAfterMsgID d != [] then
        match CursorForMsgID lim n b (hqAfterMsgID d) st with
        | (Some c, st) => let '(ms, st) := After lim n b c limit st in (Some ms, historyForward, st)
        | (None, st) => (None, historyForward, st)
        end
      else let '(ms, st) := Latest lim n b limit st in (Some ms, historyBackward, st)
  end.

Definition handleGetHistory (req : option HistoryReq) (st : Store) : history_reply * Store :=
  match req with
  | None => (HistoryError §"bad_request" §"malformed get_history data", st)
  | Some d =>
      if (hqNetwork d == []) || (hqBuffer d == []) then (HistoryError §"bad_request" §"get_history needs network and buffer", st)
      else
        let limit := page_limit (hqLimit d) in
        let '(res, dir, st) := fetch d (limit + 1) st in
        match res with
        | None => (HistoryError §"unknown_msgid" §"no message with that msgid", st)
        | Some msgs => (HistoryPage (boundedHistoryPage (hqNetwork d) (hqBuffer d) msgs limit dir (hqAround d)), st)
        end
  end.

(** A client paging back: the newest page, then the page before the first message
    it has, until it is told there is no more. *)
Definition page_before (network buffer : gostring) (limit : Z) (c : option Cursor) : option HistoryReq :=
  Some (MkHistoryReq network buffer limit c None None [] []).

Fixpoint walk_back (fuel : nat) (network buffer : gostring) (limit : Z) (c : option Cursor) (st : Store) : list Message :=
  match fuel with
  | O => []
  | S k =>
      match handleGetHistory (page_before network buffer limit c) st with
      | (HistoryPage p, st) =>
          match hdMessages p with
          | e :: _ => (if hdMore p then walk_back k network buffer limit (Some (MkCursor (Time e) (ID e))) st else []) ++ hdMessages p
          | [] => []
          end
      | (HistoryError _ _, _) => []
      end
  end.
End request.

(** * History pages: size, contiguity, and paging back to the beginning *)


(** ** The encoded size *)

Definition payload (l : list Message) : Z := joined_len (event_json <$> l).
Definition base (network buffer : gostring) : Z := len (history_json (MkHistory network buffer [] false)).

Lemma history_json_len n b l more : len (history_json (MkHistory n b l more)) <= base n b + payload l.
Proof.
  unfold base, payload, history_json. cbn [hdNetwork hdBuffer hdMessages hdMore]. rewrite !jsonObject_len. repeat first [rewrite joined_one|rewrite joined_cons by done]. rewrite !json_field_len, !jsonArray_len.
  change (joined_len (event_json <$> [])) with 0. destruct more; cbn [jsonBool]; change (len §"true") with 4; change (len §"false") with 5; lia.
Qed.

Lemma payload_snoc l e : payload (l ++ [e]) = payload l + len (event_json e) + (if len l >? 0 then 1 else 0).
Proof.
  unfold payload, joined_len. rewrite fmap_app. cbn [fmap list_fmap]. rewrite foldr_app. cbn [foldr].
  assert (forall (s : list gostring) z, foldr (fun x n => len x + n) z s = foldr (fun x n => len x + n) 0 s + z) as Hs.
  { intros s z. induction s as [|x s IH]; cbn [foldr]; lia. }
  assert (forall k : list Message, len (event_json <$> k) = len k) as Hl by (intros k; unfold len; by rewrite length_fmap).
  rewrite Hs, len_app, Hl. change (len [event_json e]) with 1. pose proof (len_nonneg l). destruct (Z.gtb_spec (len l) 0); lia.
Qed.

Lemma payload_perm l l' : l ≡ₚ l' -> payload l = payload l'.
Proof.
  intros Hp. unfold payload, joined_len. assert (event_json <$> l ≡ₚ event_json <$> l') as Hq by by rewrite Hp.
  unfold len at 2 4. rewrite (Permutation_length Hq). f_equal. induction Hq as [|x l1 l2 _ IH|x y l1|l1 l2 l3 _ IH1 _ IH2]; cbn [foldr]; try lia; congruence.
Qed.

(** The builder's count is exact. *)
Definition builder_ok (start : Z) (b : builder) : Prop := bUsed b = start + payload (bPage b) /\ bUsed b <= Z.max start maxHistoryPayloadBytes.

Lemma builder_add_ok start e b b' : builder_ok start b -> HubHistory.add e b = Some b' -> builder_ok start b' /\ bPage b' = bPage b ++ [e].
Proof.
  intros [H1 H2]. unfold HubHistory.add. cbv zeta. destruct (Z.gtb_spec (bUsed b + (len (event_json e) + (if len (bPage b) >? 0 then 1 else 0))) maxHistoryPayloadBytes); [done|].
  intros [= <-]. split; [|done]. split; cbn [bUsed bPage]; [rewrite payload_snoc; lia|lia].
Qed.

Lemma add_all_ok start l b : builder_ok start b ->
  exists k, builder_ok start (add_all l b) /\ bPage (add_all l b) = bPage b ++ take k l /\ (k <= length l)%nat /\
    (forall e l', l = e :: l' -> is_Some (HubHistory.add e b) -> (1 <= k)%nat).
Proof.
  revert b. induction l as [|e l IH]; intros b Hb; cbn [add_all]; [exists 0%nat; rewrite app_nil_r; by split_and!|].
  destruct (HubHistory.add e b) as [b'|] eqn:E; [|exists 0%nat; rewrite take_0, app_nil_r; split_and!; [done..|cbn; lia|intros e' l' [= <- <-]; by rewrite E; intros [? ?]]].
  destruct (builder_add_ok start e b b' Hb E) as [Hb' Ep]. destruct (IH b' Hb') as (k & K1 & K2 & K3 & _). exists (S k). split; [done|]. split; [|split; [cbn; lia|lia]].
  cbn. rewrite K2, Ep, <- app_assoc. done.
Qed.

Lemma newBuilder_ok n b : builder_ok (base n b) (newBuilder n b).
Proof. split; unfold newBuilder; cbn [bUsed bPage]; fold (base n b); [change (payload []) with 0; lia|lia]. Qed.

(** ** The page around an anchor *)

Definition chosen (sel : list bool) (events : list Message) : list Message := snd <$> List.filter fst (zip sel events).

Lemma chosen_insert i sel events e :
  events !! i = Some e -> sel !! i = Some false -> chosen (<[i := true]> sel) events ≡ₚ e :: chosen sel events.
Proof.
  revert sel events. induction i as [|i IH]; intros [|s sel] [|x events]; cbn; try done.
  - intros [= ->] [= ->]. done.
  - intros He Hs. unfold chosen in *. cbn [zip zip_with List.filter fst]. destruct s; cbn [fmap list_fmap snd]; [|by apply IH].
    rewrite (IH sel events He Hs). apply Permutation_swap.
Qed.

Lemma chosen_nil sel : chosen sel [] = [].
Proof. by destruct sel. Qed.

Lemma chosen_none n events : chosen (replicate n false) events = [].
Proof. revert events. induction n as [|n IH]; intros [|x events]; try done. unfold chosen in *. cbn. apply IH. Qed.

Lemma expand_ok start fuel events lo hi b sel :
  builder_ok start b -> bPage b ≡ₚ chosen sel events -> length sel = length events -> lo < hi -> 0 <= hi ->
  (forall i, (Z.of_nat i <= lo \/ hi <= Z.of_nat i) -> (i < length events)%nat -> sel !! i = Some false) -> lo < len events ->
  exists b', builder_ok start b' /\ bPage b' ≡ₚ chosen (expand fuel events lo hi b sel) events.
Proof.
  revert lo hi b sel. induction fuel as [|k IH]; intros lo hi b sel Hb Hp Hl Hlt Hhi Hf Hlo; cbn [expand]; [by exists b|].
  destruct_if as E1; [by exists b|]. cbv zeta.
  assert (forall j e b1 sel1 b2, builder_ok start b1 -> bPage b1 ≡ₚ chosen sel1 events -> events !! Z.to_nat j = Some e -> sel1 !! Z.to_nat j = Some false -> HubHistory.add e b1 = Some b2 ->
    builder_ok start b2 /\ bPage b2 ≡ₚ chosen (<[Z.to_nat j := true]> sel1) events) as Hstep.
  { intros j e b1 sel1 b2 H1 H2 H3 H4 H5. destruct (builder_add_ok start e b1 b2 H1 H5) as [H6 H7]. split; [done|]. rewrite H7, (chosen_insert _ _ _ e) by done. rewrite H2. by rewrite Permutation_app_comm. }
  assert (forall lo1 b1 sel1, builder_ok start b1 -> bPage b1 ≡ₚ chosen sel1 events -> length sel1 = length events -> lo1 < hi -> lo1 < len events ->
    (forall i, (Z.of_nat i <= lo1 \/ hi <= Z.of_nat i) -> (i < length events)%nat -> sel1 !! i = Some false) ->
    exists b', builder_ok start b' /\ bPage b' ≡ₚ chosen (if hi <? len events then match events !! Z.to_nat hi with
       | Some e => match HubHistory.add e b1 with Some b => expand k events lo1 (hi + 1) b (<[Z.to_nat hi := true]> sel1) | None => sel1 end | None => sel1 end
       else expand k events lo1 hi b1 sel1) events) as Hright.
  { intros lo1 b1 sel1 H1 H2 H3 H4 H4' H5. destruct (Z.ltb_spec hi (len events)) as [Hh|Hh]; [|by apply IH]. destruct (events !! Z.to_nat hi) as [e|] eqn:Ee; [|by exists b1].
    destruct (HubHistory.add e b1) as [b2|] eqn:Ea; [|by exists b1]. unfold len in Hh.
    destruct (Hstep hi e b1 sel1 b2 H1 H2 Ee ltac:(apply H5; lia) Ea) as [B1 B2]. apply IH; try done; [by rewrite length_insert|lia|lia|].
    intros i Hi Hi'. rewrite list_lookup_insert_ne; [apply H5; lia|lia]. }
  destruct (Z.leb_spec 0 lo) as [Hz|Hz]; [|by apply Hright].
  destruct (events !! Z.to_nat lo) as [e|] eqn:Ee; [|by exists b]. destruct (HubHistory.add e b) as [b1|] eqn:Ea; [|by exists b]. unfold len in Hlo.
  destruct (Hstep lo e b sel b1 Hb Hp Ee ltac:(apply Hf; lia) Ea) as [B1 B2]. apply Hright; try done; [by rewrite length_insert|lia|unfold len; lia|].
  intros i Hi Hi'. rewrite list_lookup_insert_ne; [apply Hf; lia|lia].
Qed.

Lemma pivot_range around events : 0 <= aroundPivot around events /\ (events <> [] -> aroundPivot around events < len events).
Proof.
  unfold aroundPivot. assert (events <> [] -> 0 < len events) as H0 by (destruct events; [done|intros _; rewrite len_cons; pose proof (len_nonneg events); lia]).
  destruct around as [c|]; [|split; [lia|done]]. destruct (list_find _ events) as [[i e]|] eqn:E; [|split; [lia|done]].
  apply list_find_Some in E as (E & _). apply lookup_lt_Some in E. unfold len. split; [lia|lia].
Qed.

(** A history response never exceeds its size limit: whatever rows the store
    returns and in whichever direction, the encoded page is at most 512 KiB, unless
    its network and buffer names alone exceed it. *)
Theorem history_payload_bounded n b msgs limit dir around :
  base n b <= maxHistoryPayloadBytes -> len (history_json (boundedHistoryPage n b msgs limit dir around)) <= maxHistoryPayloadBytes.
Proof.
  intros Hbase. unfold boundedHistoryPage. cbv zeta. set (ms := if _ >? _ then _ else _). set (events := eventData <$> ms). set (more := _ || _). etrans; [apply history_json_len|].
  pose proof (newBuilder_ok n b) as Hb0. assert (forall bd l, builder_ok (base n b) bd -> bPage bd ≡ₚ l -> base n b + payload l <= maxHistoryPayloadBytes) as Hfit.
  { intros bd l [H1 H2] Hp. rewrite <- (payload_perm _ _ Hp). lia. }
  destruct dir.
  - destruct (add_all_ok _ (reverse events) _ Hb0) as (k & H1 & _). apply (Hfit _ _ H1). unfold selectBackward. symmetry. apply reverse_Permutation.
  - destruct (add_all_ok _ events _ Hb0) as (k & H1 & _). by apply (Hfit _ _ H1).
  - unfold selectAround. fold (chosen (expandAround (aroundPivot around events) events (newBuilder n b)) events). destruct (pivot_range around events) as [P1 P2].
    destruct (decide (events = [])) as [->|Hne]; [rewrite chosen_nil; change (payload []) with 0; lia|].
    unfold expandAround. destruct (expand_ok (base n b) (S (length events)) events (aroundPivot around events) (aroundPivot around events + 1) (newBuilder n b) (replicate (length events) false)) as (b' & H1 & H2).
    + done.
    + by rewrite chosen_none.
    + by rewrite length_replicate.
    + lia.
    + lia.
    + intros i _ Hi. by apply lookup_replicate_2.
    + by apply P2.
    + by apply (Hfit b').
Qed.

(** ** Paging back *)

(** A stored message: fields clamped to 512 bytes, the line to 16 KiB. *)
Definition row_small (m : Message) : Prop :=
  Forall (fun s => len s <= maxStoredFieldBytes) [Network m; Target m; MsgID m; Sender m; MCommand m; RedactReason m] /\ len (Raw m) <= maxStoredMessageBytes.

(** The fields with a comma each. *)
Definition fields_len (l : list gostring) : Z := foldr (fun f n => len f + 1 + n) 0 l.

Lemma fields_len_bound l : joined_len l <= fields_len l.
Proof. unfold joined_len, fields_len. induction l as [|f l IH]; [done|]. cbn [foldr] in *. rewrite len_cons. pose proof (len_nonneg l). lia. Qed.

Lemma fields_len_app a b : fields_len (a ++ b) = fields_len a + fields_len b.
Proof. unfold fields_len. induction a as [|f a IH]; cbn [foldr app]; [done|]. rewrite IH. lia. Qed.

Lemma fields_len_cons f l : fields_len (f :: l) = len f + 1 + fields_len l.
Proof. done. Qed.

Lemma fields_len_omit empty f : fields_len (json_omit empty f) <= len f + 1.
Proof. unfold json_omit, fields_len. pose proof (len_nonneg f). destruct empty; cbn [foldr]; lia. Qed.

Lemma string_field_len name s n : len s <= n -> len (json_field name (jsonString s)) <= len name + 5 + 6 * n.
Proof. intros Hs. rewrite json_field_len. pose proof (jsonString_len s). lia. Qed.

(** Every stored message fits a page on its own. *)
Lemma event_json_len m : row_small m -> len (event_json (eventData m)) <= 150000.
Proof.
  intros [Hf Hr]. repeat (apply Forall_cons in Hf as [? Hf]).
  assert (len (Raw (eventData m)) <= maxStoredMessageBytes) as He by (unfold eventData; cbn [Raw]; destruct (Redacted m); [by vm_compute|done]).
  assert (len (jsonBool (Redacted (eventData m))) <= 5) as Hb by (destruct (Redacted (eventData m)); by vm_compute).
  unfold event_json. rewrite jsonObject_len. match goal with |- 2 + joined_len ?l <= _ => pose proof (fields_len_bound l) as Hl end.
  rewrite !fields_len_app, !fields_len_cons in Hl. change (fields_len []) with 0 in Hl.
  pose proof (fields_len_omit (MsgID (eventData m) == []) (json_field §"msgid" (jsonString (MsgID (eventData m))))) as O1.
  pose proof (fields_len_omit (negb (Redacted (eventData m))) (json_field §"redacted" (jsonBool (Redacted (eventData m))))) as O2.
  pose proof (fields_len_omit (RedactReason (eventData m) == []) (json_field §"redact_reason" (jsonString (RedactReason (eventData m))))) as O3.
  rewrite json_field_len in O2. rewrite (json_field_len §"id"), (json_field_len §"time") in Hl. pose proof (Itoa_len (ID (eventData m))). pose proof (Itoa_len (Time (eventData m))).
  pose proof (string_field_len §"network" (Network (eventData m)) maxStoredFieldBytes ltac:(done)). pose proof (string_field_len §"buffer" (Target (eventData m)) maxStoredFieldBytes ltac:(done)).
  pose proof (string_field_len §"msgid" (MsgID (eventData m)) maxStoredFieldBytes ltac:(done)). pose proof (string_field_len §"sender" (Sender (eventData m)) maxStoredFieldBytes ltac:(done)).
  pose proof (string_field_len §"command" (MCommand (eventData m)) maxStoredFieldBytes ltac:(done)). pose proof (string_field_len §"raw" (Raw (eventData m)) maxStoredMessageBytes He).
  pose proof (string_field_len §"redact_reason" (RedactReason (eventData m)) maxStoredFieldBytes ltac:(done)).
  change (len §"network") with 7 in *. change (len §"buffer") with 6 in *. change (len §"msgid") with 5 in *. change (len §"sender") with 6 in *. change (len §"command") with 7 in *.
  change (len §"raw") with 3 in *. change (len §"redact_reason") with 13 in *. change (len §"redacted") with 8 in *. change (len §"id") with 2 in *. change (len §"time") with 4 in *.
  unfold maxStoredFieldBytes, maxStoredMessageBytes in *. lia.
Qed.

Lemma base_len n b : len n <= maxStoredFieldBytes -> len b <= maxStoredFieldBytes -> base n b <= 10000.
Proof.
  intros Hn Hb. unfold base, history_json. rewrite jsonObject_len. cbn [hdNetwork hdBuffer hdMessages hdMore]. match goal with |- 2 + joined_len ?l <= _ => pose proof (fields_len_bound l) as Hl end.
  rewrite !fields_len_cons in Hl. change (fields_len []) with 0 in Hl. rewrite (json_field_len §"messages"), (json_field_len §"has_more"), jsonArray_len in Hl.
  pose proof (string_field_len §"network" n _ Hn). pose proof (string_field_len §"buffer" b _ Hb).
  change (joined_len (event_json <$> [])) with 0 in Hl. change (len (jsonBool false)) with 5 in Hl.
  change (len §"network") with 7 in *. change (len §"buffer") with 6 in *. change (len §"messages") with 8 in *. change (len §"has_more") with 8 in *. unfold maxStoredFieldBytes in *. lia.
Qed.

Lemma lastn_all {A} n (l : list A) : (length l <= n)%nat -> lastn n l = l.
Proof. intros Hn. unfold lastn. by replace (length l - n)%nat with 0%nat by lia. Qed.
Lemma lastn_length {A} n (l : list A) : length (lastn n l) = Nat.min n (length l).
Proof. unfold lastn. rewrite length_drop. lia. Qed.
Lemma lastn_lastn {A} n m (l : list A) : lastn n (lastn m l) = lastn (Nat.min n m) l.
Proof. unfold lastn. rewrite drop_drop, length_drop. f_equal. lia. Qed.

(** A page back is the end of the rows before the anchor, says exactly whether
    there are more, and is empty only when there are none. *)
Lemma page_back n b F fetched L :
  1 <= L -> Forall row_small F -> len n <= maxStoredFieldBytes -> len b <= maxStoredFieldBytes ->
  eventData <$> fetched = eventData <$> lastn (Z.to_nat (L + 1)) F ->
  let p := boundedHistoryPage n b fetched L historyBackward None in
  exists k, (k <= length F)%nat /\ hdMessages p = eventData <$> lastn k F /\ hdMore p = (Z.of_nat k <? len F) /\ (F <> [] -> (1 <= k)%nat).
Proof.
  intros HL HF Hn Hb Ef. unfold boundedHistoryPage. cbv zeta.
  assert (len fetched = Z.min (L + 1) (len F)) as El.
  { unfold len. rewrite <- (length_fmap eventData fetched), Ef, length_fmap, lastn_length. lia. }
  set (ms := if len fetched >? L then slice_from fetched (len fetched - L) else fetched).
  assert (eventData <$> ms = eventData <$> lastn (Z.to_nat L) F) as Em.
  { unfold ms. destruct (Z.gtb_spec (len fetched) L) as [Hg|Hg].
    - unfold slice_from. rewrite fmap_drop, Ef, !lastn_fmap. unfold lastn. rewrite drop_drop, length_fmap. f_equal. unfold len in *. lia.
    - rewrite Ef, !(lastn_all _ F); [done|unfold len in *; lia..]. }
  cbn [hdMessages hdMore]. unfold selectBackward.
  destruct (add_all_ok _ (reverse (eventData <$> ms)) _ (newBuilder_ok n b)) as (k & _ & Hk & Hkl & Hk1). cbn [bPage newBuilder app] in Hk.
  rewrite Hk, take_reverse, reverse_involutive, Em, lastn_fmap. rewrite length_reverse, Em, length_fmap, lastn_length in Hkl.
  fold (lastn k (lastn (Z.to_nat L) (eventData <$> F))). rewrite lastn_lastn, <- lastn_fmap. exists (Nat.min k (Z.to_nat L)).
  assert (len ms = Z.min L (len F)) as Elm by (unfold len; rewrite <- (length_fmap eventData ms), Em, length_fmap, lastn_length; lia).
  split; [lia|]. split; [done|]. split.
  - unfold len at 2. rewrite length_fmap, lastn_length. destruct (Z.gtb_spec (len fetched) L), (Z.ltb_spec (Z.of_nat (Nat.min (Nat.min k (Z.to_nat L)) (length F))) (len ms)),
      (Z.ltb_spec (Z.of_nat (Nat.min k (Z.to_nat L))) (len F)); unfold len in *; cbn; try done; lia.
  - intros HF0. assert (1 <= k)%nat; [|lia]. destruct (reverse (eventData <$> ms)) as [|e l] eqn:Er.
    + exfalso. apply (f_equal length) in Er. rewrite length_reverse, Em, length_fmap, lastn_length in Er. destruct F; [done|cbn in Er; lia].
    + apply (Hk1 e l eq_refl). assert (e ∈ eventData <$> F) as He.
      { assert (e ∈ reverse (eventData <$> ms)) as He by (rewrite Er; left). rewrite elem_of_reverse, Em in He. unfold lastn in He. rewrite fmap_drop in He.
        eapply elem_of_sublist; [exact He|apply drop_sublist]. }
      apply list_elem_of_fmap in He as (m & -> & Hm). rewrite Forall_forall in HF. pose proof (event_json_len m (HF m Hm)). pose proof (base_len n b Hn Hb).
      unfold HubHistory.add, newBuilder. cbn [bUsed bPage]. fold (base n b). change (len (@nil Message) >? 0) with false.
      destruct_if as Eg; [|by eexists]. change maxHistoryPayloadBytes with 524288 in Eg. lia.
Qed.

(** The rows before a row. *)
Lemma before_row F1 m F2 : StronglySorted mlt (F1 ++ m :: F2) -> List.filter (fun x => cursorLess (CursorOf x) (CursorOf m)) (F1 ++ m :: F2) = F1.
Proof.
  intros Hs. apply StronglySorted_app in Hs as (Hlt & _ & H2). apply StronglySorted_cons in H2 as [Hm _]. rewrite List.filter_app. cbn [List.filter].
  assert (cursorLess (CursorOf m) (CursorOf m) = false) as -> by (apply not_true_iff_false; rewrite cursorLess_spec; lia).
  assert (List.filter (fun x => cursorLess (CursorOf x) (CursorOf m)) F1 = F1) as ->.
  { apply List.forallb_filter_id, forallb_forall. intros x Hx. apply Hlt; [by apply list_elem_of_In|left]. }
  assert (List.filter (fun x => cursorLess (CursorOf x) (CursorOf m)) F2 = []) as ->; [|by rewrite app_nil_r].
  clear -Hm. induction Hm as [|x F2 Hx _ IH]; [done|]. cbn [List.filter]. rewrite IH. destruct (cursorLess (CursorOf x) (CursorOf m)) eqn:E; [|done].
  exfalso. apply cursorLess_spec in E, Hx. lia.
Qed.

Lemma eventData_row_eq m : eventData (row m) = eventData m.
Proof. unfold eventData, row, UnixMilli. cbn. by rewrite Z.div_mul. Qed.

Section walk.
Context (lim : limits) (Hsize : 1 <= ringSize lim) (Hbudget : 0 <= maxRingBytes lim).
Context (network buffer : gostring) (Hnet : network <> []) (Hbuf : buffer <> []).
Context (Hnl : len network <= maxStoredFieldBytes) (Hbl : len buffer <= maxStoredFieldBytes).

Lemma find_buffer_db st st' : db st' = db st -> find_buffer network buffer st' = find_buffer network buffer st.
Proof. unfold find_buffer. by intros ->. Qed.

(** One page back from [c]. *)
Lemma get_before limit c st id b :
  store_ok lim st -> find_buffer network buffer st = Some id -> db st !! id = Some b -> Forall row_small (table b) ->
  let F := List.filter (fun m => cursorLess (CursorOf m) (default maxCursor c)) (table b) in
  exists p st', handleGetHistory lim (page_before network buffer limit c) st = (HistoryPage p, st') /\ store_ok lim st' /\ db st' = db st /\
    exists k, (k <= length F)%nat /\ hdMessages p = eventData <$> lastn k F /\ hdMore p = (Z.of_nat k <? len F) /\ (F <> [] -> (1 <= k)%nat).
Proof.
  intros Hst Hfind Hb Hsm F. set (L := page_limit limit). assert (1 <= L <= 64) as HL.
  { unfold L, page_limit, maxHistoryMessages. destruct (Z.leb_spec limit 0), (Z.gtb_spec limit 64); cbn; lia. }
  assert (clampLimit (L + 1) = L + 1) as Ecl.
  { unfold clampLimit, MaxPageSize. destruct (Z.leb_spec (L + 1) 0); [lia|]. destruct (Z.gtb_spec (L + 1) 500); [lia|done]. }
  pose proof (before_sql lim Hsize Hbudget network buffer (default maxCursor c) (L + 1) st Hst) as Hs. rewrite Hfind in Hs.
  destruct Hs as (b' & Hb' & Hrows & _). rewrite Hb in Hb'. injection Hb' as <-. rewrite Ecl in Hrows.
  pose proof (before_ok lim network buffer (default maxCursor c) (L + 1) st Hst) as E2.
  destruct (lookup_ring_ok lim Hsize Hbudget network buffer st Hst) as (Hst' & _ & Hdb). rewrite <- E2 in Hst', Hdb.
  destruct (Before lim network buffer (default maxCursor c) (L + 1) st) as [ms st'] eqn:Eb. cbn [fst snd] in *.
  assert (eventData <$> ms = eventData <$> lastn (Z.to_nat (L + 1)) F) as Ee.
  { transitivity (eventData <$> (row <$> ms)); [rewrite <- list_fmap_compose; apply list_fmap_ext; intros i x _; symmetry; apply eventData_row_eq|].
    rewrite Hrows. unfold sql_before. fold F. rewrite <- list_fmap_compose. apply list_fmap_ext. intros i x _. apply eventData_row_eq. }
  assert (Forall row_small F) as HF by (apply Forall_forall; intros x Hx; rewrite Forall_forall in Hsm; apply Hsm; by apply list_elem_of_In, filter_In in Hx as [Hx%list_elem_of_In _]).
  destruct (page_back network buffer F ms L ltac:(lia) HF Hnl Hbl Ee) as (k & Hk). exists (boundedHistoryPage network buffer ms L historyBackward None), st'.
  split; [|split; [done|split; [done|by exists k]]]. unfold handleGetHistory, page_before. rewrite !bool_decide_eq_false_2 by done. cbn [orb hqNetwork hqBuffer hqLimit]. fold L.
  unfold fetch. cbn [hqBefore hqAfter hqAround hqNetwork hqBuffer hqBeforeMsgID hqAfterMsgID]. destruct c as [c|];
    [change (Before lim network buffer c (L + 1) st = (ms, st')) in Eb; by rewrite Eb|change (Before lim network buffer maxCursor (L + 1) st = (ms, st')) in Eb].
  rewrite !(bool_decide_eq_true_2 ([] = [])) by done. cbn [negb]. unfold Latest. by rewrite Eb.
Qed.

Lemma walk_back_from fuel limit c st id b :
  store_ok lim st -> find_buffer network buffer st = Some id -> db st !! id = Some b -> Forall row_small (table b) ->
  let F := List.filter (fun m => cursorLess (CursorOf m) (default maxCursor c)) (table b) in
  (exists F2, table b = F ++ F2) -> (length F < fuel)%nat -> walk_back lim fuel network buffer limit c st = eventData <$> F.
Proof.
  revert c st. induction fuel as [|fuel IH]; intros c st Hst Hfind Hb Hsm F [F2 HF2] Hlt; [lia|]. cbn [walk_back].
  destruct (get_before limit c st id b Hst Hfind Hb Hsm) as (p & st' & -> & Hst' & Hdb & k & Hk & Hm & Hmore & Hk1). fold F in Hk, Hm, Hmore, Hk1.
  destruct (decide (F = [])) as [HFe|HFne]; [rewrite Hm, HFe; unfold lastn; by rewrite drop_nil|]. specialize (Hk1 HFne).
  assert (F = take (length F - k) F ++ lastn k F) as HF by (unfold lastn; by rewrite take_drop).
  destruct (lastn k F) as [|m rest] eqn:El; [apply (f_equal length) in El; rewrite lastn_length in El; cbn in El; lia|]. rewrite Hm. cbn [fmap list_fmap].
  rewrite Hmore. destruct (Z.ltb_spec (Z.of_nat k) (len F)) as [Hlt'|Hge].
  - change (MkCursor (Time (eventData m)) (ID (eventData m))) with (CursorOf m).
    assert (table b = take (length F - k) F ++ m :: (rest ++ F2)) as Et by (rewrite HF2; rewrite HF at 1; by rewrite <- app_assoc).
    destruct (ok_tables lim st Hst id b Hb) as [[Hsorted _] _].
    assert (List.filter (fun x => cursorLess (CursorOf x) (CursorOf m)) (table b) = take (length F - k) F) as Eb by (rewrite Et; apply before_row; by rewrite <- Et).
    pose proof (IH (Some (CursorOf m)) st' Hst' ltac:(by rewrite (find_buffer_db st st')) ltac:(by rewrite Hdb) Hsm) as Hw.
    change (default maxCursor (Some (CursorOf m))) with (CursorOf m) in Hw. rewrite Eb in Hw.
    rewrite Hw; [transitivity (eventData <$> (take (length F - k) F ++ m :: rest)); [by rewrite fmap_app|by rewrite <- HF]|by exists (m :: (rest ++ F2))|rewrite length_take; unfold len in *; lia].
  - assert (length F - k = 0)%nat as E0 by (unfold len in *; lia). rewrite E0, take_0 in HF. by rewrite HF.
Qed.

(** C18. Paging back loses nothing and ends.  A client that asks for the newest page
    and then for the page before the first message it has, until it is told there is
    no more, has asked at most once per message and holds every message of the
    buffer, once, in order, although each page is cut to 64 messages and 512 KiB. *)
Theorem history_walk_complete limit st id b :
  store_ok lim st -> find_buffer network buffer st = Some id -> db st !! id = Some b -> Forall row_small (table b) ->
  Forall (fun m => cursorLess (CursorOf m) maxCursor = true) (table b) ->
  walk_back lim (S (length (table b))) network buffer limit None st = eventData <$> table b.
Proof.
  intros Hst Hfind Hb Hsm Hmax. assert (List.filter (fun m => cursorLess (CursorOf m) maxCursor) (table b) = table b) as Ef.
  { apply List.forallb_filter_id, forallb_forall. intros x Hx. rewrite Forall_forall in Hmax. by apply Hmax, list_elem_of_In. }
  rewrite (walk_back_from (S (length (table b))) limit None st id b); cbn [default]; rewrite ?Ef; try done; [exists []; by rewrite app_nil_r|lia].
Qed.
End walk.
