(* ===== verification/HubMembers.v ===== *)
(** * Member pages of a channel view: internal/hub/session.go

    [handleGetChannel] answers a browser that opens a channel: topic, and a page of the
    member list cut to 256 members and 512 KiB, with the cursor of the next page.  A
    client that follows the cursors sees each member once. *)

From S2P Require Import Prelude GoStrings GoUtf8 GoNet GoJson IrcMsg ISupport Roster RosterInv RosterPage Outbound JoinIntent HubHistory.

(** ** Rows under the byte cap *)

(** The loop the listings share: rows are added while their encoding, with a comma in
    front of all but the first, fits the cap; the last result is whether one did not. *)
Fixpoint fill_rows {A} (encode : A -> gostring) (used : Z) (out rows : list A) : list A * Z * bool :=
  match rows with
  | [] => (out, used, false)
  | x :: rows =>
      let extra := len (encode x) + (if len out >? 0 then 1 else 0) in
      if used + extra >? maxHistoryPayloadBytes then (out, used, true) else fill_rows encode (used + extra) (out ++ [x]) rows
  end.

(** ** The response *)

Definition maxChannelResponseMembers : Z := 256.

(** A MemberData has the fields of a roster [Member]. *)
Definition member_json (m : Member) : gostring :=
  jsonObject ([json_field §"nick" (jsonString (Nick m))]
    ++ json_omit (StatusPrefix m == []) (json_field §"prefix" (jsonString (StatusPrefix m)))
    ++ json_omit (negb (Away m)) (json_field §"away" (jsonBool (Away m)))
    ++ json_omit (Account m == []) (json_field §"account" (jsonString (Account m)))
    ++ json_omit (negb (Bot m)) (json_field §"bot" (jsonBool (Bot m)))
    ++ json_omit (User m == []) (json_field §"user" (jsonString (User m)))
    ++ json_omit (Host m == []) (json_field §"host" (jsonString (Host m)))).

Record ChannelReq := MkChannelReq { crNetwork : gostring; crBuffer : gostring; crAfter : gostring }.
Record ChannelData := MkChannelData {
  chNetwork : gostring; chBuffer : gostring; chJoined : bool; chTopic : gostring; chMembers : list Member; chTruncated : bool; chAfter : gostring
}.

Definition channel_json (d : ChannelData) : gostring :=
  jsonObject ([json_field §"network" (jsonString (chNetwork d)); json_field §"buffer" (jsonString (chBuffer d));
               json_field §"joined" (jsonBool (chJoined d)); json_field §"topic" (jsonString (chTopic d));
               json_field §"members" (jsonArray (member_json <$> chMembers d)); json_field §"truncated" (jsonBool (chTruncated d))]
    ++ json_omit (chAfter d == []) (json_field §"members_after" (jsonString (chAfter d)))).

(** What the reserve of [fillChannelMembers] keeps for the cursor. *)
Definition cursor_reserve : Z := 512 * 6 + len §",'members_after':''".

Definition fillChannelMembers (ms : list Member) (d : ChannelData) : ChannelData :=
  let '(out, _, cut) := fill_rows member_json (len (channel_json d) + cursor_reserve) (chMembers d) ms in
  MkChannelData (chNetwork d) (chBuffer d) (chJoined d) (chTopic d) out (chTruncated d || cut) (chAfter d).

(** A connection as the request uses it: [lvNames] are the channels asked about,
    [lvGen] their generation. *)
Record Live := MkLive { lvIsup : isupport; lvNoNames : bool; lvPrefix : Z; lvGen : Z; lvRoster : roster; lvNames : gset gostring; lvSender : Sender }.

(** ** The request *)

Section request.
Context `{RosterLimits, Unicode, IrcV4}.

Definition ensureNames (gen_after : Z) (buffer : gostring) (c : Live) : Live :=
  let '(names, s) := EnsureNames (lvIsup c) (lvNoNames c) (lvPrefix c) (lvGen c) gen_after buffer (lvNames c) (lvSender c) in
  MkLive (lvIsup c) (lvNoNames c) (lvPrefix c) (lvGen c) (lvRoster c) names s.

(** [order] is the order in which the member map is iterated for this page. *)
Definition channel_data (isup : isupport) (r : roster) (order : list gostring) (d : ChannelReq) : ChannelData :=
  let data := MkChannelData (crNetwork d) (crBuffer d) false [] [] false [] in
  match channelPage isup order r (crBuffer d) maxChannelResponseMembers (crAfter d) with
  | None => data
  | Some (topic, ms, truncated) =>
      let data := fillChannelMembers ms (MkChannelData (crNetwork d) (crBuffer d) true topic [] truncated []) in
      if chTruncated data then
        match last (chMembers data) with
        | Some m => MkChannelData (chNetwork data) (chBuffer data) true (chTopic data) (chMembers data) true (Fold isup (Nick m))
        | None => data
        end
      else data
  end.

Definition buildChannelData (conn : option Live) (gen_after : Z) (order : list gostring) (d : ChannelReq) : ChannelData * option Live :=
  match conn with
  | None => (MkChannelData (crNetwork d) (crBuffer d) false [] [] false [], None)
  | Some c =>
      let c := ensureNames gen_after (crBuffer d) c in
      (channel_data (lvIsup c) (lvRoster c) order d, Some c)
  end.

Definition handleGetChannel (conns : gmap gostring Live) (gen_after : Z) (order : list gostring) (req : option ChannelReq)
    : (gostring * gostring + ChannelData) * gmap gostring Live :=
  match req with
  | None => (inl (§"bad_request", §"malformed get_channel data"), conns)
  | Some d =>
      let '(data, c) := buildChannelData (conns !! crNetwork d) gen_after order d in
      (inr data, match c with Some c => <[crNetwork d := c]> conns | None => conns end)
  end.
End request.

(** A client that follows the cursors: one iteration order for each page. *)
Fixpoint view_channel (isup : isupport) (r : roster) (network buffer : gostring) (orders : list (list gostring)) (after : gostring) : list ChannelData :=
  match orders with
  | [] => []
  | order :: orders =>
      let d := channel_data isup r order (MkChannelReq network buffer after) in
      d :: (if chAfter d == [] then [] else view_channel isup r network buffer orders (chAfter d))
  end.

(** ** What the roster stores *)

(** Every stored member is under the folded form of its nick, and its fields are
    clamped. *)
#[local] Instance which_eq_dec : EqDecision which.
Proof. solve_decision. Defined.

Section stored.
Context (cm : gostring).

Definition member_ok (k : gostring) (m : Member) : Prop :=
  k = fold_byte cm <$> Nick m /\ len (Nick m) <= 512 /\ len (Account m) <= 512 /\ len (User m) <= 512 /\ len (Host m) <= 512.
Definition state_ok (st : channelState) : Prop := len (topic st) <= 512 /\ forall w, map_Forall member_ok (get_map st w).
Definition stored_ok (r : roster) : Prop := map_Forall (fun _ st => state_ok st) r.

Lemma put_state st w k m : state_ok st -> member_ok k m -> state_ok (put st w k m).
Proof.
  intros [Ht Hs] Hm. split; [by destruct w|]. intros w'. destruct (decide (w = w')) as [<-|Hne].
  - rewrite get_put. by apply map_Forall_insert_2.
  - by rewrite get_put_ne.
Qed.

Lemma del_state st w k : state_ok st -> state_ok (del st w k).
Proof.
  intros [Ht Hs]. split; [unfold del; destruct (get_map st w !! k); [by destruct w|done]|]. intros w'. destruct (decide (w = w')) as [<-|Hne].
  - rewrite get_del. by apply map_Forall_delete.
  - by rewrite get_del_ne.
Qed.

Lemma insert_stored r ck st : stored_ok r -> state_ok st -> stored_ok (<[ck := st]> r).
Proof. intros. by apply map_Forall_insert_2. Qed.
Lemma fmap_stored (f : channelState -> channelState) r : (forall st, state_ok st -> state_ok (f st)) -> stored_ok r -> stored_ok (f <$> r).
Proof. intros Hf Hr k st Hk. rewrite lookup_fmap in Hk. destruct (r !! k) as [st0|] eqn:E; [|done]. injection Hk as <-. by apply Hf, (Hr k). Qed.
Lemma foldl_stored {A} (f : roster -> A -> roster) l r : (forall r x, stored_ok r -> stored_ok (f r x)) -> stored_ok r -> stored_ok (foldl f r l).
Proof. intros Hf. revert r. induction l as [|x l IH]; intros r Hr; [done|]. by apply IH, Hf. Qed.
End stored.

Section steps.
Context `{RosterLimits, IrcV4} (isup : isupport).
Abbreviation ok := (stored_ok (caseMapping isup)).
Abbreviation mok := (member_ok (caseMapping isup)).
Abbreviation sok := (state_ok (caseMapping isup)).

Lemma topic_stored r ch t : ok r -> ok (setTopic isup r ch t).
Proof.
  intros Hr. unfold setTopic. destruct (r !! _) as [st|] eqn:E; [|done]. cbv zeta. destruct_if as Eg; [done|].
  apply insert_stored; [done|]. destruct (Hr _ _ E) as [_ Hs]. split; [apply clampRoster_len|]. intros w. apply (Hs w).
Qed.

Lemma left_stored r ch nick ours : ok r -> ok (memberLeft isup r ch nick ours).
Proof.
  intros Hr. unfold memberLeft. destruct ours; [by apply map_Forall_delete|]. destruct (r !! _) as [st|] eqn:E; [|done].
  apply insert_stored; [done|]. apply del_state, del_state. by apply (Hr _ _ E).
Qed.

Lemma names_stored st budget left raws : sok st -> sok (names_loop isup st budget left raws).
Proof.
  revert st budget left. induction raws as [|raw raws IH]; intros st budget left Hs; cbn [names_loop]; [done|]. destruct_if as Eg; [done|].
  destruct (splitNamesPrefix _ _) as [[[prefix nick] user] host]. cbv zeta. apply IH. apply put_state; [done|].
  split; [done|]. cbn [Nick Account User Host]. split_and!; try apply clampRoster_len. done.
Qed.

Lemma merge_ok k o m : mok k m -> (forall x, o = Some x -> mok k x) -> mok k (merge_member o m).
Proof.
  intros (H1 & H2 & H3 & H4 & H5) Ho. unfold merge_member. destruct o as [x|]; [|done]. destruct (Ho x eq_refl) as (_ & _ & X3 & X4 & X5).
  by destruct (_ && _); split_and!.
Qed.

Lemma rename_stored r from to : ok r -> ok (rename isup r from to).
Proof.
  intros Hr. unfold rename. apply fmap_stored; [|done]. intros st Hs.
  assert (forall st w over, sok st -> sok (rekey over (Fold isup (clampRoster from)) (Fold isup (clampRoster to)) (clampRoster to) st w)) as Hk; [|by apply Hk, Hk].
  clear. intros st w over Hs. unfold rekey. destruct (get_map st w !! _) as [m|] eqn:E; [|done]. cbv zeta. destruct_if as Eg; [done|].
  apply put_state; [by apply del_state|]. destruct Hs as [_ Hs]. destruct (Hs w _ _ E) as (_ & _ & H3 & H4 & H5). split; [done|]. cbn [Nick Account User Host].
  split_and!; try done. apply clampRoster_len.
Qed.

Lemma update_stored r nick fn : (forall k m, mok k m -> mok k (fn m)) -> ok r -> ok (updateEverywhere isup r nick fn).
Proof.
  intros Hf Hr. unfold updateEverywhere. apply fmap_stored; [|done]. intros st Hs.
  assert (forall st w over key, sok st -> sok (update_in over key fn st w)) as Hk; [|cbv zeta; destruct (pending _); [by apply Hk, Hk|by apply Hk]].
  clear -Hf. intros st w over key Hs. unfold update_in. destruct (get_map st w !! key) as [m|] eqn:E; [|done]. cbv zeta. destruct_if as Eg; [done|].
  apply put_state; [done|]. apply Hf. destruct Hs as [_ Hs]. by apply (Hs w).
Qed.

Lemma status_stored ck fk sy adding w rs : ok rs.1 -> ok (status_in isup ck fk sy adding w rs).1.
Proof.
  destruct rs as [r over]. cbn [fst]. intros Hr. unfold status_in. destruct (r !! ck) as [st|] eqn:E; [|done]. destruct (get_map st w !! fk) as [m|] eqn:Em; [|done].
  destruct (Hr _ _ E) as [Ht Hs]. pose proof (Hs w _ _ Em) as Hm.
  assert (forall p, ok (<[ck := put st w fk (set_prefix_of m p)]> r)) as Hp by (intros p; apply insert_stored; [done|by apply put_state]).
  destruct adding; [|apply Hp]. cbv zeta. destruct_if as Eg; [|apply Hp]. destruct_if as Eo; [done|apply Hp].
Qed.

Lemma mode_stored ck params cls adding letters ra modes : ok ra.1 -> ok (mode_loop isup ck params cls adding letters ra modes).
Proof.
  revert adding letters ra. induction modes as [|c modes IH]; intros adding letters ra Hr; cbn [mode_loop]; [done|].
  destruct_if as E1; [by apply IH|]. destruct_if as E2; [by apply IH|]. cbv zeta. destruct_if as E3; [done|]. apply IH.
  destruct ra as [r arg]. cbn [fst] in Hr. unfold applyModeLetter. cbv zeta. set (arg' := if (arg <? _)%nat then _ else _).
  destruct (class cls c == x50); [|by repeat destruct (_ == _); destruct adding].
  cbn [fst]. unfold applyStatusMode. cbv zeta. set (nick := default [] (params !! arg)).
  pose proof (status_stored ck (foldKey isup nick) (string_of_byte (sym cls c)) adding InMembers (r, None) Hr) as H1.
  destruct (_ !! ck) as [st|]; [|done]. destruct (pending st); [by apply status_stored|done].
Qed.

Lemma joined_ok m sender : mok (Fold isup (clampRoster sender)) (joinMember m (clampRoster sender)).
Proof.
  unfold joinMember. pose proof (clampRoster_len (Param m 1)) as Ha.
  destruct (mPrefix m) as [p|]; [pose proof (clampRoster_len (pUser p)); pose proof (clampRoster_len (pHost p))|]; cbv zeta;
    (split; [done|]); cbn [Nick Account User Host]; (destruct_if as E); split_and!; try done; apply clampRoster_len.
Qed.

Lemma join_stored r m sender ours : ok r -> ok (memberJoin isup r m sender ours).
Proof.
  intros Hr. unfold memberJoin. cbv zeta. assert (ok (joinChannel isup r (clampRoster (Param m 0)) ours).1) as H1.
  { unfold joinChannel. cbv zeta. destruct (r !! _); [done|]. destruct_if as E; [done|]. apply insert_stored; [done|]. split; [done|]. intros []; apply map_Forall_empty. }
  destruct (joinChannel _ _ _ _) as [r1 [ck|]]; cbn [fst] in H1; [|done]. destruct (r1 !! ck) as [st|] eqn:E; [|done].
  destruct_if as E1; [done|]. destruct_if as E2; [done|]. pose proof (H1 _ _ E) as Hs.
  assert (sok (put st InMembers (Fold isup (clampRoster sender)) (joinMember m (clampRoster sender)))) as Hs1 by (apply put_state; [done|apply joined_ok]).
  destruct (pending _); [|by apply insert_stored]. destruct_if as E3; [|by apply insert_stored].
  apply insert_stored; [by apply insert_stored|]. apply put_state; [done|apply joined_ok].
Qed.

Lemma handle_stored ourNick m r : ok r -> ok (handle isup ourNick m r).
Proof.
  intros Hr. unfold handle. cbv zeta. set (sender := match mPrefix m with Some _ => _ | None => _ end).
  case_bool_decide.
  { unfold namesReply. destruct (r !! _) as [st|] eqn:E; [|done]. apply insert_stored; [done|]. apply names_stored.
    destruct (Hr _ _ E) as [Ht Hs]. split; [done|]. intros []; [apply (Hs InMembers)|apply (Hs InPending)]. }
  case_bool_decide.
  { unfold namesEnd. destruct (r !! _) as [st|] eqn:E; [|done]. destruct (pending st) as [p|] eqn:Ep; [|done]. apply insert_stored; [done|].
    destruct (Hr _ _ E) as [Ht Hs]. split; [done|]. intros []; [|apply map_Forall_empty]. intros k x Hx. cbn in Hx. rewrite map_lookup_imap in Hx.
    destruct (p !! k) as [y|] eqn:Ey; [|done]. injection Hx as <-. apply merge_ok; [apply (Hs InPending); cbn; by rewrite Ep|]. intros z Hz. by apply (Hs InMembers). }
  case_bool_decide; [by apply topic_stored|]. case_bool_decide; [by apply topic_stored|]. case_bool_decide; [by apply topic_stored|].
  case_bool_decide; [by apply join_stored|]. case_bool_decide; [by apply foldl_stored; [intros; apply left_stored|]|].
  case_bool_decide; [by apply foldl_stored; [intros ? []; apply left_stored|]|].
  case_bool_decide; [by apply fmap_stored; [intros st Hs; by apply del_state, del_state|]|].
  case_bool_decide; [by apply rename_stored|].
  case_bool_decide; [apply update_stored; [|done]; intros k x (F1 & F2 & F3 & F4 & F5); split_and!; try done; apply clampRoster_len|].
  case_bool_decide; [apply update_stored; [|done]; by intros k x (F1 & F2 & F3 & F4 & F5)|].
  case_bool_decide; [apply update_stored; [|done]; intros k x (F1 & F2 & F3 & F4 & F5); split_and!; try done; apply clampRoster_len|].
  case_bool_decide.
  { unfold whoxReply. destruct_if as E; [done|]. apply update_stored; [|done]. intros k x (F1 & F2 & F3 & F4 & F5). split_and!; try done; apply clampRoster_len. }
  case_bool_decide; [|done]. unfold channelMode. destruct (r !! _); [|done]. unfold applyChannelMode. destruct_if as E; [done|]. by apply mode_stored.
Qed.
End steps.

(** The rosters of one connection, whose case mapping is [cm]. *)
Inductive tracked `{RosterLimits, IrcV4} (cm : gostring) : roster -> Prop :=
  | tracked_new : tracked cm newRoster
  | tracked_handle isup ourNick m r : caseMapping isup = cm -> tracked cm r -> tracked cm (handle isup ourNick m r)
  | tracked_clear r : tracked cm r -> tracked cm (clear r).

Lemma tracked_stored `{RosterLimits, IrcV4} cm r : tracked cm r -> stored_ok cm r.
Proof. induction 1 as [|isup ourNick m r <- _ IH|r _ _]; [apply map_Forall_empty|by apply handle_stored|apply map_Forall_empty]. Qed.

(** ** Sizes *)

Lemma joined_snoc l s : joined_len (l ++ [s]) = joined_len l + len s + (if len l >? 0 then 1 else 0).
Proof.
  unfold joined_len. rewrite foldr_app, len_app. cbn [foldr]. change (len [s]) with 1. pose proof (len_nonneg l).
  assert (forall a, foldr (fun s n => len s + n) a l = foldr (fun s n => len s + n) 0 l + a) as ->.
  { intros a. clear. induction l as [|x l IH]; cbn [foldr]; lia. }
  destruct (Z.gtb_spec (len l) 0); lia.
Qed.

(** The rows taken are a prefix, cut only where the next row does not fit; the bytes
    counted are those of the encoding, and rows of at most [B] bytes for which there is
    room are all taken. *)
Lemma fill_rows_spec {A} (encode : A -> gostring) rows used out :
  let '(res, used', cut) := fill_rows encode used out rows in
  exists k, (k <= length rows)%nat /\ res = out ++ take k rows /\ cut = (k <? length rows)%nat /\
    used' - used = joined_len (encode <$> res) - joined_len (encode <$> out) /\ used' <= Z.max used maxHistoryPayloadBytes /\
    forall n B, (n <= length rows)%nat -> Forall (fun x => len (encode x) <= B) rows -> used + Z.of_nat n * (B + 1) <= maxHistoryPayloadBytes -> (n <= k)%nat.
Proof.
  revert used out. induction rows as [|x rows IH]; intros used out; cbn [fill_rows].
  { exists 0%nat. rewrite take_0, app_nil_r. split_and!; [cbn; lia|done|done|lia|lia|]. intros n B Hn _ _. cbn in Hn. lia. }
  cbv zeta. set (extra := len (encode x) + _). assert (0 <= extra <= len (encode x) + 1) as He by (unfold extra; pose proof (len_nonneg (encode x)); destruct (_ >? _); lia).
  destruct (Z.gtb_spec (used + extra) maxHistoryPayloadBytes) as [Hc|Hc].
  - exists 0%nat. rewrite take_0, app_nil_r. split_and!; [cbn; lia|done|done|lia|lia|]. intros n B Hn HB Hu. apply Forall_cons in HB as [HB _]. destruct n; [done|exfalso; nia].
  - specialize (IH (used + extra) (out ++ [x])). destruct (fill_rows _ _ _ _) as [[res used'] cut]. destruct IH as (k & Hk & -> & -> & Hu & Hm & Hp).
    exists (S k). cbn [length take]. split_and!; [lia|by rewrite <- app_assoc|done| |lia|].
    + rewrite fmap_app, (fmap_app _ out) in *. cbn [fmap list_fmap] in *. rewrite (joined_snoc (encode <$> out)) in Hu. unfold extra in Hu.
      replace (len (encode <$> out)) with (len out) in Hu by (unfold len; by rewrite length_fmap). lia.
    + intros n B Hn HB Hub. apply Forall_cons in HB as [HB1 HB2]. destruct n as [|n]; [lia|]. apply le_n_S, (Hp n B); [lia|done|]. rewrite Nat2Z.inj_succ in Hub. lia.
Qed.

Lemma jsonBool_len b : len (jsonBool b) <= 5.
Proof. by destruct b. Qed.

Lemma member_json_len k cm m : member_ok cm k m -> len (StatusPrefix m) <= 1024 -> len (member_json m) <= 18600.
Proof.
  intros (_ & Hn & Ha & Hu & Hh) Hp. unfold member_json. rewrite jsonObject_len. match goal with |- 2 + joined_len ?l <= _ => pose proof (fields_len_bound l) as Hl end.
  rewrite !fields_len_app, fields_len_cons in Hl. change (fields_len []) with 0 in Hl.
  pose proof (fields_len_omit (StatusPrefix m == []) (json_field §"prefix" (jsonString (StatusPrefix m)))).
  pose proof (fields_len_omit (negb (Away m)) (json_field §"away" (jsonBool (Away m)))).
  pose proof (fields_len_omit (Account m == []) (json_field §"account" (jsonString (Account m)))).
  pose proof (fields_len_omit (negb (Bot m)) (json_field §"bot" (jsonBool (Bot m)))).
  pose proof (fields_len_omit (User m == []) (json_field §"user" (jsonString (User m)))).
  pose proof (fields_len_omit (Host m == []) (json_field §"host" (jsonString (Host m)))).
  pose proof (string_field_len §"nick" _ _ Hn). pose proof (string_field_len §"prefix" _ _ Hp). pose proof (string_field_len §"account" _ _ Ha).
  pose proof (string_field_len §"user" _ _ Hu). pose proof (string_field_len §"host" _ _ Hh).
  rewrite (json_field_len §"away"), (json_field_len §"bot") in *. pose proof (jsonBool_len (Away m)). pose proof (jsonBool_len (Bot m)).
  change (len §"nick") with 4 in *. change (len §"prefix") with 6 in *. change (len §"away") with 4 in *. change (len §"account") with 7 in *.
  change (len §"bot") with 3 in *. change (len §"user") with 4 in *. change (len §"host") with 4 in *. lia.
Qed.

Definition channel_base (d : ChannelData) : Z :=
  len (channel_json (MkChannelData (chNetwork d) (chBuffer d) (chJoined d) (chTopic d) [] (chTruncated d) [])).

Lemma joined_one_more l s : joined_len (l ++ [s]) <= joined_len l + len s + 1.
Proof. rewrite joined_snoc. destruct (_ >? _); lia. Qed.

(** The encoding of a page with its members and its cursor. *)
Lemma channel_json_len n b j t ms tr a tr' :
  len a <= 512 -> (a <> [] -> tr = true) -> (tr' = true -> tr = true) ->
  len (channel_json (MkChannelData n b j t ms tr a)) <= len (channel_json (MkChannelData n b j t [] tr' [])) + joined_len (member_json <$> ms) + cursor_reserve.
Proof.
  intros Ha Htr Ht. unfold channel_json. cbn [chNetwork chBuffer chJoined chTopic chMembers chTruncated chAfter].
  change (json_omit ([] == []) (json_field §"members_after" (jsonString []))) with (@nil gostring). rewrite app_nil_r, !jsonObject_len.
  set (fs := fun x y => [json_field §"network" (jsonString n); json_field §"buffer" (jsonString b); json_field §"joined" (jsonBool j);
    json_field §"topic" (jsonString t); json_field §"members" (jsonArray (member_json <$> x)); json_field §"truncated" (jsonBool y)]).
  assert (joined_len (fs ms tr) <= joined_len (fs [] tr') + joined_len (member_json <$> ms)) as Hf.
  { unfold fs, joined_len at 1 2. cbn [foldr]. rewrite !(json_field_len §"members"), !jsonArray_len, !(json_field_len §"truncated").
    change (joined_len (member_json <$> [])) with 0. assert (len (jsonBool tr) <= len (jsonBool tr')) as Hb by (destruct tr, tr'; try done; by specialize (Ht eq_refl)).
    rewrite !len_cons. change (len (@nil gostring)) with 0. lia. }
  fold (fs ms tr) (fs [] tr'). unfold json_omit. change cursor_reserve with 3091. destruct (a == []); [rewrite app_nil_r; lia|].
  pose proof (joined_one_more (fs ms tr) (json_field §"members_after" (jsonString a))). rewrite json_field_len in *. pose proof (jsonString_len a).
  change (len §"members_after") with 13 in *. lia.
Qed.

(** ** The walk *)

Section view.
Context `{RosterLimits, IrcV4} (isup : isupport) (r : roster) (network buffer : gostring) (st : channelState).
Context (Hr : tracked (caseMapping isup) r) (Hst : r !! foldKey isup buffer = Some st).
Context (Hreq : len network + len buffer <= 65536) (Hprefix : map_Forall (fun _ m => len (StatusPrefix m) <= 1024) (members st)).

Definition the_member (k : gostring) : Member := default zeroMember (members st !! k).
Abbreviation nicks := (map_to_list (members st)).*1.
Abbreviation past after := (sort_Strings (filter (eligible after) nicks)).

Lemma past_member after k : k ∈ past after -> exists m, members st !! k = Some m /\ the_member k = m /\ member_ok (caseMapping isup) k m /\ len (StatusPrefix m) <= 1024.
Proof.
  intros Hk. rewrite sort_Strings_perm, list_elem_of_filter in Hk. destruct Hk as [_ Hk]. apply list_elem_of_fmap in Hk as ([k' m] & -> & Hm).
  apply elem_of_map_to_list in Hm. exists m. unfold the_member. cbn [fst]. rewrite Hm. destruct (tracked_stored _ _ Hr _ _ Hst) as [_ Hs].
  split_and!; [done|done|by apply (Hs InMembers)|by apply (Hprefix _ _ Hm)].
Qed.

(** One page: the first members past the cursor, at least two where there are two,
    within the cap, with the last key as the cursor of the next when there are more. *)
Lemma page_view order after : order ≡ₚ nicks ->
  let d := channel_data isup r order (MkChannelReq network buffer after) in
  len (channel_json d) <= maxHistoryPayloadBytes /\ chJoined d = true /\ chTopic d = topic st /\
  exists k, (k <= length (past after))%nat /\ (k <= 256)%nat /\ (Nat.min 2 (length (past after)) <= k)%nat /\
    chMembers d = the_member <$> take k (past after) /\ chTruncated d = (k <? length (past after))%nat /\
    chAfter d = (if (k <? length (past after))%nat then default [] (last (take k (past after))) else []).
Proof.
  intros Hord. unfold channel_data. cbn [crNetwork crBuffer crAfter]. rewrite (channelPage_is_sorted_prefix isup r buffer _ after order st Hst Hord).
  change (Z.to_nat maxChannelResponseMembers) with 256%nat. change (Z.max maxChannelResponseMembers 0) with 256.
  set (K := past after). fold the_member. set (ms := the_member <$> take 256 K). unfold fillChannelMembers. cbn [chMembers chNetwork chBuffer chJoined chTopic chTruncated chAfter].
  set (b0 := MkChannelData network buffer true (topic st) [] (256 <? len K) []).
  assert (len (topic st) <= 512) as Htop by (by destruct (tracked_stored _ _ Hr _ _ Hst)).
  assert (len (channel_json b0) <= 397000) as Hbase.
  { unfold b0, channel_json. cbn [chNetwork chBuffer chJoined chTopic chMembers chTruncated chAfter]. change (json_omit ([] == []) (json_field §"members_after" (jsonString []))) with (@nil gostring).
    rewrite app_nil_r, jsonObject_len. match goal with |- 2 + joined_len ?l <= _ => pose proof (fields_len_bound l) as Hl end. rewrite !fields_len_cons in Hl. change (fields_len []) with 0 in Hl.
    rewrite !json_field_len in Hl. pose proof (jsonString_len network). pose proof (jsonString_len buffer). pose proof (jsonString_len (topic st)). pose proof (jsonBool_len true). pose proof (jsonBool_len (256 <? len K)).
    change (len (jsonArray (member_json <$> []))) with 2 in Hl. change (len §"network") with 7 in Hl. change (len §"buffer") with 6 in Hl. change (len §"joined") with 6 in Hl.
    change (len §"topic") with 5 in Hl. change (len §"members") with 7 in Hl. change (len §"truncated") with 9 in Hl. lia. }
  change cursor_reserve with 3091. pose proof (fill_rows_spec member_json ms (len (channel_json b0) + 3091) []) as Hf.
  destruct (fill_rows _ _ _ _) as [[out used] cut]. destruct Hf as (k & Hk & Hout & Hcut & Hu & Hmax & Hmin). cbn [app] in Hout. subst out cut. change (joined_len (member_json <$> [])) with 0 in Hu.
  change maxHistoryPayloadBytes with 524288 in *.
  assert (length ms = Nat.min 256 (length K)) as Hms by (unfold ms; by rewrite length_fmap, length_take).
  assert (Nat.min 2 (length K) <= k)%nat as H2.
  { apply (Hmin _ 18600); [lia| |lia]. unfold ms. apply Forall_fmap, Forall_take, Forall_forall. intros x Hx. destruct (past_member after x Hx) as (m & _ & Hm & Hok & Hp). cbn. rewrite Hm. by eapply member_json_len. }
  assert (take k ms = the_member <$> take k K) as Htk by (unfold ms; rewrite <- fmap_take, take_take; do 2 f_equal; lia). rewrite Htk in *.
  assert ((256 <? len K) || (k <? length ms)%nat = (k <? length K)%nat) as Htr.
  { rewrite Hms. unfold len. destruct (Z.ltb_spec 256 (Z.of_nat (length K))), (Nat.ltb_spec k (Nat.min 256 (length K))), (Nat.ltb_spec k (length K)); cbn; try done; lia. }
  rewrite Htr. cbn [chTruncated chMembers chNetwork chBuffer chTopic]. destruct (last (the_member <$> take k K)) as [m|] eqn:El.
  - rewrite fmap_last in El. destruct (last (take k K)) as [key|] eqn:Elk; [|done]. injection El as <-. cbn [default].
    assert (key ∈ K) as Hkey by (eapply elem_of_sublist; [by eapply last_Some_elem_of|apply sublist_take]).
    destruct (past_member after key Hkey) as (m & _ & Hm & (Hkm & Hn & _) & _). rewrite Hm. change (Fold isup (Nick m)) with (fold_byte (caseMapping isup) <$> Nick m). rewrite <- Hkm.
    assert (len key <= 512) as Hkl by (rewrite Hkm; unfold len; rewrite length_fmap; exact Hn).
    destruct (k <? length K)%nat eqn:Ek; cbn [chJoined chTopic chMembers chTruncated chAfter chNetwork chBuffer]; (split; [|split; [done|split; [done|exists k; rewrite Ek, ?Elk; split_and!; try done; lia]]]).
    + pose proof (channel_json_len network buffer true (topic st) (the_member <$> take k K) true key (256 <? len K) Hkl ltac:(done) ltac:(done)) as Hj. fold b0 in Hj. change cursor_reserve with 3091 in Hj. lia.
    + pose proof (channel_json_len network buffer true (topic st) (the_member <$> take k K) false [] (256 <? len K) ltac:(done) ltac:(done)) as Hj. fold b0 in Hj. change cursor_reserve with 3091 in Hj.
      assert ((256 <? len K) = true -> false = true) as Ht by (intros E; rewrite E in Htr; done). specialize (Hj Ht). lia.
  - rewrite fmap_last in El. destruct (last (take k K)) as [key|] eqn:Elk; [done|]. apply last_None in Elk.
    assert (length K = 0)%nat as HK by (apply (f_equal length) in Elk; rewrite length_take in Elk; cbn in Elk; lia).
    assert ((k <? length K)%nat = false) as Ekf by (apply Nat.ltb_ge; lia). rewrite Ekf. cbn [chJoined chTopic chMembers chTruncated chAfter].
    split; [|split; [done|split; [done|exists k; rewrite Ekf; split_and!; try done; lia]]]. rewrite Elk. cbn [fmap list_fmap].
    pose proof (channel_json_len network buffer true (topic st) [] false [] (256 <? len K) ltac:(done) ltac:(done)) as Hj. fold b0 in Hj. change cursor_reserve with 3091 in Hj.
    assert ((256 <? len K) = true -> false = true) as Ht by (unfold len; rewrite HK; done). specialize (Hj Ht). change (joined_len (member_json <$> [])) with 0 in *. lia.
Qed.

Definition page_good (d : ChannelData) : Prop :=
  len (channel_json d) <= maxHistoryPayloadBytes /\ (length (chMembers d) <= 256)%nat /\ chJoined d = true /\ chTopic d = topic st.

(** The last key of at least two is not empty: it has a smaller one before it. *)
Lemma cursor_nonempty after k key : (2 <= k)%nat -> (2 <= length (past after))%nat -> last (take k (past after)) = Some key ->
  key <> [] /\ exists a, past after = (a ++ [key]) ++ drop k (past after).
Proof.
  intros Hk Hl Hlast. pose proof (take_drop k (past after)) as Etd. apply last_Some in Hlast as [a Ha]. rewrite Ha in Etd. split; [|by exists a].
  intros ->. destruct a as [|x a].
  { apply (f_equal length) in Ha. rewrite length_take in Ha. cbn in Ha. lia. }
  pose proof (sort_Strings_strict _ (NoDup_filter (eligible after) _ (NoDup_fst_map_to_list (members st)))) as Hs.
  rewrite <- Etd in Hs. apply StronglySorted_app in Hs as (_ & Hs & _). apply StronglySorted_app in Hs as (Hs & _ & _).
  specialize (Hs x [] ltac:(by left) ltac:(by left)). unfold str_slt in Hs. by destruct x.
Qed.

Lemma view_from orders after : Forall (fun o => o ≡ₚ nicks) orders -> (length (past after) < length orders)%nat ->
  let pages := view_channel isup r network buffer orders after in
  mjoin (chMembers <$> pages) = the_member <$> past after /\ Forall page_good pages /\ (2 * (length pages - 1) <= length (past after))%nat /\
  exists init d, pages = init ++ [d] /\ chTruncated d = false /\ Forall (fun d => chTruncated d = true) init.
Proof.
  intros Ho. revert after. induction Ho as [|order orders Hord Ho IH]; intros after Hl; [cbn in Hl; lia|]. cbn [view_channel length] in *.
  destruct (page_view order after Hord) as (Hj & Hjo & Ht & k & Hk & H256 & H2 & Hm & Htr & Ha). set (d := channel_data _ _ _ _) in *. rewrite Ha.
  assert (page_good d) as Hg by (split_and!; [done|rewrite Hm, length_fmap, length_take; lia|done|done]).
  destruct (Nat.ltb_spec k (length (past after))) as [Hlt|Hge].
  - destruct (last (take k (past after))) as [key|] eqn:El; [|apply last_None, (f_equal length) in El; rewrite length_take in El; cbn in El; lia].
    destruct (cursor_nonempty after k key ltac:(lia) ltac:(lia) El) as (Hne & a & Hsplit). unfold default, id in *. rewrite bool_decide_eq_false_2 by done.
    pose proof (next_eligible nicks after key a _ (NoDup_fst_map_to_list (members st)) Hne Hsplit) as Hn. specialize (IH key). rewrite Hn, length_drop in IH.
    destruct (IH ltac:(lia)) as (I1 & I2 & I3 & init & d' & I4 & I5 & I6). cbn [fmap list_fmap mjoin list_join length].
    split; [|split; [by constructor|split; [lia|]]].
    + transitivity (chMembers d ++ (the_member <$> drop k (past after))); [by f_equal|]. by rewrite Hm, <- fmap_app, take_drop.
    + exists (d :: init), d'. rewrite I4. split; [done|]. split; [done|]. by constructor.
  - rewrite bool_decide_eq_true_2 by done. cbn [fmap list_fmap mjoin list_join length]. rewrite app_nil_r, Hm, take_ge by lia.
    split; [done|]. split; [by constructor|]. split; [lia|]. by exists [], d.
Qed.
End view.

(** C19. Opening a channel and following the cursors shows every member once, in the order
    of their folded names, however the member map is iterated for each page.  No page
    passes 256 members or 512 KiB, each but the last says that there are more and takes
    at least two, and the last says that there are none; the roster is any that the
    messages of the connection can produce.  What is assumed of sizes is a request as
    large as the socket admits and at most 1 KiB of status symbols for a member. *)
Theorem members_shown_once `{RosterLimits, IrcV4} isup r network buffer st orders :
  tracked (caseMapping isup) r -> r !! foldKey isup buffer = Some st -> len network + len buffer <= 65536 ->
  map_Forall (fun _ m => len (StatusPrefix m) <= 1024) (members st) ->
  Forall (fun o => o ≡ₚ (map_to_list (members st)).*1) orders -> (size (members st) < length orders)%nat ->
  let pages := view_channel isup r network buffer orders [] in
  mjoin (chMembers <$> pages) = (fun k => default zeroMember (members st !! k)) <$> sort_Strings (map_to_list (members st)).*1 /\
  Forall (page_good st) pages /\ (2 * (length pages - 1) <= size (members st))%nat /\
  exists init d, pages = init ++ [d] /\ chTruncated d = false /\ Forall (fun d => chTruncated d = true) init.
Proof.
  intros Hr Hst Hreq Hp Ho Hl. assert (filter (eligible []) (map_to_list (members st)).*1 = (map_to_list (members st)).*1) as E by (apply filter_all; intros; by left).
  assert (length (sort_Strings (map_to_list (members st)).*1) = size (members st)) as Es by (rewrite sort_Strings_perm, length_fmap; apply length_map_to_list).
  pose proof (view_from isup r network buffer st Hr Hst Hreq Hp orders [] Ho) as Hv. rewrite E, Es in Hv. exact (Hv Hl).
Qed.

(** ** A run *)

Lemma run_roster_tracked ms : @tracked default_limits ref_ircv4 (caseMapping newISupport) (run_roster default_limits ms).
Proof.
  unfold run_roster. assert (@tracked default_limits ref_ircv4 (caseMapping newISupport) newRoster) as Hr by constructor.
  revert Hr. generalize newRoster. induction ms as [|m ms IH]; intros r Hr; cbn [foldl]; [done|]. apply IH. by constructor.
Qed.

Definition demo_room : channelState := default (MkChannel [] [] ∅ None 0) (run_roster default_limits demo !! §"#c").
Definition demo_pages : list ChannelData := view_channel newISupport (run_roster default_limits demo) §"net" §"#C" (replicate 4 [§"carol"; §"me"; §"bob"]) [].

Lemma members_shown_once_witness :
  Nick <$> mjoin (chMembers <$> demo_pages) = [§"bob"; §"carol"; §"me"] /\ Forall (page_good demo_room) demo_pages.
Proof.
  destruct (@members_shown_once default_limits ref_ircv4 newISupport (run_roster default_limits demo) §"net" §"#C" demo_room (replicate 4 [§"carol"; §"me"; §"bob"])) as (H1 & H2 & _).
  - apply run_roster_tracked.
  - unfold demo_room. destruct (run_roster default_limits demo !! foldKey newISupport §"#C") as [st|] eqn:E; [|by vm_compute in E]. change (foldKey newISupport §"#C") with §"#c" in E. by rewrite E.
  - done.
  - apply (bool_decide_unpack _). vm_compute. exact I.
  - apply Forall_replicate. apply (bool_decide_unpack _). vm_compute. exact I.
  - apply Nat.ltb_lt. vm_compute. reflexivity.
  - split; [|exact H2]. unfold demo_pages. rewrite H1. vm_compute. reflexivity.
Defined.
