(* ===== verification/Policy.v ===== *)
(** * Synced policies: internal/hub/session.go, internal/store/settings.go

    The highlight rules, the ignore and mute lists and the map of network renames:
    rows of the settings table that the browsers edit and that the push scheduler
    obeys.  A rename of a network rewrites all three; a browser that was offline
    during the rename still writes the old name, which the map then heals. *)

From S2P Require Import Prelude GoStrings GoUtf8 Highlight.

(** ** The settings table

    [fails key] is whether the read of that row fails in this request. *)
Abbreviation settings := (gmap gostring gostring).

Definition SettingValue (fails : gostring -> bool) (key : gostring) (rows : settings) : option (option gostring) :=
  if fails key then None else Some (rows !! key).
Definition SetSetting (key value : gostring) (rows : settings) : settings := <[key := value]> rows.
Definition SetSettings (kv rows : settings) : settings := kv ∪ rows.

Definition rulesKey : gostring := §"highlight_rules".
Definition filtersKey : gostring := §"filters".
Definition renamesKey : gostring := §"network_renames".
Definition prefsKey : gostring := §"prefs".

Definition maxRules : Z := 64.
Definition maxRulePatternChars : Z := 256.
Definition maxRuleNetworkChars : Z := 300.
Definition maxRuleIDChars : Z := 64.
Definition maxFilterNetworks : Z := 128.
Definition maxIgnoresPerNetwork : Z := 512.
Definition maxIgnoreNickChars : Z := 128.
Definition maxMutes : Z := 1024.
Definition maxMuteKeyChars : Z := 1024.
Definition maxNetworkRenames : Z := 128.
Definition MaxPrefsBytes : Z := 64 * 1024.

(** ** The rows

    A nil map or slice and an empty one are not told apart. *)
Record RulesData := MkRules { Rules : list Rule; RSeeded : bool }.
Record FiltersData := MkFilters { Ignores : gmap gostring (list gostring); Mutes : list gostring; FSeeded : bool }.
Definition no_filters : FiltersData := MkFilters ∅ [] false.

(** encoding/json on these types; [None] is an error. *)
Class PolicyJson := {
  marshalRules : RulesData -> gostring; unmarshalRules : gostring -> option RulesData;
  marshalFilters : FiltersData -> gostring; unmarshalFilters : gostring -> option FiltersData;
  marshalRenames : gmap gostring gostring -> gostring; unmarshalRenames : gostring -> option (gmap gostring gostring);
  jsonValid : gostring -> bool
}.

(** What a browser is sent by these handlers. *)
Inductive policyEnv :=
  | POk
  | PError (code text : gostring)
  | PRules (d : RulesData)
  | PFilters (d : FiltersData)
  | PPrefs (blob : gostring).
Inductive policyAct :=
  | PPush (e : policyEnv)
  | PBroadcastExcept (e : policyEnv)
  | PBroadcast (e : policyEnv)
  | PNotifyPushConfig.

Definition isJSONObject (s : gostring) : bool := match TrimSpace s with x7b :: _ => true | _ => false end.

Definition resolveRenamed (m : gmap gostring gostring) (name : gostring) : gostring := default name (m !! name).

(** Appends the items of [src] that are not in [seen]. *)
Fixpoint appendUnseen (dst : list gostring) (seen : gset gostring) (src : list gostring) : list gostring * gset gostring :=
  match src with
  | [] => (dst, seen)
  | n :: src => if bool_decide (n ∈ seen) then appendUnseen dst seen src else appendUnseen (dst ++ [n]) ({[n]} ∪ seen) src
  end.

Definition bad (text : gostring) : list policyAct := [PPush (PError §"bad_request" text)].
Definition internal (text : gostring) : list policyAct := [PPush (PError §"internal" text)].

Section policy.
Context {Huni : Unicode} {Hjson : PolicyJson}.

(** ** Preferences *)

Definition handleGetPrefs (fails : gostring -> bool) (rows : settings) : list policyAct :=
  match SettingValue fails prefsKey rows with
  | None => internal §"prefs query failed"
  | Some v => let v := default [] v in [PPush (PPrefs (if negb (v == []) && jsonValid v then v else []))]
  end.

Definition handleSetPrefs (req : option gostring) (writeOk : bool) (rows : settings) : list policyAct * settings :=
  match req with
  | None | Some [] => (bad §"set_prefs needs a prefs value", rows)
  | Some prefs =>
      if MaxPrefsBytes <? len prefs then (bad §"prefs too large", rows)
      else if negb writeOk then (internal §"storing prefs failed", rows)
      else ([PPush POk; PBroadcastExcept (PPrefs prefs)], SetSetting prefsKey prefs rows)
  end.

(** ** Reading the rows *)

Definition parseRules (v : gostring) : list Rule :=
  if v == [] then [] else match unmarshalRules v with Some d => Rules d | None => [] end.
Definition loadRulesChecked (fails : gostring -> bool) (rows : settings) : option (list Rule) :=
  match SettingValue fails rulesKey rows with
  | None => None
  | Some None => Some []
  | Some (Some v) => if isJSONObject v then Rules <$> unmarshalRules v else None
  end.

Definition parseFilters (v : gostring) : FiltersData :=
  if v == [] then no_filters else default no_filters (unmarshalFilters v).
Definition loadFiltersChecked (fails : gostring -> bool) (rows : settings) : option FiltersData :=
  match SettingValue fails filtersKey rows with
  | None => None
  | Some None => Some no_filters
  | Some (Some v) => if isJSONObject v then unmarshalFilters v else None
  end.

Definition loadRenameMapChecked (fails : gostring -> bool) (rows : settings) : option (gmap gostring gostring) :=
  match SettingValue fails renamesKey rows with
  | None => None
  | Some None => Some ∅
  | Some (Some v) =>
      if TrimSpace v == [] then Some ∅
      else if isJSONObject v then Some (default ∅ (unmarshalRenames v)) else Some ∅
  end.

Definition handleGetRules (fails : gostring -> bool) (rows : settings) : list policyAct :=
  match SettingValue fails rulesKey rows with
  | None => internal §"rules query failed"
  | Some v => [PPush (PRules (MkRules (parseRules (default [] v)) (bool_decide (is_Some v))))]
  end.

Definition handleGetFilters (fails : gostring -> bool) (rows : settings) : list policyAct :=
  match SettingValue fails filtersKey rows with
  | None => internal §"filters query failed"
  | Some v =>
      let d := parseFilters (default [] v) in
      [PPush (PFilters (MkFilters (Ignores d) (Mutes d) (bool_decide (is_Some v))))]
  end.

(** ** Writing the rules *)

(** The loop of [handleSetRules]: [None] when a field is too long. *)
Fixpoint canonical_rules (renames : gmap gostring gostring) (rules : list Rule) : option (list Rule * bool) :=
  match rules with
  | [] => Some ([], false)
  | r :: rules =>
      if (maxRulePatternChars <? len (Pattern r)) || (maxRuleNetworkChars <? len (RNetwork r)) || (maxRuleIDChars <? len (RID r)) then None
      else
        let p := TrimSpace (Pattern r) in
        match canonical_rules renames rules with
        | None => None
        | Some (kept, rewrote) =>
            if p == [] then Some (kept, rewrote)
            else
              let resolved := resolveRenamed renames (RNetwork r) in
              Some (MkRule p resolved (RID r) :: kept, negb (resolved == RNetwork r) || rewrote)
        end
  end.

Definition handleSetRules (fails : gostring -> bool) (req : option RulesData) (writeOk : bool) (rows : settings) : list policyAct * settings :=
  match req with
  | None => (bad §"malformed set_rules data", rows)
  | Some d =>
      if maxRules <? len (Rules d) then (bad §"too many rules", rows)
      else match loadRenameMapChecked fails rows with
      | None => (internal §"reading rename map failed", rows)
      | Some renames =>
          match canonical_rules renames (Rules d) with
          | None => (bad §"rule field too long", rows)
          | Some (kept, rewrote) =>
              if negb writeOk then (internal §"storing rules failed", rows)
              else
                let echo := PRules (MkRules kept true) in
                ([PPush POk; PBroadcastExcept echo] ++ (if rewrote then [PPush echo] else []) ++ [PNotifyPushConfig],
                 SetSetting rulesKey (marshalRules (MkRules kept false)) rows)
          end
      end
  end.

(** ** Writing the filters *)

(** [None] when a nick is too long. *)
Fixpoint canonicalNicks (nicks : list gostring) : option (list gostring) :=
  match nicks with
  | [] => Some []
  | n :: nicks =>
      if n == [] then canonicalNicks nicks
      else if maxIgnoreNickChars <? len n then None
      else (fun l => ToLower n :: l) <$> canonicalNicks nicks
  end.

(** The state of the loop of [canonicalIgnores]. *)
Record ignoreAcc := MkAcc { aOut : gmap gostring (list gostring); aSeen : gmap gostring (gset gostring); aRewrote : bool }.

Definition ignores_step (renames : gmap gostring gostring) (acc : ignoreAcc) (entry : gostring * list gostring) : gostring + ignoreAcc :=
  let '(network, nicks) := entry in
  if (network == []) || (maxIgnoresPerNetwork <? len nicks) then inl §"bad ignore list"
  else
    let resolved := resolveRenamed renames network in
    match canonicalNicks nicks with
    | None => inl §"ignored nick too long"
    | Some kept =>
        let set := default ∅ (aSeen acc !! resolved) in
        let '(merged, set) := appendUnseen (default [] (aOut acc !! resolved)) set kept in
        if maxIgnoresPerNetwork <? len merged then inl §"bad ignore list"
        else inr (MkAcc (if merged == [] then aOut acc else <[resolved := merged]> (aOut acc)) (<[resolved := set]> (aSeen acc))
                        (aRewrote acc || negb (resolved == network)))
    end.

Fixpoint ignores_loop (renames : gmap gostring gostring) (acc : ignoreAcc) (order : list (gostring * list gostring)) : gostring + ignoreAcc :=
  match order with
  | [] => inr acc
  | e :: order => match ignores_step renames acc e with inl p => inl p | inr acc => ignores_loop renames acc order end
  end.

(** [order] is the order in which the code ranges over the map. *)
Definition canonicalIgnores (order : list (gostring * list gostring)) (renames : gmap gostring gostring) : gostring + (gmap gostring (list gostring) * bool) :=
  match ignores_loop renames (MkAcc ∅ ∅ false) order with
  | inl p => inl p
  | inr acc => inr (aOut acc, aRewrote acc)
  end.

(** One mute key with its network resolved. *)
Definition resolveMute (renames : gmap gostring gostring) (m : gostring) : gostring :=
  match Cut m x0a with
  | (network, buffer, true) => resolveRenamed renames network ++ [x0a] ++ buffer
  | _ => m
  end.

(** [None] when a key is too long. *)
Fixpoint canonicalMutes (ms : list gostring) (renames : gmap gostring gostring) : option (list gostring * bool) :=
  match ms with
  | [] => Some ([], false)
  | m :: ms =>
      if m == [] then canonicalMutes ms renames
      else if maxMuteKeyChars <? len m then None
      else
        match canonicalMutes ms renames with
        | None => None
        | Some (out, rewrote) => Some (resolveMute renames m :: out, negb (resolveMute renames m == m) || rewrote)
        end
  end.

Definition handleSetFilters (fails : gostring -> bool) (order : gmap gostring (list gostring) -> list (gostring * list gostring))
    (req : option FiltersData) (writeOk : bool) (rows : settings) : list policyAct * settings :=
  match req with
  | None => (bad §"malformed set_filters data", rows)
  | Some d =>
      if (maxFilterNetworks <? Z.of_nat (size (Ignores d))) || (maxMutes <? len (Mutes d)) then (bad §"too many filters", rows)
      else match loadRenameMapChecked fails rows with
      | None => (internal §"reading rename map failed", rows)
      | Some renames =>
          match canonicalIgnores (order (Ignores d)) renames with
          | inl problem => (bad problem, rows)
          | inr (ignores, rewroteIg) =>
              match canonicalMutes (Mutes d) renames with
              | None => (bad §"mute key too long", rows)
              | Some (mutes, rewroteMu) =>
                  if negb writeOk then (internal §"storing filters failed", rows)
                  else
                    let echo := PFilters (MkFilters ignores mutes true) in
                    ([PPush POk; PBroadcastExcept echo] ++ (if rewroteIg || rewroteMu then [PPush echo] else []) ++ [PNotifyPushConfig],
                     SetSetting filtersKey (marshalFilters (MkFilters ignores mutes false)) rows)
              end
          end
      end
  end.

(** ** Renaming a network *)

(** [None] when the present map does not decode. *)
Definition foldRenameMap (current : option gostring) (oldName newName : gostring) : option (gmap gostring gostring) :=
  let m :=
    match current with
    | None => Some ∅
    | Some v => if TrimSpace v == [] then Some ∅ else if isJSONObject v then unmarshalRenames v else None
    end in
  match m with
  | None => None
  | Some m =>
      let m := delete newName ((fun v => if v == oldName then newName else v) <$> m) in
      let m := if maxNetworkRenames <=? Z.of_nat (size m) then ∅ else m in
      Some (<[oldName := newName]> m)
  end.

Definition rewriteRuleRefs (rules : list Rule) (oldName newName : gostring) : list Rule * bool :=
  ((fun r => if RNetwork r == oldName then MkRule (Pattern r) newName (RID r) else r) <$> rules,
   existsb (fun r => RNetwork r == oldName) rules).

(** [None] when the union of the two ignore lists exceeds the limit. *)
Definition rewriteFilterRefs (d : FiltersData) (oldName newName : gostring) : option (FiltersData * bool) :=
  let ig :=
    match Ignores d !! oldName with
    | None => Some (Ignores d, false)
    | Some nicks =>
        let rest := delete oldName (Ignores d) in
        let '(merged, seen) := appendUnseen [] ∅ (default [] (rest !! newName)) in
        let '(merged, _) := appendUnseen merged seen nicks in
        if maxIgnoresPerNetwork <? len merged then None else Some (<[newName := merged]> rest, true)
    end in
  match ig with
  | None => None
  | Some (ignores, changed) =>
      let prefix := oldName ++ [x0a] in
      Some (MkFilters ignores
              ((fun m => if HasPrefix m prefix then newName ++ [x0a] ++ TrimPrefix m prefix else m) <$> Mutes d) (FSeeded d),
            changed || existsb (fun m => HasPrefix m prefix) (Mutes d))
  end.

Record renameWrites := MkRenameWrites {
  rwSettings : settings;
  rwRollback : settings;
  rwRules : option RulesData;
  rwFilters : option FiltersData
}.

Definition renameMapSetting (fails : gostring -> bool) (oldName newName : gostring) (rows : settings) (rw : renameWrites) : option renameWrites :=
  match SettingValue fails renamesKey rows with
  | None => None
  | Some v =>
      match foldRenameMap v oldName newName with
      | None => None
      | Some m =>
          Some (MkRenameWrites (<[renamesKey := marshalRenames m]> (rwSettings rw)) (<[renamesKey := default §"{}" v]> (rwRollback rw))
                  (rwRules rw) (rwFilters rw))
      end
  end.

Definition renameRuleSetting (fails : gostring -> bool) (oldName newName : gostring) (rows : settings) (rw : renameWrites) : option renameWrites :=
  match SettingValue fails rulesKey rows with
  | None => None
  | Some None => Some rw
  | Some (Some v) =>
      match (if isJSONObject v then unmarshalRules v else None) with
      | None => None
      | Some d =>
          let '(rules, changed) := rewriteRuleRefs (Rules d) oldName newName in
          if changed then
            let d := MkRules rules (RSeeded d) in
            Some (MkRenameWrites (<[rulesKey := marshalRules d]> (rwSettings rw)) (<[rulesKey := v]> (rwRollback rw)) (Some d) (rwFilters rw))
          else Some rw
      end
  end.

Definition renameFilterSetting (fails : gostring -> bool) (oldName newName : gostring) (rows : settings) (rw : renameWrites) : option renameWrites :=
  match SettingValue fails filtersKey rows with
  | None => None
  | Some None => Some rw
  | Some (Some v) =>
      match (if isJSONObject v then unmarshalFilters v else None) with
      | None => None
      | Some d =>
          match rewriteFilterRefs d oldName newName with
          | None => None
          | Some (d, changed) =>
              if changed then
                Some (MkRenameWrites (<[filtersKey := marshalFilters d]> (rwSettings rw)) (<[filtersKey := v]> (rwRollback rw)) (rwRules rw) (Some d))
              else Some rw
          end
      end
  end.

Definition computeRenameWrites (fails : gostring -> bool) (oldName newName : gostring) (rows : settings) : option renameWrites :=
  rw ← renameMapSetting fails oldName newName rows (MkRenameWrites ∅ ∅ None None);
  rw ← renameRuleSetting fails oldName newName rows rw;
  renameFilterSetting fails oldName newName rows rw.

(** The write that drops the entry of a network that is created again, with the value
    to roll back to; [None] on a read error or a map that does not decode. *)
Definition computeNameClearWrites (fails : gostring -> bool) (name : gostring) (rows : settings) : option (settings * settings) :=
  match SettingValue fails renamesKey rows with
  | None => None
  | Some None => Some (∅, ∅)
  | Some (Some v) =>
      if TrimSpace v == [] then Some (∅, ∅)
      else
        match (if isJSONObject v then unmarshalRenames v else None) with
        | None => None
        | Some m =>
            if bool_decide (is_Some (m !! name)) then Some ({[renamesKey := marshalRenames (delete name m)]}, {[renamesKey := v]})
            else Some (∅, ∅)
        end
  end.

Definition broadcastRenameWrites (rw : renameWrites) : list policyAct :=
  (match rwRules rw with Some d => [PBroadcast (PRules (MkRules (Rules d) true))] | None => [] end) ++
  (match rwFilters rw with Some d => [PBroadcast (PFilters (MkFilters (Ignores d) (Mutes d) true))] | None => [] end) ++
  (match rwRules rw, rwFilters rw with None, None => [] | _, _ => [PNotifyPushConfig] end).

Definition renameSyncedNetworkRefs (fails : gostring -> bool) (oldName newName : gostring) (writeOk : bool) (rows : settings) : list policyAct * settings :=
  match computeRenameWrites fails oldName newName rows with
  | None => ([], rows)
  | Some rw => if writeOk then (broadcastRenameWrites rw, SetSettings (rwSettings rw) rows) else ([], rows)
  end.

(** ** What the push scheduler looks up: internal/hub/push.go *)

Record pushFilters := MkPushFilters { pfIgnores : gmap gostring (gset gostring); pfMutes : gset gostring }.

Definition buildPushFilters (d : FiltersData) : pushFilters :=
  MkPushFilters ((fun nicks => list_to_set (ToLower <$> nicks)) <$> Ignores d) (list_to_set (Mutes d)).

Definition drops (f : pushFilters) (network buffer sender : gostring) : bool :=
  if bool_decide (network ++ [x0a] ++ buffer ∈ pfMutes f) then true
  else negb (sender == []) && bool_decide (ToLower sender ∈ default ∅ (pfIgnores f !! network)).

End policy.
