(* ===== verification/PolicyProofs.v ===== *)
(** * What renames and stale writes do to the synced policies

    The filters and rules of a renamed network carry over exactly, and a browser that
    still writes the old name is corrected. *)

From S2P Require Import Prelude GoStrings GoUtf8 Highlight Policy.

(** ** Valid strings *)

Lemma ValidString_runes rs : ValidString (string_of_runes rs) = true.
Proof.
  assert (forall r, exists r', valid_rune r' = true /\ EncodeRune r = EncodeRune r') as HE.
  { intros r. destruct (valid_rune r) eqn:Hr; [by exists r|]. exists RuneError. split; [done|]. unfold EncodeRune. by rewrite Hr. }
  induction rs as [|r rs IH]; [done|]. unfold string_of_runes in *. cbn [mbind list_bind].
  destruct (HE r) as (r' & Hr & ->). pose proof (EncodeRune_length r') as Hl.
  pose proof (DecodeRune_EncodeRune r' [] Hr) as HD. rewrite app_nil_r in HD.
  assert (EncodeRune r' <> []) as Hne by (intros H0; rewrite H0 in Hl; simpl in Hl; lia).
  rewrite ValidString_app; [done|]. unfold ValidString.
  rewrite (chunks_cons _ _ _ Hne HD), drop_all, take_ge by lia. cbn [forallb chunks chunks_aux].
  rewrite andb_true_r, negb_true_iff. destruct (Z.eqb_spec r' RuneError) as [->|]; done.
Qed.

(** A sequence that decodes does not run past an ASCII byte. *)
Lemma DecodeRune_before a c b r n :
  a <> [] -> b2z c < 0x80 -> DecodeRune (a ++ c :: b) = (r, n) -> (r =? RuneError) && (n =? 1)%nat = false -> (n <= length a)%nat /\ DecodeRune a = (r, n).
Proof.
  intros Ha Hc. assert (forall lo hi, 0x80 <= lo -> in_range lo (b2z c) hi = false) as Hno by (intros; apply in_range_false; lia).
  destruct a as [|a0 [|a1 [|a2 [|a3 a]]]]; [done|..]; simpl;
    repeat (case_match; simplify_eq/=; try rewrite Hno in * by (try case_match; lia); try done);
    intros [= <- <-] Hok; simpl in Hok; try done; split; try lia; done.
Qed.

Lemma ValidString_split a c b : b2z c < 0x80 -> ValidString (a ++ c :: b) = true -> ValidString a = true /\ ValidString b = true.
Proof.
  intros Hc. remember (length a) as k eqn:Hk. revert a Hk. induction (lt_wf k) as [k _ IH]. intros a -> Hv.
  destruct a as [|x a].
  - split; [done|]. change ([] ++ c :: b) with ([c] ++ b) in Hv. rewrite ValidString_app in Hv; [done|].
    unfold ValidString. rewrite (chunks_cons [c] (b2z c) 1); [|done|cbn [DecodeRune]; by rewrite (proj2 (Z.ltb_lt _ _))].
    cbn [forallb take drop chunks chunks_aux length]. rewrite (proj2 (Z.eqb_neq (b2z c) RuneError)) by (unfold RuneError; lia). done.
  - assert (x :: a <> []) as Hne by done. assert ((x :: a) ++ c :: b <> []) as Hne' by done.
    destruct (DecodeRune ((x :: a) ++ c :: b)) as [r n] eqn:HD.
    pose proof (DecodeRune_width _ Hne') as Hw. rewrite HD in Hw. cbn [snd] in Hw.
    unfold ValidString in Hv. rewrite (chunks_cons _ r n Hne' HD) in Hv. cbn [forallb] in Hv.
    apply andb_true_iff in Hv as [Hr Hv]. apply negb_true_iff in Hr. rewrite length_take, Nat.min_l in Hr by lia.
    destruct (DecodeRune_before _ c b r n Hne Hc HD Hr) as [Hn HDa]. rewrite drop_app_le in Hv by lia.
    destruct (IH (length (drop n (x :: a))) ltac:(rewrite length_drop; cbn [length] in *; lia) _ eq_refl Hv) as [Ha Hb]. split; [|done].
    unfold ValidString. rewrite (chunks_cons _ r n Hne HDa). cbn [forallb]. rewrite length_take, Nat.min_l, Hr by lia. done.
Qed.

(** Newlines separate the network of a mute key from its buffer. *)
Lemma newline_split a b c d : x0a ∉ a -> x0a ∉ c -> a ++ [x0a] ++ b = c ++ [x0a] ++ d -> a = c /\ b = d.
Proof.
  intros Ha Hc H. pose proof (Cut_app a x0a b Ha) as H1. pose proof (Cut_app c x0a d Hc) as H2.
  change (a ++ x0a :: b = c ++ x0a :: d) in H. rewrite H, H2 in H1. by simplify_eq.
Qed.

Definition rules_clean (d : RulesData) : bool :=
  forallb (fun r => ValidString (Pattern r) && ValidString (RNetwork r) && ValidString (RID r)) (Rules d).
Definition names_clean (m : gmap gostring gostring) : bool :=
  forallb (fun kv => ValidString kv.1 && ValidString kv.2) (map_to_list m).
Definition filters_clean (d : FiltersData) : bool :=
  forallb (fun kv => ValidString kv.1 && forallb ValidString kv.2) (map_to_list (Ignores d)) && forallb ValidString (Mutes d).

(** encoding/json: what is encoded is an object that decodes to the same value when its
    strings are valid UTF-8, and decoding gives valid UTF-8. *)
Class PolicyJsonLaws {Hjson : PolicyJson} := {
  rules_object d : isJSONObject (marshalRules d) = true;
  filters_object d : isJSONObject (marshalFilters d) = true;
  renames_object m : isJSONObject (marshalRenames m) = true;
  rules_roundtrip d : rules_clean d = true -> unmarshalRules (marshalRules d) = Some d;
  filters_roundtrip d : filters_clean d = true -> unmarshalFilters (marshalFilters d) = Some d;
  renames_roundtrip m : names_clean m = true -> unmarshalRenames (marshalRenames m) = Some m;
  rules_decoded v d : unmarshalRules v = Some d -> rules_clean d = true;
  filters_decoded v d : unmarshalFilters v = Some d -> filters_clean d = true;
  renames_decoded v m : unmarshalRenames v = Some m -> names_clean m = true
}.

(** unicode.ToLower on the runes outside ASCII. *)
Class UnicodeLower {Huni : Unicode} := {
  lower_idem r : 0x80 <= r -> rune_lower (rune_lower r) = rune_lower r;
  lower_valid r : 0x80 <= r -> valid_rune r = true -> valid_rune (rune_lower r) = true
}.

Lemma names_clean_spec m : names_clean m = true <-> forall k v, m !! k = Some v -> ValidString k = true /\ ValidString v = true.
Proof.
  unfold names_clean. rewrite forallb_forall. split.
  - intros H k v Hkv. apply andb_true_iff, (H (k, v)), list_elem_of_In, elem_of_map_to_list. done.
  - intros H [k v] Hin%list_elem_of_In%elem_of_map_to_list. apply andb_true_iff. by apply H.
Qed.

Lemma filters_clean_spec d :
  filters_clean d = true <->
  (forall k l, Ignores d !! k = Some l -> ValidString k = true /\ forall n, n ∈ l -> ValidString n = true) /\ (forall m, m ∈ Mutes d -> ValidString m = true).
Proof.
  unfold filters_clean. rewrite andb_true_iff, !forallb_forall. split; intros [H1 H2]; (split; [|intros m Hm; by apply H2, list_elem_of_In]).
  - intros k l Hkl. pose proof (H1 (k, l) ltac:(by apply list_elem_of_In, elem_of_map_to_list)) as Hb.
    cbn [fst snd] in Hb. rewrite andb_true_iff, forallb_forall in Hb. destruct Hb as [? Hb]. split; [done|]. intros n Hn. by apply Hb, list_elem_of_In.
  - intros [k l] Hin%list_elem_of_In%elem_of_map_to_list. destruct (H1 k l Hin) as [? Hl]. cbn [fst snd]. apply andb_true_iff. split; [done|].
    apply forallb_forall. intros n Hn. by apply Hl, list_elem_of_In.
Qed.

Lemma DecodeRune_valid s r n : DecodeRune s = (r, n) -> valid_rune r = true.
Proof.
  unfold DecodeRune. destruct s as [|c s]; [by intros [= <- <-]|]. cbv zeta.
  pose proof (b2z_range c).
  repeat (case_match; try (intros [= <- <-]; try done; apply valid_rune_spec));
    repeat match goal with H : _ && _ = true |- _ => apply andb_true_iff in H as [? ?] end;
    unfold in_range in *; repeat match goal with H : context [b2z ?x] |- _ => lazymatch goal with _ : 0 <= b2z x < _ |- _ => fail | _ => pose proof (b2z_range x) end end;
    repeat case_match; lia.
Qed.

Lemma runes_valid s : Forall (fun r => valid_rune r = true) (runes s).
Proof.
  remember (length s) as k eqn:Hk. revert s Hk. induction (lt_wf k) as [k _ IH]. intros s ->.
  destruct s as [|c s]; [constructor|]. assert (c :: s <> []) as Hne by done. destruct (DecodeRune (c :: s)) as [r n] eqn:HD.
  pose proof (DecodeRune_width (c :: s) Hne) as Hw. rewrite HD in Hw. cbn [snd] in Hw.
  unfold runes. rewrite (chunks_cons _ r n Hne HD). cbn [fmap list_fmap fst]. constructor; [by eapply DecodeRune_valid|].
  eapply IH; [|reflexivity]. rewrite length_drop. cbn [length]. lia.
Qed.

Lemma ToLower_idem {Huni : Unicode} {Hlow : UnicodeLower} s : ToLower (ToLower s) = ToLower s.
Proof.
  pose proof runes_valid as Hv.
  assert (forall r, valid_rune r = true -> valid_rune (rune_lower r) = true /\ rune_lower (rune_lower r) = rune_lower r) as Hl.
  { intros r Hr. pose proof (proj1 (valid_rune_spec r) Hr). destruct (Z.ltb_spec r 0x80); [|split; [by apply lower_valid|by apply lower_idem]].
    unfold rune_lower, is_upper. rewrite (proj2 (Z.ltb_lt r 0x80)) by done.
    destruct (in_range 65 r 90) eqn:E.
    - assert (65 <= r <= 90) by (unfold in_range in E; lia). rewrite (proj2 (Z.ltb_lt _ 0x80)), (in_range_false 65) by lia. split; [|done].
      apply valid_rune_spec. lia.
    - rewrite (proj2 (Z.ltb_lt _ 0x80)), E by done. done. }
  assert (Forall (fun r => valid_rune r = true) (rune_lower <$> runes s)) as Hlv.
  { apply Forall_fmap, (Forall_impl _ _ _ (Hv s)). intros r ?. by apply Hl. }
  unfold ToLower at 1. unfold ToLower at 1. rewrite (runes_string_of_runes _ Hlv). unfold ToLower. f_equal.
  rewrite <- list_fmap_compose. apply list_fmap_ext. intros i r Hr. pose proof (Forall_lookup_1 _ _ _ _ (Hv s) Hr). by apply Hl.
Qed.

(** ** What the filters exclude *)

Section drops.
Context {Huni : Unicode}.

Definition muted (d : FiltersData) (network buffer : gostring) : Prop := network ++ [x0a] ++ buffer ∈ Mutes d.
Definition ignores (d : FiltersData) (network lowered : gostring) : Prop := exists l n, Ignores d !! network = Some l /\ n ∈ l /\ ToLower n = lowered.

Lemma drops_spec d network buffer sender :
  drops (buildPushFilters d) network buffer sender = true <-> muted d network buffer \/ sender <> [] /\ ignores d network (ToLower sender).
Proof.
  unfold drops, buildPushFilters, muted, ignores. cbn [pfMutes pfIgnores].
  destruct (bool_decide_reflect (network ++ [x0a] ++ buffer ∈@{gset gostring} list_to_set (Mutes d))) as [Hm|Hm]; rewrite elem_of_list_to_set in Hm; [naive_solver|].
  rewrite andb_true_iff, negb_true_iff, bool_decide_eq_false, bool_decide_eq_true, lookup_fmap.
  destruct (Ignores d !! network) as [l|]; simpl; [rewrite elem_of_list_to_set, list_elem_of_fmap|]; set_solver.
Qed.

Lemma drops_ext d d' network network' buffer sender :
  (muted d network buffer <-> muted d' network' buffer) ->
  (forall n, ignores d network n <-> ignores d' network' n) ->
  drops (buildPushFilters d) network buffer sender = drops (buildPushFilters d') network' buffer sender.
Proof. intros Hm Hi. apply eq_true_iff_eq. by rewrite !drops_spec, Hm, Hi. Qed.

Lemma appendUnseen_spec dst seen src :
  let '(l, set) := appendUnseen dst seen src in
  (list_to_set dst = seen -> list_to_set l = set) /\ (forall n, n ∈ l <-> n ∈ dst \/ n ∈ src /\ n ∉ seen) /\ (forall n, n ∈ set <-> n ∈ seen \/ n ∈ src) /\
  (NoDup dst -> list_to_set dst = seen -> NoDup l).
Proof.
  revert dst seen. induction src as [|x src IH]; intros dst seen; cbn [appendUnseen].
  - split_and!; set_solver.
  - destruct (bool_decide_reflect (x ∈ seen)) as [Hx|Hx].
    + specialize (IH dst seen). destruct (appendUnseen dst seen src) as [l set]. destruct IH as (H1 & H2 & H3 & H4).
      split_and!; [done| |set_solver|done]. intros n. rewrite H2, elem_of_cons. naive_solver.
    + specialize (IH (dst ++ [x]) ({[x]} ∪ seen)). destruct (appendUnseen (dst ++ [x]) ({[x]} ∪ seen) src) as [l set]. destruct IH as (H1 & H2 & H3 & H4).
      assert (list_to_set dst = seen -> list_to_set (dst ++ [x]) =@{gset gostring} {[x]} ∪ seen) as Hs.
      { intros <-. apply leibniz_equiv. set_solver. }
      split_and!; [auto| |set_solver|].
      * intros n. rewrite H2, elem_of_app, !elem_of_cons, not_elem_of_union, not_elem_of_singleton. destruct (decide (n = x)); set_solver.
      * intros Hd Hds. apply H4; [|auto]. apply NoDup_app. split_and!; [done| |apply NoDup_singleton]. set_solver.
Qed.

(** The ignores of a renamed network are those of both names. *)
Lemma rewrite_ignores d d' changed oldName newName :
  oldName <> newName -> rewriteFilterRefs d oldName newName = Some (d', changed) ->
  forall network n, ignores d' network n <->
    if network == newName then ignores d oldName n \/ ignores d newName n else if network == oldName then False else ignores d network n.
Proof.
  intros Hne. unfold rewriteFilterRefs. destruct (Ignores d !! oldName) as [nicks|] eqn:Ho.
  - rewrite lookup_delete_ne by done.
    pose proof (appendUnseen_spec [] ∅ (default [] (Ignores d !! newName))) as H1.
    destruct (appendUnseen [] ∅ (default [] (Ignores d !! newName))) as [m1 s1]. destruct H1 as (Hs1 & Hl1 & _ & _).
    pose proof (appendUnseen_spec m1 s1 nicks) as H2. destruct (appendUnseen m1 s1 nicks) as [m2 s2]. destruct H2 as (_ & Hl2 & _ & _).
    destruct (_ <? _); [done|]. intros [= <- <-] network n. unfold ignores. cbn [Ignores].
    assert (forall x, x ∈ m2 <-> x ∈ default [] (Ignores d !! newName) \/ x ∈ nicks) as Hm2.
    { intros x. rewrite Hl2. rewrite <- (Hs1 eq_refl), elem_of_list_to_set, Hl1. destruct (decide (x ∈ default [] (Ignores d !! newName))); set_solver. }
    repeat case_bool_decide; subst; simplify_eq.
    + rewrite lookup_insert_eq. split.
      * intros (l & x & [= <-] & Hx & <-). apply Hm2 in Hx as [Hx|Hx]; [right|left; eauto].
        destruct (Ignores d !! newName) as [l|] eqn:E; [|by apply not_elem_of_nil in Hx]. eauto.
      * intros [(l & x & Hl & Hx & <-)|(l & x & Hl & Hx & <-)]; exists m2, x; (split_and!; [done| |done]); apply Hm2.
        -- right. rewrite Ho in Hl. by simplify_eq.
        -- left. by rewrite Hl.
    + rewrite lookup_insert_ne, lookup_delete_eq by done. naive_solver.
    + by rewrite lookup_insert_ne, lookup_delete_ne by done.
  - intros [= <- <-] network n. unfold ignores. cbn [Ignores]. repeat case_bool_decide; subst; simplify_eq; try rewrite Ho; naive_solver.
Qed.

Lemma rewrite_mutes d d' changed oldName newName network buffer :
  oldName <> newName -> x0a ∉ oldName -> x0a ∉ newName -> x0a ∉ network -> rewriteFilterRefs d oldName newName = Some (d', changed) ->
  muted d' network buffer <->
    if network == newName then muted d oldName buffer \/ muted d newName buffer else if network == oldName then False else muted d network buffer.
Proof.
  intros Hne Ho Hn Hw. unfold rewriteFilterRefs. destruct (match Ignores d !! oldName with Some _ => _ | None => _ end) as [[ig ch]|]; [|done].
  intros [= <- <-]. unfold muted. cbn [Mutes]. rewrite list_elem_of_fmap.
  assert (forall m b, x0a ∉ m -> m <> oldName -> HasPrefix (m ++ [x0a] ++ b) (oldName ++ [x0a]) = false) as Hno.
  { intros m b Hm Hmo. apply not_true_iff_false. rewrite HasPrefix_spec. intros [t Ht]. rewrite <- app_assoc in Ht.
    by apply (newline_split _ _ _ _ Hm Ho) in Ht as [? _]. }
  assert (forall t, HasPrefix (oldName ++ [x0a] ++ t) (oldName ++ [x0a]) = true /\ TrimPrefix (oldName ++ [x0a] ++ t) (oldName ++ [x0a]) = t) as Hyes.
  { intros t. rewrite app_assoc. split; [apply HasPrefix_app|apply TrimPrefix_app]. }
  assert (forall m, HasPrefix m (oldName ++ [x0a]) = true -> exists t, m = oldName ++ [x0a] ++ t) as Hinv.
  { intros m [t ->]%HasPrefix_spec. exists t. by rewrite <- app_assoc. }
  split.
  - intros (m & Hm & Hin). destruct (HasPrefix m (oldName ++ [x0a])) eqn:Hp.
    + apply Hinv in Hp as [t ->]. rewrite (proj2 (Hyes t)) in Hm. apply (newline_split _ _ _ _ Hw Hn) in Hm as [-> ->].
      rewrite bool_decide_true by done. by left.
    + subst m. repeat case_bool_decide; subst; [by right| |done]. by rewrite (proj1 (Hyes buffer)) in Hp.
  - intros Hm. assert (forall m, x0a ∉ m -> m <> oldName -> m ++ [x0a] ++ buffer ∈ Mutes d ->
        exists x, m ++ [x0a] ++ buffer = (if HasPrefix x (oldName ++ [x0a]) then newName ++ [x0a] ++ TrimPrefix x (oldName ++ [x0a]) else x) /\ x ∈ Mutes d) as Hkeep.
    { intros m Hm1 Hm2 Hm3. eexists. split; [|exact Hm3]. by rewrite Hno. }
    repeat case_bool_decide; subst; [|done|by apply Hkeep].
    destruct Hm as [Hm|Hm]; [|by apply Hkeep]. eexists. split; [|exact Hm]. by rewrite (proj1 (Hyes buffer)), (proj2 (Hyes buffer)).
Qed.

End drops.

(** ** The rules of a renamed network *)

Lemma match_rules_spec {Huni : Unicode} lower rules network :
  match_rules lower rules network = true <->
  exists r, r ∈ rules /\ TrimSpace (Pattern r) <> [] /\ (RNetwork r = [] \/ RNetwork r = network) /\ Contains lower (ToLower (TrimSpace (Pattern r))) = true.
Proof.
  induction rules as [|r rules IH]; cbn [match_rules]; [set_solver|].
  assert (forall P : Rule -> Prop, (exists x, x ∈ r :: rules /\ P x) <-> P r \/ exists x, x ∈ rules /\ P x) as Hc by (intros P; set_solver).
  rewrite Hc, <- IH. destruct (bool_decide_reflect (TrimSpace (Pattern r) = [])); [naive_solver|].
  destruct (bool_decide_reflect (RNetwork r = [])), (bool_decide_reflect (RNetwork r = network)); simpl;
    destruct (Contains lower (ToLower (TrimSpace (Pattern r)))); naive_solver.
Qed.

Lemma rewrite_rules {Huni : Unicode} rules oldName newName text nick network :
  oldName <> newName -> oldName <> [] -> newName <> [] ->
  highlightText text nick (rewriteRuleRefs rules oldName newName).1 network =
    if network == newName then highlightText text nick rules oldName || highlightText text nick rules newName
    else if network == oldName then highlightText text nick (List.filter (fun r => RNetwork r != oldName) rules) oldName
    else highlightText text nick rules network.
Proof.
  intros Hne Ho Hn. unfold highlightText. destruct (bool_decide_reflect (text = [])); [by repeat case_bool_decide|].
  destruct (mentionsMe _ _); [by repeat case_bool_decide|]. generalize (ToLower (stripCodes text)). intros lower.
  apply eq_true_iff_eq. rewrite match_rules_spec. unfold rewriteRuleRefs. cbn [fst].
  assert (forall P : Rule -> Prop, (exists r, r ∈ (fun r => if RNetwork r == oldName then MkRule (Pattern r) newName (RID r) else r) <$> rules /\ P r) <->
            exists r, r ∈ rules /\ P (if RNetwork r == oldName then MkRule (Pattern r) newName (RID r) else r)) as Hmap.
  { intros P. split; [intros (r & (x & -> & Hx)%list_elem_of_fmap & HP); eauto|]. intros (x & Hx & HP). eexists. split; [|exact HP]. apply list_elem_of_fmap. eauto. }
  rewrite Hmap. repeat case_bool_decide; subst; rewrite ?orb_true_iff, !match_rules_spec.
  - split.
    + intros (r & Hr & HH). case_bool_decide; simpl in HH; [left|right]; exists r; naive_solver.
    + intros [(r & Hr & Hp & Hs & Hc)|(r & Hr & Hp & Hs & Hc)]; exists r; case_bool_decide; simpl; naive_solver.
  - split.
    + intros (r & Hr & HH). case_bool_decide; simpl in HH; [naive_solver|]. exists r. split; [|done].
      apply list_elem_of_In, filter_In. split; [by apply list_elem_of_In|]. by rewrite bool_decide_false.
    + intros (r & Hr%list_elem_of_In%filter_In & HH). destruct Hr as [Hr%list_elem_of_In Hne']. exists r. split; [done|].
      apply negb_true_iff, bool_decide_eq_false in Hne'. by rewrite bool_decide_false.
  - split; intros (r & Hr & HH); exists r; (split; [done|]); case_bool_decide; simpl in *; naive_solver.
Qed.

(** ** The map of renames *)

(** The update of [foldRenameMap] below its limit. *)
Definition fold_names (oldName newName : gostring) (m : gmap gostring gostring) : gmap gostring gostring :=
  <[oldName := newName]> (delete newName ((fun v => if v == oldName then newName else v) <$> m)).

Lemma fold_names_resolve oldName newName m y :
  oldName <> newName ->
  resolveRenamed (fold_names oldName newName m) y =
    if y == newName then newName else if y == oldName then newName
    else if resolveRenamed m y == oldName then newName else resolveRenamed m y.
Proof.
  intros Hne. unfold resolveRenamed, fold_names. repeat case_bool_decide; subst; simplify_eq;
    rewrite ?lookup_insert_eq, ?lookup_insert_ne, ?lookup_delete_eq, ?lookup_delete_ne, ?lookup_fmap by done; try done;
    destruct (m !! _); simpl in *; simplify_eq; try done; by case_bool_decide.
Qed.

Lemma fold_names_size oldName newName m :
  (size (delete newName ((fun v => if v == oldName then newName else v) <$> m)) <= size m)%nat /\ (size (fold_names oldName newName m) <= S (size m))%nat.
Proof.
  assert (size (delete newName ((fun v => if v == oldName then newName else v) <$> m)) <= size m)%nat as Hd.
  { rewrite map_size_delete, map_size_fmap. case_match; simpl; lia. }
  split; [done|]. unfold fold_names. rewrite map_size_insert. case_match; simpl; lia.
Qed.

(** What the network that is called [x] now is called after the renames. *)
Definition track (x : gostring) (renames : list (gostring * gostring)) : gostring :=
  foldl (fun x r => if x == r.1 then r.2 else x) x renames.
Definition fold_all (renames : list (gostring * gostring)) (m : gmap gostring gostring) : gmap gostring gostring :=
  foldl (fun m r => fold_names r.1 r.2 m) m renames.

Lemma fold_all_track renames m x :
  Forall (fun r => r.1 <> r.2) renames -> x ∉ renames.*1 -> x ∉ renames.*2 ->
  resolveRenamed (fold_all renames m) x = track (resolveRenamed m x) renames.
Proof.
  revert m. induction renames as [|[o n] renames IH]; intros m Hd H1 H2; [done|]. inversion_clear Hd as [|? ? Hon Hd']. cbn [fold_all track foldl fst snd] in *.
  fold (fold_all renames (fold_names o n m)). rewrite IH; [|done|set_solver..]. unfold track. f_equal.
  rewrite fold_names_resolve by done. cbn [fst snd]. rewrite (bool_decide_false (x = n)), (bool_decide_false (x = o)) by set_solver. done.
Qed.

Lemma fold_all_app a b m : fold_all (a ++ b) m = fold_all b (fold_all a m).
Proof. apply foldl_app. Qed.

(** ** What a write of the filters stores *)

Section canonical.
Context {Huni : Unicode}.

Lemma canonicalNicks_spec nicks l : canonicalNicks nicks = Some l -> forall n, n ∈ l <-> exists m, m ∈ nicks /\ m <> [] /\ n = ToLower m.
Proof.
  revert l. induction nicks as [|x nicks IH]; intros l; cbn [canonicalNicks]; [intros [= <-]; set_solver|].
  case_bool_decide as Hx.
  - intros Hl n. rewrite (IH _ Hl). subst. set_solver.
  - destruct (_ <? _); [done|]. destruct (canonicalNicks nicks) as [k|] eqn:E; [|done]. intros [= <-] n.
    rewrite elem_of_cons, (IH _ eq_refl). set_solver.
Qed.

Definition entries (renames : gmap gostring gostring) (order : list (gostring * list gostring)) (network n : gostring) : Prop :=
  exists k nicks m, (k, nicks) ∈ order /\ resolveRenamed renames k = network /\ m ∈ nicks /\ m <> [] /\ n = ToLower m.

Definition listed (out : gmap gostring (list gostring)) (network n : gostring) : Prop := exists l, out !! network = Some l /\ n ∈ l.

(** The loop of [canonicalIgnores] so far. *)
Record acc_ok (renames : gmap gostring gostring) (done : list (gostring * list gostring)) (acc : ignoreAcc) : Prop := {
  ao_listed network n : listed (aOut acc) network n <-> entries renames done network n;
  ao_seen network : default ∅ (aSeen acc !! network) = list_to_set (default [] (aOut acc !! network));
  ao_bound network l : aOut acc !! network = Some l -> l <> [] /\ NoDup l /\ len l <= maxIgnoresPerNetwork
}.

Lemma listed_default out network n : listed out network n <-> n ∈ default [] (out !! network).
Proof. unfold listed. destruct (out !! network); set_solver. Qed.

Lemma entries_snoc renames done network nicks w n :
  entries renames (done ++ [(network, nicks)]) w n <-> entries renames done w n \/ resolveRenamed renames network = w /\ exists m, m ∈ nicks /\ m <> [] /\ n = ToLower m.
Proof.
  unfold entries. split.
  - intros (k & ns & m & [Hin|[= -> ->]%list_elem_of_singleton]%elem_of_app & H1 & H2); [left; by exists k, ns, m|right; split; [done|by exists m]].
  - intros [(k & ns & m & Hin & H)|(H1 & m & H2)]; [exists k, ns, m|exists network, nicks, m]; (split; [apply elem_of_app|tauto]); [by left|right; by left].
Qed.

Lemma ignores_step_ok renames done acc e acc' : acc_ok renames done acc -> ignores_step renames acc e = inr acc' -> acc_ok renames (done ++ [e]) acc'.
Proof.
  intros [Hl Hs Hb]. destruct e as [network nicks]. unfold ignores_step.
  destruct ((network == []) || _); [done|]. destruct (canonicalNicks nicks) as [kept|] eqn:Ek; [|done]. pose proof (canonicalNicks_spec _ _ Ek) as Hk.
  set (r := resolveRenamed renames network) in *.
  pose proof (appendUnseen_spec (default [] (aOut acc !! r)) (default ∅ (aSeen acc !! r)) kept) as Ha.
  destruct (appendUnseen _ _ kept) as [merged set]. destruct Ha as (Hset & Hm & _ & Hnd). symmetry in Hs.
  specialize (Hset (Hs r)). destruct (Z.ltb_spec maxIgnoresPerNetwork (len merged)); [done|]. intros [= <-].
  assert (default [] (aOut acc !! r) = [] \/ default [] (aOut acc !! r) <> []) as Hc by (destruct (default [] (aOut acc !! r)); auto).
  assert (forall x, x ∈ merged <-> listed (aOut acc) r x \/ x ∈ kept) as Hm'.
  { intros x. rewrite Hm, <- (Hs r), elem_of_list_to_set, listed_default. destruct (decide (x ∈ default [] (aOut acc !! r))); set_solver. }
  assert (forall w, default [] ((if merged == [] then aOut acc else <[r := merged]> (aOut acc)) !! w) = if w == r then merged else default [] (aOut acc !! w)) as Hout.
  { intros w. destruct (bool_decide_reflect (merged = [])) as [->|Hne]; destruct (bool_decide_reflect (w = r)) as [->|Hw]; try done.
    - destruct (aOut acc !! r) as [l|] eqn:E; [|done]. destruct (Hb r l E) as (Hl0 & _). destruct l as [|x l]; [done|]. exfalso. by apply (not_elem_of_nil x), Hm'; left; exists (x :: l); split; [|left].
    - by rewrite lookup_insert_eq.
    - by rewrite lookup_insert_ne by done. }
  split; cbn [aOut aSeen].
  - intros w n. rewrite listed_default, Hout, entries_snoc. fold r. destruct (bool_decide_reflect (w = r)) as [->|Hw].
    + rewrite Hm', Hl, Hk. split; (intros [?|?]; [by left|right]); [done|tauto].
    + rewrite <- listed_default, Hl. split; [by left|]. intros [?|[? _]]; [done|congruence].
  - intros w. rewrite Hout. destruct (bool_decide_reflect (w = r)) as [->|Hw]; [by rewrite lookup_insert_eq|]. rewrite lookup_insert_ne by done. by rewrite Hs.
  - intros w l. case_bool_decide; [apply Hb|]. rewrite lookup_insert_Some. intros [[<- <-]|[_ ?]]; [|by apply (Hb w)].
    split_and!; [done| |done]. apply Hnd; [|apply Hs]. destruct (aOut acc !! r) as [k|] eqn:E; [|constructor]. by apply (Hb r k).
Qed.

Lemma canonicalIgnores_spec order renames out rewrote :
  canonicalIgnores order renames = inr (out, rewrote) ->
  (forall network n, listed out network n <-> entries renames order network n) /\
  (forall network l, out !! network = Some l -> l <> [] /\ NoDup l /\ len l <= maxIgnoresPerNetwork).
Proof.
  unfold canonicalIgnores. destruct (ignores_loop renames (MkAcc ∅ ∅ false) order) as [|acc] eqn:E; [done|]. intros [= <- <-].
  assert (forall ord done a, acc_ok renames done a -> ignores_loop renames a ord = inr acc -> acc_ok renames (done ++ ord) acc) as Hloop.
  { induction ord as [|e ord IH]; intros dn a Ha; cbn [ignores_loop]; [intros [= <-]; by rewrite app_nil_r|].
    destruct (ignores_step renames a e) as [|a'] eqn:Ee; [done|]. intros H. rewrite cons_middle, app_assoc. eapply IH; [|exact H]. by eapply ignores_step_ok. }
  destruct (Hloop order [] (MkAcc ∅ ∅ false)) as [Hl _ Hb]; [|done|done].
  split; [|done|done]. intros network n. split; [intros (l & [=] & _)|unfold entries; set_solver].
Qed.

Lemma canonicalMutes_spec ms renames out rewrote :
  canonicalMutes ms renames = Some (out, rewrote) -> forall x, x ∈ out <-> exists m, m ∈ ms /\ m <> [] /\ x = resolveMute renames m.
Proof.
  revert out rewrote. induction ms as [|m ms IH]; intros out rewrote; cbn [canonicalMutes]; [intros [= <- <-]; set_solver|].
  case_bool_decide as Hm.
  - intros H x. rewrite (IH _ _ H). subst. set_solver.
  - destruct (_ <? _); [done|]. destruct (canonicalMutes ms renames) as [[o rw]|] eqn:E; [|done]. intros [= <- <-] x.
    rewrite elem_of_cons, (IH _ _ eq_refl). set_solver.
Qed.

End canonical.

(** ** Renames and stale writes *)

Lemma fold_all_live renames m x :
  Forall (fun r => r.1 <> r.2) renames -> x ∉ renames.*1 -> resolveRenamed m x = x -> resolveRenamed (fold_all renames m) x = x.
Proof.
  revert m. induction renames as [|[o n] renames IH]; intros m Hd H1 Hx; [done|]. inversion_clear Hd as [|? ? Hon Hd']. cbn [fst snd] in *.
  change (fold_all ((o, n) :: renames) m) with (fold_all renames (fold_names o n m)). apply IH; [done|set_solver|].
  rewrite fold_names_resolve, Hx by done. rewrite (bool_decide_false (x = o)) by set_solver. by case_bool_decide.
Qed.

Lemma fold_names_values P o n m :
  (forall k v, m !! k = Some v -> P k /\ P v) -> P o -> P n -> forall k v, fold_names o n m !! k = Some v -> P k /\ P v.
Proof.
  intros Hm Ho Hn k v. unfold fold_names. rewrite lookup_insert_Some. intros [[<- <-]|[_ Hkv]]; [done|].
  apply lookup_delete_Some in Hkv as [_ Hkv]. rewrite lookup_fmap in Hkv. destruct (m !! k) as [w|] eqn:E; [|done].
  injection Hkv as <-. destruct (Hm _ _ E). by case_bool_decide.
Qed.

Lemma fold_all_values (P : gostring -> Prop) renames m :
  Forall (fun r => P r.1 /\ P r.2) renames -> (forall k v, m !! k = Some v -> P k /\ P v) -> forall k v, fold_all renames m !! k = Some v -> P k /\ P v.
Proof.
  revert m. induction renames as [|[o n] renames IH]; intros m Hd Hm; [done|]. inversion_clear Hd as [|? ? [Ho Hn] Hd'].
  change (fold_all ((o, n) :: renames) m) with (fold_all renames (fold_names o n m)). apply IH; [done|]. by apply fold_names_values.
Qed.

Section theorems.
Context {Huni : Unicode} {Hlow : UnicodeLower} {Hjson : PolicyJson} {Hlaws : PolicyJsonLaws}.

Definition no_failure : gostring -> bool := fun _ => false.

Lemma resolveMute_key renames x b : x0a ∉ x -> resolveMute renames (x ++ [x0a] ++ b) = resolveRenamed renames x ++ [x0a] ++ b.
Proof. intros Hx. unfold resolveMute. change (x ++ [x0a] ++ b) with (x ++ x0a :: b). by rewrite Cut_app. Qed.

(** What the stored filters exclude is what the written ones exclude, under the names
    that the written names lead to. *)
Lemma canonical_drops d order renames out rw mutes rw' x b s :
  order ≡ₚ map_to_list (Ignores d) -> canonicalIgnores order renames = inr (out, rw) -> canonicalMutes (Mutes d) renames = Some (mutes, rw') ->
  x0a ∉ x -> drops (buildPushFilters d) x b s = true -> drops (buildPushFilters (MkFilters out mutes false)) (resolveRenamed renames x) b s = true.
Proof.
  intros Hord Hi Hm Hx. rewrite !drops_spec. intros [Hmu|[Hs (l & n & Hl & Hn & Hlow')]].
  - left. unfold muted in *. cbn [Mutes]. rewrite (canonicalMutes_spec _ _ _ _ Hm). exists (x ++ [x0a] ++ b).
    split_and!; [done|by destruct x|by rewrite resolveMute_key].
  - right. split; [done|]. destruct (canonicalIgnores_spec _ _ _ _ Hi) as [Hsp _].
    destruct (proj2 (Hsp (resolveRenamed renames x) (ToLower n))) as (l' & Hl' & Hn').
    { exists x, l, n. split_and!; [rewrite Hord; by apply elem_of_map_to_list|done|done| |done].
      intros ->. by apply (ToLower_nonempty s Hs). }
    exists l', (ToLower n). split_and!; [done|done|]. by rewrite ToLower_idem.
Qed.

Lemma canonical_clean d order renames out rw mutes rw' :
  order ≡ₚ map_to_list (Ignores d) -> filters_clean d = true -> names_clean renames = true ->
  canonicalIgnores order renames = inr (out, rw) -> canonicalMutes (Mutes d) renames = Some (mutes, rw') ->
  filters_clean (MkFilters out mutes false) = true.
Proof.
  intros Hord [Hci Hcm]%filters_clean_spec Hcr Hi Hm. rewrite names_clean_spec in Hcr.
  assert (forall x, ValidString x = true -> ValidString (resolveRenamed renames x) = true) as Hres.
  { intros x Hx. unfold resolveRenamed. destruct (renames !! x) eqn:E; [|done]. by apply (Hcr _ _ E). }
  destruct (canonicalIgnores_spec _ _ _ _ Hi) as [Hsp Hb]. apply filters_clean_spec. cbn [Ignores Mutes]. split.
  - intros k l Hl. split.
    + destruct (Hb k l Hl) as (Hne & _). destruct l as [|n l]; [done|].
      destruct (proj1 (Hsp k n)) as (k0 & ns & m & Hin & <- & _); [exists (n :: l); split; [done|left]|].
      apply Hres. rewrite Hord in Hin. by apply elem_of_map_to_list, Hci in Hin as [? _].
    + intros n Hn. destruct (proj1 (Hsp k n)) as (k0 & ns & m & _ & _ & _ & _ & ->); [by exists l|]. apply ValidString_runes.
  - intros x Hx. apply (canonicalMutes_spec _ _ _ _ Hm) in Hx as (m & Hin & _ & ->). pose proof (Hcm m Hin) as Hv.
    unfold resolveMute. destruct (Cut m x0a) as [[k bf] [|]] eqn:E; [|done]. pose proof (Cut_spec _ _ _ _ _ E) as HC.
    destruct HC as [Hk ->]. apply ValidString_split in Hv as [Hv1 Hv2]; [|done].
    rewrite ValidString_app by by apply Hres. change ([x0a] ++ bf) with ([x0a] ++ bf). by rewrite ValidString_app.
Qed.

(** A row that a load accepts. *)
Definition read_rules (row : option gostring) : option RulesData :=
  match row with None => Some (MkRules [] false) | Some v => if isJSONObject v then unmarshalRules v else None end.
Definition read_filters (row : option gostring) : option FiltersData :=
  match row with None => Some no_filters | Some v => if isJSONObject v then unmarshalFilters v else None end.

Lemma load_rules_row rows : loadRulesChecked no_failure rows = Rules <$> read_rules (rows !! rulesKey).
Proof. unfold loadRulesChecked, SettingValue, no_failure. destruct (rows !! rulesKey); [simpl; by case_match|done]. Qed.
Lemma load_filters_row rows : loadFiltersChecked no_failure rows = read_filters (rows !! filtersKey).
Proof. unfold loadFiltersChecked, SettingValue, no_failure. by destruct (rows !! filtersKey). Qed.

Lemma rewriteRuleRefs_same rules o n : (rewriteRuleRefs rules o n).2 = false -> (rewriteRuleRefs rules o n).1 = rules.
Proof.
  unfold rewriteRuleRefs. cbn [fst snd]. induction rules as [|r rules IH]; [done|]. cbn [existsb fmap list_fmap].
  rewrite orb_false_iff. intros [-> H]. by rewrite IH.
Qed.

Lemma rewriteFilterRefs_same d d' o n : rewriteFilterRefs d o n = Some (d', false) -> d' = d.
Proof.
  unfold rewriteFilterRefs. destruct (Ignores d !! o) as [nicks|].
  - destruct (appendUnseen _ _ _) as [m1 s1], (appendUnseen m1 s1 nicks) as [m2 s2]. destruct (_ <? _); [done|]. intros [=].
  - intros [= <- Hex]. destruct d as [ig ms sd]. cbn in *. f_equal.
    induction ms as [|m ms IH]; [done|]. cbn [existsb fmap list_fmap] in *. apply orb_false_iff in Hex as [-> Hex]. f_equal. by apply IH.
Qed.

(** The writes come with the values to roll back to. *)
Definition records (rows : settings) (rw : renameWrites) : Prop :=
  forall k, rwRollback rw !! k = (fun _ => default §"{}" (rows !! k)) <$> rwSettings rw !! k.

Lemma rule_setting_rows fails o n rows rw rw' :
  renameRuleSetting fails o n rows rw = Some rw' -> records rows rw -> rwSettings rw !! rulesKey = None ->
  records rows rw' /\ (forall k, k <> rulesKey -> rwSettings rw' !! k = rwSettings rw !! k) /\
  exists d, read_rules (rows !! rulesKey) = Some d /\
    (rwSettings rw' !! rulesKey = None /\ (rewriteRuleRefs (Rules d) o n).1 = Rules d \/
     rwSettings rw' !! rulesKey = Some (marshalRules (MkRules (rewriteRuleRefs (Rules d) o n).1 (RSeeded d)))).
Proof.
  unfold renameRuleSetting, SettingValue, read_rules. destruct (fails rulesKey); [done|]. intros H Hr Hn. revert H. destruct (rows !! rulesKey) as [v|] eqn:Ev.
  - destruct (if isJSONObject v then unmarshalRules v else None) as [d|]; [|done]. pose proof (rewriteRuleRefs_same (Rules d) o n) as Hs.
    destruct (rewriteRuleRefs (Rules d) o n) as [rules [|]] eqn:Ec; intros [= <-]; cbn [rwSettings rwRollback] in *.
    + split_and!; [|intros k Hk; by rewrite lookup_insert_ne|exists d; rewrite Ec; split; [done|right; by rewrite lookup_insert_eq]].
      intros k. cbn [rwSettings rwRollback]. destruct (decide (k = rulesKey)) as [->|Hk]; [by rewrite !lookup_insert_eq, Ev|by rewrite !lookup_insert_ne].
    + split_and!; [done|done|exists d; rewrite Ec; auto].
  - intros [= <-]. split_and!; [done|done|]. exists (MkRules [] false). auto.
Qed.

Lemma filter_setting_rows fails o n rows rw rw' :
  renameFilterSetting fails o n rows rw = Some rw' -> records rows rw -> rwSettings rw !! filtersKey = None ->
  records rows rw' /\ (forall k, k <> filtersKey -> rwSettings rw' !! k = rwSettings rw !! k) /\
  exists d d' changed, read_filters (rows !! filtersKey) = Some d /\ rewriteFilterRefs d o n = Some (d', changed) /\
    (rwSettings rw' !! filtersKey = None /\ d' = d \/ rwSettings rw' !! filtersKey = Some (marshalFilters d')).
Proof.
  unfold renameFilterSetting, SettingValue, read_filters. destruct (fails filtersKey); [done|]. intros H Hr Hn. revert H. destruct (rows !! filtersKey) as [v|] eqn:Ev.
  - destruct (if isJSONObject v then unmarshalFilters v else None) as [d|]; [|done]. destruct (rewriteFilterRefs d o n) as [[d' [|]]|] eqn:Ec; [..|done]; intros [= <-]; cbn [rwSettings rwRollback] in *.
    + split_and!; [|intros k Hk; by rewrite lookup_insert_ne|exists d, d', true; split_and!; [done|done|right; by rewrite lookup_insert_eq]].
      intros k. cbn [rwSettings rwRollback]. destruct (decide (k = filtersKey)) as [->|Hk]; [by rewrite !lookup_insert_eq, Ev|by rewrite !lookup_insert_ne].
    + split_and!; [done|done|]. exists d, d', false. split_and!; [done|done|left]. by rewrite (rewriteFilterRefs_same _ _ _ _ Ec).
  - intros [= <-]. split_and!; [done|done|]. exists no_filters, no_filters, false. auto.
Qed.

(** What a rename commits, row by row. *)
Lemma rename_rows fails o n rows rw :
  computeRenameWrites fails o n rows = Some rw -> records rows rw /\
  (exists m, foldRenameMap (rows !! renamesKey) o n = Some m /\ rwSettings rw !! renamesKey = Some (marshalRenames m)) /\
  (exists d, read_rules (rows !! rulesKey) = Some d /\
     (rwSettings rw !! rulesKey = None /\ (rewriteRuleRefs (Rules d) o n).1 = Rules d \/
      rwSettings rw !! rulesKey = Some (marshalRules (MkRules (rewriteRuleRefs (Rules d) o n).1 (RSeeded d))))) /\
  (exists d d' changed, read_filters (rows !! filtersKey) = Some d /\ rewriteFilterRefs d o n = Some (d', changed) /\
     (rwSettings rw !! filtersKey = None /\ d' = d \/ rwSettings rw !! filtersKey = Some (marshalFilters d'))).
Proof.
  unfold computeRenameWrites. intros (rw1 & H1 & (rw2 & H2 & H3)%bind_Some)%bind_Some.
  unfold renameMapSetting, SettingValue in H1. destruct (fails renamesKey); [done|].
  destruct (foldRenameMap (rows !! renamesKey) o n) as [m|] eqn:Em; [|done]. injection H1 as <-. cbn [rwSettings rwRollback rwRules rwFilters] in *.
  destruct (rule_setting_rows _ _ _ _ _ _ H2) as (Hr2 & Hk2 & Hrules); [|done|].
  { intros k. cbn [rwSettings rwRollback]. destruct (decide (k = renamesKey)) as [->|]; [by rewrite !lookup_insert_eq|by rewrite !lookup_insert_ne, !lookup_empty]. }
  destruct (filter_setting_rows _ _ _ _ _ _ H3) as (Hr3 & Hk3 & Hfilters); [done|by rewrite Hk2|].
  split; [done|]. split; [|split].
  - exists m. split; [done|]. by rewrite Hk3, Hk2 by done.
  - destruct Hrules as (d & Hd & Hcase). exists d. split; [done|]. by rewrite Hk3.
  - done.
Qed.

Lemma rewrite_clean d d' changed o n : filters_clean d = true -> ValidString n = true -> rewriteFilterRefs d o n = Some (d', changed) -> filters_clean d' = true.
Proof.
  intros [Hi Hm]%filters_clean_spec Hn Hr. apply filters_clean_spec. unfold rewriteFilterRefs in Hr.
  destruct (match Ignores d !! o with Some _ => _ | None => _ end) as [[ig ch]|] eqn:Eig; [|done]. injection Hr as <- _. cbn [Ignores Mutes]. split.
  - destruct (Ignores d !! o) as [nicks|] eqn:Eo; [|by injection Eig as <- _].
    pose proof (appendUnseen_spec [] ∅ (default [] (delete o (Ignores d) !! n))) as H1. destruct (appendUnseen [] ∅ _) as [m1 s1]. destruct H1 as (_ & Hl1 & _ & _).
    pose proof (appendUnseen_spec m1 s1 nicks) as H2. destruct (appendUnseen m1 s1 nicks) as [m2 s2]. destruct H2 as (_ & Hl2 & _ & _).
    destruct (_ <? _); [done|]. injection Eig as <- _. intros k l. rewrite lookup_insert_Some. intros [[<- <-]|[_ [_ Hk]%lookup_delete_Some]]; [|by apply Hi].
    split; [done|]. intros x [[[]%not_elem_of_nil|[Hx _]]%Hl1|[Hx _]]%Hl2; [|by apply (Hi o nicks)].
    destruct (delete o (Ignores d) !! n) as [l|] eqn:El; [|by apply not_elem_of_nil in Hx]. apply lookup_delete_Some in El as [_ El]. by apply (Hi n l).
  - intros x (m & -> & Hin)%list_elem_of_fmap. pose proof (Hm m Hin) as Hv. destruct (HasPrefix m (o ++ [x0a])) eqn:Hp; [|done].
    apply HasPrefix_spec in Hp as [t ->]. rewrite TrimPrefix_app. rewrite <- app_assoc in Hv.
    apply (ValidString_split o x0a t) in Hv as [_ Ht]; [|done]. rewrite ValidString_app by done. by apply (eq_trans (ValidString_app [x0a] t eq_refl)).
Qed.

Lemma rewrite_rules_clean d o n : rules_clean d = true -> ValidString n = true -> rules_clean (MkRules (rewriteRuleRefs (Rules d) o n).1 (RSeeded d)) = true.
Proof.
  unfold rules_clean. cbn [Rules rewriteRuleRefs fst]. intros Hc Hn. rewrite forallb_forall in *.
  intros r (x & -> & Hx)%list_elem_of_In%list_elem_of_fmap. apply list_elem_of_In, Hc in Hx. case_bool_decide; [|done].
  cbn [Pattern RNetwork RID]. rewrite !andb_true_iff in *. tauto.
Qed.

Lemma read_clean_filters row d : read_filters row = Some d -> filters_clean d = true.
Proof. destruct row as [v|]; simpl; [case_match; [apply filters_decoded|done]|by intros [= <-]]. Qed.
Lemma read_clean_rules row d : read_rules row = Some d -> rules_clean d = true.
Proof. destruct row as [v|]; simpl; [case_match; [apply rules_decoded|done]|by intros [= <-]]. Qed.

(** C17. A rename takes the policies along.  When the rename of a network commits,
    what the push scheduler then reads mutes and ignores, under the new name, exactly
    what the old rows did under the old name or the new one; it highlights there
    exactly what they did; the other networks are as before and nothing is left
    filtered under the old name.  The rows to roll back to restore the old ones. *)
Theorem policy_follows_rename fails o n rows rw :
  o <> n -> o <> [] -> n <> [] -> x0a ∉ o -> x0a ∉ n -> ValidString n = true ->
  computeRenameWrites fails o n rows = Some rw ->
  let rows' := SetSettings (rwSettings rw) rows in
  (exists f f', loadFiltersChecked no_failure rows = Some f /\ loadFiltersChecked no_failure rows' = Some f' /\
     forall network buffer sender, x0a ∉ network ->
       drops (buildPushFilters f') network buffer sender =
         if network == n then drops (buildPushFilters f) o buffer sender || drops (buildPushFilters f) n buffer sender
         else if network == o then false else drops (buildPushFilters f) network buffer sender) /\
  (exists rules rules', loadRulesChecked no_failure rows = Some rules /\ loadRulesChecked no_failure rows' = Some rules' /\
     forall text nick network, network <> o ->
       highlightText text nick rules' network =
         if network == n then highlightText text nick rules o || highlightText text nick rules n else highlightText text nick rules network) /\
  (forall k, rows' !! k <> rows !! k -> SetSettings (rwRollback rw) rows' !! k = Some (default §"{}" (rows !! k))).
Proof.
  intros Hne Ho0 Hn0 Ho Hn Hv H. destruct (rename_rows _ _ _ _ _ H) as (Hrec & _ & (d & Hd & Hdr) & f & f' & ch & Hf & Hrw & Hfr). cbv zeta.
  set (rows' := SetSettings (rwSettings rw) rows).
  assert (forall k, rows' !! k = match rwSettings rw !! k with Some v => Some v | None => rows !! k end) as Hlk.
  { intros k. unfold rows', SetSettings. rewrite lookup_union. destruct (rwSettings rw !! k), (rows !! k); done. }
  split; [|split].
  - exists f, f'. rewrite !load_filters_row. split; [done|]. split.
    + rewrite Hlk. destruct Hfr as [[-> ->]| ->]; [done|]. simpl. rewrite filters_object. apply filters_roundtrip.
      eapply rewrite_clean; [|done|exact Hrw]. by eapply read_clean_filters.
    + intros network b s Hw. apply eq_true_iff_eq.
      assert (forall n', ignores f' network n' <-> if network == n then ignores f o n' \/ ignores f n n' else if network == o then False else ignores f network n') as Hi
        by (intros n'; by eapply rewrite_ignores).
      assert (muted f' network b <-> if network == n then muted f o b \/ muted f n b else if network == o then False else muted f network b) as Hmu by (by eapply rewrite_mutes).
      rewrite drops_spec, Hmu, Hi. repeat case_bool_decide; rewrite ?orb_true_iff, ?drops_spec; intuition discriminate.
  - exists (Rules d), (rewriteRuleRefs (Rules d) o n).1. rewrite !load_rules_row, Hd. split; [done|]. split.
    + rewrite Hlk. destruct Hdr as [[-> ->]| ->]; [by rewrite Hd|]. simpl. rewrite rules_object, rules_roundtrip; [done|].
      apply rewrite_rules_clean; [by eapply read_clean_rules|done].
    + intros text nick network Hno. rewrite rewrite_rules by done. rewrite (bool_decide_false (network = o)) by done. done.
  - intros k. rewrite Hlk. destruct (rwSettings rw !! k) as [v|] eqn:E; [|done]. intros _. unfold SetSettings at 1. rewrite lookup_union, Hrec, E. simpl.
    by destruct (rows' !! k).
Qed.

(** The settings after a series of committed renames. *)
Fixpoint rename_all (fails : gostring -> bool) (renames : list (gostring * gostring)) (rows : settings) : option settings :=
  match renames with
  | [] => Some rows
  | (o, n) :: renames =>
      match computeRenameWrites fails o n rows with
      | Some rw => rename_all fails renames (SetSettings (rwSettings rw) rows)
      | None => None
      end
  end.

(** The map that a row holds. *)
Definition map_row (row : option gostring) (m : gmap gostring gostring) : Prop :=
  names_clean m = true /\ match row with None => m = ∅ | Some v => v = marshalRenames m end.

Lemma isJSONObject_nonblank v : isJSONObject v = true -> (TrimSpace v == []) = false.
Proof. unfold isJSONObject. destruct (TrimSpace v); [done|]. by rewrite bool_decide_false. Qed.

Lemma map_row_fold row m o n m' :
  map_row row m -> (size m < 128)%nat -> foldRenameMap row o n = Some m' -> m' = fold_names o n m.
Proof.
  intros [Hc Hrow] Hs. unfold foldRenameMap.
  assert (match row with None => Some ∅ | Some v => if TrimSpace v == [] then Some ∅ else if isJSONObject v then unmarshalRenames v else None end = Some m) as ->.
  { destruct row as [v|]; [subst v|by rewrite Hrow]. rewrite (isJSONObject_nonblank _ (renames_object m)), renames_object. by apply renames_roundtrip. }
  destruct (fold_names_size o n m) as [Hd _]. rewrite (proj2 (Z.leb_gt _ _)) by (unfold maxNetworkRenames; lia). by intros [= <-].
Qed.

Definition name_ok (x : gostring) : Prop := ValidString x = true /\ x0a ∉ x.

Lemma rename_all_map fails renames rows rows' m :
  Forall (fun r => name_ok r.1 /\ name_ok r.2) renames -> map_row (rows !! renamesKey) m -> (size m + length renames <= 128)%nat ->
  rename_all fails renames rows = Some rows' -> map_row (rows' !! renamesKey) (fold_all renames m).
Proof.
  revert rows m. induction renames as [|[o n] renames IH]; intros rows m Hd Hm Hs; cbn [rename_all]; [by intros [= <-]|].
  inversion_clear Hd as [|? ? [[Ho _] [Hn _]] Hd']. cbn [fst snd] in *.
  destruct (computeRenameWrites fails o n rows) as [rw|] eqn:E; [|done]. destruct (rename_rows _ _ _ _ _ E) as (_ & (m' & Hf & Hr) & _).
  cbn [length] in Hs. rewrite (map_row_fold _ _ _ _ _ Hm ltac:(lia) Hf) in Hr.
  apply (IH _ (fold_names o n m)); [done| |pose proof (fold_names_size o n m); lia].
  split; [|by unfold SetSettings; rewrite (lookup_union_Some_l _ _ _ _ Hr)].
  apply names_clean_spec. apply fold_names_values; [by apply names_clean_spec, Hm|done..].
Qed.

Lemma map_row_load fails rows m renames :
  map_row (rows !! renamesKey) m -> loadRenameMapChecked fails rows = Some renames -> renames = m.
Proof.
  intros [Hc Hrow]. unfold loadRenameMapChecked, SettingValue. destruct (fails renamesKey); [done|]. destruct (rows !! renamesKey) as [v|]; [subst v|by intros [= <-]].
  rewrite (isJSONObject_nonblank _ (renames_object m)), renames_object, renames_roundtrip by done. by intros [= <-].
Qed.

Lemma set_filters_stores fails order d rows acts rows' :
  handleSetFilters fails order (Some d) true rows = (PPush POk :: acts, rows') ->
  exists renames out rw mutes rw', loadRenameMapChecked fails rows = Some renames /\ canonicalIgnores (order (Ignores d)) renames = inr (out, rw) /\
    canonicalMutes (Mutes d) renames = Some (mutes, rw') /\ rows' = SetSetting filtersKey (marshalFilters (MkFilters out mutes false)) rows.
Proof.
  unfold handleSetFilters. destruct (_ || _); [done|]. destruct (loadRenameMapChecked fails rows) as [renames|]; [|done].
  destruct (canonicalIgnores _ _) as [|[out rw]] eqn:Ei; [done|]. destruct (canonicalMutes _ _) as [[mutes rw']|] eqn:Em; [|done].
  cbn [negb]. intros [= _ <-]. eauto 10.
Qed.

(** A stale write heals.  After up to 128 renames of networks, a browser stores
    ignore and mute lists that still name networks as they were called before.  What
    its lists exclude under a name given up in between is then excluded under the
    name that the network has now, and what they exclude under a name in use stays
    excluded under that name, even if other networks bore it before. *)
Theorem stale_filters_heal fails fails' order d renames rows rows1 rows2 acts :
  rows !! renamesKey = None -> (length renames <= 128)%nat ->
  Forall (fun r => r.1 <> r.2 /\ name_ok r.1 /\ name_ok r.2) renames -> rename_all fails renames rows = Some rows1 ->
  filters_clean d = true -> order (Ignores d) ≡ₚ map_to_list (Ignores d) ->
  handleSetFilters fails' order (Some d) true rows1 = (PPush POk :: acts, rows2) ->
  exists f, loadFiltersChecked no_failure rows2 = Some f /\
    (forall x n before after buffer sender, renames = before ++ (x, n) :: after -> x ∉ after.*1 -> x ∉ after.*2 ->
       drops (buildPushFilters d) x buffer sender = true -> drops (buildPushFilters f) (track n after) buffer sender = true) /\
    (forall x o before after buffer sender, renames = before ++ (o, x) :: after -> x ∉ after.*1 ->
       drops (buildPushFilters d) x buffer sender = true -> drops (buildPushFilters f) x buffer sender = true) /\
    (forall x buffer sender, x0a ∉ x -> x ∉ renames.*1 ->
       drops (buildPushFilters d) x buffer sender = true -> drops (buildPushFilters f) x buffer sender = true).
Proof.
  intros Hrow Hlen Hok Hren Hd Hord Hset.
  assert (Forall (fun r => r.1 <> r.2) renames) as Hne by (eapply Forall_impl; [exact Hok|naive_solver]).
  assert (Forall (fun r => name_ok r.1 /\ name_ok r.2) renames) as Hn by (eapply Forall_impl; [exact Hok|naive_solver]).
  assert (map_row (rows1 !! renamesKey) (fold_all renames ∅)) as Hmap.
  { eapply rename_all_map; [exact Hn| |rewrite map_size_empty; simpl; lia|exact Hren]. rewrite Hrow. by split. }
  destruct (set_filters_stores _ _ _ _ _ _ Hset) as (m & out & rw & mutes & rw' & Hm & Hi & Hmu & ->).
  apply (map_row_load _ _ _ _ Hmap) in Hm as ->.
  exists (MkFilters out mutes false). split.
  { rewrite load_filters_row. unfold SetSetting. rewrite lookup_insert_eq. cbn [read_filters]. rewrite filters_object. apply filters_roundtrip.
    eapply canonical_clean; [exact Hord|done|by apply Hmap|exact Hi|exact Hmu]. }
  assert (forall x b s, x0a ∉ x -> drops (buildPushFilters d) x b s = true -> drops (buildPushFilters (MkFilters out mutes false)) (resolveRenamed (fold_all renames ∅) x) b s = true) as Hdr
    by (intros; by eapply canonical_drops).
  split_and!.
  - intros x n before after b s -> H1 H2 Hx. apply Forall_app in Hne as [_ [Hxn Hne]%Forall_cons]. apply Forall_app in Hn as [_ [[[_ Hx0] _] _]%Forall_cons]. cbn [fst snd] in *.
    apply Hdr in Hx; [|done]. rewrite fold_all_app in Hx. change (fold_all ((x, n) :: after) ?m) with (fold_all after (fold_names x n m)) in Hx.
    rewrite fold_all_track in Hx by done. rewrite fold_names_resolve in Hx by done. rewrite (bool_decide_false (x = n)), (bool_decide_true (x = x)) in Hx by done. done.
  - intros x o before after b s -> H1 Hx. apply Forall_app in Hne as [_ [Hxn Hne]%Forall_cons]. apply Forall_app in Hn as [_ [[_ [_ Hx0]] _]%Forall_cons]. cbn [fst snd] in *.
    apply Hdr in Hx; [|done]. rewrite fold_all_app in Hx. change (fold_all ((o, x) :: after) ?m) with (fold_all after (fold_names o x m)) in Hx.
    rewrite fold_all_live in Hx; [done|done|done|]. rewrite fold_names_resolve by done. by rewrite bool_decide_true.
  - intros x b s Hx0 H1 Hx. apply Hdr in Hx; [|done]. rewrite fold_all_live in Hx; [done|done|done|done].
Qed.

End theorems.
