(* ===== verification/Push.v ===== *)
(** * Web Push scheduling: internal/hub/push.go

    A highlight or a private message starts a countdown for its buffer.  The scheduler
    owns the pending entries: it coalesces, cancels on read markers, closes and
    redactions, sweeps when the policies change, and hands what is due to four workers
    over a bounded queue.  A worker reads the store again before every request it makes.
    The scheduler and the operations of a worker are the steps of a transition system,
    interleaved with everything else the program does. *)

From S2P Require Import Prelude GoStrings GoUtf8 GoNet GoBase64 GoJson Ring Store StoreQuery Highlight HubRoute Hub Policy.

Definition pushDelay : Z := 20 * 1000000000.
Definition pushTTLSeconds : Z := 3600.
Definition maxPendingPushes : Z := 64.
Definition maxPushTextBytes : nat := 256.
Definition maxConcurrentDeliveries : nat := 4.
Definition pushJobQueue : Z := maxPendingPushes.
Definition MaxPlaintext : Z := 4096 - 86 - 1 - 16.

(** Times are nanoseconds of the clock; [ppTS] and [ppNewestTS] are milliseconds of the
    stored messages. *)
Record pendingPush := MkPending {
  fireAt : Z; ppSender : gostring; ppText : gostring; ppMsgID : gostring; ppNick : gostring;
  ppTS : Z; ppNewestTS : Z; ppCount : Z; ppChannelLike : bool; ppRulesGen : Z
}.
Abbreviation pendings := (gmap gostring pendingPush).

Definition push_key (network buffer : gostring) : gostring := network ++ [x00] ++ buffer.
Definition key_network (key : gostring) : gostring := (Cut key x00).1.1.
Definition key_buffer (key : gostring) : gostring := (Cut key x00).1.2.

(** One more highlight of the same buffer. *)
Definition coalesce (ts : Z) (p : pendingPush) : pendingPush :=
  MkPending (fireAt p) (ppSender p) (ppText p) (ppMsgID p) (ppNick p) (ppTS p) (Z.max (ppNewestTS p) ts) (ppCount p + 1) (ppChannelLike p) (ppRulesGen p).
(** The headline was redacted. *)
Definition scrub (p : pendingPush) : pendingPush :=
  MkPending (fireAt p) [] [] [] (ppNick p) (ppTS p) (ppNewestTS p) (ppCount p - 1) (ppChannelLike p) (ppRulesGen p).

(** ** The scheduler *)

Section scheduler.
Context {Huni : Unicode}.

Definition admitCandidate (pending : pendings) (network : gostring) (c : pushCandidate) (rules : list Rule) (filters : pushFilters)
    (filtersOK : bool) (now delay rulesGen : Z) : pendings * bool :=
  if negb filtersOK then (pending, false)
  else if drops filters network (pcBuffer c) (pcSender c) then (pending, false)
  else if pcChannelLike c && negb (highlightText (pcText c) (pcNick c) rules network) then (pending, false)
  else
    let key := push_key network (pcBuffer c) in
    match pending !! key with
    | Some p => (<[key := coalesce (pcTS c) p]> pending, false)
    | None =>
        if maxPendingPushes <=? Z.of_nat (size pending) then (pending, false)
        else
          (<[key := MkPending (now + delay) (pcSender c) (pcText c) (pcMsgID c) (pcNick c) (pcTS c) (pcTS c) 1 (pcChannelLike c) rulesGen]> pending, true)
    end.

Definition applyPushCancel (pending : pendings) (network buffer msgid : gostring) : pendings * bool :=
  if buffer == [] then
    let prefix := network ++ [x00] in
    let kept := filter (fun kp => HasPrefix kp.1 prefix = false) pending in
    (kept, negb (size kept =? size pending)%nat)
  else
    let key := push_key network buffer in
    match pending !! key with
    | None => (pending, false)
    | Some p =>
        if msgid == [] then (delete key pending, true)
        else if (ppMsgID p == []) || (ppMsgID p != msgid) then (pending, false)
        else if ppCount p =? 1 then (delete key pending, true)
        else (<[key := scrub p]> pending, false)
    end.

(** Whether the configuration now excludes an entry. *)
Definition swept (rules : list Rule) (filters : pushFilters) (key : gostring) (p : pendingPush) : bool :=
  drops filters (key_network key) (key_buffer key) (ppSender p)
  || (ppChannelLike p && (ppCount p =? 1) && (ppText p != []) && negb (highlightText (ppText p) (ppNick p) rules (key_network key))).

Definition sweepFilteredPending (pending : pendings) (rules : list Rule) (filters : pushFilters) : pendings * bool :=
  let kept := filter (fun kp => swept rules filters kp.1 kp.2 = false) pending in
  (kept, negb (size kept =? size pending)%nat).

(** A read marker moved to [ts]. *)
Definition markerAdvance (pending : pendings) (network buffer : gostring) (ts : Z) : pendings * bool :=
  let key := push_key network buffer in
  match pending !! key with
  | Some p => if ppNewestTS p <=? ts then (delete key pending, true) else (pending, false)
  | None => (pending, false)
  end.

(** The deadline the timer is set to, if any. *)
Definition rearmPushTimer (pending : pendings) : option Z :=
  map_fold (fun _ p next => match next with Some t => if fireAt p <? t then Some (fireAt p) else Some t | None => Some (fireAt p) end) None pending.

Record pushJob := MkJob { jKey : gostring; jP : pendingPush }.

(** [order] is the order in which the code ranges over the entries; a full queue drops. *)
Fixpoint enqueueDuePushes (now : Z) (order : list (gostring * pendingPush)) (pending : pendings) (jobs : list pushJob) : pendings * list pushJob :=
  match order with
  | [] => (pending, jobs)
  | (key, p) :: order =>
      if now <? fireAt p then enqueueDuePushes now order pending jobs
      else enqueueDuePushes now order (delete key pending) (if len jobs <? pushJobQueue then jobs ++ [MkJob key p] else jobs)
  end.

(** What a reload keeps: [None] is an unreadable row. *)
Definition reloadPushConfig (rules : option (list Rule)) (filters : option FiltersData) (prevRules : list Rule) (prevFilters : pushFilters) (prevOK : bool)
    : list Rule * pushFilters * bool :=
  (default prevRules rules,
   match filters with Some f => buildPushFilters f | None => prevFilters end,
   match filters with Some _ => true | None => prevOK end).

Definition truncatePushText (s : gostring) : gostring :=
  if (length s <=? maxPushTextBytes)%nat then s
  else
    (fix back (i : nat) : gostring :=
       match i with
       | O => []
       | S j => if match s !! i with Some c => negb (RuneStart c) | None => false end then back j else take i s
       end) maxPushTextBytes.

Definition push_payload (key : gostring) (p : pendingPush) : gostring :=
  jsonObject ([json_field §"network" (jsonString (key_network key)); json_field §"buffer" (jsonString (key_buffer key));
               json_field §"sender" (jsonString (ppSender p)); json_field §"text" (jsonString (truncatePushText (stripCodes (ppText p))));
               json_field §"ts" (Itoa (ppTS p))]
    ++ json_omit (ppMsgID p == []) (json_field §"msgid" (jsonString (ppMsgID p)))
    ++ [json_field §"count" (Itoa (ppCount p)); json_field §"channel" (jsonBool (ppChannelLike p))]).

End scheduler.

(** ** The rest of the program as a worker sees it *)

Record PushSubscription := MkSubscription { Endpoint : gostring; P256dh : gostring; Auth : gostring }.

(** base64.RawURLEncoding.DecodeString. *)
Definition rawURLDecode (s : gostring) : option gostring :=
  let s := List.filter (fun c => negb (is_crlf c)) s in
  if ContainsByte s x2b || ContainsByte s x2f || ContainsByte s padChar then None
  else
    let std := (fun c => match c with x2d => x2b | x5f => x2f | _ => c end) <$> s in
    DecodeString (std ++ repeat padChar ((4 - length s mod 4) mod 4)).

(** A revocation of subscriptions (a rotation, a logout that names its endpoint): the
    rows are gone; the epoch has moved; [BumpPushEpoch] has returned. *)
Inductive stage := Committed | Bumped | Revoked.

(** [wGen] numbers the current context of deliveries: those before it are cancelled. *)
Record World := MkWorld {
  wStore : Store; wRows : settings; wSubs : list PushSubscription; wCount : Z; wRulesGen : Z;
  wEpoch : Z; wGen : Z; wRevs : list stage
}.
Definition live (w : World) (gen : Z) : bool := gen =? wGen w.

Definition set_subs (subs : list PushSubscription) (w : World) : World :=
  MkWorld (wStore w) (wRows w) subs (wCount w) (wRulesGen w) (wEpoch w) (wGen w) (wRevs w).
Definition set_count (n : Z) (w : World) : World :=
  MkWorld (wStore w) (wRows w) (wSubs w) n (wRulesGen w) (wEpoch w) (wGen w) (wRevs w).
Definition set_wstore (st : Store) (w : World) : World :=
  MkWorld st (wRows w) (wSubs w) (wCount w) (wRulesGen w) (wEpoch w) (wGen w) (wRevs w).
Definition bump_rules (w : World) : World :=
  MkWorld (wStore w) (wRows w) (wSubs w) (wCount w) ((wRulesGen w + 1) mod 2 ^ 64) (wEpoch w) (wGen w) (wRevs w).

(** The two halves of [BumpPushEpoch]: the counter, and under its mutex the contexts. *)
Definition bump_epoch (i : nat) (w : World) : World :=
  MkWorld (wStore w) (wRows w) (wSubs w) (wCount w) (wRulesGen w) ((wEpoch w + 1) mod 2 ^ 64) (wGen w) (<[i := Bumped]> (wRevs w)).
Definition cancel_gen (i : nat) (w : World) : World :=
  MkWorld (wStore w) (wRows w) (wSubs w) (wCount w) (wRulesGen w) (wEpoch w) (wGen w + 1) (<[i := Revoked]> (wRevs w)).

(** What the rest of the program does between two steps: anything to the store, the
    settings, the subscriptions and the cached count, and revocations step by step. *)
Inductive env : World -> World -> Prop :=
  | env_data w st rows subs n :
      env w (MkWorld st rows subs n (wRulesGen w) (wEpoch w) (wGen w) (wRevs w))
  | env_commit w subs :
      env w (MkWorld (wStore w) (wRows w) subs (wCount w) (wRulesGen w) (wEpoch w) (wGen w) (wRevs w ++ [Committed]))
  | env_bump w i : wRevs w !! i = Some Committed -> env w (bump_epoch i w)
  | env_cancel w i : wRevs w !! i = Some Bumped -> env w (cancel_gen i w).

(** ** What a worker does *)

Inductive encrypted := Body (b : gostring) | BadKeys | EncryptFailed.
Inductive sent := SentOk | SentGone | SentFailed.

Inductive op :=
  | LoadEpoch
  | LoadSubscriptions
  | CurrentPushGen
  | GenErr (gen : Z)
  | LoadCount
  | LoadMarker (network buffer : gostring)
  | LoadBufferState (network buffer : gostring)
  | LoadRedacted (network buffer msgid : gostring)
  | LoadFilters
  | LoadRulesGen
  | LoadRules
  | Encrypt (payload p256dh auth : gostring)
  | Send (gen : Z) (endpoint p256dh auth body : gostring)
  | TouchPushSuccess (gen : Z) (endpoint : gostring)
  | DeleteSubscription (gen : Z) (endpoint : gostring)
  | RefreshCount (gen : Z).

(** [option] where the operation can fail. *)
Definition answer (o : op) : Type :=
  match o with
  | LoadEpoch | CurrentPushGen | LoadCount | LoadRulesGen => Z
  | LoadSubscriptions => option (list PushSubscription)
  | GenErr _ => bool
  | LoadMarker _ _ => option (option Z)
  | LoadBufferState _ _ => option (option bool)
  | LoadRedacted _ _ _ => option bool
  | LoadFilters => option FiltersData
  | LoadRules => option (list Rule)
  | Encrypt _ _ _ => encrypted
  | Send _ _ _ _ _ => sent
  | TouchPushSuccess _ _ | RefreshCount _ => unit
  | DeleteSubscription _ _ => bool
  end.

(** A worker's program: what it does next, and how it goes on with the answer. *)
Inductive prog (A : Type) : Type :=
  | Ret (a : A)
  | Do (o : op) (k : answer o -> prog A).
Arguments Ret {A} a.
Arguments Do {A} o k.

Fixpoint bind {A B} (m : prog A) (f : A -> prog B) : prog B :=
  match m with Ret a => f a | Do o k => Do o (fun a => bind (k a) f) end.
Definition call (o : op) : prog (answer o) := Do o Ret.
Notation "'let*' x ':=' m 'in' k" := (bind m (fun x => k)) (at level 10, x name, m at level 100, k at level 200).

Section worker.
Context {Huni : Unicode} {Hjson : PolicyJson}.
Variable lim : limits.

(** What an operation may answer in a world, and the world it leaves.  Operations that
    take the context of a delivery fail once it is cancelled. *)
Definition answers (w : World) (o : op) : answer o -> World -> Prop :=
  match o with
  | LoadEpoch => fun a w' => a = wEpoch w /\ w' = w
  | CurrentPushGen => fun a w' => a = wGen w /\ w' = w
  | LoadCount => fun a w' => a = wCount w /\ w' = w
  | LoadRulesGen => fun a w' => a = wRulesGen w /\ w' = w
  | LoadSubscriptions => fun a w' => (a = None \/ a = Some (wSubs w)) /\ w' = w
  | GenErr gen => fun a w' => a = negb (live w gen) /\ w' = w
  | LoadMarker network buffer => fun a w' =>
      let '(m, st) := ReadMarker lim network buffer (wStore w) in (a = None \/ a = Some m) /\ w' = set_wstore st w
  | LoadBufferState network buffer => fun a w' =>
      let '(b, st) := BufferState lim network buffer (wStore w) in (a = None \/ a = Some b) /\ w' = set_wstore st w
  | LoadRedacted network buffer msgid => fun a w' =>
      let '(r, st) := MessageRedacted lim network buffer msgid (wStore w) in (a = None \/ a = Some r) /\ w' = set_wstore st w
  | LoadFilters => fun a w' => (exists fails, a = loadFiltersChecked fails (wRows w)) /\ w' = w
  | LoadRules => fun a w' => (exists fails, a = loadRulesChecked fails (wRows w)) /\ w' = w
  | Encrypt _ _ _ => fun a w' => w' = w
  | Send gen _ _ _ _ => fun a w' => (live w gen = false -> a = SentFailed) /\ w' = w
  | TouchPushSuccess _ _ => fun a w' => w' = w
  | DeleteSubscription gen endpoint => fun a w' =>
      a = false /\ w' = w \/ live w gen = true /\ a = true /\ w' = set_subs (List.filter (fun s => Endpoint s != endpoint) (wSubs w)) w
  | RefreshCount gen => fun _ w' => w' = w \/ live w gen = true /\ w' = set_count (len (wSubs w)) w
  end.

(** [None] when the push is off; otherwise the entry, its headline scrubbed when it was
    redacted.  An unset marker is [None] too. *)
Definition pushStillDue (network buffer : gostring) (p : pendingPush) : prog (option pendingPush) :=
  let* t := call (LoadMarker network buffer) in
  if match t with Some (Some ms) => ppNewestTS p <=? ms | _ => false end then Ret None
  else
    let* st := call (LoadBufferState network buffer) in
    match st with
    | Some (Some false) =>
        if ppMsgID p == [] then Ret (Some p)
        else
          let* r := call (LoadRedacted network buffer (ppMsgID p)) in
          match r with
          | None => Ret None
          | Some false => Ret (Some p)
          | Some true => if ppCount p =? 1 then Ret None else Ret (Some (scrub p))
          end
    | _ => Ret None
    end.

(** The answer comes with the entry as the checks leave it. *)
Definition deliveryStillAllowed (network buffer : gostring) (p : pendingPush) : prog (bool * pendingPush) :=
  let* n := call LoadCount in
  if n =? 0 then Ret (false, p)
  else
    let* due := pushStillDue network buffer p in
    match due with
    | None => Ret (false, p)
    | Some p =>
        let* f := call LoadFilters in
        match f with
        | None => Ret (false, p)
        | Some f =>
            if drops (buildPushFilters f) network buffer (ppSender p) then Ret (false, p)
            else if ppChannelLike p && (ppText p == []) then
              let* g := call LoadRulesGen in
              Ret (ppRulesGen p =? g, p)
            else if ppChannelLike p then
              let* rules := call LoadRules in
              match rules with
              | None => Ret (false, p)
              | Some rules => Ret (highlightText (ppText p) (ppNick p) rules network, p)
              end
            else Ret (true, p)
        end
    end.

Definition prunePushSubscription (gen : Z) (endpoint : gostring) : prog unit :=
  let* ok := call (DeleteSubscription gen endpoint) in
  if ok then call (RefreshCount gen) else Ret tt.

(** The pruning of [pushToSubscription], gated on the epoch. *)
Definition prune (gen epoch : Z) (endpoint : gostring) : prog unit :=
  let* e := call LoadEpoch in
  if e =? epoch then prunePushSubscription gen endpoint else Ret tt.

Definition pushToSubscription (gen : Z) (sub : PushSubscription) (payload : gostring) (epoch : Z) : prog unit :=
  match rawURLDecode (P256dh sub), rawURLDecode (Auth sub) with
  | Some p256dh, Some auth =>
      let* body := call (Encrypt payload p256dh auth) in
      match body with
      | BadKeys => prune gen epoch (Endpoint sub)
      | EncryptFailed => Ret tt
      | Body b =>
          let* r := call (Send gen (Endpoint sub) p256dh auth b) in
          match r with
          | SentOk => call (TouchPushSuccess gen (Endpoint sub))
          | SentGone => prune gen epoch (Endpoint sub)
          | SentFailed => Ret tt
          end
      end
  | _, _ => prune gen epoch (Endpoint sub)
  end.

(** The loop over the subscriptions. *)
Fixpoint deliver_all (key : gostring) (p : pendingPush) (gen epoch : Z) (subs : list PushSubscription) : prog unit :=
  match subs with
  | [] => Ret tt
  | sub :: subs =>
      let* e := call LoadEpoch in
      if negb (e =? epoch) then Ret tt
      else
        let* cancelled := call (GenErr gen) in
        if cancelled then Ret tt
        else
          let* allowed := deliveryStillAllowed (key_network key) (key_buffer key) p in
          let '(ok, p) := allowed in
          if negb ok then Ret tt
          else
            let payload := push_payload key p in
            if MaxPlaintext <? len payload then Ret tt
            else
              let* _ := pushToSubscription gen sub payload epoch in
              deliver_all key p gen epoch subs
  end.

Definition deliverPush (job : pushJob) : prog unit :=
  let* epoch := call LoadEpoch in
  let* subs := call LoadSubscriptions in
  match subs with
  | None => Ret tt
  | Some subs =>
      let* gen := call CurrentPushGen in
      deliver_all (jKey job) (jP job) gen epoch subs
  end.

(** ** The system *)

(** One operation of a worker: the world it ran in, and what it answered. *)
Record event := MkEvent { evWorld : World; evOp : op; evAnswer : answer evOp }.

(** A worker with its job, what it has done for it, and what it does next. *)
Record worker := MkWorker { wkJob : pushJob; wkLog : list event; wkNext : prog unit }.

(** The scheduler with its timer, [scReload] holding what a reload under way has read so
    far, and the latest reading of the clock. *)
Record Pusher := MkPusher {
  scPending : pendings; scRules : list Rule; scFilters : pushFilters; scFiltersOK : bool; scReload : option (option (list Rule));
  scTimer : option Z; scJobs : list pushJob; scWorkers : list (option worker); scNow : Z
}.

(** The entries after an event, the timer set again when the event says so. *)
Definition set_pending (r : pendings * bool) (s : Pusher) : Pusher :=
  MkPusher r.1 (scRules s) (scFilters s) (scFiltersOK s) (scReload s) (if r.2 then rearmPushTimer r.1 else scTimer s) (scJobs s) (scWorkers s) (scNow s).
Definition set_now (now : Z) (s : Pusher) : Pusher :=
  MkPusher (scPending s) (scRules s) (scFilters s) (scFiltersOK s) (scReload s) (scTimer s) (scJobs s) (scWorkers s) now.
Definition set_worker (i : nat) (wk : option worker) (s : Pusher) : Pusher :=
  MkPusher (scPending s) (scRules s) (scFilters s) (scFiltersOK s) (scReload s) (scTimer s) (scJobs s) (<[i := wk]> (scWorkers s)) (scNow s).
Definition set_jobs (jobs : list pushJob) (s : Pusher) : Pusher :=
  MkPusher (scPending s) (scRules s) (scFilters s) (scFiltersOK s) (scReload s) (scTimer s) jobs (scWorkers s) (scNow s).
Definition set_reload (r : option (option (list Rule))) (s : Pusher) : Pusher :=
  MkPusher (scPending s) (scRules s) (scFilters s) (scFiltersOK s) r (scTimer s) (scJobs s) (scWorkers s) (scNow s).
Definition set_config (rules : list Rule) (filters : pushFilters) (ok : bool) (s : Pusher) : Pusher :=
  MkPusher (scPending s) rules filters ok None (scTimer s) (scJobs s) (scWorkers s) (scNow s).

(** The steps of [runPusher] and its workers, in a world that others change.  The names
    of networks have no control characters ([validateNetworkName]). *)
Inductive push_step (delay : Z) : World * Pusher -> World * Pusher -> Prop :=
  | ps_env w w' s : env w w' -> push_step delay (w, s) (w', s)
  | ps_clock w s now : scNow s <= now -> push_step delay (w, s) (w, set_now now s)
  | ps_candidate w s network c :
      scReload s = None -> x00 ∉ network ->
      push_step delay (w, s)
        (w, set_pending (admitCandidate (scPending s) network c (scRules s) (scFilters s) (scFiltersOK s) (scNow s) delay (wRulesGen w)) s)
  | ps_marker w s network buffer ts :
      scReload s = None -> push_step delay (w, s) (w, set_pending (markerAdvance (scPending s) network buffer ts) s)
  | ps_cancel w s network buffer msgid :
      scReload s = None -> push_step delay (w, s) (w, set_pending (applyPushCancel (scPending s) network buffer msgid) s)
  | ps_reload w s fails :
      scReload s = None -> push_step delay (w, s) (w, set_reload (Some (loadRulesChecked fails (wRows w))) s)
  | ps_reloaded w s r fails rules filters ok :
      scReload s = Some r ->
      reloadPushConfig r (loadFiltersChecked fails (wRows w)) (scRules s) (scFilters s) (scFiltersOK s) = (rules, filters, ok) ->
      push_step delay (w, s) (bump_rules w, set_pending (sweepFilteredPending (scPending s) rules filters) (set_config rules filters ok s))
  | ps_timer w s order t pending jobs :
      scReload s = None -> scTimer s = Some t -> t <= scNow s -> order ≡ₚ map_to_list (scPending s) ->
      enqueueDuePushes (scNow s) order (scPending s) (scJobs s) = (pending, jobs) ->
      push_step delay (w, s) (w, set_jobs jobs (set_pending (pending, true) s))
  | ps_take w s i job jobs :
      scJobs s = job :: jobs -> scWorkers s !! i = Some None ->
      push_step delay (w, s) (w, set_worker i (Some (MkWorker job [] (deliverPush job))) (set_jobs jobs s))
  | ps_work w w' s i job log o k a :
      scWorkers s !! i = Some (Some (MkWorker job log (Do o k))) -> answers w o a w' ->
      push_step delay (w, s) (w', set_worker i (Some (MkWorker job (log ++ [MkEvent w o a]) (k a))) s)
  | ps_done w s i job log :
      scWorkers s !! i = Some (Some (MkWorker job log (Ret tt))) -> push_step delay (w, s) (w, set_worker i None s).

(** The pusher starts with the configuration it could read. *)
Definition startPusher (rules : option (list Rule)) (filters : option FiltersData) (now : Z) : Pusher :=
  let '(rules, filters, ok) := reloadPushConfig rules filters [] (MkPushFilters ∅ ∅) false in
  MkPusher ∅ rules filters ok None None [] (repeat None maxConcurrentDeliveries) now.

(** [old] revocations were complete before. *)
Inductive push_reachable (delay : Z) : World * Pusher -> Prop :=
  | pr_start st rows subs n gen old fr ff now :
      push_reachable delay
        (MkWorld st rows subs n gen (Z.of_nat old mod 2 ^ 64) (Z.of_nat old) (repeat Revoked old), startPusher (loadRulesChecked fr rows) (loadFiltersChecked ff rows) now)
  | pr_step x y : push_reachable delay x -> push_step delay x y -> push_reachable delay y.

End worker.
