(* ===== verification/PushProofs.v ===== *)
(** * What a notification that leaves has been checked for

    Before each request a worker has read, since its previous one, that the message is
    unread, visible, not redacted, not filtered and still a highlight; and endpoints
    read before a revocation are never contacted after it. *)

From S2P Require Import Prelude GoStrings GoUtf8 GoNet Ring Store StoreQuery Highlight HubRoute Hub Policy PolicyProofs Push.

Section gate.
Context {Huni : Unicode} {Hjson : PolicyJson}.
Variable lim : limits.

(** [m] goes on from the log [l] keeping [I] before each operation, and ends in [Q]. *)
Fixpoint wp {A} (I : list event -> op -> Prop) (m : prog A) (Q : A -> list event -> Prop) (l : list event) : Prop :=
  match m with
  | Ret a => Q a l
  | Do o k => I l o /\ forall w a w', answers lim w o a w' -> wp I (k a) Q (l ++ [MkEvent w o a])
  end.

Lemma wp_mono {A} I (m : prog A) (Q Q' : A -> list event -> Prop) l : wp I m Q l -> (forall a l, Q a l -> Q' a l) -> wp I m Q' l.
Proof. revert l. induction m as [a|o k IH]; simpl; intros l H HQ; [by apply HQ|]. destruct H as [HI H]. split; [done|]. intros. eapply IH; eauto. Qed.

Lemma wp_bind {A B} I (m : prog A) (f : A -> prog B) Q l : wp I m (fun a l => wp I (f a) Q l) l -> wp I (bind m f) Q l.
Proof. revert l. induction m as [a|o k IH]; simpl; intros l H; [done|]. destruct H as [HI H]. split; [done|]. intros. apply IH. eauto. Qed.

Lemma wp_call {B} I o (f : answer o -> prog B) Q l :
  I l o -> (forall w a w', answers lim w o a w' -> wp I (f a) Q (l ++ [MkEvent w o a])) -> wp I (bind (call o) f) Q l.
Proof. intros HI H. apply wp_bind. simpl. split; [done|]. intros w a w' Ha. by eapply H. Qed.

(** ** One round of checks *)

Definition is_request (o : op) : bool := match o with Send _ _ _ _ _ | DeleteSubscription _ _ => true | _ => false end.
Definition no_requests (l : list event) : Prop := Forall (fun e => is_request (evOp e) = false) l.

(** What the events of a round say of the entry they leave. *)
Record gate_open (network buffer : gostring) (p : pendingPush) (g : list event) : Prop := {
  go_quiet : no_requests g;
  go_unread : exists w t, MkEvent w (LoadMarker network buffer) t ∈ g /\ match t with Some (Some ms) => ms < ppNewestTS p | _ => True end;
  go_visible : exists w, MkEvent w (LoadBufferState network buffer) (Some (Some false)) ∈ g;
  go_unredacted : ppMsgID p <> [] -> exists w, MkEvent w (LoadRedacted network buffer (ppMsgID p)) (Some false) ∈ g;
  go_unfiltered : exists w f, MkEvent w LoadFilters (Some f) ∈ g /\ drops (buildPushFilters f) network buffer (ppSender p) = false;
  go_highlight : ppChannelLike p = true ->
    (ppText p = [] -> exists w, MkEvent w LoadRulesGen (ppRulesGen p) ∈ g) /\
    (ppText p <> [] -> exists w rules, MkEvent w LoadRules (Some rules) ∈ g /\ highlightText (ppText p) (ppNick p) rules network = true)
}.

Definition headline (p p' : pendingPush) : Prop := p' = p \/ p' = scrub p /\ ppMsgID p <> [].
Lemma headline_trans p p' q : headline p p' -> headline p' q -> headline p q.
Proof. intros [->|[-> H]] [->|[-> H']]; [left|right|right|]; done. Qed.

(** Requests are what matters; everything else is allowed. *)
Definition requests_only (I : list event -> op -> Prop) : Prop := forall l o, is_request o = false -> I l o.

Lemma pushStillDue_wp I network buffer p l Q :
  requests_only I -> (forall g, no_requests g -> Q None (l ++ g)) ->
  (forall p' g, headline p p' -> no_requests g ->
     (exists w t, MkEvent w (LoadMarker network buffer) t ∈ g /\ match t with Some (Some ms) => ms < ppNewestTS p' | _ => True end) ->
     (exists w, MkEvent w (LoadBufferState network buffer) (Some (Some false)) ∈ g) ->
     (ppMsgID p' <> [] -> exists w, MkEvent w (LoadRedacted network buffer (ppMsgID p')) (Some false) ∈ g) -> Q (Some p') (l ++ g)) ->
  wp I (pushStillDue network buffer p) Q l.
Proof.
  intros HI HN HQ. unfold pushStillDue. apply wp_call; [by apply HI|]. intros w1 t w1' _.
  destruct (match t with Some (Some ms) => ppNewestTS p <=? ms | _ => false end) eqn:Et.
  { simpl. apply HN. by repeat constructor. }
  assert (match t with Some (Some ms) => ms < ppNewestTS p | _ => True end) as Ht by (destruct t as [[ms|]|]; [lia|done|done]).
  apply wp_call; [by apply HI|]. intros w2 b w2' _. rewrite <- app_assoc. destruct b as [[[|]|]|]; try (simpl; apply HN; by repeat constructor).
  case_bool_decide as Hm.
  - simpl. apply HQ; [by left|by repeat constructor| | |done].
    + exists w1, t. split; [left|done].
    + exists w2. right. left.
  - apply wp_call; [by apply HI|]. intros w3 r w3' _. rewrite <- app_assoc. destruct r as [[|]|]; [|simpl..].
    + destruct (ppCount p =? 1); simpl; [apply HN; by repeat constructor|].
      apply HQ; [by right|by repeat constructor| | |done].
      * exists w1, t. split; [left|done].
      * exists w2. right. left.
    + apply HQ; [by left|by repeat constructor| | |].
      * exists w1, t. split; [left|done].
      * exists w2. right. left.
      * intros _. exists w3. do 2 right. left.
    + apply HN. by repeat constructor.
Qed.

Lemma no_requests_app a b : no_requests a -> no_requests b -> no_requests (a ++ b).
Proof. intros. by apply Forall_app. Qed.

Lemma deliveryStillAllowed_wp I network buffer p l Q :
  requests_only I -> (forall p' g, no_requests g -> Q (false, p') (l ++ g)) ->
  (forall p' g, headline p p' -> gate_open network buffer p' g -> Q (true, p') (l ++ g)) ->
  wp I (deliveryStillAllowed network buffer p) Q l.
Proof.
  intros HI HN HQ. unfold deliveryStillAllowed. apply wp_call; [by apply HI|]. intros w0 n w0' _.
  destruct (n =? 0); [simpl; apply HN; by repeat constructor|].
  apply wp_bind. apply pushStillDue_wp; [done|..].
  { intros g Hg. simpl. rewrite <- app_assoc. apply HN. by constructor. }
  intros p' g Hh Hg Hu Hv Hr. apply wp_call; [by apply HI|]. intros w1 f w1' _. rewrite <- !app_assoc.
  assert (forall k, no_requests k -> no_requests (MkEvent w0 LoadCount n :: g ++ k)) as Hall by (intros k Hk; constructor; [done|by apply no_requests_app]).
  destruct f as [f|]; [|simpl; apply HN, Hall; by repeat constructor].
  destruct (drops (buildPushFilters f) network buffer (ppSender p')) eqn:Ed; [simpl; apply HN, Hall; by repeat constructor|].
  assert (forall k, no_requests k -> (ppChannelLike p' = true ->
      (ppText p' = [] -> exists w, MkEvent w LoadRulesGen (ppRulesGen p') ∈ k) /\
      (ppText p' <> [] -> exists w rules, MkEvent w LoadRules (Some rules) ∈ k /\ highlightText (ppText p') (ppNick p') rules network = true)) ->
    gate_open network buffer p' (MkEvent w0 LoadCount n :: g ++ MkEvent w1 LoadFilters (Some f) :: k)) as Hopen.
  { intros k Hk Hhl. split.
    - apply Hall. by constructor.
    - destruct Hu as (w & t & Hin & Ht). exists w, t. set_solver.
    - set_solver.
    - intros Hm. destruct (Hr Hm) as [w Hw]. exists w. set_solver.
    - exists w1, f. set_solver.
    - intros Hc. destruct (Hhl Hc) as [H1 H2]. split; intros Ht; [destruct (H1 Ht) as [w Hw]; exists w|destruct (H2 Ht) as (w & r & Hw & Hx); exists w, r]; set_solver. }
  destruct (ppChannelLike p') eqn:Ec; simpl; cycle 1.
  { apply HQ; [done|]. apply Hopen; [constructor|done]. }
  case_bool_decide as Ht; simpl.
  - split; [by apply HI|]. intros w2 gen w2' _. rewrite <- app_assoc, <- app_comm_cons, <- app_assoc. simpl.
    destruct (Z.eqb_spec (ppRulesGen p') gen) as [Heq|]; [|apply HN, Hall; by repeat constructor]. simpl in gen. subst gen.
    apply HQ; [done|]. apply Hopen; [by repeat constructor|]. intros _. split; [|done]. intros _. exists w2. left.
  - split; [by apply HI|]. intros w2 rules w2' _. rewrite <- app_assoc, <- app_comm_cons, <- app_assoc. simpl.
    destruct rules as [rules|]; simpl; [|apply HN, Hall; by repeat constructor].
    destruct (highlightText (ppText p') (ppNick p') rules network) eqn:Eh; [|apply HN, Hall; by repeat constructor].
    apply HQ; [done|]. apply Hopen; [by repeat constructor|]. intros _. split; [done|]. intros _. exists w2, rules. split; [left|done].
Qed.

(** ** A delivery *)

(** The log of a delivery that read the epoch, the subscriptions and its context. *)
Definition opened (e : Z) (w0 : World) (w1 : World) (subs : list PushSubscription) (w2 : World) (gen : Z) (rest : list event) : list event :=
  MkEvent w0 LoadEpoch e :: MkEvent w1 LoadSubscriptions (Some subs) :: MkEvent w2 CurrentPushGen gen :: rest.

(** The endpoint is of the list read then, and the epoch was the same later. *)
Definition from_list (l : list event) (gen : Z) (endpoint : gostring) : Prop :=
  exists e w0 w1 subs w2 rest, l = opened e w0 w1 subs w2 gen rest /\ (exists sub, sub ∈ subs /\ Endpoint sub = endpoint) /\
    exists w3, MkEvent w3 LoadEpoch e ∈ rest.

Definition justified (job : pushJob) (l : list event) (k1 k2 body : gostring) : Prop :=
  exists before gate p w, l = before ++ gate ++ [MkEvent w (Encrypt (push_payload (jKey job) p) k1 k2) (Body body)] /\
    headline (jP job) p /\ gate_open (key_network (jKey job)) (key_buffer (jKey job)) p gate /\ len (push_payload (jKey job) p) <= MaxPlaintext.

Definition allowed (job : pushJob) (l : list event) (o : op) : Prop :=
  match o with
  | Send gen endpoint k1 k2 body => from_list l gen endpoint /\ justified job l k1 k2 body
  | DeleteSubscription gen endpoint => from_list l gen endpoint
  | _ => True
  end.

Lemma allowed_requests job : requests_only (allowed job).
Proof. by intros l []. Qed.

Lemma prune_wp job gen epoch endpoint l Q :
  (forall k, from_list (l ++ k) gen endpoint) -> (forall k, Q tt (l ++ k)) -> wp (allowed job) (prune gen epoch endpoint) Q l.
Proof.
  intros Hf HQ. unfold prune. apply wp_call; [done|]. intros w e w' _. destruct (e =? epoch); [|simpl; apply HQ].
  unfold prunePushSubscription. apply wp_call; [apply Hf|]. intros w1 ok w1' _. rewrite <- app_assoc.
  destruct ok; [|simpl; apply HQ]. simpl. split; [done|]. intros w2 a w2' _. rewrite <- app_assoc. destruct a. apply HQ.
Qed.

Lemma deliver_all_wp job p gen e w0 w1 w2 subs todo rest :
  (forall sub, sub ∈ todo -> sub ∈ subs) -> headline (jP job) p ->
  wp (allowed job) (deliver_all (jKey job) p gen e todo) (fun _ _ => True) (opened e w0 w1 subs w2 gen rest).
Proof.
  revert p rest. induction todo as [|sub todo IH]; intros p rest Hin Hp; [done|]. cbn [deliver_all].
  assert (forall r k, opened e w0 w1 subs w2 gen r ++ k = opened e w0 w1 subs w2 gen (r ++ k)) as Happ by done.
  apply wp_call; [done|]. intros w3 e' w3' _. rewrite Happ. destruct (Z.eqb_spec e' e) as [He|]; [|done]. simpl in e'. subst e'. cbn [negb].
  apply wp_call; [done|]. intros w4 c w4' _. rewrite Happ. destruct c; [done|].
  apply wp_bind. apply deliveryStillAllowed_wp; [apply allowed_requests|intros p' g _; done|].
  intros p' g Hh Hg. cbn [negb]. destruct (Z.ltb_spec MaxPlaintext (len (push_payload (jKey job) p'))) as [|Hlen]; [done|].
  pose proof (headline_trans _ _ _ Hp Hh) as Hp'. rewrite Happ.
  set (r0 := ((rest ++ [MkEvent w3 LoadEpoch e]) ++ [MkEvent w4 (GenErr gen) false]) ++ g).
  assert (MkEvent w3 LoadEpoch e ∈ r0) as Hep by (unfold r0; set_solver).
  assert (forall k, from_list (opened e w0 w1 subs w2 gen r0 ++ k) gen (Endpoint sub)) as Hfl.
  { intros k. rewrite Happ. exists e, w0, w1, subs, w2, (r0 ++ k). split; [done|]. split; [exists sub; split; [apply Hin; left|done]|]. exists w3. set_solver. }
  assert (forall k, wp (allowed job) (deliver_all (jKey job) p' gen e todo) (fun _ _ => True) (opened e w0 w1 subs w2 gen r0 ++ k)) as HIH.
  { intros k. rewrite Happ. apply IH; [|done]. intros x Hx. apply Hin. by right. }
  apply wp_bind. unfold pushToSubscription.
  destruct (rawURLDecode (P256dh sub)) as [k1|]; [|by apply prune_wp].
  destruct (rawURLDecode (Auth sub)) as [k2|]; [|by apply prune_wp].
  apply wp_call; [done|]. intros w5 body w5' _. destruct body as [b| |]; [|apply prune_wp; intros k; rewrite <- app_assoc; [apply Hfl|apply HIH]|cbn [wp]; apply HIH].
  apply wp_call.
  { split; [apply Hfl|]. exists (opened e w0 w1 subs w2 gen ((rest ++ [MkEvent w3 LoadEpoch e]) ++ [MkEvent w4 (GenErr gen) false])), g, p', w5.
    split_and!; [|done|done|done]. unfold r0. by rewrite !Happ, <- !app_assoc. }
  intros w6 r w6' _. destruct r; cbn [call wp].
  - split; [done|]. intros w7 a w7' _. destruct a. rewrite <- !app_assoc. apply HIH.
  - apply prune_wp; intros k; rewrite <- !app_assoc; [apply Hfl|apply HIH].
  - rewrite <- app_assoc. apply HIH.
Qed.

Lemma deliverPush_wp job : wp (allowed job) (deliverPush job) (fun _ _ => True) [].
Proof.
  unfold deliverPush. apply wp_call; [done|]. intros w0 e w0' _. apply wp_call; [done|]. intros w1 subs w1' _.
  destruct subs as [subs|]; [|done]. apply wp_call; [done|]. intros w2 gen w2' _. apply deliver_all_wp; [done|by left].
Qed.

(** ** Revocations *)

Definition rank (st : stage) : nat := match st with Committed => 0 | Bumped => 1 | Revoked => 2 end.
Definition count_from (n : nat) (l : list stage) : nat := length (List.filter (fun st => (n <=? rank st)%nat) l).

(** Revocations only advance. *)
Definition revs_le (l k : list stage) : Prop := forall i st, l !! i = Some st -> exists st', k !! i = Some st' /\ (rank st <= rank st')%nat.

#[local] Instance revs_le_preorder : PreOrder revs_le.
Proof.
  split; [intros l i st H; eauto|]. intros l k m H1 H2 i st H. destruct (H1 i st H) as (st1 & Hk & ?). destruct (H2 i st1 Hk) as (st2 & ? & ?). exists st2. split; [done|lia].
Qed.

Lemma revs_le_cons x l y k : revs_le (x :: l) (y :: k) -> (rank x <= rank y)%nat /\ revs_le l k.
Proof.
  intros H. split; [|intros i st Hi; exact (H (S i) st Hi)]. destruct (H O x eq_refl) as (st & [= <-] & ?). done.
Qed.

(** Equal counts: what has come so far now had come so far then. *)
Lemma count_same n l k :
  revs_le l k -> (count_from n l <= count_from n k)%nat /\
  (count_from n k = count_from n l -> forall i st, k !! i = Some st -> (n <= rank st)%nat -> exists st', l !! i = Some st' /\ (n <= rank st')%nat).
Proof.
  revert k. induction l as [|x l IH]; intros k H.
  - split; [apply Nat.le_0_l|]. intros Hc i st Hi Hr. exfalso.
    assert (st ∈ List.filter (fun st => (n <=? rank st)%nat) k) as Hin.
    { apply list_elem_of_In, filter_In. split; [by eapply list_elem_of_In, list_elem_of_lookup_2|by apply Nat.leb_le]. }
    unfold count_from in Hc. simpl in Hc. apply nil_length_inv in Hc. rewrite Hc in Hin. by apply not_elem_of_nil in Hin.
  - destruct k as [|y k]; [destruct (H O x eq_refl) as (? & [=] & _)|]. apply revs_le_cons in H as [Hxy H]. destruct (IH k H) as [Hle Heq].
    unfold count_from in *. simpl. destruct (Nat.leb_spec n (rank x)), (Nat.leb_spec n (rank y)); simpl; try lia; split; try lia;
      intros Hc [|i] st Hi Hr; simpl in *; simplify_eq; try lia; eauto; apply (Heq ltac:(lia) i st Hi Hr).
Qed.

Record world_ok (w : World) : Prop := {
  wo_epoch : wEpoch w = Z.of_nat (count_from 1 (wRevs w)) mod 2 ^ 64;
  wo_gen : wGen w = Z.of_nat (count_from 2 (wRevs w))
}.

Lemma count_insert n l i a b :
  l !! i = Some a -> (rank a <= rank b)%nat ->
  count_from n (<[i := b]> l) = (count_from n l + (if (n <=? rank b) && negb (n <=? rank a) then 1 else 0))%nat.
Proof.
  revert i. induction l as [|x l IH]; intros [|i] H Hr; simplify_eq/=.
  - unfold count_from. simpl. destruct (Nat.leb_spec n (rank a)), (Nat.leb_spec n (rank b)); simpl; lia.
  - specialize (IH i H Hr). unfold count_from in *. simpl. destruct (n <=? rank x)%nat; simpl; lia.
Qed.

Lemma revs_le_insert l i a b : l !! i = Some a -> (rank a <= rank b)%nat -> revs_le l (<[i := b]> l).
Proof.
  intros H Hr j st Hj. destruct (decide (i = j)) as [->|]; [|exists st; by rewrite list_lookup_insert_ne].
  rewrite Hj in H. simplify_eq. exists b. split; [|done]. apply list_lookup_insert_eq. by eapply lookup_lt_Some.
Qed.

Lemma env_ok w w' : env w w' -> world_ok w -> world_ok w' /\ revs_le (wRevs w) (wRevs w').
Proof.
  intros H [He Hg]. destruct H as [w st rows subs n|w subs|w i Hi|w i Hi]; cbn [wRevs wEpoch wGen bump_epoch cancel_gen] in *.
  - split; [by split|reflexivity].
  - split; [split|]; cbn [wRevs wEpoch wGen].
    + rewrite He. unfold count_from. rewrite List.filter_app, length_app. simpl. by rewrite Nat.add_0_r.
    + rewrite Hg. unfold count_from. rewrite List.filter_app, length_app. simpl. by rewrite Nat.add_0_r.
    + intros j st Hj. exists st. split; [by apply lookup_app_l_Some|done].
  - assert (rank Committed <= rank Bumped)%nat as Hr by (simpl; lia). split; [split|by eapply revs_le_insert]; cbn [wRevs wEpoch wGen bump_epoch].
    + rewrite (count_insert 1 _ _ _ _ Hi Hr), He. simpl. rewrite Zplus_mod_idemp_l. f_equal. lia.
    + rewrite (count_insert 2 _ _ _ _ Hi Hr), Hg. simpl. lia.
  - assert (rank Bumped <= rank Revoked)%nat as Hr by (simpl; lia). split; [split|by eapply revs_le_insert]; cbn [wRevs wEpoch wGen cancel_gen].
    + rewrite (count_insert 1 _ _ _ _ Hi Hr), He. simpl. by rewrite Nat.add_0_r.
    + rewrite (count_insert 2 _ _ _ _ Hi Hr), Hg. simpl. lia.
Qed.

Lemma answers_ok w o a w' : answers lim w o a w' -> world_ok w -> world_ok w' /\ revs_le (wRevs w) (wRevs w').
Proof.
  intros H Hw. assert (wRevs w' = wRevs w /\ wEpoch w' = wEpoch w /\ wGen w' = wGen w) as (E1 & E2 & E3).
  { destruct o; simpl in H; repeat match type of H with context [let '(_, _) := ?x in _] => destruct x end;
      repeat match goal with H : _ /\ _ |- _ => destruct H | H : _ \/ _ |- _ => destruct H end; subst; done. }
  rewrite E1. split; [|reflexivity]. destruct Hw as [He Hg]. split; [by rewrite E1, E2|by rewrite E1, E3].
Qed.

(** A worker's log is a history of the run, and its next step is allowed. *)
Record worker_ok (w : World) (wk : worker) : Prop := {
  wk_valid : Forall (fun e => exists w', answers lim (evWorld e) (evOp e) (evAnswer e) w') (wkLog wk);
  wk_worlds : Forall (fun e => world_ok (evWorld e) /\ revs_le (wRevs (evWorld e)) (wRevs w)) (wkLog wk);
  wk_sorted : StronglySorted (fun a b => revs_le (wRevs (evWorld a)) (wRevs (evWorld b))) (wkLog wk);
  wk_next : wp (allowed (wkJob wk)) (wkNext wk) (fun _ _ => True) (wkLog wk)
}.

Lemma worker_ok_later w w' wk : revs_le (wRevs w) (wRevs w') -> worker_ok w wk -> worker_ok w' wk.
Proof.
  intros Hle [H1 H2 H3 H4]. split; try done. eapply Forall_impl; [exact H2|]. intros e [? ?]. split; [done|]. by etrans.
Qed.

Definition workers_ok (w : World) (wks : list (option worker)) : Prop := forall i wk, wks !! i = Some (Some wk) -> worker_ok w wk.

Lemma StronglySorted_snoc {A} (R : A -> A -> Prop) l x : StronglySorted R l -> Forall (fun y => R y x) l -> StronglySorted R (l ++ [x]).
Proof.
  induction 1 as [|y l Hs IH Hy]; intros Hx; [by repeat constructor|]. inversion_clear Hx. simpl. constructor; [by apply IH|].
  apply Forall_app. split; [done|by constructor].
Qed.

Lemma push_step_ok delay w s w' s' :
  push_step lim delay (w, s) (w', s') -> world_ok w -> workers_ok w (scWorkers s) -> world_ok w' /\ workers_ok w' (scWorkers s').
Proof.
  intros H Hw Hk. remember (w, s) as x eqn:Ex. remember (w', s') as y eqn:Ey.
  destruct H as [w0 w1 s0 He| | | | | |w0 s0 r fails rules filters ok Hr Hc| |w0 s0 i job jobs Hj Hi|w0 w1 s0 i job log o k a Hi Ha|w0 s0 i job log Hi];
    simplify_eq; try (by split).
  - destruct (env_ok _ _ He Hw) as [? Hle]. split; [done|]. intros i wk Hi. by eapply worker_ok_later; [|eapply Hk].
  - split; [by destruct Hw|]. intros i wk Hi. by eapply worker_ok_later; [|eapply Hk].
  - split; [done|]. intros j wk. cbn [set_worker set_jobs scWorkers]. intros [(-> & [= <-] & _)|[_ ?]]%list_lookup_insert_Some; [|by eapply Hk].
    split; [constructor|constructor|constructor|apply deliverPush_wp].
  - destruct (answers_ok _ _ _ _ Ha Hw) as [Hw' Hle]. split; [done|]. intros j wk. cbn [set_worker scWorkers].
    intros [(-> & [= <-] & _)|[_ Hj]]%list_lookup_insert_Some; [|by eapply worker_ok_later; [|eapply Hk]].
    destruct (Hk _ _ Hi) as [H1 H2 H3 [H4 H5]]. cbn [wkLog wkJob wkNext] in *. split; cbn [wkLog wkJob wkNext].
    + apply Forall_app. split; [done|]. constructor; [by exists w'|constructor].
    + apply Forall_app. split; [|constructor; [by split|constructor]]. eapply Forall_impl; [exact H2|]. intros e [? ?]. split; [done|]. by etrans.
    + apply StronglySorted_snoc; [done|]. eapply Forall_impl; [exact H2|]. intros e [? ?]. done.
    + by eapply H5.
  - split; [done|]. intros j wk. cbn [set_worker scWorkers]. intros [(-> & [=] & _)|[_ ?]]%list_lookup_insert_Some. by eapply Hk.
Qed.

Lemma push_reachable_ok delay w s : push_reachable lim delay (w, s) -> world_ok w /\ workers_ok w (scWorkers s).
Proof.
  intros H. remember (w, s) as x eqn:Ex. revert w s Ex. induction H as [st rows subs n gen old fr ff now|[w0 s0] y H IH Hs]; intros w s Ex.
  - simplify_eq. split.
    + assert (forall m, (m <= 2)%nat -> count_from m (repeat Revoked old) = old) as Hc.
      { intros m Hm. unfold count_from. induction old as [|old IH]; [done|]. simpl. rewrite (proj2 (Nat.leb_le m 2)) by done. simpl. by rewrite IH. }
      split; cbn [wRevs wEpoch wGen]; by rewrite Hc by lia.
    + unfold startPusher. cbn [scWorkers reloadPushConfig]. intros i wk Hi.
      apply list_elem_of_lookup_2 in Hi. unfold maxConcurrentDeliveries in Hi. simpl in Hi. set_solver.
  - subst y. destruct (IH w0 s0 eq_refl). by eapply push_step_ok.
Qed.

Lemma load_filters_any fails rows f : loadFiltersChecked fails rows = Some f -> loadFiltersChecked no_failure rows = Some f.
Proof. unfold loadFiltersChecked, SettingValue, no_failure. by destruct (fails filtersKey). Qed.
Lemma load_rules_any fails rows f : loadRulesChecked fails rows = Some f -> loadRulesChecked no_failure rows = Some f.
Proof. unfold loadRulesChecked, SettingValue, no_failure. by destruct (fails rulesKey). Qed.

Lemma event_answers log w o a :
  Forall (fun e => exists w', answers lim (evWorld e) (evOp e) (evAnswer e) w') log -> MkEvent w o a ∈ log -> exists w', answers lim w o a w'.
Proof. intros H Hin. rewrite Forall_forall in H. exact (H _ Hin). Qed.


(** A revoked endpoint is left alone.  When a worker makes a request, or prunes a
    row, over a context that is not cancelled, the endpoint was read from the table
    after the rows of every revocation that has completed were removed: neither a
    device of an old password is notified nor a row registered since is pruned. *)
Theorem revoked_endpoint_spared delay w s i job log o k gen endpoint :
  push_reachable lim delay (w, s) -> Z.of_nat (length (wRevs w)) < 2 ^ 64 ->
  scWorkers s !! i = Some (Some (MkWorker job log (Do o k))) ->
  (o = DeleteSubscription gen endpoint \/ exists k1 k2 body, o = Send gen endpoint k1 k2 body) -> live w gen = true ->
  exists w1 sub, w1 ∈ evWorld <$> log /\ sub ∈ wSubs w1 /\ Endpoint sub = endpoint /\
    forall r, wRevs w !! r = Some Revoked -> is_Some (wRevs w1 !! r).
Proof.
  intros Hr Hlen Hi Ho Hlive. destruct (push_reachable_ok _ _ _ Hr) as [Hwo Hk]. destruct (Hk _ _ Hi) as [Hv Hws Hs [Ha _]]. cbn [wkLog wkJob] in *.
  assert (from_list log gen endpoint) as (e & w0 & w1 & subs & w2 & rest & -> & (sub & Hsub & He) & w3 & H3)
    by (destruct Ho as [->|(k1 & k2 & body & ->)]; [exact Ha|exact (proj1 Ha)]).
  assert (w1 ∈ evWorld <$> opened e w0 w1 subs w2 gen rest) as Hin1 by (right; left).
  destruct (event_answers _ w1 LoadSubscriptions (Some subs) Hv) as [w' [[[=]|[= Hsubs]] _]]; [right; left|].
  destruct (event_answers _ w0 LoadEpoch e Hv) as [? [E0 _]]; [left|]. destruct (event_answers _ w2 CurrentPushGen gen Hv) as [? [E2 _]]; [do 2 right; left|].
  destruct (event_answers _ w3 LoadEpoch e Hv) as [? [E3 _]]; [by do 3 right|].
  exists w1, sub. split; [done|]. split; [by rewrite <- Hsubs|]. split; [done|].
  unfold opened in Hs, Hws. inversion_clear Hs as [|? ? Hs1 Hle0]. inversion_clear Hs1 as [|? ? Hs2 Hle1]. inversion_clear Hs2 as [|? ? Hs3 Hle2].
  rewrite Forall_forall in Hws, Hle0, Hle1, Hle2. cbn [evWorld] in *.
  pose proof (Hle0 _ (list_elem_of_here _ _)) as L01. cbn [evWorld] in L01.
  pose proof (Hle2 _ H3) as L23. pose proof (Hle0 _ ltac:(do 2 right; exact H3)) as L03. cbn [evWorld] in L23, L03.
  destruct (Hws _ (list_elem_of_here _ _)) as [[W0 _] _]. cbn [evWorld] in W0.
  destruct (Hws (MkEvent w3 LoadEpoch e) ltac:(by do 3 right)) as [[W3 _] L3w]. destruct (Hws (MkEvent w2 CurrentPushGen gen) ltac:(do 2 right; left)) as [[_ W2] L2w]. cbn [evWorld] in *.
  intros r Hrev. destruct (count_same 2 _ _ L2w) as [_ Hsame2].
  assert (count_from 2 (wRevs w) = count_from 2 (wRevs w2)) as Ec2 by (destruct Hwo as [_ Hg]; unfold live in Hlive; lia).
  destruct (Hsame2 Ec2 r Revoked Hrev ltac:(simpl; lia)) as (st2 & Hst2 & Hrk2).
  destruct (L23 r st2 Hst2) as (st3 & Hst3 & Hrk3). destruct (count_same 1 _ _ L03) as [Hcle Hsame1].
  assert (count_from 1 (wRevs w3) = count_from 1 (wRevs w0)) as Ec1.
  { assert (Z.of_nat (count_from 1 (wRevs w3)) < 2 ^ 64).
    { destruct (count_same 1 _ _ L3w) as [? _]. assert (count_from 1 (wRevs w) <= length (wRevs w))%nat by (apply filter_length_le). lia. }
    rewrite E0 in E3. rewrite W0, W3, !Z.mod_small in E3 by lia. lia. }
  destruct (Hsame1 Ec1 r st3 Hst3 ltac:(lia)) as (st0 & Hst0 & _). destruct (L01 r st0 Hst0) as (st1 & Hst1 & _). by exists st1.
Qed.

End gate.

(** * The push scheduler keeps its promises

    Bounds, deadlines and the policies in force, as an invariant of every reachable state. *)


Section schedule.
Context {Huni : Unicode} {Hjson : PolicyJson}.
Variable lim : limits.

(** An entry and the configuration the scheduler holds. *)
Record entry_ok (now delay : Z) (rules : list Rule) (filters : pushFilters) (key : gostring) (p : pendingPush) : Prop := {
  eo_count : 1 <= ppCount p;
  eo_newest : ppTS p <= ppNewestTS p;
  eo_due : fireAt p <= now + delay;
  eo_filters : drops filters (key_network key) (key_buffer key) (ppSender p) = false;
  eo_highlight : ppChannelLike p = true -> ppCount p = 1 -> ppText p <> [] -> highlightText (ppText p) (ppNick p) rules (key_network key) = true
}.

(** The timer is set no later than the first deadline. *)
Definition timer_ok (timer : option Z) (pending : pendings) : Prop :=
  forall key p, pending !! key = Some p -> exists t, timer = Some t /\ t <= fireAt p.

Record sched_ok (delay : Z) (s : Pusher) : Prop := {
  so_size : Z.of_nat (size (scPending s)) <= maxPendingPushes;
  so_jobs : len (scJobs s) <= pushJobQueue;
  so_workers : length (scWorkers s) = maxConcurrentDeliveries;
  so_closed : scFiltersOK s = false -> scPending s = ∅;
  so_entries : map_Forall (entry_ok (scNow s) delay (scRules s) (scFilters s)) (scPending s);
  so_timer : timer_ok (scTimer s) (scPending s)
}.

Lemma rearm_ok pending : timer_ok (rearmPushTimer pending) pending.
Proof.
  unfold rearmPushTimer. apply (map_fold_weak_ind (fun (b : option Z) m => timer_ok b m)); [by intros key p|].
  intros i x m r Hi IH key p. rewrite lookup_insert_Some. intros [[<- <-]|[_ Hp]].
  - destruct r as [t|]; [|by eexists]. destruct (Z.ltb_spec (fireAt x) t); eexists; (split; [done|lia]).
  - destruct (IH key p Hp) as (t & -> & Ht). destruct (Z.ltb_spec (fireAt x) t); eexists; (split; [done|lia]).
Qed.

Lemma timer_subseteq timer p q :
  (forall key x, p !! key = Some x -> exists y, q !! key = Some y /\ fireAt y = fireAt x) -> timer_ok timer q -> timer_ok timer p.
Proof. intros Hs Hq key x Hx. destruct (Hs key x Hx) as (y & Hy & <-). by apply (Hq key). Qed.

Lemma drops_no_sender filters network buffer sender : drops filters network buffer sender = false -> drops filters network buffer [] = false.
Proof. unfold drops. by case_bool_decide. Qed.

Lemma entry_scrub now delay rules filters key p : entry_ok now delay rules filters key p -> ppCount p <> 1 -> entry_ok now delay rules filters key (scrub p).
Proof. intros [H1 H2 H3 H4 H5] Hc. split; simpl; [lia|done|done|by eapply drops_no_sender|done]. Qed.

Lemma push_key_network network buffer : x00 ∉ network -> key_network (push_key network buffer) = network /\ key_buffer (push_key network buffer) = buffer.
Proof. intros H. unfold key_network, key_buffer, push_key. change (network ++ [x00] ++ buffer) with (network ++ x00 :: buffer). by rewrite Cut_app. Qed.

(** What an event of the scheduler may do to the entries. *)
Definition keeps (s : Pusher) (delay : Z) (r : pendings * bool) : Prop :=
  Z.of_nat (size r.1) <= maxPendingPushes /\ (scPending s = ∅ -> scFiltersOK s = false -> r.1 = ∅) /\
  map_Forall (entry_ok (scNow s) delay (scRules s) (scFilters s)) r.1 /\ (r.2 = false -> timer_ok (scTimer s) r.1).

Lemma set_pending_ok delay s r : sched_ok delay s -> keeps s delay r -> sched_ok delay (set_pending r s).
Proof.
  intros [H1 H2 H3 H4 H5 H6] (K1 & K2 & K3 & K4). split; simpl; [done|done|done|auto|done|].
  destruct r.2; [apply rearm_ok|by apply K4].
Qed.

Lemma sub_empty (m : pendings) : m ⊆ ∅ -> m = ∅.
Proof. intros H. apply map_empty. intros i. destruct (m !! i) eqn:E; [|done]. pose proof (lookup_weaken _ _ _ _ E H) as Hx. by rewrite lookup_empty in Hx. Qed.

Lemma map_sub_keeps delay s r : sched_ok delay s -> r.1 ⊆ scPending s -> keeps s delay r.
Proof.
  intros [H1 H2 H3 H4 H5 H6] Hsub. split_and!.
  - pose proof (map_subseteq_size _ _ Hsub). lia.
  - intros He _. rewrite He in Hsub. by apply sub_empty.
  - intros key p Hp. apply H5. by eapply lookup_weaken.
  - intros _. eapply timer_subseteq; [|exact H6]. intros key x Hx. exists x. split; [by eapply lookup_weaken|done].
Qed.

Lemma insert_keeps delay s key p q :
  sched_ok delay s -> scPending s !! key = Some p -> fireAt q = fireAt p ->
  entry_ok (scNow s) delay (scRules s) (scFilters s) key q -> keeps s delay (<[key := q]> (scPending s), false).
Proof.
  intros [H1 H2 H3 H4 H5 H6] Hp Hf Hq. split_and!; simpl.
  - rewrite map_size_insert, Hp. done.
  - intros He. by rewrite He in Hp.
  - by apply map_Forall_insert_2.
  - intros _. eapply timer_subseteq; [|exact H6]. intros k x. rewrite lookup_insert_Some. intros [[<- <-]|[_ ?]]; eauto.
Qed.

Lemma admit_keeps delay s network c gen :
  sched_ok delay s -> x00 ∉ network ->
  keeps s delay (admitCandidate (scPending s) network c (scRules s) (scFilters s) (scFiltersOK s) (scNow s) delay gen).
Proof.
  intros Hs Hn. unfold admitCandidate. destruct (scFiltersOK s) eqn:Eok; [|by apply map_sub_keeps]. cbn [negb].
  destruct (drops (scFilters s) network (pcBuffer c) (pcSender c)) eqn:Ed; [by apply map_sub_keeps|].
  destruct (pcChannelLike c && _) eqn:Eh; [by apply map_sub_keeps|].
  destruct (push_key_network network (pcBuffer c) Hn) as [Ekn Ekb].
  destruct (scPending s !! push_key network (pcBuffer c)) as [p|] eqn:Ep.
  - eapply insert_keeps; [done|exact Ep|done|]. destruct (so_entries _ _ Hs _ _ Ep) as [K1 K2 K3 K4 K5]. split; simpl; [lia|lia|done|done|lia].
  - destruct (Z.leb_spec maxPendingPushes (Z.of_nat (size (scPending s)))); [by apply map_sub_keeps|].
    split_and!; simpl; [rewrite map_size_insert, Ep; simpl; lia|congruence| |done].
    apply map_Forall_insert_2; [|by apply Hs]. split; simpl; [lia|lia|lia|by rewrite Ekn, Ekb|]. intros Hc _ _. rewrite Hc in Eh. cbn [andb] in Eh.
    rewrite Ekn. by apply negb_false_iff.
Qed.

Lemma cancel_keeps delay s network buffer msgid : sched_ok delay s -> keeps s delay (applyPushCancel (scPending s) network buffer msgid).
Proof.
  intros Hs. unfold applyPushCancel. case_bool_decide; [apply map_sub_keeps; [done|apply map_filter_subseteq]|].
  destruct (scPending s !! push_key network buffer) as [p|] eqn:Ep; [|by apply map_sub_keeps].
  case_bool_decide; [apply map_sub_keeps; [done|apply delete_subseteq]|]. destruct (_ || _); [by apply map_sub_keeps|].
  destruct (Z.eqb_spec (ppCount p) 1); [apply map_sub_keeps; [done|apply delete_subseteq]|].
  eapply insert_keeps; [done|exact Ep|done|]. apply entry_scrub; [by apply Hs|done].
Qed.

Lemma marker_keeps delay s network buffer ts : sched_ok delay s -> keeps s delay (markerAdvance (scPending s) network buffer ts).
Proof.
  intros Hs. unfold markerAdvance. destruct (scPending s !! _) as [p|]; [|by apply map_sub_keeps].
  destruct (_ <=? _); apply map_sub_keeps; try done. apply delete_subseteq.
Qed.

(** A sweep leaves what the new configuration admits. *)
Lemma sweep_ok delay s rules filters ok :
  sched_ok delay s -> (ok = false -> scFiltersOK s = false) ->
  sched_ok delay (set_pending (sweepFilteredPending (scPending s) rules filters) (set_config rules filters ok s)).
Proof.
  intros [H1 H2 H3 H4 H5 H6] Hok. unfold sweepFilteredPending. set (kept := filter _ (scPending s)).
  assert (kept ⊆ scPending s) as Hsub by apply map_filter_subseteq.
  split; simpl; [|done|done| | |].
  - pose proof (map_subseteq_size _ _ Hsub). lia.
  - intros He. rewrite (H4 (Hok He)) in Hsub. by apply sub_empty.
  - intros key p [Hp Hsw]%map_lookup_filter_Some. destruct (H5 key p Hp) as [K1 K2 K3 K4 K5]. unfold swept in Hsw. cbn [fst snd] in Hsw.
    apply orb_false_iff in Hsw as [Hd Hh]. split; [done|done|done|done|]. intros Hc Hn Ht.
    rewrite Hc, Hn, bool_decide_false in Hh by done. cbn in Hh. by apply negb_false_iff.
  - destruct (negb _); [apply rearm_ok|]. eapply timer_subseteq; [|exact H6]. intros key x Hx. exists x. split; [by eapply lookup_weaken|done].
Qed.

(** The timer hands over every due entry and no other. *)
Lemma enqueue_spec now order pending jobs pending' jobs' :
  enqueueDuePushes now order pending jobs = (pending', jobs') -> len jobs <= pushJobQueue ->
  pending' ⊆ pending /\ len jobs' <= pushJobQueue /\ (forall key p, (key, p) ∈ order -> fireAt p <= now -> pending' !! key = None).
Proof.
  revert pending jobs. induction order as [|[key p] order IH]; intros pending jobs; cbn [enqueueDuePushes].
  - intros [= <- <-] Hj. split_and!; [done|done|]. intros ? ? []%not_elem_of_nil.
  - destruct (Z.ltb_spec now (fireAt p)) as [Hlt|Hge].
    + intros H Hj. destruct (IH _ _ H Hj) as (K1 & K2 & K3). split_and!; [done|done|]. intros k q [[= -> ->]|Hin]%elem_of_cons Hq; [lia|by eapply K3].
    + intros H Hj. destruct (IH _ _ H) as (K1 & K2 & K3).
      { destruct (Z.ltb_spec (len jobs) pushJobQueue); [|done]. rewrite len_app. change (len [MkJob key p]) with 1. lia. }
      split_and!; [etrans; [exact K1|apply delete_subseteq]|done|]. intros k q [[= -> ->]|Hin]%elem_of_cons Hq; [|by eapply K3].
      destruct (pending' !! key) eqn:E; [|done]. pose proof (lookup_weaken _ _ _ _ E K1) as Hx. by rewrite lookup_delete_eq in Hx.
Qed.

Lemma push_step_sched_ok delay w s w' s' : push_step lim delay (w, s) (w', s') -> sched_ok delay s -> sched_ok delay s'.
Proof.
  intros H Hs. remember (w, s) as x eqn:Ex. remember (w', s') as y eqn:Ey.
  destruct H as [w0 w1 s0 He|w0 s0 now Hn| | | | |w0 s0 r fails rules filters ok Hr Hc|w0 s0 order t pending jobs Hr Ht Hle Hord He|w0 s0 i job jobs Hj Hi|w0 w1 s0 i job log o k a Hi Ha|w0 s0 i job log Hi];
    simplify_eq; try done.
  - destruct Hs as [H1 H2 H3 H4 H5 H6]. split; try done. simpl. intros key p Hp. destruct (H5 key p Hp) as [K1 K2 K3 K4 K5]. split; try done. lia.
  - apply set_pending_ok; [done|]. by apply admit_keeps.
  - apply set_pending_ok; [done|]. by apply marker_keeps.
  - apply set_pending_ok; [done|]. by apply cancel_keeps.
  - by destruct Hs.
  - apply sweep_ok; [done|]. unfold reloadPushConfig in Hc. destruct (loadFiltersChecked fails (wRows w)); by simplify_eq.
  - destruct Hs as [H1 H2 H3 H4 H5 H6]. destruct (enqueue_spec _ _ _ _ _ _ He H2) as (K1 & K2 & K3). split; simpl; [|done|done| | |apply rearm_ok].
    + pose proof (map_subseteq_size _ _ K1). lia.
    + intros Ho. rewrite (H4 Ho) in K1. by apply sub_empty.
    + intros key p Hp. apply H5. by eapply lookup_weaken.
  - destruct Hs as [H1 H2 H3 H4 H5 H6]. split; simpl; [done| |by rewrite length_insert|done|done|done]. rewrite Hj, len_cons in H2. lia.
  - destruct Hs as [H1 H2 H3 H4 H5 H6]. split; simpl; [done|done|by rewrite length_insert|done|done|done].
  - destruct Hs as [H1 H2 H3 H4 H5 H6]. split; simpl; [done|done|by rewrite length_insert|done|done|done].
Qed.

Lemma push_reachable_sched_ok delay w s : push_reachable lim delay (w, s) -> sched_ok delay s.
Proof.
  intros H. remember (w, s) as x eqn:Ex. revert w s Ex. induction H as [st rows subs n gen old fr ff now|[w0 s0] y H IH Hs]; intros w s Ex.
  - simplify_eq. unfold startPusher. cbn [reloadPushConfig]. split; simpl; try done.
  - subst y. eapply push_step_sched_ok; [exact Hs|]. by eapply IH.
Qed.

(** The scheduler is bounded, prompt and obeys the policies.  In every reachable
    state at most 64 notifications wait and 64 are queued; while the filters have never
    been readable none waits; every entry that waits is admitted by the filters and,
    when it stands for one channel message, highlighted by the rules the scheduler
    holds; its deadline is at most the delay away and the timer is set no later.  Further
    messages of the buffer do not move the deadline, and when the timer goes off no
    entry that is due stays. *)
Theorem push_schedule_kept delay w s :
  push_reachable lim delay (w, s) ->
  Z.of_nat (size (scPending s)) <= 64 /\ len (scJobs s) <= 64 /\ (scFiltersOK s = false -> scPending s = ∅) /\
  (forall key p, scPending s !! key = Some p ->
     1 <= ppCount p /\ drops (scFilters s) (key_network key) (key_buffer key) (ppSender p) = false /\
     (ppChannelLike p = true -> ppCount p = 1 -> ppText p <> [] -> highlightText (ppText p) (ppNick p) (scRules s) (key_network key) = true) /\
     fireAt p <= scNow s + delay /\ (exists t, scTimer s = Some t /\ t <= fireAt p) /\
     (forall network c gen, exists p', (admitCandidate (scPending s) network c (scRules s) (scFilters s) (scFiltersOK s) (scNow s) delay gen).1 !! key = Some p' /\ fireAt p' = fireAt p)) /\
  (forall order pending jobs, order ≡ₚ map_to_list (scPending s) -> enqueueDuePushes (scNow s) order (scPending s) (scJobs s) = (pending, jobs) ->
     forall key p, pending !! key = Some p -> scNow s < fireAt p).
Proof.
  intros Hr. pose proof (push_reachable_sched_ok _ _ _ Hr) as Hs. destruct Hs as [H1 H2 H3 H4 H5 H6]. split_and!; [done|done|done| |].
  - intros key p Hp. destruct (H5 key p Hp) as [K1 K2 K3 K4 K5]. split_and!; [done|done|done|done|by apply (H6 key)|].
    intros network c gen. unfold admitCandidate. repeat (case_match; simpl; [by exists p|]).
    case_match; simpl.
    + destruct (decide (push_key network (pcBuffer c) = key)) as [<-|]; [rewrite lookup_insert_eq|rewrite lookup_insert_ne by done; by exists p]. simplify_eq. by eexists.
    + case_match; simpl; [by exists p|]. rewrite lookup_insert_ne by congruence. by exists p.
  - intros order pending jobs Hord He key p Hp. destruct (enqueue_spec _ _ _ _ _ _ He H2) as (K1 & _ & K3).
    destruct (Z.lt_ge_cases (scNow s) (fireAt p)) as [|Hge]; [done|]. rewrite (K3 key p) in Hp; [done| |lia].
    rewrite Hord. apply elem_of_map_to_list. by eapply lookup_weaken.
Qed.

End schedule.
