(* ===== verification/ProxyDial.v ===== *)
(** * Proxy tunnels: internal/proxydial/proxydial.go

    A tunnel through a SOCKS5 or an HTTP proxy.  The connection to the proxy is the bytes
    written to it, the bytes it will yield, and how many more it accepts; a handshake is
    a computation on it that fails with the class of the error.  The messages are
    compared with readers written after RFC 1928, RFC 1929 and RFC 7617. *)

From S2P Require Import Prelude GoStrings GoUtf8 GoNet GoIP GoBase64.

(** ** Addresses *)

Definition hasControl (s : gostring) : bool := existsb (fun r => (r <? 0x20) || (r =? 0x7F)) (runes s).

Definition ParsePort (s : gostring) : option Z :=
  if (s == []) || (5 <? len s) then None
  else if negb (forallb is_digit s) then None
  else
    let '(n, ok) := Atoi s in
    if negb ok || (n <? 1) || (65535 <? n) then None else Some n.

Definition ValidHostPort (addr : gostring) : bool :=
  match SplitHostPort addr with
  | None => false
  | Some (host, port) =>
      if host == [] then false
      else if (255 <? len host) || ContainsAny host [x20; x09; x0d; x0a; x2f; x40; x5c; x3f; x23; x25] || hasControl host then false
      else bool_decide (is_Some (ParsePort port))
  end.

(** ** net/url: the parts of a parsed URL *)

Record Userinfo := MkUser { Username : gostring; Password : option gostring }.
Record URL := MkURL { Scheme : gostring; User : option Userinfo; Host : gostring; Path : gostring; RawQuery : gostring; Fragment : gostring }.

(** What net/url takes for a port at the end of a host. *)
Definition validOptionalPort (port : gostring) : bool :=
  match port with [] => true | c :: rest => (c == x3a) && forallb is_digit rest end.

Definition splitHostPort (hostPort : gostring) : gostring * gostring :=
  let colon := LastIndexByte hostPort x3a in
  let '(host, port) :=
    if (0 <=? colon) && validOptionalPort (slice_from hostPort colon)
    then (slice_to hostPort colon, slice_from hostPort (colon + 1)) else (hostPort, []) in
  (if HasPrefix host §"[" && HasSuffix host §"]" then slice_from (slice_to host (len host - 1)) 1 else host, port).

Definition Hostname (u : URL) : gostring := (splitHostPort (Host u)).1.
Definition Port (u : URL) : gostring := (splitHostPort (Host u)).2.

(** ** Errors and validation *)

(** The classes the callers tell apart: [ErrOther] is every error that wraps none of
    the named ones, a failure of the network for example. *)
Inductive dialErr := ErrProxyConfig | ErrProxyRejected | ErrProxyProtocol | ErrOther | ErrCanceled.
#[export] Instance dialErr_dec : EqDecision dialErr.
Proof. solve_decision. Defined.

Definition validateProxyCreds (scheme : gostring) (user : Userinfo) : bool :=
  let name := Username user in
  let pass := default [] (Password user) in
  if scheme == §"http" then
    if ContainsByte name x3a then false
    else if hasControl name || hasControl pass then false
    else negb ((255 <? len name) || (255 <? len pass))
  else
    match Password user with
    | None => false
    | Some pass => negb ((len name <? 1) || (255 <? len name) || (len pass <? 1) || (255 <? len pass))
    end.

Definition validateProxyURL (u : URL) : bool :=
  if negb ((Scheme u == §"socks5") || (Scheme u == §"socks5h") || (Scheme u == §"http")) then false
  else if negb (ValidHostPort (Host u)) then false
  else if ((Path u != []) && (Path u != §"/")) || (RawQuery u != []) || (Fragment u != []) then false
  else match User u with Some user => validateProxyCreds (Scheme u) user | None => true end.

Definition validateProxyTarget (target : gostring) : bool := ValidHostPort target.

(** ** The connection *)

Record Wire := MkWire { sent : gostring; inbox : gostring; room : Z }.
Definition Net (A : Type) : Type := Wire -> (dialErr + A) * Wire.

#[export] Instance net_ret : MRet Net := fun A x w => (inr x, w).
#[export] Instance net_bind : MBind Net := fun A B f m w =>
  match m w with (inl e, w') => (inl e, w') | (inr x, w') => f x w' end.
Definition fail {A} (e : dialErr) : Net A := fun w => (inl e, w).
Definition guard_net (b : bool) (e : dialErr) : Net unit := if b then mret tt else fail e.

(** A connection that breaks has taken the bytes it still accepted. *)
Definition Write (p : gostring) : Net unit := fun w =>
  if len p <=? room w then (inr tt, MkWire (sent w ++ p) (inbox w) (room w - len p))
  else (inl ErrOther, MkWire (sent w ++ slice_to p (room w)) (inbox w) 0).

(** [io.ReadFull] into a buffer of [n] bytes. *)
Definition ReadFull (n : Z) : Net gostring := fun w =>
  if n <=? len (inbox w) then (inr (slice_to (inbox w) n), MkWire (sent w) (slice_from (inbox w) n) (room w))
  else (inl ErrOther, MkWire (sent w) [] (room w)).

(** The byte at [i] of a buffer that is at least that long. *)
Definition at_ (s : gostring) (i : nat) : byte := nth i s x00.

(** ** SOCKS5 *)

Definition low_byte (n : Z) : byte := z2b (Z.land n 0xFF).

(** Big-endian bytes. *)
Fixpoint be (n : nat) (a : Z) : gostring := match n with O => [] | S k => be k (Z.shiftr a 8) ++ [low_byte a] end.

Definition socks5Auth (user : option Userinfo) : Net unit :=
  match user with
  | None => fail ErrProxyRejected
  | Some user =>
      _ ← guard_net (validateProxyCreds §"socks5" user) ErrProxyConfig;
      let pass := default [] (Password user) in
      let u := Username user in
      _ ← Write ([x01; low_byte (len u)] ++ u ++ [low_byte (len pass)] ++ pass);
      st ← ReadFull 2;
      _ ← guard_net (at_ st 0 == x01) ErrProxyProtocol;
      guard_net (at_ st 1 == x00) ErrProxyRejected
  end.

Definition socks5Negotiate (user : option Userinfo) : Net unit :=
  let methods := [x00] ++ match user with Some _ => [x02] | None => [] end in
  _ ← Write ([x05; low_byte (len methods)] ++ methods);
  sel ← ReadFull 2;
  if at_ sel 0 != x05 then fail ErrProxyProtocol
  else if at_ sel 1 == x00 then mret tt
  else if at_ sel 1 == x02 then socks5Auth user
  else fail ErrProxyRejected.

Definition socks5Request (target : gostring) : dialErr + gostring :=
  match SplitHostPort target with
  | None => inl ErrOther
  | Some (host, portStr) =>
      match ParsePort portStr with
      | None => inl ErrProxyConfig
      | Some port =>
          let addr := match ParseIP host with
            | None => if 255 <? len host then inl ErrOther else inr ([x03; low_byte (len host)] ++ host)
            | Some ip => inr (match To4 ip with IPv4 a => x01 :: be 4 a | IPv6 a => x04 :: be 16 a end)
            end in
          match addr with
          | inl e => inl e
          | inr addr => inr ([x05; x01; x00] ++ addr ++ [low_byte (Z.shiftr port 8); low_byte port])
          end
      end
  end.

Definition socks5ReadReply : Net unit :=
  head ← ReadFull 4;
  if (at_ head 0 != x05) || (at_ head 2 != x00) then fail ErrProxyProtocol
  else if at_ head 1 != x00 then
    if (at_ head 1 == x02) || (at_ head 1 == x07) || (at_ head 1 == x08) then fail ErrProxyRejected
    else if in_range 1 (b2z (at_ head 1)) 6 then fail ErrOther
    else fail ErrProxyProtocol
  else
    bound ← (if at_ head 3 == x01 then mret 4
             else if at_ head 3 == x04 then mret 16
             else if at_ head 3 == x03 then n ← ReadFull 1; mret (b2z (at_ n 0))
             else fail ErrProxyProtocol);
    _ ← ReadFull (bound + 2);
    mret tt.

Definition socks5Connect (user : option Userinfo) (target : gostring) : Net unit :=
  _ ← guard_net (validateProxyTarget target) ErrProxyConfig;
  _ ← socks5Negotiate user;
  match socks5Request target with
  | inl e => fail e
  | inr req => _ ← Write req; socks5ReadReply
  end.

(** ** HTTP CONNECT *)

Definition crlf : gostring := [x0d; x0a].
Definition crlf2 : gostring := crlf ++ crlf.

Definition validHTTPVersion (tok : gostring) : bool :=
  match CutPrefix tok §"HTTP/" with
  | Some [a; dot; b] => (dot == x2e) && is_digit a && is_digit b
  | _ => false
  end.

Definition parseHTTPStatus (s : gostring) : option Z :=
  if len s != 3 then None
  else if negb (forallb is_digit s) then None
  else let '(n, _) := Atoi s in if (n <? 100) || (599 <? n) then None else Some n.

(** The head of the response, read a byte at a time. *)
Fixpoint read_head (head inbox : gostring) : (dialErr + gostring) * gostring :=
  if HasSuffix head crlf2 then (inr head, inbox)
  else if 8192 <? len head then (inl ErrProxyProtocol, inbox)
  else match inbox with
       | [] => (inl ErrOther, [])
       | c :: inbox => read_head (head ++ [c]) inbox
       end.
Definition readHTTPConnectHead : Net gostring := fun w =>
  let '(r, rest) := read_head [] (inbox w) in (r, MkWire (sent w) rest (room w)).

Definition connect_request (user : option Userinfo) (target : gostring) : gostring :=
  §"CONNECT " ++ target ++ §" HTTP/1.1" ++ crlf ++ §"Host: " ++ target ++ crlf ++
  match user with
  | Some user => §"Proxy-Authorization: Basic " ++ EncodeToString (Username user ++ §":" ++ default [] (Password user)) ++ crlf
  | None => []
  end ++ crlf.

(** What a status says, [None] for a tunnel. *)
Definition connect_status (head : gostring) : option dialErr :=
  let i := Index head crlf in
  let status := if 0 <=? i then slice_to head i else head in
  match Fields status with
  | f0 :: f1 :: _ =>
      if negb (validHTTPVersion f0) then Some ErrProxyProtocol
      else match parseHTTPStatus f1 with
      | None => Some ErrProxyProtocol
      | Some code =>
          if (200 <=? code) && (code <? 300) then None
          else if (code =? 408) || (code =? 429) || ((500 <=? code) && (code <? 600)) then Some ErrOther
          else Some ErrProxyRejected
      end
  | _ => Some ErrProxyProtocol
  end.

Definition httpConnect (user : option Userinfo) (target : gostring) : Net unit :=
  _ ← guard_net (validateProxyTarget target) ErrProxyConfig;
  _ ← guard_net (match user with Some user => validateProxyCreds §"http" user | None => true end) ErrProxyConfig;
  _ ← Write (connect_request user target);
  head ← readHTTPConnectHead;
  match connect_status head with None => mret tt | Some e => fail e end.

(** ** Dial *)

(** What the dialer does with sockets. *)
Inductive sockEvent := Connected (host : gostring) | Closed.

(** [tcp] is the network: the connection opened to an address, or none.  [canceled] says
    that the context had ended when the handshake failed. *)
Definition Dial (canceled : bool) (tcp : gostring -> option Wire) (proxy : option URL) (target : gostring) : (dialErr + Wire) * list sockEvent :=
  match proxy with
  | None => (inl ErrProxyConfig, [])
  | Some proxy =>
      if negb (validateProxyURL proxy) then (inl ErrProxyConfig, [])
      else if negb (validateProxyTarget target) then (inl ErrProxyConfig, [])
      else match tcp (Host proxy) with
      | None => (inl ErrOther, [])
      | Some conn =>
          let '(err, conn) :=
            if (Scheme proxy == §"socks5") || (Scheme proxy == §"socks5h") then socks5Connect (User proxy) target conn
            else if Scheme proxy == §"http" then httpConnect (User proxy) target conn
            else (inl ErrProxyConfig, conn) in
          match err with
          | inl e => (inl (if canceled then ErrCanceled else e), [Connected (Host proxy); Closed])
          | inr _ => (inr conn, [Connected (Host proxy)])
          end
      end
  end.
(** ** RFC 1928, RFC 1929, RFC 7617: what the proxy reads *)

Fixpoint big (s : gostring) (acc : Z) : Z := match s with [] => acc | c :: s => big s (acc * 256 + b2z c) end.

(** A string behind a byte with its length. *)
Definition counted (s : gostring) : option (gostring * gostring) :=
  match s with
  | [] => None
  | n :: s => if b2z n <=? len s then Some (slice_to s (b2z n), slice_from s (b2z n)) else None
  end.

Definition rfc_greeting (s : gostring) : option (gostring * gostring) :=
  match s with x05 :: s => counted s | _ => None end.
Definition rfc_auth (s : gostring) : option (gostring * gostring * gostring) :=
  match s with
  | x01 :: s =>
      match counted s with
      | Some (u, s) => match counted s with Some (p, s) => Some (u, p, s) | None => None end
      | None => None
      end
  | _ => None
  end.

Inductive dest := Domain (host : gostring) | Address (ip : IP).

Definition rfc_port (d : dest) (s : gostring) : option (dest * Z * gostring) :=
  match s with a :: b :: s => Some (d, big [a; b] 0, s) | _ => None end.
Definition rfc_request (s : gostring) : option (dest * Z * gostring) :=
  match s with
  | x05 :: x01 :: x00 :: x01 :: s => if 4 <=? len s then rfc_port (Address (IPv4 (big (slice_to s 4) 0))) (slice_from s 4) else None
  | x05 :: x01 :: x00 :: x04 :: s => if 16 <=? len s then rfc_port (Address (IPv6 (big (slice_to s 16) 0))) (slice_from s 16) else None
  | x05 :: x01 :: x00 :: x03 :: s => match counted s with Some (h, s) => rfc_port (Domain h) s | None => None end
  | _ => None
  end.

(** What a proxy understands of all a client wrote, when it asked for credentials or
    not: the methods offered, the credentials, the destination and the port. *)
Definition rfc_session (auth : bool) (s : gostring) : option (gostring * option (gostring * gostring) * dest * Z) :=
  match rfc_greeting s with
  | None => None
  | Some (methods, s) =>
      match (if auth then match rfc_auth s with Some (u, p, s) => Some (Some (u, p), s) | None => None end else Some (None, s)) with
      | None => None
      | Some (creds, s) =>
          match rfc_request s with Some (d, port, []) => Some (methods, creds, d, port) | _ => None end
      end
  end.

(** What a proxy answers when it opens the connection. *)
Inductive reply_address : gostring -> Prop :=
  | reply_v4 a : len a = 4 -> reply_address (x01 :: a)
  | reply_v6 a : len a = 16 -> reply_address (x04 :: a)
  | reply_name n a : len a = b2z n -> reply_address (x03 :: n :: a).
Inductive proxy_answers : bool -> gostring -> Prop :=
  | answers auth a port :
      reply_address a -> len port = 2 ->
      proxy_answers auth ((if auth then [x05; x02; x01; x00] else [x05; x00]) ++ [x05; x00; x00] ++ a ++ port).

(** The lines of a request head, each up to its CRLF. *)
Fixpoint http_lines (cur s : gostring) : list gostring :=
  match s with
  | x0d :: ((x0a :: s) as t) => cur :: http_lines [] s
  | c :: s => http_lines (cur ++ [c]) s
  | [] => [cur]
  end.

(** ** Numbers and strings on the wire *)

Lemma low_byte_small n : 0 <= n < 256 -> b2z (low_byte n) = n.
Proof.
  intros Hn. unfold low_byte. change 0xFF with (Z.ones 8). rewrite Z.land_ones, Z.mod_small by done. by apply b2z_z2b.
Qed.
Lemma low_byte_mod n : b2z (low_byte n) = n mod 256.
Proof. unfold low_byte. change 0xFF with (Z.ones 8). rewrite Z.land_ones by done. apply b2z_z2b, Z.mod_pos_bound. done. Qed.

Lemma big_app s t acc : big (s ++ t) acc = big t (big s acc).
Proof. revert acc. induction s as [|c s IH]; intros acc; [done|apply IH]. Qed.
Lemma be_length n a : length (be n a) = n.
Proof. revert a. induction n as [|n IH]; intros a; [done|]. cbn [be]. rewrite length_app, IH. cbn. lia. Qed.
Lemma len_be n a : len (be n a) = Z.of_nat n.
Proof. unfold len. by rewrite be_length. Qed.
Lemma big_be n a : 0 <= a < 256 ^ Z.of_nat n -> big (be n a) 0 = a.
Proof.
  revert a. induction n as [|n IH]; intros a Ha; [cbn in *; lia|]. cbn [be]. rewrite Nat2Z.inj_succ, Z.pow_succ_r in Ha by lia.
  rewrite big_app, Z.shiftr_div_pow2 by done. change (2 ^ 8) with 256.
  rewrite IH by (split; [apply Z.div_pos; lia|apply Z.div_lt_upper_bound; lia]). cbn [big]. rewrite low_byte_mod. pose proof (Z.div_mod a 256). lia.
Qed.

Lemma counted_app s t : len s < 256 -> counted (low_byte (len s) :: s ++ t) = Some (s, t).
Proof.
  intros Hs. cbn [counted]. rewrite low_byte_small by (pose proof (len_nonneg s); lia).
  rewrite (proj2 (Z.leb_le _ _)) by (rewrite len_app; pose proof (len_nonneg t); lia). by rewrite slice_to_app, slice_from_app.
Qed.

Lemma ParsePort_range s n : ParsePort s = Some n -> 1 <= n <= 65535.
Proof.
  unfold ParsePort. destruct (_ || _); [done|]. destruct (negb _); [done|]. destruct (Atoi s) as [k ok]. destruct (_ || _) eqn:E; [done|].
  intros [= <-]. rewrite !orb_false_iff, !Z.ltb_ge in E. lia.
Qed.

(** Where a host stands for a client of the proxy. *)
Definition dest_of (host : gostring) : dest := match ParseIP host with Some ip => Address (To4 ip) | None => Domain host end.

Lemma rfc_port_bytes d port : 0 <= port < 65536 -> rfc_port d [low_byte (Z.shiftr port 8); low_byte port] = Some (d, port, []).
Proof. intros Hp. cbn [rfc_port]. change [low_byte (Z.shiftr port 8); low_byte port] with (be 2 port). by rewrite big_be. Qed.

(** The proxy reads the destination it was asked for. *)
Lemma request_read target :
  ValidHostPort target = true ->
  exists host ps port req, SplitHostPort target = Some (host, ps) /\ ParsePort ps = Some port /\
    socks5Request target = inr req /\ rfc_request req = Some (dest_of host, port, []) /\ len req <= 262.
Proof.
  unfold ValidHostPort, socks5Request. destruct (SplitHostPort target) as [[host ps]|]; [|done].
  destruct (bool_decide (host = [])); [done|]. destruct (255 <? len host) eqn:El; [done|]. apply Z.ltb_ge in El. cbn [orb]. destruct (_ || _); [done|].
  intros [port Hp]%bool_decide_eq_true. rewrite Hp. pose proof (ParsePort_range _ _ Hp) as Hr.
  exists host, ps, port. unfold dest_of. destruct (ParseIP host) as [ip|] eqn:Ei.
  - pose proof (To4_ok _ (ParseIP_ok _ _ Ei)) as Hok. destruct (To4 ip) as [a|a]; cbn [ip_ok] in Hok; eexists; split_and!; try done.
    + cbn [app rfc_request]. rewrite len_app, len_be. change 4 with (len (be 4 a)) at 2 3. rewrite slice_to_app, slice_from_app, big_be by done.
      apply rfc_port_bytes. lia.
    + cbn [app rfc_request]. rewrite len_app, len_be. change 16 with (len (be 16 a)) at 2 3. rewrite slice_to_app, slice_from_app, big_be by done.
      apply rfc_port_bytes. lia.
  - eexists; split_and!; try done.
    + cbn [app rfc_request]. rewrite counted_app by lia. apply rfc_port_bytes. lia.
    + cbn [app]. rewrite !len_cons, len_app, !len_cons, len_nil. lia.
Qed.

(** ** Running a handshake *)

Lemma bind_done {A B} (m : Net A) (f : A -> Net B) w x w' :
  (m ≫= f) w = (inr x, w') <-> exists y w1, m w = (inr y, w1) /\ f y w1 = (inr x, w').
Proof.
  unfold mbind, net_bind. destruct (m w) as [[e|y] w1].
  - split; [done|]. by intros (y & w2 & [=] & _).
  - split; [intros Hf; by exists y, w1|]. by intros (y' & w2 & [= <- <-] & Hf).
Qed.
Lemma guard_done b e w x w' : guard_net b e w = (inr x, w') <-> b = true /\ w' = w.
Proof. destruct b, x; cbn; unfold fail, mret, net_ret; split; [by intros [= <-]|by intros [_ ->]|done|by intros [? _]]. Qed.
Lemma Write_done p w x w' :
  Write p w = (inr x, w') <-> len p <= room w /\ w' = MkWire (sent w ++ p) (inbox w) (room w - len p).
Proof.
  unfold Write. destruct x, (Z.leb_spec (len p) (room w)); split; [by intros [= <-]|by intros [_ ->]|done|]. intros [? _]. lia.
Qed.
Lemma ReadFull_done n w s w' : 0 <= n ->
  ReadFull n w = (inr s, w') <-> len s = n /\ exists rest, inbox w = s ++ rest /\ w' = MkWire (sent w) rest (room w).
Proof.
  intros Hn. unfold ReadFull. destruct (Z.leb_spec n (len (inbox w))) as [Hl|Hl].
  - split.
    + intros [= <- <-]. split; [apply len_slice_to; lia|]. eexists. by rewrite slice_cat.
    + intros [<- (rest & -> & ->)]. by rewrite slice_to_app, slice_from_app.
  - split; [done|]. intros [<- (rest & E & _)]. rewrite E, len_app in Hl. pose proof (len_nonneg rest). lia.
Qed.

(** A buffer of [n] bytes, byte by byte. *)
Lemma buffer_bytes s n : len s = Z.of_nat n -> s = (fun i => at_ s i) <$> seq 0 n.
Proof.
  intros Hl. assert (length s = n) as <- by (unfold len in Hl; lia). clear Hl. induction s as [|c s IH]; [done|].
  cbn [length seq fmap list_fmap]. f_equal. rewrite <- fmap_S_seq, <- list_fmap_compose. exact IH.
Qed.
Lemma ReadFull_2 w s w' :
  ReadFull 2 w = (inr s, w') <-> exists rest, s = [at_ s 0; at_ s 1] /\ inbox w = [at_ s 0; at_ s 1] ++ rest /\ w' = MkWire (sent w) rest (room w).
Proof.
  rewrite ReadFull_done by done. split.
  - intros [Hl (rest & E & ->)]. pose proof (buffer_bytes s 2 Hl) as Hs. cbn in Hs. exists rest. split; [done|]. rewrite <- Hs. done.
  - intros (rest & Hs & E & ->). split; [by rewrite Hs|]. exists rest. by rewrite E, <- Hs.
Qed.

Definition auth_message (user : Userinfo) : gostring :=
  [x01; low_byte (len (Username user))] ++ Username user ++ [low_byte (len (default [] (Password user)))] ++ default [] (Password user).

Lemma auth_done user w x w' :
  socks5Auth user w = (inr x, w') <->
  exists u rest, user = Some u /\ validateProxyCreds §"socks5" u = true /\ len (auth_message u) <= room w /\
    inbox w = [x01; x00] ++ rest /\ w' = MkWire (sent w ++ auth_message u) rest (room w - len (auth_message u)).
Proof.
  destruct user as [u|]; cbn [socks5Auth]; [|split; [done|by intros (? & ? & [=] & _)]]. fold (auth_message u).
  rewrite bind_done. setoid_rewrite bind_done. split.
  - intros ([] & w1 & [Hv ->]%guard_done & [] & w2 & [Hr ->]%Write_done & H). apply bind_done in H as (st & w3 & H & H').
    apply ReadFull_2 in H as (rest & Hs & E & ->). cbn [inbox sent room] in *. apply bind_done in H' as ([] & w4 & [H0%bool_decide_eq_true ->]%guard_done & [H1%bool_decide_eq_true ->]%guard_done).
    exists u, rest. rewrite H0, H1 in E. done.
  - intros (? & rest & [= <-] & Hv & Hr & E & ->). exists tt, w. split; [by apply guard_done|]. exists tt, (MkWire (sent w ++ auth_message u) (inbox w) (room w - len (auth_message u))).
    split; [by apply Write_done|]. apply bind_done. exists [x01; x00], (MkWire (sent w ++ auth_message u) rest (room w - len (auth_message u))). split; [by apply ReadFull_2; exists rest|].
    apply bind_done. exists tt. eexists. split; [by apply guard_done|]. destruct x. by apply guard_done.
Qed.

Definition offered (user : option Userinfo) : gostring := [x00] ++ match user with Some _ => [x02] | None => [] end.
Definition greeting (user : option Userinfo) : gostring := [x05; low_byte (len (offered user))] ++ offered user.
Definition auth_bytes (auth : bool) (user : option Userinfo) : gostring :=
  match auth, user with true, Some u => auth_message u | _, _ => [] end.
Definition may_auth (auth : bool) (user : option Userinfo) : Prop :=
  auth = true -> exists u, user = Some u /\ validateProxyCreds §"socks5" u = true.

Lemma negotiate_done user w x w' :
  socks5Negotiate user w = (inr x, w') <->
  exists (auth : bool) rest, inbox w = (if auth then [x05; x02; x01; x00] else [x05; x00]) ++ rest /\ may_auth auth user /\
    let s := greeting user ++ auth_bytes auth user in len s <= room w /\ w' = MkWire (sent w ++ s) rest (room w - len s).
Proof.
  unfold socks5Negotiate. fold (offered user). fold (greeting user). rewrite bind_done. split.
  - intros ([] & w1 & [Hr ->]%Write_done & H). apply bind_done in H as (sel & w2 & H & H'). apply ReadFull_2 in H as (rest & Hs & E & ->). cbn [inbox sent room] in *.
    destruct (decide (at_ sel 0 = x05)) as [H0|H0]; [|by rewrite (bool_decide_eq_false_2 _ H0) in H'].
    rewrite (bool_decide_eq_true_2 _ H0) in H'. cbn [negb] in H'. rewrite H0 in E.
    destruct (decide (at_ sel 1 = x00)) as [H1|H1]; [rewrite (bool_decide_eq_true_2 _ H1) in H'|rewrite (bool_decide_eq_false_2 _ H1) in H'].
    + injection H' as _ <-. rewrite H1 in E. exists false, rest. split; [done|]. split; [done|]. cbn [auth_bytes]. by rewrite app_nil_r.
    + destruct (decide (at_ sel 1 = x02)) as [H2|H2]; [rewrite (bool_decide_eq_true_2 _ H2) in H'|by rewrite (bool_decide_eq_false_2 _ H2) in H'].
      apply auth_done in H' as (u & rest' & -> & Hv & Hr' & E' & ->). cbn [inbox sent room] in *. rewrite H2, E' in E. exists true, rest'.
      split; [done|]. split; [by exists u|]. cbn [auth_bytes]. rewrite len_app, <- app_assoc. split; [lia|]. f_equal. lia.
  - intros (auth & rest & E & Hm & Hr & ->). cbv zeta in *. rewrite len_app in *. pose proof (len_nonneg (auth_bytes auth user)).
    exists tt. eexists. split; [apply Write_done; by split; [lia|]|]. apply bind_done. destruct auth.
    + destruct (Hm eq_refl) as (u & -> & Hv). exists [x05; x02], (MkWire (sent w ++ greeting (Some u)) ([x01; x00] ++ rest) (room w - len (greeting (Some u)))).
      split; [apply ReadFull_2; by exists ([x01; x00] ++ rest)|]. cbn [at_ nth]. rewrite !bool_decide_eq_true_2, bool_decide_eq_false_2 by done. cbn [negb].
      apply auth_done. exists u, rest. cbn [inbox sent room auth_bytes] in *. split_and!; [done|done|lia|done|]. rewrite <- app_assoc. f_equal. lia.
    + exists [x05; x00]. eexists. split; [apply ReadFull_2; by exists rest|]. cbn [at_ nth sent room auth_bytes]. rewrite !bool_decide_eq_true_2 by done. destruct x.
      cbn [negb]. rewrite app_nil_r, len_nil, Z.add_0_r. done.
Qed.

(** The part of a reply behind the bytes that announce success. *)
Definition bound_length (atyp : byte) : Net Z :=
  if atyp == x01 then mret 4
  else if atyp == x04 then mret 16
  else if atyp == x03 then n ← ReadFull 1; mret (b2z (at_ n 0))
  else fail ErrProxyProtocol.

Lemma bound_done atyp w x w' :
  (bound ← bound_length atyp; _ ← ReadFull (bound + 2); mret tt) w = (inr x, w') <->
  exists a port rest, reply_address (atyp :: a) /\ len port = 2 /\ inbox w = a ++ port ++ rest /\ w' = MkWire (sent w) rest (room w).
Proof.
  assert (forall k w1, 0 <= k -> (_ ← ReadFull (k + 2); mret tt) w1 = (inr x, w') <->
    exists a port rest, len a = k /\ len port = 2 /\ inbox w1 = a ++ port ++ rest /\ w' = MkWire (sent w1) rest (room w1)) as Hk.
  { intros k w1 Hk. rewrite bind_done. split.
    - intros (s & w2 & (Hl & rest & E & ->)%ReadFull_done & [= _ <-]); [|lia]. exists (slice_to s k), (slice_from s k), rest.
      rewrite len_slice_to, len_slice_from, E, app_assoc, slice_cat by lia. split_and!; [done|lia|done|done].
    - intros (a & port & rest & Ha & Hp & E & ->). exists (a ++ port), (MkWire (sent w1) rest (room w1)). split; [|by destruct x].
      apply ReadFull_done; [lia|]. rewrite len_app. split; [lia|]. exists rest. by rewrite E, app_assoc. }
  rewrite bind_done. unfold bound_length. split.
  - destruct (bool_decide (atyp = x01)) eqn:E1; [apply bool_decide_eq_true in E1 as ->|].
    { intros (? & ? & [= <- <-] & (a & port & rest & Ha & Hp & E & ->)%Hk); [|done]. exists a, port, rest. by split; [constructor|]. }
    destruct (bool_decide (atyp = x04)) eqn:E4; [apply bool_decide_eq_true in E4 as ->|].
    { intros (? & ? & [= <- <-] & (a & port & rest & Ha & Hp & E & ->)%Hk); [|done]. exists a, port, rest. by split; [constructor|]. }
    destruct (bool_decide (atyp = x03)) eqn:E3; [apply bool_decide_eq_true in E3 as ->|by intros (? & ? & ? & _)].
    intros (k & w1 & H & Hf). apply bind_done in H as (n & w2 & (Hn & rest & E & ->)%ReadFull_done & [= <- <-]); [|done].
    pose proof (buffer_bytes n 1 Hn) as Hb. cbn in Hb. apply Hk in Hf as (a & port & rest' & Ha & Hp & E' & ->); [|apply b2z_range]. cbn [inbox sent room] in *.
    exists (at_ n 0 :: a), port, rest'. split; [by constructor|]. split; [done|]. split; [|done]. rewrite E, E'. rewrite Hb at 1. done.
  - intros (a & port & rest & Ha & Hp & E & ->). inversion Ha as [a' Hl|a' Hl|n a' Hl]; subst; cbn [app] in E.
    + exists 4, w. split; [done|]. apply Hk; [done|]. by exists a, port, rest.
    + exists 16, w. split; [done|]. apply Hk; [done|]. by exists a, port, rest.
    + exists (b2z n), (MkWire (sent w) (a' ++ port ++ rest) (room w)). split.
      * rewrite !bool_decide_eq_false_2, bool_decide_eq_true_2 by done. apply bind_done. exists [n], (MkWire (sent w) (a' ++ port ++ rest) (room w)). split; [|done]. apply ReadFull_done; [done|]. split; [done|]. by exists (a' ++ port ++ rest).
      * apply Hk; [apply b2z_range|]. by exists a', port, rest.
Qed.

Lemma reply_done w x w' :
  socks5ReadReply w = (inr x, w') <->
  exists a port rest, reply_address a /\ len port = 2 /\ inbox w = [x05; x00; x00] ++ a ++ port ++ rest /\ w' = MkWire (sent w) rest (room w).
Proof.
  unfold socks5ReadReply. fold bound_length. rewrite bind_done. split.
  - intros (h & w1 & (Hl & rest & E & ->)%ReadFull_done & H); [|done]. pose proof (buffer_bytes h 4 Hl) as Hb. cbn in Hb.
    destruct (decide (at_ h 0 = x05)) as [H0|H0]; [rewrite (bool_decide_eq_true_2 _ H0) in H|by rewrite (bool_decide_eq_false_2 _ H0) in H].
    destruct (decide (at_ h 2 = x00)) as [H2|H2]; [rewrite (bool_decide_eq_true_2 _ H2) in H|by rewrite (bool_decide_eq_false_2 _ H2) in H].
    destruct (decide (at_ h 1 = x00)) as [H1|H1]; [rewrite (bool_decide_eq_true_2 _ H1) in H|rewrite (bool_decide_eq_false_2 _ H1) in H].
    2: { cbn [negb orb] in H. repeat case_match; done. }
    cbn [negb orb] in H. apply (bound_done (at_ h 3)) in H as (a & port & rest' & Ha & Hp & E' & ->). cbn [inbox sent room] in *.
    exists (at_ h 3 :: a), port, rest'. split; [done|]. split; [done|]. split; [|done]. rewrite E, E', Hb, H0, H1, H2. done.
  - intros (a & port & rest & Ha & Hp & E & ->). assert (exists t a', a = t :: a') as (t & a' & ->) by (destruct Ha; eauto).
    exists [x05; x00; x00; t], (MkWire (sent w) (a' ++ port ++ rest) (room w)). split; [apply ReadFull_done; [done|]; split; [done|]; by exists (a' ++ port ++ rest)|].
    cbn [at_ nth]. rewrite !bool_decide_eq_true_2 by done. cbn [negb orb]. apply (bound_done t). by exists a', port, rest.
Qed.

(** ** SOCKS5: what a tunnel took *)

Lemma socks_creds u : validateProxyCreds §"socks5" u = true ->
  exists name pass, u = MkUser name (Some pass) /\ 1 <= len name <= 255 /\ 1 <= len pass <= 255.
Proof.
  destruct u as [name [pass|]]; [|done]. intros Hc. exists name, pass. split; [done|]. revert Hc. unfold validateProxyCreds. cbn [Username Password].
  change (§"socks5" == §"http") with false. cbn [negb]. rewrite negb_true_iff, !orb_false_iff, !Z.ltb_ge. lia.
Qed.

Lemma session_read auth user target :
  ValidHostPort target = true -> may_auth auth user ->
  exists host ps port req, SplitHostPort target = Some (host, ps) /\ ParsePort ps = Some port /\ socks5Request target = inr req /\
    rfc_session auth (greeting user ++ auth_bytes auth user ++ req) =
      Some (offered user, (if auth then (fun u => (Username u, default [] (Password u))) <$> user else None), dest_of host, port) /\
    len (greeting user ++ auth_bytes auth user ++ req) <= 800.
Proof.
  intros Hv Hm. destruct (request_read target Hv) as (host & ps & port & req & H1 & H2 & H3 & H4 & H5). exists host, ps, port, req. split_and!; [done..| |].
  - unfold rfc_session, rfc_greeting, greeting. cbn [app]. rewrite counted_app by (destruct user; done). destruct auth.
    + destruct (Hm eq_refl) as (? & -> & (u & p & -> & Hu & Hp)%socks_creds). cbn [auth_bytes].
      unfold auth_message. cbn [Username Password]. change (default [] (Some p)) with p. cbn [app rfc_auth]. rewrite <- app_assoc, counted_app by lia. cbn [app]. rewrite counted_app by lia. by rewrite H4.
    + cbn [auth_bytes app]. by rewrite H4.
  - rewrite !len_app. assert (len (greeting user) <= 4) by (destruct user; done). assert (len (auth_bytes auth user) <= 513); [|lia].
    destruct auth; [|done]. destruct (Hm eq_refl) as (? & -> & (u & p & -> & Hu & Hp)%socks_creds). cbn [auth_bytes]. unfold auth_message. cbn [Username Password]. change (default [] (Some p)) with p. rewrite !len_app, !len_cons, !len_nil. lia.
Qed.

(** What the SOCKS5 handshake says and what it consumes. *)
Definition socks_tunnel (user : option Userinfo) (target : gostring) (c w : Wire) : Prop :=
  exists auth answers s host ps port,
    proxy_answers auth answers /\ inbox c = answers ++ inbox w /\
    sent w = sent c ++ s /\ room w = room c - len s /\ SplitHostPort target = Some (host, ps) /\ ParsePort ps = Some port /\
    rfc_session auth s = Some (offered user, (if auth then (fun u => (Username u, default [] (Password u))) <$> user else None), dest_of host, port).

Lemma socks_done user target c x w :
  socks5Connect user target c = (inr x, w) -> ValidHostPort target = true /\ socks_tunnel user target c w.
Proof.
  unfold socks5Connect. intros ([] & w0 & [Hv ->]%guard_done & H)%bind_done. split; [done|].
  apply bind_done in H as ([] & w1 & (auth & rest & E & Hm & Hr & ->)%negotiate_done & H).
  destruct (session_read auth user target Hv Hm) as (host & ps & port & req & H1 & H2 & H3 & H4 & _). rewrite H3 in H.
  apply bind_done in H as ([] & w2 & [Hr' ->]%Write_done & (a & pt & rest' & Ha & Hp & E' & ->)%reply_done). cbn [inbox sent room] in *.
  exists auth, ((if auth then [x05; x02; x01; x00] else [x05; x00]) ++ [x05; x00; x00] ++ a ++ pt), (greeting user ++ auth_bytes auth user ++ req), host, ps, port.
  split_and!; try done; cbn [inbox sent room].
  - rewrite E, E'. by rewrite <- !app_assoc.
  - by rewrite <- !app_assoc.
  - rewrite !len_app. lia.
Qed.

(** A proxy that accepts gives a tunnel. *)
Lemma socks_reaches user target auth answers c rest :
  ValidHostPort target = true -> may_auth auth user -> proxy_answers auth answers -> inbox c = answers ++ rest -> 800 <= room c ->
  exists w, socks5Connect user target c = (inr tt, w) /\ inbox w = rest.
Proof.
  intros Hv Hm Ha E Hr. destruct (session_read auth user target Hv Hm) as (host & ps & port & req & _ & _ & H3 & _ & H5). rewrite !len_app in H5.
  destruct Ha as [auth a pt Ha Hp]. rewrite <- !app_assoc in E. set (s1 := greeting user ++ auth_bytes auth user).
  assert (len s1 <= room c /\ len req <= room c - len s1) as [Hr1 Hr2] by (unfold s1; rewrite len_app; pose proof (len_nonneg req); lia).
  set (w1 := MkWire (sent c ++ s1) ([x05; x00; x00] ++ a ++ pt ++ rest) (room c - len s1)).
  set (w2 := MkWire (sent w1 ++ req) (inbox w1) (room w1 - len req)).
  exists (MkWire (sent w2) rest (room w2)). split; [|done]. unfold socks5Connect.
  apply bind_done. exists tt, c. split; [by apply guard_done|]. apply bind_done. exists tt, w1. split; [apply negotiate_done; by exists auth, (inbox w1)|].
  rewrite H3. apply bind_done. exists tt, w2. split; [by apply Write_done|]. apply reply_done. by exists a, pt, rest.
Qed.

(** ** HTTP: the lines of the request and the head of the answer *)

Lemma LastIndexByte_range s c : -1 <= LastIndexByte s c.
Proof. induction s as [|x s IH]; cbn [LastIndexByte]; [done|]. destruct (_ =? _); [|lia]. by destruct (bool_decide _). Qed.

Lemma LastIndexByte_split s c : 0 <= LastIndexByte s c -> s = slice_to s (LastIndexByte s c) ++ c :: slice_from s (LastIndexByte s c + 1).
Proof.
  induction s as [|x s IH]; [done|]. cbn [LastIndexByte]. destruct (Z.eqb_spec (LastIndexByte s c) (-1)) as [E|E].
  - destruct (bool_decide (x = c)) eqn:Ex; [|done]. apply bool_decide_eq_true in Ex as ->. done.
  - intros _. pose proof (LastIndexByte_range s c) as Hn. assert (0 <= LastIndexByte s c) as H0 by lia.
    rewrite (IH H0) at 1. unfold slice_to, slice_from. rewrite !Z2Nat.inj_add by lia. change (Z.to_nat 1) with 1%nat. rewrite !Nat.add_1_r. cbn [take drop app]. done.
Qed.

Lemma index_found s c : 0 <= IndexByte s c -> c ∈ s.
Proof. intros Hi. destruct (decide (c ∈ s)) as [|Hn%IndexByte_none]; [done|lia]. Qed.

(** Nothing of an address is outside its host, its port and the punctuation. *)
Lemma SplitHostPort_bytes s h p c : SplitHostPort s = Some (h, p) -> c ∈ s -> c ∈ h \/ c ∈ p \/ (c ∈ [x5b; x5d; x3a]).
Proof.
  unfold SplitHostPort. set (i := LastIndexByte s x3a). destruct (Z.ltb_spec i 0) as [|Hi]; [done|].
  pose proof (LastIndexByte_split s x3a Hi) as Hs. fold i in Hs. destruct s as [|c0 t]; [done|]. intros H Hc. rewrite Hs in Hc.
  apply elem_of_app in Hc as [Hc|[->|Hc]%elem_of_cons]; [|right; right; set_solver|].
  2: { right. left. repeat case_match; simplify_eq/=; done. }
  destruct (bool_decide (c0 = x5b)) eqn:E0.
  - apply bool_decide_eq_true in E0 as ->. set (e := IndexByte (x5b :: t) x5d) in *. destruct (Z.ltb_spec e 0) as [|He]; [done|]. cbv zeta in H.
    destruct (_ =? len _); [done|]. destruct (Z.eqb_spec (e + 1) i) as [Ei|]; [|done]. do 2 (destruct (_ <=? _) in H; [done|]). injection H as <- <-.
    assert (slice_to (x5b :: t) i = x5b :: slice_to t (e - 1) ++ [x5d]) as E.
    { assert (x5b :: t = slice_to (x5b :: t) e ++ x5d :: slice_from (x5b :: t) (e + 1)) as Es by (apply IndexByte_split, (index_found _ _ He)).
      assert (e <> 0) by (intros E1; pose proof (IndexByte_lookup _ _ (index_found _ _ He)) as Hl; fold e in Hl; by rewrite E1 in Hl).
      assert (len (slice_to (x5b :: t) e) = e) as El by (apply len_slice_to; pose proof (IndexByte_nonneg _ _ (index_found _ _ He)) as Hr; fold e in Hr; lia).
      rewrite Es at 1. rewrite <- Ei. unfold slice_to at 1. rewrite take_app_ge by (unfold len in El; lia).
      replace (Z.to_nat (e + 1) - length (slice_to (x5b :: t) e))%nat with 1%nat by (unfold len in El; lia). cbn [take].
      unfold slice_to. replace (Z.to_nat e) with (S (Z.to_nat (e - 1))) by lia. done. }
    rewrite E in Hc. change (slice_from (x5b :: t) 1) with t. apply elem_of_cons in Hc as [->|[Hc| ->%list_elem_of_singleton]%elem_of_app]; [right; right; set_solver|by left|right; right; set_solver].
  - cbv zeta in H. destruct (_ <=? IndexByte (slice_to _ _) _); [done|]. do 2 (destruct (_ <=? _) in H; [done|]). injection H as <- <-. by left.
Qed.

Lemma target_plain target : ValidHostPort target = true -> x0d ∉ target.
Proof.
  unfold ValidHostPort. destruct (SplitHostPort target) as [[h p]|] eqn:E; [|done]. destruct (_ == _); [done|]. destruct (_ || _) eqn:E1; [done|].
  intros [port Hp]%bool_decide_eq_true Hc. rewrite !orb_false_iff in E1. destruct E1 as [[_ E1] _].
  destruct (SplitHostPort_bytes _ _ _ _ E Hc) as [Hh|[Hh|Hh]].
  - assert (existsb (ContainsByte [x20; x09; x0d; x0a; x2f; x40; x5c; x3f; x23; x25]) h = true) as Ht; [|unfold ContainsAny in E1; congruence].
    apply existsb_exists. exists x0d. split; [by apply list_elem_of_In|done].
  - unfold ParsePort in Hp. destruct (_ || _); [done|]. destruct (forallb is_digit p) eqn:Ed; [|done]. rewrite forallb_forall in Ed. by specialize (Ed x0d ltac:(by apply list_elem_of_In)).
  - set_solver.
Qed.

Lemma http_line cur s t : x0d ∉ s -> http_lines cur (s ++ crlf ++ t) = (cur ++ s) :: http_lines [] t.
Proof.
  revert cur. induction s as [|c s IH]; intros cur Hs; [by rewrite app_nil_r|]. apply not_elem_of_cons in Hs as [Hc Hs].
  replace (cur ++ c :: s) with ((cur ++ [c]) ++ s) by (by rewrite <- app_assoc). rewrite <- (IH _ Hs). by destruct c.
Qed.

(** The request is its lines and nothing else. *)
Lemma request_lines user target : ValidHostPort target = true ->
  http_lines [] (connect_request user target) =
    [§"CONNECT " ++ target ++ §" HTTP/1.1"; §"Host: " ++ target] ++
    match user with Some u => [§"Proxy-Authorization: Basic " ++ EncodeToString (Username u ++ §":" ++ default [] (Password u))] | None => [] end ++ [[]; []].
Proof.
  intros Ht%target_plain. unfold connect_request.
  replace (§"CONNECT " ++ target ++ §" HTTP/1.1" ++ crlf ++ §"Host: " ++ target ++ crlf ++ _) with
    ((§"CONNECT " ++ target ++ §" HTTP/1.1") ++ crlf ++ (§"Host: " ++ target) ++ crlf ++
     match user with Some u => §"Proxy-Authorization: Basic " ++ EncodeToString (Username u ++ §":" ++ default [] (Password u)) ++ crlf | None => [] end ++ crlf)
    by (rewrite <- !app_assoc; reflexivity).
  rewrite !http_line by set_solver. cbn [app]. do 2 f_equal. destruct user as [u|]; [|done].
  rewrite <- !app_assoc. rewrite (app_assoc (§"Proxy-Authorization: Basic ")), http_line; [done|].
  intros [Hc|Hc]%elem_of_app; [set_solver|]. pose proof (EncodeToString_chars (Username u ++ §":" ++ default [] (Password u))) as Hf. rewrite Forall_forall in Hf.
  apply Hf, b64char_plain in Hc as [Hc _]. done.
Qed.

(** The head ends at the first empty line. *)
Definition ends_head (h : gostring) : Prop := HasSuffix h crlf2 = true /\ forall n, (n < length h)%nat -> HasSuffix (take n h) crlf2 = false.

Lemma read_head_done I h h' rest :
  (forall n, (n < length h)%nat -> HasSuffix (take n h) crlf2 = false) -> len h <= 8193 ->
  read_head h I = (inr h', rest) <-> exists t, h' = h ++ t /\ I = t ++ rest /\ ends_head h' /\ len h' <= 8193.
Proof.
  revert h. induction I as [|c I IH]; intros h Hh Hl; cbn [read_head]; destruct (HasSuffix h crlf2) eqn:Es.
  1, 3: split;
    [intros [= <- <-]; exists []; rewrite app_nil_r; done
    |intros (t & -> & E & [_ He] & _); destruct t as [|d t]; [by rewrite app_nil_r, E|];
     specialize (He (length h) ltac:(rewrite length_app; cbn; lia)); rewrite take_app_length in He; congruence].
  - split; [destruct (_ <? _); done|]. intros (t & -> & E & [He _] & _). symmetry in E. apply app_eq_nil in E as [-> _]. rewrite app_nil_r in He. congruence.
  - destruct (Z.ltb_spec 8192 (len h)) as [Hg|Hg].
    + split; [done|]. intros (t & -> & E & [He _] & Hl'). rewrite len_app in Hl'. destruct t as [|d t]; [rewrite app_nil_r in He; congruence|].
      rewrite len_cons in Hl'. pose proof (len_nonneg t). lia.
    + assert (forall n, (n < length (h ++ [c]))%nat -> HasSuffix (take n (h ++ [c])) crlf2 = false) as Hh'.
      { intros n Hn. rewrite length_app in Hn. cbn in Hn. destruct (decide (n = length h)) as [->|]; [by rewrite take_app_length|].
        rewrite take_app_le by lia. apply Hh. lia. }
      rewrite (IH _ Hh') by (rewrite len_app, len_cons, len_nil; lia). split.
      * intros (t & -> & -> & He). exists (c :: t). by rewrite <- app_assoc in *.
      * intros (t & -> & E & He & Hl'). destruct t as [|d t]; [rewrite app_nil_r in He; destruct He; congruence|]. injection E as <- ->. exists t. by rewrite <- app_assoc.
Qed.

(** What the CONNECT handshake says and what it consumes. *)
Definition http_tunnel (user : option Userinfo) (target : gostring) (c w : Wire) : Prop :=
  exists head s auth,
    ends_head head /\ len head <= 8193 /\ connect_status head = None /\ inbox c = head ++ inbox w /\ sent w = sent c ++ s /\
    http_lines [] s = [§"CONNECT " ++ target ++ §" HTTP/1.1"; §"Host: " ++ target] ++ auth ++ [[]; []] /\
    match user with
    | None => auth = []
    | Some u => exists cred, auth = [§"Proxy-Authorization: Basic " ++ cred] /\
        exists plain, DecodeString cred = Some plain /\ Cut plain x3a = (Username u, default [] (Password u), true)
    end.

Lemma http_done user target c x w :
  httpConnect user target c = (inr x, w) -> ValidHostPort target = true /\ http_tunnel user target c w.
Proof.
  unfold httpConnect. intros ([] & w0 & [Hv ->]%guard_done & H1)%bind_done. split; [done|].
  apply bind_done in H1 as ([] & w1 & [Hu ->]%guard_done & H1). apply bind_done in H1 as ([] & w2 & [Hr ->]%Write_done & H1).
  apply bind_done in H1 as (head & w3 & H1 & H2). unfold readHTTPConnectHead in H1. cbn [inbox sent room] in H1.
  destruct (read_head [] (inbox c)) as [r rest] eqn:E. injection H1 as -> <-. apply read_head_done in E as (t & -> & E & He & Hl); [|cbn; lia|done].
  destruct (connect_status _) eqn:Es; [done|]. injection H2 as _ <-. cbn [inbox sent room app] in *.
  exists t, (connect_request user target). eexists. split_and!; [done..|by rewrite request_lines by done|]. destruct user as [u|]; [|done].
  eexists. split; [done|]. eexists. split; [apply base64_roundtrip|]. unfold validateProxyCreds in Hu. change (§"http" == §"http") with true in Hu. cbn iota in Hu.
  destruct (ContainsByte (Username u) x3a) eqn:Ec; [done|]. apply Cut_app. intros Hc%ContainsByte_spec. congruence.
Qed.

Lemma http_reaches user target head c rest :
  ValidHostPort target = true -> match user with Some u => validateProxyCreds §"http" u = true | None => True end ->
  ends_head head -> len head <= 8193 -> connect_status head = None -> inbox c = head ++ rest -> len (connect_request user target) <= room c ->
  exists w, httpConnect user target c = (inr tt, w) /\ inbox w = rest.
Proof.
  intros Hv Hu He Hl Hs E Hr. set (w1 := MkWire (sent c ++ connect_request user target) (inbox c) (room c - len (connect_request user target))).
  exists (MkWire (sent w1) rest (room w1)). split; [|done]. unfold httpConnect. apply bind_done. exists tt, c. split; [by apply guard_done|].
  apply bind_done. exists tt, c. split; [apply guard_done; by destruct user|]. apply bind_done. exists tt, w1. split; [by apply Write_done|].
  apply bind_done. exists head, (MkWire (sent w1) rest (room w1)). rewrite Hs. split; [|done]. unfold readHTTPConnectHead. cbn [inbox w1].
  assert (read_head [] (inbox c) = (inr head, rest)) as ->; [|done]. apply read_head_done; [cbn; lia|done|]. by exists head.
Qed.

(** ** Dial *)

(** The proxy sends what opens the tunnel, then [rest]. *)
Definition proxy_accepts (proxy : URL) (c : Wire) (rest : gostring) : Prop :=
  if Scheme proxy == §"http" then exists head, ends_head head /\ len head <= 8193 /\ connect_status head = None /\ inbox c = head ++ rest
  else exists auth answers, proxy_answers auth answers /\ (auth = true -> User proxy <> None) /\ inbox c = answers ++ rest.
Definition tunneled (proxy : URL) (target : gostring) (c w : Wire) : Prop :=
  if Scheme proxy == §"http" then http_tunnel (User proxy) target c w else socks_tunnel (User proxy) target c w.

Lemma proxy_valid proxy : validateProxyURL proxy = true ->
  (Scheme proxy = §"http" /\ match User proxy with Some u => validateProxyCreds §"http" u = true | None => True end) \/
  (Scheme proxy <> §"http" /\ (Scheme proxy == §"socks5") || (Scheme proxy == §"socks5h") = true /\ forall auth, (auth = true -> User proxy <> None) -> may_auth auth (User proxy)).
Proof.
  unfold validateProxyURL. destruct (negb (_ || _)) eqn:E; [done|]. destruct (ValidHostPort _); cbn [negb]; [|done]. destruct ((_ && _) || _ || _); [done|]. intros Hu.
  destruct (decide (Scheme proxy = §"http")) as [Es|Es]; [left; split; [done|]; rewrite Es in Hu; by destruct (User proxy)|right].
  split; [done|]. rewrite (bool_decide_eq_false_2 _ Es), orb_false_r, negb_false_iff in E. split; [done|]. intros auth Ha Ht. specialize (Ha Ht).
  destruct (User proxy) as [u|]; [|done]. exists u. split; [done|]. unfold validateProxyCreds in *. rewrite (bool_decide_eq_false_2 _ Es) in Hu. exact Hu.
Qed.


(** ** A run *)

Definition demo_proxy : URL := MkURL §"socks5" (Some (MkUser §"alice" (Some §"secret"))) §"127.0.0.1:9050" [] [] [].
Definition demo_wire : Wire := MkWire [] ([x05; x02; x01; x00; x05; x00; x00; x03; x02; x61; x62; x00; x50] ++ §"hello") 10000.

