(* ===== verification/Netconf.v ===== *)
(** * Network definitions: internal/netconf/netconf.go, internal/store/netconfigs.go

    A definition as the browsers edit it, what is checked before it is stored, and the
    configuration of the connection made of it. *)

From S2P Require Import Prelude GoStrings GoUtf8 GoNet ProxyDial IrcMsg Sasl Pacing Config Hub.

(** ** Names *)

Definition IsControl (r : Z) : bool := in_range 0 r 0x1F || in_range 0x7F r 0x9F.

(** The names the objects of the front end would inherit. *)
Definition prototype_names : list gostring :=
  [§"__proto__"; §"constructor"; §"prototype"; §"hasOwnProperty"; §"isPrototypeOf"; §"propertyIsEnumerable"; §"toLocaleString"; §"toString"; §"valueOf";
   §"__defineGetter__"; §"__defineSetter__"; §"__lookupGetter__"; §"__lookupSetter__"].

Definition ReservedRecoveryNetworkPrefix : gostring := §"__ircthing_invalid_row_".
Definition MaxNetworkNameBytes : Z := 300.
Definition MaxNetworkConfigs : Z := 64.
Definition MaxNetworkConfigBytes : Z := Z.shiftl 64 10.

(** The guard of the store. *)
Definition validateNetworkName (name : gostring) : bool :=
  if (name == []) || HasPrefix name ReservedRecoveryNetworkPrefix || (MaxNetworkNameBytes <? len name) || negb (ValidString name) then false
  else if existsb IsControl (runes name) then false
  else negb (existsb (fun p => name == p) prototype_names).

Definition ValidateNetworkConfigRecord (name config : gostring) : bool :=
  validateNetworkName name && negb ((len config =? 0) || (MaxNetworkConfigBytes <? len config)).

(** The guard of the definitions. *)
Inductive nameErr := NameShape | NameControl | NameReserved.

Definition validNetworkName (name : gostring) : option nameErr :=
  if (300 <? len name) || negb (ValidString name) then Some NameShape
  else if existsb IsControl (runes name) then Some NameControl
  else if HasPrefix name §"__ircthing_invalid_row_" then Some NameReserved
  else if existsb (fun p => name == p) prototype_names then Some NameReserved
  else None.

(** ** Definitions *)

Record SASLDef := MkSASLDef { sdMechanism : gostring; sdLogin : gostring; sdPassword : gostring; sdCertFile : gostring; sdKeyFile : gostring }.

Record Network := MkNetwork {
  nwName : gostring; nwAddr : gostring; nwTLS : bool; nwAllowPlaintext : bool; nwFingerprints : list gostring; nwProxy : gostring;
  nwWireGuard : option wgConfig; nwNick : gostring; nwUsername : gostring; nwRealname : gostring; nwPass : gostring;
  nwSASL : option SASLDef; nwChannels : list gostring; nwChannelKeys : gmap gostring gostring
}.

Definition EffectiveName (n : Network) : gostring := if nwName n != [] then nwName n else nwAddr n.

Definition maxChannels : Z := 4096.
Definition maxChannelLen : Z := 200.

Inductive netErr :=
  | NoAddr | BadAddr | NoNick | BadName (e : nameErr) | BadFallbackName (e : nameErr) | ProxyAndWireGuard
  | FramingBytes | NickSpaces | UsernameSpaces | TooManyChannels | EmptyChannel | BadChannel | LongChannel
  | TooManyKeys | BadKeyChannel | BadKey | ExternalWithoutCert.

Definition validateIdentity (n : Network) : option netErr :=
  if nwAddr n == [] then Some NoAddr
  else if negb (ValidHostPort (nwAddr n)) then Some BadAddr
  else if nwNick n == [] then Some NoNick
  else match validNetworkName (EffectiveName n) with
  | Some e => Some (if nwName n == [] then BadFallbackName e else BadName e)
  | None => if (nwProxy n != []) && bool_decide (is_Some (nwWireGuard n)) then Some ProxyAndWireGuard else None
  end.

Definition framing_bytes : gostring := [x0d; x0a; x00].
Definition framed_fields (n : Network) : list gostring :=
  [nwAddr n; nwNick n; nwUsername n; nwRealname n; nwPass n; nwProxy n] ++ match nwSASL n with Some s => [sdLogin s; sdPassword s] | None => [] end.

Fixpoint channels_err (l : list gostring) : option netErr :=
  match l with
  | [] => None
  | ch :: l =>
      if ch == [] then Some EmptyChannel
      else if ContainsAny ch (x20 :: framing_bytes) then Some BadChannel
      else if maxChannelLen <? len ch then Some LongChannel
      else channels_err l
  end.

(** [order] is the order in which the code ranges over the keys. *)
Fixpoint keys_err (order : list (gostring * gostring)) : option netErr :=
  match order with
  | [] => None
  | (ch, key) :: order =>
      if (ch == []) || ContainsAny ch (x20 :: framing_bytes) || (maxChannelLen <? len ch) then Some BadKeyChannel
      else if negb (ValidChannelKey key) then Some BadKey
      else keys_err order
  end.

Definition validateFraming (order : list (gostring * gostring)) (n : Network) : option netErr :=
  if existsb (fun v => ContainsAny v framing_bytes) (framed_fields n) then Some FramingBytes
  else if ContainsByte (nwNick n) x20 then Some NickSpaces
  else if ContainsByte (nwUsername n) x20 then Some UsernameSpaces
  else if maxChannels <? len (nwChannels n) then Some TooManyChannels
  else match channels_err (nwChannels n) with
  | Some e => Some e
  | None => if maxChannels <? Z.of_nat (size (nwChannelKeys n)) then Some TooManyKeys else keys_err order
  end.

Section definitions.
Context {Huni : Unicode}.

Definition validateSASLExternal (n : Network) : option netErr :=
  match nwSASL n with
  | None => None
  | Some s =>
      let mech := ToUpper (sdMechanism s) in
      let external := (mech == §"EXTERNAL") || ((mech == []) && (sdPassword s == [])) in
      if external && ((sdCertFile s == []) || (sdKeyFile s == [])) then Some ExternalWithoutCert else None
  end.

Definition Validate (order : list (gostring * gostring)) (n : Network) : option netErr :=
  match validateIdentity n with
  | Some e => Some e
  | None => match validateFraming order n with Some e => Some e | None => validateSASLExternal n end
  end.

(** The fields the connection takes over; the timeouts and limits are left to the
    defaults.  Loading the certificate files can fail. *)
Definition IRCConfig (certLoads : bool) (n : Network) : option Config.Config :=
  if match nwSASL n with Some s => (sdCertFile s != []) && negb certLoads | None => false end then None
  else
    Some (Config.MkConfig (nwName n) (nwAddr n) (nwTLS n) (nwAllowPlaintext n) (nwFingerprints n) (nwProxy n) (nwWireGuard n) (nwNick n) (nwUsername n) (nwRealname n)
            (nwPass n) ((fun s => Sasl.MkSASL (sdMechanism s) (sdLogin s) (sdPassword s) []) <$> nwSASL n) (nwChannels n) (nwChannelKeys n)
            (Backoff.MkConfig 0 0 0) 0 0 0 0 0 0).

End definitions.

(** ** The two guards agree *)

(** What a definition may be called the store accepts, and nothing else: the two checks
    of a name differ only in the empty one, which no definition has. *)
Lemma name_guards_agree name : name <> [] -> validateNetworkName name = bool_decide (validNetworkName name = None).
Proof.
  intros Hne. unfold validateNetworkName, validNetworkName, MaxNetworkNameBytes, ReservedRecoveryNetworkPrefix.
  rewrite (bool_decide_false (name = [])) by done. cbn [orb].
  destruct (300 <? len name), (ValidString name), (existsb IsControl (runes name)), (HasPrefix name (§"__ircthing_invalid_row_")), (existsb (fun p => name == p) prototype_names); done.
Qed.

Lemma channels_err_ok l : channels_err l = None -> Forall (fun ch => ch <> [] /\ ContainsAny ch (x20 :: framing_bytes) = false /\ len ch <= maxChannelLen) l.
Proof.
  induction l as [|ch l IH]; [constructor|]. cbn [channels_err]. case_bool_decide; [done|].
  destruct (ContainsAny ch (x20 :: framing_bytes)) eqn:E; [done|]. destruct (Z.ltb_spec maxChannelLen (len ch)); [done|]. intros Hl. constructor; [done|]. by apply IH.
Qed.

Lemma Validate_storable {Huni : Unicode} order n : Validate order n = None -> validateNetworkName (EffectiveName n) = true.
Proof.
  unfold Validate, validateIdentity. case_bool_decide as Ha; [done|]. destruct (ValidHostPort (nwAddr n)); [|done]. cbn [negb]. case_bool_decide; [done|].
  destruct (validNetworkName (EffectiveName n)) eqn:E; [done|]. intros _. rewrite name_guards_agree; [by rewrite E|].
  unfold EffectiveName. by case_bool_decide.
Qed.
