(* ===== verification/Networks.v ===== *)
(** * The life of a network: internal/hub/networks.go, internal/store/netconfigs.go

    Definitions are stored, edited, renamed and deleted at run time; each change stops
    the connection, commits one transaction and starts the new definition, with a
    rollback at each point that can fail.  [netOps] serializes these requests, so a
    request is one function here; what can fail in it (a query, a transaction, the start
    of a connection) is an argument. *)

From S2P Require Import Prelude GoStrings GoUtf8 GoNet Conn HubRoute Hub Policy Netconf.

(** encoding/json on definitions. *)
Class NetJson := { decodeNetwork : gostring -> option Network; encodeNetwork : Network -> gostring }.

Section networks.
Context {Huni : Unicode} {Hpol : PolicyJson} {Hnet : NetJson}.

Definition Parse (raw : gostring) : option Network :=
  match decodeNetwork raw with
  | None => None
  | Some n => if bool_decide (Validate (map_to_list (nwChannelKeys n)) n = None) then Some n else None
  end.

(** ** Channel lists *)

Definition maxPersistedChannels : Z := 4096.

(** The wanted channels, the first spelling of each fold, in order. *)
Fixpoint wanted_order (fold : gostring -> gostring) (seen : gset gostring) (wanted : list gostring) : list gostring :=
  match wanted with
  | [] => []
  | w :: wanted => if bool_decide (fold w ∈ seen) then wanted_order fold seen wanted else w :: wanted_order fold ({[fold w]} ∪ seen) wanted
  end.

(** The loop that appends, with the folds already present. *)
Fixpoint add_channels (fold : gostring -> gostring) (have : gset gostring) (out order : list gostring) : list gostring :=
  match order with
  | [] => out
  | w :: order =>
      if bool_decide (fold w ∈ have) || (maxPersistedChannels <=? len out) then add_channels fold have out order
      else add_channels fold ({[fold w]} ∪ have) (out ++ [w]) order
  end.

Definition editChannelList (chans wanted : list gostring) (add : bool) (fold : gostring -> gostring) : list gostring * bool :=
  let order := wanted_order fold ∅ wanted in
  if add then
    let out := add_channels fold (list_to_set (fold <$> chans)) chans order in
    (out, negb (length out =? length chans)%nat)
  else
    let out := List.filter (fun ch => negb (bool_decide (fold ch ∈ fold <$> order))) chans in
    (out, negb (length out =? length chans)%nat).

(** The stored spelling of a fold: the last entry of the list wins. *)
Definition storedName (fold : gostring -> gostring) (chans : list gostring) (fw : gostring) : option gostring :=
  last (List.filter (fun ch => fold ch == fw) chans).

Definition key_step (fold : gostring -> gostring) (chans : list gostring) (keys : gmap gostring gostring) (acc : gmap gostring gostring * bool) (w : gostring)
    : gmap gostring gostring * bool :=
  let key := default [] (keys !! w) in
  if key == [] then acc
  else match storedName fold chans (fold w) with
  | None => acc
  | Some name => if acc.1 !! name == Some key then acc else (<[name := key]> acc.1, true)
  end.

Definition editChannelKeys (stored : gmap gostring gostring) (chans wanted : list gostring) (keys : gmap gostring gostring) (add : bool) (fold : gostring -> gostring)
    : gmap gostring gostring * bool :=
  if add then
    if keys == ∅ then (stored, false) else foldl (key_step fold chans keys) (stored, false) wanted
  else
    let out := filter (fun kv => fold kv.1 ∉ fold <$> wanted) stored in
    (out, negb (size out =? size stored)%nat).

Definition with_channels (chans : list gostring) (keys : gmap gostring gostring) (n : Network) : Network :=
  MkNetwork (nwName n) (nwAddr n) (nwTLS n) (nwAllowPlaintext n) (nwFingerprints n) (nwProxy n) (nwWireGuard n) (nwNick n) (nwUsername n) (nwRealname n) (nwPass n)
    (nwSASL n) chans keys.

(** ** Tables and connections

    [H] is what hangs off the row of a network: buffers, messages, markers, monitors.
    [nsConfigs] maps the name of a definition to its row id and its JSON. *)
Context {H : Type}.
Variable purge : H -> H.

Record Nets := MkNets {
  nsConfigs : gmap gostring (Z * gostring);
  nsHistory : gmap gostring H;
  nsSettings : settings;
  nsProcs : gmap gostring Network;
  nsStates : gmap gostring gostring;
  nsRecovery : gmap gostring Z
}.

Definition set_configs (c : gmap gostring (Z * gostring)) (s : Nets) : Nets := MkNets c (nsHistory s) (nsSettings s) (nsProcs s) (nsStates s) (nsRecovery s).
Definition set_history (h : gmap gostring H) (s : Nets) : Nets := MkNets (nsConfigs s) h (nsSettings s) (nsProcs s) (nsStates s) (nsRecovery s).
Definition set_settings (r : settings) (s : Nets) : Nets := MkNets (nsConfigs s) (nsHistory s) r (nsProcs s) (nsStates s) (nsRecovery s).
Definition set_procs (p : gmap gostring Network) (s : Nets) : Nets := MkNets (nsConfigs s) (nsHistory s) (nsSettings s) p (nsStates s) (nsRecovery s).
Definition set_states (t : gmap gostring gostring) (s : Nets) : Nets := MkNets (nsConfigs s) (nsHistory s) (nsSettings s) (nsProcs s) t (nsRecovery s).
Definition set_recovery (r : gmap gostring Z) (s : Nets) : Nets := MkNets (nsConfigs s) (nsHistory s) (nsSettings s) (nsProcs s) (nsStates s) r.

(** *** The rows *)

Definition next_rowid (s : Nets) : Z := 1 + map_fold (fun _ r n => Z.max r.1 n) 0 (nsConfigs s).

(** What a read shows of a row: the text unless it is over the limit. *)
Record ConfigRow := MkRow { crName : gostring; crConfig : gostring; crOversized : bool }.
Definition NetworkConfig (name : gostring) (s : Nets) : option ConfigRow :=
  (fun r => if len r.2 <=? MaxNetworkConfigBytes then MkRow name r.2 false else MkRow name [] true) <$> nsConfigs s !! name.

(** INSERT ... ON CONFLICT (name) DO UPDATE. *)
Definition upsert_config (name config : gostring) (s : Nets) : Nets :=
  set_configs (<[name := (match nsConfigs s !! name with Some r => r.1 | None => next_rowid s end, config)]> (nsConfigs s)) s.

Definition PutNetworkConfig (name config : gostring) (ok : bool) (s : Nets) : option Nets :=
  if negb (ValidateNetworkConfigRecord name config) then None
  else if bool_decide (nsConfigs s !! name = None) && (MaxNetworkConfigs <=? Z.of_nat (size (nsConfigs s))) then None
  else if ok then Some (upsert_config name config s) else None.

Definition checkReplaceNetworkLimit (renamed : bool) (oldName name : gostring) (s : Nets) : bool :=
  let count := Z.of_nat (size (nsConfigs s)) in
  let projected := count - (if renamed && bool_decide (is_Some (nsConfigs s !! oldName)) then 1 else 0)
                     + (if bool_decide (nsConfigs s !! name = None) then 1 else 0) in
  negb ((count <? projected) && (MaxNetworkConfigs <=? count)).

(** [None] when the new name has stored history of its own. *)
Definition moveNetworkHistory (oldName name : gostring) (s : Nets) : option Nets :=
  match nsHistory s !! oldName with
  | None => Some (set_configs (delete oldName (nsConfigs s)) s)
  | Some h =>
      match nsHistory s !! name with
      | Some _ => None
      | None => Some (set_configs (delete oldName (nsConfigs s)) (set_history (<[name := h]> (delete oldName (nsHistory s))) s))
      end
  end.

(** One transaction; [ok] is whether it commits. *)
Definition ReplaceNetworkConfigWithSettings (oldName name config : gostring) (kv : settings) (ok : bool) (s : Nets) : option Nets :=
  if negb (ValidateNetworkConfigRecord name config) then None
  else
    let renamed := (oldName != []) && (oldName != name) in
    if negb (checkReplaceNetworkLimit renamed oldName name s) then None
    else match (if renamed then moveNetworkHistory oldName name s else Some s) with
    | None => None
    | Some s => if ok then Some (set_settings (SetSettings kv (nsSettings s)) (upsert_config name config s)) else None
    end.

(** Deletes the messages of a network. *)
Definition PurgeNetworkMessages (name : gostring) (s : Nets) : Nets := set_history (alter purge name (nsHistory s)) s.

(** The purge commits chunk by chunk: [part] is how far it got when it failed, [ok]
    whether the final transaction commits. *)
Definition DeleteNetworkWithSettings (name : gostring) (kv : settings) (part : option (H -> H)) (ok : bool) (s : Nets) : Nets * bool :=
  match part with
  | Some f => (set_history (alter f name (nsHistory s)) s, false)
  | None =>
    let s := PurgeNetworkMessages name s in
    if ok then (set_settings (SetSettings kv (nsSettings s)) (set_history (delete name (nsHistory s)) (set_configs (delete name (nsConfigs s)) s)), true) else (s, false)
  end.

(** The history of the networks whose definition has that row id. *)
Definition alter_rows (id : Z) (f : H -> H) (s : Nets) : Nets :=
  set_history (map_imap (fun name h => Some (if bool_decide (fst <$> nsConfigs s !! name = Some id) then f h else h)) (nsHistory s)) s.

Definition DeleteNetworkByPageID (id : Z) (part : option (H -> H)) (ok : bool) (s : Nets) : Nets * bool :=
  if id <=? 0 then (s, false)
  else match part with
  | Some f => (alter_rows id f s, false)
  | None =>
      if (filter (fun kr => kr.2.1 = id) (nsConfigs s) == ∅) || negb ok then (alter_rows id purge s, false)
      else
        (set_history (filter (fun kh => fst <$> nsConfigs s !! kh.1 <> Some id) (nsHistory s)) (set_configs (filter (fun kr => kr.2.1 <> id) (nsConfigs s)) s), true)
  end.

(** *** Connections *)

Definition StateDisconnected : gostring := §"disconnected".
Definition invalidNetworkLabel (id : Z) : gostring := ReservedRecoveryNetworkPrefix ++ Itoa id ++ §"__".

Definition NoteStoppedNetwork (name : gostring) (s : Nets) : Nets :=
  match nsStates s !! name with Some _ => s | None => set_states (<[name := StateDisconnected]> (nsStates s)) s end.
Definition NoteInvalidNetwork (id : Z) (s : Nets) : Nets :=
  set_states (<[invalidNetworkLabel id := StateDisconnected]> (nsStates s)) (set_recovery (<[invalidNetworkLabel id := id]> (nsRecovery s)) s).
Definition recoveryRowID (label : gostring) (s : Nets) : Z := default 0 (nsRecovery s !! label).

(** [ok] is whether the certificate loads and a manager can be made of it. *)
Definition StartNetwork (n : Network) (ok : bool) (s : Nets) : option Nets :=
  if ok then Some (set_procs (<[EffectiveName n := n]> (nsProcs s)) s) else None.

Definition StopNetwork (name : gostring) (s : Nets) : Nets :=
  set_recovery (delete name (nsRecovery s)) (set_states (delete name (nsStates s)) (set_procs (delete name (nsProcs s)) s)).

Definition restartNetwork (prev : option ConfigRow) (ok : bool) (s : Nets) : Nets :=
  match prev with
  | None => s
  | Some row =>
      match Parse (crConfig row) with
      | Some n => match StartNetwork n ok s with Some s => s | None => NoteStoppedNetwork (crName row) s end
      | None => NoteStoppedNetwork (crName row) s
      end
  end.

(** ** Requests

    Error texts that the code builds from an error value are abbreviated. *)

Inductive netReply :=
  | NOk
  | NError (code text : gostring).
Inductive netAct :=
  | NPush (r : netReply)
  | NPolicy (a : policyAct)
  | NRemoved (name : gostring)
  | NRenamed (old new : gostring)
  | NNetworksChanged
  | NPushCancel (network : gostring).

Definition refuse (code text : gostring) (s : Nets) : list netAct * Nets := ([NPush (NError code text)], s).

(** What happens around a request. *)
Record Outcomes := MkOutcomes {
  ocValid : bool;                  (* the definition passes the checks of a connection *)
  ocRead : bool;                   (* the definitions can be read *)
  ocFails : gostring -> bool;      (* settings that cannot be read *)
  ocCommit : bool; ocStart : bool; (* the transaction, the connection *)
  ocPurge : option (H -> H);       (* how far a purge got that failed *)
  ocUndo : bool; ocRestart : bool
}.

Record PutNetworkReq := MkPut { prConfig : gostring; prOldName : gostring }.

Definition validStoredNetworkName (name : gostring) : bool := ValidateNetworkConfigRecord name §"{}".

Definition parsePutNetwork (req : option PutNetworkReq) (valid : bool) : (gostring + (Network * gostring)) :=
  match req with
  | None => inl §"put_network needs a config"
  | Some d =>
      if prConfig d == [] then inl §"put_network needs a config"
      else match Parse (prConfig d) with
      | None => inl §"invalid network"
      | Some n =>
          if negb valid then inl §"invalid network"
          else if (prOldName d != []) && negb (validStoredNetworkName (prOldName d)) then inl §"old network name is invalid; remove it through its recovery entry"
          else inr (n, prOldName d)
      end
  end.

Definition legacyNetworkRequiresRecreate (row : option ConfigRow) (explicitEdit : bool) : bool :=
  match row with Some r => explicitEdit && (crOversized r || (crConfig r == [])) | None => false end.

Definition checkPutPreconditions (oldName name : gostring) (readOk : bool) (s : Nets) : (gostring * gostring) + (option ConfigRow * bool) :=
  if negb readOk then inl (§"internal", §"loading networks failed")
  else
    let row := NetworkConfig (if oldName == [] then name else oldName) s in
    let renamed := (oldName != []) && (oldName != name) in
    if (oldName != []) && bool_decide (row = None) then inl (§"bad_request", §"network not found")
    else if ((oldName == []) || renamed) && bool_decide (is_Some (NetworkConfig name s)) then inl (§"bad_request", §"network already exists")
    else if legacyNetworkRequiresRecreate row (oldName != []) then inl (§"bad_request", §"stored network config is invalid or exceeds the safe limit; remove and recreate it")
    else inr (match row with Some r => if crConfig r == [] then None else Some r | None => None end, renamed).

(** Undoes a put that was stored and does not start. *)
Definition rollbackPut (name : gostring) (prev : option ConfigRow) (rollback : settings) (oc : Outcomes) (s : Nets) : list netAct * Nets :=
  match prev with
  | Some row =>
      match ReplaceNetworkConfigWithSettings name (crName row) (crConfig row) rollback (ocUndo oc) s with
      | None => ([NNetworksChanged], NoteStoppedNetwork name s)
      | Some s => ([], restartNetwork (Some row) (ocRestart oc) s)
      end
  | None =>
      let '(s, ok) := DeleteNetworkWithSettings name rollback (ocPurge oc) (ocUndo oc) s in
      if ok then ([], s) else ([NNetworksChanged], NoteStoppedNetwork name s)
  end.

(** [None] is an error; the state is as the code leaves it either way. *)
Definition applyPutNetwork (n : Network) (oldName : gostring) (prev : option ConfigRow) (renamed : bool) (canonical : gostring)
    (extra rollback : settings) (oc : Outcomes) (s : Nets) : bool * list netAct * Nets :=
  let name := EffectiveName n in
  let s := StopNetwork name (if oldName == [] then s else StopNetwork oldName s) in
  match ReplaceNetworkConfigWithSettings (if renamed then oldName else []) name canonical extra (ocCommit oc) s with
  | None => (false, [], restartNetwork prev (ocRestart oc) s)
  | Some s =>
      match StartNetwork n (ocStart oc) s with
      | Some s => (true, [], s)
      | None => let '(acts, s) := rollbackPut name prev rollback oc s in (false, acts, s)
      end
  end.

Definition handlePutNetwork (req : option PutNetworkReq) (oc : Outcomes) (s : Nets) : list netAct * Nets :=
  match parsePutNetwork req (ocValid oc) with
  | inl e => refuse §"bad_request" e s
  | inr (n, oldName) =>
      let name := EffectiveName n in
      match checkPutPreconditions oldName name (ocRead oc) s with
      | inl (code, text) => refuse code text s
      | inr (prev, renamed) =>
          let canonical := encodeNetwork n in
          if negb (ValidateNetworkConfigRecord name canonical) then refuse §"bad_request" §"store: invalid network" s
          else
            let writes :=
              if renamed then (fun rw => (rwSettings rw, rwRollback rw, broadcastRenameWrites rw)) <$> computeRenameWrites (ocFails oc) oldName name (nsSettings s)
              else (fun w => (w.1, w.2, [])) <$> computeNameClearWrites (ocFails oc) name (nsSettings s) in
            match writes with
            | None => refuse §"internal" §"reading synced settings failed" s
            | Some (extra, rollback, told) =>
                let '(ok, acts, s) := applyPutNetwork n oldName prev renamed canonical extra rollback oc s in
                if negb ok then (acts ++ [NPush (NError §"bad_request" §"put failed")], s)
                else
                  ((NPolicy <$> told) ++ (if renamed then [NRemoved oldName; NPushCancel oldName; NRenamed oldName name] else []) ++ [NPush NOk; NNetworksChanged], s)
            end
      end
  end.

Definition handleDeleteNetwork (req : option gostring) (oc : Outcomes) (s : Nets) : list netAct * Nets :=
  match req with
  | None | Some [] => refuse §"bad_request" §"delete_network needs a network" s
  | Some network =>
      if negb (recoveryRowID network s =? 0) then
        let '(s, ok) := DeleteNetworkByPageID (recoveryRowID network s) (ocPurge oc) (ocCommit oc) s in
        if negb ok then refuse §"internal" §"deleting network failed" s
        else ([NPush NOk; NRemoved network; NNetworksChanged; NPushCancel network], StopNetwork network s)
      else if negb (validStoredNetworkName network) then refuse §"bad_request" §"network name is invalid; remove it through its recovery entry" s
      else if negb (ocRead oc) then refuse §"internal" §"loading networks failed" s
      else
        let row := NetworkConfig network s in
        let prev := match row with Some r => if crConfig r == [] then None else Some r | None => None end in
        let s := StopNetwork network s in
        let '(s, ok) := DeleteNetworkWithSettings network ∅ (ocPurge oc) (ocCommit oc) s in
        if ok then ([NPush NOk; NRemoved network; NNetworksChanged; NPushCancel network], s)
        else
          let s := restartNetwork prev (ocRestart oc) s in
          let s := match row, prev with Some _, None => NoteStoppedNetwork network s | _, _ => s end in
          refuse §"internal" §"deleting network failed" s
  end.

(** The read-modify-write of the channel list; [None] is an error. *)
Definition updateAutojoinLocked (network : gostring) (channels : list gostring) (keys : gmap gostring gostring) (add : bool) (fold : gostring -> gostring)
    (readOk writeOk : bool) (s : Nets) : option Nets :=
  if negb readOk then None
  else match NetworkConfig network s with
  | None => None
  | Some row =>
      if crOversized row then None
      else match Parse (crConfig row) with
      | None => None
      | Some n =>
          let '(out, changed) := editChannelList (nwChannels n) channels add fold in
          let '(outKeys, keysChanged) := editChannelKeys (nwChannelKeys n) out channels keys add fold in
          if negb changed && negb keysChanged then Some s
          else PutNetworkConfig network (encodeNetwork (with_channels out outKeys n)) writeOk s
      end
  end.

(** Imports definitions into an empty table; [None] is an error. *)
Definition SeedNetworkConfigs (configs : list (gostring * gostring)) (ok : bool) (s : Nets) : option (bool * Nets) :=
  if MaxNetworkConfigs <? len configs then None
  else if negb (forallb (fun c => ValidateNetworkConfigRecord c.1 c.2) configs) then None
  else if negb (nsConfigs s == ∅) || (configs == []) then Some (false, s)
  else if negb (bool_decide (NoDup configs.*1)) || negb ok then None
  else Some (true, foldl (fun s c => upsert_config c.1 c.2 s) s configs).

Definition SeedRows (networks : list Network) : list (gostring * gostring) := (fun n => (EffectiveName n, encodeNetwork n)) <$> networks.

End networks.
