(* ===== verification/NetworksProofs.v ===== *)
(** * Storage and connections never drift apart

    Whatever fails in a request on networks, what runs is what is stored, every stored
    definition stays visible, and a put that fails leaves the tables as they were. *)

From S2P Require Import Prelude GoStrings GoUtf8 GoNet Conn HubRoute Hub Policy PolicyProofs Netconf Networks.

(** The strings of a definition are valid UTF-8. *)
Definition network_clean (n : Network) : bool :=
  forallb ValidString ([nwName n; nwAddr n; nwProxy n; nwNick n; nwUsername n; nwRealname n; nwPass n] ++ nwFingerprints n ++ nwChannels n)
  && names_clean (nwChannelKeys n).

(** encoding/json: what is encoded decodes to the same definition when its strings are
    valid UTF-8, and decoding gives valid UTF-8. *)
Class NetJsonLaws {Hnet : NetJson} := {
  network_roundtrip n : (exists raw n0, decodeNetwork raw = Some n0 /\ n = with_channels (nwChannels n) (nwChannelKeys n) n0) -> network_clean n = true ->
    decodeNetwork (encodeNetwork n) = Some n;
  network_decoded raw n : decodeNetwork raw = Some n -> network_clean n = true
}.

Section proofs.
Context {Huni : Unicode} {Hpol : PolicyJson} {Hnet : NetJson} {Hlaws : NetJsonLaws} {H : Type}.
Variable purge : H -> H.
Abbreviation Nets := (@Nets H).

(** Equal but for the channels, which a connection is told of when it starts. *)
Definition same_network (n n' : Network) : Prop := n' = with_channels (nwChannels n') (nwChannelKeys n') n.

(** What is stored of [name]. *)
Definition stored_config (s : Nets) (name : gostring) : option gostring := snd <$> nsConfigs s !! name.

(** Shown in the sidebar, running or stopped. *)
Definition visible (s : Nets) (name : gostring) (id : Z) : Prop :=
  is_Some (nsProcs s !! name) \/ validateNetworkName name = true /\ is_Some (nsStates s !! name) \/
  nsRecovery s !! invalidNetworkLabel id = Some id /\ is_Some (nsStates s !! invalidNetworkLabel id).

Record nets_ok (s : Nets) : Prop := {
  no_running name n : nsProcs s !! name = Some n ->
    EffectiveName n = name /\ validateNetworkName name = true /\ exists config n', stored_config s name = Some config /\ decodeNetwork config = Some n' /\ same_network n n';
  no_visible name id config : nsConfigs s !! name = Some (id, config) -> visible s name id;
  no_names name config n : stored_config s name = Some config -> decodeNetwork config = Some n -> EffectiveName n = name;
  no_ids a b ra rb : nsConfigs s !! a = Some ra -> nsConfigs s !! b = Some rb -> ra.1 = rb.1 -> a = b;
  no_pos name r : nsConfigs s !! name = Some r -> 0 < r.1;
  no_recovery label id : nsRecovery s !! label = Some id ->
    label = invalidNetworkLabel id /\ 0 < id /\ exists name config, nsConfigs s !! name = Some (id, config) /\ validateNetworkName name = false
}.

Lemma Parse_spec raw n : Parse raw = Some n -> decodeNetwork raw = Some n /\ Validate (map_to_list (nwChannelKeys n)) n = None.
Proof. unfold Parse. destruct (decodeNetwork raw) as [m|]; [|done]. case_bool_decide; [|done]. by intros [= ->]. Qed.

Lemma Parse_name raw n : Parse raw = Some n -> validateNetworkName (EffectiveName n) = true.
Proof. intros [_ Hv]%Parse_spec. by eapply Validate_storable. Qed.

Lemma with_channels_self n : with_channels (nwChannels n) (nwChannelKeys n) n = n.
Proof. by destruct n. Qed.

Lemma Parse_encode raw n : Parse raw = Some n -> Parse (encodeNetwork n) = Some n.
Proof.
  intros [Hd Hv]%Parse_spec. unfold Parse. rewrite network_roundtrip; [by rewrite bool_decide_true| |by eapply network_decoded].
  exists raw, n. split; [done|]. by rewrite with_channels_self.
Qed.

Lemma valid_not_label name id : validateNetworkName name = true -> name <> invalidNetworkLabel id.
Proof.
  intros Hv ->. unfold validateNetworkName in Hv. unfold invalidNetworkLabel in Hv. rewrite HasPrefix_app in Hv.
  by rewrite orb_true_r in Hv.
Qed.

Lemma label_inj i j : invalidNetworkLabel i = invalidNetworkLabel j -> Itoa i = Itoa j.
Proof. unfold invalidNetworkLabel. intros E. apply app_inv_head in E. by apply app_inv_tail in E. Qed.

(** ** Row ids *)

Lemma rowid_bound (s : Nets) name r : nsConfigs s !! name = Some r -> r.1 < next_rowid s.
Proof.
  unfold next_rowid. revert name r. apply (map_fold_weak_ind (fun (n : Z) m => forall name (r : Z * gostring), m !! name = Some r -> r.1 < 1 + n)); [done|].
  intros i x m n Hi IH name r. rewrite lookup_insert_Some. intros [[_ <-]|[_ Hr]]; [lia|]. specialize (IH _ _ Hr). lia.
Qed.
Lemma rowid_pos (s : Nets) : 0 < next_rowid s.
Proof.
  unfold next_rowid. enough (0 <= map_fold (fun _ (r : Z * gostring) n => Z.max r.1 n) 0 (nsConfigs s)) by lia.
  apply (map_fold_weak_ind (fun (n : Z) _ => 0 <= n)); [done|]. intros. lia.
Qed.

(** ** The network a request works on

    [holds except s] is the invariant but for the connections and the visibility of the
    names in [except], which the request has stopped. *)
Record holds (except : gset gostring) (s : Nets) : Prop := {
  ho_running name n : nsProcs s !! name = Some n ->
    (name ∉ except) /\ EffectiveName n = name /\ validateNetworkName name = true /\ exists config n', stored_config s name = Some config /\ decodeNetwork config = Some n' /\ same_network n n';
  ho_visible name id config : nsConfigs s !! name = Some (id, config) -> name ∈ except \/ visible s name id;
  ho_names name config n : stored_config s name = Some config -> decodeNetwork config = Some n -> EffectiveName n = name;
  ho_ids a b ra rb : nsConfigs s !! a = Some ra -> nsConfigs s !! b = Some rb -> ra.1 = rb.1 -> a = b;
  ho_pos name r : nsConfigs s !! name = Some r -> 0 < r.1;
  ho_recovery label id : nsRecovery s !! label = Some id ->
    label = invalidNetworkLabel id /\ 0 < id /\ exists name config, nsConfigs s !! name = Some (id, config) /\ validateNetworkName name = false
}.

Lemma holds_ok s : nets_ok s <-> holds ∅ s.
Proof.
  split.
  - intros [K1 K2 K3 K4 K5 K6]. split; try done; [|by right; eapply K2]. intros name n Hn. split; [set_solver|]. by apply K1.
  - intros [K1 K2 K3 K4 K5 K6]. split; try done; [by intros name n [_ ?]%K1|]. intros name id c [Hin|?]%K2; [set_solver|done].
Qed.

Lemma visible_other s s' name id :
  (forall x, x = name \/ x = invalidNetworkLabel id -> nsProcs s' !! x = nsProcs s !! x /\ nsStates s' !! x = nsStates s !! x /\ nsRecovery s' !! x = nsRecovery s !! x) ->
  visible s name id -> visible s' name id.
Proof.
  intros E. unfold visible. destruct (E name (or_introl eq_refl)) as (-> & -> & _). destruct (E _ (or_intror eq_refl)) as (_ & -> & ->). done.
Qed.

(** Stopping a valid name takes it out of the invariant. *)
Lemma stop_holds ex s name : validateNetworkName name = true -> holds ex s -> holds ({[name]} ∪ ex) (StopNetwork name s).
Proof.
  intros Hv [K1 K2 K3 K4 K5 K6]. split; cbn [StopNetwork nsProcs nsConfigs nsStates nsRecovery set_recovery set_states set_procs]; try done.
  - intros x n. rewrite lookup_delete_Some. intros [Hx Hn]. destruct (K1 _ _ Hn) as (? & ? & ?). split; [set_solver|done].
  - intros x id c Hx. destruct (decide (x = name)) as [->|Hne]; [left; set_solver|]. destruct (K2 _ _ _ Hx) as [?|Hvis]; [left; set_solver|right].
    eapply visible_other; [|exact Hvis]. intros y Hy. cbn [StopNetwork nsProcs nsStates nsRecovery set_recovery set_states set_procs].
    rewrite !lookup_delete_ne; [done|destruct Hy as [->|Hy]; [done|subst y; by apply valid_not_label]..].
  - intros label id. rewrite lookup_delete_Some. intros [_ ?]. by apply K6.
Qed.

(** The names put back, running or stopped. *)
Lemma start_holds ex s n ok s' config n' :
  holds ({[EffectiveName n]} ∪ ex) s -> validateNetworkName (EffectiveName n) = true -> stored_config s (EffectiveName n) = Some config -> decodeNetwork config = Some n' -> same_network n n' ->
  StartNetwork n ok s = Some s' -> holds (ex ∖ {[EffectiveName n]}) s'.
Proof.
  intros [K1 K2 K3 K4 K5 K6] Hva Hc Hp Hs. unfold StartNetwork. destruct ok; [|done]. intros [= <-]. split; cbn [nsProcs nsConfigs nsStates nsRecovery set_procs]; try done.
  - intros x m. rewrite lookup_insert_Some. intros [[<- <-]|[Hne Hm]]; [|destruct (K1 _ _ Hm) as (? & ? & ?); split; [set_solver|done]].
    split; [set_solver|]. split; [done|]. split; [done|]. by exists config, n'.
  - intros x id c Hx. destruct (decide (x = EffectiveName n)) as [->|Hne].
    + right. left. cbn [nsProcs set_procs]. by rewrite lookup_insert_eq.
    + destruct (K2 _ _ _ Hx) as [?|[Hv|Hv]]; [left; set_solver|right; left; cbn [nsProcs set_procs]|right; right; done].
      by rewrite lookup_insert_ne.
Qed.

Lemma note_holds ex s name : validateNetworkName name = true -> holds ({[name]} ∪ ex) s -> holds (ex ∖ {[name]}) (NoteStoppedNetwork name s).
Proof.
  intros Hva [K1 K2 K3 K4 K5 K6]. unfold NoteStoppedNetwork. destruct (nsStates s !! name) as [st|] eqn:Es.
  - split; try done.
    + intros x n Hn. destruct (K1 _ _ Hn) as (? & ? & ?). split; [set_solver|done].
    + intros x id c Hx. destruct (K2 _ _ _ Hx) as [?|?]; [|by right]. destruct (decide (x = name)) as [->|]; [right; right; left; by rewrite Es|left; set_solver].
  - split; cbn [nsProcs nsConfigs nsStates nsRecovery set_states]; try done.
    + intros x n Hn. destruct (K1 _ _ Hn) as (? & ? & ?). split; [set_solver|done].
    + intros x id c Hx. destruct (decide (x = name)) as [->|Hne].
      * right. right. left. cbn [nsStates set_states]. split; [done|]. by rewrite lookup_insert_eq.
      * destruct (K2 _ _ _ Hx) as [?|Hv]; [left; set_solver|right]. unfold visible in *. cbn [nsProcs nsStates nsRecovery set_states].
        rewrite lookup_insert_ne by done. destruct Hv as [?|[[? ?]|[? ?]]]; [by left|by right; left|right; right; split; [done|]].
        destruct (decide (name = invalidNetworkLabel id)) as [->|]; [by rewrite lookup_insert_eq|by rewrite lookup_insert_ne].
Qed.

Lemma holds_weaken ex ex' s : ex ⊆ ex' -> (forall x, x ∈ ex' -> x ∈ ex \/ nsProcs s !! x = None) -> holds ex s -> holds ex' s.
Proof.
  intros Hsub Hnew [K1 K2 K3 K4 K5 K6]. split; try done.
  - intros x n Hn. destruct (K1 _ _ Hn) as (? & ? & ?). split; [|done]. intros [?|Hno]%Hnew; [done|]. by rewrite Hno in Hn.
  - intros x id c Hx. destruct (K2 _ _ _ Hx); [left; set_solver|by right].
Qed.

(** A name that is not stored need not be excepted. *)
Lemma holds_unstored ex s name : nsConfigs s !! name = None -> holds ({[name]} ∪ ex) s -> holds (ex ∖ {[name]}) s.
Proof.
  intros Hno [K1 K2 K3 K4 K5 K6]. split; try done.
  - intros x n Hn. destruct (K1 _ _ Hn) as (? & ? & ?). split; [set_solver|done].
  - intros x id c Hx. destruct (K2 _ _ _ Hx) as [?|?]; [|by right]. left. assert (x <> name) by (intros ->; congruence). set_solver.
Qed.

(** ** Transactions *)

(** What a transaction on the tables leaves alone. *)
Definition same_runtime (s s' : Nets) : Prop := nsProcs s' = nsProcs s /\ nsStates s' = nsStates s /\ nsRecovery s' = nsRecovery s.

Lemma record_valid name config : ValidateNetworkConfigRecord name config = true -> validateNetworkName name = true /\ 0 < len config <= MaxNetworkConfigBytes.
Proof. unfold ValidateNetworkConfigRecord. rewrite andb_true_iff, negb_true_iff, orb_false_iff. intros (? & ? & ?). split; [done|]. pose proof (len_nonneg config). lia. Qed.

Lemma visible_runtime s s' name id : same_runtime s s' -> visible s name id -> visible s' name id.
Proof. intros (E1 & E2 & E3). unfold visible. by rewrite E1, E2, E3. Qed.

(** Removing the row of a valid name that is stopped. *)
Lemma delete_row_holds ex s s' name :
  validateNetworkName name = true -> same_runtime s s' -> nsConfigs s' = delete name (nsConfigs s) -> name ∈ ex -> holds ex s -> holds ex s'.
Proof.
  intros Hv Hrt Hc Hin [K1 K2 K3 K4 K5 K6]. pose proof Hrt as (E1 & E2 & E3). unfold stored_config in *. split; rewrite ?E1, ?E3, ?Hc.
  - intros x n Hn. destruct (K1 _ _ Hn) as (Hx & He & Hva & config & n' & Hs & Hr). split; [done|]. split; [done|]. split; [done|]. exists config, n'. split; [|done].
    unfold stored_config. rewrite Hc, lookup_delete_ne by set_solver. done.
  - intros x id c [_ Hx]%lookup_delete_Some. destruct (K2 _ _ _ Hx); [by left|right]. by eapply visible_runtime.
  - intros x config n. unfold stored_config. rewrite Hc. destruct (decide (x = name)) as [->|]; [by rewrite lookup_delete_eq|]. rewrite lookup_delete_ne by done. apply K3.
  - intros a b ra rb [_ Ha]%lookup_delete_Some [_ Hb]%lookup_delete_Some. by apply (K4 a b).
  - intros x r [_ Hx]%lookup_delete_Some. by eapply K5.
  - intros label id Hl. destruct (K6 _ _ Hl) as (? & ? & x & c & Hx & Hxv). split; [done|]. split; [done|]. exists x, c. split; [|done].
    rewrite lookup_delete_ne by congruence. done.
Qed.

(** Writing the row of a stopped name with a definition of that name. *)
Lemma upsert_holds ex s name config :
  (forall n, decodeNetwork config = Some n -> EffectiveName n = name) -> validateNetworkName name = true -> name ∈ ex -> holds ex s -> holds ex (upsert_config name config s).
Proof.
  intros Hp Hv Hin [K1 K2 K3 K4 K5 K6]. set (id := match nsConfigs s !! name with Some r => r.1 | None => next_rowid s end).
  assert (0 < id) as Hid by (unfold id; destruct (nsConfigs s !! name) eqn:E; [by eapply K5|apply rowid_pos]).
  assert (forall b rb, nsConfigs s !! b = Some rb -> id = rb.1 -> name = b) as Hun.
  { intros b rb Hb. unfold id. destruct (nsConfigs s !! name) as [r|] eqn:E; [intros E1; by apply (K4 name b r rb)|]. intros E1. pose proof (rowid_bound _ _ _ Hb). lia. }
  unfold stored_config in *. split; cbn [upsert_config set_configs nsConfigs nsProcs nsStates nsRecovery]; unfold stored_config; cbn [upsert_config set_configs nsConfigs]; fold id.
  - intros x n Hn. destruct (K1 _ _ Hn) as (Hx & He & Hva & c & n' & Hs & Hr). split; [done|]. split; [done|]. split; [done|]. exists c, n'. split; [|done].
    rewrite lookup_insert_ne by set_solver. done.
  - intros x i c. rewrite lookup_insert_Some. intros [[<- _]|[_ Hx]]; [by left|]. by destruct (K2 _ _ _ Hx); [left|right].
  - intros x c n. destruct (decide (x = name)) as [->|]; [rewrite lookup_insert_eq; simpl; intros [= <-]; apply Hp|rewrite lookup_insert_ne by done; apply K3].
  - intros a b ra rb. rewrite !lookup_insert_Some. intros [[<- <-]|[? Ha]] [[<- <-]|[? Hb]] Hab; [done|by eapply Hun|symmetry; by eapply Hun|by eapply K4].
  - intros x r. rewrite lookup_insert_Some. intros [[_ <-]|[_ ?]]; [done|by eapply K5].
  - intros label i Hl. destruct (K6 _ _ Hl) as (? & ? & x & c & Hx & Hxv). split; [done|]. split; [done|]. exists x, c. split; [|done].
    rewrite lookup_insert_ne by congruence. done.
Qed.

Lemma holds_settings ex s r : holds ex s -> holds ex (set_settings r s).
Proof. by intros [K1 K2 K3 K4 K5 K6]. Qed.
Lemma holds_history ex s h : holds ex s -> holds ex (set_history h s).
Proof. by intros [K1 K2 K3 K4 K5 K6]. Qed.

Lemma replace_holds ex s oldName name config kv ok s' :
  (oldName <> [] -> oldName <> name -> validateNetworkName oldName = true /\ oldName ∈ ex) -> name ∈ ex -> (forall n, decodeNetwork config = Some n -> EffectiveName n = name) ->
  holds ex s -> ReplaceNetworkConfigWithSettings oldName name config kv ok s = Some s' ->
  holds ex s' /\ stored_config s' name = Some config /\ (oldName <> [] -> oldName <> name -> nsConfigs s' !! oldName = None).
Proof.
  intros Ho Hn Hp Hs. unfold ReplaceNetworkConfigWithSettings. destruct (ValidateNetworkConfigRecord name config) eqn:Ev; [|done]. apply record_valid in Ev as [Hv _]. cbn [negb].
  destruct (negb _); [done|]. set (renamed := (oldName != []) && (oldName != name)).
  assert (exists s1, (if renamed then moveNetworkHistory oldName name s else Some s) = None \/
            (if renamed then moveNetworkHistory oldName name s else Some s) = Some s1 /\ holds ex s1 /\ (renamed = true -> nsConfigs s1 !! oldName = None)) as (s1 & Hm).
  { destruct renamed eqn:Er; [|exists s; by right]. unfold renamed in Er. apply andb_true_iff in Er as [E1 E2]. apply negb_true_iff, bool_decide_eq_false in E1, E2.
    destruct (Ho E1 E2) as [Hov Hoin]. unfold moveNetworkHistory. destruct (nsHistory s !! oldName) as [h|]; [destruct (nsHistory s !! name); [exists s; by left|]|].
    - eexists. right. split; [done|]. split; [|intros _; apply lookup_delete_eq]. eapply (delete_row_holds ex (set_history (<[name := h]> (delete oldName (nsHistory s))) s)); [exact Hov|done|done|done|by apply holds_history].
    - eexists. right. split; [done|]. split; [|intros _; apply lookup_delete_eq]. eapply (delete_row_holds ex s); [exact Hov|done|done|done|done]. }
  destruct Hm as [->|(-> & Hs1 & Hdel)]; [done|]. destruct ok; [|done]. intros [= <-]. split_and!.
  - apply holds_settings. by apply upsert_holds.
  - unfold stored_config. cbn [set_settings upsert_config set_configs nsConfigs]. by rewrite lookup_insert_eq.
  - intros E1 E2. cbn [set_settings upsert_config set_configs nsConfigs]. rewrite lookup_insert_ne by done. apply Hdel. unfold renamed. by rewrite !bool_decide_false.
Qed.

Lemma delete_holds ex s name kv part ok s' b :
  validateNetworkName name = true -> name ∈ ex -> holds ex s -> DeleteNetworkWithSettings purge name kv part ok s = (s', b) ->
  holds ex s' /\ (b = true -> nsConfigs s' !! name = None) /\ (b = false -> nsConfigs s' = nsConfigs s).
Proof.
  intros Hv Hin Hs. unfold DeleteNetworkWithSettings. destruct part as [f|]; [intros [= <- <-]; split_and!; [by apply holds_history|done|done]|].
  destruct ok; intros [= <- <-].
  - split_and!; [|intros _; apply lookup_delete_eq|done].
    apply holds_settings. eapply (delete_row_holds ex (PurgeNetworkMessages purge name s)); [exact Hv|done|done|done|by apply holds_history].
  - split_and!; [by apply holds_history|done|done].
Qed.

(** A stopped definition put back. *)
Lemma restart_holds ex s row ok :
  validateNetworkName (crName row) = true -> stored_config s (crName row) = Some (crConfig row) -> holds ({[crName row]} ∪ ex) s ->
  holds (ex ∖ {[crName row]}) (restartNetwork (Some row) ok s).
Proof.
  intros Hv Hc Hs. unfold restartNetwork. destruct (Parse (crConfig row)) as [n|] eqn:Ep; [|by apply note_holds].
  pose proof (proj1 (Parse_spec _ _ Ep)) as Ed. pose proof (ho_names _ _ Hs _ _ _ Hc Ed) as He.
  destruct (StartNetwork n ok s) as [s'|] eqn:Est; [|by apply note_holds].
  rewrite <- He in Hs, Hc, Hv |- *. eapply start_holds; [exact Hs|exact Hv|exact Hc|exact Ed| |exact Est]. unfold same_network. by rewrite with_channels_self.
Qed.

(** ** Requests *)

Lemma row_spec s name row : NetworkConfig name s = Some row -> crConfig row <> [] -> crName row = name /\ stored_config s name = Some (crConfig row) /\ len (crConfig row) <= MaxNetworkConfigBytes.
Proof.
  unfold NetworkConfig, stored_config. destruct (nsConfigs s !! name) as [[id c]|]; [|done]. simpl.
  destruct (Z.leb_spec (len c) MaxNetworkConfigBytes); intros [= <-] Hne; cbn [crConfig crName] in *; [|done]. done.
Qed.

Lemma stored_valid_name name : validStoredNetworkName name = true -> validateNetworkName name = true.
Proof. intros [? _]%record_valid. done. Qed.

Lemma preconditions_spec oldName name readOk s prev renamed :
  checkPutPreconditions oldName name readOk s = inr (prev, renamed) ->
  renamed = (oldName != []) && (oldName != name) /\
  (oldName = [] -> nsConfigs s !! name = None /\ prev = None) /\
  (oldName <> [] -> oldName <> name -> nsConfigs s !! name = None) /\
  (oldName <> [] -> exists row, prev = Some row /\ crName row = oldName /\ stored_config s oldName = Some (crConfig row) /\ 0 < len (crConfig row) <= MaxNetworkConfigBytes).
Proof.
  unfold checkPutPreconditions. destruct readOk; [|done]. cbn [negb].
  assert (forall x, NetworkConfig x s = None <-> nsConfigs s !! x = None) as Hnc.
  { intros x. unfold NetworkConfig. by destruct (nsConfigs s !! x). }
  assert (forall x, ~ is_Some (NetworkConfig x s) -> nsConfigs s !! x = None) as Hnc'.
  { intros x Hx. apply Hnc. destruct (NetworkConfig x s); [destruct Hx; eauto|done]. }
  destruct (bool_decide_reflect (oldName = [])) as [->|Ho].
  - cbn [negb andb orb]. case_bool_decide as Hn; [done|]. apply Hnc' in Hn. assert (NetworkConfig name s = None) as -> by by apply Hnc.
    cbn. intros [= <- <-]. done.
  - cbn [negb andb orb]. case_bool_decide as Hr; [done|]. destruct (bool_decide_reflect (oldName = name)) as [->|Hne]; cbn [negb andb].
    + destruct (NetworkConfig name s) as [row|] eqn:E; [|done]. unfold legacyNetworkRequiresRecreate. cbn [andb].
      destruct (crOversized row); [done|]. cbn [orb]. case_bool_decide as Hc; [done|]. intros [= <- <-]. destruct (row_spec _ _ _ E Hc) as (? & ? & ?).
      split_and!; [done|done|done|]. intros _. exists row. split_and!; try done. destruct (crConfig row); [done|]. rewrite len_cons. pose proof (len_nonneg l). lia.
    + case_bool_decide as Hn; [done|]. apply Hnc' in Hn. destruct (NetworkConfig oldName s) as [row|] eqn:E; [|done]. unfold legacyNetworkRequiresRecreate. cbn [andb].
      destruct (crOversized row); [done|]. cbn [orb]. case_bool_decide as Hc; [done|]. intros [= <- <-]. destruct (row_spec _ _ _ E Hc) as (? & ? & ?).
      split_and!; [done|done|done|]. intros _. exists row. split_and!; try done. destruct (crConfig row); [done|]. rewrite len_cons. pose proof (len_nonneg l). lia.
Qed.

Lemma parse_put_spec req valid n oldName :
  parsePutNetwork req valid = inr (n, oldName) -> (exists raw, Parse raw = Some n) /\ (oldName <> [] -> validateNetworkName oldName = true).
Proof.
  unfold parsePutNetwork. destruct req as [d|]; [|done]. case_bool_decide; [done|]. destruct (Parse (prConfig d)) as [m|] eqn:Ep; [|done].
  destruct valid; [|done]. cbn [negb]. destruct (bool_decide_reflect (prOldName d = [])) as [E|E]; cbn [negb andb].
  - intros [= <- <-]. split; [eauto|done].
  - destruct (validStoredNetworkName (prOldName d)) eqn:Ev; [|done]. intros [= <- <-]. split; [eauto|]. intros _. by apply stored_valid_name.
Qed.

(** The last stopped name put back, or gone. *)
Lemma start_last s n ok s' config n' :
  holds {[EffectiveName n]} s -> validateNetworkName (EffectiveName n) = true -> stored_config s (EffectiveName n) = Some config -> decodeNetwork config = Some n' -> same_network n n' -> StartNetwork n ok s = Some s' -> nets_ok s'.
Proof.
  intros Hs Hva Hc Hp Hsame Hst. apply holds_ok. assert (∅ = (∅ : gset gostring) ∖ {[EffectiveName n]}) as -> by (apply leibniz_equiv; set_solver).
  eapply start_holds; [by rewrite union_empty_r_L|done..].
Qed.
Lemma note_last s name : validateNetworkName name = true -> holds {[name]} s -> nets_ok (NoteStoppedNetwork name s).
Proof.
  intros Hva Hs. apply holds_ok. assert (∅ = (∅ : gset gostring) ∖ {[name]}) as -> by (apply leibniz_equiv; set_solver). apply note_holds; [done|]. by rewrite union_empty_r_L.
Qed.
Lemma gone_last s name : nsConfigs s !! name = None -> holds {[name]} s -> nets_ok s.
Proof.
  intros Hno Hs. apply holds_ok. assert (∅ = (∅ : gset gostring) ∖ {[name]}) as -> by (apply leibniz_equiv; set_solver). apply holds_unstored; [done|]. by rewrite union_empty_r_L.
Qed.
Lemma restart_last s row ok : validateNetworkName (crName row) = true -> stored_config s (crName row) = Some (crConfig row) -> holds {[crName row]} s -> nets_ok (restartNetwork (Some row) ok s).
Proof.
  intros Hv Hc Hs. apply holds_ok. assert (∅ = (∅ : gset gostring) ∖ {[crName row]}) as -> by (apply leibniz_equiv; set_solver). apply restart_holds; [done|done|]. by rewrite union_empty_r_L.
Qed.

(** Two stopped names of which one is gone. *)
Lemma gone_other s a b : (a <> b -> nsConfigs s !! b = None) -> holds ({[a]} ∪ {[b]}) s -> holds {[a]} s.
Proof.
  intros Hno Hs. destruct (decide (a = b)) as [->|Hne]; [by rewrite (union_idemp_L {[b]}) in Hs|].
  assert ({[a]} = ({[a]} : gset gostring) ∖ {[b]}) as -> by (apply leibniz_equiv; set_solver). apply holds_unstored; [by apply Hno|]. by rewrite union_comm_L.
Qed.

(** The row a put replaces, and the name it moves to. *)
Record put_plan (s : Nets) (oldName name : gostring) (prev : option ConfigRow) (renamed : bool) : Prop := {
  pp_renamed : renamed = (oldName != []) && (oldName != name);
  pp_add : oldName = [] -> nsConfigs s !! name = None /\ prev = None;
  pp_free : oldName <> [] -> oldName <> name -> nsConfigs s !! name = None;
  pp_prev : oldName <> [] -> exists row, prev = Some row /\ crName row = oldName /\ stored_config s oldName = Some (crConfig row) /\ 0 < len (crConfig row) <= MaxNetworkConfigBytes;
  pp_valid : oldName <> [] -> validateNetworkName oldName = true
}.

(** Undoing a put that is stored and stopped. *)
Lemma rollback_holds s oldName name prev renamed s1 rollback oc acts s' :
  nets_ok s -> validateNetworkName name = true -> put_plan s oldName name prev renamed -> holds {[name]} s1 -> (oldName <> [] -> nsProcs s1 !! oldName = None) ->
  rollbackPut purge name prev rollback oc s1 = (acts, s') -> nets_ok s'.
Proof.
  intros Hs Hnv [_ Hadd _ Hprev Hov] H1 Hstop. unfold rollbackPut. destruct prev as [row|].
  - destruct (decide (oldName = [])) as [Eo|Eo]; [by destruct (Hadd Eo)|]. destruct (Hprev Eo) as (row' & [= <-] & Hrn & Hrc & Hrl).
    destruct (ReplaceNetworkConfigWithSettings name (crName row) (crConfig row) rollback (ocUndo oc) s1) as [s2|] eqn:Eu; intros [= <- <-]; [|by apply note_last].
    assert (holds ({[crName row]} ∪ {[name]}) s1) as H1'.
    { eapply holds_weaken; [|..|exact H1]; [set_solver|]. intros x Hx. destruct (decide (x = name)) as [->|]; [left; set_solver|right].
      assert (x = oldName) as -> by set_solver. by apply Hstop. }
    destruct (replace_holds ({[crName row]} ∪ {[name]}) s1 name (crName row) (crConfig row) rollback (ocUndo oc) s2 ltac:(intros; split; [done|set_solver]) ltac:(set_solver) ltac:(intros m Hm; rewrite Hrn; by eapply (no_names _ Hs)) H1' Eu) as (H2 & Hst2 & Hgone).
    apply restart_last; [rewrite Hrn; by apply Hov|done|]. eapply gone_other; [|exact H2]. intros Hne. apply Hgone; [|done]. intros E0. by rewrite E0 in Hnv.
  - destruct (DeleteNetworkWithSettings purge name rollback (ocPurge oc) (ocUndo oc) s1) as [s2 b] eqn:Ed.
    destruct (delete_holds _ _ _ _ _ _ _ _ Hnv (elem_of_singleton_2 _ _ eq_refl) H1 Ed) as (H2 & Hgo & _).
    destruct b; intros [= <- <-]; [eapply gone_last; [by apply Hgo|done]|by apply note_last].
Qed.

Lemma apply_holds n raw oldName prev renamed extra rollback oc s ok acts s' :
  nets_ok s -> Parse raw = Some n -> put_plan s oldName (EffectiveName n) prev renamed ->
  applyPutNetwork purge n oldName prev renamed (encodeNetwork n) extra rollback oc s = (ok, acts, s') -> nets_ok s'.
Proof.
  intros Hs Hraw Hplan. pose proof Hplan as [Hren Hadd Hfree Hprev Hov]. set (name := EffectiveName n) in *.
  pose proof (Parse_name _ _ Hraw) as Hnv. fold name in Hnv. pose proof (proj1 (Parse_spec _ _ (Parse_encode _ _ Hraw))) as Henc. unfold applyPutNetwork. fold name.
  set (other := if oldName == [] then name else oldName). set (s0 := StopNetwork name (if oldName == [] then s else StopNetwork oldName s)).
  assert (holds ({[name]} ∪ {[other]}) s0 /\ nsConfigs s0 = nsConfigs s /\ nsProcs s0 !! other = None) as (H0 & Hc0 & Hp0).
  { unfold s0, other. case_bool_decide as E; split_and!; try done.
    - rewrite (union_idemp_L {[name]}), <- (union_empty_r_L {[name]}). apply stop_holds; [done|by apply holds_ok].
    - apply lookup_delete_eq.
    - apply stop_holds; [done|]. rewrite <- (union_empty_r_L {[oldName]}). apply stop_holds; [by apply Hov|by apply holds_ok].
    - cbn. apply lookup_delete_None. right. apply lookup_delete_eq. }
  clearbody s0. destruct (ReplaceNetworkConfigWithSettings (if renamed then oldName else []) name (encodeNetwork n) extra (ocCommit oc) s0) as [s1|] eqn:Er.
  - assert ((if renamed then oldName else []) <> [] -> (if renamed then oldName else []) <> name -> validateNetworkName (if renamed then oldName else []) = true /\ (if renamed then oldName else []) ∈ ({[name]} ∪ {[other]} : gset gostring)) as Hold.
    { destruct renamed; [|done]. intros E1 E2. split; [by apply Hov|]. unfold other. rewrite bool_decide_false by done. set_solver. }
    destruct (replace_holds ({[name]} ∪ {[other]}) s0 _ name (encodeNetwork n) extra (ocCommit oc) s1 Hold ltac:(set_solver) ltac:(intros m Hm; rewrite Henc in Hm; by simplify_eq) H0 Er) as (H1 & Hst & Hgone).
    assert (nsProcs s1 !! other = None) as Hp1.
    { destruct (nsProcs s1 !! other) as [m|] eqn:Em; [|done]. destruct (ho_running _ _ H1 _ _ Em) as [Hx _]. set_solver. }
    apply gone_other in H1; cycle 1.
    { unfold other. case_bool_decide as E; [done|]. intros Hne. rewrite Hren, !bool_decide_false in Hgone by done. by apply Hgone. }
    destruct (StartNetwork n (ocStart oc) s1) as [s2|] eqn:Est.
    + intros [= <- <- <-]. eapply start_last; [exact H1|exact Hnv|exact Hst|exact Henc| |exact Est]. unfold same_network. by rewrite with_channels_self.
    + destruct (rollbackPut purge name prev rollback oc s1) as [a s2] eqn:Erb. intros [= <- <- <-]. eapply (rollback_holds s); [done|done|exact Hplan|exact H1| |exact Erb].
      intros E. unfold other in Hp1. by rewrite bool_decide_false in Hp1.
  - intros [= <- <- <-]. destruct (bool_decide_reflect (oldName = [])) as [Eo|Eo]; unfold other in H0.
    + destruct (Hadd Eo) as [Hno ->]. rewrite (union_idemp_L {[name]}) in H0. cbn [restartNetwork]. eapply gone_last; [|exact H0]. by rewrite Hc0.
    + destruct (Hprev Eo) as (row & -> & Hrn & Hrc & Hrl). apply restart_last; [rewrite Hrn; by apply Hov|unfold stored_config in *; by rewrite Hc0, Hrn|].
      rewrite Hrn. rewrite (union_comm_L {[name]}) in H0. eapply gone_other; [|exact H0]. intros Hne. rewrite Hc0. by apply Hfree.
Qed.

Lemma put_nets_ok req oc s acts s' : nets_ok s -> handlePutNetwork purge req oc s = (acts, s') -> nets_ok s'.
Proof.
  intros Hs. unfold handlePutNetwork, refuse. destruct (parsePutNetwork req (ocValid oc)) as [|[n oldName]] eqn:Ep; [by intros [= _ <-]|].
  destruct (parse_put_spec _ _ _ _ Ep) as [[raw Hraw] Hov].
  destruct (checkPutPreconditions oldName (EffectiveName n) (ocRead oc) s) as [[code text]|[prev renamed]] eqn:Ec; [by intros [= _ <-]|].
  destruct (preconditions_spec _ _ _ _ _ _ Ec) as (P1 & P2 & P3 & P4).
  destruct (negb (ValidateNetworkConfigRecord _ _)); [by intros [= _ <-]|].
  destruct (if renamed then _ else _) as [[[extra rollback] told]|]; [|by intros [= _ <-]].
  destruct (applyPutNetwork purge n oldName prev renamed (encodeNetwork n) extra rollback oc s) as [[ok a] s1] eqn:Ea.
  assert (nets_ok s1) by (eapply apply_holds; [done|exact Hraw|by split|exact Ea]).
  by destruct (negb ok); intros [= _ <-].
Qed.

(** Removing a row of an invalid name together with its placeholder. *)
Lemma recover_ok s id h :
  nets_ok s -> nsRecovery s !! invalidNetworkLabel id = Some id ->
  nets_ok (StopNetwork (invalidNetworkLabel id) (set_history h (set_configs (filter (fun kr => kr.2.1 <> id) (nsConfigs s)) s))).
Proof.
  intros [K1 K2 K3 K4 K5 K6] Hid. assert (forall x r, nsConfigs s !! x = Some r -> r.1 = id -> validateNetworkName x = false) as Hinv.
  { intros x r Hx Hr. destruct (K6 _ _ Hid) as (_ & _ & y & c & Hy & Hyv). by rewrite (K4 x y r (id, c) Hx Hy Hr). }
  assert (forall x r, nsConfigs s !! x = Some r -> validateNetworkName x = true \/ r.1 <> id -> (filter (fun kr => kr.2.1 <> id) (nsConfigs s)) !! x = Some r) as Hkeep.
  { intros x r Hx Hor. apply map_lookup_filter_Some. split; [done|]. cbn. intros Hr. destruct Hor as [Hxv|]; [|done]. by rewrite (Hinv x r Hx Hr) in Hxv. }
  unfold stored_config in *. split; cbn [StopNetwork set_recovery set_states set_procs set_history set_configs nsConfigs nsProcs nsStates nsRecovery]; unfold stored_config;
    cbn [StopNetwork set_recovery set_states set_procs set_history set_configs nsConfigs].
  - intros x n [_ Hn]%lookup_delete_Some. destruct (K1 _ _ Hn) as (He & Hva & c & n' & Hc & Hr). split; [done|]. split; [done|]. exists c, n'. split; [|done].
    destruct (nsConfigs s !! x) as [r|] eqn:Er; [|done]. by rewrite (Hkeep x r Er (or_introl Hva)).
  - intros x i c [Hx Hi]%map_lookup_filter_Some. cbn in Hi. unfold visible. cbn [StopNetwork set_recovery set_states set_procs set_history set_configs nsProcs nsStates nsRecovery].
    destruct (K2 _ _ _ Hx) as [[n Hn]|[[Hva Hst]|[Hrec Hst]]].
    + left. destruct (K1 _ _ Hn) as (_ & Hva & _). rewrite lookup_delete_ne; [by eauto|]. intros E. symmetry in E. by apply valid_not_label in E.
    + right. left. split; [done|]. rewrite lookup_delete_ne; [done|]. intros E. symmetry in E. by apply valid_not_label in E.
    + right. right. assert (invalidNetworkLabel id <> invalidNetworkLabel i) by congruence. by rewrite !lookup_delete_ne.
  - intros x c n. destruct (filter (fun kr => kr.2.1 <> id) (nsConfigs s) !! x) as [r|] eqn:Er; [|done]. apply map_lookup_filter_Some in Er as [Er _].
    intros Hc. apply (K3 x c n). by rewrite Er.
  - intros a b ra rb [Ha _]%map_lookup_filter_Some [Hb _]%map_lookup_filter_Some. by apply (K4 a b).
  - intros x r [Hx _]%map_lookup_filter_Some. by eapply K5.
  - intros label i [Hne Hl]%lookup_delete_Some. destruct (K6 _ _ Hl) as (E & ? & x & c & Hx & Hxv). split; [done|]. split; [done|]. exists x, c. split; [|done].
    apply Hkeep; [done|]. right. cbn. intros ->. by subst label.
Qed.

Lemma history_ok s h : nets_ok s -> nets_ok (set_history h s).
Proof. by intros [K1 K2 K3 K4 K5 K6]. Qed.

Lemma delete_nets_ok req oc s acts s' : nets_ok s -> handleDeleteNetwork purge req oc s = (acts, s') -> nets_ok s'.
Proof.
  intros Hs. unfold handleDeleteNetwork, refuse. destruct req as [[|c0 network0]|]; try (by intros [= _ <-]). set (network := c0 :: network0).
  destruct (Z.eqb_spec (recoveryRowID network s) 0) as [E|E]; cbn [negb].
  - destruct (validStoredNetworkName network) eqn:Ev; [|by intros [= _ <-]]. apply stored_valid_name in Ev. cbn [negb]. destruct (ocRead oc); [|by intros [= _ <-]]. cbn [negb].
    set (row := NetworkConfig network s). set (s0 := StopNetwork network s).
    assert (holds {[network]} s0 /\ nsConfigs s0 = nsConfigs s) as [H0 Hc0].
    { split; [|done]. rewrite <- (union_empty_r_L {[network]}). apply stop_holds; [done|]. by apply holds_ok. }
    clearbody s0. destruct (DeleteNetworkWithSettings purge network ∅ (ocPurge oc) (ocCommit oc) s0) as [s1 b] eqn:Ed.
    destruct (delete_holds _ _ _ _ _ _ _ _ Ev (elem_of_singleton_2 _ _ eq_refl) H0 Ed) as (H1 & Hgone & Hsame).
    destruct b; intros [= _ <-]; [eapply gone_last; [by apply Hgone|done]|]. specialize (Hsame eq_refl).
    unfold row, NetworkConfig. destruct (nsConfigs s !! network) as [[id c]|] eqn:Ec; cbn [fmap option_fmap option_map snd].
    + destruct (len c <=? MaxNetworkConfigBytes); cbn [crConfig]; [case_bool_decide; [by apply note_last|]|rewrite bool_decide_true by done; by apply note_last].
      apply restart_last; cbn [crName crConfig]; [done| |done]. unfold stored_config. by rewrite Hsame, Hc0, Ec.
    + cbn [restartNetwork]. eapply gone_last; [|exact H1]. by rewrite Hsame, Hc0.
  - assert (nsRecovery s !! network = Some (recoveryRowID network s)) as Hr.
    { unfold recoveryRowID in *. destruct (nsRecovery s !! network); [done|]. by destruct E. }
    generalize dependent (recoveryRowID network s). intros id Hid Hr. destruct (no_recovery _ Hs _ _ Hr) as (Hlab & Hpos & _).
    unfold DeleteNetworkByPageID. destruct (Z.leb_spec id 0); [lia|]. destruct (ocPurge oc) as [f|]; [intros [= _ <-]; by apply history_ok|].
    destruct ((filter _ _ == ∅) || negb (ocCommit oc)); intros [= _ <-]; [by apply history_ok|]. rewrite Hlab. rewrite Hlab in Hr. by apply recover_ok.
Qed.

(** ** Channel lists *)

Lemma wanted_order_sub fold seen wanted x : x ∈ wanted_order fold seen wanted -> x ∈ wanted.
Proof. revert seen. induction wanted as [|w wanted IH]; intros seen; simpl; [done|]. case_bool_decide; [intros ?%IH; set_solver|]. rewrite !elem_of_cons. intros [?|?%IH]; auto. Qed.

Lemma add_channels_sub fold have out order x : x ∈ add_channels fold have out order -> x ∈ out \/ x ∈ order.
Proof.
  revert have out. induction order as [|w order IH]; intros have out; simpl; [auto|]. destruct (_ || _); intros [?|?]%IH; set_solver.
Qed.

Lemma add_channels_len fold have out order : len out <= maxPersistedChannels -> len (add_channels fold have out order) <= maxPersistedChannels.
Proof.
  revert have out. induction order as [|w order IH]; intros have out Hl; simpl; [done|]. case_bool_decide; cbn [orb]; [by apply IH|].
  destruct (Z.leb_spec maxPersistedChannels (len out)); apply IH; [done|]. rewrite len_app. change (len [w]) with 1. lia.
Qed.

Lemma edit_list_spec chans wanted add fold out changed :
  editChannelList chans wanted add fold = (out, changed) ->
  (forall x, x ∈ out -> x ∈ chans \/ add = true /\ x ∈ wanted) /\ (len chans <= maxPersistedChannels -> len out <= maxPersistedChannels) /\
  (add = true -> forall x, x ∈ chans -> x ∈ out).
Proof.
  unfold editChannelList. destruct add; intros [= <- _].
  - split_and!; [|by apply add_channels_len|].
    + intros x [?|?%wanted_order_sub]%add_channels_sub; auto.
    + intros _. generalize (wanted_order fold ∅ wanted) as order, (list_to_set (C := gset gostring) (fold <$> chans)) as have.
      assert (forall order have out x, x ∈ out -> x ∈ add_channels fold have out order) as Hk; [|intros; by apply Hk].
      induction order as [|w order IH]; intros have out x Hx; simpl; [done|]. destruct (_ || _); apply IH; set_solver.
  - split_and!; [intros x Hx; left; by apply list_elem_of_In, filter_In in Hx as [?%list_elem_of_In _]| |done].
    intros Hl. etrans; [|exact Hl]. unfold len. apply inj_le, filter_length_le.
Qed.

Lemma storedName_in fold chans fw name : storedName fold chans fw = Some name -> name ∈ chans /\ fold name = fw.
Proof.
  unfold storedName. intros Hl. apply last_Some_elem_of, list_elem_of_In, filter_In in Hl as [?%list_elem_of_In Hf]. split; [done|]. by apply bool_decide_eq_true in Hf.
Qed.

Lemma edit_keys_spec stored chans wanted keys add fold out changed :
  editChannelKeys stored chans wanted keys add fold = (out, changed) ->
  forall k v, out !! k = Some v -> stored !! k = Some v /\ (add = false -> fold k ∉ fold <$> wanted) \/ add = true /\ k ∈ chans /\ v <> [] /\ exists w, keys !! w = Some v.
Proof.
  unfold editChannelKeys. destruct add.
  - case_bool_decide; [intros [= <- _] k v Hk; by left|].
    assert (forall ws acc, (forall k v, acc.1 !! k = Some v -> stored !! k = Some v \/ k ∈ chans /\ v <> [] /\ exists w, keys !! w = Some v) ->
              forall k v, (foldl (key_step fold chans keys) acc ws).1 !! k = Some v -> stored !! k = Some v \/ k ∈ chans /\ v <> [] /\ exists w, keys !! w = Some v) as Hf.
    { induction ws as [|w ws IH]; intros acc Hacc k v; [apply Hacc|]. cbn [foldl]. apply IH. intros k' v'. unfold key_step.
      case_bool_decide as Hk; [apply Hacc|]. destruct (storedName fold chans (fold w)) as [name|] eqn:En; [|apply Hacc]. case_bool_decide; [apply Hacc|]. cbn [fst].
      rewrite lookup_insert_Some. intros [[<- <-]|[_ ?]]; [right|by apply Hacc]. split; [by apply storedName_in in En as [? _]|]. split; [done|].
      exists w. destruct (keys !! w); [done|]. by destruct Hk. }
    intros Ho k v Hk. specialize (Hf wanted (stored, false) ltac:(auto) k v). rewrite Ho in Hf. destruct (Hf Hk) as [?|?]; [by left|by right].
  - intros [= <- _] k v [? ?]%map_lookup_filter_Some. left. done.
Qed.

(** The channels and keys of a live edit. *)
Definition edit_clean (channels : list gostring) (keys : gmap gostring gostring) (add : bool) : Prop :=
  (add = true -> Forall (fun ch => ValidString ch = true) channels) /\ (forall w key, keys !! w = Some key -> ValidString key = true).

Lemma edit_stays_clean n channels keys add fold out changed outKeys keysChanged :
  network_clean n = true -> edit_clean channels keys add ->
  editChannelList (nwChannels n) channels add fold = (out, changed) -> editChannelKeys (nwChannelKeys n) out channels keys add fold = (outKeys, keysChanged) ->
  network_clean (with_channels out outKeys n) = true.
Proof.
  unfold network_clean. rewrite !andb_true_iff, !names_clean_spec, !forallb_app, !andb_true_iff. intros ((H1 & H2 & H3) & H4) [Hc Hk] El Ek.
  destruct (edit_list_spec _ _ _ _ _ _ El) as (Hout & _ & _). pose proof (edit_keys_spec _ _ _ _ _ _ _ _ Ek) as Hkeys.
  assert (forall x, x ∈ out -> ValidString x = true) as Hv.
  { intros x [Hx|[Ha Hx]]%Hout; [rewrite forallb_forall in H3; by apply H3, list_elem_of_In|]. specialize (Hc Ha). rewrite Forall_forall in Hc. by apply Hc. }
  split; [split; [done|split; [done|]]|].
  - apply forallb_forall. intros x Hx%list_elem_of_In. by apply Hv.
  - intros k v Hkv. destruct (Hkeys k v Hkv) as [[? _]|(_ & Hin & _ & w & Hw)]; [by apply H4|]. split; [by apply Hv|by eapply Hk].
Qed.

Lemma autojoin_ok network channels keys add fold readOk writeOk s s' :
  nets_ok s -> edit_clean channels keys add -> updateAutojoinLocked network channels keys add fold readOk writeOk s = Some s' -> nets_ok s'.
Proof.
  intros Hs Hclean. unfold updateAutojoinLocked. destruct readOk; [|done]. cbn [negb]. destruct (NetworkConfig network s) as [row|] eqn:Er; [|done]. destruct (crOversized row) eqn:Eo; [done|].
  destruct (Parse (crConfig row)) as [n|] eqn:Ep; [|done]. destruct (editChannelList _ _ _ _) as [out ch] eqn:El. destruct (editChannelKeys _ _ _ _ _ _) as [ok kc] eqn:Ek.
  destruct (negb ch && negb kc); [by intros [= <-]|]. unfold PutNetworkConfig. destruct (ValidateNetworkConfigRecord _ _) eqn:Ev; [|done]. apply record_valid in Ev as [Hv _]. cbn [negb].
  destruct (_ && _); [done|]. destruct writeOk; [|done]. intros [= <-].
  apply Parse_spec in Ep as [Ed _]. assert (exists id, nsConfigs s !! network = Some (id, crConfig row)) as [id Hid].
  { unfold NetworkConfig in Er. destruct (nsConfigs s !! network) as [[id c]|]; [|done]. cbn in Er. destruct (_ <=? _); injection Er as <-; [by eexists|].
    done. }
  assert (decodeNetwork (encodeNetwork (with_channels out ok n)) = Some (with_channels out ok n)) as Hdec.
  { apply network_roundtrip; [by exists (crConfig row), n|]. eapply edit_stays_clean; [by eapply network_decoded|exact Hclean|exact El|exact Ek]. }
  destruct Hs as [K1 K2 K3 K4 K5 K6]. unfold stored_config in *.
  assert (forall x, snd <$> nsConfigs (upsert_config network (encodeNetwork (with_channels out ok n)) s) !! x =
            if x == network then Some (encodeNetwork (with_channels out ok n)) else snd <$> nsConfigs s !! x) as Hst.
  { intros x. cbn [upsert_config set_configs nsConfigs]. rewrite Hid. case_bool_decide as E; [subst; by rewrite lookup_insert_eq|by rewrite lookup_insert_ne]. }
  assert (forall x, fst <$> nsConfigs (upsert_config network (encodeNetwork (with_channels out ok n)) s) !! x = fst <$> nsConfigs s !! x) as Hfst.
  { intros x. cbn [upsert_config set_configs nsConfigs]. rewrite Hid. destruct (decide (x = network)) as [->|]; [by rewrite lookup_insert_eq, Hid|by rewrite lookup_insert_ne]. }
  assert (forall x r, nsConfigs (upsert_config network (encodeNetwork (with_channels out ok n)) s) !! x = Some r -> exists c, nsConfigs s !! x = Some (r.1, c)) as Hback.
  { intros x r Hx. specialize (Hfst x). rewrite Hx in Hfst. destruct (nsConfigs s !! x) as [[i c]|]; [|done]. injection Hfst as <-. by eexists. }
  split; unfold stored_config.
  - intros x m Hm. destruct (K1 x m Hm) as (He & Hva & c & n' & Hc & Hd & Hsame). split; [done|]. split; [done|]. rewrite Hst. case_bool_decide as E; [|by exists c, n'].
    rewrite E, Hid in Hc. cbn in Hc. injection Hc as <-. rewrite Ed in Hd. injection Hd as <-. eexists _, (with_channels out ok n). split; [done|]. split; [done|].
    unfold same_network in *. by rewrite Hsame.
  - intros x i c Hx. destruct (Hback x _ Hx) as [c' Hx']. exact (K2 _ _ _ Hx').
  - intros x c m. rewrite Hst. case_bool_decide as E; [|apply K3]. intros [= <-]. rewrite Hdec. intros [= <-]. rewrite E. change (EffectiveName n = network). apply (K3 network (crConfig row) n); [by rewrite Hid|done].
  - intros a b ra rb Ha Hb. destruct (Hback a _ Ha) as [ca Ha'], (Hback b _ Hb) as [cb Hb']. by apply (K4 a b _ _ Ha' Hb').
  - intros x r Hx. destruct (Hback x _ Hx) as [c Hx']. exact (K5 _ _ Hx').
  - intros label i Hl. destruct (K6 _ _ Hl) as (? & ? & x & c & Hx & Hxv). split; [done|]. split; [done|]. specialize (Hfst x). rewrite Hx in Hfst.
    destruct (nsConfigs _ !! x) as [[j c']|] eqn:Ex; [|done]. injection Hfst as ->. by exists x, c'.
Qed.

(** ** Runs *)

Inductive request :=
  | RPut (req : option PutNetworkReq) (oc : @Outcomes H)
  | RDelete (req : option gostring) (oc : @Outcomes H)
  | RAutojoin (network : gostring) (channels : list gostring) (keys : gmap gostring gostring) (add : bool) (fold : gostring -> gostring) (readOk writeOk : bool)
  | RHistory (h : gmap gostring H)
  | RSettings (r : settings)
  | RState (name state : gostring).

(** A request, a message that is stored, a policy that is written, or the state of a
    connection that changes. *)
Definition serve (r : request) (s : Nets) : Nets :=
  match r with
  | RPut req oc => (handlePutNetwork purge req oc s).2
  | RDelete req oc => (handleDeleteNetwork purge req oc s).2
  | RAutojoin network channels keys add fold readOk writeOk => default s (updateAutojoinLocked network channels keys add fold readOk writeOk s)
  | RHistory h => set_history h s
  | RSettings r => set_settings r s
  | RState name state => match nsProcs s !! name with Some _ => set_states (<[name := state]> (nsStates s)) s | None => s end
  end.

Definition legal (r : request) : Prop := match r with RAutojoin _ channels keys add _ _ _ => edit_clean channels keys add | _ => True end.

Lemma serve_ok r s : legal r -> nets_ok s -> nets_ok (serve r s).
Proof.
  intros Hl Hs. destruct r as [req oc|req oc|network channels keys add fold readOk writeOk|h|r|name state]; cbn [serve].
  - destruct (handlePutNetwork purge req oc s) as [acts s'] eqn:E. by eapply put_nets_ok.
  - destruct (handleDeleteNetwork purge req oc s) as [acts s'] eqn:E. by eapply delete_nets_ok.
  - destruct (updateAutojoinLocked network channels keys add fold readOk writeOk s) as [s'|] eqn:E; [|done]. by eapply autojoin_ok.
  - by apply history_ok.
  - by destruct Hs.
  - destruct (nsProcs s !! name) as [n|]; [|done]. destruct Hs as [K1 K2 K3 K4 K5 K6]. split; try done. intros x id c Hx. unfold visible. cbn [set_states nsStates nsProcs nsRecovery].
    assert (forall y, is_Some (nsStates s !! y) -> is_Some (<[name := state]> (nsStates s) !! y)) as Hm.
    { intros y Hy. destruct (decide (name = y)) as [->|]; [by rewrite lookup_insert_eq|by rewrite lookup_insert_ne]. }
    destruct (K2 _ _ _ Hx) as [?|[[? ?]|[? ?]]]; auto.
Qed.

(** ** The limit on definitions *)

Definition config_count (s : Nets) : Z := Z.of_nat (size (nsConfigs s)).

Lemma upsert_count name config s : config_count (upsert_config name config s) = config_count s + (if bool_decide (nsConfigs s !! name = None) then 1 else 0).
Proof. unfold config_count. cbn [upsert_config set_configs nsConfigs]. rewrite map_size_insert. destruct (nsConfigs s !! name); simpl; lia. Qed.

Lemma replace_count oldName name config kv ok s s' :
  ReplaceNetworkConfigWithSettings oldName name config kv ok s = Some s' -> config_count s' <= Z.max MaxNetworkConfigs (config_count s).
Proof.
  unfold ReplaceNetworkConfigWithSettings. destruct (negb _); [done|]. set (renamed := (oldName != []) && (oldName != name)).
  destruct (checkReplaceNetworkLimit renamed oldName name s) eqn:Ec; [|done]. cbn [negb].
  assert (forall s1, (if renamed then moveNetworkHistory oldName name s else Some s) = Some s1 ->
     nsConfigs s1 = if renamed then delete oldName (nsConfigs s) else nsConfigs s) as Hmove.
  { intros s1. destruct renamed; [|by intros [= <-]]. unfold moveNetworkHistory. repeat case_match; try done; by intros [= <-]. }
  destruct (if renamed then moveNetworkHistory oldName name s else Some s) as [s1|]; [|done]. specialize (Hmove s1 eq_refl). destruct ok; [|done]. intros [= <-].
  change (config_count (set_settings ?r ?x)) with (config_count x). rewrite upsert_count. unfold checkReplaceNetworkLimit in Ec. fold (config_count s) in Ec.
  unfold config_count in *. rewrite Hmove. destruct renamed eqn:Er; cbn [andb] in Ec.
  - unfold renamed in Er. apply andb_true_iff in Er as [_ Hne]. apply negb_true_iff, bool_decide_eq_false in Hne. rewrite map_size_delete, lookup_delete_ne by done.
    destruct (nsConfigs s !! oldName) as [r|] eqn:Eo; [rewrite bool_decide_true in Ec by done|rewrite bool_decide_false in Ec by (intros []; done)]; simpl;
      [assert (size (nsConfigs s) <> 0)%nat by (intros E0; apply map_size_empty_inv in E0; by rewrite E0 in Eo)|]; case_bool_decide; lia.
  - case_bool_decide; lia.
Qed.

Lemma delete_count name kv part ok s s' b : DeleteNetworkWithSettings purge name kv part ok s = (s', b) -> config_count s' <= config_count s.
Proof.
  unfold DeleteNetworkWithSettings, config_count. destruct part; [by intros [= <- <-]|]. destruct ok; intros [= <- <-]; cbn; [|done]. rewrite map_size_delete. case_match; simpl; lia.
Qed.

Lemma restart_tables prev ok (s : Nets) : nsConfigs (restartNetwork prev ok s) = nsConfigs s /\ nsHistory (restartNetwork prev ok s) = nsHistory s /\ nsSettings (restartNetwork prev ok s) = nsSettings s.
Proof. unfold restartNetwork, StartNetwork, NoteStoppedNetwork. repeat (case_match; simplify_eq/=; try done). Qed.
Lemma note_tables name (s : Nets) : nsConfigs (NoteStoppedNetwork name s) = nsConfigs s /\ nsHistory (NoteStoppedNetwork name s) = nsHistory s /\ nsSettings (NoteStoppedNetwork name s) = nsSettings s.
Proof. unfold NoteStoppedNetwork. by case_match. Qed.

Lemma apply_count n oldName prev renamed config extra rollback oc s ok acts s' :
  applyPutNetwork purge n oldName prev renamed config extra rollback oc s = (ok, acts, s') -> config_count s' <= Z.max MaxNetworkConfigs (config_count s).
Proof.
  unfold applyPutNetwork. set (s0 := StopNetwork _ _). assert (config_count s0 = config_count s) as H0 by (unfold s0; by case_bool_decide). clearbody s0.
  destruct (ReplaceNetworkConfigWithSettings _ _ _ _ _ s0) as [s1|] eqn:Er.
  - apply replace_count in Er. unfold StartNetwork. destruct (ocStart oc); [intros [= _ _ <-]; change (config_count (set_procs ?p ?x)) with (config_count x); lia|].
    unfold rollbackPut. destruct prev as [row|].
    + destruct (ReplaceNetworkConfigWithSettings _ _ _ _ _ s1) as [s2|] eqn:Eu; intros [= _ _ <-]; unfold config_count in *;
        [pose proof (proj1 (restart_tables (Some row) (ocRestart oc) s2)) as Et; cbn [restartNetwork] in Et; rewrite Et; apply replace_count in Eu; unfold config_count in Eu; lia
        |rewrite (proj1 (note_tables _ _)); lia].
    + destruct (DeleteNetworkWithSettings _ _ _ _ _ s1) as [s2 b] eqn:Ed. apply delete_count in Ed. destruct b; intros [= _ _ <-]; unfold config_count in *; [|rewrite (proj1 (note_tables _ _))]; lia.
  - intros [= _ _ <-]. unfold config_count in *. rewrite (proj1 (restart_tables _ _ _)). lia.
Qed.

Lemma serve_count r s : config_count (serve r s) <= Z.max MaxNetworkConfigs (config_count s).
Proof.
  destruct r as [req oc|req oc|network channels keys add fold readOk writeOk|h|r|name state]; cbn [serve]; try (change (config_count (_ _ s)) with (config_count s); lia).
  - unfold handlePutNetwork, refuse. repeat (case_match; simplify_eq/=; try lia).
    all: match goal with E : applyPutNetwork _ _ _ _ _ _ _ _ _ _ = _ |- _ => apply apply_count in E; lia end.
  - unfold handleDeleteNetwork, refuse. destruct req as [[|c0 network]|]; cbn [snd]; try lia. destruct (negb _).
    + destruct (DeleteNetworkByPageID _ _ _ _ s) as [s1 b] eqn:E. assert (config_count s1 <= config_count s) as Hle.
      { unfold DeleteNetworkByPageID in E. repeat case_match; simplify_eq/=; unfold config_count; cbn; try lia. apply inj_le, map_subseteq_size, map_filter_subseteq. }
      destruct (negb b); cbn [snd]; [|change (config_count (StopNetwork ?x ?y)) with (config_count y)]; lia.
    + destruct (negb (validStoredNetworkName _)); cbn [snd]; [lia|]. destruct (negb (ocRead oc)); cbn [snd]; [lia|].
      destruct (DeleteNetworkWithSettings _ _ _ _ _ _) as [s1 b] eqn:E. apply delete_count in E. change (config_count (StopNetwork ?x ?y)) with (config_count y) in E.
      destruct b; cbn [snd]; [lia|]. unfold config_count in *.
      generalize (match NetworkConfig (c0 :: network) s with Some r => if crConfig r == [] then None else Some r | None => None end) as p. intros p.
      repeat case_match; rewrite ?(proj1 (note_tables _ _)), ?(proj1 (restart_tables _ _ _)); lia.
  - unfold updateAutojoinLocked, PutNetworkConfig. repeat (case_match; simplify_eq/=; try lia). rewrite upsert_count. unfold config_count in *.
    case_bool_decide; cbn [andb] in *; lia.
  - destruct (nsProcs s !! name); [change (config_count (set_states ?x s)) with (config_count s)|]; lia.
Qed.

(** C7. Storage and connections never drift apart.  After any requests that add, edit,
    rename or delete networks or change their channels, with queries, transactions,
    purges, starts, rollbacks and restarts failing at will, every connection that runs
    is of a stored definition of that name (equal but for the channels), every stored
    definition is shown, running, stopped or as a recovery entry, and the number of
    definitions has not grown beyond 64. *)
Theorem runtime_matches_storage rs s :
  nets_ok s -> Forall legal rs -> let s' := foldl (fun s r => serve r s) s rs in
  (forall name n, nsProcs s' !! name = Some n ->
     EffectiveName n = name /\ exists config n', stored_config s' name = Some config /\ decodeNetwork config = Some n' /\ same_network n n') /\
  (forall name id config, nsConfigs s' !! name = Some (id, config) -> visible s' name id) /\
  config_count s' <= Z.max MaxNetworkConfigs (config_count s).
Proof.
  intros Hs Hl. cbv zeta. assert (nets_ok (foldl (fun s r => serve r s) s rs) /\ config_count (foldl (fun s r => serve r s) s rs) <= Z.max MaxNetworkConfigs (config_count s)) as [Hok Hc].
  { revert s Hs. induction Hl as [|r rs Hr _ IH]; intros s Hs; cbn [foldl]; [split; [done|lia]|].
    destruct (IH (serve r s) (serve_ok _ _ Hr Hs)) as [? Hle]. split; [done|]. pose proof (serve_count r s). lia. }
  split_and!; [|by apply Hok|done]. intros name n Hn. destruct (no_running _ Hok _ _ Hn) as (? & _ & ?). done.
Qed.

End proofs.
