(* ===== verification/NetworksPut.v ===== *)
(** * What a put and a live channel edit do to the stored definition

    A put that fails leaves the tables as they were; a channel that the server makes us
    join cannot make the stored definition unusable. *)

From S2P Require Import Prelude GoStrings GoUtf8 GoNet IrcMsg Conn HubRoute Hub Policy PolicyProofs Netconf Networks NetworksProofs.

Section put.
Context {Huni : Unicode} {Hpol : PolicyJson} {Hnet : NetJson} {Hlaws : NetJsonLaws} {H : Type}.
Variable purge : H -> H.
Abbreviation Nets := (@Nets H).

(** ** Rollback of the settings *)

Definition rolled_back (extra rollback rows : settings) : Prop := forall k, rollback !! k = (fun _ => default §"{}" (rows !! k)) <$> extra !! k.

Lemma lookup_set_settings kv rows k : SetSettings kv rows !! k = match kv !! k with Some v => Some v | None => rows !! k end.
Proof. unfold SetSettings. rewrite lookup_union. by destruct (kv !! k), (rows !! k). Qed.

(** A setting as it was, or an absent map of renames as the empty one. *)
Definition restored (rows rows' : settings) : Prop := forall k, rows' !! k = rows !! k \/ rows !! k = None /\ rows' !! k = Some (§"{}").

Lemma undo_settings extra rollback rows : rolled_back extra rollback rows -> restored rows (SetSettings rollback (SetSettings extra rows)).
Proof. intros Hr k. rewrite !lookup_set_settings, Hr. destruct (extra !! k); simpl; [|by left]. destruct (rows !! k); simpl; auto. Qed.

Lemma clear_rolls_back fails name rows extra rollback : computeNameClearWrites fails name rows = Some (extra, rollback) -> rolled_back extra rollback rows.
Proof.
  unfold computeNameClearWrites, SettingValue. destruct (fails renamesKey); [done|]. destruct (rows !! renamesKey) as [v|] eqn:Ev; [|by intros [= <- <-]].
  repeat (case_match; try done; try (by intros [= <- <-])). intros [= <- <-] k. destruct (decide (k = renamesKey)) as [->|]; [by rewrite !lookup_singleton_eq, Ev|by rewrite !lookup_singleton_ne].
Qed.

Lemma rolled_back_insert extra rollback rows k v new : rolled_back extra rollback rows -> v = default §"{}" (rows !! k) -> rolled_back (<[k := new]> extra) (<[k := v]> rollback) rows.
Proof. intros Hr -> j. destruct (decide (k = j)) as [->|]; [by rewrite !lookup_insert_eq|by rewrite !lookup_insert_ne]. Qed.

Lemma rename_rolls_back fails oldName newName rows rw : computeRenameWrites fails oldName newName rows = Some rw -> rolled_back (rwSettings rw) (rwRollback rw) rows.
Proof.
  unfold computeRenameWrites. set (rw0 := MkRenameWrites ∅ ∅ None None). assert (rolled_back (rwSettings rw0) (rwRollback rw0) rows) as H0 by (by intros k).
  destruct (renameMapSetting fails oldName newName rows rw0) as [rw1|] eqn:E1; [|done]. destruct (renameRuleSetting fails oldName newName rows rw1) as [rw2|] eqn:E2; [|by cbn; rewrite E2].
  cbn [mbind option_bind]. rewrite E2. intros E3.
  assert (rolled_back (rwSettings rw1) (rwRollback rw1) rows) as H1.
  { unfold renameMapSetting, SettingValue in E1. destruct (fails _); [done|]. destruct (foldRenameMap _ _ _); [|done]. injection E1 as <-. by apply rolled_back_insert. }
  assert (rolled_back (rwSettings rw2) (rwRollback rw2) rows) as H2.
  { unfold renameRuleSetting, SettingValue in E2. destruct (fails _); [done|]. destruct (rows !! rulesKey) as [v|] eqn:Ev; [|by injection E2 as <-].
    repeat (case_match; try done); injection E2 as <-; try done. apply rolled_back_insert; [done|]. by rewrite Ev. }
  unfold renameFilterSetting, SettingValue in E3. destruct (fails _); [done|]. destruct (rows !! filtersKey) as [v|] eqn:Ev; [|by injection E3 as <-].
  repeat (case_match; try done); injection E3 as <-; try done. apply rolled_back_insert; [done|]. by rewrite Ev.
Qed.

(** ** The tables through a put *)

Definition tables_as (s s' : Nets) : Prop := (forall x, stored_config s' x = stored_config s x) /\ nsHistory s' = nsHistory s.

(** What the transaction of a put stores. *)
Lemma replace_tables oldName name config kv ok (s s' : Nets) :
  ReplaceNetworkConfigWithSettings oldName name config kv ok s = Some s' ->
  let renamed := (oldName != []) && (oldName != name) in
  (forall x, stored_config s' x = if x == name then Some config else if renamed && (x == oldName) then None else stored_config s x) /\
  nsHistory s' = (if renamed then match nsHistory s !! oldName with Some h => <[name := h]> (delete oldName (nsHistory s)) | None => nsHistory s end else nsHistory s) /\
  nsSettings s' = SetSettings kv (nsSettings s) /\ (renamed = true -> nsHistory s !! oldName <> None -> nsHistory s !! name = None).
Proof.
  unfold ReplaceNetworkConfigWithSettings. destruct (ValidateNetworkConfigRecord name config); [|done]. cbv zeta. set (renamed := (oldName != []) && (oldName != name)).
  destruct (checkReplaceNetworkLimit renamed oldName name s); [|done]. cbn [negb].
  assert (forall s1, (if renamed then moveNetworkHistory oldName name s else Some s) = Some s1 ->
     nsConfigs s1 = (if renamed then delete oldName (nsConfigs s) else nsConfigs s) /\ nsSettings s1 = nsSettings s /\
     nsHistory s1 = (if renamed then match nsHistory s !! oldName with Some h => <[name := h]> (delete oldName (nsHistory s)) | None => nsHistory s end else nsHistory s) /\
     (renamed = true -> nsHistory s !! oldName <> None -> nsHistory s !! name = None)) as Hmove.
  { intros s1. destruct renamed; [|by intros [= <-]]. unfold moveNetworkHistory. destruct (nsHistory s !! oldName) eqn:E1; [destruct (nsHistory s !! name) eqn:E2|]; intros [= <-]; cbn; rewrite ?E1; split_and!; naive_solver. }
  destruct (if renamed then moveNetworkHistory oldName name s else Some s) as [s1|]; [|done]. destruct (Hmove s1 eq_refl) as (E1 & E2 & E3 & E4). destruct ok; [|done]. intros [= <-].
  split_and!; [|done|by cbn; rewrite E2|done]. intros x. unfold stored_config. cbn [set_settings upsert_config set_configs nsConfigs]. rewrite E1.
  case_bool_decide as Ex; [subst; by rewrite lookup_insert_eq|]. rewrite lookup_insert_ne by done. destruct renamed; cbn [andb]; [|done].
  case_bool_decide; [subst; by rewrite lookup_delete_eq|by rewrite lookup_delete_ne].
Qed.

(** Undoing a rename or an edit gives the tables back. *)
Lemma undo_tables (s s1 s2 : Nets) oldName name row config extra rollback ok ok' :
  name <> [] -> put_plan s oldName name (Some row) ((oldName != []) && (oldName != name)) -> (oldName <> name -> nsHistory s !! name = None) ->
  ReplaceNetworkConfigWithSettings (if (oldName != []) && (oldName != name) then oldName else []) name config extra ok s = Some s1 ->
  ReplaceNetworkConfigWithSettings name (crName row) (crConfig row) rollback ok' s1 = Some s2 -> tables_as s s2.
Proof.
  intros Hn0 [_ Hadd Hfree Hprev _] Hfresh E1 E2. destruct (decide (oldName = [])) as [Eo|Eo]; [by destruct (Hadd Eo)|]. destruct (Hprev Eo) as (row' & [= <-] & Hrn & Hrc & _).
  apply replace_tables in E1 as (C1 & I1 & _). apply replace_tables in E2 as (C2 & I2 & _). rewrite Hrn in *. rewrite !(bool_decide_false (oldName = [])) in * by done.
  rewrite (bool_decide_false (name = [])) in * by done. cbn [negb andb] in *. destruct (decide (oldName = name)) as [->|Hne].
  - rewrite (bool_decide_true (name = name)) in * by done. cbn [negb andb] in *. rewrite (bool_decide_true (([] : gostring) = [])) in * by done. cbn [negb andb] in *. split; [|by rewrite I2, I1].
    intros x. rewrite C2, C1. case_bool_decide as Ex; [by rewrite Ex, Hrc|done].
  - rewrite (bool_decide_false (oldName = name)), (bool_decide_false (name = oldName)) in * by done. cbn [negb andb] in *.
    rewrite ?(bool_decide_false (oldName = [])), ?(bool_decide_false (oldName = name)) in * by done. cbn [negb andb] in *. split.
    + intros x. rewrite C2, C1. case_bool_decide as Ea; [by rewrite Ea, Hrc|]. case_bool_decide as Eb; [|done]. rewrite Eb. unfold stored_config. by rewrite (Hfree Eo Hne).
    + rewrite I2, I1. destruct (nsHistory s !! oldName) as [h|] eqn:Eh.
      * rewrite lookup_insert_eq. rewrite delete_insert_id by (rewrite lookup_delete_ne by done; by apply Hfresh). by rewrite insert_delete_id.
      * by rewrite (Hfresh Hne).
Qed.

(** The undo of a rename or an edit goes through when its transaction commits. *)
Lemma undo_commits (s s1 : Nets) oldName name row config extra rollback ok :
  name <> [] -> put_plan s oldName name (Some row) ((oldName != []) && (oldName != name)) -> (oldName <> name -> nsHistory s !! name = None) ->
  ReplaceNetworkConfigWithSettings (if (oldName != []) && (oldName != name) then oldName else []) name config extra ok s = Some s1 ->
  exists s2, ReplaceNetworkConfigWithSettings name (crName row) (crConfig row) rollback true s1 = Some s2.
Proof.
  intros Hn0 [_ Hadd Hfree Hprev Hval] Hfresh E1. destruct (decide (oldName = [])) as [Eo|Eo]; [by destruct (Hadd Eo)|]. destruct (Hprev Eo) as (row' & [= <-] & Hrn & Hrc & Hrl).
  apply replace_tables in E1 as (C1 & I1 & _). unfold ReplaceNetworkConfigWithSettings. rewrite Hrn.
  assert (ValidateNetworkConfigRecord oldName (crConfig row) = true) as ->.
  { unfold ValidateNetworkConfigRecord. rewrite (Hval Eo). cbn [andb]. apply negb_true_iff, orb_false_iff. lia. }
  cbn [negb]. rewrite (bool_decide_false (name = [])) by done. cbn [negb andb]. rewrite (bool_decide_false (oldName = [])) in * by done. cbn [negb andb] in *.
  assert (nsConfigs s1 !! name <> None) as Hin.
  { specialize (C1 name). rewrite bool_decide_true in C1 by done. unfold stored_config in C1. by destruct (nsConfigs s1 !! name). }
  destruct (bool_decide_reflect (name = oldName)) as [<-|Hne]; cbn [negb].
  - unfold checkReplaceNetworkLimit. cbn [andb]. rewrite (bool_decide_false (nsConfigs s1 !! name = None)) by done.
    destruct (Z.ltb_spec (Z.of_nat (size (nsConfigs s1))) (Z.of_nat (size (nsConfigs s1)) - 0 + 0)); [lia|]. by eexists.
  - rewrite (bool_decide_false (oldName = name)) in * by done. cbn [negb andb] in *. rewrite ?(bool_decide_false (oldName = [])), ?(bool_decide_false (oldName = name)) in * by done. cbn [negb andb] in *.
    unfold checkReplaceNetworkLimit. cbn [andb]. rewrite (bool_decide_true (is_Some (nsConfigs s1 !! name))) by (by apply not_eq_None_Some).
    destruct (Z.ltb_spec (Z.of_nat (size (nsConfigs s1))) (Z.of_nat (size (nsConfigs s1)) - 1 + (if bool_decide (nsConfigs s1 !! oldName = None) then 1 else 0))) as [Hlt|_];
      [case_bool_decide; lia|]. cbn [andb negb].
    unfold moveNetworkHistory. rewrite I1. destruct (nsHistory s !! oldName) as [h|] eqn:Eh.
    + rewrite lookup_insert_eq, lookup_insert_ne, lookup_delete_eq by done. by eexists.
    + rewrite (Hfresh (not_eq_sym Hne)). by eexists.
Qed.

(** What a put leaves in the tables when it fails. *)
Definition put_undone (s s' : Nets) : Prop := tables_as s s' /\ restored (nsSettings s) (nsSettings s').

Lemma restored_refl rows : restored rows rows.
Proof. intros k. by left. Qed.

Lemma undone_restart s s' prev ok : put_undone s s' -> put_undone s (restartNetwork prev ok s').
Proof. intros [[H1 H2] H3]. destruct (restart_tables prev ok s') as (E1 & E2 & E3). unfold put_undone, tables_as, stored_config in *. by rewrite E1, E2, E3. Qed.

Lemma apply_fails n raw oldName prev extra rollback oc (s s' : Nets) acts :
  let name := EffectiveName n in let renamed := (oldName != []) && (oldName != name) in
  Parse raw = Some n -> put_plan s oldName name prev renamed -> rolled_back extra rollback (nsSettings s) ->
  ocUndo oc = true -> ocPurge oc = None -> (nsConfigs s !! name = None -> nsHistory s !! name = None) ->
  applyPutNetwork purge n oldName prev renamed (encodeNetwork n) extra rollback oc s = (false, acts, s') -> put_undone s s'.
Proof.
  intros name renamed Hraw Hplan Hroll Hundo Hpurge Hfresh. unfold applyPutNetwork. fold name. set (s0 := StopNetwork name (if oldName == [] then s else StopNetwork oldName s)).
  assert (nsConfigs s0 = nsConfigs s /\ nsHistory s0 = nsHistory s /\ nsSettings s0 = nsSettings s) as (Hc & Hh & Hs) by (unfold s0; by case_bool_decide).
  assert (name <> []) as Hn0 by (intros E; pose proof (Parse_name _ _ Hraw) as Hv; fold name in Hv; by rewrite E in Hv).
  assert (put_plan s0 oldName name prev renamed) as Hplan0 by (destruct Hplan; split; unfold stored_config in *; by rewrite ?Hc).
  assert (forall s2, put_undone s0 s2 -> put_undone s s2) as Hback by (intros s2 [[H1 H2] H3]; unfold put_undone, tables_as, stored_config in *; by rewrite <- Hc, <- Hh, <- Hs).
  rewrite <- Hc, <- Hh in Hfresh. rewrite <- Hs in Hroll. clearbody s0. clear Hplan. pose proof Hplan0 as [_ Hadd Hfree Hprev _].
  destruct (ReplaceNetworkConfigWithSettings (if renamed then oldName else []) name (encodeNetwork n) extra (ocCommit oc) s0) as [s1|] eqn:Er; cycle 1.
  { intros [= _ <-]. apply Hback, undone_restart. split; [done|apply restored_refl]. }
  unfold StartNetwork. destruct (ocStart oc); [done|]. pose proof (replace_tables _ _ _ _ _ _ _ Er) as (C1 & I1 & S1 & _).
  assert (restored (nsSettings s0) (SetSettings rollback (nsSettings s1))) as Hset by (rewrite S1; by apply undo_settings).
  unfold rollbackPut. rewrite Hundo, Hpurge. destruct prev as [row|].
  - assert (oldName <> name -> nsHistory s0 !! name = None) as Hfr.
    { intros Hne. destruct (decide (oldName = [])) as [E|E]; [by destruct (Hadd E)|]. apply Hfresh, Hfree; done. }
    destruct (undo_commits _ _ _ _ _ _ _ rollback _ Hn0 Hplan0 Hfr Er) as [s2 Eu]. rewrite Eu. intros [= _ <-]. apply Hback. apply (undone_restart s0 s2 (Some row) (ocRestart oc)).
    split; [by eapply undo_tables|]. apply replace_tables in Eu as (_ & _ & -> & _). done.
  - assert (oldName = []) as Eo by (destruct (decide (oldName = [])) as [|E]; [done|]; destruct (Hprev E) as (? & ? & _); done). destruct (Hadd Eo) as [Hno _].
    unfold renamed in *. rewrite Eo in *. cbn in *. intros [= _ <-]. apply Hback. split; [split|done].
    + intros x. cbn. unfold stored_config in *. cbn. destruct (decide (x = name)) as [->|Hne]; [by rewrite lookup_delete_eq, Hno|].
      rewrite lookup_delete_ne by done. specialize (C1 x). cbn in C1. rewrite bool_decide_false in C1 by done. exact C1.
    + cbn. rewrite delete_alter, decide_True, I1 by done. apply delete_id. by apply Hfresh.
Qed.

(** What a put that succeeds leaves. *)
Definition put_done (n : Network) (oldName : gostring) (s s' : Nets) : Prop :=
  let name := EffectiveName n in let renamed := (oldName != []) && (oldName != name) in
  nsProcs s' !! name = Some n /\
  (forall x, stored_config s' x = if x == name then Some (encodeNetwork n) else if renamed && (x == oldName) then None else stored_config s x) /\
  (renamed = true -> nsProcs s' !! oldName = None) /\
  nsHistory s' = (if renamed then match nsHistory s !! oldName with Some h => <[name := h]> (delete oldName (nsHistory s)) | None => nsHistory s end else nsHistory s).

Lemma apply_succeeds n oldName prev extra rollback oc (s s' : Nets) acts :
  let renamed := (oldName != []) && (oldName != EffectiveName n) in
  applyPutNetwork purge n oldName prev renamed (encodeNetwork n) extra rollback oc s = (true, acts, s') -> put_done n oldName s s'.
Proof.
  intros renamed. unfold applyPutNetwork. set (name := EffectiveName n). set (s0 := StopNetwork name (if oldName == [] then s else StopNetwork oldName s)).
  assert (nsConfigs s0 = nsConfigs s /\ nsHistory s0 = nsHistory s) as (Hc & Hh) by (unfold s0; by case_bool_decide).
  assert (oldName <> [] -> nsProcs s0 !! oldName = None) as Hp.
  { intros E. unfold s0. rewrite bool_decide_false by done. cbn. apply lookup_delete_None. right. apply lookup_delete_eq. }
  clearbody s0. destruct (ReplaceNetworkConfigWithSettings _ _ _ _ _ s0) as [s1|] eqn:Er; [|done].
  unfold StartNetwork. destruct (ocStart oc); [intros [= _ <-]|by destruct (rollbackPut _ _ _ _ _ _)]. pose proof (replace_tables _ _ _ _ _ _ _ Er) as (C1 & I1 & _).
  assert (nsProcs s1 = nsProcs s0) as Hp1.
  { unfold ReplaceNetworkConfigWithSettings, moveNetworkHistory in Er. repeat (case_match; simplify_eq/=; try done). }
  assert (((if renamed then oldName else []) != []) && ((if renamed then oldName else []) != name) = renamed) as Er'.
  { unfold renamed. fold name. by repeat (case_bool_decide; simplify_eq/=; try done). }
  rewrite Er' in C1, I1. assert (renamed = true -> (if renamed then oldName else []) = oldName) as Eo by (by intros ->).
  unfold put_done. fold name. change ((oldName != []) && (oldName != name)) with renamed. cbn [set_procs nsProcs nsHistory]. split_and!.
  - apply lookup_insert_eq.
  - intros x. change (stored_config (set_procs _ s1) x) with (stored_config s1 x). rewrite C1. unfold stored_config. rewrite Hc. by destruct renamed.
  - intros Hr. unfold renamed in Hr. apply andb_true_iff in Hr as [Hr1 Hr2]. apply negb_true_iff, bool_decide_eq_false in Hr1, Hr2. rewrite lookup_insert_ne by done. rewrite Hp1. by apply Hp.
  - rewrite I1, Hh. by destruct renamed.
Qed.


End put.

(** ** Live edits of the channel list *)

Section live.
Context {Huni : Unicode} {Hpol : PolicyJson} {Hnet : NetJson} {Hlaws : NetJsonLaws} {Hip : IrcV4} {H : Type}.
Abbreviation Nets := (@Nets H).

Definition good_channel (ch : gostring) : Prop := ch <> [] /\ ContainsAny ch (x20 :: framing_bytes) = false /\ len ch <= maxChannelLen.

Lemma channels_err_None l : channels_err l = None <-> Forall good_channel l.
Proof.
  split; [apply channels_err_ok|]. induction 1 as [|ch l (Hne & Hb & Hl) _ IH]; [done|]. cbn [channels_err]. rewrite bool_decide_false, Hb by done.
  destruct (Z.ltb_spec maxChannelLen (len ch)); [lia|done].
Qed.

Lemma keys_err_None l : keys_err l = None <-> Forall (fun kv => good_channel kv.1 /\ ValidChannelKey kv.2 = true) l.
Proof.
  induction l as [|[ch key] l IH]; [by split; [constructor|]|]. cbn [keys_err]. rewrite Forall_cons, <- IH. unfold good_channel. cbn [fst snd].
  destruct (bool_decide_reflect (ch = [])), (ContainsAny ch (x20 :: framing_bytes)), (Z.ltb_spec maxChannelLen (len ch)), (ValidChannelKey key); cbn [orb negb];
    split; try done; try (intros [[(? & ? & ?) ?] ?]; (done || lia)).
Qed.

(** The part of [Validate] that the channels and the keys have to do with. *)
Definition channels_fit (chans : list gostring) (keys : gmap gostring gostring) : Prop :=
  len chans <= maxChannels /\ Forall good_channel chans /\ Z.of_nat (size keys) <= maxChannels /\
  map_Forall (fun ch key => good_channel ch /\ ValidChannelKey key = true) keys.

Lemma validate_channels n : Validate (map_to_list (nwChannelKeys n)) n = None -> channels_fit (nwChannels n) (nwChannelKeys n).
Proof.
  unfold Validate. destruct (validateIdentity n); [done|]. unfold validateFraming, channels_fit. destruct (existsb _ _); [done|]. do 2 (destruct (ContainsByte _ _); [done|]).
  destruct (Z.ltb_spec maxChannels (len (nwChannels n))); [done|]. destruct (channels_err (nwChannels n)) eqn:Ec; [done|]. apply channels_err_None in Ec.
  destruct (Z.ltb_spec maxChannels (Z.of_nat (size (nwChannelKeys n)))); [done|]. destruct (keys_err _) eqn:Ek; [done|]. apply keys_err_None in Ek. intros _.
  split_and!; try done. by apply map_Forall_to_list, (Forall_impl _ _ _ Ek); intros [].
Qed.

Lemma validate_with_channels n chans keys :
  Validate (map_to_list (nwChannelKeys n)) n = None -> channels_fit chans keys -> Validate (map_to_list keys) (with_channels chans keys n) = None.
Proof.
  intros Hv (H1 & H2%channels_err_None & H3 & H4). unfold Validate in *. change (validateIdentity (with_channels chans keys n)) with (validateIdentity n).
  change (validateSASLExternal (with_channels chans keys n)) with (validateSASLExternal n). destruct (validateIdentity n); [done|]. revert Hv. unfold validateFraming.
  change (framed_fields (with_channels chans keys n)) with (framed_fields n). cbn [with_channels nwNick nwUsername nwChannels nwChannelKeys].
  destruct (existsb _ _); [done|]. do 2 (destruct (ContainsByte _ _); [done|]). destruct (Z.ltb_spec maxChannels (len chans)); [lia|].
  destruct (Z.ltb_spec maxChannels (Z.of_nat (size keys))); [lia|]. rewrite H2.
  assert (keys_err (map_to_list keys) = None) as -> by (apply keys_err_None; apply map_Forall_to_list in H4; apply (Forall_impl _ _ _ H4); by intros []).
  by repeat (case_match; try done).
Qed.

(** Every key is of a listed channel. *)
Definition keys_listed (chans : list gostring) (keys : gmap gostring gostring) : Prop := forall k, is_Some (keys !! k) -> k ∈ chans.

Lemma keys_listed_size chans keys : keys_listed chans keys -> Z.of_nat (size keys) <= len chans.
Proof.
  intros Hk. unfold len. apply inj_le. rewrite <- (size_dom keys). transitivity (size (list_to_set chans : gset gostring)).
  - apply subseteq_size. intros k Hin. apply elem_of_list_to_set, Hk. by apply elem_of_dom.
  - clear Hk. induction chans as [|c chans IH]; cbn [list_to_set length]; [by rewrite size_empty|]. pose proof (size_union_alt ({[c]} : gset gostring) (list_to_set chans)) as Hu.
    rewrite size_singleton in Hu. assert (size (list_to_set chans ∖ {[c]} : gset gostring) <= size (list_to_set chans : gset gostring))%nat by (apply subseteq_size; set_solver). lia.
Qed.

(** What [persistAutojoin] hands over. *)
Definition edit_good (channels : list gostring) (keys : gmap gostring gostring) (add : bool) : Prop :=
  (add = true -> Forall good_channel channels) /\ map_Forall (fun _ key => ValidChannelKey key = true) keys.

Lemma edit_fits chans keys wanted new add fold out changed outKeys keysChanged :
  channels_fit chans keys -> keys_listed chans keys -> edit_good wanted new add ->
  editChannelList chans wanted add fold = (out, changed) -> editChannelKeys keys out wanted new add fold = (outKeys, keysChanged) ->
  channels_fit out outKeys /\ keys_listed out outKeys.
Proof.
  intros (F1 & F2 & F3 & F4) Hlist [Hg Hk] El Ek. destruct (edit_list_spec _ _ _ _ _ _ El) as (Hout & Hlen & Hkeep). pose proof (edit_keys_spec _ _ _ _ _ _ _ _ Ek) as Hkeys.
  assert (Forall good_channel out) as Hgood.
  { apply Forall_forall. intros x [Hx|[Ha Hx]]%Hout; [by eapply Forall_forall in F2|]. by eapply Forall_forall in Hg. }
  assert (keys_listed out outKeys) as Hlisted.
  { intros k [v Hv]. destruct (Hkeys k v Hv) as [[Hin Hrem]|(_ & ? & _)]; [|done]. assert (k ∈ chans) as Hc by (apply Hlist; by eexists). destruct add; [by apply Hkeep|].
    unfold editChannelList in El. injection El as <- _. apply list_elem_of_In, filter_In. split; [by apply list_elem_of_In|]. apply negb_true_iff, bool_decide_eq_false.
    intros Hf. apply (Hrem eq_refl). apply list_elem_of_fmap in Hf as (w & E & Hw%wanted_order_sub). rewrite E. by apply list_elem_of_fmap_2. }
  split; [|done]. split_and!; [by apply Hlen|done|pose proof (keys_listed_size _ _ Hlisted); specialize (Hlen F1); unfold maxPersistedChannels, maxChannels in *; lia|].
  intros k v Hv. split; [eapply Forall_forall in Hgood; [exact Hgood|]; apply Hlisted; by eexists|].
  destruct (Hkeys k v Hv) as [[Hin _]|(_ & _ & _ & w & Hw)]; [by apply (F4 _ _ Hin)|by apply (Hk _ _ Hw)].
Qed.

(** The edits the event loop makes on a message. *)
Definition live_edit (c : Conn) (free readOk writeOk : bool) (network : gostring) (m : IrcMsg.Message) (s : Nets) : Nets :=
  foldl (fun s a => match a with
                    | UpdateAutojoin chans keys add => default s (updateAutojoinLocked network chans keys add (connFold c) readOk writeOk s)
                    | _ => s
                    end) s (persistAutojoin c free m).

(** The keys a connection remembers come from requests, which are valid UTF-8. *)
Definition keys_utf8 (c : Conn) : Prop := forall ch, ValidString (connChannelKey c ch) = true.

Lemma persist_good c free m chans keys add :
  keys_utf8 c -> UpdateAutojoin chans keys add ∈ persistAutojoin c free m -> edit_good chans keys add /\ edit_clean chans keys add.
Proof.
  intros Hutf. unfold persistAutojoin. destruct (autojoinChange c m) as [l a]. destruct (_ || _); [by intros ?%elem_of_nil|]. case_bool_decide; [by intros ?%elem_of_nil|].
  rewrite list_elem_of_singleton. intros [= -> -> ->].
  assert (forall (l : list gostring) (k0 : gmap gostring gostring), map_Forall (fun _ key => ValidChannelKey key = true /\ ValidString key = true) k0 ->
     map_Forall (fun _ key => ValidChannelKey key = true /\ ValidString key = true)
       (foldl (fun k ch => if ValidChannelKey (connChannelKey c ch) then <[ch := connChannelKey c ch]> k else k) k0 l)) as Hf.
  { induction l0 as [|ch ls IH]; intros k0 Hk0; [done|]. cbn [foldl]. apply IH. destruct (ValidChannelKey (connChannelKey c ch)) eqn:E; [|done].
    by apply map_Forall_insert_2. }
  assert (a = true -> forall ch, ch ∈ List.filter (persistable c a) (Split l x2c) -> good_channel ch /\ ValidString ch = true) as Hp.
  { intros -> ch Hin%list_elem_of_In%filter_In. destruct Hin as [_ Hin]. unfold persistable in Hin. apply andb_true_iff in Hin as [((H1 & _)%andb_true_iff & H3)%andb_true_iff H4].
    apply negb_true_iff in H4, H1. cbn [andb] in H4. apply orb_false_iff in H4 as [H4 H5]. apply bool_decide_eq_false in H1. unfold good_channel, maxPersistedChannelLen, maxChannelLen in *.
    apply Z.leb_le in H3. apply negb_false_iff in H5. split_and!; done. }
  assert (forall key w, (if a then foldl (fun k ch => if ValidChannelKey (connChannelKey c ch) then <[ch := connChannelKey c ch]> k else k) (∅ : gmap gostring gostring) (List.filter (persistable c a) (Split l x2c)) else (∅ : gmap gostring gostring)) !! w = Some key ->
            ValidChannelKey key = true /\ ValidString key = true) as Hk.
  { intros key w. destruct a; [|by rewrite lookup_empty]. apply Hf. apply map_Forall_empty. }
  split; split.
  - intros Ha. apply Forall_forall. by apply Hp.
  - intros w key Hw. by apply (Hk key w).
  - intros Ha. apply Forall_forall. by apply Hp.
  - intros w key Hw. by apply (Hk key w).
Qed.

(** A stored definition that the next start can use. *)
Definition usable (s : Nets) (network : gostring) : Prop :=
  exists config n, stored_config s network = Some config /\ Parse config = Some n /\ keys_listed (nwChannels n) (nwChannelKeys n).

Lemma edit_usable network channels keys add fold readOk writeOk (s : Nets) :
  usable s network -> edit_good channels keys add -> edit_clean channels keys add ->
  usable (default s (updateAutojoinLocked network channels keys add fold readOk writeOk s)) network.
Proof.
  intros Hu Hgood Hclean. destruct (updateAutojoinLocked network channels keys add fold readOk writeOk s) as [s'|] eqn:Eu; [|done]. cbn [default]. revert Eu.
  unfold updateAutojoinLocked. destruct readOk; [|done]. cbn [negb]. destruct (NetworkConfig network s) as [row|] eqn:Er; [|done]. destruct (crOversized row) eqn:Eo; [done|].
  destruct (Parse (crConfig row)) as [n|] eqn:Ep; [|done]. destruct (editChannelList _ _ _ _) as [out ch] eqn:El. destruct (editChannelKeys _ _ _ _ _ _) as [ks kc] eqn:Ek.
  destruct (negb ch && negb kc); [by intros [= <-]|]. unfold PutNetworkConfig. destruct (negb (ValidateNetworkConfigRecord _ _)); [done|]. destruct (_ && _); [done|]. destruct writeOk; [|done].
  intros [= <-]. destruct Hu as (config & n0 & Hc & Hp & Hl). assert (config = crConfig row) as ->.
  { unfold NetworkConfig, stored_config in *. destruct (nsConfigs s !! network) as [[id c]|]; [|done]. cbn in *. destruct (_ <=? _); injection Er as <-; [|done]. by injection Hc as <-. }
  rewrite Ep in Hp. injection Hp as <-. apply Parse_spec in Ep as [Ed Ev]. destruct (edit_fits _ _ _ _ _ _ _ _ _ _ (validate_channels _ Ev) Hl Hgood El Ek) as [Hfit Hlisted].
  exists (encodeNetwork (with_channels out ks n)), (with_channels out ks n). split_and!; [|unfold Parse|done].
  - unfold stored_config. cbn. by rewrite lookup_insert_eq.
  - rewrite network_roundtrip; [|by exists (crConfig row), n|eapply edit_stays_clean; [by eapply network_decoded|exact Hclean|exact El|exact Ek]].
    rewrite bool_decide_true; [done|]. by apply validate_with_channels.
Qed.


End live.
