(* ===== verification/Media.v ===== *)
(** * Media fetches: internal/api/proxy.go, and their egress in mediaconfig.go, api.go
    and media.go

    What the server fetches on behalf of a browser: which fetcher a link of a network
    gets, where that fetcher may connect, how it follows redirects and how many bytes it
    takes.  What is outside the process (name servers, origins, proxies, tunnels) is a
    [World]; every connection attempt is an event. *)

From S2P Require Import Prelude GoStrings GoUtf8 GoNet GoIP NetGuard ProxyDial Policy Netconf Networks.

(** net/url: parsing a reference and writing it. *)
Class NetUrl := { url_Parse : gostring -> option URL; url_String : URL -> gostring }.
Class NetUrlLaws {Hurl : NetUrl} : Prop := {
  url_String_scheme u : Scheme u <> [] -> url_String u <> [];
  url_reparse s u u' : url_Parse s = Some u -> url_Parse (url_String u) = Some u' -> Scheme u' = Scheme u /\ Host u' = Host u
}.

(** ** Errors *)

Inductive fetchErr :=
  | errBadURL | errTooLarge | errBlocked | errRedirectLoop | errRedirectScheme | errWireBudget
  | BadLocation | CertErr | NetErr | CtxErr | EOFErr | OtherErr
  | upstreamStatusError (code : Z) | ProxyErr (e : dialErr)
  | dialPhaseError (e : fetchErr) | bodyReadError (e : fetchErr).

Definition retryableUpstreamStatus (code : Z) : bool :=
  (code =? 408) || (code =? 429) || (code =? 500) || (code =? 502) || (code =? 503) || (code =? 504).

(** The error below its wrappers, and whether one of them tags the dial. *)
Fixpoint cause (e : fetchErr) : fetchErr := match e with dialPhaseError e | bodyReadError e => cause e | _ => e end.
Fixpoint dial_phase (e : fetchErr) : bool := match e with dialPhaseError _ => true | bodyReadError e => dial_phase e | _ => false end.

Definition fetchErrorRetryable (e : fetchErr) : bool :=
  match cause e with
  | errTooLarge | errBadURL | errBlocked | errRedirectLoop | errRedirectScheme => false
  | ProxyErr ErrProxyConfig | ProxyErr ErrProxyRejected | ProxyErr ErrProxyProtocol => false
  | errWireBudget | CertErr | BadLocation => false
  | upstreamStatusError code => retryableUpstreamStatus code
  | NetErr | CtxErr | EOFErr | ProxyErr ErrCanceled => true
  | _ => dial_phase e
  end.

(** ** Fetchers *)

Inductive egress := EgDirect | EgProxy (proxy : URL) | EgTunnel (network : gostring).
Record fetcher := MkFetcher { maxBytes : Z; proxied : bool; truncate : bool; fEgress : egress }.

Definition newFetcher (maxBytes : Z) (proxy : option URL) : fetcher :=
  match proxy with
  | Some p => MkFetcher maxBytes true false (EgProxy p)
  | None => MkFetcher maxBytes false false EgDirect
  end.
Definition newTunnelFetcher (maxBytes : Z) (network : gostring) : fetcher := MkFetcher maxBytes true false (EgTunnel network).
Definition set_truncate (t : bool) (f : fetcher) : fetcher := MkFetcher (maxBytes f) (proxied f) t (fEgress f).

Definition validMediaURL (u : URL) : bool :=
  if negb ((Scheme u == §"http") || (Scheme u == §"https")) || (Hostname u == []) then false
  else if Port u != [] then let '(n, ok) := Atoi (Port u) in negb (negb ok || (n <? 1) || (65535 <? n))
  else true.

(** ** The world *)

Inductive answer :=
  | Failed (e : fetchErr)
  | Redirect (location : option URL)
  | Final (status : Z) (ctype body : gostring) (cut : option fetchErr).

Record World := MkWorld {
  resolve : gostring -> list gostring;         (** the addresses of a host *)
  connects : gostring -> bool;                 (** a TCP connection to an address opens *)
  proxyTcp : gostring -> option Wire;          (** the connection to a proxy *)
  tunnelUp : gostring -> gostring -> bool;     (** the tunnel of a network reaches a target *)
  answers_of : Z -> URL -> answer;             (** what a hop gets *)
  ctxDone : bool
}.

Inductive netEvent := TcpTo (address : gostring) | ToProxy (host target : gostring) | InTunnel (network target : gostring).

(** The dialer's check of an address that was resolved, before it connects. *)
Definition Control (address : gostring) : bool :=
  match SplitHostPort address with
  | None => false
  | Some (host, _) => match ParseIP host with Some ip => IsPublicIP (Some ip) | None => false end
  end.

(** The addresses in turn; the error is that of the first. *)
Fixpoint dial_addrs (w : World) (first : option fetchErr) (l : list gostring) : list netEvent * option fetchErr :=
  match l with
  | [] => ([], Some (default OtherErr first))
  | a :: l =>
      if negb (Control a) then dial_addrs w (Some (default errBlocked first)) l
      else if connects w a then ([TcpTo a], None)
      else let '(evs, r) := dial_addrs w (Some (default NetErr first)) l in (TcpTo a :: evs, r)
  end.

Definition hop_port (u : URL) : gostring := if Port u != [] then Port u else if Scheme u == §"https" then §"443" else §"80".
Definition hop_addr (u : URL) : gostring := JoinHostPort (Hostname u) (hop_port u).

Definition dialContext (w : World) (f : fetcher) (u : URL) : list netEvent * option fetchErr :=
  match fEgress f with
  | EgDirect => dial_addrs w None ((fun ip => JoinHostPort ip (hop_port u)) <$> resolve w (Hostname u))
  | EgProxy p =>
      let '(r, evs) := Dial (ctxDone w) (proxyTcp w) (Some p) (hop_addr u) in
      (omap (fun e => match e with Connected host => Some (ToProxy host (hop_addr u)) | Closed => None end) evs,
       match r with inl e => Some (ProxyErr e) | inr _ => None end)
  | EgTunnel n => ([InTunnel n (hop_addr u)], if tunnelUp w n (hop_addr u) then None else Some OtherErr)
  end.

Section fetch.
Context `{Huni : Unicode, Hurl : NetUrl}.

Definition hostAllowed (host : gostring) : bool := HostAllowedBy host IsPublicIP.

(** [None] lets the request go. *)
Definition checkRedirect (f : fetcher) (via : Z) (u : URL) : option fetchErr :=
  if 5 <=? via then Some errRedirectLoop
  else if negb (validMediaURL u) then Some errRedirectScheme
  else if proxied f && negb (hostAllowed (Hostname u)) then Some errBlocked
  else None.

(** The client: one hop after another, [via] of them before this one.  The first
    component is [None] when the fuel ran out. *)
Fixpoint client_Do (fuel : nat) (w : World) (f : fetcher) (via : Z) (u : URL) :
    option (fetchErr + URL * Z * gostring * gostring * option fetchErr) * list netEvent :=
  match fuel with
  | O => (None, [])
  | S fuel =>
      let '(evs, err) := dialContext w f u in
      match err with
      | Some e => (Some (inl (dialPhaseError e)), evs)
      | None =>
          match answers_of w via u with
          | Failed e => (Some (inl e), evs)
          | Final status ctype body cut => (Some (inr (u, status, ctype, body, cut)), evs)
          | Redirect None => (Some (inl BadLocation), evs)
          | Redirect (Some u') =>
              match checkRedirect f (via + 1) u' with
              | Some e => (Some (inl e), evs)
              | None => let '(r, evs') := client_Do fuel w f (via + 1) u' in (r, evs ++ evs')
              end
          end
      end
  end.

(** [io.ReadAll] of what [io.LimitReader] lets through. *)
Definition read_limited (n : Z) (body : gostring) (cut : option fetchErr) : fetchErr + gostring :=
  if n <=? len body then inr (slice_to body n)
  else match cut with Some e => inl e | None => inr body end.

(** Five requests are as many as the client makes. *)
Definition hops : nat := 5.

Definition admitted (f : fetcher) (rawURL : gostring) : fetchErr + URL :=
  match url_Parse rawURL with
  | None => inl errBadURL
  | Some u =>
      if negb (validMediaURL u) then inl errBadURL
      else if proxied f && negb (hostAllowed (Hostname u)) then inl errBlocked
      else
        (* [http.NewRequestWithContext] parses what it is given again *)
        match url_Parse (url_String u) with Some u => inr u | None => inl OtherErr end
  end.

Definition fetcher_get (w : World) (f : fetcher) (rawURL : gostring) : option (fetchErr + gostring * gostring * gostring) * list netEvent :=
  match admitted f rawURL with
  | inl e => (Some (inl e), [])
  | inr u =>
      let '(r, evs) := client_Do hops w f 0 u in
      (match r with
       | None => None
       | Some (inl e) => Some (inl e)
       | Some (inr (final, status, ctype, body, cut)) =>
           Some (if status != 200 then inl (upstreamStatusError status)
                 else match read_limited (maxBytes f + 1) body cut with
                 | inl e => inl (bodyReadError e)
                 | inr body =>
                     if maxBytes f <? len body then
                       if negb (truncate f) then inl errTooLarge
                       else inr (ctype, url_String final, slice_to body (maxBytes f))
                     else inr (ctype, url_String final, body)
                 end)
       end, evs)
  end.

(** A stream hands the response on as it is. *)
Definition fetcher_stream (w : World) (f : fetcher) (rawURL : gostring) :
    option (fetchErr + URL * Z * gostring * gostring * option fetchErr) * list netEvent :=
  match admitted f rawURL with inl e => (Some (inl e), []) | inr u => client_Do hops w f 0 u end.

(** ** The egress of a network *)

Record mediaEgress := MkEgress { meProxy : option URL; meTunnel : bool; meNetwork : gostring; meOk : bool }.
Definition noEgress : mediaEgress := MkEgress None false [] false.

(** encoding/json on the two fields read here: the proxy and the raw text of the
    WireGuard object. *)
Context {decode_egress : gostring -> option (gostring * gostring)}.
Context {H : Type}.

Definition proxydial_Parse (s : gostring) : option URL :=
  match url_Parse s with None => None | Some u => if validateProxyURL u then Some u else None end.

Definition has_wireguard (raw : gostring) : bool := (0 <? len raw) && (raw != §"null").

(** [queryOk]: the store answers. *)
Definition egressForNetwork (queryOk : bool) (name : gostring) (st : Nets (H := H)) : mediaEgress :=
  if name == [] then noEgress
  else match (if queryOk then NetworkConfig name st else None) with
  | None => noEgress
  | Some row =>
      match decode_egress (crConfig row) with
      | None => noEgress
      | Some (proxy, wireguard) =>
          if has_wireguard wireguard then MkEgress None true name true
          else if proxy == [] then MkEgress None false [] true
          else match proxydial_Parse proxy with
          | None => noEgress
          | Some u => MkEgress (Some u) false [] true
          end
      end
  end.

(** ** The fetchers in use *)

Inductive kind := Html | Image | Stream.
#[export] Instance kind_dec : EqDecision kind.
Proof. solve_decision. Defined.

Definition maxHTMLBytes : Z := 1024 * 1024.
Definition maxImageBytes : Z := 10 * 1024 * 1024.
Definition kind_bytes (k : kind) : Z := match k with Html => maxHTMLBytes | Image => maxImageBytes | Stream => 0 end.
Definition kind_truncate (k : kind) : bool := bool_decide (k = Html).

Definition maxProxyFetchers : Z := 32.
#[local] Abbreviation pool := (gmap gostring fetcher).
Record Pools := MkPools { htmlByProxy : pool; imageByProxy : pool; streamByProxy : pool; tunnelHTMLByNet : pool; tunnelImageByNet : pool; tunnelStreamByNet : pool }.
Definition newPools : Pools := MkPools ∅ ∅ ∅ ∅ ∅ ∅.

Definition pool_of (k : kind) (tunnel : bool) (p : Pools) : pool :=
  match k, tunnel with
  | Html, false => htmlByProxy p | Image, false => imageByProxy p | Stream, false => streamByProxy p
  | Html, true => tunnelHTMLByNet p | Image, true => tunnelImageByNet p | Stream, true => tunnelStreamByNet p
  end.
Definition set_pool (k : kind) (tunnel : bool) (x : pool) (p : Pools) : Pools :=
  match p, k, tunnel with
  | MkPools a b c d e f, Html, false => MkPools x b c d e f
  | MkPools a b c d e f, Image, false => MkPools a x c d e f
  | MkPools a b c d e f, Stream, false => MkPools a b x d e f
  | MkPools a b c d e f, Html, true => MkPools a b c x e f
  | MkPools a b c d e f, Image, true => MkPools a b c d x f
  | MkPools a b c d e f, Stream, true => MkPools a b c d e x
  end.

(** A full pool is emptied before it takes another fetcher. *)
Definition cached (p : pool) (key : gostring) (new : fetcher) : fetcher * pool :=
  match p !! key with
  | Some f => (f, p)
  | None => (new, <[key := new]> (if maxProxyFetchers <=? Z.of_nat (size p) then ∅ else p))
  end.

Definition proxyString (proxy : option URL) : gostring := match proxy with Some u => url_String u | None => [] end.

Definition cachedFetcher (k : kind) (proxy : option URL) (p : Pools) : fetcher * Pools :=
  let '(f, x) := cached (pool_of k false p) (proxyString proxy) (set_truncate (kind_truncate k) (newFetcher (kind_bytes k) proxy)) in
  (f, set_pool k false x p).
Definition cachedTunnelFetcher (k : kind) (network : gostring) (p : Pools) : fetcher * Pools :=
  let '(f, x) := cached (pool_of k true p) network (set_truncate (kind_truncate k) (newTunnelFetcher (kind_bytes k) network)) in
  (f, set_pool k true x p).

(** [htmlFetcherForNetwork], [imageFetcherForNetwork] and [streamFetcherForNetwork]. *)
Definition fetcherForNetwork (k : kind) (queryOk : bool) (network : gostring) (st : Nets (H := H)) (p : Pools) : option fetcher * Pools :=
  let e := egressForNetwork queryOk network st in
  if negb (meOk e) then (None, p)
  else
    let '(f, p) := if meTunnel e then cachedTunnelFetcher k (meNetwork e) p else cachedFetcher k (meProxy e) p in
    (Some f, p).

(** ** Requests *)

Record mediaReq := MkMediaReq { mrKind : kind; mrURL : gostring; mrNet : gostring; mrQueryOk : bool; mrStore : Nets (H := H); mrWorld : World }.

Inductive outcome :=
  | Unavailable
  | NoFuel
  | FetchFailed (e : fetchErr)
  | Fetched (ctype final body : gostring)
  | Streaming (status : Z) (ctype body : gostring) (cut : option fetchErr).

(** One fetch, and what the pools hold after it. *)
Definition media_fetch (rq : mediaReq) (p : Pools) : list netEvent * outcome * Pools :=
  let '(f, p) := fetcherForNetwork (mrKind rq) (mrQueryOk rq) (mrNet rq) (mrStore rq) p in
  match f with
  | None => ([], Unavailable, p)
  | Some f =>
      match mrKind rq with
      | Stream =>
          let '(r, evs) := fetcher_stream (mrWorld rq) f (mrURL rq) in
          (evs, match r with None => NoFuel | Some (inl e) => FetchFailed e | Some (inr (_, status, ctype, body, cut)) => Streaming status ctype body cut end, p)
      | _ =>
          let '(r, evs) := fetcher_get (mrWorld rq) f (mrURL rq) in
          (evs, match r with None => NoFuel | Some (inl e) => FetchFailed e | Some (inr (ctype, final, body)) => Fetched ctype final body end, p)
      end
  end.

(** The networks are edited between the fetches: each sees the store of its time. *)
Fixpoint media_run (rqs : list mediaReq) (p : Pools) : list (mediaReq * list netEvent * outcome) * Pools :=
  match rqs with
  | [] => ([], p)
  | rq :: rqs =>
      let '(evs, o, p) := media_fetch rq p in
      let '(l, p) := media_run rqs p in
      ((rq, evs, o) :: l, p)
  end.

(** ** Where a fetcher connects *)

Definition public_address (a : gostring) : Prop :=
  exists host port ip, SplitHostPort a = Some (host, port) /\ ParseIP host = Some ip /\ IsPublicIP (Some ip) = true.
Definition target_ok (t : gostring) : Prop :=
  exists u, t = hop_addr u /\ validMediaURL u = true /\ hostAllowed (Hostname u) = true.

Definition ev_ok (f : fetcher) (ev : netEvent) : Prop :=
  match ev with
  | TcpTo a => fEgress f = EgDirect /\ public_address a
  | ToProxy host t => exists p, fEgress f = EgProxy p /\ host = Host p /\ target_ok t
  | InTunnel n t => fEgress f = EgTunnel n /\ target_ok t
  end.

(** What the validation of a hop left to go on. *)
Definition hop_ok (f : fetcher) (u : URL) : Prop :=
  validMediaURL u = true /\ (fEgress f <> EgDirect -> hostAllowed (Hostname u) = true).
Definition fetcher_ok (f : fetcher) : Prop := fEgress f <> EgDirect -> proxied f = true.

Lemma Control_public a : Control a = true -> public_address a.
Proof.
  unfold Control. destruct (SplitHostPort a) as [[h p]|] eqn:E; [|done]. destruct (ParseIP h) as [ip|] eqn:Ei; [|done]. intros Hp. by exists h, p, ip.
Qed.

Lemma addrs_public w first l : Forall (fun ev => exists a, ev = TcpTo a /\ public_address a) (dial_addrs w first l).1.
Proof.
  revert first. induction l as [|a l IH]; intros first; cbn [dial_addrs]; [constructor|]. destruct (Control a) eqn:Ec; cbn [negb]; [|apply IH].
  assert (exists b, TcpTo a = TcpTo b /\ public_address b) as Ha by (exists a; split; [done|by apply Control_public]).
  destruct (connects w a); [by repeat constructor|]. specialize (IH (Some (default NetErr first))). destruct (dial_addrs _ _ _) as [evs r]. by constructor.
Qed.

(** A proxy is the only place its dialer connects to. *)
Lemma dial_events canceled tcp p t : Forall (fun e => match e with Connected host => host = Host p | Closed => True end) (Dial canceled tcp (Some p) t).2.
Proof. unfold Dial. repeat case_match; simplify_eq/=; repeat constructor. Qed.

Lemma dial_ok w f u : hop_ok f u -> Forall (ev_ok f) (dialContext w f u).1.
Proof.
  intros [Hv Ha]. unfold dialContext. destruct (fEgress f) as [|p|n] eqn:E.
  - eapply Forall_impl; [apply addrs_public|]. intros ev (a & -> & Hp). by split.
  - pose proof (dial_events (ctxDone w) (proxyTcp w) p (hop_addr u)) as Hd. destruct (Dial _ _ _ _) as [r evs]. cbn [fst snd] in *.
    induction Hd as [|e evs He Hd IH]; [constructor|]. destruct e as [h|]; [|exact IH]. constructor; [|exact IH]. exists p. split; [done|]. split; [done|].
    exists u. split_and!; [done..|by apply Ha].
  - constructor; [|constructor]. split; [done|]. exists u. split_and!; [done..|by apply Ha].
Qed.

Lemma redirect_ok f via u : fetcher_ok f -> checkRedirect f via u = None -> via < 5 /\ hop_ok f u.
Proof.
  intros Hf. unfold checkRedirect. destruct (Z.leb_spec 5 via); [done|]. destruct (validMediaURL u) eqn:Ev; [|done]. cbn [negb].
  destruct (proxied f && _) eqn:E; [done|]. intros _. split; [done|]. split; [done|]. intros He. specialize (Hf He). rewrite Hf in E. by apply negb_false_iff in E.
Qed.

Lemma client_ok fuel w f via u : fetcher_ok f -> hop_ok f u -> Forall (ev_ok f) (client_Do fuel w f via u).2.
Proof.
  intros Hf. revert via u. induction fuel as [|fuel IH]; intros via u Hu; cbn [client_Do]; [constructor|].
  pose proof (dial_ok w f u Hu) as Hd. destruct (dialContext w f u) as [evs err]. cbn [fst] in Hd. destruct err; [done|].
  destruct (answers_of w via u) as [|[u'|]|]; [done| |done|done]. destruct (checkRedirect f (via + 1) u') eqn:Ec; [done|].
  apply redirect_ok in Ec as [_ Hu']; [|done]. specialize (IH (via + 1) u' Hu'). destruct (client_Do _ _ _ _ _) as [r evs']. cbn [snd] in *. by apply Forall_app.
Qed.

(** Five hops are enough. *)
Lemma client_fuel fuel w f via u : fetcher_ok f -> 0 <= via < 5 -> 5 - via <= Z.of_nat fuel -> (client_Do fuel w f via u).1 <> None.
Proof.
  intros Hf. revert via u. induction fuel as [|fuel IH]; intros via u Hv Hl; cbn [client_Do]; [lia|].
  destruct (dialContext w f u) as [evs [e|]]; [done|]. destruct (answers_of w via u) as [|[u'|]|]; [done| |done|done].
  destruct (checkRedirect f (via + 1) u') eqn:Ec; [done|]. apply redirect_ok in Ec as [Hn _]; [|done].
  specialize (IH (via + 1) u' ltac:(lia) ltac:(lia)). by destruct (client_Do _ _ _ _ _).
Qed.

Context {Hlaws : NetUrlLaws}.

Lemma admitted_ok f raw u : fetcher_ok f -> admitted f raw = inr u -> hop_ok f u.
Proof.
  intros Hf. unfold admitted. destruct (url_Parse raw) as [v|] eqn:Ep; [|done]. destruct (validMediaURL v) eqn:Ev; [|done]. cbn [negb].
  destruct (proxied f && _) eqn:E; [done|]. destruct (url_Parse (url_String v)) as [v'|] eqn:Ep'; [|done]. intros [= <-].
  destruct (url_reparse _ _ _ Ep Ep') as [Hs Hh]. unfold hop_ok, validMediaURL, Hostname, Port in *. rewrite Hs, Hh. split; [done|].
  intros He. specialize (Hf He). rewrite Hf in E. by apply negb_false_iff in E.
Qed.

Lemma stream_ok w f raw : fetcher_ok f -> Forall (ev_ok f) (fetcher_stream w f raw).2 /\ (fetcher_stream w f raw).1 <> None.
Proof.
  intros Hf. unfold fetcher_stream. destruct (admitted f raw) as [e|u] eqn:E; [done|]. split; [|by apply client_fuel].
  apply client_ok; [done|]. by eapply admitted_ok.
Qed.

Lemma read_limited_len n body cut b : 0 <= n -> read_limited n body cut = inr b -> len b <= n.
Proof. unfold read_limited. destruct (Z.leb_spec n (len body)); [intros ? [= <-]; by apply len_slice_to_le|]. destruct cut; [done|]. intros ? [= <-]. lia. Qed.

Lemma get_ok w f raw : fetcher_ok f -> 0 <= maxBytes f ->
  Forall (ev_ok f) (fetcher_get w f raw).2 /\ (fetcher_get w f raw).1 <> None /\
  forall c u b, (fetcher_get w f raw).1 = Some (inr (c, u, b)) -> len b <= maxBytes f.
Proof.
  intros Hf Hm. unfold fetcher_get. destruct (admitted f raw) as [e|u] eqn:E; [done|].
  pose proof (client_ok hops w f 0 u Hf (admitted_ok _ _ _ Hf E)) as H1. pose proof (client_fuel hops w f 0 u Hf ltac:(done) ltac:(done)) as H2.
  destruct (client_Do _ _ _ _ _) as [r evs]. cbn [fst snd] in *. split; [done|]. destruct r as [[e|[[[[v st] ct] body] cut]]|]; [done| |done]. split; [done|].
  intros c u' b [= Hb]. destruct (_ != _); [done|]. destruct (read_limited _ _ _) as [e|b'] eqn:Er; [done|]. pose proof (len_nonneg b').
  destruct (Z.ltb_spec (maxBytes f) (len b')); [|injection Hb as <- <- <-; lia]. destruct (truncate f); [|done]. injection Hb as <- <- <-. by apply len_slice_to_le.
Qed.

(** ** The pools *)

Definition key_ok (k : kind) (tunnel : bool) (key : gostring) (f : fetcher) : Prop :=
  maxBytes f = kind_bytes k /\ fetcher_ok f /\
  match fEgress f with
  | EgTunnel n => tunnel = true /\ n = key
  | EgDirect => tunnel = false /\ key = []
  | EgProxy u => tunnel = false /\ key = url_String u /\ validateProxyURL u = true
  end.
Definition pools_ok (p : Pools) : Prop :=
  forall k t, Z.of_nat (size (pool_of k t p)) <= maxProxyFetchers /\ map_Forall (key_ok k t) (pool_of k t p).

Lemma newPools_ok : pools_ok newPools.
Proof. intros [] []; (split; [by vm_compute|apply map_Forall_empty]). Qed.

Lemma pool_set k t k' t' x p : pool_of k t (set_pool k' t' x p) = if decide (k = k' /\ t = t') then x else pool_of k t p.
Proof. destruct p, k, k', t, t'; done. Qed.

Lemma cached_ok k t p key new f x :
  pools_ok p -> key_ok k t key new -> cached (pool_of k t p) key new = (f, x) -> key_ok k t key f /\ pools_ok (set_pool k t x p).
Proof.
  intros Hp Hn. unfold cached. destruct (Hp k t) as [Hs Hf]. assert (set_pool k t (pool_of k t p) p = p) as Hset by (by destruct p, k, t).
  destruct (pool_of k t p !! key) as [g|] eqn:Ek.
  - intros [= <- <-]. split; [by apply (Hf key)|]. by rewrite Hset.
  - intros [= <- <-]. split; [done|]. intros k' t'. rewrite pool_set. destruct (decide _) as [[-> ->]|]; [|done].
    destruct (Z.leb_spec maxProxyFetchers (Z.of_nat (size (pool_of k t p)))) as [Hl|Hl].
    + rewrite map_size_insert_None, map_size_empty by done. split; [by vm_compute|]. apply map_Forall_insert_2; [done|apply map_Forall_empty].
    + rewrite map_size_insert_None by done. split; [lia|]. by apply map_Forall_insert_2.
Qed.

Lemma proxydial_valid s u : proxydial_Parse s = Some u -> validateProxyURL u = true.
Proof. unfold proxydial_Parse. destruct (url_Parse s); [|done]. destruct (validateProxyURL _) eqn:E; [|done]. by intros [= <-]. Qed.
Lemma proxy_scheme u : validateProxyURL u = true -> Scheme u <> [].
Proof. unfold validateProxyURL. intros Hv E. by rewrite E in Hv. Qed.

Lemma kind_bytes_nonneg k : 0 <= kind_bytes k.
Proof. by destruct k. Qed.

(** ** Requests *)

(** The two fields of the definition stored for the network of a request. *)
Definition egress_config (rq : mediaReq) : option (gostring * gostring) :=
  (if mrQueryOk rq then NetworkConfig (mrNet rq) (mrStore rq) else None) ≫= (fun row => decode_egress (crConfig row)).

(** What the stored definition lets a fetch do. *)
Definition justified (rq : mediaReq) (ev : netEvent) : Prop :=
  exists proxy wg, egress_config rq = Some (proxy, wg) /\
  match ev with
  | TcpTo a => proxy = [] /\ has_wireguard wg = false /\ public_address a
  | ToProxy host t => has_wireguard wg = false /\ target_ok t /\
      exists u u', proxydial_Parse proxy = Some u /\ url_String u' = url_String u /\ validateProxyURL u' = true /\ host = Host u'
  | InTunnel n t => has_wireguard wg = true /\ n = mrNet rq /\ target_ok t
  end.

Lemma fetcher_justified rq p f p' :
  pools_ok p -> fetcherForNetwork (mrKind rq) (mrQueryOk rq) (mrNet rq) (mrStore rq) p = (f, p') ->
  pools_ok p' /\ (f = None <-> meOk (egressForNetwork (mrQueryOk rq) (mrNet rq) (mrStore rq)) = false) /\
  forall g, f = Some g -> maxBytes g = kind_bytes (mrKind rq) /\ fetcher_ok g /\ forall ev, ev_ok g ev -> justified rq ev.
Proof.
  intros Hp. unfold fetcherForNetwork, justified, egress_config. remember (egressForNetwork _ _ _) as e eqn:Ee. symmetry in Ee. unfold egressForNetwork in Ee.
  destruct (decide (mrNet rq = [])) as [En|En]; [rewrite (bool_decide_eq_true_2 _ En) in Ee|rewrite (bool_decide_eq_false_2 _ En) in Ee].
  { subst e. intros [= <- <-]. done. }
  destruct (if mrQueryOk rq then _ else _) as [row|]; [|subst e; by intros [= <- <-]]. cbn [mbind option_bind].
  destruct (decode_egress (crConfig row)) as [[proxy wg]|]; [|subst e; by intros [= <- <-]].
  destruct (has_wireguard wg) eqn:Ew; [|destruct (decide (proxy = [])) as [->|Epx]; [|rewrite (bool_decide_eq_false_2 _ Epx) in Ee; destruct (proxydial_Parse proxy) as [u|] eqn:Eu]];
    subst e; cbn [meOk meTunnel meNetwork meProxy negb bool_decide]; try by intros [= <- <-].
  - unfold cachedTunnelFetcher. destruct (cached _ _ _) as [g x] eqn:Ec. intros [= <- <-].
    apply cached_ok in Ec as [(Hm & Hf & Hk) Hp']; [|done|by split]. split; [done|]. split; [done|]. intros ? [= <-]. split; [done|]. split; [done|].
    intros ev Hev. exists proxy, wg. split; [done|]. destruct ev; cbn [ev_ok] in Hev.
    + destruct Hev as [He _]. rewrite He in Hk. by destruct Hk.
    + destruct Hev as (q & He & _). rewrite He in Hk. by destruct Hk.
    + destruct Hev as [He Ht]. rewrite He in Hk. destruct Hk as [_ ->]. done.
  - change (([] : gostring) == []) with true. cbn [meOk meTunnel meNetwork meProxy negb].
    unfold cachedFetcher. destruct (cached _ _ _) as [g x] eqn:Ec. intros [= <- <-].
    apply cached_ok in Ec as [(Hm & Hf & Hk) Hp']; [|done|by split; [|split; [intros []|]]]. split; [done|]. split; [done|]. intros ? [= <-]. split; [done|]. split; [done|].
    intros ev Hev. exists [], wg. split; [done|]. destruct ev; cbn [ev_ok] in Hev.
    + by destruct Hev.
    + destruct Hev as (q & He & _). rewrite He in Hk. destruct Hk as (_ & Hs & Hv). symmetry in Hs. by apply url_String_scheme in Hs; [|apply proxy_scheme].
    + destruct Hev as [He _]. rewrite He in Hk. by destruct Hk.
  - pose proof (proxydial_valid _ _ Eu) as Hv. unfold cachedFetcher. destruct (cached _ _ _) as [g x] eqn:Ec. intros [= <- <-].
    apply cached_ok in Ec as [(Hm & Hf & Hk) Hp']; [|done|by split]. split; [done|]. split; [done|]. intros ? [= <-]. split; [done|]. split; [done|].
    intros ev Hev. exists proxy, wg. split; [done|]. destruct ev; cbn [ev_ok] in Hev.
    + destruct Hev as [He _]. rewrite He in Hk. destruct Hk as [_ Hs]. cbn [proxyString] in Hs. by apply url_String_scheme in Hs; [|apply proxy_scheme].
    + destruct Hev as (q & He & -> & Ht). rewrite He in Hk. destruct Hk as (_ & Hs & Hv'). split; [done|]. split; [done|]. exists u, q. done.
    + destruct Hev as [He _]. rewrite He in Hk. by destruct Hk.
Qed.

Definition fetch_ok (x : mediaReq * list netEvent * outcome) : Prop :=
  let '(rq, evs, o) := x in
  Forall (justified rq) evs /\ o <> NoFuel /\
  (meOk (egressForNetwork (mrQueryOk rq) (mrNet rq) (mrStore rq)) = false -> evs = [] /\ o = Unavailable) /\
  (forall c u b, o = Fetched c u b -> len b <= kind_bytes (mrKind rq)).

Lemma fetch_justified rq p evs o p' : pools_ok p -> media_fetch rq p = (evs, o, p') -> pools_ok p' /\ fetch_ok (rq, evs, o).
Proof.
  intros Hp. unfold media_fetch. destruct (fetcherForNetwork _ _ _ _ p) as [f p1] eqn:Ef. destruct (fetcher_justified _ _ _ _ Hp Ef) as (Hp1 & Hn & Hg).
  destruct f as [f|]; [|intros [= <- <- <-]; done]. destruct (Hg f eq_refl) as (Hm & Hf & Hj). pose proof (kind_bytes_nonneg (mrKind rq)) as Hb.
  destruct (stream_ok (mrWorld rq) f (mrURL rq) Hf) as [Hs1 Hs2]. destruct (get_ok (mrWorld rq) f (mrURL rq) Hf ltac:(lia)) as (Hg1 & Hg2 & Hg3).
  assert (Some f <> None) as Hsome by done.
  destruct (mrKind rq) eqn:Ek;
    [destruct (fetcher_get _ _ _) as [[r|] evs']; [|done]; destruct r as [e|[[ct u] b]]..
    |destruct (fetcher_stream _ _ _) as [[r|] evs']; [|done]; destruct r as [e|[[[[u st] ct] b] cut]]]; intros [= <- <- <-]; (split; [done|]);
    (split; [eapply Forall_impl; [|exact Hj]; done|split; [done|split; [intros Ho; by apply Hn in Ho|]]]); try done; intros ? ? ? [= -> -> ->]; rewrite Ek, <- Hm; by eapply Hg3.
Qed.

End fetch.

(** ** The wire budget *)

(** The bytes a connection may still read, seen before one read of a buffer of [plen]
    bytes: [budgetConn.Read] passes on that many at most, or refuses. *)
Definition wireBudgetAllowance : Z := Z.shiftl 512 10.
Definition Read_cap (left plen : Z) : option Z := if left <=? 0 then None else Some (Z.min plen left).

(** The connections of a request share what is left.  A read looks at it, reads, and
    subtracts: each is a step, and the connections take theirs in any order. *)
Record budget := MkBudget { remaining : Z; readers : list (option Z); wire_total : Z }.

Inductive budget_step (chunk : Z) : budget -> budget -> Prop :=
  | budget_load i plen cap b :
      readers b !! i = Some None -> 0 <= plen <= chunk -> Read_cap (remaining b) plen = Some cap ->
      budget_step chunk b (MkBudget (remaining b) (<[i := Some cap]> (readers b)) (wire_total b))
  | budget_read i cap n b :
      readers b !! i = Some (Some cap) -> 0 <= n <= cap ->
      budget_step chunk b (MkBudget (remaining b - n) (<[i := None]> (readers b)) (wire_total b + n)).

Definition start_budget (maxBytes : Z) (conns : nat) : budget := MkBudget (maxBytes + wireBudgetAllowance) (replicate conns None) 0.

Fixpoint pending (l : list (option Z)) : Z := match l with [] => 0 | o :: l => default 0 o + pending l end.

Lemma pending_insert l i o o' : l !! i = Some o -> pending (<[i := o']> l) = pending l - default 0 o + default 0 o'.
Proof.
  revert i. induction l as [|x l IH]; intros [|i]; [done..| |].
  - intros [= ->]. change (<[0%nat:=o']> (o :: l)) with (o' :: l). cbn [pending]. lia.
  - intros Hi. change (<[S i:=o']> (x :: l)) with (x :: <[i:=o']> l). cbn [pending]. rewrite (IH i Hi). lia.
Qed.
Definition within (c : Z) (o : option Z) : Prop := 0 <= default 0 o <= c.
Lemma pending_others c l i : Forall (within c) l -> l !! i = Some None -> pending l <= (len l - 1) * c.
Proof.
  intros Hl. revert i. induction Hl as [|x l Hx Hl IH]; [done|]. intros i Hi. rewrite len_cons. cbn [pending].
  assert (pending l <= len l * c) as Hall by (clear -Hl; induction Hl as [|y l Hy Hl IH]; [done|]; rewrite len_cons; cbn [pending]; unfold within in Hy; lia).
  destruct i as [|i]; [injection Hi as ->; cbn; lia|]. specialize (IH i Hi). unfold within in Hx. lia.
Qed.

Definition budget_ok (chunk maxBytes : Z) (conns : nat) (b : budget) : Prop :=
  wire_total b + remaining b = maxBytes + wireBudgetAllowance /\ len (readers b) = Z.of_nat conns /\ Forall (within chunk) (readers b) /\
  - ((Z.of_nat conns - 1) * chunk) <= remaining b - pending (readers b).

Lemma fetch_start_ok chunk maxBytes conns : 0 <= chunk -> 0 <= maxBytes -> (1 <= conns)%nat -> budget_ok chunk maxBytes conns (start_budget maxBytes conns).
Proof.
  intros Hc Hm Hn. unfold budget_ok, start_budget. cbn [remaining readers wire_total]. unfold len. rewrite length_replicate. split_and!; [lia|done| |].
  - apply Forall_replicate. unfold within. cbn. lia.
  - assert (pending (replicate conns None) = 0) as -> by (clear; induction conns as [|n IH]; [done|]; cbn [replicate pending]; rewrite IH; done). assert (0 <= wireBudgetAllowance) by done. nia.
Qed.

Lemma step_budget_ok chunk maxBytes conns b b' : 0 <= chunk -> budget_step chunk b b' -> budget_ok chunk maxBytes conns b -> budget_ok chunk maxBytes conns b'.
Proof.
  intros Hc Hs (H1 & H2 & H3 & H4). unfold budget_ok. destruct Hs as [i plen cap b Hi Hp Hcap|i cap n b Hi Hn']; cbn [remaining readers wire_total].
  - unfold Read_cap in Hcap. destruct (Z.leb_spec (remaining b) 0); [done|]. injection Hcap as <-. pose proof (pending_others _ _ _ H3 Hi) as Ho.
    rewrite (pending_insert _ _ _ _ Hi). change (default 0 None) with 0. change (default 0 (Some ?x)) with x. rewrite H2 in Ho.
    unfold len in *. rewrite length_insert. split_and!; [done|done| |cbn; lia].
    apply Forall_insert; [done|]. unfold within. cbn. lia.
  - rewrite (pending_insert _ _ _ _ Hi). unfold len in *. rewrite length_insert. cbn. split_and!; [lia|done| |lia].
    apply Forall_insert; [done|]. unfold within. cbn. lia.
Qed.

(** Reads in flight are all that can go over the budget: with one connection at a time
    nothing does, with [conns] of them at most [conns - 1] buffers. *)
Lemma wire_budget_bound chunk maxBytes conns b :
  0 <= chunk -> 0 <= maxBytes -> (1 <= conns)%nat -> rtc (budget_step chunk) (start_budget maxBytes conns) b ->
  wire_total b <= maxBytes + wireBudgetAllowance + (Z.of_nat conns - 1) * chunk.
Proof.
  intros Hc Hm Hn Hr.
  pose proof (fetch_start_ok chunk maxBytes conns Hc Hm Hn) as H0. assert (budget_ok chunk maxBytes conns b) as (H1 & _ & H3 & H4).
  { induction Hr as [|x y z Hs _ IH]; [done|]. apply IH. by eapply step_budget_ok. }
  assert (0 <= pending (readers b)) by (clear -H3; induction H3 as [|x l Hx Hl IH]; [done|]; cbn [pending]; unfold within in Hx; lia). lia.
Qed.

(** ** A run *)

#[local] Existing Instance ascii_unicode.

Definition demo_parse (s : gostring) : option URL :=
  match CutPrefix s §"http://" with
  | Some h => Some (MkURL §"http" None h [] [] [])
  | None => match CutPrefix s §"socks5://" with Some h => Some (MkURL §"socks5" None h [] [] []) | None => None end
  end.
#[local] Instance demo_url : NetUrl := {| url_Parse := demo_parse; url_String u := Scheme u ++ §"://" ++ Host u |}.
#[local] Instance demo_url_laws : NetUrlLaws.
Proof.
  split; [intros u Hu; cbn; by destruct (Scheme u)|]. intros s u u'. cbn [url_Parse url_String demo_url]. unfold demo_parse at 1.
  destruct (CutPrefix s §"http://"); [intros [= <-]|destruct (CutPrefix s §"socks5://"); [intros [= <-]|done]]; cbn; by intros [= <-].
Qed.

Definition demo_egress (c : gostring) : option (gostring * gostring) :=
  if c == §"direct" then Some ([], []) else (fun p => (p, [])) <$> CutPrefix c §"via ".
Definition demo_nets (c : gostring) : Nets (H := unit) := MkNets {[ §"net" := (1, c) ]} ∅ ∅ ∅ ∅ ∅.
Definition demo_world : World :=
  MkWorld (fun _ => [§"127.0.0.1"; §"93.184.216.34"]) (fun _ => true) (fun _ => Some (MkWire [] ([x05; x00; x05; x00; x00; x01] ++ replicate 6 x00) 10000)) (fun _ _ => false)
    (fun via u => if via =? 0 then Redirect (demo_parse §"http://b.example") else Final 200 §"text/html" §"<title>" None) false.
Definition demo_fetches : list (mediaReq (H := unit)) :=
  [MkMediaReq Html §"http://a.example" §"net" true (demo_nets §"direct") demo_world;
   MkMediaReq Html §"http://a.example" §"net" true (demo_nets §"via socks5://127.0.0.1:9050") demo_world;
   MkMediaReq Image §"http://a.example" §"net" true (demo_nets §"via ???") demo_world].

