(* ===== verification/Thumb.v ===== *)
(** * Thumbnails: internal/api/thumb.go

    The gate in front of the image decoders, the downscaling, and the handler with its
    cache.  The decoders and encoders of Go's image packages are a parameter. *)

From S2P Require Import Prelude GoStrings GoUtf8 GoNet GoIP NetGuard ProxyDial TtlCache Policy PolicyProofs Netconf Networks Media.

(** ** Headers of image files *)

Definition byte_at (b : gostring) (i : Z) : Z := b2z (nth (Z.to_nat i) b x00).

(** [-1] is no segment. *)
Definition skipSegment (b : gostring) (i : Z) : Z :=
  if len b <=? i + 1 then -1
  else
    let segLen := Z.lor (Z.shiftl (byte_at b i) 8) (byte_at b (i + 1)) in
    if segLen <? 2 then -1 else i + segLen.

Definition standalone (marker : Z) : bool := (marker =? 0x01) || ((0xD0 <=? marker) && (marker <=? 0xD9)).

(** The walk over the markers from [i]; [None] when the fuel ran out. *)
Fixpoint progressive_from (fuel : nat) (b : gostring) (i : Z) : option bool :=
  match fuel with
  | O => None
  | S fuel =>
      if negb (i + 1 <? len b) then Some false
      else if negb (byte_at b i =? 0xFF) then progressive_from fuel b (i + 1)
      else
        let marker := byte_at b (i + 1) in
        if marker =? 0xFF then progressive_from fuel b (i + 1)
        else
          let i := i + 2 in
          if marker =? 0xC2 then Some true
          else if marker =? 0xDA then Some false
          else if standalone marker then progressive_from fuel b i
          else
            let next := skipSegment b i in
            if next <? 0 then Some false else progressive_from fuel b next
  end.

Definition isProgressiveJPEG (b : gostring) : bool :=
  if (len b <? 2) || negb (byte_at b 0 =? 0xFF) || negb (byte_at b 1 =? 0xD8) then false
  else default false (progressive_from (length b) b 2).

Definition isAdam7PNG (b : gostring) : bool := (29 <=? len b) && (byte_at b 28 =? 1).

Fixpoint rgba_from (fuel : nat) (b : gostring) (base : Z) : option bool :=
  match fuel with
  | O => None
  | S fuel =>
      let rel := Index (slice_from b base) [xff; xee] in
      if rel <? 0 then Some false
      else
        let i := base + rel in
        if (i + 4 + 12 <=? len b) && (slice_to (slice_from b (i + 4)) 5 == §"Adobe") && (byte_at b (i + 4 + 11) =? 0) then Some true
        else rgba_from fuel b (i + 2)
  end.
Definition jpegDecodesToRGBA (b : gostring) : bool := default false (rgba_from (S (length b)) b 0).

Definition le32 (b : gostring) (i : Z) : Z :=
  Z.lor (byte_at b i) (Z.lor (Z.shiftl (byte_at b (i + 1)) 8) (Z.lor (Z.shiftl (byte_at b (i + 2)) 16) (Z.shiftl (byte_at b (i + 3)) 24))).

Fixpoint vp8l_from (fuel : nat) (body : gostring) (off : Z) : option bool :=
  match fuel with
  | O => None
  | S fuel =>
      if negb (off + 8 <=? len body) then Some false
      else
        let id := slice_to (slice_from body off) 4 in
        let n := le32 body (off + 4) in
        if id == §"VP8L" then Some true
        else if (id == §"ALPH") && (off + 8 <? len body) && (Z.land (byte_at body (off + 8)) 0x03 =? 1) then Some true
        else vp8l_from fuel body (off + 8 + n + Z.land n 1)
  end.
Definition webpUsesVP8L (body : gostring) : bool :=
  if (len body <? 12) || (slice_to body 4 != §"RIFF") || (slice_to (slice_from body 8) 4 != §"WEBP") then false
  else default false (vp8l_from (length body) body 12).

(** ** The cost of a decode *)

Inductive model := RGBA64Model | NRGBA64Model | Gray16Model | CMYKModel | RGBAModel | YCbCrModel | OtherModel.
#[export] Instance model_dec : EqDecision model.
Proof. solve_decision. Defined.

Definition bytesPerPixel (m : model) : Z :=
  match m with RGBA64Model | NRGBA64Model | Gray16Model => 8 | CMYKModel => 8 | _ => 4 end.

Definition jpegDecodeSurcharge (m : model) (body : gostring) : Z :=
  (if isProgressiveJPEG body then 4 * (if m == CMYKModel then 4 else 3) else 0) +
  (if (m == RGBAModel) || ((m == YCbCrModel) && jpegDecodesToRGBA body) then 4 else 0).

Definition decodePerPixel (format : gostring) (m : model) (body : gostring) : Z :=
  bytesPerPixel m +
  (if format == §"jpeg" then jpegDecodeSurcharge m body
   else if format == §"png" then (if isAdam7PNG body then bytesPerPixel m else 0)
   else 0).

(** ** Images *)

(** The bounds, and the 16-bit channels at a point of the plane. *)
Record image := MkImage { minX : Z; minY : Z; Dx : Z; Dy : Z; At : Z -> Z -> Z * Z * Z * Z }.

(** Go's decoders and encoders; [None] is an error. *)
Class Imaging := {
  DecodeConfig : gostring -> option (Z * Z * model * gostring);
  Decode : gostring -> option image;
  EncodePNG : image -> option gostring;
  EncodeJPEG : image -> option gostring;
  Opaque : image -> bool;
  DetectContentType : gostring -> gostring
}.

Definition maxDecodeBytes : Z := 36 * 1024 * 1024.
Definition maxImageDim : Z := 65535.
Definition thumbMaxDim : Z := 400.
Definition maxThumbCache : Z := 128.
Definition maxThumbCacheEntry : Z := 48 * 1024.

Inductive decodeVerdict := decodeOK | decodeNotImage | decodeRefused.

Definition wrap_int64 (z : Z) : Z := (z + 2 ^ 63) mod 2 ^ 64 - 2 ^ 63.
(** [(x + 15) &^ 15]. *)
Definition round16 (x : Z) : Z := Z.ldiff (x + 15) 15.

Section gate.
Context `{Imaging}.

Definition decodableFormat (body : gostring) : gostring * decodeVerdict :=
  match DecodeConfig body with
  | None => ([], decodeNotImage)
  | Some (width, height, m, format) =>
      if (width <=? 0) || (height <=? 0) || (maxImageDim <? width) || (maxImageDim <? height) then ([], decodeRefused)
      else if (format == §"webp") && webpUsesVP8L body then ([], decodeRefused)
      else
        let perPixel := decodePerPixel format m body in
        let w := if format == §"jpeg" then round16 width else width in
        let h := if format == §"jpeg" then round16 height else height in
        if maxDecodeBytes <? wrap_int64 (wrap_int64 (w * h) * perPixel) then ([], decodeRefused) else (format, decodeOK)
  end.
End gate.

(** ** Downscaling *)

Definition add_u64 (a b : Z) : Z := (a + b) mod 2 ^ 64.
Definition add_px (acc : Z * Z * Z * Z * Z) (p : Z * Z * Z * Z) : Z * Z * Z * Z * Z :=
  let '(r, g, b, a, n) := acc in let '(cr, cg, cb, ca) := p in
  (add_u64 r cr, add_u64 g cg, add_u64 b cb, add_u64 a ca, add_u64 n 1).

(** The pixels of a rectangle, row by row. *)
Definition box (sx0 sx1 sy0 sy1 : Z) : list (Z * Z) :=
  sy ← seqZ sy0 (sy1 - sy0); (fun sx => (sx, sy)) <$> seqZ sx0 (sx1 - sx0).

Definition boxAverage (src : image) (sx0 sx1 sy0 sy1 : Z) : Z * Z * Z * Z :=
  let '(r, g, b, a, n) := foldl (fun acc p => add_px acc (At src p.1 p.2)) (0, 0, 0, 0, 0) (box sx0 sx1 sy0 sy1) in
  let n := if n =? 0 then 1 else n in
  (r / n, g / n, b / n, a / n).

(** What an [image.RGBA] keeps of a colour, and gives back. *)
Definition rgba8 (v : Z) : Z := Z.shiftr v 8 * 0x101.
Definition map_px (f : Z -> Z) (p : Z * Z * Z * Z) : Z * Z * Z * Z := let '(r, g, b, a) := p in (f r, f g, f b, f a).

(** The first and last source coordinate of a destination coordinate [d] of [n]. *)
Definition box_lo (min d s n : Z) : Z := min + d * s / n.
Definition box_hi (min d s n : Z) : Z := let lo := box_lo min d s n in let hi := min + (d + 1) * s / n in if hi <=? lo then lo + 1 else hi.

Definition thumb_dims (sw sh maxDim : Z) : Z * Z :=
  if sh <=? sw then (maxDim, Z.max 1 (sh * maxDim / sw)) else (Z.max 1 (sw * maxDim / sh), maxDim).

Definition thumbnail (src : image) (maxDim : Z) : image :=
  let sw := Dx src in let sh := Dy src in
  if (sw <=? maxDim) && (sh <=? maxDim) then src
  else
    let '(dw, dh) := thumb_dims sw sh maxDim in
    MkImage 0 0 dw dh (fun dx dy =>
      map_px rgba8 (boxAverage src (box_lo (minX src) dx sw dw) (box_hi (minX src) dx sw dw) (box_lo (minY src) dy sh dh) (box_hi (minY src) dy sh dh))).

(** ** The handler *)

Record thumbResult := MkThumb { thType : gostring; thData : gostring }.

Section handler.
Context `{Huni : Unicode, Hurl : NetUrl, Himg : Imaging}.
Context {decode_egress : gostring -> option (gostring * gostring)} {H : Type}.
Context (order : gmap gostring (ttlEntry (V := thumbResult)) -> list gostring).

Definition isImageType (contentType : gostring) : bool :=
  let '(ct, _, _) := Cut contentType x3b in
  let ct := TrimSpace (ToLower ct) in
  (ct == §"image/jpeg") || (ct == §"image/png") || (ct == §"image/gif") || (ct == §"image/webp").

(** The address and the network of a request, when its body decodes. *)
Definition mediaRequest (body : option (gostring * gostring)) : option (gostring * gostring) :=
  match body with
  | Some (url, net) => if (len url =? 0) || (2048 <? len url) then None else Some (url, net)
  | None => None
  end.

Definition encodeThumb (img : image) : option thumbResult :=
  let jpeg := MkThumb §"image/jpeg" <$> EncodeJPEG img in
  if negb (Opaque img) then
    match EncodePNG img with
    | None => None
    | Some data => if len data <=? maxThumbCacheEntry then Some (MkThumb §"image/png" data) else jpeg
    end
  else jpeg.

(** An error with its status, and whether it is flagged as an image that is not shown. *)
Inductive thumbReply := ThError (status : Z) (unpreviewable : bool) | ThServed (t : thumbResult).

Definition thumbFetchFailed (e : fetchErr) : thumbReply :=
  match cause e with
  | errTooLarge => ThError 502 true
  | _ => if fetchErrorRetryable e then ThError 503 false else ThError 502 false
  end.

(** What is made of a body that was fetched. *)
Definition make_thumb (ct body : gostring) : thumbReply :=
  if negb (isImageType ct) && negb (isImageType (DetectContentType body)) then ThError 415 false
  else match (decodableFormat body).2 with
  | decodeNotImage => ThError 415 false
  | decodeRefused => ThError 415 true
  | decodeOK =>
      match Decode body with
      | None => ThError 415 false
      | Some src =>
          match encodeThumb (thumbnail src thumbMaxDim) with
          | None => ThError 500 false
          | Some res => if maxThumbCacheEntry <? len (thData res) then ThError 413 true else ThServed res
          end
      end
  end.

(** A request: its body, the switch before and after the wait for a slot, whether its
    session holds and the slot is granted, and the times of its cache accesses. *)
Record thumbReq := MkThumbReq {
  tqBody : option (gostring * gostring); tqEnabled : bool; tqEnabled' : bool; tqSession : bool; tqSlot : bool;
  tqNow : Z; tqNow' : Z; tqPut : Z; tqQueryOk : bool; tqStore : Nets (H := H); tqWorld : World }.

Definition cacheKey (net target : gostring) : gostring := net ++ [x00] ++ target.
Definition fetch_of (net target : gostring) (rq : thumbReq) : mediaReq (H := H) :=
  MkMediaReq Image target net (tqQueryOk rq) (tqStore rq) (tqWorld rq).

#[local] Abbreviation cache := (ttlCache (V := thumbResult)).

Definition handleThumb (rq : thumbReq) (c : cache) (p : Pools) : thumbReply * list netEvent * (cache * Pools) :=
  if negb (tqEnabled rq) then (ThError 403 false, [], (c, p))
  else match mediaRequest (tqBody rq) with
  | None => (ThError 400 false, [], (c, p))
  | Some (target, net) =>
      if negb (tqSession rq) then (ThError 401 false, [], (c, p))
      else
        let ck := cacheKey net target in
        let '(hit, c) := get c ck (tqNow rq) in
        match hit with
        | Some t => (ThServed t, [], (c, p))
        | None =>
            if negb (tqSlot rq) then (ThError 503 false, [], (c, p))
            else
              let '(hit, c) := get c ck (tqNow' rq) in
              match hit with
              | Some t => (ThServed t, [], (c, p))
              | None =>
                  if negb (tqEnabled' rq) then (ThError 403 false, [], (c, p))
                  else
                    let '(evs, o, p) := media_fetch (decode_egress := decode_egress) (fetch_of net target rq) p in
                    match o with
                    | Fetched ct _ body =>
                        match make_thumb ct body with
                        | ThServed res => (ThServed res, evs, (put order c ck res (tqPut rq), p))
                        | e => (e, evs, (c, p))
                        end
                    | FetchFailed e => (thumbFetchFailed e, evs, (c, p))
                    | _ => (ThError 502 false, evs, (c, p))
                    end
              end
        end
  end.

Fixpoint thumb_run (rqs : list thumbReq) (c : cache) (p : Pools) : list (thumbReq * thumbReply * list netEvent) * (cache * Pools) :=
  match rqs with
  | [] => ([], (c, p))
  | rq :: rqs =>
      let '(r, evs, (c, p)) := handleThumb rq c p in
      let '(l, s) := thumb_run rqs c p in
      ((rq, r, evs) :: l, s)
  end.
End handler.
Definition thumbTTL : Z := 30 * Minute.

(** ** The gate *)

Lemma cost_range format m body : 4 <= decodePerPixel format m body <= 28.
Proof.
  unfold decodePerPixel, jpegDecodeSurcharge. assert (4 <= bytesPerPixel m <= 8) by (by destruct m).
  destruct (_ == _); [|destruct (_ == _); [destruct (isAdam7PNG _); lia|lia]]. destruct (isProgressiveJPEG _), (m == CMYKModel), (_ || _); lia.
Qed.
Lemma round16_range x : 0 <= x -> x <= round16 x <= x + 15.
Proof.
  intros Hx. unfold round16. change 15 with (Z.ones 4) at 2 4. rewrite Z.ldiff_ones_r, Z.shiftl_mul_pow2, Z.shiftr_div_pow2 by done.
  change (2 ^ 4) with 16. pose proof (Z.div_mod (x + 15) 16). pose proof (Z.mod_pos_bound (x + 15) 16). lia.
Qed.
Lemma wrap_int64_id z : 0 <= z < 2 ^ 63 -> wrap_int64 z = z.
Proof. intros Hz. unfold wrap_int64. rewrite Z.mod_small; lia. Qed.

(** What the gate lets through fits the budget of a decode, without overflow. *)
Definition decode_bounded `{Imaging} (body : gostring) : Prop :=
  exists w h m format, DecodeConfig body = Some (w, h, m, format) /\ 1 <= w <= maxImageDim /\ 1 <= h <= maxImageDim /\
    (format = §"webp" -> webpUsesVP8L body = false) /\ w * h * decodePerPixel format m body <= maxDecodeBytes.

Lemma gate_ok `{Imaging} body : (decodableFormat body).2 = decodeOK -> decode_bounded body.
Proof.
  unfold decodableFormat. destruct (DecodeConfig body) as [[[[w h] m] format]|] eqn:E; [|done].
  destruct (_ || _ || _ || _) eqn:Ed; [done|]. rewrite !orb_false_iff, !Z.leb_gt, !Z.ltb_ge in Ed. destruct Ed as [[[Hw Hh] Hw'] Hh'].
  destruct (_ && _) eqn:Ev; [done|]. destruct (Z.ltb_spec maxDecodeBytes (wrap_int64 (wrap_int64 ((if format == §"jpeg" then round16 w else w) * (if format == §"jpeg" then round16 h else h)) * decodePerPixel format m body))) as [|Hb]; [done|]. intros _.
  exists w, h, m, format. split; [done|]. split; [lia|]. split; [lia|]. split.
  - intros ->. rewrite bool_decide_eq_true_2 in Ev by done. exact Ev.
  - pose proof (cost_range format m body) as Hc. pose proof (round16_range w ltac:(lia)). pose proof (round16_range h ltac:(lia)). unfold maxImageDim in *.
    assert (w <= (if format == §"jpeg" then round16 w else w) <= 65550) as Hrw by (destruct (format == §"jpeg"); lia).
    assert (h <= (if format == §"jpeg" then round16 h else h) <= 65550) as Hrh by (destruct (format == §"jpeg"); lia).
    revert Hb. generalize dependent (if format == §"jpeg" then round16 w else w). generalize dependent (if format == §"jpeg" then round16 h else h). intros h' Hrh w' Hrw Hb.
    assert (0 <= w' * h' <= 65550 * 65550) as Hp by nia. rewrite (wrap_int64_id (w' * h')) in Hb by lia. rewrite wrap_int64_id in Hb by nia.
    assert (w * h <= w' * h') by nia. nia.
Qed.

(** ** Where a thumbnail comes from *)

Lemma key_plain a b c d : x00 ∉ a -> x00 ∉ b -> cacheKey a b = cacheKey c d -> a = c /\ b = d.
Proof.
  unfold cacheKey. cbn [app]. intros Ha Hb E. pose proof (Cut_app a x00 b Ha) as E1. rewrite E in E1. destruct (decide (x00 ∈ c)) as [Hc|Hc].
  - exfalso. destruct (IndexByte_split c x00 Hc) as [Hs Hn]. rewrite Hs, <- app_assoc in E1. cbn [app] in E1. rewrite (Cut_app _ _ _ Hn) in E1.
    injection E1 as _ <-. apply Hb. set_solver.
  - rewrite (Cut_app c x00 d Hc) in E1. by injection E1 as <- <-.
Qed.

(** An ASCII byte of a valid string is one of its runes. *)
Lemma rune_of_byte c s : b2z c < 0x80 -> ValidString s = true -> c ∈ s -> b2z c ∈ runes s.
Proof.
  intros Hc Hv (a & b & ->)%list_elem_of_split. destruct (ValidString_split a c b Hc Hv) as [Ha _]. unfold runes.
  rewrite chunks_app_valid, fmap_app by done. apply elem_of_app. right.
  rewrite (chunks_cons (c :: b) (b2z c) 1); [by left|done|cbn [DecodeRune]; by rewrite (proj2 (Z.ltb_lt _ _))].
Qed.

Section provenance.
Context `{Huni : Unicode, Hurl : NetUrl, Himg : Imaging}.
Context {decode_egress : gostring -> option (gostring * gostring)} {H : Type}.
Context (order : gmap gostring (ttlEntry (V := thumbResult)) -> list gostring).
Hypothesis order_keys : forall m, order m ≡ₚ (map_to_list m).*1.
(** net/url rejects control characters. *)
Hypothesis url_plain : forall s u, url_Parse s = Some u -> x00 ∉ s.
(** The names of stored definitions have been checked. *)
Definition names_plain (st : Nets (H := H)) : Prop := forall name r, nsConfigs st !! name = Some r -> validateNetworkName name = true.

Lemma name_plain name : validateNetworkName name = true -> x00 ∉ name.
Proof.
  unfold validateNetworkName. destruct (_ || _ || _ || _) eqn:E; [done|]. destruct (existsb IsControl (runes name)) eqn:Ec; [done|]. intros _ Hn.
  assert (existsb IsControl (runes name) = true); [|congruence]. apply existsb_exists. exists 0. split; [|done]. apply list_elem_of_In.
  rewrite !orb_false_iff, !negb_false_iff in E. destruct E as [_ Hv]. by apply (rune_of_byte x00).
Qed.

Context {Hlaws : NetUrlLaws}.

Lemma fetched_plain rq p evs ct final body p' :
  names_plain (mrStore rq) -> mrKind rq = Image -> media_fetch (decode_egress := decode_egress) rq p = (evs, Fetched ct final body, p') -> (x00 ∉ mrNet rq) /\ (x00 ∉ mrURL rq).
Proof.
  intros Hn Hk. unfold media_fetch. destruct (fetcherForNetwork _ _ _ _ p) as [[f|] p1] eqn:Ef; [|done]. rewrite Hk in *. intros Hf. split.
  - revert Ef. unfold fetcherForNetwork, egressForNetwork. destruct (mrNet rq == []); [done|].
    destruct (mrQueryOk rq); [|done]. unfold NetworkConfig. destruct (nsConfigs (mrStore rq) !! mrNet rq) as [r|] eqn:Er; [|done]. intros _. by eapply name_plain, Hn.
  - revert Hf. unfold fetcher_get, admitted. destruct (url_Parse (mrURL rq)) as [u|] eqn:Eu; [|done]. intros _. by eapply url_plain.
Qed.

(** The request that fetched an image of a network and made this thumbnail of it. *)
Definition made (rq : thumbReq (H := H)) (net target : gostring) (t : thumbResult) : Prop :=
  tqEnabled rq = true /\ tqEnabled' rq = true /\ tqSession rq = true /\ mediaRequest (tqBody rq) = Some (target, net) /\
  exists ct body final p evs p', media_fetch (decode_egress := decode_egress) (fetch_of net target rq) p = (evs, Fetched ct final body, p') /\
    len body <= maxImageBytes /\ decode_bounded body /\ make_thumb ct body = ThServed t.

Lemma make_bounded ct body t : make_thumb ct body = ThServed t ->
  decode_bounded body /\ len (thData t) <= maxThumbCacheEntry /\ (thType t = §"image/png" \/ thType t = §"image/jpeg").
Proof.
  unfold make_thumb. destruct (_ && _); [done|]. pose proof (gate_ok body) as Hg. destruct (decodableFormat body).2; try done.
  destruct (Decode body) as [src|]; [|done]. destruct (encodeThumb _) as [res|] eqn:Ee; [|done]. destruct (Z.ltb_spec maxThumbCacheEntry (len (thData res))); [done|].
  intros [= <-]. split; [by apply Hg|]. split; [done|]. revert Ee. unfold encodeThumb. destruct (negb (Opaque _)).
  - destruct (EncodePNG _) as [d|]; [|done]. destruct (_ <=? _); [intros [= <-]; by left|]. destruct (EncodeJPEG _); [intros [= <-]; by right|done].
  - destruct (EncodeJPEG _); [intros [= <-]; by right|done].
Qed.

Lemma get_sound ops (c : ttlCache (V := thumbResult)) k now v c' :
  cache_inv thumbTTL maxThumbCache ops c -> get c k now = (Some v, c') -> exists ts, last_put k ops = Some (v, ts) /\ now <= ts + thumbTTL.
Proof.
  intros [_ _ He] Hg. unfold get in Hg. destruct (m c !! k) as [e|] eqn:Ek; [|done]. destruct (Z.ltb_spec (exp e) now); [done|]. injection Hg as <- <-.
  destruct (He _ _ Ek) as (t & Hl & Hx). exists t. split; [done|lia].
Qed.

Definition thumbs_ok (past : list (thumbReq (H := H))) (c : ttlCache (V := thumbResult)) (p : Pools) : Prop :=
  pools_ok p /\ exists ops, cache_inv thumbTTL maxThumbCache ops c /\
  forall k t ts, last_put k ops = Some (t, ts) ->
    exists rq net target, rq ∈ past /\ k = cacheKey net target /\ made rq net target t /\ ts = tqPut rq /\ (x00 ∉ net) /\ (x00 ∉ target).

Definition served_ok (past : list (thumbReq (H := H))) (rq : thumbReq) (t : thumbResult) : Prop :=
  tqEnabled rq = true /\ tqSession rq = true /\ len (thData t) <= maxThumbCacheEntry /\ (thType t = §"image/png" \/ thType t = §"image/jpeg") /\
  exists net target, mediaRequest (tqBody rq) = Some (target, net) /\
    (made rq net target t \/ exists rq0, rq0 ∈ past /\ made rq0 net target t /\ (tqNow rq <= tqPut rq0 + thumbTTL \/ tqNow' rq <= tqPut rq0 + thumbTTL)).

Lemma thumbs_more past past' c p : past ⊆ past' -> thumbs_ok past c p -> thumbs_ok past' c p.
Proof.
  intros Hs (Hp & ops & Hc & Hl). split; [done|]. exists ops. split; [done|]. intros k t ts Hk. destruct (Hl k t ts Hk) as (rq & net & target & Hin & Hrest).
  exists rq, net, target. split; [by apply Hs|done].
Qed.
Lemma last_put_app (k : gostring) (ops : list (op (V := thumbResult))) o :
  last_put k (ops ++ [o]) = match o with Put k' v t => if bool_decide (k' = k) then Some (v, t) else last_put k ops | Get _ _ => last_put k ops end.
Proof.
  induction ops as [|x ops IH]; cbn [app last_put]; [by destruct o|]. rewrite IH. destruct o as [|k' v t]; [done|]. by case_bool_decide.
Qed.
Lemma get_keeps past c p k now r c' : thumbs_ok past c p -> get c k now = (r, c') -> thumbs_ok past c' p.
Proof.
  intros (Hp & ops & Hc & Hl) Hg. split; [done|]. exists (ops ++ [Get k now]). split.
  - replace c' with (apply order c (Get k now)) by (cbn; by rewrite Hg). by apply cache_apply_inv.
  - intros k' t ts. rewrite last_put_app. apply Hl.
Qed.
Lemma put_keeps past c p rq net target t :
  thumbs_ok past c p -> made rq net target t -> x00 ∉ net -> x00 ∉ target ->
  thumbs_ok (past ++ [rq]) (put order c (cacheKey net target) t (tqPut rq)) p.
Proof.
  intros (Hp & ops & Hc & Hl) Hm Hn Ht. split; [done|]. exists (ops ++ [Put (cacheKey net target) t (tqPut rq)]). split.
  - change (put order c (cacheKey net target) t (tqPut rq)) with (apply order c (Put (cacheKey net target) t (tqPut rq))). by apply cache_apply_inv.
  - intros k t' ts. rewrite last_put_app. case_bool_decide as Hk.
    + intros [= <- <-]. exists rq, net, target. split; [set_solver|]. done.
    + intros Hk'. destruct (Hl _ _ _ Hk') as (rq0 & n & u & Hin & Hrest). exists rq0, n, u. split; [set_solver|done].
Qed.

(** A hit is what was made for this very network and address. *)
Lemma hit_made past c p net target now t c' :
  thumbs_ok past c p -> get c (cacheKey net target) now = (Some t, c') -> exists rq0, rq0 ∈ past /\ made rq0 net target t /\ now <= tqPut rq0 + thumbTTL.
Proof.
  intros (_ & ops & Hc & Hl) Hg. destruct (get_sound _ _ _ _ _ _ Hc Hg) as (ts & Hk & Hts). destruct (Hl _ _ _ Hk) as (rq0 & n & u & Hin & Ek & Hm & -> & Hn & Hu).
  symmetry in Ek. destruct (key_plain _ _ _ _ Hn Hu Ek) as [-> ->]. by exists rq0.
Qed.
Lemma made_bounded rq net target t : made rq net target t -> len (thData t) <= maxThumbCacheEntry /\ (thType t = §"image/png" \/ thType t = §"image/jpeg").
Proof. intros (_ & _ & _ & _ & ct & body & _ & _ & _ & _ & _ & _ & _ & Hm). by apply make_bounded in Hm as [_ Hm]. Qed.

Lemma handle_ok past rq c p r evs c' p' :
  thumbs_ok past c p -> names_plain (tqStore rq) -> handleThumb (decode_egress := decode_egress) order rq c p = (r, evs, (c', p')) ->
  thumbs_ok (past ++ [rq]) c' p' /\ (forall t, r = ThServed t -> served_ok past rq t).
Proof.
  intros Hok Hnames. assert (thumbs_ok (past ++ [rq]) c p) as Hok' by (eapply thumbs_more; [|exact Hok]; set_solver). unfold handleThumb, served_ok.
  destruct (tqEnabled rq) eqn:E1; cbn [negb]; [|by intros [= <- <- <- <-]]. destruct (mediaRequest (tqBody rq)) as [[target net]|] eqn:Em; [|by intros [= <- <- <- <-]].
  destruct (tqSession rq) eqn:E2; cbn [negb]; [|by intros [= <- <- <- <-]].
  destruct (get c (cacheKey net target) (tqNow rq)) as [[t|] c1] eqn:Eg1.
  { intros [= <- <- <- <-]. destruct (hit_made _ _ _ _ _ _ _ _ Hok Eg1) as (rq0 & Hin & Hm & Ht). destruct (made_bounded _ _ _ _ Hm) as [Hb Hty]. split; [by eapply get_keeps|].
    intros ? [= <-]. split_and!; [done..|]. exists net, target. split; [done|]. right. exists rq0. auto. }
  pose proof (get_keeps _ _ _ _ _ _ _ Hok Eg1) as Hok1. pose proof (get_keeps _ _ _ _ _ _ _ Hok' Eg1) as Hok1'.
  destruct (tqSlot rq); cbn [negb]; [|by intros [= <- <- <- <-]].
  destruct (get c1 (cacheKey net target) (tqNow' rq)) as [[t|] c2] eqn:Eg2.
  { intros [= <- <- <- <-]. destruct (hit_made _ _ _ _ _ _ _ _ Hok1 Eg2) as (rq0 & Hin & Hm & Ht). destruct (made_bounded _ _ _ _ Hm) as [Hb Hty]. split; [by eapply get_keeps|].
    intros ? [= <-]. split_and!; [done..|]. exists net, target. split; [done|]. right. exists rq0. auto. }
  pose proof (get_keeps _ _ _ _ _ _ _ Hok1 Eg2) as Hok2. pose proof (get_keeps _ _ _ _ _ _ _ Hok1' Eg2) as Hok2'.
  destruct (tqEnabled' rq) eqn:E3; cbn [negb]; [|by intros [= <- <- <- <-]].
  destruct (media_fetch (fetch_of net target rq) p) as [[evs' o] p1] eqn:Ef. destruct (fetch_justified _ _ _ _ _ (proj1 Hok2) Ef) as [Hp1 (_ & _ & _ & Hb)].
  assert (forall past0, thumbs_ok past0 c2 p -> thumbs_ok past0 c2 p1) as Hpools by (intros ? [_ Hx]; by split).
  destruct o as [| |e|ct final body|]; [by intros [= <- <- <- <-]; split; [apply Hpools|]..| | |by intros [= <- <- <- <-]; split; [apply Hpools|]].
  - intros [= <- <- <- <-]. split; [by apply Hpools|]. unfold thumbFetchFailed. intros t. destruct (cause e), (fetchErrorRetryable e); done.
  - destruct (make_thumb ct body) as [st un|res] eqn:Ek; intros [= <- <- <- <-]; [by split; [apply Hpools|]|].
    assert (made rq net target res) as Hm.
    { split_and!; [done..|]. exists ct, body, final, p, evs', p1. split_and!; [done|by eapply Hb|by eapply make_bounded|done]. }
    destruct (fetched_plain (fetch_of net target rq) _ _ _ _ _ _ Hnames eq_refl Ef) as [Hn Hu]. cbn [mrNet mrURL fetch_of] in Hn, Hu.
    split; [by apply put_keeps; [apply Hpools| | |]|]. intros ? [= <-]. destruct (made_bounded _ _ _ _ Hm) as [Hb' Hty]. split_and!; [done..|]. exists net, target. auto.
Qed.

(** C25. A thumbnail served for an address on a network was made of what that network
    fetched from that address.  Run any series of requests, over any edits of the
    networks and any answers from outside.  What is served with success is a PNG or a
    JPEG of at most 48 KiB, to a live session while previews are on; it was made by this
    request or by an earlier one of a live session, for the same address and the same
    network, no longer than 30 minutes ago: no two requests share an entry of the cache
    through the bytes of their names.  The body it was made of was at most 10 MiB, and
    was decoded only after its header declared an image whose modelled decode fits 36
    MiB and, for WebP, is not of the lossless kind. *)
Theorem thumbs_justified rqs :
  Forall (fun rq => names_plain (tqStore rq)) rqs ->
  let '(l, _) := thumb_run (decode_egress := decode_egress) order rqs (newTTLCache thumbTTL maxThumbCache) newPools in
  forall i rq t evs, l !! i = Some (rq, ThServed t, evs) -> served_ok (take i rqs) rq t /\ rqs !! i = Some rq.
Proof.
  intros Hn. assert (forall past c p, thumbs_ok past c p -> let '(l, _) := thumb_run (decode_egress := decode_egress) order rqs c p in
    forall i rq t evs, l !! i = Some (rq, ThServed t, evs) -> served_ok (past ++ take i rqs) rq t /\ rqs !! i = Some rq) as Hrun.
  { induction Hn as [|rq rqs Hq Hn IH]; intros past c p Hok; cbn [thumb_run]; [done|].
    destruct (handleThumb order rq c p) as [[r evs] [c1 p1]] eqn:E. destruct (handle_ok _ _ _ _ _ _ _ _ Hok Hq E) as [Hok1 Hs].
    specialize (IH _ _ _ Hok1). destruct (thumb_run order rqs c1 p1) as [l s]. intros [|i] rq' t evs' Hi.
    - injection Hi as -> -> ->. cbn [take]. rewrite app_nil_r. split; [by apply Hs|done].
    - cbn in Hi. destruct (IH i rq' t evs' Hi) as [H1 H2]. cbn [take]. rewrite <- app_assoc in H1. done. }
  specialize (Hrun [] (newTTLCache thumbTTL maxThumbCache) newPools).
  destruct (thumb_run order rqs (newTTLCache thumbTTL maxThumbCache) newPools) as [l s]. apply Hrun. split; [apply newPools_ok|]. exists []. split; [|done].
  by apply (run_inv order order_keys thumbTTL maxThumbCache []).
Qed.
End provenance.

(** ** Downscaling *)

Definition chan (i : nat) (p : Z * Z * Z * Z) : Z := let '(r, g, b, a) := p in nth i [r; g; b; a] 0.
Definition px_ok (p : Z * Z * Z * Z) : Prop := forall i, (i < 4)%nat -> 0 <= chan i p <= 0xFFFF.
Definition chan5 (i : nat) (p : Z * Z * Z * Z * Z) : Z := let '(r, g, b, a, n) := p in nth i [r; g; b; a] 0.
Definition count5 (p : Z * Z * Z * Z * Z) : Z := let '(_, n) := p in n.
Fixpoint zsum (l : list Z) : Z := match l with [] => 0 | x :: l => x + zsum l end.

(** Without overflow the accumulators are the sums. *)
Lemma foldl_px (f : Z * Z -> Z * Z * Z * Z) l acc :
  Forall (fun p => px_ok (f p)) l -> 0 <= count5 acc -> count5 acc + len l < 2 ^ 32 -> (forall i, (i < 4)%nat -> 0 <= chan5 i acc <= count5 acc * 0xFFFF) ->
  let r := foldl (fun acc p => add_px acc (f p)) acc l in
  count5 r = count5 acc + len l /\ forall i, (i < 4)%nat -> chan5 i r = chan5 i acc + zsum (chan i <$> (f <$> l)).
Proof.
  intros Hl. revert acc. induction Hl as [|p l Hp Hl IH]; intros acc H0 Hn Hb; cbn [foldl fmap list_fmap zsum]; [rewrite len_nil; split; intros; lia|].
  rewrite len_cons in Hn. pose proof (len_nonneg l).
  assert (count5 (add_px acc (f p)) = count5 acc + 1 /\ forall i, (i < 4)%nat -> chan5 i (add_px acc (f p)) = chan5 i acc + chan i (f p)) as [Hc Hs].
  { revert Hp. cbv beta. generalize (f p). intros [[[r' g'] b'] a'] Hp. destruct acc as [[[[r g] b] a] n]. cbn [add_px count5] in *. unfold add_u64. split; [apply Z.mod_small; lia|].
    intros i Hi. pose proof (Hb i Hi) as Hb'. pose proof (Hp i Hi) as Hp'. destruct i as [|[|[|[|i]]]]; [..|lia]; cbn in *; apply Z.mod_small; lia. }
  destruct (IH (add_px acc (f p))) as [H1 H2]; [lia|lia|intros i Hi; rewrite (Hs i Hi), Hc; pose proof (Hb i Hi); pose proof (Hp i Hi); lia|].
  rewrite H1, Hc, len_cons. split; [lia|]. intros i Hi. rewrite (H2 i Hi), (Hs i Hi). lia.
Qed.

Lemma zsum_between lo hi l : Forall (fun x => lo <= x <= hi) l -> len l * lo <= zsum l <= len l * hi.
Proof. induction 1 as [|x l Hx Hl IH]; [done|]. rewrite len_cons. cbn [zsum]. nia. Qed.

Lemma box_elem x y sx0 sx1 sy0 sy1 : (x, y) ∈ box sx0 sx1 sy0 sy1 <-> sx0 <= x < sx1 /\ sy0 <= y < sy1.
Proof.
  unfold box. split.
  - intros (sy & Hin & Hy%elem_of_seqZ)%list_elem_of_bind. apply list_elem_of_fmap in Hin as (sx & [= -> ->] & Hx%elem_of_seqZ). lia.
  - intros [Hx Hy]. apply list_elem_of_bind. exists y. split; [apply list_elem_of_fmap; exists x; split; [done|]|]; apply elem_of_seqZ; lia.
Qed.
Lemma box_len sx0 sx1 sy0 sy1 : sx0 <= sx1 -> sy0 <= sy1 -> len (box sx0 sx1 sy0 sy1) = (sx1 - sx0) * (sy1 - sy0).
Proof.
  intros Hx Hy. unfold box. assert (forall l : list Z, len (sy ← l; (fun sx => (sx, sy)) <$> seqZ sx0 (sx1 - sx0)) = (sx1 - sx0) * len l) as ->.
  { induction l as [|y l IH]; [unfold len; cbn; lia|]. rewrite bind_cons, len_app, len_cons, IH.
    unfold len at 1. rewrite length_fmap, length_seqZ, Z2Nat.id by lia. lia. }
  unfold len. rewrite length_seqZ, Z2Nat.id by lia. done.
Qed.

(** The mean of a box lies between the extremes of its pixels. *)
Lemma average_between src sx0 sx1 sy0 sy1 i lo hi :
  sx0 < sx1 -> sy0 < sy1 -> (sx1 - sx0) * (sy1 - sy0) < 2 ^ 32 ->
  (forall x y, sx0 <= x < sx1 -> sy0 <= y < sy1 -> px_ok (At src x y) /\ lo <= chan i (At src x y) <= hi) -> (i < 4)%nat ->
  lo <= chan i (boxAverage src sx0 sx1 sy0 sy1) <= hi.
Proof.
  intros Hx Hy Hn Hp Hi. unfold boxAverage. pose proof (box_len sx0 sx1 sy0 sy1 ltac:(lia) ltac:(lia)) as Hlen.
  assert (Forall (fun p => px_ok (At src p.1 p.2) /\ lo <= chan i (At src p.1 p.2) <= hi) (box sx0 sx1 sy0 sy1)) as Hall.
  { apply Forall_forall. intros [x y] [Hx' Hy']%box_elem. by apply Hp. }
  destruct (foldl_px (fun p => At src p.1 p.2) (box sx0 sx1 sy0 sy1) (0, 0, 0, 0, 0)) as [Hc Hs].
  - eapply Forall_impl; [exact Hall|]. by intros p [? _].
  - done.
  - cbn. lia.
  - intros [|[|[|[|j]]]] Hj; cbn; lia.
  - destruct (foldl _ _ _) as [[[[r g] b] a] n] eqn:E. cbn [count5] in Hc. specialize (Hs i Hi).
    assert (len (box sx0 sx1 sy0 sy1) * lo <= zsum (chan i <$> ((fun p => At src p.1 p.2) <$> box sx0 sx1 sy0 sy1)) <= len (box sx0 sx1 sy0 sy1) * hi) as Hz.
    { pose proof (zsum_between lo hi (chan i <$> ((fun p => At src p.1 p.2) <$> box sx0 sx1 sy0 sy1))) as Hz. unfold len in *. rewrite !length_fmap in Hz. apply Hz.
      rewrite !Forall_fmap. eapply Forall_impl; [exact Hall|]. by intros p [_ ?]. }
    cbv zeta in Hs. assert (0 < n) as Hn0 by nia. destruct (Z.eqb_spec n 0); [lia|].
    assert (chan i (r / n, g / n, b / n, a / n) = chan5 i (r, g, b, a, n) / n) as -> by (by destruct i as [|[|[|[|j]]]]; [..|lia]).
    rewrite Hs. assert (chan5 i (0, 0, 0, 0, 0) = 0) as -> by (by destruct i as [|[|[|[|j]]]]; [..|lia]). rewrite Hlen in *.
    split; [apply Z.div_le_lower_bound; nia|apply Z.div_le_upper_bound; nia].
Qed.

(** *** Tiles *)

Lemma div_le_iff a n t : 0 < n -> a / n <= t <-> a < (t + 1) * n.
Proof. intros Hn. split; intros Ht; [pose proof (Z.mul_succ_div_gt a n Hn); nia|]. apply Z.lt_succ_r, Z.div_lt_upper_bound; lia. Qed.

Lemma box_hi_next min d s n : 0 < n <= s -> 0 <= d -> box_hi min d s n = box_lo min (d + 1) s n /\ box_lo min d s n < box_hi min d s n.
Proof.
  intros Hn Hd. assert (box_lo min d s n < box_lo min (d + 1) s n) as Hlt.
  { unfold box_lo. assert (d * s / n + 1 <= (d + 1) * s / n); [|lia]. rewrite <- Z.div_add by lia. apply Z.div_le_mono; nia. }
  unfold box_hi. fold (box_lo min (d + 1) s n). destruct (Z.leb_spec (box_lo min (d + 1) s n) (box_lo min d s n)); [lia|]. split; [done|lia].
Qed.

Lemma box_lo_mono min d e s n : 0 < n -> 0 <= s -> d <= e -> box_lo min d s n <= box_lo min e s n.
Proof. intros Hn Hs Hd. unfold box_lo. assert (d * s / n <= e * s / n) by (apply Z.div_le_mono; nia). lia. Qed.

(** Each source coordinate belongs to one destination coordinate. *)
Lemma box_tile min s n x : 0 < n <= s -> min <= x < min + s ->
  exists d, 0 <= d < n /\ box_lo min d s n <= x < box_hi min d s n /\ forall e, 0 <= e < n -> box_lo min e s n <= x < box_hi min e s n -> e = d.
Proof.
  intros Hn Hx. set (d := ((x - min + 1) * n - 1) / s).
  assert (0 <= d) as Hd0 by (apply Z.div_pos; nia).
  assert (d < n) as Hdn by (apply Z.div_lt_upper_bound; nia).
  assert (d * s <= (x - min + 1) * n - 1) as Hd by (unfold d; rewrite Z.mul_comm; apply Z.mul_div_le; lia).
  assert ((x - min + 1) * n - 1 < (d + 1) * s) as Hd' by (pose proof (Z.mul_succ_div_gt ((x - min + 1) * n - 1) s ltac:(lia)) as Hg; fold d in Hg; lia).
  assert (forall e, 0 <= e -> box_lo min e s n <= x <-> e * s <= (x - min + 1) * n - 1) as Hlo.
  { intros e He. unfold box_lo. pose proof (div_le_iff (e * s) n (x - min) ltac:(lia)). lia. }
  destruct (box_hi_next min d s n Hn Hd0) as [Eh _]. exists d. split; [done|]. split.
  - split; [by apply Hlo|]. rewrite Eh. destruct (Z.lt_ge_cases x (box_lo min (d + 1) s n)) as [|Hge]; [done|]. apply Hlo in Hge; lia.
  - intros e He [H1 H2]. destruct (box_hi_next min e s n Hn (proj1 He)) as [Ee _]. rewrite Ee in H2. apply Hlo in H1; [|lia].
    destruct (Z.lt_trichotomy e d) as [Hlt|[->|Hgt]]; [|done|nia].
    exfalso. pose proof (box_lo_mono min (e + 1) d s n ltac:(lia) ltac:(lia) ltac:(lia)). assert (box_lo min d s n <= x) by by apply Hlo. lia.
Qed.

Lemma box_within min s n d : 0 < n <= s -> 0 <= d < n -> min <= box_lo min d s n /\ box_hi min d s n <= min + s.
Proof.
  intros Hn Hd. destruct (box_hi_next min d s n Hn (proj1 Hd)) as [-> _]. pose proof (box_lo_mono min 0 d s n ltac:(lia) ltac:(lia) ltac:(lia)) as H0.
  pose proof (box_lo_mono min (d + 1) n s n ltac:(lia) ltac:(lia) ltac:(lia)) as H1. unfold box_lo in *. rewrite Z.mul_0_l, Z.div_0_l in H0 by lia.
  rewrite (Z.mul_comm n s), Z.div_mul in H1 by lia. lia.
Qed.

Lemma dims_range sw sh : 0 < sw -> 0 < sh -> thumbMaxDim < sw \/ thumbMaxDim < sh ->
  let '(dw, dh) := thumb_dims sw sh thumbMaxDim in 1 <= dw <= sw /\ 1 <= dh <= sh /\ Z.max dw dh = thumbMaxDim.
Proof.
  intros Hw Hh Hs. unfold thumb_dims, thumbMaxDim in *. destruct (Z.leb_spec sh sw) as [Hle|Hlt].
  - assert (sh * 400 / sw <= sh) by (apply Z.div_le_upper_bound; nia). assert (sh * 400 / sw <= 400) by (apply Z.div_le_upper_bound; nia). lia.
  - assert (sw * 400 / sh <= sw) by (apply Z.div_le_upper_bound; nia). assert (sw * 400 / sh <= 400) by (apply Z.div_le_upper_bound; nia). lia.
Qed.

Definition in_bounds (img : image) (x y : Z) : Prop := minX img <= x < minX img + Dx img /\ minY img <= y < minY img + Dy img.
(** A decoded image: its sizes passed the gate, its channels have 16 bits. *)
Definition image_ok (img : image) : Prop :=
  1 <= Dx img <= maxImageDim /\ 1 <= Dy img <= maxImageDim /\ forall x y, in_bounds img x y -> px_ok (At img x y).

(** The source pixels a pixel of the thumbnail stands for. *)
Definition covers_px (src out : image) (dx dy x y : Z) : Prop :=
  box_lo (minX src) dx (Dx src) (Dx out) <= x < box_hi (minX src) dx (Dx src) (Dx out) /\
  box_lo (minY src) dy (Dy src) (Dy out) <= y < box_hi (minY src) dy (Dy src) (Dy out).

Lemma rgba8_mono a b : a <= b -> rgba8 a <= rgba8 b.
Proof. intros Hab. unfold rgba8. rewrite !Z.shiftr_div_pow2 by done. pose proof (Z.div_le_mono a b (2 ^ 8) ltac:(done) Hab). lia. Qed.
Lemma chan_map f i p : (i < 4)%nat -> chan i (map_px f p) = f (chan i p).
Proof. destruct p as [[[r g] b] a]. intros Hi. by destruct i as [|[|[|[|i]]]]; [..|lia]. Qed.

(** C21. The thumbnail is the picture, smaller.  An image within 400 by 400 pixels is kept
    as it is.  Of a larger one, the longer side becomes 400 and the shorter one is
    scaled in proportion, rounded down but never to nothing; each pixel of the source
    counts towards exactly one pixel of the thumbnail and none outside the source is
    read; and each channel of a pixel lies, to the eight bits that are stored, between
    the smallest and the largest value of that channel in the area it stands for, so a
    plain area stays plain.  The 64-bit sums do not overflow for any image that passes
    the gate. *)
Theorem downscale_exact src :
  image_ok src ->
  let out := thumbnail src thumbMaxDim in
  if (Dx src <=? thumbMaxDim) && (Dy src <=? thumbMaxDim) then out = src
  else
    Z.max (Dx out) (Dy out) = thumbMaxDim /\ Z.min (Dx out) (Dy out) = Z.max 1 (Z.min (Dx src) (Dy src) * thumbMaxDim / Z.max (Dx src) (Dy src)) /\
    (Dy src <= Dx src -> Dx out = thumbMaxDim) /\ (Dx src < Dy src -> Dy out = thumbMaxDim) /\
    (forall x y, in_bounds src x y -> exists dx dy, in_bounds out dx dy /\ covers_px src out dx dy x y /\
       forall ex ey, in_bounds out ex ey -> covers_px src out ex ey x y -> ex = dx /\ ey = dy) /\
    (forall dx dy, in_bounds out dx dy ->
       (forall x y, covers_px src out dx dy x y -> in_bounds src x y) /\
       forall i lo hi, (i < 4)%nat -> (forall x y, covers_px src out dx dy x y -> lo <= chan i (At src x y) <= hi) ->
         rgba8 lo <= chan i (At out dx dy) <= rgba8 hi).
Proof.
  intros (Hw & Hh & Hpx) out. unfold out, thumbnail. destruct (_ && _) eqn:Es; [done|].
  assert (thumbMaxDim < Dx src \/ thumbMaxDim < Dy src) as Hbig by (destruct (Z.leb_spec (Dx src) thumbMaxDim), (Z.leb_spec (Dy src) thumbMaxDim); try done; lia).
  pose proof (dims_range (Dx src) (Dy src) ltac:(lia) ltac:(lia) Hbig) as Hd. destruct (thumb_dims (Dx src) (Dy src) thumbMaxDim) as [dw dh] eqn:Ed. destruct Hd as (Hdw & Hdh & Hmax).
  unfold in_bounds, covers_px. cbn [minX minY Dx Dy At]. unfold maxImageDim in *. split; [done|]. split; [|split; [|split; [|split]]].
  - revert Ed. unfold thumb_dims. destruct (Z.leb_spec (Dy src) (Dx src)); intros [= <- <-]; unfold thumbMaxDim in *;
      [rewrite (Z.min_r (Dx src)), (Z.max_l (Dx src)) by lia|rewrite (Z.min_l (Dx src)), (Z.max_r (Dx src)) by lia]; lia.
  - revert Ed. unfold thumb_dims. destruct (Z.leb_spec (Dy src) (Dx src)); intros [= <- <-]; lia.
  - revert Ed. unfold thumb_dims. destruct (Z.leb_spec (Dy src) (Dx src)); intros [= <- <-]; lia.
  - intros x y [Hx Hy]. destruct (box_tile (minX src) (Dx src) dw x ltac:(lia) Hx) as (dx & Hdx & Hbx & Hux). destruct (box_tile (minY src) (Dy src) dh y ltac:(lia) Hy) as (dy & Hdy & Hby & Huy).
    exists dx, dy. split; [lia|]. split; [done|]. intros ex ey [He1 He2] [Hc1 Hc2]. split; [apply Hux; [lia|done]|apply Huy; [lia|done]].
  - intros dx dy [Hdx Hdy]. pose proof (box_within (minX src) (Dx src) dw dx ltac:(lia) ltac:(lia)) as Hbx. pose proof (box_within (minY src) (Dy src) dh dy ltac:(lia) ltac:(lia)) as Hby.
    destruct (box_hi_next (minX src) dx (Dx src) dw ltac:(lia) ltac:(lia)) as [_ Hnx]. destruct (box_hi_next (minY src) dy (Dy src) dh ltac:(lia) ltac:(lia)) as [_ Hny].
    assert (forall x y, box_lo (minX src) dx (Dx src) dw <= x < box_hi (minX src) dx (Dx src) dw -> box_lo (minY src) dy (Dy src) dh <= y < box_hi (minY src) dy (Dy src) dh -> in_bounds src x y) as Hin
      by (intros x y H1 H2; unfold in_bounds; lia).
    split; [intros x y [H1 H2]; by apply Hin|]. intros i lo hi Hi Hp. rewrite chan_map by done.
    assert (lo <= chan i (boxAverage src (box_lo (minX src) dx (Dx src) dw) (box_hi (minX src) dx (Dx src) dw) (box_lo (minY src) dy (Dy src) dh) (box_hi (minY src) dy (Dy src) dh)) <= hi) as [H1 H2].
    { apply average_between; [lia|lia| | |done].
      - assert (box_hi (minX src) dx (Dx src) dw - box_lo (minX src) dx (Dx src) dw <= 65535) by lia. assert (box_hi (minY src) dy (Dy src) dh - box_lo (minY src) dy (Dy src) dh <= 65535) by lia. nia.
      - intros x y Hx Hy. split; [by apply Hpx, Hin|]. by apply Hp. }
    split; by apply rgba8_mono.
Qed.

(** ** The scanners against well-formed files *)

Lemma byte_at_app pre s k : 0 <= k -> byte_at (pre ++ s) (len pre + k) = byte_at s k.
Proof. intros Hk. unfold byte_at, len. rewrite Z2Nat.inj_add, Nat2Z.id, app_nth2_plus by lia. done. Qed.
Lemma byte_at_0 pre s : byte_at (pre ++ s) (len pre) = byte_at s 0.
Proof. rewrite <- (byte_at_app pre s 0) by done. by rewrite Z.add_0_r. Qed.

(** The header of a JPEG file: fill bytes, markers on their own, and markers with a
    counted payload; the scan starts at SOS. *)
Inductive segment := Fill | Alone (m : byte) | Block (m : byte) (payload : gostring).
Definition seg_ok (s : segment) : Prop :=
  match s with
  | Fill => True
  | Alone m => standalone (b2z m) = true
  | Block m p => m <> xff /\ m <> xda /\ standalone (b2z m) = false /\ len p + 2 < 65536
  end.
Definition seg_bytes (s : segment) : gostring :=
  match s with
  | Fill => [xff]
  | Alone m => [xff; m]
  | Block m p => [xff; m; low_byte (Z.shiftr (len p + 2) 8); low_byte (len p + 2)] ++ p
  end.
Definition is_sof2 (s : segment) : bool := match s with Block m _ => m == xc2 | _ => false end.
Definition jpeg_header (segs : list segment) (scan : gostring) : gostring := (segs ≫= seg_bytes) ++ [xff; xda] ++ scan.

Lemma header_ff segs scan : exists t, jpeg_header segs scan = xff :: t /\ (1 <= length t)%nat.
Proof.
  destruct segs as [|s segs]; [exists (xda :: scan); split; [done|cbn; lia]|]. unfold jpeg_header. rewrite bind_cons.
  destruct s; cbn [seg_bytes app]; eexists; (split; [done|]); rewrite ?length_cons, ?length_app; cbn; lia.
Qed.

Lemma b2z_inj a b : b2z a = b2z b -> a = b.
Proof. intros E. by rewrite <- (z2b_b2z a), E, z2b_b2z. Qed.

(** Bytes put side by side. *)
Lemma lor_shift a b n : 0 <= n -> 0 <= b < 2 ^ n -> Z.lor b (Z.shiftl a n) = b + a * 2 ^ n.
Proof.
  intros Hn Hb. assert (Z.land b (Z.shiftl a n) = 0) as H0.
  { apply Z.bits_inj'. intros k Hk. rewrite Z.land_spec, Z.bits_0. destruct (Z.lt_ge_cases k n) as [Hlt|Hge]; [by rewrite Z.shiftl_spec_low, andb_false_r|].
    rewrite <- (Z.mod_small b (2 ^ n)), <- Z.land_ones, Z.land_spec, Z.ones_spec_high, andb_false_r by lia. done. }
  rewrite <- Z.lxor_lor, <- Z.add_nocarry_lxor, Z.shiftl_mul_pow2 by done. done.
Qed.
Lemma header_bytes n : 0 <= n < 65536 -> Z.lor (Z.shiftl (b2z (low_byte (Z.shiftr n 8))) 8) (b2z (low_byte n)) = n.
Proof.
  intros Hn. rewrite !low_byte_mod, Z.shiftr_div_pow2 by done. change (2 ^ 8) with 256. rewrite Z.lor_comm, lor_shift by (try apply Z.mod_pos_bound; done).
  change (2 ^ 8) with 256. rewrite (Z.mod_small (n / 256)) by (split; [apply Z.div_pos; lia|apply Z.div_lt_upper_bound; lia]). pose proof (Z.div_mod n 256). lia.
Qed.

Lemma progressive_walk segs pre scan fuel :
  Forall seg_ok segs -> (length (jpeg_header segs scan) <= fuel)%nat ->
  progressive_from fuel (pre ++ jpeg_header segs scan) (len pre) = Some (existsb is_sof2 segs).
Proof.
  intros Hs. revert pre fuel. induction Hs as [|s segs Hok Hs IH]; intros pre fuel Hf.
  - destruct fuel as [|fuel]; [cbn in Hf; lia|]. cbn [progressive_from]. unfold jpeg_header. cbn [app mbind list_bind].
    destruct (Z.ltb_spec (len pre + 1) (len (pre ++ xff :: xda :: scan))) as [_|Hl]; [|rewrite len_app, !len_cons in Hl; pose proof (len_nonneg scan); lia].
    cbn [negb]. rewrite byte_at_0, byte_at_app by done. done.
  - assert (jpeg_header (s :: segs) scan = seg_bytes s ++ jpeg_header segs scan) as E by (unfold jpeg_header; by rewrite bind_cons, <- app_assoc).
    rewrite E in *. rewrite length_app in Hf. destruct (header_ff segs scan) as (t & Et & Ht).
    assert (len pre + 1 < len (pre ++ seg_bytes s ++ jpeg_header segs scan)) as Hl.
    { rewrite !len_app, Et, len_cons. unfold len. destruct s; cbn [seg_bytes length app]; lia. }
    destruct fuel as [|fuel]; [destruct s; cbn in Hf; lia|]. cbn [progressive_from]. rewrite (proj2 (Z.ltb_lt _ _) Hl). cbn [negb]. rewrite byte_at_0, byte_at_app by done.
    assert (forall fuel', (length (jpeg_header segs scan) <= fuel')%nat ->
      progressive_from fuel' (pre ++ seg_bytes s ++ jpeg_header segs scan) (len pre + len (seg_bytes s)) = Some (existsb is_sof2 segs)) as Hnext.
    { intros fuel' Hf'. rewrite app_assoc, <- len_app. by apply IH. }
    destruct s as [|m|m p]; cbn [seg_bytes app] in *.
    + rewrite Et in *. change (byte_at (xff :: xff :: t) 0) with 255. change (byte_at (xff :: xff :: t) 1) with 255. cbn [Z.eqb negb]. apply Hnext. cbn [length] in *. lia.
    + change (byte_at (xff :: m :: jpeg_header segs scan) 0) with 255. change (byte_at (xff :: m :: jpeg_header segs scan) 1) with (b2z m). cbn [Z.eqb negb seg_ok] in *.
      unfold standalone in Hok. change (255 =? 255) with true. cbn [negb].
      destruct (Z.eqb_spec (b2z m) 0xFF); [rewrite e in Hok; done|]. destruct (Z.eqb_spec (b2z m) 0xC2); [rewrite e in Hok; done|]. destruct (Z.eqb_spec (b2z m) 0xDA); [rewrite e in Hok; done|].
      unfold standalone. rewrite Hok. apply Hnext. cbn [length] in *. lia.
    + change (byte_at (xff :: m :: ?r) 0) with 255. change (byte_at (xff :: m :: ?r) 1) with (b2z m). change (255 =? 255) with true. cbn [negb existsb is_sof2].
      destruct Hok as (H1 & H2 & H3 & H4). destruct (Z.eqb_spec (b2z m) 0xFF) as [Em|_]; [by destruct H1; apply b2z_inj|].
      destruct (Z.eqb_spec (b2z m) 0xC2) as [Em|Em]; [assert (m = xc2) as -> by (by apply b2z_inj); done|]. rewrite (bool_decide_eq_false_2 (m = xc2)) by (by intros ->). cbn [orb].
      destruct (Z.eqb_spec (b2z m) 0xDA) as [Ed|_]; [by destruct H2; apply b2z_inj|]. rewrite H3.
      assert (skipSegment (pre ++ xff :: m :: low_byte (Z.shiftr (len p + 2) 8) :: low_byte (len p + 2) :: p ++ jpeg_header segs scan) (len pre + 2) = len pre + 2 + (len p + 2)) as ->.
      { unfold skipSegment. rewrite <- Z.add_assoc. change (2 + 1) with 3. rewrite !byte_at_app by done.
        destruct (Z.leb_spec (len (pre ++ xff :: m :: low_byte (Z.shiftr (len p + 2) 8) :: low_byte (len p + 2) :: p ++ jpeg_header segs scan)) (len pre + 3)) as [Hle|_].
        { rewrite len_app, !len_cons, len_app in Hle. pose proof (len_nonneg p). pose proof (len_nonneg (jpeg_header segs scan)). lia. }
        change (byte_at (xff :: m :: low_byte (Z.shiftr (len p + 2) 8) :: ?r) 2) with (b2z (low_byte (Z.shiftr (len p + 2) 8))). change (byte_at (xff :: m :: ?a :: low_byte (len p + 2) :: ?r) 3) with (b2z (low_byte (len p + 2))).
        pose proof (len_nonneg p). rewrite header_bytes by lia. cbv zeta. destruct (Z.ltb_spec (len p + 2) 2); [lia|done]. }
      pose proof (len_nonneg p). pose proof (len_nonneg pre). destruct (Z.ltb_spec (len pre + 2 + (len p + 2)) 0); [lia|].
      replace (len pre + 2 + (len p + 2)) with (len pre + len (xff :: m :: low_byte (Z.shiftr (len p + 2) 8) :: low_byte (len p + 2) :: p)) by (rewrite !len_cons; lia).
      apply Hnext. cbn [length] in Hf. lia.
Qed.

(** The chunks of a WebP file. *)
Record chunk := MkChunk { ckId : gostring; ckData : gostring }.
Definition chunk_ok (c : chunk) : Prop := len (ckId c) = 4 /\ len (ckData c) < 2 ^ 32 /\ (ckId c = §"ALPH" -> ckData c <> []).
Definition le_bytes (n : Z) : gostring := [low_byte n; low_byte (Z.shiftr n 8); low_byte (Z.shiftr n 16); low_byte (Z.shiftr n 24)].
Definition chunk_bytes (c : chunk) : gostring :=
  ckId c ++ le_bytes (len (ckData c)) ++ ckData c ++ (if Z.land (len (ckData c)) 1 =? 0 then [] else [x00]).
(** A VP8L image, or an alpha plane compressed as one. *)
Definition lossless (c : chunk) : bool := (ckId c == §"VP8L") || ((ckId c == §"ALPH") && (Z.land (byte_at (ckData c) 0) 0x03 =? 1)).
Definition riff (size : gostring) (chunks : list chunk) : gostring := §"RIFF" ++ size ++ §"WEBP" ++ (chunks ≫= chunk_bytes).

Lemma le32_value b i :
  le32 b i = byte_at b i + 2 ^ 8 * (byte_at b (i + 1) + 2 ^ 8 * (byte_at b (i + 2) + 2 ^ 8 * byte_at b (i + 3))).
Proof.
  unfold le32. assert (forall k, 0 <= byte_at b k < 2 ^ 8) as Hb by (intros k; apply b2z_range).
  replace (Z.shiftl (byte_at b (i + 3)) 24) with (Z.shiftl (Z.shiftl (byte_at b (i + 3)) 8) 16) by (by rewrite Z.shiftl_shiftl by done).
  rewrite <- Z.shiftl_lor, (lor_shift (byte_at b (i + 3)) (byte_at b (i + 2)) 8) by (done || apply Hb). set (u := byte_at b (i + 2) + _).
  replace (Z.shiftl u 16) with (Z.shiftl (Z.shiftl u 8) 8) by (by rewrite Z.shiftl_shiftl by done).
  rewrite <- Z.shiftl_lor, (lor_shift u (byte_at b (i + 1)) 8), lor_shift by (done || apply Hb). unfold u. lia.
Qed.
Lemma le_bytes_read pre n s : 0 <= n < 2 ^ 32 -> le32 (pre ++ le_bytes n ++ s) (len pre) = n.
Proof.
  intros Hn. rewrite le32_value, byte_at_0, !byte_at_app by done. unfold le_bytes. cbn [app].
  change (byte_at (?a :: ?r) 0) with (b2z a). change (byte_at (?a :: ?b :: ?r) 1) with (b2z b). change (byte_at (?a :: ?b :: ?c :: ?r) 2) with (b2z c).
  change (byte_at (?a :: ?b :: ?c :: ?d :: ?r) 3) with (b2z d). rewrite !low_byte_mod, !Z.shiftr_div_pow2 by done.
  change (2 ^ 8) with 256. change (2 ^ 16) with (256 * 256). change (2 ^ 24) with (256 * 256 * 256). rewrite <- !Z.div_div by done.
  pose proof (Z.div_mod n 256). pose proof (Z.div_mod (n / 256) 256). pose proof (Z.div_mod (n / 256 / 256) 256).
  assert (n / 256 / 256 / 256 < 256) by (repeat (apply Z.div_lt_upper_bound; [done|]); lia).
  assert (0 <= n / 256 / 256 / 256) by (repeat (apply Z.div_pos; [|done]); lia). rewrite (Z.mod_small (n / 256 / 256 / 256)) by lia. lia.
Qed.

Lemma chunk_len c : len (chunk_bytes c) = len (ckId c) + 4 + len (ckData c) + Z.land (len (ckData c)) 1.
Proof.
  unfold chunk_bytes. rewrite !len_app. change (len (le_bytes _)) with 4.
  assert (0 <= Z.land (len (ckData c)) 1 < 2) by (change (Z.land (len (ckData c)) 1) with (Z.land (len (ckData c)) (Z.ones 1)); rewrite Z.land_ones by done; by apply Z.mod_pos_bound).
  destruct (Z.eqb_spec (Z.land (len (ckData c)) 1) 0); [rewrite len_nil|rewrite len_cons, len_nil]; lia.
Qed.

Lemma vp8l_walk chunks pre fuel :
  Forall chunk_ok chunks -> (length (chunks ≫= chunk_bytes) < fuel)%nat ->
  vp8l_from fuel (pre ++ (chunks ≫= chunk_bytes)) (len pre) = Some (existsb lossless chunks).
Proof.
  intros Hc. revert pre fuel. induction Hc as [|[id data] chunks (Hid & Hd & Ha) Hc IH]; intros pre fuel Hf.
  - destruct fuel as [|fuel]; [lia|]. cbn [vp8l_from mbind list_bind]. rewrite app_nil_r. by destruct (Z.leb_spec (len pre + 8) (len pre)); [lia|].
  - rewrite bind_cons in *. rewrite length_app in Hf. cbn [ckId ckData] in *. pose proof (chunk_len (MkChunk id data)) as Hl. cbn [ckId ckData] in Hl. rewrite Hid in Hl.
    pose proof (len_nonneg data). pose proof (len_nonneg (chunks ≫= chunk_bytes)).
    assert (0 <= Z.land (len data) 1) as Hpad by (apply Z.land_nonneg; by right).
    remember (pre ++ chunk_bytes (MkChunk id data) ++ (chunks ≫= chunk_bytes)) as W eqn:EW.
    assert (len W = len pre + (8 + len data + Z.land (len data) 1) + len (chunks ≫= chunk_bytes)) as HW by (rewrite EW, !len_app, Hl; lia).
    assert (forall fuel', (length (chunks ≫= chunk_bytes) < fuel')%nat -> vp8l_from fuel' W (len pre + 8 + len data + Z.land (len data) 1) = Some (existsb lossless chunks)) as Hnext.
    { intros fuel' Hf'. rewrite EW, app_assoc. replace (len pre + 8 + len data + Z.land (len data) 1) with (len (pre ++ chunk_bytes (MkChunk id data))) by (rewrite len_app, Hl; lia). by apply IH. }
    assert (W = pre ++ id ++ le_bytes (len data) ++ data ++ (if Z.land (len data) 1 =? 0 then [] else [x00]) ++ (chunks ≫= chunk_bytes)) as EW'
      by (rewrite EW; unfold chunk_bytes; cbn [ckId ckData]; by rewrite <- !app_assoc).
    assert (8 <= length (chunk_bytes (MkChunk id data)))%nat as Hl8 by (unfold len at 1 in Hl; lia). clear EW. rename EW' into EW. destruct fuel as [|fuel]; [lia|]. cbn [vp8l_from]. rewrite (proj2 (Z.leb_le (len pre + 8) (len W))) by lia. cbn [negb].
    assert (slice_to (slice_from W (len pre)) 4 = id) as -> by (rewrite EW, slice_from_app, <- Hid; apply slice_to_app).
    assert (le32 W (len pre + 4) = len data) as -> by (rewrite EW, <- Hid, <- len_app, app_assoc; apply le_bytes_read; lia).
    assert (len data <> 0 -> byte_at W (len pre + 8) = byte_at data 0) as Hb.
    { intros Hne. rewrite EW. change 8 with (4 + 4). rewrite <- Hid at 1. rewrite Z.add_assoc, <- len_app, app_assoc. rewrite byte_at_app by done. unfold le_bytes. cbn [app].
      unfold byte_at. change (Z.to_nat 4) with 4%nat. cbn [nth]. destruct data; [done|]. done. }
    cbn [existsb]. unfold lossless at 1. cbn [ckId ckData]. destruct (bool_decide (id = §"VP8L")); [done|]. cbn [orb].
    destruct (bool_decide (id = §"ALPH")) eqn:Eid; cbn [andb].
    + apply bool_decide_eq_true in Eid. assert (len data <> 0) as Hne by (specialize (Ha Eid); destruct data; [done|rewrite len_cons; pose proof (len_nonneg data); lia]).
      rewrite (proj2 (Z.ltb_lt (len pre + 8) (len W))), Hb by (try done; lia). cbn [andb]. destruct (Z.land (byte_at data 0) 3 =? 1); [done|]. cbn [orb].
      apply Hnext. lia.
    + cbn [orb]. apply Hnext. lia.
Qed.

(** ** The scans end *)

Lemma skip_forward b i : 0 <= i -> 0 <= skipSegment b i -> i + 2 <= skipSegment b i.
Proof. intros Hi. unfold skipSegment. destruct (_ <=? _); [done|]. cbv zeta. destruct (Z.ltb_spec (Z.lor (Z.shiftl (byte_at b i) 8) (byte_at b (i + 1))) 2); lia. Qed.
Lemma progressive_ends fuel b i : 0 <= i -> 0 < Z.of_nat fuel -> len b - i < Z.of_nat fuel -> progressive_from fuel b i <> None.
Proof.
  revert i. induction fuel as [|fuel IH]; intros i Hi H0 Hf; [lia|]. cbn [progressive_from]. destruct (Z.ltb_spec (i + 1) (len b)); [|done]. cbn [negb].
  destruct (negb _); [apply IH; lia|]. cbv zeta. destruct (_ =? 0xFF); [apply IH; lia|]. destruct (_ =? 0xC2); [done|]. destruct (_ =? 0xDA); [done|].
  destruct (standalone _); [apply IH; lia|]. destruct (Z.ltb_spec (skipSegment b (i + 2)) 0); [done|]. pose proof (skip_forward b (i + 2) ltac:(lia) ltac:(lia)). apply IH; lia.
Qed.
Lemma rgba_ends fuel b base : 0 <= base -> 0 < Z.of_nat fuel -> len b - base < Z.of_nat fuel -> rgba_from fuel b base <> None.
Proof.
  revert base. induction fuel as [|fuel IH]; intros base Hi H0 Hf; [lia|]. cbn [rgba_from]. cbv zeta. destruct (Z.ltb_spec (Index (slice_from b base) [xff; xee]) 0) as [|Hr]; [done|].
  assert (base < len b) as Hb.
  { destruct (Z.lt_ge_cases base (len b)) as [|Hge]; [done|]. exfalso. assert (slice_from b base = []) as E by (unfold slice_from; apply drop_ge; unfold len in Hge; lia). rewrite E in Hr. done. }
  destruct (_ && _); [done|]. apply IH; lia.
Qed.
Lemma vp8l_ends fuel b off : 0 <= off -> 0 < Z.of_nat fuel -> len b - off < Z.of_nat fuel -> vp8l_from fuel b off <> None.
Proof.
  revert off. induction fuel as [|fuel IH]; intros off Hi H0 Hf; [lia|]. cbn [vp8l_from]. destruct (Z.leb_spec (off + 8) (len b)); [|done]. cbn [negb]. cbv zeta.
  destruct (_ == _); [done|]. destruct (_ && _); [done|].
  assert (0 <= le32 b (off + 4)) by (rewrite le32_value; pose proof (b2z_range (nth (Z.to_nat (off + 4)) b x00)); assert (forall k, 0 <= byte_at b k) as Hk by (intros k; apply b2z_range); pose proof (Hk (off + 4)); pose proof (Hk (off + 4 + 1)); pose proof (Hk (off + 4 + 2)); pose proof (Hk (off + 4 + 3)); lia).
  assert (0 <= Z.land (le32 b (off + 4)) 1) by (apply Z.land_nonneg; by right). apply IH; lia.
Qed.

(** The two scans that decide what a decode may cost read the files as their formats
    define them, and end on any bytes.  The header of a well-formed JPEG file - any
    sequence of fill bytes, stand-alone markers and counted segments up to the scan - is
    progressive exactly when one of its segments is SOF2, whatever bytes that look like
    markers the payloads hold.  A well-formed WebP file is refused exactly when one of
    its chunks is VP8L or an ALPH whose compression is VP8L.  On every other string of
    bytes the scans come to an answer within as many steps as it has bytes. *)
Theorem scanners_exact :
  (forall segs scan, Forall seg_ok segs -> isProgressiveJPEG ([xff; xd8] ++ jpeg_header segs scan) = existsb is_sof2 segs) /\
  (forall size chunks, len size = 4 -> Forall chunk_ok chunks -> webpUsesVP8L (riff size chunks) = existsb lossless chunks) /\
  (forall b, (2 <= len b -> progressive_from (length b) b 2 <> None) /\ (12 <= len b -> vp8l_from (length b) b 12 <> None) /\ rgba_from (S (length b)) b 0 <> None).
Proof.
  split; [|split].
  - intros segs scan Hs. unfold isProgressiveJPEG. assert ((len ([xff; xd8] ++ jpeg_header segs scan) <? 2) = false) as ->.
    { rewrite len_app. change (len [xff; xd8]) with 2. pose proof (len_nonneg (jpeg_header segs scan)). lia. }
    change (byte_at ([xff; xd8] ++ jpeg_header segs scan) 0) with 255. change (byte_at ([xff; xd8] ++ jpeg_header segs scan) 1) with 216. cbn [orb Z.eqb].
    change (negb (255 =? 255)) with false. change (negb (216 =? 216)) with false. cbn [orb].
    change 2 with (len [xff; xd8]) at 1. rewrite progressive_walk; [done|done|]. rewrite length_app. cbn. lia.
  - intros size chunks Hsz Hc. unfold webpUsesVP8L, riff. assert ((len (§"RIFF" ++ size ++ §"WEBP" ++ (chunks ≫= chunk_bytes)) <? 12) = false) as ->.
    { rewrite !len_app, Hsz. change (len §"RIFF") with 4. change (len §"WEBP") with 4. pose proof (len_nonneg (chunks ≫= chunk_bytes)). lia. }
    change (slice_to (§"RIFF" ++ size ++ §"WEBP" ++ (chunks ≫= chunk_bytes)) 4) with §"RIFF".
    assert (slice_from (§"RIFF" ++ size ++ §"WEBP" ++ (chunks ≫= chunk_bytes)) 8 = §"WEBP" ++ (chunks ≫= chunk_bytes)) as ->.
    { rewrite app_assoc. replace 8 with (len (§"RIFF" ++ size)) by (rewrite len_app, Hsz; done). apply slice_from_app. }
    change (slice_to (§"WEBP" ++ (chunks ≫= chunk_bytes)) 4) with §"WEBP". rewrite !bool_decide_eq_true_2 by done. cbn [negb orb].
    rewrite app_assoc, app_assoc. replace 12 with (len ((§"RIFF" ++ size) ++ §"WEBP")) by (rewrite !len_app, Hsz; done). rewrite vp8l_walk; [done|done|]. rewrite !length_app. cbn. lia.
  - intros b. split_and!; intros; [apply progressive_ends|apply vp8l_ends|apply rgba_ends]; unfold len in *; lia.
Qed.

(** ** Runs *)

Definition demo_image : image := MkImage 0 0 1000 500 (fun x y => if x <? 500 then (0xFFFF, 0, 0, 0xFFFF) else (0, 0, 0xFFFF, 0xFFFF)).
Lemma demo_image_ok : image_ok demo_image.
Proof.
  split; [done|]. split; [done|]. intros x y _ i Hi. cbn [At demo_image]. destruct (x <? 500); (destruct i as [|[|[|[|i]]]]; [cbn; lia..|lia]).
Qed.

Lemma downscale_exact_witness :
  Dx (thumbnail demo_image thumbMaxDim) = 400 /\ Dy (thumbnail demo_image thumbMaxDim) = 200 /\ At (thumbnail demo_image thumbMaxDim) 10 10 = (0xFFFF, 0, 0, 0xFFFF) /\
  exists dx dy, covers_px demo_image (thumbnail demo_image thumbMaxDim) dx dy 999 499.
Proof.
  pose proof (downscale_exact demo_image demo_image_ok) as Hd. cbv zeta in Hd.
  change ((Dx demo_image <=? thumbMaxDim) && (Dy demo_image <=? thumbMaxDim)) with false in Hd. cbn iota in Hd. destruct Hd as (H1 & _ & H2 & _ & H3 & _).
  split; [exact (H2 ltac:(done))|]. split; [reflexivity|]. split; [vm_compute; reflexivity|].
  destruct (H3 999 499) as (dx & dy & _ & Hc & _); [split; cbn; lia|]. by exists dx, dy.
Defined.

#[local] Existing Instance ascii_unicode.
(** Every body is a 10 by 10 PNG image. *)
#[local] Instance demo_imaging : Imaging := {|
  DecodeConfig _ := Some (10, 10, RGBAModel, §"png"); Decode _ := Some demo_image; EncodePNG _ := Some §"png"; EncodeJPEG _ := Some §"jpeg";
  Opaque _ := true; DetectContentType _ := §"image/png" |}.
(** A parser that refuses control characters. *)
#[local] Instance demo_url' : NetUrl := {| url_Parse s := if ContainsByte s x00 then None else demo_parse s; url_String u := Scheme u ++ §"://" ++ Host u |}.
#[local] Instance demo_url_laws' : NetUrlLaws (Hurl := demo_url').
Proof.
  split; [intros u Hu; cbn; by destruct (Scheme u)|]. intros s u u' Hs Hu. cbn [url_Parse url_String demo_url'] in *.
  destruct (ContainsByte s x00); [done|]. destruct (ContainsByte _ x00) in Hu; [done|]. exact (@url_reparse demo_url demo_url_laws s u u' Hs Hu).
Qed.

Definition demo_thumb (now : Z) : thumbReq (H := unit) :=
  MkThumbReq (Some (§"http://a.example", §"net")) true true true true now now now true (demo_nets §"direct") demo_world.
Definition demo_order (m : gmap gostring (ttlEntry (V := thumbResult))) : list gostring := (map_to_list m).*1.

Lemma thumbs_justified_witness :
  let '(l, _) := thumb_run (decode_egress := demo_egress) demo_order [demo_thumb 0; demo_thumb 5] (newTTLCache thumbTTL maxThumbCache) newPools in
  (fun x => x.1.2) <$> l = [ThServed (MkThumb §"image/jpeg" §"jpeg"); ThServed (MkThumb §"image/jpeg" §"jpeg")] /\
  forall evs, l !! 1%nat = Some (demo_thumb 5, ThServed (MkThumb §"image/jpeg" §"jpeg"), evs) ->
    served_ok (decode_egress := demo_egress) [demo_thumb 0] (demo_thumb 5) (MkThumb §"image/jpeg" §"jpeg").
Proof.
  assert (forall s u, url_Parse s = Some u -> x00 ∉ s) as Hplain.
  { intros s u. cbn. destruct (ContainsByte s x00) eqn:E; [done|]. intros _ Hs. apply ContainsByte_spec in Hs. congruence. }
  assert (Forall (fun rq => names_plain (tqStore rq)) [demo_thumb 0; demo_thumb 5]) as Hn.
  { repeat constructor; intros name r Hr; cbn in Hr; apply lookup_singleton_Some in Hr as [<- _]; vm_compute; reflexivity. }
  pose proof (thumbs_justified (decode_egress := demo_egress) demo_order (fun m => reflexivity _) Hplain [demo_thumb 0; demo_thumb 5] Hn) as Ht.
  assert (let '(l, _) := thumb_run (decode_egress := demo_egress) demo_order [demo_thumb 0; demo_thumb 5] (newTTLCache thumbTTL maxThumbCache) newPools in
    (fun x => x.1.2) <$> l = [ThServed (MkThumb §"image/jpeg" §"jpeg"); ThServed (MkThumb §"image/jpeg" §"jpeg")]) as Hr by (vm_compute; reflexivity).
  destruct (thumb_run demo_order [demo_thumb 0; demo_thumb 5] (newTTLCache thumbTTL maxThumbCache) newPools) as [l s]. split; [exact Hr|].
  intros evs Hl. exact (proj1 (Ht 1%nat _ _ _ Hl)).
Defined.

(** A payload with the bytes of SOF2 in it, and a header that has SOF2. *)
Definition demo_segments (last : segment) : list segment := [Block xe0 [xff; xc2]; Fill; Alone xd0; last].
Definition demo_chunks (last : chunk) : list chunk := [MkChunk §"VP8 " §"VP8L?"; MkChunk §"ALPH" [x00; x01]; last].

Lemma demo_segments_ok m : m <> xff -> m <> xda -> standalone (b2z m) = false -> Forall seg_ok (demo_segments (Block m [x08])).
Proof. intros H1 H2 H3. by repeat constructor. Qed.

Lemma scanners_exact_witness :
  isProgressiveJPEG ([xff; xd8] ++ jpeg_header (demo_segments (Block xc2 [x08])) [x01]) = true /\
  isProgressiveJPEG ([xff; xd8] ++ jpeg_header (demo_segments (Block xc0 [x08])) [x01]) = false /\
  webpUsesVP8L (riff §"size" (demo_chunks (MkChunk §"ALPH" [x01]))) = true /\ webpUsesVP8L (riff §"size" (demo_chunks (MkChunk §"EXIF" []))) = false.
Proof.
  destruct scanners_exact as (H1 & H2 & _). split; [|split; [|split]].
  - rewrite H1; [reflexivity|by apply demo_segments_ok].
  - rewrite H1; [reflexivity|by apply demo_segments_ok].
  - rewrite H2; [reflexivity|reflexivity|by repeat constructor].
  - rewrite H2; [reflexivity|reflexivity|by repeat constructor].
Defined.
