(* ===== verification/WebPush.v ===== *)
(** * Web Push: internal/webpush, the registration of internal/api/push.go and the key of
    internal/hub/push.go

    The encryption of a push message (RFC 8291), the VAPID token of a push service
    (RFC 8292), the request that carries both, and what is accepted as a subscription.
    P-256, AES-GCM and PKCS #8 are classes with the laws relied on; HKDF is written out
    over HMAC-SHA-256. *)

From S2P Require Import Prelude GoStrings GoUtf8 GoNet GoBase64 GoJson GoIP NetGuard ProxyDial Sasl Policy Push Media.

(** ** The cryptography of the standard library *)

Class P256 := {
  PrivateKey : Type;
  PublicBytes : PrivateKey -> gostring;               (** the uncompressed point *)
  NewPublicKey : gostring -> bool;                    (** is it a point of the curve *)
  ECDH : PrivateKey -> gostring -> option gostring;
  Sign : PrivateKey -> gostring -> Z -> Z * Z;        (** of a digest, with the randomness *)
  Verify : gostring -> gostring -> Z * Z -> bool
}.
Class P256Laws `{P256} : Prop := {
  public_point k : NewPublicKey (PublicBytes k) = true;
  point_form p : NewPublicKey p = true -> exists q, p = x04 :: q /\ length q = 64%nat;
  ecdh_defined k p : NewPublicKey p = true -> is_Some (ECDH k p);
  ecdh_agrees a b : ECDH a (PublicBytes b) = ECDH b (PublicBytes a);
  verify_sign k d rnd : Verify (PublicBytes k) d (Sign k d rnd) = true;
  sign_range k d rnd : 0 <= (Sign k d rnd).1 < 2 ^ 256 /\ 0 <= (Sign k d rnd).2 < 2 ^ 256
}.

Class AesGcm := { gcm_Seal : gostring -> gostring -> gostring -> gostring; gcm_Open : gostring -> gostring -> gostring -> option gostring }.
Class AesGcmLaws `{AesGcm} : Prop := {
  open_seal k n p : gcm_Open k n (gcm_Seal k n p) = Some p;
  seal_size k n p : len (gcm_Seal k n p) = len p + 16
}.

Class Pkcs8 `{P256} := { MarshalPKCS8 : PrivateKey -> gostring; ParsePKCS8 : gostring -> option PrivateKey }.
Class Pkcs8Laws `{Pkcs8} : Prop := { parse_marshal k : ParsePKCS8 (MarshalPKCS8 k) = Some k; marshal_bytes k : MarshalPKCS8 k <> [] }.

(** crypto/hkdf with SHA-256 (RFC 5869). *)
Section hkdf.
Context `{ScramCrypto}.
Definition hkdf_Extract (secret salt : gostring) : gostring := scramHMAC salt secret.
Fixpoint hkdf_blocks (k : nat) (prk info prev : gostring) (i : Z) : gostring :=
  match k with
  | O => []
  | S k => let t := scramHMAC prk (prev ++ info ++ [low_byte i]) in t ++ hkdf_blocks k prk info t (i + 1)
  end.
Definition hkdf_Expand (prk info : gostring) (n : nat) : gostring := take n (hkdf_blocks ((n + 31) / 32) prk info [] 1).
End hkdf.

(** ** base64.RawURLEncoding and URLEncoding *)

Definition url_char (c : byte) : byte := match c with x2b => x2d | x2f => x5f | _ => c end.
Definition std_char (c : byte) : byte := match c with x2d => x2b | x5f => x2f | _ => c end.
Definition urlEncode (s : gostring) : gostring := url_char <$> EncodeToString s.
Definition rawURLEncode (s : gostring) : gostring := List.filter (fun c => negb (c == padChar)) (urlEncode s).
Definition urlDecode (s : gostring) : option gostring :=
  let s := List.filter (fun c => negb (is_crlf c)) s in
  if ContainsByte s x2b || ContainsByte s x2f then None else DecodeString (std_char <$> s).

(** ** encrypt.go *)

Definition saltLen : Z := 16.
Definition authLen : Z := 16.
Definition keyLen : Z := 65.

Section webpush.
Context `{Hsha : ScramCrypto, Hec : P256, Hgcm : AesGcm}.

(** [BadKeys] is [ErrBadKeys], which the caller tells from the other errors. *)
Definition encrypt (plaintext p256dh auth : gostring) (asPriv : PrivateKey) (salt : gostring) : encrypted :=
  if MaxPlaintext <? len plaintext then EncryptFailed
  else if negb (len auth =? authLen) then BadKeys
  else if negb (NewPublicKey p256dh) then BadKeys
  else match ECDH asPriv p256dh with
  | None => EncryptFailed
  | Some ecdhSecret =>
      let asPub := PublicBytes asPriv in
      let keyInfo := §"WebPush: info" ++ [x00] ++ p256dh ++ asPub in
      let prkKey := hkdf_Extract ecdhSecret auth in
      let ikm := hkdf_Expand prkKey keyInfo 32 in
      let prk := hkdf_Extract ikm salt in
      let cek := hkdf_Expand prk (§"Content-Encoding: aes128gcm" ++ [x00]) 16 in
      let nonce := hkdf_Expand prk (§"Content-Encoding: nonce" ++ [x00]) 12 in
      let body := salt ++ be 4 4096 ++ [low_byte keyLen] ++ asPub in
      Body (body ++ gcm_Seal cek nonce (plaintext ++ [x02]))
  end.

(** [random]: the ephemeral key and the salt, when the source of randomness works. *)
Definition Encrypt (plaintext p256dh auth : gostring) (random : option (PrivateKey * gostring)) : encrypted :=
  match random with None => EncryptFailed | Some (asPriv, salt) => encrypt plaintext p256dh auth asPriv salt end.

(** ** RFC 8188 and RFC 8291: what a browser reads *)

Fixpoint drop_zeros (s : gostring) : gostring := match s with x00 :: s => drop_zeros s | _ => s end.
Definition unpad (s : gostring) : option gostring :=
  match drop_zeros (reverse s) with x02 :: r => Some (reverse r) | _ => None end.

Definition receive (ua : PrivateKey) (auth body : gostring) : option gostring :=
  let salt := take 16 body in
  let rs := big (take 4 (drop 16 body)) 0 in
  let idlen := Z.to_nat (b2z (at_ body 20)) in
  let keyid := take idlen (drop 21 body) in
  let record := drop (21 + idlen) body in
  if (length body <? 21 + idlen)%nat || (rs <? 18) || (rs <? len record) then None
  else match ECDH ua keyid with
  | None => None
  | Some secret =>
      let prk_key := scramHMAC auth secret in
      let ikm := scramHMAC prk_key (§"WebPush: info" ++ [x00] ++ PublicBytes ua ++ keyid ++ [x01]) in
      let prk := scramHMAC salt ikm in
      let cek := take 16 (scramHMAC prk (§"Content-Encoding: aes128gcm" ++ [x00; x01])) in
      let nonce := take 12 (scramHMAC prk (§"Content-Encoding: nonce" ++ [x00; x01])) in
      gcm_Open cek nonce record ≫= unpad
  end.

(** ** The registration of a subscription: handlePushSubscribe *)

Context `{Huni : Unicode, Hurl : NetUrl}.

Definition ValidateEndpoint (raw : gostring) : bool :=
  match url_Parse raw with
  | None => false
  | Some u =>
      if Scheme u != §"https" then false
      else if Hostname u == [] then false
      else if (if Port u != [] then let '(n, ok) := Atoi (Port u) in negb ok || (n <? 1) || (65535 <? n) else false) then false
      else if bool_decide (is_Some (User u)) then false
      else HostAllowed (Hostname u)
  end.

Definition decodeKey (s : gostring) (wantLen : Z) : option gostring :=
  match (match rawURLDecode s with Some b => Some b | None => urlDecode s end) with
  | None => None
  | Some b => if len b =? wantLen then Some b else None
  end.

(** The body of the request, once encoding/json has read it. *)
Record pushSubscribeBody := MkSubscribe { sbEndpoint : gostring; sbP256dh : gostring; sbAuth : gostring }.

(** The checks before the session is looked at again: the refusal, or the row stored. *)
Definition subscribe_row (body : option pushSubscribeBody) : gostring + PushSubscription :=
  match body with
  | None => inl §"malformed subscription"
  | Some b =>
      if negb (ValidateEndpoint (sbEndpoint b)) then inl §"bad endpoint"
      else match decodeKey (sbP256dh b) 65 with
      | None => inl §"bad p256dh key"
      | Some p256dh =>
          if at_ p256dh 0 != x04 then inl §"bad p256dh key"
          else match decodeKey (sbAuth b) 16 with
          | None => inl §"bad auth secret"
          | Some auth => inr (MkSubscription (sbEndpoint b) (rawURLEncode p256dh) (rawURLEncode auth))
          end
      end
  end.

(** ** vapid.go *)

Definition Hour : Z := 60 * Minute.
Definition vapidTokenTTL : Z := 12 * Hour.
Definition PublicKeyB64 (priv : PrivateKey) : gostring := rawURLEncode (PublicBytes priv).

Definition jwt_header : gostring := jsonObject [json_field §"typ" (jsonString §"JWT"); json_field §"alg" (jsonString §"ES256")].
Definition jwt_claims (aud : gostring) (exp : Z) (sub : gostring) : gostring :=
  jsonObject ([json_field §"aud" (jsonString aud); json_field §"exp" (Itoa exp)] ++ json_omit (sub == []) (json_field §"sub" (jsonString sub))).

(** [rnd]: what the signature takes from the source of randomness, when it works. *)
Definition vapidAuth (priv : PrivateKey) (origin subject : gostring) (now : Z) (rnd : option Z) : option gostring :=
  let claims := jwt_claims origin ((now + vapidTokenTTL) / Second) subject in
  let signing := rawURLEncode jwt_header ++ §"." ++ rawURLEncode claims in
  match Sign priv (sha256_Sum256 signing) <$> rnd with
  | None => None
  | Some (r, s) => Some (§"vapid t=" ++ signing ++ §"." ++ rawURLEncode (be 32 r ++ be 32 s) ++ §", k=" ++ PublicKeyB64 priv)
  end.

(** What a push service makes of the header (RFC 7515, RFC 8292): the claims and the key,
    when the signature is good. *)
Definition vapid_check (header : gostring) : option (gostring * gostring) :=
  match CutPrefix header §"vapid t=" with
  | None => None
  | Some rest =>
      let '(t, k, _) := Cut rest x2c in
      match CutPrefix k §" k=", Split t x2e with
      | Some k, [h; c; s] =>
          match rawURLDecode h, rawURLDecode c, rawURLDecode s, rawURLDecode k with
          | Some h', Some c', Some s', Some k' =>
              if (h' == jwt_header) && (len s' =? 64) &&
                 Verify k' (sha256_Sum256 (h ++ §"." ++ c)) (big (take 32 s') 0, big (drop 32 s') 0)
              then Some (c', k') else None
          | _, _, _, _ => None
          end
      | _, _ => None
      end
  end.

(** ** send.go *)

Definition maxCachedOrigins : Z := 32.
Record Sender := MkSender { sdKey : PrivateKey; sdSubject : gostring; sdTokens : gmap gostring (gostring * Z) }.
Definition NewSender (key : PrivateKey) (subject : gostring) : Sender := MkSender key subject ∅.

Definition origin_of (u : URL) : gostring :=
  let host := ToLower (Hostname u) in
  let host := if ContainsByte host x3a then §"[" ++ host ++ §"]" else host in
  let host :=
    if (Port u != []) && negb ((Port u == §"443") && (Scheme u == §"https")) && negb ((Port u == §"80") && (Scheme u == §"http"))
    then host ++ §":" ++ Port u else host in
  Scheme u ++ §"://" ++ host.

Definition auth (endpoint : gostring) (now : Z) (rnd : option Z) (s : Sender) : option (gostring * Sender) :=
  match url_Parse endpoint with
  | None => None
  | Some u =>
      let origin := origin_of u in
      let sign :=
        match vapidAuth (sdKey s) origin (sdSubject s) now rnd with
        | None => None
        | Some header =>
            let tokens := if maxCachedOrigins <=? Z.of_nat (size (sdTokens s)) then ∅ else sdTokens s in
            Some (header, MkSender (sdKey s) (sdSubject s) (<[origin := (header, now + (vapidTokenTTL - Hour))]> tokens))
        end in
      match sdTokens s !! origin with
      | Some (header, refresh) => if now <? refresh then Some (header, s) else sign
      | None => sign
      end
  end.

(** What a delivery does outside: the connections it tries, and its one request. *)
Inductive sendEvent := Dialed (ev : netEvent) | Posted (u : URL) (headers : list (gostring * gostring)) (body : gostring).

(** The client of [NewSender]: no proxy, and the check of the resolved address. *)
Definition sendFetcher : fetcher := MkFetcher 0 false false EgDirect.

Definition Send (w : Media.World) (endpoint body : gostring) (ttl now : Z) (rnd : option Z) (s : Sender) : sent * list sendEvent * Sender :=
  if negb (ValidateEndpoint endpoint) then (SentFailed, [], s)
  else match auth endpoint now rnd s, url_Parse endpoint with
  | Some (header, s), Some u =>
      let '(evs, err) := dialContext w sendFetcher u in
      match err with
      | Some _ => (SentFailed, Dialed <$> evs, s)
      | None =>
          let req := Posted u [(§"TTL", Itoa ttl); (§"Urgency", §"high"); (§"Content-Encoding", §"aes128gcm");
                               (§"Content-Type", §"application/octet-stream"); (§"Authorization", header)] body in
          (match answers_of w 0 u with
           | Final status _ _ _ =>
               if (200 <=? status) && (status <? 300) then SentOk
               else if (status =? 404) || (status =? 410) then SentGone else SentFailed
           | _ => SentFailed  (* [CheckRedirect] refuses every redirect *)
           end, (Dialed <$> evs) ++ [req], s)
      end
  | _, _ => (SentFailed, [], s)
  end.

(** Deliveries one after another; the clock is read before the lock of the tokens is
    taken, so its readings need not come in order. *)
Record sendReq := MkSend { sqWorld : Media.World; sqEndpoint : gostring; sqBody : gostring; sqTTL : Z; sqNow : Z; sqRnd : option Z }.
Fixpoint send_run (rqs : list sendReq) (s : Sender) : list (sendReq * sent * list sendEvent) * Sender :=
  match rqs with
  | [] => ([], s)
  | rq :: rqs =>
      let '(r, evs, s) := Send (sqWorld rq) (sqEndpoint rq) (sqBody rq) (sqTTL rq) (sqNow rq) (sqRnd rq) s in
      let '(l, s) := send_run rqs s in
      ((rq, r, evs) :: l, s)
  end.

(** ** The key of the server: internal/hub/push.go *)

Context `{Hpkcs : !Pkcs8}.

Definition MarshalKey (priv : PrivateKey) : gostring := EncodeToString (MarshalPKCS8 priv).
Definition ParseKey (s : gostring) : option PrivateKey := DecodeString s ≫= ParsePKCS8.

Definition pushSubject : gostring := §"https://github.com/AlteredParadox/ircthing".
Definition vapidKeyKey : gostring := §"webpush_vapid_key".

(** The rows it reads and writes, and the epoch of deliveries. *)
Record KeyStore := MkKeyStore { ksRows : settings; ksSubs : list PushSubscription; ksEpoch : Z }.

(** [None] is an error, which stops the start; the writes are one transaction. *)
Definition loadOrCreateVapidKey (readOk : bool) (generated : option PrivateKey) (writeOk : bool) (s : KeyStore) : option PrivateKey * KeyStore :=
  if negb readOk then (None, s)
  else
    let stored := default [] (ksRows s !! vapidKeyKey) in
    match (if stored != [] then ParseKey stored else None) with
    | Some priv => (Some priv, s)
    | None =>
        match generated with
        | None => (None, s)
        | Some priv =>
            if negb writeOk then (None, s)
            else (Some priv, MkKeyStore (<[vapidKeyKey := MarshalKey priv]> (ksRows s)) [] (ksEpoch s + 1))
        end
    end.

End webpush.

(** ** base64 *)

Definition plain64 (c : byte) : bool := b64char c && (c != padChar).

Lemma enc6_plain v : 0 <= v < 64 -> plain64 (enc6 v) = true.
Proof.
  intros Hv. unfold plain64. rewrite enc6_char by done. cbn [andb]. destruct (bool_decide_reflect (enc6 v = padChar)) as [E|]; [|done].
  pose proof (dec6_enc6 v Hv) as Hd. rewrite E, dec6_pad in Hd. lia.
Qed.

(** An encoding is its characters and then the padding. *)
Lemma encode_shape s : exists b k, EncodeToString s = b ++ repeat padChar k /\ Forall (fun c => plain64 c = true) b /\ k = ((4 - length b mod 4) mod 4)%nat.
Proof.
  induction s as [|x|x y|x y z s (b & k & E & Hb & Hk)] using list_ind3; cbn [EncodeToString].
  - exists [], 0%nat. done.
  - eexists [_; _], 2%nat. split; [done|]. split; [|done]. repeat constructor; apply enc6_plain; sextet.
  - eexists [_; _; _], 1%nat. split; [done|]. split; [|done]. repeat constructor; apply enc6_plain; sextet.
  - rewrite E. eexists (_ :: _ :: _ :: _ :: b), k. split; [done|]. split; [repeat (constructor; [apply enc6_plain; sextet|]); done|].
    rewrite Hk. cbn [length]. change (S (S (S (S (length b))))) with (4 + length b)%nat.
    rewrite <- (Nat.Div0.add_mod_idemp_l 4). done.
Qed.

Lemma std_url c : plain64 c = true ->
  std_char (url_char c) = c /\ is_crlf (url_char c) = false /\ url_char c <> x2b /\ url_char c <> x2f /\ url_char c <> padChar /\ url_char c <> x2c /\ url_char c <> x2e.
Proof.
  intros Hc.
  pose proof (byte_forall (fun c => negb (plain64 c) || ((std_char (url_char c) == c) && negb (is_crlf (url_char c)) && (url_char c != x2b) && (url_char c != x2f)
    && (url_char c != padChar) && (url_char c != x2c) && (url_char c != x2e))) ltac:(by vm_compute) c) as H.
  cbv beta in H. rewrite Hc in H. cbn [negb orb] in H. rewrite !andb_true_iff, !negb_true_iff, !bool_decide_eq_false, bool_decide_eq_true in H. tauto.
Qed.

Lemma filter_id {A} (f : A -> bool) l : Forall (fun x => f x = true) l -> List.filter f l = l.
Proof. induction 1 as [|x l Hx _ IH]; cbn; [done|]. by rewrite Hx, IH. Qed.

Lemma filter_none {A} (f : A -> bool) l : Forall (fun x => f x = false) l -> List.filter f l = [].
Proof. induction 1 as [|x l Hx _ IH]; cbn; [done|]. by rewrite Hx. Qed.

Lemma url_pads k : url_char <$> repeat padChar k = repeat padChar k /\ std_char <$> repeat padChar k = repeat padChar k.
Proof. induction k as [|k [IH1 IH2]]; [done|]. by cbn; rewrite IH1, IH2. Qed.

(** What an encoding and its raw form are, over the same characters. *)
Lemma url_shape s : exists b k, urlEncode s = b ++ repeat padChar k /\ rawURLEncode s = b /\
  EncodeToString s = (std_char <$> b) ++ repeat padChar k /\ k = ((4 - length b mod 4) mod 4)%nat /\
  Forall (fun c => is_crlf c = false /\ c <> x2b /\ c <> x2f /\ c <> padChar /\ c <> x2c /\ c <> x2e) b.
Proof.
  destruct (encode_shape s) as (b & k & E & Hb & Hk). exists (url_char <$> b), k.
  assert (urlEncode s = (url_char <$> b) ++ repeat padChar k) as Eu by (unfold urlEncode; by rewrite E, fmap_app, (proj1 (url_pads k))).
  split_and!; [done| | |by rewrite length_fmap|].
  - unfold rawURLEncode. rewrite Eu, List.filter_app, filter_id, filter_none, app_nil_r; [done| |].
    + apply Forall_forall. intros c Hc%list_elem_of_In%repeat_spec. by subst.
    + apply Forall_fmap. eapply Forall_impl; [done|]. intros c (_ & _ & _ & _ & Hp & _)%std_url. cbn. by rewrite bool_decide_eq_false_2.
  - rewrite <- list_fmap_compose, E. f_equal. symmetry. rewrite <- (list_fmap_id b) at 2. apply Forall_fmap_ext_1. eapply Forall_impl; [done|].
    intros c Hc. by apply std_url in Hc as [? _].
  - apply Forall_fmap. eapply Forall_impl; [done|]. intros c (_ & ?)%std_url. done.
Qed.

Lemma raw_url_roundtrip s : rawURLDecode (rawURLEncode s) = Some s.
Proof.
  destruct (url_shape s) as (b & k & _ & -> & E & Hk & Hb). unfold rawURLDecode.
  rewrite filter_id by (eapply Forall_impl; [done|]; intros c [-> _]; done).
  assert (forall d, d ∈ [x2b; x2f; padChar] -> ContainsByte b d = false) as Hn.
  { intros d Hd. apply not_true_iff_false. rewrite ContainsByte_spec. rewrite Forall_forall in Hb. intros Hin%Hb. set_solver. }
  rewrite !Hn by set_solver. cbn [orb]. change (DecodeString ((std_char <$> b) ++ repeat padChar ((4 - length b mod 4) mod 4)) = Some s).
  rewrite <- Hk, <- E. apply base64_roundtrip.
Qed.

Lemma url_roundtrip s : urlDecode (urlEncode s) = Some s.
Proof.
  destruct (url_shape s) as (b & k & -> & _ & E & Hk & Hb). unfold urlDecode.
  assert (Forall (fun c => is_crlf c = false /\ c <> x2b /\ c <> x2f) (b ++ repeat padChar k)) as Ha.
  { apply Forall_app. split; [eapply Forall_impl; [done|]; cbv beta; intros c Hc; by destruct_and! Hc|]. apply Forall_forall. intros c Hc%list_elem_of_In%repeat_spec. by subst. }
  rewrite filter_id by (eapply Forall_impl; [done|]; intros c [-> _]; done).
  assert (forall d, d ∈ [x2b; x2f] -> ContainsByte (b ++ repeat padChar k) d = false) as Hn.
  { intros d Hd. apply not_true_iff_false. rewrite ContainsByte_spec. rewrite Forall_forall in Ha. intros Hin%Ha. set_solver. }
  rewrite !Hn by set_solver. cbn [orb]. rewrite fmap_app, (proj2 (url_pads k)), <- E. apply base64_roundtrip.
Qed.

(** A key is read back from either encoding. *)
Lemma decodeKey_encoded t s : t = rawURLEncode s \/ t = urlEncode s -> decodeKey t (len s) = Some s.
Proof.
  assert (decodeKey (rawURLEncode s) (len s) = Some s) as Hr by (unfold decodeKey; by rewrite raw_url_roundtrip, Z.eqb_refl).
  intros [H0|H0]; rewrite H0; [done|]. destruct (url_shape s) as (b & k & E & Er & _). destruct k as [|k].
  - rewrite E, app_nil_r, <- Er. done.
  - unfold decodeKey. destruct (rawURLDecode (urlEncode s)) as [x|] eqn:Ed; [|by rewrite url_roundtrip, Z.eqb_refl]. exfalso.
    unfold rawURLDecode in Ed. rewrite E in Ed. destruct (ContainsByte _ x2b || _ || _) eqn:Ec; [done|]. apply orb_false_iff in Ec as [_ Ec].
    apply not_true_iff_false in Ec. apply Ec. apply ContainsByte_spec. rewrite List.filter_app, elem_of_app. right. cbn. left.
Qed.

(** ** A message is read where it was sent *)

Section crypto.
Context `{Hsha : ScramCrypto, Hshal : !ScramCryptoLaws, Hec : P256, Hecl : !P256Laws, Hgcm : AesGcm, Hgcml : !AesGcmLaws}.

Lemma hkdf_one prk info n : (1 <= n <= 32)%nat -> hkdf_Expand prk info n = take n (scramHMAC prk (info ++ [x01])).
Proof.
  intros Hn. unfold hkdf_Expand. replace ((n + 31) / 32)%nat with 1%nat by (apply Nat.div_unique with (n - 1)%nat; lia).
  cbn [hkdf_blocks app]. change (low_byte 1) with x01. by rewrite app_nil_r.
Qed.

Lemma unpad_delimited p : unpad (p ++ [x02]) = Some p.
Proof. unfold unpad. rewrite reverse_app. change (reverse [x02]) with [x02]. cbn [app drop_zeros]. by rewrite reverse_involutive. Qed.

Lemma point_len k : length (PublicBytes k) = 65%nat.
Proof. destruct (point_form _ (public_point k)) as (q & -> & Hq). cbn. by rewrite Hq. Qed.

(** The parts of a body, cut where a browser cuts them. *)
Lemma body_parts salt (pub record : gostring) : length salt = 16%nat -> length pub = 65%nat ->
  let body := (salt ++ be 4 4096 ++ [low_byte keyLen] ++ pub) ++ record in
  take 16 body = salt /\ big (take 4 (drop 16 body)) 0 = 4096 /\ Z.to_nat (b2z (at_ body 20)) = 65%nat /\
  take 65 (drop 21 body) = pub /\ drop (21 + 65) body = record /\ (length body <? 21 + 65)%nat = false.
Proof.
  intros Hs Hp. cbv zeta.
  assert (forall k l, drop (16 + k) ((salt ++ l) ++ record) = drop k (l ++ record)) as Hd.
  { intros k l. by rewrite <- app_assoc, <- drop_drop, drop_app_length' by done. }
  split_and!.
  - by rewrite <- app_assoc, take_app_length'.
  - rewrite (Hd 0%nat). by vm_compute.
  - unfold at_. rewrite <- app_assoc, app_nth2, Hs by lia. done.
  - rewrite (Hd 5%nat). change (drop 5 ((be 4 4096 ++ [low_byte keyLen] ++ pub) ++ record)) with (pub ++ record). by rewrite take_app_length'.
  - rewrite (Hd 70%nat). change (be 4 4096 ++ [low_byte keyLen] ++ pub) with ([x00; x00; x10; x00; x41] ++ pub).
    by rewrite drop_app_length' by (rewrite length_app, Hp; done).
  - apply Nat.ltb_ge. rewrite !length_app. cbn. lia.
Qed.

Lemma encrypt_receive ua auth plaintext asPriv salt : len auth = 16 -> length salt = 16%nat -> len plaintext <= MaxPlaintext ->
  exists b, encrypt plaintext (PublicBytes ua) auth asPriv salt = Body b /\ receive ua auth b = Some plaintext /\ len b = len plaintext + 103.
Proof.
  intros Ha Hs Hp. unfold encrypt. destruct (Z.ltb_spec MaxPlaintext (len plaintext)); [lia|]. rewrite Ha, public_point. cbn [Z.eqb negb].
  change (16 =? authLen) with true. cbn [negb]. destruct (ecdh_defined asPriv _ (public_point ua)) as [secret Es]. rewrite Es.
  eexists. split; [done|]. unfold hkdf_Extract. rewrite !hkdf_one by lia.
  match goal with |- receive _ _ (_ ++ ?r) = _ /\ _ => pose proof (body_parts salt (PublicBytes asPriv) r Hs (point_len asPriv)) as Hb; assert (len r = len plaintext + 17) as Hr end.
  { rewrite seal_size, len_app. change (len [x02]) with 1. lia. }
  cbv zeta in Hb. destruct Hb as (H1 & H2 & H3 & H4 & H5 & H6). split.
  - unfold receive. rewrite H3, H1, H2, H4, H5, H6, ecdh_agrees, Es, Hr. destruct (Z.ltb_spec 4096 (len plaintext + 17)) as [Hl|]; [unfold MaxPlaintext in *; lia|].
    cbn [orb Z.ltb Z.compare]. rewrite (take_ge (scramHMAC _ _) 32) by (by rewrite hmac_size). rewrite <- !app_assoc. cbn [app].
    rewrite open_seal. cbn. apply unpad_delimited.
  - rewrite !len_app, Hr. unfold len. rewrite Hs, point_len. cbn [length be app]. lia.
Qed.
End crypto.

Section contract.
Context `{Hsha : ScramCrypto, Hshal : !ScramCryptoLaws, Hec : P256, Hecl : !P256Laws, Hgcm : AesGcm, Hgcml : !AesGcmLaws}.
Context `{Huni : Unicode, Hurl : NetUrl, Hpkcs : !Pkcs8, Hpkcsl : !Pkcs8Laws}.

(** [BadKeys] is the fault of the keys alone. *)
Lemma bad_keys plaintext p256dh auth asPriv salt : len auth = 16 ->
  encrypt plaintext p256dh auth asPriv salt = BadKeys <-> len plaintext <= MaxPlaintext /\ NewPublicKey p256dh = false.
Proof.
  intros Ha. unfold encrypt. rewrite Ha. change (16 =? authLen) with true. cbn [negb].
  destruct (Z.ltb_spec MaxPlaintext (len plaintext)); [split; [done|lia]|]. destruct (NewPublicKey p256dh) eqn:E; cbn [negb]; [|tauto].
  destruct (ecdh_defined asPriv _ E) as [secret ->]. split; [done|by intros [_ ?]].
Qed.

Lemma subscribe_stored b row : subscribe_row b = inr row ->
  ValidateEndpoint (Endpoint row) = true /\ exists p a, rawURLDecode (P256dh row) = Some p /\ rawURLDecode (Auth row) = Some a /\
  len p = 65 /\ at_ p 0 = x04 /\ len a = 16.
Proof.
  unfold subscribe_row. destruct b as [b|]; [|done]. destruct (ValidateEndpoint _) eqn:Ev; [|done]. cbn [negb].
  assert (forall s n k, decodeKey s n = Some k -> len k = n) as Hd.
  { intros s n k. unfold decodeKey. destruct (match rawURLDecode s with Some b => Some b | None => urlDecode s end) as [k'|]; [|done].
    destruct (Z.eqb_spec (len k') n); [by intros [= <-]|done]. }
  destruct (decodeKey (sbP256dh b) 65) as [p|] eqn:Ep; [|done]. destruct (bool_decide_reflect (at_ p 0 = x04)) as [E4|]; [|done]. cbn [negb].
  destruct (decodeKey (sbAuth b) 16) as [a|] eqn:Ea; [|done]. intros [= <-]. cbn. rewrite !raw_url_roundtrip. eauto 10.
Qed.

(** C5. A push is readable where it was registered, and only keys that are no keys are
    dropped as bad.  A browser that registers an acceptable endpoint with its public key
    and its secret, in either form of base64, has a row stored.  Whatever the scheduler
    delivers to that row within the limit is encrypted for exactly these keys, is sent in
    a body of at most 4096 bytes, and a receiver that follows RFC 8188 and RFC 8291 with
    the private key reads the payload; a payload above the limit is not sent, and does not
    drop the row.  Every row that a registration stores decodes, and its encryption fails
    as the row's fault exactly when the stored point is not on the curve. *)
Theorem push_readable endpoint ua auth p256dhText authText :
  ValidateEndpoint endpoint = true -> len auth = 16 ->
  p256dhText = rawURLEncode (PublicBytes ua) \/ p256dhText = urlEncode (PublicBytes ua) ->
  authText = rawURLEncode auth \/ authText = urlEncode auth ->
  exists row, subscribe_row (Some (MkSubscribe endpoint p256dhText authText)) = inr row /\
  (forall gen payload epoch asPriv salt, length salt = 16%nat ->
    exists next, pushToSubscription gen row payload epoch = Do (Push.Encrypt payload (PublicBytes ua) auth) next /\
    if MaxPlaintext <? len payload then next (encrypt payload (PublicBytes ua) auth asPriv salt) = Ret tt
    else exists body next', next (encrypt payload (PublicBytes ua) auth asPriv salt) = Do (Push.Send gen endpoint (PublicBytes ua) auth body) next' /\
      receive ua auth body = Some payload /\ len body <= 4096) /\
  (forall b row', subscribe_row b = inr row' ->
    ValidateEndpoint (Endpoint row') = true /\ exists p a, rawURLDecode (P256dh row') = Some p /\ rawURLDecode (Auth row') = Some a /\
    forall plaintext asPriv salt, encrypt plaintext p a asPriv salt = BadKeys <-> len plaintext <= MaxPlaintext /\ NewPublicKey p = false).
Proof.
  intros He Ha Hp Hau. pose proof (decodeKey_encoded _ _ Hp) as Dp. pose proof (decodeKey_encoded _ _ Hau) as Da.
  replace (len (PublicBytes ua)) with 65 in Dp by (unfold len; by rewrite point_len). rewrite Ha in Da.
  assert (at_ (PublicBytes ua) 0 = x04) as H4 by (destruct (point_form _ (public_point ua)) as (q & -> & _); done).
  eexists. split; [unfold subscribe_row; cbn [sbEndpoint sbP256dh sbAuth]; by rewrite He, Dp, H4, Da|]. split.
  - intros gen payload epoch asPriv salt Hs. unfold pushToSubscription. cbn [P256dh Auth Endpoint]. rewrite !raw_url_roundtrip.
    eexists. split; [reflexivity|]. cbn [bind]. destruct (Z.ltb_spec MaxPlaintext (len payload)) as [Hl|Hl].
    + unfold encrypt. destruct (Z.ltb_spec MaxPlaintext (len payload)); [done|lia].
    + destruct (encrypt_receive ua auth payload asPriv salt Ha Hs Hl) as (b & -> & Hr & Hb). exists b. eexists. split; [reflexivity|].
      split; [done|]. unfold MaxPlaintext in Hl. lia.
  - intros b row' (Hv & p & a & H1 & H2 & _ & _ & H3)%subscribe_stored. split; [done|]. exists p, a. split_and!; [done..|].
    intros. by apply bad_keys.
Qed.

(** ** Tokens *)

Lemma raw_url_chars s c : c ∈ rawURLEncode s -> c <> x2c /\ c <> x2e.
Proof. destruct (url_shape s) as (b & k & _ & -> & _ & _ & Hb). rewrite Forall_forall in Hb. intros Hc%Hb. tauto. Qed.

Lemma CutPrefix_app p s : CutPrefix (p ++ s) p = Some s.
Proof. unfold CutPrefix. by rewrite HasPrefix_app, drop_app_length. Qed.

Lemma vapid_checked priv origin subject now rnd header : vapidAuth priv origin subject now rnd = Some header ->
  vapid_check header = Some (jwt_claims origin ((now + vapidTokenTTL) / Second) subject, PublicBytes priv).
Proof.
  unfold vapidAuth. destruct rnd as [rnd|]; [|done]. cbn [fmap option_fmap option_map]. set (claims := jwt_claims _ _ _).
  destruct (Sign priv _ rnd) as [r s] eqn:Es. intros E%(inj Some). subst header.
  pose proof (sign_range priv (sha256_Sum256 (rawURLEncode jwt_header ++ §"." ++ rawURLEncode claims)) rnd) as Hr. rewrite Es in Hr. destruct Hr as [Hr Hs].
  unfold vapid_check. rewrite CutPrefix_app. unfold PublicKeyB64.
  assert (forall l, (x2c ∉ rawURLEncode l) /\ (x2e ∉ rawURLEncode l)) as Hn by (intros l; split; intros Hc%raw_url_chars; tauto).
  set (t := (rawURLEncode jwt_header ++ §"." ++ rawURLEncode claims) ++ §"." ++ rawURLEncode (be 32 r ++ be 32 s)).
  assert ((rawURLEncode jwt_header ++ §"." ++ rawURLEncode claims) ++ §"." ++ rawURLEncode (be 32 r ++ be 32 s) ++ §", k=" ++ rawURLEncode (PublicBytes priv)
    = t ++ x2c :: §" k=" ++ rawURLEncode (PublicBytes priv)) as -> by (unfold t; by rewrite <- !app_assoc).
  rewrite Cut_app.
  2: { unfold t. rewrite !elem_of_app. pose proof (Hn jwt_header). pose proof (Hn claims). pose proof (Hn (be 32 r ++ be 32 s)).
       assert (x2c ∉ §".") by (vm_compute; set_solver). tauto. }
  rewrite CutPrefix_app. unfold t. rewrite <- app_assoc.
  change (§"." ++ rawURLEncode claims) with ([x2e] ++ rawURLEncode claims). change (§"." ++ rawURLEncode (be 32 r ++ be 32 s)) with ([x2e] ++ rawURLEncode (be 32 r ++ be 32 s)).
  rewrite <- app_assoc. cbn [app]. rewrite !Split_app, Split_absent by apply Hn. rewrite !raw_url_roundtrip.
  rewrite bool_decide_eq_true_2 by done. rewrite len_app, !len_be. change (Z.of_nat 32 + Z.of_nat 32 =? 64) with true. cbn [andb].
  rewrite take_app_length', drop_app_length' by (pose proof (len_be 32 r); unfold len in *; lia).
  rewrite !big_be by (change (256 ^ Z.of_nat 32) with (2 ^ 256); done).
  pose proof (verify_sign priv (sha256_Sum256 (rawURLEncode jwt_header ++ [x2e] ++ rawURLEncode claims)) rnd) as Hv.
  change (§".") with [x2e] in *. rewrite Es in Hv. by rewrite Hv.
Qed.

(** RFC 6454, section 6.1. *)
Definition default_port (scheme : gostring) : Z := if scheme == §"https" then 443 else if scheme == §"http" then 80 else 0.
Definition port_number (u : URL) : Z := if Port u == [] then default_port (Scheme u) else (Atoi (Port u)).1.
Definition serialized_origin (u : URL) : gostring :=
  let host := ToLower (Hostname u) in
  Scheme u ++ §"://" ++ (if ContainsByte host x3a then §"[" ++ host ++ §"]" else host) ++
  (if port_number u =? default_port (Scheme u) then [] else §":" ++ Itoa (port_number u)).
Definition plain_port (u : URL) : Prop := Port u = [] \/ Port u = Itoa (port_number u).

Lemma origin_serialized u : Scheme u = §"https" -> plain_port u -> origin_of u = serialized_origin u.
Proof.
  intros Hs Hp. unfold origin_of, serialized_origin. cbv zeta. f_equal. f_equal. change (default_port (Scheme u)) with (default_port (Scheme u)).
  assert (default_port (Scheme u) = 443) as Hd by (by rewrite Hs). rewrite Hs. rewrite (bool_decide_eq_false_2 (§"https" = §"http")) by done.
  rewrite (bool_decide_eq_true_2 (§"https" = §"https")) by done. rewrite andb_false_r, !andb_true_r. cbn [negb].
  set (host := if ContainsByte _ _ then _ else _). assert (default_port (§"https") = 443) as -> by done. unfold plain_port, port_number in *.
  destruct (bool_decide_reflect (Port u = [])) as [E|E]; cbn [negb andb].
  - rewrite Hd, app_nil_r. done.
  - destruct Hp as [|Hp]; [done|]. destruct (bool_decide_reflect (Port u = §"443")) as [E4|E4]; cbn [negb].
    + rewrite E4. change (Atoi §"443").1 with 443. by rewrite app_nil_r.
    + destruct (Z.eqb_spec (Atoi (Port u)).1 443) as [E3|]; [rewrite E3 in Hp; done|]. by rewrite <- Hp.
Qed.

(** ** Deliveries *)

Definition token_ok (key : PrivateKey) (subject : gostring) (u : URL) (now : Z) (header : gostring) : Prop :=
  exists exp, vapid_check header = Some (jwt_claims (origin_of u) exp subject, PublicBytes key) /\
  now + Hour - Second < exp * Second <= now + 24 * Hour.

Definition send_headers (ttl : Z) (header : gostring) : list (gostring * gostring) :=
  [(§"TTL", Itoa ttl); (§"Urgency", §"high"); (§"Content-Encoding", §"aes128gcm"); (§"Content-Type", §"application/octet-stream"); (§"Authorization", header)].

Definition event_ok (key : PrivateKey) (subject : gostring) (rq : sendReq) (ev : sendEvent) : Prop :=
  match ev with
  | Dialed e => exists a, e = TcpTo a /\ public_address a
  | Posted u headers body =>
      url_Parse (sqEndpoint rq) = Some u /\ Scheme u = §"https" /\ User u = None /\ HostAllowed (Hostname u) = true /\ body = sqBody rq /\
      exists header, headers = send_headers (sqTTL rq) header /\ token_ok key subject u (sqNow rq) header
  end.
Definition is_post (ev : sendEvent) : bool := match ev with Posted _ _ _ => true | _ => false end.

Definition sent_ok (key : PrivateKey) (subject : gostring) (x : sendReq * sent * list sendEvent) : Prop :=
  let '(rq, r, evs) := x in
  Forall (event_ok key subject rq) evs /\ len (List.filter is_post evs) <= 1 /\
  (r <> SentFailed -> exists u headers status c b cut, Posted u headers (sqBody rq) ∈ evs /\ answers_of (sqWorld rq) 0 u = Final status c b cut /\
     match r with SentOk => 200 <= status < 300 | _ => status = 404 \/ status = 410 end) /\
  (forall u rnd, url_Parse (sqEndpoint rq) = Some u -> ValidateEndpoint (sqEndpoint rq) = true -> sqRnd rq = Some rnd ->
     (dialContext (sqWorld rq) sendFetcher u).2 = None -> exists headers, Posted u headers (sqBody rq) ∈ evs).

(** A token in the cache was signed at [t0], which no reading to come lags by more than
    twelve hours. *)
Definition tokens_ok (key : PrivateKey) (subject : gostring) (later : list sendReq) (s : Sender) : Prop :=
  sdKey s = key /\ sdSubject s = subject /\ Z.of_nat (size (sdTokens s)) <= maxCachedOrigins /\
  map_Forall (fun origin e => exists t0 : Z, e.2 = t0 + 11 * Hour /\ Forall (fun rq => t0 <= sqNow rq + 12 * Hour) later /\
    vapid_check e.1 = Some (jwt_claims origin ((t0 + vapidTokenTTL) / Second) subject, PublicBytes key)) (sdTokens s).

Lemma token_times t0 now : now < t0 + 11 * Hour -> t0 <= now + 12 * Hour ->
  now + Hour - Second < (t0 + vapidTokenTTL) / Second * Second <= now + 24 * Hour.
Proof.
  intros H1 H2. unfold vapidTokenTTL. assert (0 < Second) as Hs by done. pose proof (Z.div_mod (t0 + 12 * Hour) Second ltac:(lia)). pose proof (Z.mod_pos_bound (t0 + 12 * Hour) Second Hs).
  lia.
Qed.

Lemma auth_token key subject rq later s u header s' :
  tokens_ok key subject (rq :: later) s -> Forall (fun rq' => sqNow rq <= sqNow rq' + 12 * Hour) later -> url_Parse (sqEndpoint rq) = Some u ->
  auth (sqEndpoint rq) (sqNow rq) (sqRnd rq) s = Some (header, s') -> token_ok key subject u (sqNow rq) header /\ tokens_ok key subject later s'.
Proof.
  intros (Hk & Hj & Hn & Ht) Hl Hu. unfold auth. rewrite Hu. cbv zeta.
  assert (tokens_ok key subject later s) as Hlater.
  { split_and!; [done..|]. eapply map_Forall_impl; [exact Ht|]. intros o e (t0 & ? & Hf & ?). apply Forall_cons_1 in Hf as [_ Hf]. by exists t0. }
  assert (forall x, match vapidAuth (sdKey s) (origin_of u) (sdSubject s) (sqNow rq) (sqRnd rq) with
      | None => None
      | Some header => Some (header, MkSender (sdKey s) (sdSubject s) (<[origin_of u := (header, sqNow rq + (vapidTokenTTL - Hour))]>
          (if maxCachedOrigins <=? Z.of_nat (size (sdTokens s)) then ∅ else sdTokens s))) end = Some x ->
      token_ok key subject u (sqNow rq) x.1 /\ tokens_ok key subject later x.2) as Hsign.
  { intros x. destruct (vapidAuth _ _ _ _ _) as [h|] eqn:Ev; [|done]. intros [= <-]. apply vapid_checked in Ev. rewrite Hk, Hj in *. cbn [fst snd]. split.
    - eexists. split; [exact Ev|]. assert (0 < Hour) as H0 by done. apply token_times; clear -H0; lia.
    - split_and!; [done..| |]; cbn [sdTokens].
      + destruct (Z.leb_spec maxCachedOrigins (Z.of_nat (size (sdTokens s)))).
        * rewrite insert_empty, map_size_singleton. done.
        * rewrite map_size_insert. case_match; unfold id; lia.
      + apply map_Forall_insert_2.
        * exists (sqNow rq). cbn. split_and!; [unfold vapidTokenTTL; lia|done|done].
        * destruct (_ <=? _); [apply map_Forall_empty|apply Hlater]. }
  destruct (sdTokens s !! origin_of u) as [[h refresh]|] eqn:Et; [|by intros Hx%Hsign]. destruct (Z.ltb_spec (sqNow rq) refresh) as [Hr|]; [|by intros Hx%Hsign].
  intros [= <- <-]. split; [|done]. destruct (Ht _ _ Et) as (t0 & E2 & Hf & Hc). cbn [fst snd] in *. apply Forall_cons_1 in Hf as [Hf _]. eexists. split; [exact Hc|].
  subst refresh. by apply token_times.
Qed.
Lemma endpoint_url endpoint u : ValidateEndpoint endpoint = true -> url_Parse endpoint = Some u ->
  Scheme u = §"https" /\ User u = None /\ HostAllowed (Hostname u) = true.
Proof.
  unfold ValidateEndpoint. intros Hv Hu. rewrite Hu in Hv. destruct (bool_decide_reflect (Scheme u = §"https")) as [Hs|]; [|done]. cbn [negb] in Hv.
  destruct (Hostname u == []) eqn:?; [done|]. destruct (if Port u != [] then _ else _); [done|]. destruct (bool_decide_reflect (is_Some (User u))) as [|Hn]; [done|].
  split_and!; [done| |done]. by apply eq_None_not_Some.
Qed.

Lemma send_step key subject rq later s r evs s' :
  tokens_ok key subject (rq :: later) s -> Forall (fun rq' => sqNow rq <= sqNow rq' + 12 * Hour) later ->
  Send (sqWorld rq) (sqEndpoint rq) (sqBody rq) (sqTTL rq) (sqNow rq) (sqRnd rq) s = (r, evs, s') ->
  sent_ok key subject (rq, r, evs) /\ tokens_ok key subject later s'.
Proof.
  intros Ht Hl. unfold Send.
  assert (tokens_ok key subject later s) as Hlater.
  { destruct Ht as (? & ? & ? & Ht). split_and!; [done..|]. eapply map_Forall_impl; [exact Ht|]. intros o e (t0 & ? & Hf & ?). apply Forall_cons_1 in Hf as [_ Hf]. by exists t0. }
  assert (forall evs : list netEvent, Forall (fun ev => exists a, ev = TcpTo a /\ public_address a) evs ->
    Forall (event_ok key subject rq) (Dialed <$> evs) /\ List.filter is_post (Dialed <$> evs) = []) as Hdial.
  { intros l Hd. split; [by apply Forall_fmap|]. apply filter_none, Forall_fmap, Forall_forall. done. }
  destruct (ValidateEndpoint (sqEndpoint rq)) eqn:Ev; cbn [negb].
  2: { intros [= <- <- <-]. split; [|done]. split_and!; [constructor|done|done|]. intros u rnd _ Hv. by rewrite Ev in Hv. }
  destruct (url_Parse (sqEndpoint rq)) as [u|] eqn:Eu.
  2: { by unfold ValidateEndpoint in Ev; rewrite Eu in Ev. }
  destruct (endpoint_url _ _ Ev Eu) as (Hs & Hus & Hh).
  destruct (auth (sqEndpoint rq) (sqNow rq) (sqRnd rq) s) as [[header s1]|] eqn:Ea.
  2: { intros [= <- <- <-]. split; [|done]. split_and!; [constructor|done|done|]. intros u' rnd _ _ Hr _. exfalso.
       unfold auth in Ea. rewrite Eu in Ea. unfold vapidAuth in Ea. rewrite Hr in Ea. cbn [fmap option_fmap option_map] in Ea. cbv zeta in Ea.
       destruct (Sign _ _ _) as [x y]. destruct (sdTokens s !! origin_of u) as [[h refresh]|]; [|done]. by destruct (_ <? _). }
  destruct (auth_token _ _ _ _ _ _ _ _ Ht Hl Eu Ea) as [Htok Hs1].
  pose proof (addrs_public (sqWorld rq) None ((fun ip => JoinHostPort ip (hop_port u)) <$> resolve (sqWorld rq) (Hostname u))) as Hd.
  unfold dialContext at 1. cbn [fEgress sendFetcher].
  destruct (dial_addrs _ _ _) as [l err] eqn:Ed. cbn [fst] in Hd. destruct (Hdial l Hd) as [Hf Hp]. destruct err as [e|].
  - intros [= <- <- <-]. split; [|done]. split_and!; [done|by rewrite Hp|done|]. intros u' rnd Hu' _ _ He. rewrite Eu in Hu'. injection Hu' as <-.
    unfold dialContext in He. cbn [fEgress sendFetcher] in He. by rewrite Ed in He.
  - intros [= Hr <- <-]. split; [|done]. split_and!.
    + apply Forall_app. split; [done|]. apply Forall_singleton. split_and!; [done..|]. by exists header.
    + rewrite List.filter_app, Hp. done.
    + intros Hn. destruct (answers_of (sqWorld rq) 0 u) as [| |status c b cut] eqn:Eans; [by rewrite <- Hr in Hn..|].
      eexists u, _, status, c, b, cut. split; [apply elem_of_app; right; left|]. split; [done|].
      destruct ((200 <=? status) && (status <? 300)) eqn:E2; [subst r; lia|]. destruct ((status =? 404) || (status =? 410)) eqn:E4; subst r; [lia|done].
    + intros u' rnd Hu' _ _ _. rewrite Eu in Hu'. injection Hu' as <-. eexists. apply elem_of_app. right. left.
Qed.

(** No reading of the clock lags by more than twelve hours behind an earlier one. *)
Definition paced (rqs : list sendReq) : Prop := forall i j a b, rqs !! i = Some a -> rqs !! j = Some b -> (i < j)%nat -> sqNow a <= sqNow b + 12 * Hour.

Lemma send_run_ok key subject rqs s : paced rqs -> tokens_ok key subject rqs s ->
  Forall (sent_ok key subject) (send_run rqs s).1 /\ tokens_ok key subject [] (send_run rqs s).2.
Proof.
  revert s. induction rqs as [|rq rqs IH]; intros s Hp Ht; cbn [send_run]; [done|].
  destruct (Send _ _ _ _ _ _ _) as [[r evs] s1] eqn:Es. apply (send_step key subject rq rqs) in Es as [H1 H2]; [|done|].
  - specialize (IH s1 ltac:(intros i j a b Ha Hb Hij; apply (Hp (S i) (S j)); [done|done|lia]) H2).
    destruct (send_run rqs s1) as [l s2]. cbn [fst snd] in *. split; [|tauto]. constructor; tauto.
  - apply Forall_lookup. intros j b Hb. apply (Hp 0%nat (S j)); [done|done|lia].
Qed.


(** A port spelled with a leading zero passes the checks and gives an audience that is not
    the origin of the endpoint. *)
Lemma origin_leading_zero u : Scheme u = §"https" -> Port u = §"0443" -> serialized_origin u ++ §":0443" = origin_of u /\ port_number u = 443.
Proof.
  intros Hs Hp. unfold serialized_origin, origin_of, port_number. rewrite Hp, Hs. cbv zeta. rewrite !bool_decide_eq_false_2 by done.
  change (Atoi §"0443").1 with 443. split; [|done]. cbn [negb andb]. by rewrite app_nil_r, <- !app_assoc.
Qed.

(** The key survives a restart, and no subscription is kept for another key. *)
Lemma vapid_key_kept readOk generated writeOk s k s' : loadOrCreateVapidKey readOk generated writeOk s = (Some k, s') ->
  ParseKey (default [] (ksRows s' !! vapidKeyKey)) = Some k /\
  (forall generated' writeOk', loadOrCreateVapidKey true generated' writeOk' s' = (Some k, s')) /\
  (ParseKey (default [] (ksRows s !! vapidKeyKey)) <> Some k -> ksSubs s' = [] /\ ksEpoch s' = ksEpoch s + 1).
Proof.
  unfold loadOrCreateVapidKey at 1. destruct readOk; [|done]. cbn [negb]. set (stored := default [] (ksRows s !! vapidKeyKey)).
  destruct (if stored != [] then ParseKey stored else None) as [k'|] eqn:E.
  - intros [= <- <-]. fold stored. assert (ParseKey stored = Some k') as Hk by (by destruct (stored != [])). split_and!; [done| |done].
    intros g w. unfold loadOrCreateVapidKey. cbn [negb]. fold stored. by rewrite E.
  - destruct generated as [k'|]; [|done]. destruct writeOk; [|done]. intros [= <- <-].
    assert (default [] (<[vapidKeyKey := MarshalKey k']> (ksRows s) !! vapidKeyKey) = MarshalKey k') as Hd by (by rewrite lookup_insert_eq).
    assert (ParseKey (MarshalKey k') = Some k') as Hk by (unfold ParseKey, MarshalKey; rewrite base64_roundtrip; exact (parse_marshal k')).
    split_and!; [by cbn [ksRows]; rewrite Hd| |done]. intros g w. unfold loadOrCreateVapidKey. cbn [negb ksRows]. rewrite Hd.
    rewrite bool_decide_eq_false_2 by (unfold MarshalKey; intros En; exact (marshal_bytes _ (proj1 (EncodeToString_nil _) En))). cbn [negb]. by rewrite Hk.
Qed.
End contract.

(** ** A run *)

#[local] Existing Instances ascii_unicode toy_crypto toy_crypto_laws.

(** A multiplicative stand-in for the curve, and a cipher that only tags. *)
#[local] Instance toy_p256 : P256 := {|
  PrivateKey := byte;
  PublicBytes k := x04 :: replicate 63 x00 ++ [k];
  NewPublicKey p := (len p =? 65) && (at_ p 0 == x04);
  ECDH k p := Some [z2b (b2z k * b2z (at_ p 64) mod 256)];
  Sign k d _ := (b2z k, len d mod 256);
  Verify p d rs := (rs.1 =? b2z (at_ p 64)) && (rs.2 =? len d mod 256)
|}.
#[local] Instance toy_p256_laws : P256Laws.
Proof.
  split.
  - intros k. cbn. by rewrite bool_decide_eq_true_2.
  - intros p. cbn [NewPublicKey toy_p256]. destruct p as [|c q]; [done|]. intros [Hn Hc]%andb_true_iff. exists q. apply bool_decide_eq_true in Hc. cbn in Hc. subst c.
    split; [done|]. unfold len in Hn. cbn [length] in Hn. lia.
  - intros k p _. by eexists.
  - intros a b. cbn. by rewrite Z.mul_comm.
  - intros k d rnd. cbn. by rewrite !Z.eqb_refl.
  - intros k d rnd. cbn [Sign toy_p256 fst snd]. pose proof (b2z_range k). pose proof (Z.mod_pos_bound (len d) 256 ltac:(done)).
    assert (256 < 2 ^ 256) by done. lia.
Qed.

#[local] Instance toy_gcm : AesGcm := {|
  gcm_Seal k n p := take 16 (k ++ n ++ replicate 16 x00) ++ p;
  gcm_Open k n c := if decide (take 16 c = take 16 (k ++ n ++ replicate 16 x00)) then Some (drop 16 c) else None
|}.
#[local] Instance toy_gcm_laws : AesGcmLaws.
Proof.
  assert (forall k n : gostring, length (take 16 (k ++ n ++ replicate 16 x00)) = 16%nat) as Hl by (intros; rewrite length_take, !length_app, length_replicate; lia).
  split; intros k n p; cbn.
  - by rewrite take_app_length' , drop_app_length', decide_True by done.
  - rewrite len_app. unfold len at 1. rewrite Hl. lia.
Qed.

#[local] Instance toy_url : NetUrl := {|
  url_Parse s := (fun h => MkURL §"https" None (Cut h x2f).1.1 (Cut h x2f).1.2 [] []) <$> CutPrefix s §"https://";
  url_String u := Scheme u ++ §"://" ++ Host u
|}.
#[local] Instance toy_pkcs8 : Pkcs8 := {| MarshalPKCS8 k := [k]; ParsePKCS8 s := match s with [k] => Some k | _ => None end |}.
#[local] Instance toy_pkcs8_laws : Pkcs8Laws.
Proof. by split. Qed.
Definition browser_key : PrivateKey := x4d.
Definition once_key : PrivateKey := x05.
Definition server_key : PrivateKey := x03.

Definition demo_endpoint : gostring := §"https://push.example/abc".
Definition demo_secret : gostring := replicate 16 x2a.
Definition demo_salt : gostring := replicate 16 x01.

Lemma push_readable_witness : exists row,
  subscribe_row (Some (MkSubscribe demo_endpoint (urlEncode (PublicBytes browser_key)) (rawURLEncode demo_secret))) = inr row /\ Endpoint row = demo_endpoint /\
  forall gen payload epoch, len payload <= MaxPlaintext ->
    exists next body next', pushToSubscription gen row payload epoch = Do (Push.Encrypt payload (PublicBytes browser_key) demo_secret) next /\
      next (encrypt payload (PublicBytes browser_key) demo_secret once_key demo_salt) = Do (Push.Send gen demo_endpoint (PublicBytes browser_key) demo_secret body) next' /\
      receive browser_key demo_secret body = Some payload.
Proof.
  destruct (push_readable demo_endpoint browser_key demo_secret (urlEncode (PublicBytes browser_key)) (rawURLEncode demo_secret)) as (row & Hr & Hp & _);
    [vm_compute; reflexivity|reflexivity|right; reflexivity|left; reflexivity|].
  exists row. split; [exact Hr|]. split.
  { vm_compute in Hr. injection Hr as <-. reflexivity. }
  intros gen payload epoch Hl. destruct (Hp gen payload epoch once_key demo_salt eq_refl) as (next & H1 & H2). destruct (Z.ltb_spec MaxPlaintext (len payload)); [lia|].
  destruct H2 as (body & next' & H2 & H3 & _). exists next, body, next'. split; [exact H1|]. split; [exact H2|exact H3].
Defined.

Definition push_world : Media.World :=
  Media.MkWorld (fun _ => [§"10.0.0.1"; §"93.184.216.34"]) (fun _ => true) (fun _ => None) (fun _ _ => false) (fun _ _ => Final 201 [] [] None) false.
Definition demo_sends : list sendReq :=
  [MkSend push_world demo_endpoint §"one" 3600 (1000 * Second) (Some 0);
   MkSend push_world demo_endpoint §"two" 3600 (2000 * Second) None;
   MkSend push_world §"https://127.1/abc" §"three" 3600 (3000 * Second) (Some 0)].

