(* ===== verification/MediaStream.v ===== *)
(** * Media streams: internal/api/media.go

    The tokens that name what a player may stream, and the handler that relays it.  A
    stream is a sequence of steps, one per point where another request, a revocation, the
    clock or the previews switch can come between; its slot is held from the third to the
    last.  Sessions are the set of cookies that are live; Sessions has the table. *)

From S2P Require Import Prelude GoStrings GoUtf8 GoNet GoBase64 GoJson GoIP NetGuard ProxyDial Policy Push Netconf Networks Media Thumb WebPush.

(** ** Tokens *)

Definition mediaTokenTTL : Z := 15 * Minute.
Record mediaToken := MkToken { tkURL : gostring; tkNet : gostring; tkExp : Z }.

(** encoding/json writing and reading a token, and mime.ParseMediaType. *)
Class TokenJson := { token_Marshal : mediaToken -> gostring; token_Unmarshal : gostring -> option mediaToken }.
Class TokenJsonLaws {Htok : TokenJson} : Prop := {
  unmarshal_token t : ValidString (tkURL t) = true -> ValidString (tkNet t) = true -> 0 <= tkExp t <= maxInt64 -> token_Unmarshal (token_Marshal t) = Some t
}.
Class Mime := { ParseMediaType : gostring -> option gostring }.

Section stream.
Context `{Huni : Unicode, Hurl : NetUrl, Hgcm : AesGcm, Htok : TokenJson, Hmime : Mime}.
Context {decode_egress : gostring -> option (gostring * gostring)} {H : Type}.

(** The key of the process. *)
Context (key : gostring).
Definition nonceSize : Z := 12.

Definition sealMediaToken (tok : mediaToken) (nonce : option gostring) : option gostring :=
  match nonce with
  | None => None
  | Some nonce => Some (rawURLEncode (nonce ++ gcm_Seal key nonce (token_Marshal tok)))
  end.

(** The text under a token that opens. *)
Definition opened (token : gostring) : option gostring :=
  match rawURLDecode token with
  | None => None
  | Some raw => if len raw <? nonceSize then None else gcm_Open key (slice_to raw nonceSize) (slice_from raw nonceSize)
  end.
Definition openMediaToken (now : Z) (token : gostring) : option mediaToken :=
  match opened token ≫= token_Unmarshal with
  | None => None
  | Some tok => if tkExp tok <=? now / Second then None else Some tok
  end.

Inductive tokenReply := TkError (status : Z) | TkMinted (token : gostring) (tok : mediaToken).

Definition handleMediaToken (enabled : bool) (body : option (gostring * gostring)) (now : Z) (nonce : option gostring) : tokenReply :=
  if negb enabled then TkError 403
  else match mediaRequest body with
  | None => TkError 400
  | Some (target, netName) =>
      match url_Parse target with
      | None => TkError 400
      | Some u =>
          if negb (validMediaURL u) then TkError 400
          else if negb (HostAllowed (Hostname u)) then TkError 400
          else
            let tok := MkToken target netName ((now + mediaTokenTTL) / Second) in
            match sealMediaToken tok nonce with None => TkError 500 | Some token => TkMinted token tok end
      end
  end.

(** ** What is relayed *)

Definition streamSlots : Z := 2.
Definition streamCopyBufBytes : Z := 32 * 1024.
Definition streamIdleTimeout : Z := 60 * Second.

Definition streamableType (contentType : gostring) : bool :=
  match ParseMediaType contentType with
  | None => false
  | Some mt => HasPrefix mt §"audio/" || HasPrefix mt §"video/" || (mt == §"application/ogg")
  end.

Definition forwardRangeHeader (rng : gostring) : gostring :=
  if (rng == []) || (256 <? len rng) || negb (HasPrefix rng §"bytes=") then [] else rng.

(** The request headers that reach the origin. *)
Definition proxyUserAgent : gostring := §"ircthing-media-proxy/1.0 (+https://github.com/ircthing)".
Definition stream_headers (rangeHdr : gostring) : list (gostring * gostring) :=
  [(§"User-Agent", proxyUserAgent); (§"Accept", §"*/*"); (§"Accept-Encoding", §"identity")] ++ (if rangeHdr != [] then [(§"Range", rangeHdr)] else []).

(** What an origin answers: [rsHeaders] the first value of each header of the entity. *)
Record response := MkResponse {
  rsStatus : Z; rsType : gostring; rsHeaders : list (gostring * gostring); rsEncodings : list gostring; rsTrailer : bool;
  rsBody : gostring; rsCut : option fetchErr }.

Fixpoint header_get (k : gostring) (hs : list (gostring * gostring)) : gostring :=
  match hs with [] => [] | (k', v) :: hs => if k == k' then v else header_get k hs end.

Definition nonIdentityEncoding (values : list gostring) (trailer : bool) : bool :=
  existsb (fun v => existsb (fun tok => let t := ToLower (TrimSpace tok) in (t != []) && (t != §"identity")) (Split v x2c)) values || trailer.

Definition forwarded (k : gostring) (resp : response) : list (gostring * gostring) :=
  let v := header_get k (rsHeaders resp) in if v != [] then [(k, v)] else [].

Definition writeStreamHeaders (resp : response) : list (gostring * gostring) :=
  [(§"Content-Type", rsType resp)] ++ ([§"Content-Length"; §"Content-Range"; §"Accept-Ranges"] ≫= (fun k => forwarded k resp))
    ++ [(§"X-Content-Type-Options", §"nosniff"); (§"Cache-Control", §"private, no-store")].

Record streamReq := MkStreamReq { srCookie : gostring; srToken : gostring; srRange : gostring }.

Inductive streamReply :=
  | StError (status : Z)
  | StRange (headers : list (gostring * gostring))                (** 416 *)
  | StRelay (tok : mediaToken) (resp : response) (headers : list (gostring * gostring)) (sent : gostring).

Definition streamFetchFailed (e : fetchErr) : streamReply := if fetchErrorRetryable e then StError 503 else StError 502.

(** The status, the type and the encoding; the headers when the body may follow. *)
Definition forwardStreamStatus (resp : response) : option streamReply :=
  if (rsStatus resp =? 200) || (rsStatus resp =? 206) then None
  else if rsStatus resp =? 416 then Some (StRange (forwarded §"Content-Range" resp))
  else Some (StError 502).
Definition vet_response (resp : response) : streamReply + list (gostring * gostring) :=
  match forwardStreamStatus resp with
  | Some r => inl r
  | None =>
      if negb (streamableType (rsType resp)) then inl (StError 502)
      else if nonIdentityEncoding (rsEncodings resp) (rsTrailer resp) then inl (StError 502)
      else inr (writeStreamHeaders resp)
  end.

(** ** The handler, step by step *)

(** How the egress was resolved: whether the query worked, and the store it saw. *)
Abbreviation resolved := (bool * Nets (H := H))%type.

Inductive phase :=
  | Arrived (rq : streamReq)
  | Granted (rq : streamReq) (tok : mediaToken)
  | Holding (rq : streamReq) (tok : mediaToken)
  | Armed (rq : streamReq) (tok : mediaToken) (f : fetcher) (eg : resolved)
  | Watched (rq : streamReq) (tok : mediaToken) (f : fetcher) (eg : resolved) (deadline : Z)
  | Relaying (rq : streamReq) (tok : mediaToken) (resp : response) (headers : list (gostring * gostring)) (sent rest : gostring) (deadline : Z)
  | Finished (r : streamReply).

(** One fetch: how its egress was resolved, the headers it sends, the connections tried. *)
Record conn := MkConn { cnToken : mediaToken; cnEgress : resolved; cnHeaders : list (gostring * gostring); cnEvents : list netEvent }.
Record mint := MkMint { miTime : Z; miCookie : gostring; miText : gostring; miToken : mediaToken }.

(** The server; [svMinted] and [svConns] record what was issued and which connections
    were tried, for the statements about them. *)
Record Srv := MkSrv {
  svNow : Z; svPreviews : bool; svLive : gset gostring; svSem : Z; svPools : Pools; svStreams : gmap nat phase; svCanceled : gset nat;
  svMinted : list mint; svConns : list conn }.

Definition goto (id : nat) (p : phase) (s : Srv) : Srv :=
  MkSrv (svNow s) (svPreviews s) (svLive s) (svSem s) (svPools s) (<[id := p]> (svStreams s)) (svCanceled s) (svMinted s) (svConns s).
Definition set_sem (n : Z) (s : Srv) : Srv :=
  MkSrv (svNow s) (svPreviews s) (svLive s) n (svPools s) (svStreams s) (svCanceled s) (svMinted s) (svConns s).
Definition set_pools (p : Pools) (s : Srv) : Srv :=
  MkSrv (svNow s) (svPreviews s) (svLive s) (svSem s) p (svStreams s) (svCanceled s) (svMinted s) (svConns s).
Definition set_now (t : Z) (s : Srv) : Srv :=
  MkSrv t (svPreviews s) (svLive s) (svSem s) (svPools s) (svStreams s) (svCanceled s) (svMinted s) (svConns s).
Definition set_previews (b : bool) (s : Srv) : Srv :=
  MkSrv (svNow s) b (svLive s) (svSem s) (svPools s) (svStreams s) (svCanceled s) (svMinted s) (svConns s).
Definition set_live (l : gset gostring) (c : gset nat) (s : Srv) : Srv :=
  MkSrv (svNow s) (svPreviews s) l (svSem s) (svPools s) (svStreams s) c (svMinted s) (svConns s).
Definition log_mint (m : mint) (s : Srv) : Srv :=
  MkSrv (svNow s) (svPreviews s) (svLive s) (svSem s) (svPools s) (svStreams s) (svCanceled s) (svMinted s ++ [m]) (svConns s).
Definition log_conn (x : conn) (s : Srv) : Srv :=
  MkSrv (svNow s) (svPreviews s) (svLive s) (svSem s) (svPools s) (svStreams s) (svCanceled s) (svMinted s) (svConns s ++ [x]).

Definition acquireStream (s : Srv) : option Srv := if svSem s <? streamSlots then Some (set_sem (svSem s + 1) s) else None.
Definition releaseStream (s : Srv) : Srv := set_sem (svSem s - 1) s.
(** An answer of a handler that has its slot. *)
Definition finish (id : nat) (r : streamReply) (s : Srv) : Srv := releaseStream (goto id (Finished r) s).

(** What the outside contributes to a step: the store, the network, the rest of the
    response, how much a read returns, and how far a write that fails gets. *)
Record Input := MkInput {
  inQueryOk : bool; inStore : Nets (H := H); inWorld : Media.World; inHeaders : list (gostring * gostring); inEncodings : list gostring; inTrailer : bool;
  inRead : Z; inWriteFails : option Z }.

(** One turn of the loop of [relayStreamBody]; [true] goes on.  A response whose context
    is cancelled reads no more. *)
Definition relay_turn (i : Input) (canceled : bool) (sent rest : gostring) : bool * gostring * gostring :=
  if canceled || (rest == []) then (false, sent, rest)
  else
    let n := Z.max 1 (Z.min (inRead i) streamCopyBufBytes) in
    let buf := slice_to rest (Z.min n (len rest)) in
    match inWriteFails i with
    | Some k => (false, sent ++ slice_to buf (Z.max 0 (Z.min k (len buf))), rest)
    | None => (true, sent ++ buf, slice_from rest (len buf))
    end.

Definition advance (i : Input) (id : nat) (s : Srv) : option Srv :=
  match svStreams s !! id with
  | Some (Arrived rq) =>
      Some (match openMediaToken (svNow s) (srToken rq) with
            | None => goto id (Finished (StError 403)) s
            | Some tok => if negb (svPreviews s) then goto id (Finished (StError 403)) s else goto id (Granted rq tok) s
            end)
  | Some (Granted rq tok) =>
      Some (match acquireStream s with
            | None => goto id (Finished (StError 429)) s
            | Some s => goto id (Holding rq tok) s
            end)
  | Some (Holding rq tok) =>
      let '(f, p) := fetcherForNetwork (decode_egress := decode_egress) Media.Stream (inQueryOk i) (tkNet tok) (inStore i) (svPools s) in
      let s := set_pools p s in
      Some (match f with
            | None => finish id (StError 502) s
            | Some f => goto id (Armed rq tok f (inQueryOk i, inStore i)) s
            end)
  | Some (Armed rq tok f eg) =>
      Some (if bool_decide (srCookie rq ∈ svLive s) then goto id (Watched rq tok f eg (svNow s + streamIdleTimeout)) s
            else finish id (StError 401) s)
  | Some (Watched rq tok f eg deadline) =>
      let '(r, evs) := if bool_decide (id ∈ svCanceled s) then (Some (inl CtxErr), []) else fetcher_stream (inWorld i) f (tkURL tok) in
      let s := log_conn (MkConn tok eg (stream_headers (forwardRangeHeader (srRange rq))) evs) s in
      match r with
      | None => None
      | Some (inl e) => Some (finish id (streamFetchFailed e) s)
      | Some (inr (_, status, ctype, body, cut)) =>
          let resp := MkResponse status ctype (inHeaders i) (inEncodings i) (inTrailer i) body cut in
          Some (match vet_response resp with
                | inl r => finish id r s
                | inr hs => goto id (Relaying rq tok resp hs [] body deadline) s
                end)
      end
  | Some (Relaying rq tok resp hs sent rest deadline) =>
      let '(more, sent, rest) := relay_turn i (bool_decide (id ∈ svCanceled s)) sent rest in
      Some (if more then goto id (Relaying rq tok resp hs sent rest (svNow s + streamIdleTimeout)) s
            else finish id (StRelay tok resp hs sent) s)
  | Some (Finished _) | None => None
  end.

(** The timer of a stream, and the cookie it is registered under. *)
Definition watch (p : phase) : option Z :=
  match p with Watched _ _ _ _ d | Relaying _ _ _ _ _ _ d => Some d | _ => None end.
Definition registered (p : phase) : option gostring :=
  match p with Watched rq _ _ _ _ | Relaying rq _ _ _ _ _ _ => Some (srCookie rq) | _ => None end.
Definition streams_of (cookie : gostring) (s : Srv) : gset nat :=
  dom (filter (fun e => registered e.2 = Some cookie) (svStreams s)).

(** What a client presents was sealed here, if it opens at all. *)
Definition unforged (s : Srv) (token : gostring) : Prop :=
  forall plain, opened token = Some plain -> exists m, m ∈ svMinted s /\ opened (miText m) = Some plain.

Inductive stream_step : Srv -> Srv -> Prop :=
  | step_time t s : svNow s <= t -> (forall id p d, svStreams s !! id = Some p -> watch p = Some d -> id ∉ svCanceled s -> t <= d) ->
      stream_step s (set_now t s)
  | step_fire id p d s : svStreams s !! id = Some p -> watch p = Some d -> d <= svNow s -> stream_step s (set_live (svLive s) ({[id]} ∪ svCanceled s) s)
  | step_gone id s : stream_step s (set_live (svLive s) ({[id]} ∪ svCanceled s) s)
  | step_previews b s : stream_step s (set_previews b s)
  | step_login cookie s : stream_step s (set_live ({[cookie]} ∪ svLive s) (svCanceled s) s)
  | step_revoke cookie s : stream_step s (set_live (svLive s ∖ {[cookie]}) (streams_of cookie s ∪ svCanceled s) s)
  | step_mint cookie body nonce token tok s :
      cookie ∈ svLive s -> len nonce = nonceSize -> 0 <= svNow s <= maxInt64 - mediaTokenTTL -> (forall url net, body = Some (url, net) -> ValidString url = true /\ ValidString net = true) ->
      handleMediaToken (svPreviews s) body (svNow s) (Some nonce) = TkMinted token tok ->
      stream_step s (log_mint (MkMint (svNow s) cookie token tok) s)
  | step_arrive id rq s : svStreams s !! id = None -> id ∉ svCanceled s -> srCookie rq ∈ svLive s -> unforged s (srToken rq) -> stream_step s (goto id (Arrived rq) s)
  | step_advance i id s s' : advance i id s = Some s' -> stream_step s s'.

Definition newSrv (now : Z) (previews : bool) : Srv := MkSrv now previews ∅ 0 newPools ∅ ∅ [] [].
Definition reachable (now : Z) (previews : bool) : Srv -> Prop := rtc stream_step (newSrv now previews).

(** ** What holds of a stream *)

Definition holds (p : phase) : bool := match p with Holding _ _ | Armed _ _ _ _ | Watched _ _ _ _ _ | Relaying _ _ _ _ _ _ _ => true | _ => false end.
Definition holders (s : Srv) : Z := map_sum (fun _ p => if holds p then 1 else 0) (svStreams s).

Definition issued (minted : list mint) (tok : mediaToken) : Prop := exists m, m ∈ minted /\ miToken m = tok.
Definition mint_ok (now : Z) (m : mint) : Prop :=
  miTime m <= now /\ tkExp (miToken m) = (miTime m + mediaTokenTTL) / Second /\ opened (miText m) = Some (token_Marshal (miToken m)) /\
  token_Unmarshal (token_Marshal (miToken m)) = Some (miToken m) /\
  exists u, url_Parse (tkURL (miToken m)) = Some u /\ validMediaURL u = true /\ HostAllowed (Hostname u) = true.

(** A connection is one the network of the token asks for. *)
Definition conn_justified (tok : mediaToken) (eg : resolved) (ev : netEvent) : Prop :=
  forall w, justified (decode_egress := decode_egress) (MkMediaReq Media.Stream (tkURL tok) (tkNet tok) eg.1 eg.2 w) ev.
Definition conn_ok (minted : list mint) (c : conn) : Prop :=
  issued minted (cnToken c) /\ Forall (conn_justified (cnToken c) (cnEgress c)) (cnEvents c) /\
  (fun h => h.1) <$> cnHeaders c ⊆ [§"User-Agent"; §"Accept"; §"Accept-Encoding"; §"Range"].

Definition entity_headers : list gostring :=
  [§"Content-Type"; §"Content-Length"; §"Content-Range"; §"Accept-Ranges"; §"X-Content-Type-Options"; §"Cache-Control"].
(** What may be relayed, and under which headers. *)
Definition relay_ok (resp : response) (hs : list (gostring * gostring)) : Prop :=
  (rsStatus resp = 200 \/ rsStatus resp = 206) /\ streamableType (rsType resp) = true /\ nonIdentityEncoding (rsEncodings resp) (rsTrailer resp) = false /\
  header_get §"Content-Type" hs = rsType resp /\ (fun h => h.1) <$> hs ⊆ entity_headers.

(** A stream that is registered is cancelled, or its session is live and it made progress
    within the idle time. *)
Definition kept (now : Z) (live : gset gostring) (canceled : gset nat) (id : nat) (cookie : gostring) (deadline : Z) : Prop :=
  deadline <= now + streamIdleTimeout /\ (id ∈ canceled \/ (cookie ∈ live /\ now <= deadline)).

Definition phase_ok (now : Z) (live : gset gostring) (canceled : gset nat) (minted : list mint) (id : nat) (p : phase) : Prop :=
  match p with
  | Arrived rq => forall plain, opened (srToken rq) = Some plain -> exists m, m ∈ minted /\ opened (miText m) = Some plain
  | Granted _ tok | Holding _ tok => issued minted tok
  | Armed _ tok f eg => issued minted tok /\ fetcher_ok f /\ forall ev, ev_ok f ev -> conn_justified tok eg ev
  | Watched rq tok f eg d => issued minted tok /\ fetcher_ok f /\ (forall ev, ev_ok f ev -> conn_justified tok eg ev) /\ kept now live canceled id (srCookie rq) d
  | Relaying rq tok resp hs sent rest d => issued minted tok /\ relay_ok resp hs /\ sent ++ rest = rsBody resp /\ kept now live canceled id (srCookie rq) d
  | Finished (StRelay tok resp hs sent) => issued minted tok /\ relay_ok resp hs /\ sent `prefix_of` rsBody resp
  | Finished _ => True
  end.

Definition good (s : Srv) : Prop :=
  svSem s = holders s /\ svSem s <= streamSlots /\ pools_ok (svPools s) /\ Forall (mint_ok (svNow s)) (svMinted s) /\ Forall (conn_ok (svMinted s)) (svConns s) /\
  map_Forall (phase_ok (svNow s) (svLive s) (svCanceled s) (svMinted s)) (svStreams s).

Lemma issued_more l l' tok : l ⊆ l' -> issued l tok -> issued l' tok.
Proof. intros Hl (m & Hm & E). exists m. set_solver. Qed.

(** A phase is as good after more tokens, cancellations and logins. *)
Lemma phase_mono now live live' canceled canceled' minted minted' id p :
  phase_ok now live canceled minted id p -> minted ⊆ minted' -> canceled ⊆ canceled' ->
  (forall cookie, registered p = Some cookie -> cookie ∈ live -> cookie ∈ live' \/ id ∈ canceled') ->
  phase_ok now live' canceled' minted' id p.
Proof.
  intros Hp Hm Hc Hl.
  assert (forall tok, issued minted tok -> issued minted' tok) as Hi by (intros; by eapply issued_more).
  assert (forall cookie d, registered p = Some cookie -> kept now live canceled id cookie d -> kept now live' canceled' id cookie d) as Hk.
  { intros cookie d Hr [Hd Hx]. split; [done|]. destruct Hx as [Hx|[Hx Hy]]; [left; set_solver|]. destruct (Hl _ Hr Hx); [right|left]; done. }
  destruct p as [rq|rq tok|rq tok|rq tok f eg|rq tok f eg d|rq tok resp hs sent rest d|[|hs|tok resp hs sent]]; cbn [phase_ok registered] in *;
    [intros plain Ho; destruct (Hp plain Ho) as (m & ? & ?); exists m; set_solver|naive_solver..].
Qed.

Lemma phase_later now t live canceled minted id p : now <= t ->
  (forall d, watch p = Some d -> id ∉ canceled -> t <= d) -> phase_ok now live canceled minted id p -> phase_ok t live canceled minted id p.
Proof.
  intros Ht Hd. assert (forall cookie d, watch p = Some d -> kept now live canceled id cookie d -> kept t live canceled id cookie d) as Hk.
  { intros cookie d Hw [H1 H2]. split; [lia|]. destruct (decide (id ∈ canceled)) as [|Hn]; [by left|]. destruct H2 as [|[? _]]; [done|]. right. split; [done|]. by apply Hd. }
  destruct p as [rq|rq tok|rq tok|rq tok f eg|rq tok f eg d|rq tok resp hs sent rest d|[|hs|tok resp hs sent]]; cbn [phase_ok watch] in *; naive_solver.
Qed.

Lemma holders_goto id p q s : svStreams s !! id = Some q -> holders (goto id p s) = holders s + (if holds p then 1 else 0) - (if holds q then 1 else 0).
Proof. intros Hq. unfold holders, goto. cbn [svStreams]. by rewrite (map_sum_replace _ _ _ p q Hq). Qed.

(** A stream moves on: its slot and its phase are all there is to check. *)
Lemma good_goto id p q s n pools conns : good s -> svStreams s !! id = Some q -> n = svSem s + (if holds p then 1 else 0) - (if holds q then 1 else 0) ->
  n <= streamSlots -> pools_ok pools -> Forall (conn_ok (svMinted s)) conns ->
  phase_ok (svNow s) (svLive s) (svCanceled s) (svMinted s) id p ->
  good (MkSrv (svNow s) (svPreviews s) (svLive s) n pools (<[id := p]> (svStreams s)) (svCanceled s) (svMinted s) conns).
Proof.
  intros (H1 & H2 & H3 & H4 & H5 & H6) Hq -> Hn Hp Hc Hph. split_and!; cbn [svSem svPools svMinted svConns svNow svLive svCanceled svStreams]; [|done..|].
  - rewrite H1. symmetry. exact (holders_goto id p q s Hq).
  - by apply map_Forall_insert_2.
Qed.

(** ** Tokens *)

Context {Hgcml : AesGcmLaws} {Htokl : TokenJsonLaws} {Hurll : NetUrlLaws}.

Lemma opened_sealed tok nonce : len nonce = nonceSize -> opened (rawURLEncode (nonce ++ gcm_Seal key nonce (token_Marshal tok))) = Some (token_Marshal tok).
Proof.
  intros Hn. unfold opened. rewrite raw_url_roundtrip, len_app. pose proof (len_nonneg (gcm_Seal key nonce (token_Marshal tok))).
  destruct (Z.ltb_spec (len nonce + len (gcm_Seal key nonce (token_Marshal tok))) nonceSize); [lia|]. rewrite <- Hn, slice_to_app, slice_from_app. apply open_seal.
Qed.

Lemma minted_ok enabled body now nonce token tok : 0 <= now <= maxInt64 - mediaTokenTTL -> len nonce = nonceSize ->
  (forall url net, body = Some (url, net) -> ValidString url = true /\ ValidString net = true) ->
  handleMediaToken enabled body now (Some nonce) = TkMinted token tok -> enabled = true /\ forall cookie, mint_ok now (MkMint now cookie token tok).
Proof.
  intros Hnow Hn Hb. unfold handleMediaToken. destruct enabled; [|done]. cbn [negb].
  destruct (mediaRequest body) as [[url net]|] eqn:Em; [|done]. destruct (url_Parse url) as [u|] eqn:Eu; [|done].
  destruct (validMediaURL u) eqn:Ev; [|done]. destruct (HostAllowed (Hostname u)) eqn:Eh; [|done]. cbn [negb sealMediaToken]. intros [= <- <-]. split; [done|].
  assert (body = Some (url, net)) as Ebody.
  { unfold mediaRequest in Em. destruct body as [[a b]|]; [|done]. destruct (_ || _); [done|]. by injection Em as <- <-. }
  destruct (Hb _ _ Ebody) as [Hvu Hvn]. intros cookie. split_and!; cbn [miTime miToken miText tkExp tkURL]; [lia|done|by apply opened_sealed| |by exists u].
  apply unmarshal_token; [done..|]. cbn [tkExp]. unfold mediaTokenTTL in *. assert (0 < Second) as Hs by done. assert (0 < Minute) by done. split; [apply Z.div_pos; lia|].
  transitivity (now + 15 * Minute); [|lia]. apply Z.div_le_upper_bound; nia.
Qed.

Lemma open_issued now token tok minted : Forall (mint_ok now) minted ->
  (forall plain, opened token = Some plain -> exists m, m ∈ minted /\ opened (miText m) = Some plain) ->
  openMediaToken now token = Some tok -> exists m, m ∈ minted /\ miToken m = tok /\ miTime m <= now < miTime m + mediaTokenTTL.
Proof.
  intros Hm Hu. unfold openMediaToken. destruct (opened token) as [plain|]; [|done]. cbn [mbind option_bind].
  destruct (Hu plain eq_refl) as (m & Hin & Ho). rewrite Forall_forall in Hm. destruct (Hm m Hin) as (H1 & H2 & H3 & H4 & _).
  rewrite H3 in Ho. injection Ho as <-. rewrite H4. destruct (Z.leb_spec (tkExp (miToken m)) (now / Second)) as [|He]; [done|]. intros [= <-].
  exists m. split_and!; [done..|]. rewrite H2 in He. assert (0 < Second) as Hs by done.
  destruct (Z.lt_ge_cases now (miTime m + mediaTokenTTL)) as [|Hge]; [done|]. pose proof (Z.div_le_mono _ _ Second Hs Hge). lia.
Qed.

(** ** Responses *)

Lemma forwarded_names k resp : (fun h => h.1) <$> forwarded k resp ⊆ [k].
Proof. unfold forwarded. destruct (_ != _); cbn; set_solver. Qed.

Lemma vetted resp hs : vet_response resp = inr hs -> relay_ok resp hs.
Proof.
  unfold vet_response, forwardStreamStatus. destruct ((rsStatus resp =? 200) || (rsStatus resp =? 206)) eqn:Es; [|by destruct (_ =? 416)].
  destruct (streamableType (rsType resp)) eqn:Et; [|done]. destruct (nonIdentityEncoding _ _) eqn:Ee; [done|]. intros [= <-].
  split_and!; [lia|done..|].
  unfold writeStreamHeaders. cbn [mbind list_bind app]. rewrite fmap_cons, !fmap_app. pose proof (forwarded_names §"Content-Length" resp).
  pose proof (forwarded_names §"Content-Range" resp). pose proof (forwarded_names §"Accept-Ranges" resp). unfold entity_headers. set_solver.
Qed.

Lemma turn_ok i c sent rest more sent' rest' body : relay_turn i c sent rest = (more, sent', rest') -> sent ++ rest = body ->
  sent' `prefix_of` body /\ (more = true -> sent' ++ rest' = body /\ (length rest' < length rest)%nat) /\ (c = true -> more = false /\ sent' = sent).
Proof.
  unfold relay_turn. intros E <-. destruct c; cbn [orb] in E; [injection E as <- <- <-; split_and!; [by apply prefix_app_r|done|done]|].
  destruct (bool_decide_reflect (rest = [])) as [|Hr]; [injection E as <- <- <-; split_and!; [by apply prefix_app_r|done|done]|].
  set (n := Z.min _ (len rest)) in E. assert (0 < len rest) as Hl by (destruct rest; [done|]; rewrite len_cons; pose proof (len_nonneg rest); lia).
  assert (1 <= n <= len rest) as Hn by (subst n; lia). assert (len (slice_to rest n) = n) as Hb by (rewrite len_slice_to; lia).
  assert (slice_to rest n ++ slice_from rest n = rest) as Hcat by apply slice_cat.
  destruct (inWriteFails i) as [k|]; injection E as <- <- <-.
  - split_and!; [|done|done]. apply prefix_app. transitivity (slice_to rest n); eexists; symmetry; apply slice_cat.
  - rewrite Hb. split_and!; [|intros _; split|done].
    + rewrite <- Hcat at 2. rewrite app_assoc. by apply prefix_app_r.
    + by rewrite <- app_assoc, Hcat.
    + assert (len (slice_from rest n) < len rest) by (rewrite len_slice_from; lia). unfold len in *. lia.
Qed.

(** ** Every step *)

Lemma justified_world rq w ev : justified (decode_egress := decode_egress) (H := H) rq ev ->
  justified (decode_egress := decode_egress) (MkMediaReq (mrKind rq) (mrURL rq) (mrNet rq) (mrQueryOk rq) (mrStore rq) w) ev.
Proof. done. Qed.

Ltac go_to id s Ep := eapply (good_goto id _ _ s);
  [done|exact Ep|cbn [holds svSem set_sem set_pools log_conn goto]; lia|cbn [svSem set_sem set_pools log_conn goto]; lia|..].

Lemma advance_good i id s s' : good s -> advance i id s = Some s' -> good s'.
Proof.
  intros Hg. pose proof Hg as (H1 & H2 & H3 & H4 & H5 & H6). unfold advance.
  destruct (svStreams s !! id) as [p|] eqn:Ep; [|done]. pose proof (H6 _ _ Ep) as Hp. cbv beta in Hp.
  destruct p as [rq|rq tok|rq tok|rq tok f eg|rq tok f eg d|rq tok resp hs sent rest d|r]; cbn [phase_ok] in Hp.
  - intros [= <-]. destruct (openMediaToken (svNow s) (srToken rq)) as [tok|] eqn:Eo; [destruct (svPreviews s); cbn [negb]|];
      (go_to id s Ep; [done..|]); [|done..].
    destruct (open_issued _ _ _ _ H4 Hp Eo) as (m & Hm & E & _). by exists m.
  - intros [= <-]. unfold acquireStream. destruct (Z.ltb_spec (svSem s) streamSlots);
      (go_to id s Ep; done).
  - destruct (fetcherForNetwork _ _ _ _ _) as [f p] eqn:Ef.
    assert (forall w, pools_ok p /\ (forall g, f = Some g -> fetcher_ok g /\ forall ev, ev_ok g ev ->
      justified (decode_egress := decode_egress) (MkMediaReq Media.Stream (tkURL tok) (tkNet tok) (inQueryOk i) (inStore i) w) ev)) as Hf.
    { intros w. destruct (fetcher_justified (MkMediaReq Media.Stream (tkURL tok) (tkNet tok) (inQueryOk i) (inStore i) w) _ _ _ H3 Ef) as (Ha & _ & Hb).
      split; [done|]. intros g Eg. destruct (Hb g Eg) as (_ & Hc & Hd). done. }
    destruct (Hf (inWorld i)) as [Hpools _]. intros [= <-]. destruct f as [f|].
    + go_to id s Ep; [done..|]. cbn [phase_ok]. split; [done|].
      split; [by destruct (Hf (inWorld i)) as [_ Hx]; destruct (Hx f eq_refl)|].
      intros ev Hev w. destruct (Hf w) as [_ Hx]. destruct (Hx f eq_refl) as [_ Hy]. by apply Hy.
    + by go_to id s Ep.
  - intros [= <-]. destruct Hp as (Ht & Hf & Hj). case_bool_decide as Hl.
    + go_to id s Ep; [done..|]. split_and!; [done..|]. split; [lia|]. right. split; [done|]. assert (0 < streamIdleTimeout) by done. lia.
    + by go_to id s Ep.
  - destruct Hp as (Ht & Hf & Hj & Hk). destruct (if bool_decide _ then _ else _) as [r evs] eqn:Er.
    assert (Forall (ev_ok f) evs) as Hev.
    { case_bool_decide; [by injection Er as <- <-|]. pose proof (stream_ok (inWorld i) f (tkURL tok) Hf) as [Hs _]. by rewrite Er in Hs. }
    set (c := MkConn tok eg _ evs).
    assert (Forall (conn_ok (svMinted s)) (svConns s ++ [c])) as Hconns.
    { apply Forall_app. split; [done|]. apply Forall_singleton. split_and!; [done|by eapply Forall_impl|]. subst c. unfold stream_headers, cnHeaders.
      rewrite fmap_app. destruct (_ != _); cbn; set_solver. }
    destruct r as [[e|[[[[u status] ctype] body] cut]]|]; [| |done].
    + intros [= <-]. go_to id s Ep; [done..|].
      unfold streamFetchFailed. by destruct (fetchErrorRetryable e).
    + intros [= <-]. destruct (vet_response _) as [r|hs] eqn:Ev.
      * go_to id s Ep; [done..|].
        unfold vet_response in Ev. destruct (forwardStreamStatus _) as [r'|] eqn:Es.
        { injection Ev as <-. unfold forwardStreamStatus in Es. destruct (_ || _); [done|]. by destruct (_ =? 416); injection Es as <-. }
        destruct (negb _); [by injection Ev as <-|]. destruct (nonIdentityEncoding _ _); [by injection Ev as <-|done].
      * go_to id s Ep; [done..|]. split_and!; [done|by apply vetted|done|done].
  - destruct Hp as (Ht & Hr & Hb & Hk). destruct (relay_turn _ _ _ _) as [[more sent'] rest'] eqn:Et. destruct (turn_ok _ _ _ _ _ _ _ _ Et Hb) as (Hpre & Hm & Hc).
    intros [= <-]. destruct more.
    + destruct (Hm eq_refl) as [Hcat _]. go_to id s Ep; [done..|]. split_and!; [done..|].
      destruct Hk as [_ [Hk|[Hk _]]]; [|split; [lia|right; split; [done|]; assert (0 < streamIdleTimeout) by done; lia]].
      rewrite bool_decide_eq_true_2 in Hc by done. destruct (Hc eq_refl). done.
    + by go_to id s Ep.
  - done.
Qed.

Lemma good_phases now t live canceled minted minted' s :
  good s -> (forall id p, svStreams s !! id = Some p -> phase_ok now live canceled minted' id p) ->
  svMinted s ⊆ minted' -> Forall (mint_ok now) minted' -> svNow s <= now -> svMinted s = minted ->
  good (MkSrv now t live (svSem s) (svPools s) (svStreams s) canceled minted' (svConns s)).
Proof.
  intros (H1 & H2 & H3 & H4 & H5 & H6) Hp Hm Hmint Hn _. split_and!; cbn [svSem svPools svMinted svConns svNow svLive svCanceled svStreams]; [done..| |].
  - eapply Forall_impl; [exact H5|]. intros c (Hc1 & Hc2 & Hc3). split_and!; [by eapply issued_more|done..].
  - intros id p Hip. by apply Hp.
Qed.

Lemma mint_later now t m : now <= t -> mint_ok now m -> mint_ok t m.
Proof. intros Ht (H1 & Hr). split; [lia|done]. Qed.

Lemma step_good s s' : stream_step s s' -> good s -> good s'.
Proof.
  intros Hs Hg. pose proof Hg as (_ & _ & _ & H4 & _ & H6).
  destruct Hs as [t s Ht Hd|id p d s Hi Hw Hd|id s|b s|cookie s|cookie s|cookie body nonce token tok s Hl Hn Hnow Hb Hm|id rq s Hi Hc Hl Hu|i id s s' Ha].
  - eapply good_phases; [done| |done| |done|done].
    + intros id p Hip. eapply phase_later; [exact Ht| |by apply H6]. intros d Hw Hc. by eapply Hd.
    + eapply Forall_impl; [exact H4|]. intros m. by apply mint_later.
  - eapply good_phases; [done| |done|done|done|done]. intros j q Hj. eapply phase_mono; [by apply H6|done|set_solver|by left].
  - eapply good_phases; [done| |done|done|done|done]. intros j q Hj. eapply phase_mono; [by apply H6|done|set_solver|by left].
  - exact Hg.
  - eapply good_phases; [done| |done|done|done|done]. intros j q Hj. eapply phase_mono; [by apply H6|done|done|set_solver].
  - eapply good_phases; [done| |done|done|done|done]. intros j q Hj. eapply phase_mono; [by apply H6|done|set_solver|].
    intros c Hr Hc. destruct (decide (c = cookie)) as [->|]; [right|left; set_solver].
    apply elem_of_union_l. unfold streams_of. apply elem_of_dom. exists q. by apply map_lookup_filter_Some.
  - destruct (minted_ok _ _ _ _ _ _ Hnow Hn Hb Hm) as [_ Hok].
    eapply good_phases; [done| |set_solver| |done|done].
    + intros j q Hj. eapply phase_mono; [by apply H6|set_solver|done|by left].
    + apply Forall_app. split; [done|]. apply Forall_singleton. apply Hok.
  - destruct Hg as (G1 & G2 & G3 & G4 & G5 & G6). split_and!; cbn [goto svSem svPools svMinted svConns svNow svLive svCanceled svStreams]; [|done..|].
    + rewrite G1. unfold holders. cbn [goto svStreams]. rewrite map_sum_insert_None by done. done.
    + apply map_Forall_insert_2; [exact Hu|done].
  - by eapply advance_good.
Qed.

Lemma reachable_good now previews s : reachable now previews s -> good s.
Proof.
  intros Hr. assert (good (newSrv now previews)) as H0.
  { split_and!; [done|done|apply newPools_ok|constructor|constructor|apply map_Forall_empty]. }
  revert H0. induction Hr as [|x y z Hs _ IH]; [done|]. intros Hx. apply IH. by eapply step_good.
Qed.

(** ** Progress *)

Definition rank (p : phase) : Z :=
  match p with
  | Arrived _ => 6 | Granted _ _ => 5 | Holding _ _ => 4 | Armed _ _ _ _ => 3 | Watched _ _ _ _ _ => 2 | Relaying _ _ _ _ _ _ _ => 1 | Finished _ => 0
  end.
Definition unsent (p : phase) : nat := match p with Relaying _ _ _ _ _ rest _ => length rest | _ => 0 end.
(** Later in the handler, or less left to relay. *)
Definition nearer (q p : phase) : Prop := rank q < rank p \/ (rank q = rank p /\ (unsent q < unsent p)%nat).

Lemma advance_progress i id p s : good s -> svStreams s !! id = Some p -> 0 < rank p ->
  exists s' q, advance i id s = Some s' /\ svStreams s' !! id = Some q /\ nearer q p.
Proof.
  intros (_ & _ & _ & _ & _ & H6) Ep Hr. pose proof (H6 _ _ Ep) as Hp. cbv beta in Hp. unfold advance. rewrite Ep. unfold nearer.
  destruct p as [rq|rq tok|rq tok|rq tok f eg|rq tok f eg d|rq tok resp hs sent rest d|r]; cbn [phase_ok rank] in *.
  - destruct (openMediaToken _ _); [destruct (negb _)|]; (eexists _, _; split; [reflexivity|]; split; [apply lookup_insert_eq|left; reflexivity]).
  - destruct (acquireStream s) as [s1|]; (eexists _, _; split; [reflexivity|]; split; [apply lookup_insert_eq|left; reflexivity]).
  - destruct (fetcherForNetwork _ _ _ _ _) as [f p]. destruct f; (eexists _, _; split; [reflexivity|]; split; [apply lookup_insert_eq|left; reflexivity]).
  - destruct (bool_decide _); (eexists _, _; split; [reflexivity|]; split; [apply lookup_insert_eq|left; reflexivity]).
  - destruct Hp as (_ & Hf & _ & _). pose proof (stream_ok (inWorld i) f (tkURL tok) Hf) as [_ Hs]. destruct (bool_decide _).
    { eexists _, _. split; [reflexivity|]. split; [apply lookup_insert_eq|left; reflexivity]. }
    destruct (fetcher_stream _ _ _) as [[[e|[[[[u st] ct] body] cut]]|] evs]; [| |done].
    + eexists _, _. split; [reflexivity|]. split; [apply lookup_insert_eq|left; reflexivity].
    + destruct (vet_response _); (eexists _, _; split; [reflexivity|]; split; [apply lookup_insert_eq|left; reflexivity]).
  - destruct Hp as (_ & _ & Hb & _). destruct (relay_turn _ _ _ _) as [[more sent'] rest'] eqn:Et. destruct (turn_ok _ _ _ _ _ _ _ _ Et Hb) as (_ & Hm & _).
    destruct more; (eexists _, _; split; [reflexivity|]; split; [apply lookup_insert_eq|]); [right; split; [done|]; by apply Hm|left; reflexivity].
  - done.
Qed.

End stream.

(** ** A run *)

#[local] Existing Instances ascii_unicode demo_url demo_url_laws toy_gcm toy_gcm_laws.

Fixpoint bits (p : positive) : gostring := match p with xI p => x01 :: bits p | xO p => x00 :: bits p | xH => [] end.
Fixpoint unbits (s : gostring) : positive := match s with [] => xH | c :: s => if c == x01 then xI (unbits s) else xO (unbits s) end.
Lemma bits_back p : unbits (bits p) = p.
Proof. induction p as [p IH|p IH|]; cbn; [by rewrite IH|by rewrite IH|done]. Qed.

#[local] Instance toy_token : TokenJson := {|
  token_Marshal t := bits (encode (tkURL t, tkNet t, tkExp t));
  token_Unmarshal s := (fun x : gostring * gostring * Z => MkToken x.1.1 x.1.2 x.2) <$> decode (unbits s)
|}.
#[local] Instance toy_token_laws : TokenJsonLaws.
Proof. split. intros [url net exp] _ _ _. cbn [token_Marshal token_Unmarshal toy_token]. by rewrite bits_back, decode_encode. Qed.
#[local] Instance toy_mime : Mime := {| ParseMediaType s := Some (Cut s x3b).1.1 |}.

Definition demo_song : Media.World :=
  Media.MkWorld (fun _ => [§"93.184.216.34"]) (fun _ => true) (fun _ => None) (fun _ _ => false) (fun _ _ => Final 200 §"audio/ogg" §"la la la" None) false.
Definition demo_input : Input (H := unit) := MkInput true (demo_nets §"direct") demo_song [(§"Content-Length", §"8"); (§"Set-Cookie", §"x=1")] [] false 5 None.
Definition demo_body : option (gostring * gostring) := Some (§"http://a.example", §"net").

#[local] Abbreviation srv := (Srv (H := unit)).
#[local] Abbreviation turn := (advance (decode_egress := demo_egress) (H := unit) []).
Definition after (i : Input (H := unit)) (s : srv) : srv := default s (turn i 0%nat s).

Definition demo_start : srv := set_live ({[§"session"]} ∪ ∅) ∅ (newSrv 0 true).
Definition demo_token : gostring := match handleMediaToken [] true demo_body 0 (Some (replicate 12 x01)) with TkMinted t _ => t | _ => [] end.
Definition demo_minted : srv := log_mint (MkMint 0 §"session" demo_token (MkToken §"http://a.example" §"net" 900)) demo_start.
Definition demo_playing : srv := Nat.iter 6 (after demo_input) (goto 0%nat (Arrived (MkStreamReq §"session" demo_token §"bytes=0-")) demo_minted).
Definition demo_revoked : srv := set_live (svLive demo_playing ∖ {[§"session"]}) (streams_of §"session" demo_playing ∪ svCanceled demo_playing) demo_playing.
Definition demo_ended : srv := after demo_input demo_revoked.

Lemma moves {A} (o : option A) : match o with Some _ => true | None => false end = true -> is_Some o.
Proof. by destruct o; eauto. Qed.

Lemma after_step i s : is_Some (turn i 0%nat s) -> rtc (stream_step (decode_egress := demo_egress) (H := unit) []) s (after i s).
Proof. intros [s' E]. unfold after. rewrite E. apply rtc_once. by eapply step_advance. Qed.

Lemma iter_after n s : (forall k, (k < n)%nat -> is_Some (turn demo_input 0%nat (Nat.iter k (after demo_input) s))) ->
  rtc (stream_step (decode_egress := demo_egress) (H := unit) []) s (Nat.iter n (after demo_input) s).
Proof.
  induction n as [|n IH]; intros Hk; [done|]. cbn [Nat.iter nat_rect]. etrans; [apply IH; intros k Hlt; apply Hk; lia|]. apply after_step, Hk. lia.
Qed.

#[local] Abbreviation runs := (rtc (stream_step (decode_egress := demo_egress) (H := unit) [])).

Lemma demo_to_minted : runs (newSrv 0 true) demo_minted.
Proof.
  eapply rtc_l; [apply (step_login [] §"session")|]. apply rtc_once. unfold demo_minted, demo_start.
  eapply (step_mint [] §"session" demo_body (replicate 12 x01)); [cbn; set_solver|done|done| |vm_compute; reflexivity].
  intros url net E. injection E as <- <-. vm_compute. split; reflexivity.
Qed.

Lemma demo_to_playing : runs demo_minted demo_playing.
Proof.
  unfold demo_playing. eapply rtc_l; [apply (step_arrive [] 0%nat (MkStreamReq §"session" demo_token §"bytes=0-")); [done|cbn; set_solver|cbn; set_solver|]|].
  - intros plain Ho. eexists. split; [left|exact Ho].
  - apply iter_after. intros k Hk. do 6 (destruct k as [|k]; [apply moves; vm_compute; reflexivity|]). lia.
Qed.

Lemma demo_to_ended : runs demo_playing demo_ended.
Proof.
  unfold demo_ended. eapply rtc_l; [apply (step_revoke [] §"session")|]. apply after_step, moves. vm_compute. reflexivity.
Qed.

Lemma demo_stream_reachable : reachable (decode_egress := demo_egress) (H := unit) [] 0 true demo_ended.
Proof. unfold reachable. etrans; [exact demo_to_minted|]. etrans; [exact demo_to_playing|exact demo_to_ended]. Qed.

