(* ===== verification/HubRun.v ===== *)
(** * The hub: concrete runs

    A network with one channel and one conversation, at which the theorems on the event
    loop, the queues and the requests of a browser are applied. *)

From S2P Require Import Prelude GoStrings GoUtf8 GoNet GoTime IrcMsg ISupport Ring RingProofs Store StoreProofs StoreSpec StoreRun Outbound CapNotify ServeLoop StoreQuery Conn HubRoute HubClose HubInfo Hub HubStore HubProofs HubAnnounce HubLayers HubClosed HubQueue HubCommand HubOwn HubHistory HubBounds.

#[local] Existing Instance ascii_unicode.
#[local] Existing Instance ex_ip.
#[local] Existing Instance ref_ircv4.
#[local] Existing Instance Roster.default_limits.
#[local] Existing Instance ex_sha.
#[local] Existing Instance ex_sha_laws.
#[local] Existing Instance ex_store.

(** ** The event loop *)

Definition hub_conn : Conn := manager_conn newISupport §"me" no_caps (MkSender true [] ∅).
Definition hub_now : Z := 1700000000000 * 1000000.
Definition demo_hub : Hub := MkHub (run tight session emptyStore) ∅ noCloses ∅ ∅ ∅ 1.

Lemma demo_store_ok : store_ok tight (hStore demo_hub).
Proof. exact (proj1 (reachable_ok tight ltac:(done) ltac:(done) session session_legal)). Qed.

Definition from_bob (tags : gmap gostring gostring) (cmd : gostring) (params : list gostring) : IrcMsg.Message :=
  MkMessage tags (Some (MkPrefix §"bob" §"b" §"host")) cmd params.
Definition at_net (m : IrcMsg.Message) : Event := HubRoute.MkEvent §"net" m hub_now [] 1.

Definition live_line : Event := at_net (from_bob ∅ §"PRIVMSG" [§"#Go"; §"me: hello"]).
Definition old_line : Event := at_net (from_bob {[ §"batch" := §"h"; §"msgid" := §"z" ]} §"PRIVMSG" [§"#Go"; §"earlier"]).
Definition replaying : Loop := MkLoop {[ §"h" := MkBatch §"#Go" 0 0 [] false ]} ∅ ∅ (MkReg true true true).

Lemma replay_silent_witness :
  historyReplay (evMsg old_line) (histBatches replaying) = true /\
  let '(acts, h', l') := onMessage tight hub_conn hub_now true old_line demo_hub replaying in
  Forall is_cancel acts /\ evolves tight true (hStore demo_hub) (hStore h').
Proof.
  split; [vm_compute; reflexivity|]. destruct (onMessage tight hub_conn hub_now true old_line demo_hub replaying) as [[acts h'] l'] eqn:E.
  destruct (replay_silent tight ltac:(done) ltac:(done) hub_conn hub_now true old_line demo_hub replaying acts h' l' ltac:(done) ltac:(vm_compute; reflexivity) E) as (H1 & _ & _ & H2).
  exact (conj H1 H2).
Defined.


(** The live line is one announced message, a candidate for a push. *)
Example live_line_acts :
  let '(acts, _, _) := onMessage tight hub_conn hub_now true live_line demo_hub newLoop in
  length (announced acts) = 1%nat /\ existsb (fun a => match a with PushCandidate c => pcBuffer c == §"#Go" | _ => false end) acts = true.
Proof. vm_compute. done. Qed.

Definition two_lines : list input := (fun ev => MkInput hub_conn hub_now true (EventMessage ev)) <$> [live_line; at_net (from_bob ∅ §"PRIVMSG" [§"me"; §"hi"])].

Lemma announced_in_order_witness :
  store_ok tight (hStore demo_hub) /\
  let '(acts, h', _) := hubRun tight two_lines demo_hub newLoop in StronglySorted Z.lt (ID <$> announced acts) /\ store_ok tight (hStore h').
Proof.
  split; [exact demo_store_ok|]. pose proof (announced_in_order tight ltac:(done) ltac:(done) two_lines demo_hub newLoop demo_store_ok) as Ha.
  destruct (hubRun tight two_lines demo_hub newLoop) as [[acts h'] l']. destruct Ha as (H1 & _ & H2 & _). exact (conj H1 H2).
Defined.

(** A batch opens in both layers. *)
Definition batch_lines : list (LineCtx * IrcMsg.Message) := [(ex_ctx, newMsg §"BATCH" [§"+h"; §"chathistory"; §"#go"]); (ex_ctx, evMsg old_line)].

Lemma batch_opens :
  (let '(err, _, s') := serveLoop ex_cfg false true §"irc.example:6697" batch_lines ex_live in bool_decide (err = None) && bool_decide (lHist s' = {[ §"h" ]})) = true.
Proof. vm_compute. reflexivity. Qed.


(** A batch that opens, carries a line and ends, after which the next page may be asked for. *)
Definition paging_lines : list input :=
  (fun m => MkInput hub_conn hub_now true (EventMessage (at_net m))) <$>
    [newMsg §"BATCH" [§"+h"; §"chathistory"; §"#go"]; evMsg old_line; newMsg §"BATCH" [§"-h"]].

Lemma hub_loop_bounded_witness :
  Forall same_connection paging_lines /\
  let '(_, _, l) := hubRun tight paging_lines demo_hub newLoop in
  loop_ok l /\ paged tight paging_lines demo_hub newLoop <= maxBackfillTargets * maxBackfillPages.
Proof.
  split; [by repeat constructor|]. pose proof (hub_loop_bounded tight) as Hall. specialize (Hall paging_lines demo_hub).
  destruct (hubRun tight paging_lines demo_hub newLoop) as [[acts h'] l]. destruct Hall as [H1 H2]. split; [exact H1|]. apply H2. by repeat constructor.
Defined.

(** A line for a channel that was just closed. *)
Definition closed_hub : Hub := with_closes (markClosed (@map_to_list _ _ _ _) §"net" §"#go" (UnixMilli hub_now) noCloses) demo_hub.

Lemma hash_is_channel t : connFold hub_conn t = §"#go" -> connIsChannel hub_conn t = true.
Proof. destruct t as [|c t]; [done|]. cbn. intros [= Hc _]. by destruct c. Qed.

Lemma demo_names_fit : names_fit (hStore demo_hub).
Proof.
  intros id b. revert id b. change (map_Forall (fun _ b => len (bName b) <= maxStoredFieldBytes) (db (hStore demo_hub))).
  apply map_Forall_to_list. vm_compute. repeat (constructor; [discriminate|]). constructor.
Qed.

Lemma closed_stays_closed_witness :
  is_closed §"net" §"#go" (UnixMilli hub_now) (hCloses closed_hub) /\
  let '(acts, h', l') := onMessage tight hub_conn hub_now true live_line closed_hub newLoop in
  undisturbed (connFold hub_conn) §"net" §"#go" (hStore closed_hub) (hStore h') /\
  Forall (fun m => Ring.Network m = §"net" -> connFold hub_conn (Target m) <> §"#go") (announced acts).
Proof.
  split; [vm_compute; reflexivity|]. destruct (onMessage tight hub_conn hub_now true live_line closed_hub newLoop) as [[acts h'] l'] eqn:E.
  apply (closed_stays_closed tight ltac:(done) ltac:(done) hub_conn §"net" §"#go" hub_now true live_line closed_hub newLoop acts h' l' demo_store_ok demo_names_fit ltac:(vm_compute; reflexivity) eq_refl).
  - split_and!; [by vm_compute..|constructor].
  - apply map_Forall_empty.
  - exact hash_is_channel.
  - vm_compute. discriminate.
  - exact E.
Defined.

(** ** Our own messages *)

Definition demo_link : Link := MkLink newISupport §"me" no_caps 0 0 (MkSender true [] ∅).
Definition empty_hub : Hub := MkHub emptyStore ∅ noCloses ∅ ∅ ∅ 0.
Definition demo_desk : Desk := MkDesk empty_hub {[ §"net" := demo_link ]} {[ §"net" ]}.


Definition buddy_reqs : list (option MonitorReq * bool) :=
  [(Some (MkMonitorReq §"net" §"Bob"), true); (Some (MkMonitorReq §"net" §"bob"), true); (Some (MkMonitorReq §"net" §"al"), true); (None, false)].

Lemma buddy_list_sound_witness :
  buddies §"net" demo_desk = ∅ /\
  let d' := foldl (fun d (q : option MonitorReq * bool) => (handleMonitor q.1 q.2 d).2) demo_desk buddy_reqs in
  size (buddies §"net" d') = 2%nat /\ buddies_ok (monitorFold (dkLinks d' !! §"net")) (buddies §"net" d').
Proof.
  split; [vm_compute; reflexivity|]. intros d'. split; [vm_compute; reflexivity|].
  exact (buddy_list_sound buddy_reqs demo_desk §"net" ltac:(vm_compute; reflexivity)).
Defined.

(** What we sent comes back in a replay. *)
Definition own_replayed : Event :=
  at_net (MkMessage {[ §"batch" := §"h"; §"msgid" := §"own1" ]} (Some (MkPrefix §"me" §"u" §"h")) §"PRIVMSG" [§"bob"; §"hello"]).
Definition own_loop : Loop := MkLoop {[ §"h" := MkBatch §"BOB" 0 0 [] false ]} ∅ ∅ (MkReg true true true).

Lemma own_message_kept_once_witness :
  exists m d', persistOwn tight hub_now demo_link §"net" §"bob" §"hello" demo_desk = ([Hub.Broadcast (EnvEvent m)], d') /\
  let '(_, h', _) := onMessage tight hub_conn hub_now true own_replayed (dkHub d') own_loop in
  grows true (hStore h') (hStore (dkHub d')) /\
  exists id b, db (hStore h') !! id = Some b /\ bNetwork b = §"net" /\ ID m ∈ row_ids b /\ has_id §"own1" (table b) = true.
Proof.
  destruct (persistOwn tight hub_now demo_link §"net" §"bob" §"hello" demo_desk) as [acts0 d'] eqn:Ep.
  assert (exists m, acts0 = [Hub.Broadcast (EnvEvent m)]) as [m ->].
  { assert (forall r, r = persistOwn tight hub_now demo_link §"net" §"bob" §"hello" demo_desk -> exists m, r.1 = [Hub.Broadcast (EnvEvent m)]) as Hr by (intros r ->; vm_compute; by eexists).
    exact (Hr _ (eq_sym Ep)). }
  exists m, d'. split; [reflexivity|]. destruct (onMessage tight hub_conn hub_now true own_replayed (dkHub d') own_loop) as [[acts h'] l'] eqn:E.
  apply (own_message_kept_once tight ltac:(done) ltac:(done) demo_link §"net" §"bob" §"hello" hub_now demo_desk m d' hub_conn hub_now true own_replayed own_loop (MkBatch §"BOB" 0 0 [] false) acts h' l'); try done.
Defined.

(** ** Outbound queues *)

Definition iter_set : gset Z -> list Z := elements.
Definition two_sessions : Queues :=
  MkQueues {[ 1 := MkSession 0 [] false Fresh false; 2 := MkSession 90 [replicate 90 x61] false Fresh false ]} 90 {[ 1; 2 ]} false.

(** One session registers and a frame is pushed to it and reserved in both budgets. *)
Lemma pushed_reachable : reachable 100 100 iter_set ([[Enqueue 1 §"abc"]], MkQueues {[ 1 := MkSession 3 [] false Fresh false ]} 3 ∅ false).
Proof.
  unfold reachable, start. eapply rtc_l; [apply (StepSpawn _ _ _ (push 1 §"abc")); constructor|]. unfold push.
  eapply rtc_l; [apply (StepExec _ _ _ [] []); reflexivity|]. eapply rtc_l; [apply (StepExec _ _ _ [] []); reflexivity|]. apply (eq_ind _ (fun x => rtc _ x _) (rtc_refl _ _)). by vm_compute.
Qed.

Lemma queue_bytes_exact_witness :
  let q := MkQueues {[ 1 := MkSession 3 [] false Fresh false ]} 3 ∅ false in
  reachable 100 100 iter_set ([[Enqueue 1 §"abc"]], q) /\ hubQueued q = queued q + in_flight owed_hub [[Enqueue 1 §"abc"]] /\ 0 <= hubQueued q <= 100.
Proof.
  intros q. split; [exact pushed_reachable|].
  destruct (queue_bytes_exact 100 100 iter_set _ q ltac:(done) ltac:(done) pushed_reachable) as (_ & H1 & H2 & _). exact (conj H1 H2).
Defined.

Lemma two_sessions_ok : queues_ok 100 100 [] two_sessions.
Proof.
  assert (forall s, s = 1 \/ s = 2 \/ get two_sessions s = newSession) as Hs.
  { intros s. destruct (decide (s = 1)); [auto|]. destruct (decide (s = 2)); [auto|]. right. right. unfold get, two_sessions. cbn [sess]. by rewrite lookup_insert_ne, lookup_singleton_ne by done. }
  split; try (intros s; destruct (Hs s) as [->|[->| ->]]; by vm_compute).
  - by vm_compute.
  - by vm_compute.
  - by vm_compute.
  - intros s t Ht. by apply elem_of_nil in Ht.
Qed.

Lemma slow_consumer_pays_witness :
  queues_ok 100 100 [] two_sessions /\
  exists q', rtc (alone 100 100 iter_set) ([PushFrame 1 (replicate 20 x62) Evict], two_sessions) ([], q') /\
    qOut (get q' 1) = [replicate 20 x62] /\ closed (get q' 2) = true /\ qOut (get q' 2) = [].
Proof.
  split; [exact two_sessions_ok|].
  destruct (slow_consumer_pays 100 100 iter_set ltac:(intros ss x; apply elem_of_elements) 1 2 (replicate 20 x62) two_sessions two_sessions_ok) as (q' & H1 & H2 & _ & H3 & H4 & _);
    try (by vm_compute).
  - split_and!; [set_solver|by vm_compute|]. intros x Hx. assert (x = 1 \/ x = 2) as [->| ->] by set_solver; [right|left]; by vm_compute.
  - exists q'. split_and!; [exact H1|exact H2|exact H3|exact H4].
Defined.

(** ** History pages *)

Lemma history_payload_bounded_witness :
  base §"net" §"#Go" <= maxHistoryPayloadBytes /\
  len (history_json (boundedHistoryPage §"net" §"#Go" (table (default (MkBuffer [] [] false None []) (db session_store !! 1))) 1 historyBackward None)) <= maxHistoryPayloadBytes.
Proof.
  split; [by vm_compute|]. apply (history_payload_bounded §"net" §"#Go" (table (default (MkBuffer [] [] false None []) (db session_store !! 1))) 1 historyBackward None). by vm_compute.
Defined.

Lemma demo_names : (§"net" <> [] /\ §"#Go" <> []) /\ len §"net" <= maxStoredFieldBytes /\ len §"#Go" <= maxStoredFieldBytes.
Proof. by vm_compute. Qed.
Lemma demo_found : find_buffer §"net" §"#Go" (run tight session emptyStore) = Some 1.
Proof. vm_compute. reflexivity. Qed.
Definition demo_buffer : Buffer := Eval vm_compute in default (MkBuffer [] [] false None []) (db session_store !! 1).
Lemma demo_table :
  exists b, db (run tight session emptyStore) !! 1 = Some b /\ length (table b) = 3%nat /\ Forall row_small (table b) /\
    Forall (fun m => cursorLess (CursorOf m) maxCursor = true) (table b).
Proof.
  exists demo_buffer. split; [vm_compute; reflexivity|]. split; [reflexivity|]. unfold demo_buffer. cbn [table].
  split; repeat apply Forall_cons_2; try apply Forall_nil_2; try (vm_compute; reflexivity); (split; [repeat apply Forall_cons_2; try apply Forall_nil_2|]; vm_compute; discriminate).
Qed.

Lemma history_walk_complete_witness :
  exists b, db (run tight session emptyStore) !! 1 = Some b /\ length (table b) = 3%nat /\
    walk_back tight 4 §"net" §"#Go" 1 None (run tight session emptyStore) = eventData <$> table b.
Proof.
  pose proof (proj1 (reachable_ok tight ltac:(done) ltac:(done) session session_legal)) as Hok. destruct demo_names as [[N1 N2] [L1 L2]]. pose proof demo_found as Hf.
  destruct demo_table as (b & Eb & H1 & H2 & H3). exists b. split; [exact Eb|]. split; [exact H1|]. change 4%nat with (S 3). rewrite <- H1.
  exact (history_walk_complete tight ltac:(clear; done) ltac:(clear; done) §"net" §"#Go" N1 N2 L1 L2 1 (run tight session emptyStore) 1 b Hok Hf Eb H2 H3).
Defined.
