(* ===== verification/PolicyRun.v ===== *)
(** * Policies, push delivery and networks: concrete runs

    An encoding that stands for encoding/json discharges the laws the policies, the push
    scheduler and the networks rely on; the theorems are applied to small tables. *)

From S2P Require Import Prelude GoStrings GoUtf8 GoNet GoTime IrcMsg ISupport Ring Store StoreProofs StoreRun StoreQuery Highlight Outbound CapNotify Conn HubRoute Hub Policy PolicyProofs Push PushProofs Config Netconf Networks NetworksProofs NetworksPut.

(** ** An encoding *)

Fixpoint bits (p : positive) : gostring := match p with xH => [x2e] | xO p => x30 :: bits p | xI p => x31 :: bits p end.
Fixpoint unbits (s : gostring) : option positive :=
  match s with
  | [x2e] => Some xH
  | x30 :: s => xO <$> unbits s
  | x31 :: s => xI <$> unbits s
  | _ => None
  end.

Lemma unbits_bits p : unbits (bits p) = Some p.
Proof. induction p as [p IH|p IH|]; [| |done]; cbn; rewrite IH; done. Qed.

Definition wrap {A} `{Countable A} (x : A) : gostring := x7b :: bits (encode x).
Definition unwrap {A} `{Countable A} (clean : A -> bool) (s : gostring) : option A :=
  match s with
  | x7b :: s => match unbits s ≫= decode with Some x => if clean x then Some x else None | None => None end
  | _ => None
  end.

Lemma unwrap_wrap {A} `{Countable A} (clean : A -> bool) x : clean x = true -> unwrap clean (wrap x) = Some x.
Proof. intros Hc. unfold unwrap, wrap. rewrite unbits_bits. cbn. by rewrite decode_encode, Hc. Qed.

Lemma unwrap_clean {A} `{Countable A} (clean : A -> bool) s x : unwrap clean s = Some x -> clean x = true.
Proof. unfold unwrap. repeat (case_match; try done). by intros [= <-]. Qed.

Lemma drop_spaces_last l e : IsSpace e.1 = false -> exists l', drop_spaces (l ++ [e]) = l' ++ [e].
Proof.
  intros He. induction l as [|[r b] l IH]; [exists []; destruct e as [r b]; cbn in *; by rewrite He|]. cbn. destruct (IsSpace r); [done|]. by exists ((r, b) :: l).
Qed.

Lemma brace_object s : isJSONObject (x7b :: s) = true.
Proof.
  unfold isJSONObject, TrimSpace. assert (exists l, chunks (x7b :: s) = (123, [x7b]) :: l) as [l ->] by (by eexists). cbn [drop_spaces]. change (IsSpace 123) with false. cbn iota.
  rewrite reverse_cons. destruct (drop_spaces_last (reverse l) (123, [x7b]) eq_refl) as [l' ->]. by rewrite reverse_snoc.
Qed.

#[local] Instance Rule_eq_dec : EqDecision Rule.
Proof. solve_decision. Defined.
#[local] Instance Rule_countable : Countable Rule := inj_countable' (fun r => (Pattern r, RNetwork r, RID r)) (fun x => MkRule x.1.1 x.1.2 x.2) ltac:(by intros []).
#[local] Instance RulesData_eq_dec : EqDecision RulesData.
Proof. solve_decision. Defined.
#[local] Instance RulesData_countable : Countable RulesData := inj_countable' (fun d => (Rules d, RSeeded d)) (fun x => MkRules x.1 x.2) ltac:(by intros []).
#[local] Instance FiltersData_eq_dec : EqDecision FiltersData.
Proof. solve_decision. Defined.
#[local] Instance FiltersData_countable : Countable FiltersData :=
  inj_countable' (fun d => (Ignores d, Mutes d, FSeeded d)) (fun x => MkFilters x.1.1 x.1.2 x.2) ltac:(by intros []).
#[local] Instance wgConfig_eq_dec : EqDecision wgConfig.
Proof. solve_decision. Defined.
#[local] Instance SASLDef_eq_dec : EqDecision SASLDef.
Proof. solve_decision. Defined.
#[local] Instance Network_eq_dec : EqDecision Network.
Proof. solve_decision. Defined.
#[local] Instance SASLDef_countable : Countable SASLDef :=
  inj_countable' (fun s => (sdMechanism s, sdLogin s, sdPassword s, sdCertFile s, sdKeyFile s)) (fun x => MkSASLDef x.1.1.1.1 x.1.1.1.2 x.1.1.2 x.1.2 x.2) ltac:(by intros []).
#[local] Instance wgConfig_countable : Countable wgConfig :=
  inj_countable' (fun w => (PrivateKey w, PeerPublicKey w, PresharedKey w, Config.Endpoint w, Address w, DNS w, MTU w))
    (fun x => MkWg x.1.1.1.1.1.1 x.1.1.1.1.1.2 x.1.1.1.1.2 x.1.1.1.2 x.1.1.2 x.1.2 x.2) ltac:(by intros []).
#[local] Instance Network_countable : Countable Network :=
  inj_countable' (fun n => ((((nwName n, nwAddr n), (nwTLS n, nwAllowPlaintext n)), ((nwFingerprints n, nwProxy n), (nwWireGuard n, nwNick n))),
                            (((nwUsername n, nwRealname n), (nwPass n, nwSASL n)), (nwChannels n, nwChannelKeys n))))
    (fun x => let '((((a, b), (c, d)), ((e, f), (g, h))), (((i, j), (k, l)), (m, n))) := x in MkNetwork a b c d e f g h i j k l m n) ltac:(by intros []).

#[local] Instance demo_json : PolicyJson := {|
  marshalRules := wrap; unmarshalRules := unwrap rules_clean;
  marshalFilters := wrap; unmarshalFilters := unwrap filters_clean;
  marshalRenames := wrap; unmarshalRenames := unwrap names_clean;
  jsonValid _ := true
|}.
#[local] Instance demo_json_laws : PolicyJsonLaws.
Proof.
  split; [intros d; exact (brace_object _)|intros d; exact (brace_object _)|intros d; exact (brace_object _)
         |exact (unwrap_wrap rules_clean)|exact (unwrap_wrap filters_clean)|exact (unwrap_wrap names_clean)
         |exact (unwrap_clean rules_clean)|exact (unwrap_clean filters_clean)|exact (unwrap_clean names_clean)].
Qed.
#[local] Instance demo_net_json : NetJson := {| decodeNetwork := unwrap network_clean; encodeNetwork := wrap |}.
#[local] Instance demo_net_json_laws : NetJsonLaws.
Proof. split; [intros n _ Hc; exact (unwrap_wrap network_clean n Hc)|exact (unwrap_clean network_clean)]. Qed.

#[local] Existing Instance ascii_unicode.
#[local] Instance ascii_lower : UnicodeLower.
Proof. split; intros r Hr; unfold rune_lower; cbn; repeat (case_match; try lia; try done). Qed.

(** ** Policies through renames *)

Definition demo_filters : FiltersData := MkFilters {[ §"lib" := [§"Troll"] ]} [§"lib" ++ x0a :: §"#noise"] false.
Definition demo_rules : RulesData := MkRules [MkRule §"deploy" §"lib" §"r1"] false.
Definition demo_rows : settings := {[ filtersKey := marshalFilters demo_filters; rulesKey := marshalRules demo_rules ]}.

Definition demo_writes : option renameWrites := computeRenameWrites no_failure §"lib" §"net" demo_rows.

Lemma demo_writes_some : is_Some demo_writes.
Proof.
  assert ((match demo_writes with Some _ => true | None => false end) = true) as H by (vm_compute; reflexivity). by destruct demo_writes.
Qed.

Lemma demo_rename_names : §"lib" <> §"net" /\ §"lib" <> [] /\ §"net" <> [] /\ (x0a ∉ §"lib") /\ (x0a ∉ §"net") /\ ValidString §"net" = true.
Proof. split_and!; try done; refine (bool_decide_unpack _ _); by vm_compute. Qed.
Lemma demo_filters_drop :
  exists g, loadFiltersChecked no_failure demo_rows = Some g /\ drops (buildPushFilters g) §"lib" §"#noise" §"x" = true /\ drops (buildPushFilters g) §"lib" §"#c" §"TROLL" = true.
Proof. exists demo_filters. split; [vm_compute; reflexivity|]. vm_compute. done. Qed.

Lemma policy_follows_rename_witness :
  exists rw f', computeRenameWrites no_failure §"lib" §"net" demo_rows = Some rw /\
    loadFiltersChecked no_failure (SetSettings (rwSettings rw) demo_rows) = Some f' /\
    drops (buildPushFilters f') §"net" §"#noise" §"x" = true /\ drops (buildPushFilters f') §"net" §"#c" §"TROLL" = true /\
    drops (buildPushFilters f') §"lib" §"#noise" §"x" = false.
Proof.
  destruct demo_rename_names as (N1 & N2 & N3 & N4 & N5 & N6). destruct demo_filters_drop as (g & Hg & D1 & D2). destruct demo_writes_some as [rw Erw]. unfold demo_writes in Erw.
  destruct (policy_follows_rename no_failure §"lib" §"net" demo_rows rw N1 N2 N3 N4 N5 N6 Erw) as ((f & f' & Hf & Hf' & Hd) & _ & _).
  exists rw, f'. split; [exact Erw|]. split; [exact Hf'|]. rewrite Hf in Hg. injection Hg as ->.
  split; [rewrite (Hd _ _ _ N5), D1; reflexivity|split; [rewrite (Hd _ _ _ N5), D2; reflexivity|rewrite (Hd _ _ _ N4); reflexivity]].
Defined.

Definition demo_renames : list (gostring * gostring) := [(§"lib", §"net")].
Definition demo_renamed : option settings := rename_all no_failure demo_renames demo_rows.
Definition ignores_order : gmap gostring (list gostring) -> list (gostring * list gostring) := map_to_list.
Definition demo_healed : option (list policyAct * settings) :=
  rows1 ← demo_renamed; Some (handleSetFilters no_failure ignores_order (Some demo_filters) true rows1).

Lemma demo_healed_ok : exists rows1 acts rows2, rename_all no_failure demo_renames demo_rows = Some rows1 /\
  handleSetFilters no_failure ignores_order (Some demo_filters) true rows1 = (PPush POk :: acts, rows2).
Proof.
  assert ((match demo_healed with Some (PPush POk :: _, _) => true | _ => false end) = true) as H by (vm_compute; reflexivity).
  unfold demo_healed, demo_renamed in H. revert H. destruct (rename_all no_failure demo_renames demo_rows) as [rows1|] eqn:E1; [|discriminate]. cbn [mbind option_bind].
  destruct (handleSetFilters no_failure ignores_order (Some demo_filters) true rows1) as [acts rows2] eqn:E2. intros H. destruct acts as [|[[]| | |] acts]; try discriminate H. exists rows1, acts, rows2. split; [reflexivity|exact E2].
Qed.

Lemma demo_rename_ok : demo_rows !! renamesKey = None /\ (length demo_renames <= 128)%nat /\ Forall (fun r => r.1 <> r.2 /\ name_ok r.1 /\ name_ok r.2) demo_renames /\
  filters_clean demo_filters = true /\ ignores_order (Ignores demo_filters) ≡ₚ map_to_list (Ignores demo_filters).
Proof.
  split; [vm_compute; reflexivity|]. split; [by vm_compute; lia|]. split; [|by vm_compute].
  destruct demo_rename_names as (N1 & _ & _ & N4 & N5 & N6). constructor; [|constructor]. split_and!; try done.
Qed.

(** A tab that still knows the network by its old name sets its filters. *)
Lemma stale_filters_heal_witness :
  exists rows1 acts rows2 f, rename_all no_failure demo_renames demo_rows = Some rows1 /\
    handleSetFilters no_failure ignores_order (Some demo_filters) true rows1 = (PPush POk :: acts, rows2) /\
    loadFiltersChecked no_failure rows2 = Some f /\ drops (buildPushFilters f) §"net" §"#noise" §"x" = true.
Proof.
  destruct demo_healed_ok as (rows1 & acts & rows2 & E1 & E2). destruct demo_rename_ok as (R1 & R2 & R3 & R4 & R5).
  destruct (stale_filters_heal no_failure no_failure ignores_order demo_filters demo_renames demo_rows rows1 rows2 acts R1 R2 R3 E1 R4 R5 E2) as (f & Hf & Hd & _ & _).
  exists rows1, acts, rows2, f. split; [exact E1|]. split; [exact E2|]. split; [exact Hf|].
  exact (Hd §"lib" §"net" [] [] §"#noise" §"x" eq_refl (not_elem_of_nil _) (not_elem_of_nil _) ltac:(vm_compute; reflexivity)).
Defined.

(** ** Networks *)

Definition demo_network : Network :=
  MkNetwork §"net" §"irc.example.org:6697" true false [] [] None §"me" §"me" §"Me" [] None [§"#go"] ∅.
Definition no_nets : @Nets Z := MkNets ∅ ∅ demo_rows ∅ ∅ ∅.
Definition all_well : @Outcomes Z := MkOutcomes true true no_failure true true None true true.
Definition no_start : @Outcomes Z := MkOutcomes true true no_failure true false None true true.
Definition demo_put : option PutNetworkReq := Some (MkPut (encodeNetwork demo_network) []).
Definition forget : Z -> Z := fun _ => 0.

Lemma no_nets_ok : nets_ok no_nets.
Proof. split; unfold stored_config; cbn; intros *; rewrite ?lookup_empty; done. Qed.

Definition demo_requests : list request := [RPut demo_put no_start; RPut demo_put all_well; RAutojoin §"net" [§"#new"] ∅ true id true true].

Lemma runtime_matches_storage_witness :
  nets_ok no_nets /\ let s' := foldl (fun s r => serve forget r s) no_nets demo_requests in
  (forall name n, nsProcs s' !! name = Some n -> EffectiveName n = name /\ exists config n', stored_config s' name = Some config /\ decodeNetwork config = Some n' /\ same_network n n') /\
  config_count s' <= 64.
Proof.
  split; [exact no_nets_ok|]. intros s'.
  destruct (runtime_matches_storage forget demo_requests no_nets no_nets_ok) as (H1 & _ & H2); [|split; [exact H1|exact H2]].
  repeat constructor; intros w key Hw; by rewrite lookup_empty in Hw.
Defined.

Lemma demo_runs : (match nsProcs (foldl (fun s r => serve forget r s) no_nets demo_requests) !! §"net" with Some n => nwName n == §"net" | None => false end) = true.
Proof. vm_compute. reflexivity. Qed.


(** Our own JOIN of two channels, one of which cannot be stored. *)
#[local] Existing Instance ref_ircv4.
Definition demo_conn : Conn := manager_conn newISupport §"me" no_caps (MkSender true [] ∅).
Definition own_join : IrcMsg.Message := MkMessage ∅ (Some (MkPrefix §"me" §"u" §"h")) §"JOIN" [§"#new,#a" ++ x00 :: §"b"].
Definition demo_stored : @Nets Z := MkNets {[ §"net" := (1, encodeNetwork demo_network) ]} ∅ ∅ ∅ {[ §"net" := StateDisconnected ]} ∅.
Lemma demo_usable : usable demo_stored §"net".
Proof. exists (encodeNetwork demo_network), demo_network. split; [vm_compute; reflexivity|]. split; [vm_compute; reflexivity|]. intros k [v Hv]. cbn in Hv. by rewrite lookup_empty in Hv. Qed.
Lemma demo_keys : keys_utf8 demo_conn.
Proof. intros ch. vm_compute. reflexivity. Qed.


(** ** Push delivery *)

(** A world in which every query succeeds and the push service does not answer. *)
Definition canned (lim : limits) (w : World) (o : op) : answer o * World :=
  match o with
  | LoadEpoch => (wEpoch w, w)
  | CurrentPushGen => (wGen w, w)
  | LoadCount => (wCount w, w)
  | LoadRulesGen => (wRulesGen w, w)
  | LoadSubscriptions => (Some (wSubs w), w)
  | GenErr gen => (negb (live w gen), w)
  | LoadMarker network buffer => let '(m, st) := ReadMarker lim network buffer (wStore w) in (Some m, set_wstore st w)
  | LoadBufferState network buffer => let '(b, st) := BufferState lim network buffer (wStore w) in (Some b, set_wstore st w)
  | LoadRedacted network buffer msgid => let '(r, st) := MessageRedacted lim network buffer msgid (wStore w) in (Some r, set_wstore st w)
  | LoadFilters => (loadFiltersChecked no_failure (wRows w), w)
  | LoadRules => (loadRulesChecked no_failure (wRows w), w)
  | Encrypt _ _ _ => (Body [x01], w)
  | Push.Send _ _ _ _ _ => (SentFailed, w)
  | TouchPushSuccess _ _ | RefreshCount _ => (tt, w)
  | DeleteSubscription _ _ => (false, w)
  end.

Lemma canned_answers lim w o : answers lim w o (canned lim w o).1 (canned lim w o).2.
Proof.
  destruct o as [| | |g| |n b|n b|n b m| | | | | | | |]; cbn [answers canned fst snd]; eauto; try done.
  - by destruct (ReadMarker lim n b (wStore w)); cbn; auto.
  - by destruct (BufferState lim n b (wStore w)); cbn; auto.
  - by destruct (MessageRedacted lim n b m (wStore w)); cbn; auto.
Qed.

(** Lets worker [i] run for [n] operations, up to its first request. *)
Fixpoint drive (lim : limits) (n : nat) (i : nat) (x : World * Pusher) : World * Pusher :=
  match n with
  | O => x
  | S n =>
      match scWorkers x.2 !! i with
      | Some (Some (MkWorker job log (Do (Push.Send _ _ _ _ _) _))) => x
      | Some (Some (MkWorker job log (Do o k))) =>
          let r := canned lim x.1 o in drive lim n i (r.2, set_worker i (Some (MkWorker job (log ++ [MkEvent x.1 o r.1]) (k r.1))) x.2)
      | _ => x
      end
  end.

Lemma drive_reachable lim delay n i x : push_reachable lim delay x -> push_reachable lim delay (drive lim n i x).
Proof.
  revert x. induction n as [|n IH]; intros [w s] Hx; [done|]. cbn [drive fst snd].
  destruct (scWorkers s !! i) as [[[job log [|o k]]|]|] eqn:E; try done.
  assert (push_reachable lim delay (drive lim n i ((canned lim w o).2, set_worker i (Some (MkWorker job (log ++ [MkEvent w o (canned lim w o).1]) (k (canned lim w o).1))) s))) as Hgo.
  { apply IH. eapply pr_step; [exact Hx|]. eapply ps_work; [exact E|apply canned_answers]. }
  destruct o; first [exact Hgo|exact Hx].
Qed.

Definition sending (x : World * Pusher) (i : nat) : bool :=
  match scWorkers x.2 !! i with Some (Some (MkWorker _ _ (Do (Push.Send gen _ _ _ _) _))) => live x.1 gen && (Z.of_nat (length (wRevs x.1)) <? 2 ^ 64) | _ => false end.

Lemma sending_spec x i : sending x i = true ->
  exists job log gen endpoint k1 k2 body k, scWorkers x.2 !! i = Some (Some (MkWorker job log (Do (Push.Send gen endpoint k1 k2 body) k))) /\ live x.1 gen = true /\ Z.of_nat (length (wRevs x.1)) < 2 ^ 64.
Proof.
  unfold sending. destruct (scWorkers x.2 !! i) as [[[job log [|o k]]|]|]; try discriminate. destruct o; try discriminate.
  intros [H1 H2]%andb_true_iff. apply Z.ltb_lt in H2. by eexists _, _, _, _, _, _, _, _.
Qed.

Definition demo_push_rows : settings := {[ rulesKey := marshalRules (MkRules [] false) ]}.
Definition demo_subs : list PushSubscription := [MkSubscription §"https://push.example/1" §"AAAA" §"AAAA"].
Definition demo_world : World := MkWorld (run tight session emptyStore) demo_push_rows demo_subs 1 0 0 0 [].
Definition demo_pusher : Pusher := startPusher (loadRulesChecked no_failure demo_push_rows) (loadFiltersChecked no_failure demo_push_rows) 0.
Definition demo_mention : pushCandidate := MkCandidate §"#Go" §"bob" §"me: hello" §"me" 5000 [] true.

(** A mention is admitted, its delay passes, and a worker takes it. *)
Definition demo_admitted : Pusher :=
  set_pending (admitCandidate (scPending demo_pusher) §"net" demo_mention (scRules demo_pusher) (scFilters demo_pusher) (scFiltersOK demo_pusher) (scNow demo_pusher) 10 0) demo_pusher.
Definition demo_waited : Pusher := set_now 20 demo_admitted.
Definition demo_due : pendings * list pushJob := enqueueDuePushes 20 (map_to_list (scPending demo_waited)) (scPending demo_waited) (scJobs demo_waited).
Definition demo_queued : Pusher := set_jobs demo_due.2 (set_pending (demo_due.1, true) demo_waited).
Definition demo_job : pushJob := default (MkJob [] (MkPending 0 [] [] [] [] 0 0 0 false 0)) (head (scJobs demo_queued)).
Definition demo_taken : Pusher := set_worker 0 (Some (MkWorker demo_job [] (deliverPush demo_job))) (set_jobs [] demo_queued).
Definition demo_sending : World * Pusher := drive tight 20 0 (demo_world, demo_taken).

Lemma demo_timer : scTimer demo_waited = Some 10 /\ scJobs demo_queued = [demo_job] /\ scWorkers demo_queued !! 0%nat = Some None.
Proof. vm_compute. done. Qed.

Lemma demo_started : push_reachable tight 10 (demo_world, demo_pusher).
Proof. exact (pr_start tight 10 (run tight session emptyStore) demo_push_rows demo_subs 1 0 0%nat no_failure no_failure 0). Qed.

Lemma demo_admits : push_reachable tight 10 (demo_world, demo_admitted).
Proof.
  eapply pr_step; [exact demo_started|]. apply (ps_candidate tight 10 demo_world demo_pusher §"net" demo_mention); [vm_compute; reflexivity|].
  refine (bool_decide_unpack _ _). by vm_compute.
Qed.

Lemma demo_queues : push_reachable tight 10 (demo_world, demo_queued).
Proof.
  destruct demo_timer as (Ht & _). unfold demo_queued. eapply pr_step; [eapply pr_step; [exact demo_admits|]|].
  - apply (ps_clock tight 10 demo_world demo_admitted 20). by vm_compute.
  - apply (ps_timer tight 10 demo_world demo_waited (map_to_list (scPending demo_waited)) 10 demo_due.1 demo_due.2); [vm_compute; reflexivity|exact Ht|by vm_compute|reflexivity|].
    change (demo_due = (demo_due.1, demo_due.2)). apply surjective_pairing.
Qed.

Lemma demo_takes : push_reachable tight 10 (demo_world, demo_taken).
Proof.
  destruct demo_timer as (_ & Hj & Hw). unfold demo_taken. eapply pr_step; [exact demo_queues|]. exact (ps_take tight 10 demo_world demo_queued 0 demo_job [] Hj Hw).
Qed.

Lemma demo_sends : sending demo_sending 0 = true.
Proof. vm_compute. reflexivity. Qed.

Lemma demo_sending_reachable : push_reachable tight 10 demo_sending.
Proof. apply drive_reachable, demo_takes. Qed.


Lemma revoked_endpoint_spared_witness :
  exists w s job log o k, push_reachable tight 10 (w, s) /\ scWorkers s !! 0%nat = Some (Some (MkWorker job log (Do o k))) /\
    exists w1 sub, w1 ∈ evWorld <$> log /\ sub ∈ wSubs w1.
Proof.
  pose proof demo_sending_reachable as Hr. pose proof demo_sends as Hs. destruct demo_sending as [w s].
  destruct (sending_spec _ _ Hs) as (job & log & gen & endpoint & k1 & k2 & body & k & Hw & Hl & Hn). cbn [fst snd] in Hw, Hl, Hn.
  destruct (revoked_endpoint_spared tight 10 w s 0 job log (Push.Send gen endpoint k1 k2 body) k gen endpoint Hr Hn Hw) as (w1 & sub & H1 & H2 & _); [right; by eexists _, _, _|exact Hl|].
  exists w, s, job, log, (Push.Send gen endpoint k1 k2 body), k. split; [exact Hr|]. split; [exact Hw|]. exists w1, sub. exact (conj H1 H2).
Defined.

Lemma push_schedule_kept_witness :
  push_reachable tight 10 (demo_world, demo_admitted) /\ size (scPending demo_admitted) = 1%nat /\
  forall key p, scPending demo_admitted !! key = Some p -> 1 <= ppCount p /\ fireAt p <= scNow demo_admitted + 10.
Proof.
  split; [exact demo_admits|]. split; [vm_compute; reflexivity|].
  destruct (push_schedule_kept tight 10 demo_world demo_admitted demo_admits) as (_ & _ & _ & H & _).
  intros key p Hp. destruct (H key p Hp) as (H1 & _ & _ & H2 & _). exact (conj H1 H2).
Defined.
