(* ===== verification/HubView.v ===== *)
(** * The sidebar: internal/hub/session.go, networks.go, internal/store/store.go

    What a browser sees of the networks and buffers, searches, and the requests that
    change the list: closing a buffer, with or without its history, and joining or
    leaving a channel for good. *)

From S2P Require Import Prelude GoStrings GoUtf8 GoNet GoTime GoJson Policy Config Netconf Networks NetworksProofs NetworksPut Ring RingProofs Store StoreProofs StoreSpec StoreQuery IrcMsg ISupport Outbound Search Conn HubRoute HubClose HubInfo Hub HubClosed HubCommand HubHistory HubMembers.

(** ** The rows of the list *)

Record BufferInfo := MkInfo { biNetwork : gostring; biTarget : gostring; biLastTS : Z; biMarker : Z; biUnread : Z }.

(** Conversation lines newer than the marker. *)
Definition is_talk (m : Ring.Message) : bool := (MCommand m == §"PRIVMSG") || (MCommand m == §"NOTICE").
Definition unread_count (b : Buffer) : Z := len (List.filter (fun m => is_talk m && (default 0 (marker b) <? UnixMilli (Time m))) (table b)).
Definition buffer_info (b : Buffer) : BufferInfo := MkInfo (bNetwork b) (bName b) (last_ts b) (default 0 (marker b)) (unread_count b).

(** ORDER BY last_ts DESC, network, name. *)
Definition recent_le (a b : BufferInfo) : Prop :=
  biLastTS b < biLastTS a \/ (biLastTS a = biLastTS b /\
    (str_lt (biNetwork a) (biNetwork b) = true \/ (biNetwork a = biNetwork b /\ str_le (biTarget a) (biTarget b)))).
#[global] Instance recent_le_dec a b : Decision (recent_le a b).
Proof. unfold recent_le. apply _. Defined.

Definition visible_infos (st : Store) : list BufferInfo :=
  (fun e : Z * Buffer => buffer_info e.2) <$> List.filter (fun e => negb (archived e.2)) (map_to_list (db st)).

Definition RecentBuffers (limit : Z) (st : Store) : list BufferInfo * bool :=
  if limit <=? 0 then ([], false)
  else
    let out := take (Z.to_nat (limit + 1)) (merge_sort recent_le (visible_infos st)) in
    (take (Z.to_nat limit) out, len out >? limit).

(** ** get_buffers *)

Definition maxBufferResponseRows : Z := 512.
Definition maxNetworkResponseRows : Z := 64.

Record NetworkInfo := MkNetInfo { niName : gostring; niState : gostring; niNick : gostring; niChanTypes : gostring }.
Definition network_json (n : NetworkInfo) : gostring :=
  jsonObject ([json_field §"name" (jsonString (niName n)); json_field §"state" (jsonString (niState n)); json_field §"nick" (jsonString (niNick n))]
    ++ json_omit (niChanTypes n == []) (json_field §"chantypes" (jsonString (niChanTypes n)))).
Definition info_json (b : BufferInfo) : gostring :=
  jsonObject [json_field §"network" (jsonString (biNetwork b)); json_field §"buffer" (jsonString (biTarget b)); json_field §"last_time" (Itoa (biLastTS b));
              json_field §"marker" (Itoa (biMarker b)); json_field §"unread" (Itoa (biUnread b))].

Record BuffersData := MkBuffers { bdNetworks : list NetworkInfo; bdBuffers : list BufferInfo; bdTruncated : bool }.
Definition buffers_json (d : BuffersData) : gostring :=
  jsonObject [json_field §"networks" (jsonArray (network_json <$> bdNetworks d)); json_field §"buffers" (jsonArray (info_json <$> bdBuffers d));
              json_field §"truncated" (jsonBool (bdTruncated d))].

(** Networks in the order of the recent buffers, each once, then the others by name. *)
Fixpoint represented (states : gmap gostring gostring) (seen : gset gostring) (infos : list BufferInfo) : list gostring * gset gostring :=
  match infos with
  | [] => ([], seen)
  | b :: infos =>
      if bool_decide (is_Some (states !! biNetwork b)) && negb (bool_decide (biNetwork b ∈ seen)) then
        let '(names, seen) := represented states ({[biNetwork b]} ∪ seen) infos in (biNetwork b :: names, seen)
      else represented states seen infos
  end.
Definition orderedNetworkNamesLocked (states : gmap gostring gostring) (infos : list BufferInfo) : list gostring :=
  let names := sort_Strings (elements (dom states)) in
  let '(ordered, seen) := represented states ∅ infos in
  ordered ++ List.filter (fun n => negb (bool_decide (n ∈ seen))) names.

Definition network_info (d : Desk) (name : gostring) : NetworkInfo :=
  let state := default [] (hStates (dkHub d) !! name) in
  match dkLinks d !! name with
  | Some l => MkNetInfo name state (lkNick l) (chanTypes (lkIsup l))
  | None => MkNetInfo name state [] []
  end.

(** The names included, with the bytes used so far. *)
Definition fillBufferNetworksLocked (d : Desk) (used : Z) (names : list gostring) : list gostring * Z * bool :=
  fill_rows (fun name => network_json (network_info d name)) used [] names.

Fixpoint fillBufferRows (included : list gostring) (used : Z) (out : list BufferInfo) (infos : list BufferInfo) : list BufferInfo * bool :=
  match infos with
  | [] => (out, false)
  | b :: infos =>
      if negb (bool_decide (biNetwork b ∈ included)) then let '(out, _) := fillBufferRows included used out infos in (out, true)
      else
        let extra := len (info_json b) + (if len out >? 0 then 1 else 0) in
        if used + extra >? maxHistoryPayloadBytes then (out, true) else fillBufferRows included (used + extra) (out ++ [b]) infos
  end.

Definition handleGetBuffers (d : Desk) : BuffersData :=
  let '(infos, storeMore) := RecentBuffers maxBufferResponseRows (hStore (dkHub d)) in
  let names := orderedNetworkNamesLocked (hStates (dkHub d)) infos in
  let cut := len names >? maxNetworkResponseRows in
  let names := if cut then slice_to names maxNetworkResponseRows else names in
  let base := MkBuffers [] [] (storeMore || cut) in
  let '(included, used, full) := fillBufferNetworksLocked d (len (buffers_json base)) names in
  let '(rows, more) := fillBufferRows included used [] infos in
  MkBuffers (network_info d <$> included) rows (storeMore || cut || full || more).

(** ** The list is exact *)

#[local] Instance recent_total : Total recent_le.
Proof.
  intros a b. unfold recent_le. destruct (Z.lt_trichotomy (biLastTS a) (biLastTS b)) as [?|[Ht|?]]; [right; by left|rewrite Ht|left; by left].
  destruct (str_lt (biNetwork a) (biNetwork b)) eqn:E1; [by left; right; split; [|left]|]. destruct (str_lt (biNetwork b) (biNetwork a)) eqn:E2; [by right; right; split; [|left]|].
  assert (biNetwork a = biNetwork b) as En by (by apply (anti_symm str_le)). destruct (total str_le (biTarget a) (biTarget b)); [left|right]; right; (split; [done|right; by split]).
Qed.
#[local] Instance recent_trans : Transitive recent_le.
Proof.
  intros a b c [H1|[T1 H1]] [H2|[T2 H2]]; [left; lia|left; lia|left; lia|]. right. split; [lia|].
  destruct H1 as [H1|[N1 H1]], H2 as [H2|[N2 H2]]; [left; by eapply str_lt_trans|left; by rewrite <- N2|left; by rewrite N1|right; split; [congruence|by transitivity (biTarget b)]].
Qed.

Definition newest_first (l : list BufferInfo) : Prop := StronglySorted recent_le l.

Lemma recent_sorted (l : list BufferInfo) : newest_first (merge_sort recent_le l).
Proof. apply (StronglySorted_merge_sort recent_le). Qed.

Lemma represented_spec states infos seen :
  let '(names, seen') := represented states seen infos in
  NoDup names /\ (forall n, n ∈ names -> (n ∉ seen) /\ is_Some (states !! n)) /\ seen' = seen ∪ list_to_set names.
Proof.
  revert seen. induction infos as [|b infos IH]; intros seen; cbn [represented]; [split_and!; [constructor|by intros n []%not_elem_of_nil|set_solver]|].
  destruct (_ && _) eqn:E; [|apply IH]. apply andb_true_iff in E as [E1%bool_decide_eq_true E2%negb_true_iff%bool_decide_eq_false].
  specialize (IH ({[biNetwork b]} ∪ seen)). destruct (represented _ _ _) as [names seen']. destruct IH as (H1 & H2 & ->). split_and!.
  - constructor; [|done]. intros Hb. destruct (H2 _ Hb). set_solver.
  - intros n [->|Hn]%elem_of_cons; [done|]. destruct (H2 n Hn). split; [set_solver|done].
  - set_solver.
Qed.

Lemma ordered_names states infos : orderedNetworkNamesLocked states infos ≡ₚ elements (dom states).
Proof.
  unfold orderedNetworkNamesLocked. pose proof (represented_spec states infos ∅) as Hr. destruct (represented _ _ _) as [names seen]. destruct Hr as (Hn & Hin & ->).
  apply NoDup_Permutation; [|apply NoDup_elements|].
  - apply NoDup_app. split; [done|]. split.
    + intros n Hl Hf%list_elem_of_In%filter_In. destruct Hf as [_ Hf%negb_true_iff%bool_decide_eq_false]. set_solver.
    + apply NoDup_ListNoDup, List.NoDup_filter, NoDup_ListNoDup. rewrite sort_Strings_perm. apply NoDup_elements.
  - intros n. rewrite elem_of_app, elem_of_elements, elem_of_dom. split.
    + intros [Hl|Hf%list_elem_of_In%filter_In]; [by apply Hin|]. destruct Hf as [Hf%list_elem_of_In _]. by rewrite sort_Strings_perm, elem_of_elements, elem_of_dom in Hf.
    + intros Hs. destruct (decide (n ∈ names)) as [|Hne]; [by left|right]. apply list_elem_of_In, filter_In. split.
      * apply list_elem_of_In. by rewrite sort_Strings_perm, elem_of_elements, elem_of_dom.
      * apply negb_true_iff, bool_decide_eq_false. set_solver.
Qed.

Lemma fillBufferRows_fill included used out infos :
  fillBufferRows included used out infos =
  let '(res, _, cut) := fill_rows info_json used out (List.filter (fun b => bool_decide (biNetwork b ∈ included)) infos) in
  (res, cut || existsb (fun b => negb (bool_decide (biNetwork b ∈ included))) infos).
Proof.
  revert used out. induction infos as [|b infos IH]; intros used out; cbn [fillBufferRows List.filter existsb]; [done|].
  destruct (bool_decide (biNetwork b ∈ included)); cbn [negb orb].
  - cbn [fill_rows]. destruct (_ >? _); [done|]. by rewrite IH.
  - rewrite IH. destruct (fill_rows _ _ _ _) as [[res u] cut]. by rewrite orb_true_r.
Qed.

Lemma buffers_json_len ns bs tr tr' : (tr' = true -> tr = true) ->
  len (buffers_json (MkBuffers ns bs tr)) <= len (buffers_json (MkBuffers [] [] tr')) + joined_len (network_json <$> ns) + joined_len (info_json <$> bs).
Proof.
  intros Ht. unfold buffers_json. rewrite !jsonObject_len. cbn [bdNetworks bdBuffers bdTruncated]. unfold joined_len at 1 2. cbn [foldr].
  rewrite !(json_field_len §"networks"), !(json_field_len §"buffers"), !(json_field_len §"truncated"), !jsonArray_len, !len_cons.
  change (joined_len (network_json <$> [])) with 0. change (joined_len (info_json <$> [])) with 0.
  assert (len (jsonBool tr) <= len (jsonBool tr')) by (destruct tr, tr'; try done; by specialize (Ht eq_refl)). lia.
Qed.

Lemma recent_page limit st : 0 < limit ->
  let '(infos, more) := RecentBuffers limit st in
  let all := merge_sort recent_le (visible_infos st) in
  infos = take (Z.to_nat limit) all /\ more = (limit <? len all).
Proof.
  intros Hl. unfold RecentBuffers. assert ((limit <=? 0) = false) as -> by lia. cbv zeta. rewrite take_take. split; [f_equal; lia|].
  unfold len. rewrite length_take. lia.
Qed.

(** The names kept are a prefix of the names offered. *)
Lemma shown_names d used names :
  let '(included, used', full) := fillBufferNetworksLocked d used names in
  exists k, (k <= length names)%nat /\ included = take k names /\ full = (k <? length names)%nat /\
    used' = used + joined_len (network_json <$> (network_info d <$> included)) /\ used' <= Z.max used maxHistoryPayloadBytes.
Proof.
  unfold fillBufferNetworksLocked. pose proof (fill_rows_spec (fun name => network_json (network_info d name)) names used []) as Hf.
  destruct (fill_rows _ _ _ _) as [[included used'] full]. destruct Hf as (k & Hk & -> & -> & Hu & Hm & _). exists k. cbn [app] in *.
  split_and!; [done..| |done]. rewrite <- list_fmap_compose. change (joined_len ((fun name => network_json (network_info d name)) <$> [])) with 0 in Hu.
  change (network_json ∘ network_info d) with (fun name => network_json (network_info d name)). lia.
Qed.

Lemma sublist_sorted l k : l `sublist_of` k -> newest_first k -> newest_first l.
Proof.
  intros Hs Hk. revert l Hs. induction Hk as [|x k Hk IH Hx]; intros l Hs; [apply sublist_nil_r in Hs as ->; constructor|].
  apply sublist_cons_r in Hs as [Hs|(l' & -> & Hs)]; [by apply IH|]. constructor; [by apply IH|]. rewrite Forall_forall in *. intros y Hy. apply Hx. by eapply elem_of_sublist.
Qed.

Lemma sublist_full {A} (l k : list A) : l `sublist_of` k -> (length k <= length l)%nat -> l = k.
Proof.
  induction 1 as [|x l k H IH|x l k H IH]; intros Hl; [done| |].
  - f_equal. apply IH. cbn in Hl. lia.
  - apply sublist_length in H. cbn in Hl. lia.
Qed.

(** The flag is set exactly when something is left out. *)
Lemma complete_iff (d : Desk) infos (storeMore : bool) visible (all included : list gostring) (cut full rcut : bool) kept rows :
  infos = take 512 (merge_sort recent_le visible) -> storeMore = (512 <? len (merge_sort recent_le visible)) ->
  all ≡ₚ elements (dom (hStates (dkHub d))) -> included `sublist_of` all -> (length included <= 64)%nat -> cut = (len all >? 64) ->
  (full = false -> included = take 64 all) -> (full = true -> (length included < length all)%nat) ->
  kept = List.filter (fun b => bool_decide (biNetwork b ∈ included)) infos -> rows `sublist_of` kept -> rcut = (length rows <? length kept)%nat ->
  storeMore || cut || full || (rcut || existsb (fun b => negb (bool_decide (biNetwork b ∈ included))) infos) = false <->
  rows ≡ₚ visible /\ included ≡ₚ elements (dom (hStates (dkHub d))).
Proof.
  intros Hinfos -> Hall Hsub H64 -> Hf1 Hf2 Hkept Hrk ->. pose proof (merge_sort_Permutation recent_le visible) as Hp. pose proof (Permutation_length Hp) as Hpl.
  assert (rows `sublist_of` infos) as Hri by (transitivity kept; [done|rewrite Hkept; apply filter_sublist]).
  rewrite !orb_false_iff. split.
  - intros [[[H1 H2] H3] [H4 H5]]. specialize (Hf1 H3). apply Z.ltb_ge in H1. unfold len in H1. rewrite take_ge in Hinfos by lia. split.
    + assert (kept = infos) as Ek.
      { rewrite Hkept. apply List.forallb_filter_id, forallb_forall. intros b Hb. apply not_false_iff_true. intros E.
        apply not_true_iff_false in H5. apply H5, existsb_exists. exists b. by rewrite E. }
      apply Nat.ltb_ge in H4. assert (rows = kept) as -> by (by apply sublist_full). by rewrite Ek, Hinfos.
    + rewrite Hf1, take_ge; [done|]. unfold len in H2. lia.
  - intros [Hv Hn]. pose proof (Permutation_length Hv) as Hvl. pose proof (sublist_length _ _ Hri) as Hl. rewrite <- Hall in Hn. pose proof (Permutation_length Hn) as Hnl.
    pose proof (sublist_length _ _ Hrk) as Hrkl. assert (length infos <= 512)%nat as Hi by (rewrite Hinfos, length_take; lia).
    assert (length kept <= length infos)%nat as Hkl by (rewrite Hkept; apply List.filter_length_le). assert (length infos <= length visible)%nat by (rewrite Hinfos, length_take; lia).
    split_and!; [apply Z.ltb_ge; unfold len; lia|unfold len; lia|by destruct full; [specialize (Hf2 eq_refl); lia|]|apply Nat.ltb_ge; lia|].
    apply not_true_iff_false. intros (b & Hb & Hnb)%existsb_exists. apply negb_true_iff, bool_decide_eq_false in Hnb. apply Hnb.
    assert (b ∈ rows) as Hbr by (rewrite Hv, <- Hp; apply list_elem_of_In in Hb; rewrite Hinfos in Hb; eapply elem_of_sublist; [exact Hb|apply sublist_take]).
    assert (b ∈ kept) as Hbk by (by eapply elem_of_sublist). rewrite Hkept in Hbk. apply list_elem_of_In, filter_In in Hbk as [_ Hbk]. by apply bool_decide_eq_true in Hbk.
Qed.

(** C20. What get_buffers answers is the truth about the stores and networks it was asked
    of, and says when it is not all of it.  The answer fits in 512 KiB; the buffers are
    visible buffers of the networks listed, newest activity first, each with its marker
    and the number of conversation lines after it; the networks are running or
    configured ones, each once, with their state; and the answer says it is complete
    exactly when every visible buffer and every network is in it. *)
Theorem sidebar_exact d :
  let p := handleGetBuffers d in
  let visible := visible_infos (hStore (dkHub d)) in
  len (buffers_json p) <= maxHistoryPayloadBytes /\
  newest_first (bdBuffers p) /\ bdBuffers p ⊆+ visible /\ (length (bdBuffers p) <= 512)%nat /\
  (forall b, b ∈ bdBuffers p -> biNetwork b ∈ niName <$> bdNetworks p) /\
  NoDup (niName <$> bdNetworks p) /\ (length (bdNetworks p) <= 64)%nat /\
  (forall n, n ∈ bdNetworks p -> is_Some (hStates (dkHub d) !! niName n) /\ n = network_info d (niName n)) /\
  (bdTruncated p = false <-> bdBuffers p ≡ₚ visible /\ niName <$> bdNetworks p ≡ₚ elements (dom (hStates (dkHub d)))).
Proof.
  cbv zeta. unfold handleGetBuffers. pose proof (recent_page maxBufferResponseRows (hStore (dkHub d)) ltac:(done)) as Hrecent.
  destruct (RecentBuffers _ _) as [infos storeMore]. cbv zeta in Hrecent. destruct Hrecent as [Hinfos Hmore].
  set (visible := visible_infos (hStore (dkHub d))) in *. set (states := hStates (dkHub d)). change (Z.to_nat maxBufferResponseRows) with 512%nat in Hinfos.
  pose proof (ordered_names states infos) as Hnames. set (all := orderedNetworkNamesLocked states infos) in *. change maxNetworkResponseRows with 64.
  set (cut := len all >? 64). set (names := if cut then slice_to all 64 else all).
  assert (names = take 64 all) as En by (unfold names, cut, len; destruct (Z.gtb_spec (Z.of_nat (length all)) 64); [done|by rewrite take_ge by lia]).
  set (base := MkBuffers [] [] (storeMore || cut)). pose proof (shown_names d (len (buffers_json base)) names) as Hs.
  destruct (fillBufferNetworksLocked _ _ _) as [[included used] full]. destruct Hs as (k & Hk & Hincl & Hfull & Hused & Hmax). rewrite fillBufferRows_fill.
  set (kept := List.filter (fun b => bool_decide (biNetwork b ∈ included)) infos). pose proof (fill_rows_spec info_json kept used []) as Hr.
  destruct (fill_rows info_json _ _ _) as [[rows used'] rcut]. destruct Hr as (j & Hj & Hrows & Hrcut & Hu & Hmax' & _). cbn [app] in Hrows. cbn [bdNetworks bdBuffers bdTruncated].
  assert (niName <$> (network_info d <$> included) = included) as Eni.
  { rewrite <- list_fmap_compose. rewrite <- (list_fmap_id included) at 2. apply list_fmap_ext. intros i x _. cbn. unfold network_info. by destruct (dkLinks d !! x). }
  assert (included `sublist_of` all) as Hsub by (rewrite Hincl, En; transitivity (take 64 all); apply sublist_take).
  assert (NoDup all) as Hnd by (rewrite Hnames; apply NoDup_elements).
  assert (rows `sublist_of` infos) as Hrsub by (rewrite Hrows; transitivity kept; [apply sublist_take|apply filter_sublist]).
  assert (len (buffers_json base) <= 100) as Hbase by (unfold base; destruct (storeMore || cut); by vm_compute). change maxHistoryPayloadBytes with 524288 in *.
  split; [|split; [|split; [|split; [|split; [|split; [|split; [|split]]]]]]].
  - pose proof (buffers_json_len (network_info d <$> included) rows (storeMore || cut || full || (rcut || existsb (fun b => negb (bool_decide (biNetwork b ∈ included))) infos)) (storeMore || cut)) as Hb.
    fold base in Hb. specialize (Hb ltac:(intros ->; done)). change (joined_len (info_json <$> [])) with 0 in Hu. lia.
  - assert (newest_first infos) as Hi by (rewrite Hinfos; pose proof (recent_sorted visible) as Hx; rewrite <- (take_drop 512 (merge_sort recent_le visible)) in Hx; by apply StronglySorted_app in Hx as (_ & Hx & _)).
    by apply (sublist_sorted rows infos).
  - transitivity infos; [by apply sublist_submseteq|]. rewrite Hinfos. transitivity (merge_sort recent_le visible); [apply sublist_submseteq, sublist_take|]. by rewrite merge_sort_Permutation.
  - apply sublist_length in Hrsub. rewrite Hinfos, length_take in Hrsub. lia.
  - intros b Hb. rewrite Eni. rewrite Hrows in Hb. assert (b ∈ kept) as Hbk by (eapply elem_of_sublist; [exact Hb|apply sublist_take]).
    apply list_elem_of_In, filter_In in Hbk as [_ Hbk]. by apply bool_decide_eq_true in Hbk.
  - rewrite Eni. by eapply sublist_NoDup.
  - rewrite length_fmap, Hincl, length_take, En, length_take. lia.
  - intros n Hn. apply list_elem_of_fmap in Hn as (name & -> & Hn). assert (niName (network_info d name) = name) as -> by (unfold network_info; by destruct (dkLinks d !! name)).
    split; [|done]. assert (name ∈ all) as Ha by (eapply elem_of_sublist; done). by rewrite Hnames, elem_of_elements, elem_of_dom in Ha.
  - rewrite Eni. assert (length names = Nat.min 64 (length all)) as Hnl by (by rewrite En, length_take). apply (complete_iff d infos _ visible all included cut full rcut kept rows); try done.
    + rewrite Hincl, length_take. lia.
    + rewrite Hfull. intros Hf%Nat.ltb_ge. by rewrite Hincl, En, take_ge by (rewrite length_take; lia).
    + rewrite Hfull. intros Hf%Nat.ltb_lt. rewrite Hincl, length_take. lia.
    + rewrite Hrows. apply sublist_take.
    + rewrite Hrcut, Hrows, length_take. by rewrite (Nat.min_l j) by done.
Qed.

(** ** Unread counts *)

Lemma count_perm (P : Ring.Message -> bool) l k : l ≡ₚ k -> len (List.filter P l) = len (List.filter P k).
Proof. intros Hp. unfold len. by rewrite (filter_perm P l k Hp). Qed.

(** A new row counts when it is conversation newer than the marker; presence does
    not. *)
Lemma unread_appended b a m :
  unread_count (set_archived a (set_table (table_insert m (table b)) b)) =
  unread_count b + (if is_talk m && (default 0 (marker b) <? UnixMilli (Time m)) then 1 else 0).
Proof.
  unfold unread_count. cbn [set_archived set_table table marker]. rewrite (count_perm _ _ _ (table_insert_perm m (table b))). cbn [List.filter].
  destruct (_ && _); [rewrite len_cons; lia|lia].
Qed.

(** Reading to the newest row leaves nothing unread. *)
Lemma unread_read b t : (forall m, m ∈ table b -> UnixMilli (Time m) <= t) -> unread_count (set_marker t b) = 0.
Proof.
  intros Ht. unfold unread_count. cbn [set_marker table marker default]. assert (List.filter (fun m => is_talk m && (t <? UnixMilli (Time m))) (table b) = []) as Hn; [|unfold id; by rewrite Hn].
  induction (table b) as [|m l IH]; [done|]. cbn [List.filter]. rewrite IH by (intros x Hx; apply Ht; by right). specialize (Ht m ltac:(by left)).
  assert ((t <? UnixMilli (Time m)) = false) as -> by lia. by rewrite andb_false_r.
Qed.

(** ** Searches and markers *)

Definition maxSearchQueryBytes : Z := 1024.
Definition maxSearchTerms : Z := 32.
Definition maxSearchMessages : Z := 64.

Record SearchReq := MkSearchReq { sqNetwork : gostring; sqBuffer : gostring; sqQuery : gostring; sqBefore : option Cursor; sqLimit : Z }.
Record SearchData := MkSearchData { rsQuery : gostring; rsMessages : list Ring.Message; rsMore : bool }.
Definition search_json (d : SearchData) : gostring :=
  jsonObject [json_field §"query" (jsonString (rsQuery d)); json_field §"messages" (jsonArray (event_json <$> rsMessages d)); json_field §"has_more" (jsonBool (rsMore d))].

Section search.
Variable matches : gostring -> Ring.Message -> bool.

Definition search_limit (n : Z) : Z := if (n <=? 0) || (n >? maxSearchMessages) then maxSearchMessages else n.

Definition handleSearch (req : option SearchReq) (st : Store) : (gostring * gostring) + SearchData :=
  match req with
  | None => inl (§"bad_request", §"malformed search data")
  | Some d =>
      let query := TrimSpace (sqQuery d) in
      if query == [] then inl (§"bad_request", §"search needs a query")
      else if (len query >? maxSearchQueryBytes) || (len (Fields query) >? maxSearchTerms) then inl (§"bad_request", §"search query is too long")
      else
        let limit := search_limit (sqLimit d) in
        let msgs := SearchMessages matches (MkSearch query (sqNetwork d) (sqBuffer d) (default (MkCursor 0 0) (sqBefore d)) (limit + 1)) st in
        let more := len msgs >? limit in
        let msgs := if more then slice_to msgs limit else msgs in
        let base := MkSearchData query [] more in
        let '(out, _, cut) := fill_rows event_json (len (search_json base)) [] (eventData <$> msgs) in
        inr (MkSearchData query out (more || cut))
  end.
End search.

Definition handleGetMarker (lim : limits) (req : option (gostring * gostring)) (d : Desk) : outcome :=
  match req with
  | None => fails §"bad_request" §"malformed get_read_marker data" d
  | Some (network, buffer) =>
      let '(t, st) := ReadMarker lim network buffer (hStore (dkHub d)) in
      ([RMarker buffer (markerMillis t)], [], with_hub (with_store st (dkHub d)) d)
  end.

(** ** Closing a buffer *)

(** [unicode.IsControl]. *)
Definition IsControl (r : Z) : bool := in_range 0 r 0x1F || in_range 0x7F r 0x9F.
Definition validCloseBuffer (name : gostring) : bool :=
  if (name == []) || (len name >? 512) || negb (ValidString name) then false else forallb (fun r => negb (IsSpace r || IsControl r)) (runes name).

Section close.
Context `{Unicode, IrcV4}.
Variables (lim : limits) (now : Z).
(** The order in which Go ranges over the table of closes. *)
Variable iter : gmap gostring Z -> list (gostring * Z).

(** The rows go first, the buffer stays; the ring with them. *)
Definition PurgeBufferMessages (network target : gostring) (f : gostring -> gostring) (st : Store) : Store :=
  match bufferID lim network (canonicalBufferLocked network target (Some f) st) false st with
  | (None, st) => st
  | (Some id, st) => dropRingLocked id (set_db (alter (set_table []) id (db st)) st)
  end.

Record BufferRef := MkRef { brNetwork : gostring; brBuffer : gostring; brPurge : option bool }.

(** What the session and the other browsers are told; the push scheduler drops what is
    pending for the buffer. *)
Inductive view_act :=
  | ViewError (code text : gostring)
  | ViewOk (buffer : gostring) (purge : bool)
  | ViewClosed (buffer : gostring) (purge : bool)
  | ViewPushCancel (buffer : gostring).

(** [meanwhile] is what other requests and the event loops do to the store between the
    purge, which holds no lock of the hub, and the removal of the row. *)
Definition handleCloseBuffer (req : option BufferRef) (meanwhile : list op) (d : Desk) : list view_act * Desk :=
  match req with
  | None => ([ViewError §"bad_request" §"close_buffer needs a network and a buffer"], d)
  | Some r =>
      if (brNetwork r == []) || (brBuffer r == []) then ([ViewError §"bad_request" §"close_buffer needs a network and a buffer"], d)
      else if negb (validCloseBuffer (brBuffer r)) then ([ViewError §"bad_request" §"invalid buffer name"], d)
      else if negb (knownNetwork (brNetwork r) d) then ([ViewError §"unknown_network" §"unknown network"], d)
      else
        let purge := default true (brPurge r) in
        let fold := match dkLinks d !! brNetwork r with Some l => connFold (link_conn l) | None => asciiFold end in
        let h := dkHub d in
        let '(canonical, h) :=
          if purge then
            let st := run lim meanwhile (PurgeBufferMessages (brNetwork r) (brBuffer r) fold (hStore h)) in
            let '(canonical, st) := DeleteBufferFolded lim (brNetwork r) (brBuffer r) (Some fold) st in
            (canonical, with_closes (markClosed iter (brNetwork r) (fold canonical) (UnixMilli now) (hCloses h)) (with_store st h))
          else
            let '(canonical, st) := ArchiveBufferFolded (brNetwork r) (brBuffer r) (Some fold) (hStore h) in (canonical, with_store st h) in
        ([ViewOk canonical purge; ViewClosed canonical purge; ViewPushCancel canonical], with_hub h d)
  end.
End close.

(** ** A close is final *)

Section final.
Context (lim : limits) (Hsize : 1 <= ringSize lim) (Hbudget : 0 <= maxRingBytes lim).

Lemma canonical_folds f network target st : f (canonicalBufferLocked network target (Some f) st) = f target.
Proof.
  unfold canonicalBufferLocked, fold_scan. pose proof (head_filter (fun e : Z * Buffer => (bNetwork e.2 == network) && (f (bName e.2) == f target)) (map_to_list (db st))) as Hh.
  destruct (head _) as [e|]; cbn; [|done]. by destruct Hh as [_ [_ Hf%bool_decide_eq_true]%andb_true_iff].
Qed.

(** Under one spelling per folded name, the buffers that fold like the target are the
    one of the canonical name. *)
Lemma canonical_only f network target st id b : no_split f st -> db st !! id = Some b -> bNetwork b = network -> f (bName b) = f target ->
  key b = (network, canonicalBufferLocked network target (Some f) st).
Proof.
  intros Hns Hb Hn Hf. unfold canonicalBufferLocked, fold_scan. pose proof (head_filter (fun e : Z * Buffer => (bNetwork e.2 == network) && (f (bName e.2) == f target)) (map_to_list (db st))) as Hh.
  destruct (head _) as [[j c]|]; cbn.
  - destruct Hh as [Hc%elem_of_map_to_list [Hcn%bool_decide_eq_true Hcf%bool_decide_eq_true]%andb_true_iff]. cbn [snd] in *.
    assert (id = j) as -> by (apply (Hns id j b c); congruence). unfold key, id. congruence.
  - exfalso. apply elem_of_map_to_list in Hb. specialize (Hh _ Hb). cbn [snd] in Hh. by rewrite !bool_decide_eq_true_2 in Hh.
Qed.

Lemma delete_rows network target f st : store_ok lim st ->
  let '(c, st') := DeleteBufferFolded lim network target (Some f) st in
  c = canonicalBufferLocked network target (Some f) st /\ store_ok lim st' /\
  forall id b, db st' !! id = Some b <-> db st !! id = Some b /\ key b <> (network, c).
Proof.
  intros Hst. pose proof (delete_ok lim Hsize Hbudget network target (Some f) st Hst) as [Hok _]. revert Hok. unfold DeleteBufferFolded. cbv zeta. set (c := canonicalBufferLocked _ _ _ _).
  pose proof (bufferID_ok lim Hsize network c false st Hst) as H. destruct (bufferID lim network c false st) as [[i|] st1]; intros Hok; (split; [done|split; [done|]]); intros id b.
  - destruct H as (Hst1 & x & (Hx & Hk & _) & [(E & _)|[? _]]); [|done]. rewrite E in Hx. cbn [snd] in *.
    assert (db (set_cache (delete (network, c) (cache (dropRingLocked i (set_db (delete i (db st1)) st1)))) (dropRingLocked i (set_db (delete i (db st1)) st1))) = delete i (db st)) as ->.
    { cbn. unfold dropRingLocked. cbn. rewrite E. by destruct (rings st1 !! i) as [[r u]|]. }
    rewrite lookup_delete_Some. split; intros [H1 H2].
    + split; [done|]. intros Hkb. apply H1. apply (ok_names lim st Hst i id x b); congruence.
    + split; [|done]. intros <-. congruence.
  - destruct H as [-> Habs]. split; [intros Hb; split; [done|by apply (Habs id)]|tauto].
Qed.

Lemma purge_rows network target f st : store_ok lim st ->
  let st' := PurgeBufferMessages lim network target f st in
  store_ok lim st' /\ names_sub st st' /\
  forall id b, key b <> (network, canonicalBufferLocked network target (Some f) st) -> db st' !! id = Some b <-> db st !! id = Some b.
Proof.
  intros Hst. unfold PurgeBufferMessages. cbv zeta. set (c := canonicalBufferLocked _ _ _ _). pose proof (bufferID_db lim Hsize network c st Hst) as H.
  destruct (bufferID lim network c false st) as [[i|] st1]; [|destruct H as (H1 & H2 & _); split_and!; [done|by apply names_sub_db|intros j x _; by rewrite H2]].
  destruct H as (Hst1 & Edb & Hi). destruct (Hi i eq_refl) as (b & Hb & Hk). rewrite <- Edb in Hb. pose proof (drop_ok lim st1 i Hst1) as Hd.
  assert (db (dropRingLocked i st1) = db st1) as Edd by (unfold dropRingLocked; by destruct (rings st1 !! i) as [[r u]|]).
  assert (rings (dropRingLocked i st1) !! i = None) as Hnr by (unfold dropRingLocked; destruct (rings st1 !! i) as [[r u]|] eqn:Er; [apply lookup_delete_eq|done]).
  assert (dropRingLocked i (set_db (alter (set_table []) i (db st1)) st1) = set_db (<[i := set_table [] b]> (db (dropRingLocked i st1))) (dropRingLocked i st1)) as ->.
  { rewrite Edd. assert (alter (set_table []) i (db st1) = <[i := set_table [] b]> (db st1)) as ->.
    { apply map_eq. intros j. destruct (decide (j = i)) as [->|Hne]; [by rewrite lookup_alter_eq, Hb, lookup_insert_eq|by rewrite lookup_alter_ne, lookup_insert_ne]. }
    unfold dropRingLocked. cbn. by destruct (rings st1 !! i) as [[r u]|]. }
  split; [|split].
  - pose proof (update_both_ok lim (dropRingLocked i st1) i b (set_table [] b) (fun r => MkRing (max r) [] true 0) Hd ltac:(by rewrite Edd) eq_refl) as Hu.
    unfold update_ring in Hu. cbn [set_db rings] in Hu. rewrite Hnr in Hu. apply Hu; [|done|].
    + repeat split; try constructor. intros x y Hx. by apply not_elem_of_nil in Hx.
    + intros r [(H1 & _) _]. repeat split; cbn; try done; try constructor; [pose proof H1; change (len (@nil Ring.Message)) with 0; lia|]. by exists [].
  - intros j x Hx. cbn in Hx. rewrite Edd in Hx. destruct (decide (j = i)) as [->|Hne].
    + rewrite lookup_insert_eq in Hx. injection Hx as <-. exists b. by rewrite <- Edb.
    + rewrite lookup_insert_ne in Hx by done. exists x. by rewrite <- Edb.
  - intros j x Hx. cbn. rewrite Edd, <- Edb. destruct (decide (j = i)) as [->|Hne]; [|by rewrite lookup_insert_ne].
    rewrite lookup_insert_eq, Hb. split; intros [= <-]; by destruct Hx.
Qed.

Lemma run_no_split f ops st : store_ok lim st -> Forall legal ops -> Forall (folds f) ops -> no_split f st -> no_split f (run lim ops st).
Proof.
  intros Hst Hl Hf. revert st Hst. induction ops as [|o ops IH]; intros st Hst Hns; [done|].
  apply Forall_cons in Hl as [Hl Hls]. apply Forall_cons in Hf as [Hf Hfs]. destruct (exec_ok lim Hsize Hbudget o st Hst Hl) as [H1 _].
  apply (IH Hls Hfs); [done|]. by apply exec_no_split.
Qed.
End final.

Lemma visible_in st x : x ∈ visible_infos st <-> exists id b, db st !! id = Some b /\ archived b = false /\ x = buffer_info b.
Proof.
  unfold visible_infos. rewrite list_elem_of_fmap. split.
  - intros ([id b] & -> & Hb%list_elem_of_In%filter_In). destruct Hb as [Hb%list_elem_of_In%elem_of_map_to_list Ha%negb_true_iff]. by exists id, b.
  - intros (id & b & Hb & Ha & ->). exists (id, b). split; [done|]. apply list_elem_of_In, filter_In. rewrite <- list_elem_of_In, elem_of_map_to_list. cbn. by rewrite Ha.
Qed.

(** What the list shows is visible. *)
Lemma shown_visible d x : x ∈ bdBuffers (handleGetBuffers d) -> x ∈ visible_infos (hStore (dkHub d)).
Proof.
  unfold handleGetBuffers. pose proof (recent_page maxBufferResponseRows (hStore (dkHub d)) ltac:(done)) as Hr. destruct (RecentBuffers _ _) as [infos more]. destruct Hr as [-> _].
  set (infos := take _ _). destruct (fillBufferNetworksLocked _ _ _) as [[included used] full]. rewrite fillBufferRows_fill.
  set (kept := List.filter _ infos). pose proof (fill_rows_spec info_json kept used []) as Hf. destruct (fill_rows info_json _ _ _) as [[rows u] cut].
  destruct Hf as (k & _ & -> & _). cbn [bdBuffers app]. intros Hx. assert (x ∈ kept) as [Hi _]%list_elem_of_In%filter_In by (eapply elem_of_sublist; [exact Hx|apply sublist_take]).
  apply list_elem_of_In in Hi. rewrite <- (merge_sort_Permutation recent_le (visible_infos _)). eapply elem_of_sublist; [exact Hi|apply sublist_take].
Qed.

Section closing.
Context `{Unicode, IrcV4} (lim : limits) (Hsize : 1 <= ringSize lim) (Hbudget : 0 <= maxRingBytes lim) (now : Z).
Context (iter : gmap gostring Z -> list (gostring * Z)) (iter_perm : forall m, iter m ≡ₚ map_to_list m).

(** The case mapping of the network, if it is connected. *)
Definition fold_of (network : gostring) (d : Desk) : gostring -> gostring :=
  match dkLinks d !! network with Some l => connFold (link_conn l) | None => asciiFold end.

(** The rows of the buffers other than the one closed are what they were. *)
Definition others_kept (network : gostring) (f : gostring -> gostring) (target : gostring) (st st' : Store) : Prop :=
  forall id b, ~ (bNetwork b = network /\ f (bName b) = f target) -> db st' !! id = Some b <-> db st !! id = Some b.

(** Nothing under the name is left. *)
Definition nothing_left (network : gostring) (f : gostring -> gostring) (target : gostring) (st : Store) : Prop :=
  forall id b, db st !! id = Some b -> ~ (bNetwork b = network /\ f (bName b) = f target).

Lemma purge_and_delete network target f meanwhile st :
  store_ok lim st -> no_split f st -> Forall legal meanwhile -> Forall (folds f) meanwhile ->
  let '(c, st') := DeleteBufferFolded lim network target (Some f) (run lim meanwhile (PurgeBufferMessages lim network target f st)) in
  f c = f target /\ store_ok lim st' /\ no_split f st' /\ nothing_left network f target st' /\ (meanwhile = [] -> others_kept network f target st st').
Proof.
  intros Hst Hns Hl Hf. destruct (purge_rows lim Hsize network target f st Hst) as (Hp & Hsub & Hother). set (p := PurgeBufferMessages _ _ _ _ _) in *.
  pose proof (no_split_sub f st p Hsub Hns) as Hpn. destruct (run_ok lim Hsize Hbudget meanwhile p Hp Hl) as [Hm _]. pose proof (run_no_split lim Hsize Hbudget f meanwhile p Hp Hl Hf Hpn) as Hmn.
  pose proof (delete_rows lim Hsize Hbudget network target f _ Hm) as Hd. pose proof (delete_names lim Hsize network target (Some f) _ Hm) as Hdn.
  destruct (DeleteBufferFolded _ _ _ _ _) as [c st']. destruct Hd as (-> & Hok & Hrows). cbn [snd] in Hdn. split_and!; [apply canonical_folds|done|by eapply no_split_sub| |].
  - intros id b Hb [Hn Hfb]. apply Hrows in Hb as [Hb Hk]. apply Hk. by eapply canonical_only.
  - intros -> id b Hb. cbn [run fold_left] in *. rewrite Hrows. rewrite <- (Hother id b).
    + split; [by intros []|]. intros Hx. split; [done|]. intros Hk. apply Hb. injection Hk as Hkn Hkb. split; [done|]. rewrite Hkb. apply canonical_folds.
    + intros Hk. apply Hb. injection Hk as Hkn Hkb. split; [done|]. rewrite Hkb. apply canonical_folds.
Qed.

Definition hide_like (network : gostring) (f : gostring -> gostring) (target : gostring) (b : Buffer) : Buffer :=
  if (bNetwork b == network) && (f (bName b) == f target) then set_archived true b else b.

Lemma archive_rows network target f st : store_ok lim st -> no_split f st ->
  let '(c, st') := ArchiveBufferFolded network target (Some f) st in
  f c = f target /\ store_ok lim st' /\ no_split f st' /\ db st' = hide_like network f target <$> db st.
Proof.
  intros Hst Hns. pose proof (archive_ok lim network target (Some f) st Hst) as [Ho _]. pose proof (archive_names network target (Some f) st) as Hn. revert Ho Hn. unfold ArchiveBufferFolded. cbv zeta. cbn [snd].
  intros Ho Hn. split_and!; [apply canonical_folds|done|by eapply no_split_sub|]. cbn [db set_db]. apply map_eq. intros id. rewrite !lookup_fmap. destruct (db st !! id) as [b|] eqn:Hb; [|done]. cbn [fmap option_fmap option_map]. f_equal. unfold hide_like.
  assert ((bName b == canonicalBufferLocked network target (Some f) st) && (bNetwork b == network) = (bNetwork b == network) && (f (bName b) == f target)) as ->; [|done].
  apply eq_true_iff_eq. rewrite !andb_true_iff, !bool_decide_eq_true. split.
  - intros [-> ->]. split; [done|apply canonical_folds].
  - intros [En Ef]. pose proof (canonical_only f network target st id b Hns Hb En Ef) as Hk. unfold key in Hk. by injection Hk.
Qed.

Lemma unmarked_closed c network fb t : closes_ok c -> HubClose.room c [close_key network fb] -> forall u, t <= u <= t + closeGraceMs ->
  is_closed network fb u (markClosed iter network fb t c).
Proof.
  intros Hok Hroom u Hu. destruct (mark_spec iter iter_perm network fb t c Hok) as (_ & _ & Hm). destruct (Hm [] Hroom) as (_ & Hl & _).
  unfold is_closed, recentlyClosed. rewrite Hl. destruct (Z.gtb_spec (u - t) closeGraceMs); [lia|done].
Qed.

End closing.

(** ** Joining and leaving for good *)

Section join.
Context {Huni : Unicode} {Hirc : IrcV4} {Hpol : PolicyJson} {Hnet : NetJson} {H : Type}.

Inductive join_reply := JoinError (code text : gostring) | JoinSendFailed (e : sendErr) | JoinOk.

(** [JoinOk] also tells every browser that the networks changed.  The JOIN or PART goes
    out first; the flags are whether the definition can be read and written. *)
Definition handleJoinChannel (req : option (gostring * gostring)) (join readOk writeOk : bool) (d : Desk) (s : Nets (H := H)) : join_reply * Desk * Nets :=
  match req with
  | None => (JoinError §"bad_request" §"need a network and a channel", d, s)
  | Some (network, channel) =>
      if (network == []) || (channel == []) then (JoinError §"bad_request" §"need a network and a channel", d, s)
      else if ContainsAny channel [x20; x2c; x0d; x0a] || (len channel >? maxPersistedChannelLen) then (JoinError §"bad_request" §"invalid channel name", d, s)
      else match dkLinks d !! network with
      | None => (JoinError §"unknown_network" §"network is not connected", d, s)
      | Some l =>
          if negb (connIsChannel (link_conn l) channel) then (JoinError §"bad_request" §"not a channel name on this network", d, s)
          else
            let '(err, l) := link_send (newMsg (if join then §"JOIN" else §"PART") [channel]) l in
            let d := with_link network l d in
            match err with
            | Some e => (JoinSendFailed e, d, s)
            | None =>
                match updateAutojoinLocked network [channel] ∅ join (connFold (link_conn l)) readOk writeOk s with
                | None => (JoinError §"internal" §"persisting the channel change failed", d, s)
                | Some s => (JoinOk, d, s)
                end
            end
      end
  end.
End join.

(** The list after an edit by one channel. *)
Lemma edit_one chans ch add f out changed : editChannelList chans [ch] add f = (out, changed) ->
  (if add then f ch ∈ f <$> out \/ maxPersistedChannels <= len out else f ch ∉ f <$> out) /\
  (forall x, f x <> f ch -> x ∈ out <-> x ∈ chans) /\ (changed = false -> out = chans).
Proof.
  unfold editChannelList. cbn [wanted_order]. rewrite bool_decide_eq_false_2 by set_solver. cbn [wanted_order]. destruct add; intros [= <- <-].
  - cbn [add_channels]. destruct (bool_decide_reflect (f ch ∈ (list_to_set (f <$> chans) : gset gostring))) as [Hin|Hnin]; cbn [orb].
    + split_and!; [left; by apply elem_of_list_to_set in Hin|done|done].
    + destruct (Z.leb_spec maxPersistedChannels (len chans)); [split_and!; [by right|done|done]|]. split_and!.
      * left. rewrite fmap_app. set_solver.
      * intros x Hx. rewrite elem_of_app, list_elem_of_singleton. split; [by intros [?| ->]|by left].
      * rewrite length_app. cbn. intros E. apply negb_false_iff, Nat.eqb_eq in E. lia.
  - set (keep := fun c => negb (bool_decide (f c ∈ f <$> [ch]))). assert (forall c, keep c = true <-> f c <> f ch) as Hk.
    { intros c. unfold keep. rewrite negb_true_iff, bool_decide_eq_false. cbn. by rewrite list_elem_of_singleton. }
    split_and!.
    + intros Hin. apply list_elem_of_fmap in Hin as (x & E & Hx%list_elem_of_In%filter_In). destruct Hx as [_ Hx%Hk]. congruence.
    + intros x Hx. rewrite list_elem_of_In, filter_In, <- list_elem_of_In. split; [by intros [? _]|intros Hc; split; [done|by apply Hk]].
    + intros E. apply negb_false_iff, Nat.eqb_eq in E. apply sublist_full; [apply filter_sublist|lia].
Qed.

Section durable.
Context {Huni : Unicode} {Hirc : IrcV4} {Hpol : PolicyJson} {Hnet : NetJson} {Hlaws : NetJsonLaws} {H : Type}.

(** What the definition stores, where it parses. *)
Definition stored_channels (network : gostring) (s : Nets (H := H)) (n : Netconf.Network) : Prop :=
  exists config, stored_config s network = Some config /\ Parse config = Some n /\ keys_listed (nwChannels n) (nwChannelKeys n).

Lemma row_stored network row (s : Nets (H := H)) n : NetworkConfig network s = Some row -> crOversized row = false -> stored_channels network s n -> Parse (crConfig row) = Some n.
Proof.
  unfold NetworkConfig. intros Hr Ho (config & Hc & Hp & _). unfold stored_config in Hc. destruct (nsConfigs s !! network) as [[id c]|]; [|done]. cbn in *.
  destruct (_ <=? _); injection Hr as <-; [|done]. by injection Hc as ->.
Qed.

Lemma plain_channel ch : ContainsAny ch [x20; x2c; x0d; x0a] = false -> hasFramingBytes ch = false -> ContainsAny ch (x20 :: framing_bytes) = false.
Proof.
  unfold hasFramingBytes, ContainsAny. induction ch as [|c ch IH]; [done|]. cbn [existsb]. rewrite !orb_false_iff. intros [A1 A2] [B1 B2]. split; [|by apply IH].
  revert A1 B1. clear. by destruct c.
Qed.

Lemma autojoin_lists network channel join f readOk writeOk (s s' : Nets (H := H)) n :
  updateAutojoinLocked network [channel] ∅ join f readOk writeOk s = Some s' -> stored_channels network s n -> edit_good [channel] ∅ join -> edit_clean [channel] ∅ join ->
  exists n', stored_channels network s' n' /\
    (if join then f channel ∈ f <$> nwChannels n' \/ maxPersistedChannels <= len (nwChannels n') else f channel ∉ f <$> nwChannels n') /\
    (forall x, f x <> f channel -> x ∈ nwChannels n' <-> x ∈ nwChannels n).
Proof.
  intros Eu Hst Hg Hc. revert Eu. unfold updateAutojoinLocked. destruct readOk; [|done]. cbn [negb]. destruct (NetworkConfig network s) as [row|] eqn:Er; [|done]. destruct (crOversized row) eqn:Eo; [done|].
  rewrite (row_stored network row s n Er Eo Hst). destruct (editChannelList _ _ _ _) as [out ch] eqn:El. destruct (editChannelKeys _ _ _ _ _ _) as [ks kc] eqn:Ek.
  destruct (edit_one _ _ _ _ _ _ El) as (Hin & Hkeep & Hsame). destruct (negb ch && negb kc) eqn:En.
  - intros [= <-]. apply andb_true_iff in En as [En%negb_true_iff _]. rewrite (Hsame En) in *. exists n. split; [done|by split].
  - unfold PutNetworkConfig. destruct (negb (ValidateNetworkConfigRecord _ _)); [done|]. destruct (bool_decide _ && _); [done|]. destruct writeOk; [|done]. intros [= <-].
    destruct Hst as (config & Hcfg & Hp & Hl). apply Parse_spec in Hp as [Ed Ev]. destruct (edit_fits _ _ _ _ _ _ _ _ _ _ (validate_channels _ Ev) Hl Hg El Ek) as [Hfit Hlisted].
    exists (with_channels out ks n). split; [|split; [exact Hin|exact Hkeep]]. exists (encodeNetwork (with_channels out ks n)). split; [unfold stored_config; cbn; by rewrite lookup_insert_eq|]. split; [|done].
    unfold Parse. rewrite network_roundtrip; [|by exists config, n|eapply edit_stays_clean; [by eapply network_decoded|exact Hc|exact El|exact Ek]].
    rewrite bool_decide_true; [done|]. by apply validate_with_channels.
Qed.

End durable.

(** ** Runs *)

From S2P Require Import Roster StoreRun HubRun PolicyRun.

#[local] Existing Instance ascii_unicode.
#[local] Existing Instance ref_ircv4.
#[local] Existing Instance demo_json.
#[local] Existing Instance demo_net_json.
#[local] Existing Instance demo_net_json_laws.

(** The network of the stored session, connected. *)
Definition room_desk : Desk := MkDesk (with_states {[ §"net" := §"connected" ]} demo_hub) {[ §"net" := demo_link ]} {[ §"net" ]}.

Example room_rows : biTarget <$> bdBuffers (handleGetBuffers room_desk) = [§"#Go"].
Proof. vm_compute. reflexivity. Qed.

Lemma sidebar_exact_witness :
  bdTruncated (handleGetBuffers room_desk) = false /\ bdBuffers (handleGetBuffers room_desk) ≡ₚ visible_infos (hStore (dkHub room_desk)) /\
  (forall b, b ∈ bdBuffers (handleGetBuffers room_desk) -> biNetwork b ∈ niName <$> bdNetworks (handleGetBuffers room_desk)).
Proof.
  destruct (sidebar_exact room_desk) as (_ & _ & _ & _ & Hin & _ & _ & _ & Hc).
  assert (bdTruncated (handleGetBuffers room_desk) = false) as Ht by (vm_compute; reflexivity). split; [exact Ht|]. split; [exact (proj1 (proj1 Hc Ht))|exact Hin].
Defined.

Definition close_go : BufferRef := MkRef §"net" §"#GO" None.

Lemma room_names : no_split (fold_of §"net" room_desk) (hStore (dkHub room_desk)).
Proof.
  assert (map_Forall (fun i b => map_Forall (fun j c => bNetwork b = bNetwork c -> fold_of §"net" room_desk (bName b) = fold_of §"net" room_desk (bName c) -> i = j)
    (db (hStore (dkHub room_desk)))) (db (hStore (dkHub room_desk)))) as Hm by (apply (bool_decide_unpack _); vm_compute; exact I).
  intros i j b c Hb Hc. exact (Hm i b Hb j c Hc).
Qed.


